(* ===== verification/_CoqProject ===== *)
-Q . S2P
Prelude.v
Programs.v
Types.v
Json.v
PyStr.v
Cursors.v
Secrets.v
Store.v
Session.v
Registry.v
Identity.v
Screening.v
ScreeningSpec.v
SchemaSearch.v
Endpoint.v
Connection.v
Capabilities.v
Discovery.v
Ledger.v
Lease.v
Maintenance.v
Admission.v
Hoare.v
LedgerInv.v
LedgerStep.v
LedgerWp.v
LeaseWp.v
MaintenanceWp.v
AdmissionWp.v
Frame.v
Triple.v
RegistryWp.v
RegistrySafety.v
RefreshInv.v
Review.v
System.v
Scenario.v
Safety.v
FenceSpec.v
MaintenanceSpec.v
Composition.v
RegistryScenario.v
Matcher.v
Policy.v
Stream.v
StreamSpec.v
ResponseSpec.v
TransportScenario.v
Effects.v
Client.v
Runner.v
RunnerSpec.v
Workers.v
Listing.v
Permits.v
Official.v
Catalog.v
CatalogSpec.v
CatalogSafety.v
Failures.v
Refresh.v
RefreshSpec.v
RefreshScenario.v
Endpoints.v
EndpointsSpec.v
IdentitySpec.v
SecretProvider.v
Idempotency.v
IdempotencySpec.v
OrderedDict.v
Limits.v
Authentication.v
ApiScenario.v
Ddl.v
Rows.v
Migrations.v
Models.v
Lint.v
MigrationsSpec.v
