(* ===== verification/Prelude.v ===== *)
(** Prelude of the development (header to be completed). *)
From stdpp Require Export base tactics option list sorting gmap strings fin_maps.
From Stdlib Require Export ZArith Lia.

#[export] Set Default Goal Selector "!".

(** ** Record update

    [r <| Row.field := v |>] is the Python assignment [row.field = v] on a row
    record.  A record type gives its eta expansion once; the setter of a field
    is computed from it, so that projections of an updated row reduce. *)

Class Eta (R : Type) := eta_expand : R → R.

Class Setter {R T : Type} (proj : R → T) := set_field : (T → T) → R → R.
Arguments set_field {R T} proj {_} _ _.

Ltac build_setter proj :=
  lazymatch type of proj with
  | ?R → ?T =>
    let inst := constr:(_ : Eta R) in
    let f := fresh "f" in let r := fresh "r" in
    intros f r;
    let body := eval hnf in (inst r) in
    lazymatch eval pattern (proj r) in body with
    | ?g _ => let res := eval cbv beta in (g (f (proj r))) in exact res
    end
  end.

#[export] Hint Extern 1 (Setter ?proj) => build_setter proj : typeclass_instances.

Declare Scope record_scope.
Delimit Scope record_scope with rec.
#[export] Set Warnings "-notation-overridden".
Notation "r <| proj := v |>" := (set_field proj (λ _, v) r)
  (at level 12, left associativity, proj at level 10, v at level 200,
   format "r <| proj  :=  v |>").

(** ** Outcomes

    A Python call either returns or raises. *)

Inductive result (E A : Type) : Type :=
| Ok (a : A)
| Err (e : E).
Arguments Ok {E A} a.
Arguments Err {E A} e.

Definition result_bind {E A B} (f : A → result E B) (m : result E A) : result E B :=
  match m with Ok a => f a | Err e => Err e end.
#[global] Instance result_ret E : MRet (result E) := @Ok E.
#[global] Instance result_fmap E : FMap (result E) :=
  λ A B f m, match m with Ok a => Ok (f a) | Err e => Err e end.
#[global] Instance result_mbind E : MBind (result E) := @result_bind E.

Definition is_ok {E A} (m : result E A) : bool :=
  match m with Ok _ => true | Err _ => false end.

#[global] Instance result_eq_dec `{EqDecision E, EqDecision A} : EqDecision (result E A).
Proof. solve_decision. Defined.

(** [if b: raise e] in the pure fragments. *)
Definition check_that {E} (b : bool) (e : E) : result E unit :=
  if b then Ok tt else Err e.

Lemma check_that_ok {E} b (e : E) x : check_that b e = Ok x ↔ b = true.
Proof. destruct b, x; cbn; split; congruence. Qed.

Lemma result_bind_ok {E A B} (f : A → result E B) m b :
  m ≫= f = Ok b ↔ ∃ a, m = Ok a ∧ f a = Ok b.
Proof. destruct m; cbn; naive_solver. Qed.

Lemma is_ok_spec {E A} (m : result E A) : is_ok m = true ↔ ∃ a, m = Ok a.
Proof. destruct m; cbn; naive_solver. Qed.

(** ** Identifiers, instants and durations

    A UUID is an opaque identifier; an instant is the number of microseconds
    since the epoch, which is what a timezone-aware [datetime] denotes, and a
    [timedelta] is a number of microseconds. *)

Abbreviation uuid := positive (only parsing).
Abbreviation instant := Z (only parsing).

Definition microsecond : Z := 1.
Definition seconds (n : Z) : Z := n * 1000000.
Definition days (n : Z) : Z := n * 86400000000.

(** A [datetime] value: its wall-clock reading and, when it is aware, its
    offset from UTC. *)
Module Datetime.
Record t := mk { wall : Z; utcoffset : option Z }.

(** [value.tzinfo is None or value.utcoffset() is None] *)
Definition naive (d : t) : bool := bool_decide (utcoffset d = None).

(** [_utc]: a naive value is read as UTC, an aware one is converted. *)
Definition utc (d : t) : instant :=
  match utcoffset d with None => wall d | Some o => wall d - o end.
End Datetime.

(** ** Booleans and options *)

(** The [a or b] of optional identifiers: a UUID is always truthy. *)
Definition or_else {A} (a b : option A) : option A :=
  match a with Some _ => a | None => b end.

(** Equality tests of the source on columns. *)
Definition eqv {A} `{EqDecision A} (a b : A) : bool := bool_decide (a = b).

Lemma eqv_true {A} `{EqDecision A} (a b : A) : eqv a b = true ↔ a = b.
Proof. unfold eqv. apply bool_decide_eq_true. Qed.

Lemma eqv_eq {A} `{EqDecision A} (a b : A) : eqv a b = true → a = b.
Proof. by rewrite eqv_true. Qed.

Lemma eqv_false {A} `{EqDecision A} (a b : A) : eqv a b = false ↔ a ≠ b.
Proof. unfold eqv. apply bool_decide_eq_false. Qed.

Lemma eqv_refl {A} `{EqDecision A} (a : A) : eqv a a = true.
Proof. by apply eqv_true. Qed.

Definition is_some {A} (o : option A) : bool :=
  match o with Some _ => true | None => false end.
Definition is_none {A} (o : option A) : bool := negb (is_some o).

Lemma is_some_spec {A} (o : option A) : is_some o = true ↔ is_Some o.
Proof. destruct o; cbn; split; intros; naive_solver. Qed.

(** Turn the boolean tests of the code into propositions. *)
Ltac breflect :=
  repeat match goal with
  | H : context [eqv _ _ = true] |- _ => rewrite !eqv_true in H
  | H : context [eqv _ _ = false] |- _ => rewrite !eqv_false in H
  | H : (_ && _) = true |- _ => apply andb_true_iff in H; destruct H
  | H : (_ || _) = false |- _ => apply orb_false_iff in H; destruct H
  | H : negb _ = true |- _ => apply negb_true_iff in H
  | H : negb _ = false |- _ => apply negb_false_iff in H
  | H : (_ <=? _)%Z = true |- _ => apply Z.leb_le in H
  | H : (_ <=? _)%Z = false |- _ => apply Z.leb_gt in H
  | H : (_ <? _)%Z = true |- _ => apply Z.ltb_lt in H
  | H : (_ <? _)%Z = false |- _ => apply Z.ltb_ge in H
  | H : (_ =? _)%Z = true |- _ => apply Z.eqb_eq in H
  | H : (_ =? _)%Z = false |- _ => apply Z.eqb_neq in H
  | H : bool_decide _ = true |- _ => apply bool_decide_eq_true in H
  | H : bool_decide _ = false |- _ => apply bool_decide_eq_false in H
  end.

(** [len(...)] *)
Definition len {A} (l : list A) : Z := Z.of_nat (length l).
Definition slen (s : string) : Z := Z.of_nat (String.length s).

Lemma len_nonneg {A} (l : list A) : (0 ≤ len l)%Z.
Proof. unfold len. lia. Qed.

(** *** Lists *)

Lemma Forall_rev_append {A} (P : A → Prop) l1 l2 :
  Forall P (rev_append l1 l2) ↔ Forall P l1 ∧ Forall P l2.
Proof.
  revert l2. induction l1 as [|x l1 IH]; intros l2; cbn; [naive_solver constructor|].
  rewrite IH, !Forall_cons. tauto.
Qed.

Lemma map_rev_append {A B} (f : A → B) l1 l2 :
  map f (rev_append l1 l2) = rev_append (map f l1) (map f l2).
Proof. revert l2. induction l1 as [|x l1 IH]; intros l2; cbn; [done|]. by rewrite IH. Qed.

Lemma elem_of_rev_append {A} (x : A) l1 l2 : x ∈ rev_append l1 l2 ↔ x ∈ l1 ∨ x ∈ l2.
Proof.
  revert l2. induction l1 as [|y l1 IH]; intros l2; cbn; [set_solver|].
  rewrite IH. set_solver.
Qed.

Fixpoint Zsum (l : list Z) : Z :=
  match l with [] => 0 | x :: l => x + Zsum l end%Z.

Lemma forallb_Forall {A} (f : A → bool) l : forallb f l = true ↔ Forall (λ x, f x = true) l.
Proof. rewrite forallb_forall, List.Forall_forall. done. Qed.

Lemma Zsum_app l1 l2 : Zsum (l1 ++ l2) = (Zsum l1 + Zsum l2)%Z.
Proof. induction l1; cbn; lia. Qed.

Lemma Zsum_rev_append l1 l2 : Zsum (rev_append l1 l2) = (Zsum l1 + Zsum l2)%Z.
Proof. revert l2. induction l1 as [|x l1 IH]; intros l2; cbn; [done|]. rewrite IH. cbn. lia. Qed.
