(* ===== verification/Programs.v ===== *)
(** Programs over effects: finite trees of effects whose answers come from an
    environment, the traces they leave behind, and a weakest precondition with a
    ghost state that summarises the trace.

    The effects and the types of their answers are parameters; what an environment
    may answer is an instance of [Environment]. *)
From S2P Require Import Prelude.

(** ** Programs *)

Inductive proc {E : Type} (answer : E → Type) (A : Type) : Type :=
| Ret (a : A)
| Vis (e : E) (k : answer e → proc answer A).
Arguments Ret {E answer A} a.
Arguments Vis {E answer A} e k.

Fixpoint proc_bind {E} {answer : E → Type} {A B} (f : A → proc answer B) (p : proc answer A) : proc answer B :=
  match p with
  | Ret a => f a
  | Vis e k => Vis e (λ x, proc_bind f (k x))
  end.
Definition trigger {E} (answer : E → Type) (e : E) : proc answer (answer e) := Vis e Ret.
#[global] Instance proc_mret {E} (answer : E → Type) : MRet (proc answer) := @Ret E answer.
#[global] Instance proc_mbind {E} (answer : E → Type) : MBind (proc answer) := @proc_bind E answer.

(** [x] of a step that may raise: the exception ends the block. *)
Definition attempt {E} {answer : E → Type} {X A B} (p : proc answer (result X A)) (f : A → proc answer (result X B))
    : proc answer (result X B) :=
  r ← p; match r with Ok a => f a | Err e => mret (Err e) end.
Notation "x <-? p ; q" := (attempt p (λ x, q)) (at level 100, p at next level, q at level 200, right associativity).

(** An effect that was performed, with its answer. *)
Definition occurrence {E} (answer : E → Type) : Type := {e : E & answer e}.
Abbreviation occurred e x := (existT e x) (only parsing).

(** The answers an effect may get, in any state of the world at any time. *)
Class Environment {E} (answer : E → Type) := possible : ∀ e, answer e → Prop.

(** ** Traces *)

Section traces.
Context {E : Type} {answer : E → Type} `{!Environment answer}.

(** The traces of a program, complete or cut short by the end of its process. *)
Fixpoint leaves {A} (p : proc answer A) (t : list (occurrence answer)) : Prop :=
  match p with
  | Ret _ => t = []
  | Vis e k => t = [] ∨ ∃ x t', t = occurred e x :: t' ∧ possible e x ∧ leaves (k x) t'
  end.

(** The complete ones, with the result. *)
Fixpoint returns {A} (p : proc answer A) (t : list (occurrence answer)) (a : A) : Prop :=
  match p with
  | Ret b => t = [] ∧ a = b
  | Vis e k => ∃ x t', t = occurred e x :: t' ∧ possible e x ∧ returns (k x) t' a
  end.

Lemma returns_leaves {A} (p : proc answer A) t a : returns p t a → leaves p t.
Proof.
  revert t. induction p as [b|e k IH]; intros t; cbn; [naive_solver|].
  intros (x & t' & -> & Hx & Ht). right. exists x, t'. eauto.
Qed.

Lemma leaves_possible {A} (p : proc answer A) t1 (o : occurrence answer) t2 :
  leaves p (t1 ++ o :: t2) → possible (projT1 o) (projT2 o).
Proof.
  revert t1. induction p as [a|e k IH]; intros t1; cbn; [by destruct t1|].
  intros [Ht|(y & t' & Ht & Hy & Hl)]; [by destruct t1|]. destruct t1 as [|o' t1]; injection Ht as -> Ht; [done|].
  apply (IH y t1). by rewrite Ht.
Qed.

(** A trace of a sequence ends in its first program, or passes through it. *)
Lemma leaves_bind {A B} (p : proc answer A) (f : A → proc answer B) t :
  leaves (p ≫= f) t → leaves p t ∨ ∃ t1 t2 a, t = t1 ++ t2 ∧ returns p t1 a ∧ leaves (f a) t2.
Proof.
  unfold mbind, proc_mbind. revert t. induction p as [a|e k IH]; intros t; cbn; [intros Ht; right; by exists [], t, a|].
  intros [->|(x & t' & -> & Hx & Ht)]; [left; by left|]. destruct (IH x t' Ht) as [Hl|(t1 & t2 & a & -> & Hr & Hf)].
  - left. right. by exists x, t'.
  - right. exists (occurred e x :: t1), t2, a. split_and!; [done| |done]. by exists x, t1.
Qed.

(** *** The weakest precondition *)

Section ghost.
Context {G : Type}.
(** What an effect needs of the ghost state, and what it does to it. *)
Context (needs : E → G → Prop) (next : ∀ e, answer e → G → G).

Fixpoint wpp {A} (p : proc answer A) (Q : A → G → Prop) (g : G) : Prop :=
  match p with
  | Ret a => Q a g
  | Vis e k => needs e g ∧ ∀ x, possible e x → wpp (k x) Q (next e x g)
  end.

Definition summary (t : list (occurrence answer)) (g : G) : G := fold_left (λ g o, next (projT1 o) (projT2 o) g) t g.

Lemma wpp_mono {A} (p : proc answer A) (Q Q' : A → G → Prop) g :
  (∀ a g, Q a g → Q' a g) → wpp p Q g → wpp p Q' g.
Proof.
  intros HQ. revert g. induction p as [a|e k IH]; intros g; cbn; [apply HQ|].
  intros [Hn Hk]. split; [done|]. intros x Hx. by apply IH, Hk.
Qed.

Lemma wpp_bind {A B} (p : proc answer A) (f : A → proc answer B) Q g :
  wpp p (λ a g, wpp (f a) Q g) g → wpp (p ≫= f) Q g.
Proof.
  unfold mbind, proc_mbind. revert g. induction p as [a|e k IH]; intros g; cbn; [done|].
  intros [Hn Hk]. split; [done|]. intros x Hx. by apply IH, Hk.
Qed.

Lemma wpp_ret {A} (a : A) (Q : A → G → Prop) g : Q a g → wpp (mret a) Q g.
Proof. done. Qed.

Lemma wpp_trigger e (Q : answer e → G → Prop) g :
  needs e g → (∀ x, possible e x → Q x (next e x g)) → wpp (trigger answer e) Q g.
Proof. intros Hn HQ. split; [done|]. exact HQ. Qed.

Lemma wpp_attempt {X A B} (p : proc answer (result X A)) (f : A → proc answer (result X B)) Q g :
  wpp p (λ r g, match r with Ok a => wpp (f a) Q g | Err e => Q (Err e) g end) g → wpp (attempt p f) Q g.
Proof. intros Hp. apply wpp_bind. eapply wpp_mono; [|exact Hp]. by intros [a|e] g'. Qed.

(** Every effect of a trace found what it needs in the summary of those before it. *)
Lemma wpp_leaves {A} (p : proc answer A) Q g t1 e x t2 :
  wpp p Q g → leaves p (t1 ++ occurred e x :: t2) → needs e (summary t1 g).
Proof.
  revert g t1. induction p as [a|e' k IH]; intros g t1; cbn; [by destruct t1|].
  intros [Hn Hk] [Ht|(y & t' & Ht & Hy & Hl)]; [by destruct t1|].
  destruct t1 as [|o t1].
  - apply (f_equal head) in Ht. cbn in Ht. by injection Ht as ->.
  - injection Ht as -> Ht. cbn. apply (IH y); [by apply Hk|by rewrite Ht].
Qed.

Lemma wpp_returns {A} (p : proc answer A) Q g t a : wpp p Q g → returns p t a → Q a (summary t g).
Proof.
  revert g t. induction p as [b|e k IH]; intros g t; cbn; [by intros ? [-> ->]|].
  intros [Hn Hk] (x & t' & -> & Hx & Ht). cbn. apply (IH x); [by apply Hk|done].
Qed.
End ghost.

Lemma wpp_weaken {G A} (needs needs' : E → G → Prop) (next : ∀ e, answer e → G → G) (p : proc answer A) (Q : A → G → Prop) g :
  (∀ e g, needs e g → needs' e g) → wpp needs next p Q g → wpp needs' next p Q g.
Proof.
  intros Hn. revert g. induction p as [a|e k IH]; intros g; cbn; [done|]. intros [He Hk]. split; [by apply Hn|]. intros x Hx. by apply IH, Hk.
Qed.
End traces.
