(* ===== verification/Types.v ===== *)
(** Enumerations and value types of the services.

    One module per [StrEnum] of the source.  [value] is the string the
    database stores and [of_value] the class call ([RunStatus(text)]), which
    raises [ValueError] on an unknown string: [None] here. *)
From S2P Require Import Prelude.
Local Open Scope string_scope.

(** ** execution/types.py *)

Module RunStatus.
Inductive t :=
| QUEUED | PREPARING | SESSION_FENCED | DISPATCH_FENCED
| SUCCEEDED | FAILED | CANCELLED | TIMED_OUT | INDETERMINATE.
#[global] Instance eq_dec : EqDecision t.
Proof. solve_decision. Defined.

Definition value (s : t) : string :=
  match s with
  | QUEUED => "queued" | PREPARING => "preparing"
  | SESSION_FENCED => "session_fenced" | DISPATCH_FENCED => "dispatch_fenced"
  | SUCCEEDED => "succeeded" | FAILED => "failed" | CANCELLED => "cancelled"
  | TIMED_OUT => "timed_out" | INDETERMINATE => "indeterminate"
  end.

Definition all : list t :=
  [QUEUED; PREPARING; SESSION_FENCED; DISPATCH_FENCED; SUCCEEDED; FAILED;
   CANCELLED; TIMED_OUT; INDETERMINATE].

(** [_TERMINAL_RUN_STATUSES] *)
Definition terminal (s : t) : bool :=
  match s with
  | SUCCEEDED | FAILED | CANCELLED | TIMED_OUT | INDETERMINATE => true
  | _ => false
  end.

(** [_ACTIVE_RUN_STATUS_VALUES] *)
Definition active (s : t) : bool :=
  match s with
  | QUEUED | PREPARING | SESSION_FENCED | DISPATCH_FENCED => true
  | _ => false
  end.

Lemma active_not_terminal s : active s = negb (terminal s).
Proof. by destruct s. Qed.
End RunStatus.

Module JobStatus.
Inductive t :=
| QUEUED | LEASED | SUCCEEDED | FAILED | CANCELLED | TIMED_OUT | INDETERMINATE.
#[global] Instance eq_dec : EqDecision t.
Proof. solve_decision. Defined.

Definition value (s : t) : string :=
  match s with
  | QUEUED => "queued" | LEASED => "leased" | SUCCEEDED => "succeeded"
  | FAILED => "failed" | CANCELLED => "cancelled"
  | TIMED_OUT => "timed_out" | INDETERMINATE => "indeterminate"
  end.

Definition all : list t :=
  [QUEUED; LEASED; SUCCEEDED; FAILED; CANCELLED; TIMED_OUT; INDETERMINATE].

(** [JobStatus(text)] *)
Definition of_value (text : string) : option t :=
  List.find (λ s, eqv (value s) text) all.

Definition terminal (s : t) : bool :=
  match s with QUEUED | LEASED => false | _ => true end.
End JobStatus.

Module RunEventType.
Inductive t :=
| ADMITTED | ATTEMPT_STARTED | SESSION_FENCED | DISPATCH_FENCED | LEASE_LOST
| CANCEL_REQUESTED | TERMINAL | CONTENT_EXPIRED | RESTORE_RECONCILED.
#[global] Instance eq_dec : EqDecision t.
Proof. solve_decision. Defined.
End RunEventType.

Module ExecutionFailureCode.
Inductive t :=
| INVALID_ARGUMENTS | ARGUMENT_LIMIT | SENSITIVE_ARGUMENTS | SCANNER_FAILED
| CAPABILITY_UNAVAILABLE | INVALID_CONFIRMATION | CONFIRMATION_EXPIRED
| CONFIRMATION_REPLAYED | INVALID_IDEMPOTENCY_KEY | IDEMPOTENCY_CONFLICT
| IDEMPOTENCY_KEY_HISTORY_INCOMPLETE | CONFIRMATION_KEY_HISTORY_INCOMPLETE
| DISPATCH_QUARANTINED | ACTIVE_RUN_LIMIT | NO_JOB_AVAILABLE | LEASE_LOST
| INVALID_TRANSITION | PERSISTENCE_FAILURE.
#[global] Instance eq_dec : EqDecision t.
Proof. solve_decision. Defined.
End ExecutionFailureCode.

Module RunFailureCode.
Inductive t :=
| WORKER_LOST_BEFORE_DISPATCH | WORKER_LOST_AFTER_DISPATCH | DEADLINE_EXCEEDED
| CANCELLED_BEFORE_DISPATCH | RESTORE_RECONCILIATION | CONTENT_RETENTION_DEADLINE
| PREPARATION_FAILED | SESSION_INITIALIZATION_FAILED | TOOL_CALL_FAILED
| INVALID_TOOL_RESULT | UNSUPPORTED_TOOL_RESULT | SENSITIVE_TOOL_RESULT
| UPSTREAM_OUTCOME_UNKNOWN.
#[global] Instance eq_dec : EqDecision t.
Proof. solve_decision. Defined.
End RunFailureCode.

(** A Python [float], as far as bounds checks see it. *)
Module PyFloat.
Inductive t := Finite (micro : Z) | PosInf | NegInf | NaN.

Definition isfinite (f : t) : bool := match f with Finite _ => true | _ => false end.
(** [0 < f <= bound] with [bound] finite; comparisons with nan are false. *)
Definition in_open_closed (f : t) (bound : Z) : bool :=
  match f with Finite m => (0 <? m)%Z && (m <=? bound)%Z | _ => false end.
End PyFloat.

Module ExecutionLimits.
Record t := mk {
  max_argument_bytes : Z;
  max_result_bytes : Z;
  confirmation_ttl_seconds : Z;
  max_run_seconds : Z;
  argument_retention_days : Z;
  result_retention_days : Z;
  run_retention_days : Z;
  max_idempotency_key_characters : Z;
  max_historical_hmac_keys : Z;
  schema_validation_timeout_seconds : PyFloat.t;
  schema_validation_memory_bytes : Z;
  reconciliation_batch_size : Z;
  max_active_runs_per_workspace : Z
}.

Definition MAX_ACTIVE_RUNS_PER_WORKSPACE : Z := 100.

Definition default : t :=
  mk 65536 262144 120 300 14 14 90 256 8 (PyFloat.Finite 2000000)
     (256 * 1024 * 1024) 100 MAX_ACTIVE_RUNS_PER_WORKSPACE.

(** [__post_init__] raises [ValueError] unless this holds. *)
Definition valid (l : t) : bool :=
  negb ((max_argument_bytes l <=? 0)%Z
    || (max_result_bytes l <=? 0)%Z
    || negb ((1 <=? confirmation_ttl_seconds l)%Z && (confirmation_ttl_seconds l <=? 300)%Z)
    || (max_run_seconds l <=? 0)%Z
    || negb ((1 <=? argument_retention_days l)%Z && (argument_retention_days l <=? 14)%Z)
    || negb ((1 <=? result_retention_days l)%Z && (result_retention_days l <=? 14)%Z)
    || (run_retention_days l <? argument_retention_days l)%Z
    || (run_retention_days l <? result_retention_days l)%Z
    || (max_idempotency_key_characters l <=? 0)%Z
    || negb ((1 <=? max_historical_hmac_keys l)%Z && (max_historical_hmac_keys l <=? 16)%Z)
    || negb (PyFloat.in_open_closed (schema_validation_timeout_seconds l) (seconds 5))
    || negb (PyFloat.isfinite (schema_validation_timeout_seconds l))
    || negb ((64 * 1024 * 1024 <=? schema_validation_memory_bytes l)%Z
             && (schema_validation_memory_bytes l <=? 256 * 1024 * 1024)%Z)
    || negb ((1 <=? reconciliation_batch_size l)%Z && (reconciliation_batch_size l <=? 1000)%Z)
    || negb ((1 <=? max_active_runs_per_workspace l)%Z
             && (max_active_runs_per_workspace l <=? MAX_ACTIVE_RUNS_PER_WORKSPACE)%Z)).
End ExecutionLimits.

Module HmacKeyVersion.
Record t := mk { version : string; secret : string }.
End HmacKeyVersion.

Module JobLease.
Record t := mk {
  job_id : uuid; run_id : uuid; workspace_id : uuid; correlation_id : uuid;
  worker_id : string; lease_epoch : Z; execution_epoch : Z; expires_at : instant }.
End JobLease.

Module ReconciledJob.
Record t := mk {
  job_id : uuid; run_id : uuid; workspace_id : uuid; correlation_id : uuid;
  lease_epoch : Z; status : RunStatus.t }.
End ReconciledJob.

(** ** registry/types.py *)

Module RegistrySource.
Inductive t := MANUAL | OFFICIAL.
#[global] Instance eq_dec : EqDecision t.
Proof. solve_decision. Defined.
End RegistrySource.

Module ConnectionLifecycle.
Inductive t := VERIFYING | ACTIVE | DEGRADED | DISABLED.
#[global] Instance eq_dec : EqDecision t.
Proof. solve_decision. Defined.
End ConnectionLifecycle.

Module Transport.
Inductive t := STREAMABLE_HTTP.
#[global] Instance eq_dec : EqDecision t.
Proof. solve_decision. Defined.
End Transport.

Module CapabilityStatus.
Inductive t := PENDING_REVIEW | ENABLED | DISABLED | UNAVAILABLE.
#[global] Instance eq_dec : EqDecision t.
Proof. solve_decision. Defined.
Definition value (s : t) : string :=
  match s with
  | PENDING_REVIEW => "pending_review" | ENABLED => "enabled" | DISABLED => "disabled"
  | UNAVAILABLE => "unavailable"
  end.
End CapabilityStatus.

Module DiscoveryFailureCode.
Inductive t :=
| AUTHENTICATION_FAILED | ENDPOINT_REJECTED | PROTOCOL_MISMATCH | RESPONSE_LIMIT
| TIMEOUT | TRANSPORT_FAILED | INVALID_METADATA.
#[global] Instance eq_dec : EqDecision t.
Proof. solve_decision. Defined.
End DiscoveryFailureCode.

Module RefreshJobStatus.
Inductive t := QUEUED | LEASED | SUCCEEDED | FAILED | OBSOLETE.
#[global] Instance eq_dec : EqDecision t.
Proof. solve_decision. Defined.
End RefreshJobStatus.

(** ** identity/types.py *)

Module Role.
Inductive t := ADMIN | OPERATOR | VIEWER.
#[global] Instance eq_dec : EqDecision t.
Proof. solve_decision. Defined.
End Role.

Module Permission.
Inductive t :=
| VIEW_RESOURCES | VIEW_AUDIT | SEARCH_REGISTRY | MANAGE_CONNECTION_CONFIGURATION
| VERIFY_CONNECTION | MANAGE_CAPABILITY | INVOKE | DISABLE_CONNECTION
| ENABLE_CONNECTION.
#[global] Instance eq_dec : EqDecision t.
Proof. solve_decision. Defined.
Definition all : list t :=
  [VIEW_RESOURCES; VIEW_AUDIT; SEARCH_REGISTRY; MANAGE_CONNECTION_CONFIGURATION;
   VERIFY_CONNECTION; MANAGE_CAPABILITY; INVOKE; DISABLE_CONNECTION; ENABLE_CONNECTION].
End Permission.

Module Principal.
Record t := mk { issuer : string; subject : string; display_name : option string }.
End Principal.

Module WorkspaceContext.
Record t := mk { workspace_id : uuid; actor_user_id : uuid; role : Role.t }.
End WorkspaceContext.

(** [ROLE_PERMISSIONS] *)
Definition ROLE_PERMISSIONS (r : Role.t) : list Permission.t :=
  match r with
  | Role.ADMIN => Permission.all
  | Role.OPERATOR =>
      [Permission.VIEW_RESOURCES; Permission.VIEW_AUDIT; Permission.SEARCH_REGISTRY;
       Permission.VERIFY_CONNECTION; Permission.MANAGE_CAPABILITY; Permission.INVOKE;
       Permission.DISABLE_CONNECTION]
  | Role.VIEWER => [Permission.VIEW_RESOURCES]
  end.

(** [WorkspaceContext.allows] *)
Definition allows (c : WorkspaceContext.t) (p : Permission.t) : bool :=
  bool_decide (p ∈ ROLE_PERMISSIONS (WorkspaceContext.role c)).

(** ** audit/types.py *)

Module AuditAction.
Inductive t :=
| WORKSPACE_CREATED | MEMBERSHIP_CHANGED | SECRET_BINDING_CREATED
| CONNECTION_CREATED | CONNECTION_VERSION_APPENDED | CONNECTION_VERIFIED
| CONNECTION_DISABLED | CONNECTION_ENABLED | CAPABILITY_VERSION_RECORDED
| CAPABILITY_ENABLED | CAPABILITY_DISABLED | REGISTRY_ENTRY_IMPORTED
| RUN_CREATED | RUN_CANCELLATION_REQUESTED | RUN_CANCELLED.
#[global] Instance eq_dec : EqDecision t.
Proof. solve_decision. Defined.
End AuditAction.

Module AuditOutcome.
Inductive t := SUCCEEDED | DENIED | FAILED.
#[global] Instance eq_dec : EqDecision t.
Proof. solve_decision. Defined.
End AuditOutcome.

Module ResourceType.
Inductive t :=
| WORKSPACE | MEMBERSHIP | SECRET_BINDING | SERVER_CONNECTION | CAPABILITY
| REGISTRY_ENTRY | RUN.
#[global] Instance eq_dec : EqDecision t.
Proof. solve_decision. Defined.
End ResourceType.
