(* ===== verification/Json.v ===== *)
(** JSON-shaped Python values and the structural bounds of
    security/metadata.py ([validate_bounded_json] and the traversal of
    [validate_schema_payload]).

    A [dict] is the list of its items, in the order of insertion; [python_eq] is the
    [==] of the language, which ignores that order and identifies [True], [1] and [1.0]. *)
From S2P Require Import Prelude Types.

Local Open Scope Z_scope.

Module Json.
Inductive key := KStr (s : string) | KOther.
Inductive t :=
| Null | Bool (b : bool) | Int (z : Z) | Float (f : PyFloat.t) | Str (s : string)
| List (items : list t)
| Dict (items : list (key * t))
| Other.   (* an object of any other type *)

#[global] Instance key_eq_dec : EqDecision key.
Proof. solve_decision. Defined.
#[global] Instance pyfloat_eq_dec : EqDecision PyFloat.t.
Proof. solve_decision. Defined.

Section rect.
Context (P : t → Type).
Context (HNull : P Null) (HBool : ∀ b, P (Bool b)) (HInt : ∀ z, P (Int z))
        (HFloat : ∀ f, P (Float f)) (HStr : ∀ s, P (Str s)) (HOther : P Other).
Inductive allT : list t → Type :=
| allT_nil : allT []
| allT_cons x l : P x → allT l → allT (x :: l).
Context (HList : ∀ l, allT l → P (List l)).
Context (HDict : ∀ l, allT (l.*2) → P (Dict l)).

Fixpoint rect' (v : t) : P v :=
  match v with
  | Null => HNull | Bool b => HBool b | Int z => HInt z | Float f => HFloat f
  | Str s => HStr s | Other => HOther
  | List l => HList l ((fix go l : allT l :=
      match l with [] => allT_nil | x :: l => allT_cons x l (rect' x) (go l) end) l)
  | Dict l => HDict l ((fix go (l : list (key * t)) : allT (l.*2) :=
      match l with [] => allT_nil
      | kv :: l => allT_cons kv.2 (l.*2) (rect' kv.2) (go l) end) l)
  end.
End rect.

#[global] Instance eq_dec : EqDecision t.
Proof.
  intros x. induction x as [ | | | | | |l IH|l IH] using rect'; intros [ | | | | |l'|l'|];
    try (by right); try (by left).
  - destruct (decide (b = b0)); [left|right]; congruence.
  - destruct (decide (z = z0)); [left|right]; congruence.
  - destruct (decide (f = f0)); [left|right]; congruence.
  - destruct (decide (s = s0)); [left|right]; congruence.
  - assert ({l = l'} + {l ≠ l'}) as [->|Hne]; [|by left|right; congruence].
    revert l'. induction IH as [|x l Hx _ IHl]; intros [|y l']; try (by right); [by left|].
    destruct (Hx y) as [->|]; [|right; congruence].
    destruct (IHl l') as [->|]; [by left|right; congruence].
  - assert ({l = l'} + {l ≠ l'}) as [->|Hne]; [|by left|right; congruence].
    revert l'. remember (l.*2) as vs eqn:E. revert l E.
    induction IH as [|x vs Hx _ IHl]; intros [|[k v] l] E [|[k' v'] l']; simplify_eq/=;
      try (by right); [by left|].
    destruct (decide (k = k')) as [->|]; [|right; congruence].
    destruct (Hx v') as [->|]; [|right; congruence].
    destruct (IHl l eq_refl l') as [->|]; [by left|right; congruence].
Defined.

(** The number of a [bool], an [int] or a [float], in millionths. *)
Definition number (v : t) : option PyFloat.t :=
  match v with
  | Bool b => Some (PyFloat.Finite (if b then 1000000 else 0))
  | Int z => Some (PyFloat.Finite (z * 1000000))
  | Float f => Some f
  | _ => None
  end.

(** [a == b] of values whose objects have distinct keys. *)
Fixpoint python_eq (a b : t) : bool :=
  match a, b with
  | Null, Null => true
  | Str s, Str s' => eqv s s'
  | List l, List l' =>
      (fix go (l l' : list t) : bool :=
         match l, l' with
         | [], [] => true
         | x :: l, y :: l' => python_eq x y && go l l'
         | _, _ => false
         end) l l'
  | Dict m, Dict m' =>
      (length m =? length m')%nat
      && (fix go (m : list (key * t)) : bool :=
            match m with
            | [] => true
            | (k, x) :: m =>
                match List.find (λ e, eqv e.1 k) m' with Some (_, y) => python_eq x y | None => false end && go m
            end) m
  | _, _ =>
      match number a, number b with
      | Some x, Some y => match x with PyFloat.NaN => false | _ => eqv x y end
      | _, _ => false
      end
  end.

Lemma ind' (P : t → Prop)
  (HNull : P Null) (HBool : ∀ b, P (Bool b)) (HInt : ∀ z, P (Int z))
  (HFloat : ∀ f, P (Float f)) (HStr : ∀ s, P (Str s)) (HOther : P Other)
  (HList : ∀ l, Forall P l → P (List l))
  (HDict : ∀ l, Forall P (l.*2) → P (Dict l)) : ∀ v, P v.
Proof.
  intros v. induction v as [ | | | | | |l IH|l IH] using rect'; try done.
  - apply HList. induction IH; by constructor.
  - apply HDict. induction IH; by constructor.
Qed.

(** Children pushed by the traversal, in source order. *)
Definition children (v : t) : list t :=
  match v with List l => l | Dict l => l.*2 | _ => [] end.

(** Number of nodes and nesting depth of a document. *)
Fixpoint nodes (v : t) : Z :=
  match v with
  | List l => 1 + Zsum (map nodes l)
  | Dict l => 1 + Zsum (map (λ kv, nodes kv.2) l)
  | _ => 1
  end.

Fixpoint depth (v : t) : Z :=
  match v with
  | List l => 1 + foldr Z.max 0 (map depth l)
  | Dict l => 1 + foldr Z.max 0 (map (λ kv, depth kv.2) l)
  | _ => 1
  end.
End Json.

(** ** The bounded traversal *)

Module Metadata.
Inductive error :=
| structural_limits | property_limits | invalid_key | item_limits
| string_exceeds_limits | non_json_value
| not_bounded_json | serialized_size | credential_shaped | invalid_scalar.
#[global] Instance error_eq_dec : EqDecision error.
Proof. solve_decision. Defined.

Definition max_depth : Z := 32.
Definition max_nodes : Z := 4096.
Definition max_members : Z := 1024.
Definition max_characters : Z := 8192.

(** [not isinstance(key, str) or len(key) > 8192] *)
Definition key_rejected (k : Json.key) : bool :=
  match k with
  | Json.KStr s => max_characters <? slen s
  | Json.KOther => true
  end.

(** The tests one iteration makes on [current], and the children it pushes. *)
Definition visit (current : Json.t) : result error (list Json.t) :=
  match current with
  | Json.Dict items =>
      if max_members <? len items then Err property_limits
      else if existsb key_rejected (items.*1) then Err invalid_key
      else Ok (items.*2)
  | Json.List items =>
      if max_members <? len items then Err item_limits else Ok items
  | Json.Str s =>
      if max_characters <? slen s then Err string_exceeds_limits else Ok []
  | Json.Null | Json.Bool _ | Json.Int _ | Json.Float _ => Ok []
  | Json.Other => Err non_json_value
  end.

(** The [while stack] loop; the top of the stack is the head of the list, so
    pushing the children in order reverses them.  Every iteration counts a
    node and fails beyond [max_nodes], which bounds the iterations. *)
Fixpoint traverse (fuel : nat) (stack : list (Json.t * Z)) (node_count : Z)
    : result error unit :=
  match fuel, stack with
  | _, [] => Ok tt
  | O, _ => Err structural_limits
  | S fuel, (current, depth) :: stack =>
      let node_count := node_count + 1 in
      if (max_depth <? depth) || (max_nodes <? node_count) then Err structural_limits
      else
        match visit current with
        | Err e => Err e
        | Ok children =>
            traverse fuel (rev_append (map (λ c, (c, depth + 1)) children) stack) node_count
        end
  end.

Definition traversal_fuel : nat := Z.to_nat (max_nodes + 1).

Definition validate_bounded_json (value : Json.t) : result error unit :=
  traverse traversal_fuel [(value, 1)] 0.

(** *** Specification *)

(** A node passes the tests of [visit]; a document is bounded when all its
    nodes do and it fits the depth and node budgets. *)
Definition node_ok (v : Json.t) : bool := is_ok (visit v).

Fixpoint all_nodes_ok (v : Json.t) : bool :=
  node_ok v &&
  match v with
  | Json.List l => forallb all_nodes_ok l
  | Json.Dict l => forallb (λ kv, all_nodes_ok kv.2) l
  | _ => true
  end.

Definition bounded (v : Json.t) : Prop :=
  Json.depth v ≤ max_depth ∧ Json.nodes v ≤ max_nodes ∧ all_nodes_ok v = true.

#[global] Instance bounded_dec v : Decision (bounded v).
Proof. unfold bounded. apply _. Defined.

#[local] Opaque max_depth max_nodes max_members max_characters.

Lemma all_nodes_ok_children v :
  all_nodes_ok v = node_ok v && forallb all_nodes_ok (Json.children v).
Proof.
  destruct v; try done. cbn. f_equal. induction items as [|[k v] l IH]; cbn; congruence.
Qed.

Lemma nodes_children v : Json.nodes v = 1 + Zsum (map Json.nodes (Json.children v)).
Proof.
  destruct v; try done. cbn [Json.nodes Json.children]. do 2 f_equal.
  induction items as [|[k v] l IH]; cbn [map fmap list_fmap snd]; congruence.
Qed.

Lemma depth_children v :
  Json.depth v = 1 + foldr Z.max 0 (map Json.depth (Json.children v)).
Proof.
  destruct v; try done. cbn [Json.depth Json.children]. do 2 f_equal.
  induction items as [|[k v] l IH]; cbn [map fmap list_fmap snd]; congruence.
Qed.

Lemma visit_children v cs : visit v = Ok cs → cs = Json.children v.
Proof. destruct v; cbn; repeat case_match; by intros [= <-]. Qed.

Lemma nodes_pos v : 1 ≤ Json.nodes v.
Proof.
  induction v as [ | | | | | |l IH|l IH] using Json.ind'; try done;
    rewrite nodes_children; cbn [Json.children];
    assert (∀ l, Forall (λ v, 1 ≤ Json.nodes v) l → 0 ≤ Zsum (map Json.nodes l)) as Hsum;
    try (by intros l'; induction 1; cbn; lia); specialize (Hsum _ IH); lia.
Qed.

Lemma depth_pos v : 1 ≤ Json.depth v.
Proof.
  rewrite depth_children. assert (∀ l, 0 ≤ foldr Z.max 0 l) as H; [|specialize (H (map Json.depth (Json.children v))); lia].
  intros l. induction l; cbn; lia.
Qed.

Lemma foldr_max_le l b : 0 ≤ b → foldr Z.max 0 l ≤ b ↔ Forall (λ x, x ≤ b) l.
Proof.
  intros Hb. induction l as [|x l IH]; cbn; [naive_solver|].
  rewrite Forall_cons, <- IH. lia.
Qed.

(** What the loop has still to establish about the entries of the stack. *)
Definition entry_bounded (e : Json.t * Z) : Prop :=
  e.2 + Json.depth e.1 ≤ max_depth + 1 ∧ all_nodes_ok e.1 = true.
Definition stack_bounded (stack : list (Json.t * Z)) (node_count : Z) : Prop :=
  Forall entry_bounded stack ∧
  node_count + Zsum (map (λ e, Json.nodes e.1) stack) ≤ max_nodes.

Lemma entry_bounded_children v d :
  entry_bounded (v, d) ↔
  d ≤ max_depth ∧ node_ok v = true ∧
  Forall entry_bounded (map (λ c, (c, d + 1)) (Json.children v)).
Proof.
  unfold entry_bounded at 1. cbn [fst snd].
  rewrite all_nodes_ok_children, depth_children, andb_true_iff, forallb_Forall, Forall_map.
  unfold compose, entry_bounded. cbn [fst snd]. split.
  - intros (Hd & Hok & Hall). pose proof (depth_pos v) as Hp. rewrite depth_children in Hp.
    split_and!; [lia|done|]. apply Forall_and. split; [|done].
    assert (foldr Z.max 0 (map Json.depth (Json.children v)) ≤ max_depth - d) as Hm by lia.
    apply foldr_max_le in Hm; [|lia]. rewrite Forall_map in Hm.
    eapply Forall_impl; [exact Hm|]. cbn. lia.
  - rewrite Forall_and. intros (Hd & Hok & HF & Hall). split_and!; [|done..].
    assert (foldr Z.max 0 (map Json.depth (Json.children v)) ≤ max_depth - d); [|lia].
    apply foldr_max_le; [lia|]. apply Forall_map. eapply Forall_impl; [exact HF|].
    cbn. lia.
Qed.

Lemma stack_bounded_pop v d stack n :
  stack_bounded ((v, d) :: stack) n ↔
  d ≤ max_depth ∧ n + 1 ≤ max_nodes ∧ node_ok v = true ∧
  stack_bounded (rev_append (map (λ c, (c, d + 1)) (Json.children v)) stack) (n + 1).
Proof.
  unfold stack_bounded.
  rewrite Forall_cons, entry_bounded_children, Forall_rev_append, map_rev_append,
    Zsum_rev_append, map_map.
  cbn [map Zsum fst]. rewrite nodes_children.
  change (map (λ x, Json.nodes x) (Json.children v)) with (map Json.nodes (Json.children v)).
  pose proof (nodes_pos v) as Hp. rewrite nodes_children in Hp.
  assert (0 ≤ Zsum (map (λ e : Json.t * Z, Json.nodes e.1) stack)).
  { clear. induction stack as [|e l IH]; cbn; [done|]. pose proof (nodes_pos e.1). lia. }
  split; [intros [[(?&?&?) ?] ?]|intros (?&?&?&[??]&?)]; split_and!; try done; lia.
Qed.

Lemma traverse_spec fuel stack n :
  n + Z.of_nat fuel = max_nodes + 1 → 0 ≤ n →
  traverse fuel stack n = Ok tt ↔ stack = [] ∨ stack_bounded stack n.
Proof.
  revert stack n. induction fuel as [|fuel IH]; intros [|[v d] stack] n Hf Hn;
    cbn [traverse]; try (naive_solver lia).
  - split; [done|]. intros [|[_ H]]; [done|]. cbn in H. pose proof (nodes_pos v).
    assert (0 ≤ Zsum (map (λ e : Json.t * Z, Json.nodes e.1) stack)); [|lia].
    clear. induction stack as [|e l IH]; cbn; [done|]. pose proof (nodes_pos e.1). lia.
  - rewrite stack_bounded_pop. unfold node_ok.
    destruct (max_depth <? d) eqn:?, (max_nodes <? n + 1) eqn:?; breflect; cbn [orb];
      try (split; [done|]; intros [|]; [done|lia]).
    destruct (visit v) as [cs|e] eqn:Hv; cbn [is_ok];
      [|split; [done|]; intros [|(?&?&?&?)]; done].
    rewrite (visit_children _ _ Hv), IH by lia.
    split; [|by intros [|(?&?&?&?)]; [|right]].
    intros [Hnil|]; right; split_and!; try done; try lia.
    rewrite Hnil. split; [constructor|]. cbn. lia.
Qed.

(** C3.  [validate_bounded_json] accepts exactly the documents that are at most
    32 levels deep, have at most 4096 nodes, and all of whose nodes respect the
    member, key and string bounds; the loop always terminates within its node
    budget. *)
Theorem validate_bounded_json_correct (v : Json.t) :
  validate_bounded_json v = Ok tt ↔ bounded v.
Proof.
  unfold validate_bounded_json. rewrite traverse_spec; [|by vm_compute|done].
  unfold stack_bounded, bounded, entry_bounded. rewrite Forall_singleton.
  cbn [fst snd map Zsum]. split.
  - intros [|[[??] ?]]; [done|]. split_and!; [lia|lia|done].
  - intros (?&?&?). right. split_and!; [lia|done|lia].
Qed.
End Metadata.
