(* ===== verification/PyStr.v ===== *)
(** Python [str] methods the services use.

    A [str] is a [string]; each of its characters is a code point below 256. *)
From S2P Require Import Prelude.
From Stdlib Require Import Ascii.
From stdpp Require Import strings.

Definition chars (s : string) : list ascii := String.list_ascii_of_string s.
Definition of_chars (l : list ascii) : string := String.string_of_list_ascii l.
Definition ord (c : ascii) : Z := Z.of_N (N_of_ascii c).

(** [str.isspace] on one character *)
Definition isspace (c : ascii) : bool :=
  let n := ord c in
  ((9 <=? n) && (n <=? 13) || (28 <=? n) && (n <=? 32) || (n =? 133) || (n =? 160))%Z.

Fixpoint lstrip (l : list ascii) : list ascii :=
  match l with
  | [] => []
  | c :: l' => if isspace c then lstrip l' else l
  end.

(** [str.strip()] *)
Definition strip (s : string) : string :=
  of_chars (rev (lstrip (rev (lstrip (chars s))))).

(** [not s] *)
Definition falsy (s : string) : bool := eqv s EmptyString.

(** ["\x00" in s] *)
Definition has_nul (s : string) : bool := existsb (λ c, (ord c =? 0)%Z) (chars s).

(** [s.replace("\x00", "")] *)
Definition drop_nul (s : string) : string :=
  of_chars (List.filter (λ c, negb (ord c =? 0)%Z) (chars s)).

(** [s[:n]] *)
Definition prefix (n : nat) (s : string) : string := of_chars (take n (chars s)).

Lemma chars_of_chars l : chars (of_chars l) = l.
Proof. unfold chars, of_chars. induction l as [|c l IH]; cbn; [done|]. f_equal. exact IH. Qed.

Lemma of_chars_chars s : of_chars (chars s) = s.
Proof. unfold chars, of_chars. induction s as [|c s IH]; cbn; [done|]. f_equal. exact IH. Qed.

Lemma slen_of_chars l : slen (of_chars l) = len l.
Proof. unfold slen, len. f_equal. induction l as [|c l IH]; cbn; [done|]. f_equal. exact IH. Qed.

Lemma slen_chars s : len (chars s) = slen s.
Proof. rewrite <- slen_of_chars. by rewrite of_chars_chars. Qed.

Lemma falsy_spec s : falsy s = true ↔ slen s = 0%Z.
Proof. unfold falsy. rewrite eqv_true. destruct s; cbn; split; done. Qed.

(** ** Searching and splitting *)

Definition alnum_ascii (c : ascii) : bool :=
  let n := ord c in
  ((48 <=? n) && (n <=? 57) || (65 <=? n) && (n <=? 90) || (97 <=? n) && (n <=? 122))%Z.
Definition hex_digit (c : ascii) : bool :=
  let n := ord c in
  ((48 <=? n) && (n <=? 57) || (65 <=? n) && (n <=? 70) || (97 <=? n) && (n <=? 102))%Z.

(** [c in s] *)
Definition char_in (n : Z) (s : string) : bool := existsb (λ c, (ord c =? n)%Z) (chars s).

(** [s.lower()] on characters below 256 *)
Definition lower_char (c : ascii) : ascii :=
  let n := ord c in
  if ((65 <=? n) && (n <=? 90) || (192 <=? n) && (n <=? 222) && negb (n =? 215))%Z
  then Ascii.ascii_of_N (Z.to_N (n + 32)) else c.
Definition lower (s : string) : string := of_chars (map lower_char (chars s)).

(** [s.startswith(p)], [s.endswith(p)], [s.removesuffix(p)] *)
Definition startswith (s p : string) : bool := bool_decide (take (String.length p) (chars s) = chars p).
Definition endswith (s p : string) : bool :=
  bool_decide (take (String.length p) (rev (chars s)) = rev (chars p)).
Definition removesuffix (s p : string) : string :=
  if endswith s p then prefix (String.length s - String.length p) s else s.

(** [s.split(c)] for a one-character separator *)
Fixpoint split_chars (n : Z) (l : list ascii) : list (list ascii) :=
  match l with
  | [] => [[]]
  | c :: l =>
      let parts := split_chars n l in
      if (ord c =? n)%Z then [] :: parts
      else match parts with
           | p :: parts => (c :: p) :: parts
           | [] => [[c]]
           end
  end.
Definition split_on (n : Z) (s : string) : list string := of_chars <$> split_chars n (chars s).

(** * Backtracking regular expressions, as [re] runs them.

    The patterns of the source are terms of [re]; [rmatch] explores the choices
    in the order of Python's engine (alternatives left to right, greedy and lazy
    repetition), so that the text of a group is the one [match.group] returns.
    [matches] is the relational reading, and [rmatch] is proved sound and
    complete for it. *)

(** A position: is it the start of the subject, and what follows it. *)
Abbreviation pos := (bool * list ascii)%type (only parsing).

Inductive re :=
| Eps
| Chr (p : ascii → bool)
| Seq (r1 r2 : re)
| Alt (r1 r2 : re)
| Star (r : re)               (* r* *)
| Lazy (r : re)               (* r*? *)
| Begin                       (* ^ *)
| Look (p : list ascii → bool).   (* a lookahead *)

Declare Scope re_scope.
Delimit Scope re_scope with re.
Bind Scope re_scope with re.
Infix "·" := Seq (at level 40, left associativity) : re_scope.
Infix "∥" := Alt (at level 50, left associativity) : re_scope.

Fixpoint star_loop {A} (body : pos → (pos → option A) → option A) (lazy : bool) (fuel : nat)
    (p : pos) (k : pos → option A) : option A :=
  let once :=
    match fuel with
    | O => None
    | S fuel => body p (λ p', if length p'.2 <? length p.2 then star_loop body lazy fuel p' k else None)
    end in
  if lazy then match k p with Some a => Some a | None => once end
  else match once with Some a => Some a | None => k p end.

Fixpoint rmatch {A} (r : re) (p : pos) (k : pos → option A) : option A :=
  match r with
  | Eps => k p
  | Chr f => match p.2 with c :: l => if f c then k (false, l) else None | [] => None end
  | Seq r1 r2 => rmatch r1 p (λ p, rmatch r2 p k)
  | Alt r1 r2 => match rmatch r1 p k with Some a => Some a | None => rmatch r2 p k end
  | Star r => star_loop (rmatch r) false (length p.2) p k
  | Lazy r => star_loop (rmatch r) true (length p.2) p k
  | Begin => if p.1 then k p else None
  | Look f => if f p.2 then k p else None
  end.

(** ** The relational reading *)

Inductive matches : re → pos → pos → Prop :=
| m_eps p : matches Eps p p
| m_chr f b c l : f c = true → matches (Chr f) (b, c :: l) (false, l)
| m_seq r1 r2 p q s : matches r1 p q → matches r2 q s → matches (Seq r1 r2) p s
| m_left r1 r2 p q : matches r1 p q → matches (Alt r1 r2) p q
| m_right r1 r2 p q : matches r2 p q → matches (Alt r1 r2) p q
| m_star_nil r p : matches (Star r) p p
| m_star_cons r p q s :
    matches r p q → (length q.2 < length p.2)%nat → matches (Star r) q s → matches (Star r) p s
| m_lazy r p q : matches (Star r) p q → matches (Lazy r) p q
| m_begin l : matches Begin (true, l) (true, l)
| m_look f p : f p.2 = true → matches (Look f) p p.
#[export] Hint Constructors matches : re.

Lemma star_loop_sound {A} r (body : pos → (pos → option A) → option A) lazy fuel p k a :
  (∀ p k a, body p k = Some a → ∃ q, matches r p q ∧ k q = Some a) →
  star_loop body lazy fuel p k = Some a → ∃ q, matches (Star r) p q ∧ k q = Some a.
Proof.
  intros Hbody. revert p a. induction fuel as [|fuel IH]; intros p a; cbn [star_loop];
    [|destruct (body p _) as [a'|] eqn:Hb];
    (* the iteration succeeds, or the loop stops here *)
    repeat case_match; intros; simplify_eq; eauto using matches.
  all: apply Hbody in Hb as (q & Hq & Hk); destruct (_ <? _)%nat eqn:Hlt in Hk; [|done];
    apply Nat.ltb_lt in Hlt; apply IH in Hk as (s & ? & ?); eauto using matches.
Qed.

Lemma rmatch_sound {A} r p (k : pos → option A) a :
  rmatch r p k = Some a → ∃ q, matches r p q ∧ k q = Some a.
Proof.
  revert p k a. induction r as [|f|r1 IH1 r2 IH2|r1 IH1 r2 IH2|r IH|r IH| |f]; intros p k a; cbn [rmatch].
  - eauto using matches.
  - destruct p as [b [|c l]]; cbn; [done|]. destruct (f c) eqn:?; [|done]. eauto using matches.
  - intros (q & ? & (s & ? & ?)%IH2)%IH1. eauto using matches.
  - destruct (rmatch r1 p k) as [a'|] eqn:H1; [intros [= <-]|intros H2].
    + apply IH1 in H1 as (q & ? & ?). eauto using matches.
    + apply IH2 in H2 as (q & ? & ?). eauto using matches.
  - by apply star_loop_sound.
  - intros (q & ? & ?)%(star_loop_sound r); [|done]. eauto using matches.
  - destruct p as [[] l]; cbn; [|done]. eauto using matches.
  - destruct (f p.2) eqn:?; [|done]. eauto using matches.
Qed.

Lemma star_loop_complete {A} r (body : pos → (pos → option A) → option A) lazy fuel p q k :
  (∀ p q k, matches r p q → is_Some (k q) → is_Some (body p k)) →
  matches (Star r) p q → (length p.2 ≤ fuel)%nat → is_Some (k q) →
  is_Some (star_loop body lazy fuel p k).
Proof.
  intros Hbody Hm. remember (Star r) as r' eqn:Er. revert fuel.
  induction Hm as [| | | | |r' p|r' p q s Hpq _ Hlt ? IH| | |]; simplify_eq; intros fuel Hf Hk.
  - destruct fuel, lazy; cbn; destruct Hk as [? ->]; repeat case_match; eauto.
  - destruct fuel as [|fuel]; [lia|]. cbn [star_loop].
    assert (is_Some (body p (λ p', if length p'.2 <? length p.2
      then star_loop body lazy fuel p' k else None)%nat)) as [a Ha].
    { apply (Hbody _ q); [done|]. rewrite (proj2 (Nat.ltb_lt _ _) Hlt). apply IH; [done|lia|done]. }
    rewrite Ha. destruct lazy; [|done]. destruct (k p); done.
Qed.

Lemma rmatch_complete {A} r p q (k : pos → option A) :
  matches r p q → is_Some (k q) → is_Some (rmatch r p k).
Proof.
  revert p q k. induction r as [|f|r1 IH1 r2 IH2|r1 IH1 r2 IH2|r IH|r IH| |f]; intros p q k Hm Hk;
    inversion Hm; subst; cbn [rmatch]; try done.
  - cbn. by case_match.
  - eapply IH1; [done|]. by eapply IH2.
  - edestruct (IH1 p q k) as [a ->]; done.
  - destruct (rmatch r1 p k); [done|]. by eapply IH2.
  - by eapply (star_loop_complete r).
  - by eapply (star_loop_complete r).
  - eapply (star_loop_complete r); done.
  - by case_match.
Qed.

(** ** What the pattern methods return *)

(** A matcher yields a value and what follows the match. *)
Abbreviation matcher B := (pos → option (B * list ascii)) (only parsing).

(** [match.group] of the one group of [before (group) after] *)
Definition group (before inner after : re) : matcher (list ascii) := λ p,
  rmatch before p (λ q, rmatch inner q (λ s, rmatch after s (λ e,
    Some (take (length q.2 - length s.2) q.2, e.2)))).

Definition whole (r : re) : matcher (list ascii) := group Eps r Eps.

(** [pattern.fullmatch] *)
Definition at_end (l : list ascii) : bool := match l with [] => true | _ => false end.
Definition fullmatch_group (before inner after : re) (s : list ascii) : option (list ascii) :=
  fst <$> group before inner (after · Look at_end) (true, s).
Definition fullmatch (r : re) (s : list ascii) : bool := is_some (fullmatch_group Eps r Eps s).

(** [pattern.search] *)
Fixpoint search_from {B} (m : matcher B) (start : bool) (l : list ascii) : option B :=
  match m (start, l) with
  | Some (b, _) => Some b
  | None => match l with [] => None | _ :: l => search_from m false l end
  end.
Definition search (r : re) (s : list ascii) : bool := is_some (search_from (whole r) true s).

(** [pattern.finditer] of a pattern that never matches the empty string: the
    matches with the position at which each starts. *)
Fixpoint finditer_from {B} (m : matcher B) (i skip : nat) (start : bool) (l : list ascii)
    : list (nat * B) :=
  match l with
  | [] => []
  | _ :: l' =>
      match skip with
      | S skip => finditer_from m (S i) skip false l'
      | O =>
          match m (start, l) with
          | Some (b, rest) => (i, b) :: finditer_from m (S i) (length l - length rest - 1) false l'
          | None => finditer_from m (S i) O false l'
          end
      end
  end.
Definition finditer {B} (m : matcher B) (s : list ascii) : list (nat * B) := finditer_from m O O true s.

(** ** Building patterns *)

Definition ascii_lower (c : ascii) : ascii :=
  if ((65 <=? ord c) && (ord c <=? 90))%Z then Ascii.ascii_of_N (Z.to_N (ord c + 32)) else c.

(** A literal under [re.IGNORECASE]; the pattern is in lower case. *)
Fixpoint lit_chars (l : list ascii) : re :=
  match l with
  | [] => Eps
  | c :: l => Seq (Chr (λ d, eqv (ascii_lower d) c)) (lit_chars l)
  end.
Definition lit (s : string) : re := lit_chars (chars s).

(** A literal that is matched as it is. *)
Fixpoint exact_chars (l : list ascii) : re :=
  match l with [] => Eps | c :: l => Seq (Chr (λ d, eqv d c)) (exact_chars l) end.

Definition one_of (s : string) (c : ascii) : bool := bool_decide (c ∈ chars s).
Definition opt (r : re) : re := Alt r Eps.
Definition many1 (r : re) : re := Seq r (Star r).
Fixpoint times (n : nat) (r : re) : re := match n with O => Eps | S n => Seq r (times n r) end.
(** [r{n,}] and [r{n,}?] *)
Definition at_least (n : nat) (r : re) : re := Seq (times n r) (Star r).
Definition at_least_lazy (n : nat) (r : re) : re := Seq (times n r) (Lazy r).

(** [$]: the end, or a final newline *)
Definition dollar (l : list ascii) : bool :=
  match l with [] => true | [c] => (ord c =? 10)%Z | _ => false end.

(** ** Laws of searching *)

Definition accepts (r : re) (start : bool) (l : list ascii) : Prop := ∃ q, matches r (start, l) q.

Lemma whole_some r p : is_Some (whole r p) ↔ ∃ q, matches r p q.
Proof.
  unfold whole, group. cbn [rmatch]. split.
  - intros [a (q & Hm & _)%rmatch_sound]. eauto.
  - intros [q Hm]. by eapply rmatch_complete.
Qed.

(** A search succeeds exactly when the pattern matches somewhere. *)
Lemma search_from_spec r start l :
  is_Some (search_from (whole r) start l)
  ↔ accepts r start l ∨ ∃ before after, before ≠ [] ∧ l = before ++ after ∧ accepts r false after.
Proof.
  revert start. induction l as [|c l IH]; intros start; cbn [search_from];
    pose proof (whole_some r) as Hw.
  - destruct (whole r (start, [])) as [[b ?]|] eqn:E.
    + split; [|done]. intros _. left. apply Hw. by rewrite E.
    + split; [by intros []|]. intros [H|([|] & ? & ? & ? & ?)]; try done.
      apply Hw in H. rewrite E in H. by destruct H.
  - destruct (whole r (start, c :: l)) as [[b ?]|] eqn:E.
    + split; [|done]. intros _. left. apply Hw. by rewrite E.
    + rewrite IH. split.
      * intros [H|(before & after & _ & -> & H)]; right; [exists [c], l|exists (c :: before), after]; done.
      * intros [H|([|c' before] & after & ? & Heq & H)]; try done; simplify_eq/=.
        { apply Hw in H. rewrite E in H. by destruct H. }
        destruct before as [|d before]; [by left|right]. by exists (d :: before), after.
Qed.

Lemma search_spec r s :
  search r s = true
  ↔ accepts r true s ∨ ∃ before after, before ≠ [] ∧ s = before ++ after ∧ accepts r false after.
Proof. unfold search. rewrite is_some_spec. apply search_from_spec. Qed.

(** *** Patterns without anchors *)

Fixpoint plain (r : re) : bool :=
  match r with
  | Begin | Look _ => false
  | Seq a b | Alt a b => plain a && plain b
  | Star a | Lazy a => plain a
  | _ => true
  end.

(** What an anchor-free pattern matches does not depend on its surroundings. *)
Lemma plain_matches r b l q c tail :
  plain r = true → matches r (b, l) q → ∃ b', matches r (c, l ++ tail) (b', q.2 ++ tail).
Proof.
  intros Hp Hm. remember (b, l) as p eqn:Ep. revert Hp b l c Ep.
  induction Hm; intros Hp b' l' c' Ep; cbn in *; simplify_eq/=; try done; breflect.
  - eauto using matches.
  - eauto using matches.
  - destruct q as [bq lq]. edestruct IHHm1 as [? H1]; [done..|]. cbn in H1.
    edestruct IHHm2 as [? H2]; [done..|]. eauto using matches.
  - edestruct IHHm as [? ?]; [done..|]. eauto using matches.
  - edestruct IHHm as [? ?]; [done..|]. eauto using matches.
  - eauto using matches.
  - destruct q as [bq lq]. edestruct IHHm1 as [? H1]; [done..|]. cbn in H1.
    edestruct IHHm2 as [? H2]; [done..|]. eexists. eapply m_star_cons; [done| |done].
    cbn. rewrite !length_app. cbn in *. lia.
  - edestruct IHHm as [? ?]; [done..|]. eauto using matches.
Qed.

(** An anchor-free pattern found in a text is found in every text around it. *)
Lemma search_embed r before s after :
  plain r = true → search r s = true → search r (before ++ s ++ after) = true.
Proof.
  intros Hp. rewrite !search_spec. intros Hs.
  assert (∃ b mid rest, s = mid ++ rest ∧ accepts r b rest) as (b & mid & rest & -> & [q Hm]).
  { destruct Hs as [?|(mid & rest & _ & -> & ?)]; [by exists true, [], s|by exists false, mid, rest]. }
  rewrite <- app_assoc, (assoc_L app before).
  destruct (decide (before ++ mid = [])) as [->|Hne]; [left|right; exists (before ++ mid), (rest ++ after)];
    cbn; [|split_and!; [done..|]];
    edestruct (plain_matches r b rest q) as [b' H]; try done; by eexists.
Qed.
