(* ===== verification/Cursors.v ===== *)
(** URL-safe Base64 as Python's [base64] and [binascii] have it: the encoder, the
    tolerant and the strict decoder, and their round trips.  Cursors of the API and
    file names of secrets are written in it. *)
From S2P Require Import Prelude PyStr.
From Stdlib Require Import Ascii.
From stdpp Require Import strings.
From stdpp Require Import strings pretty.
From stdpp Require Import sorting strings.
Local Open Scope Z_scope.

Abbreviation bytes := (list ascii) (only parsing).

Definition chr (n : Z) : ascii := ascii_of_N (Z.to_N n).

Lemma ord_bounds c : 0 <= ord c < 256.
Proof. unfold ord. pose proof (N_ascii_bounded c). lia. Qed.

Lemma chr_ord c : chr (ord c) = c.
Proof. unfold chr, ord. rewrite N2Z.id. apply ascii_N_embedding. Qed.

Lemma ord_chr n : 0 <= n < 256 → ord (chr n) = n.
Proof. intros Hn. unfold chr, ord. rewrite N_ascii_embedding by lia. lia. Qed.

(** ** The alphabet *)

(** The characters of [urlsafe_b64encode]. *)
Definition sextet_char (n : Z) : ascii :=
  chr (if n <? 26 then 65 + n else if n <? 52 then 97 + (n - 26) else if n <? 62 then 48 + (n - 52)
       else if n =? 62 then 45 else 95).

(** The decoders translate [-_] to [+/] first, so that both pairs are read. *)
Definition sextet_of (c : ascii) : option Z :=
  let n := ord c in
  if (65 <=? n) && (n <=? 90) then Some (n - 65)
  else if (97 <=? n) && (n <=? 122) then Some (n - 97 + 26)
  else if (48 <=? n) && (n <=? 57) then Some (n - 48 + 52)
  else if (n =? 43) || (n =? 45) then Some 62
  else if (n =? 47) || (n =? 95) then Some 63
  else None.

Definition is_pad (c : ascii) : bool := ord c =? 61.
Definition pad : ascii := chr 61.

(** ** Encoding *)

(** The data characters; three bytes make four of them. *)
Fixpoint encode_data (l : bytes) : list ascii :=
  match l with
  | [] => []
  | [a] => [sextet_char (ord a / 4); sextet_char (ord a mod 4 * 16)]
  | [a; b] => [sextet_char (ord a / 4); sextet_char (ord a mod 4 * 16 + ord b / 16); sextet_char (ord b mod 16 * 4)]
  | a :: b :: c :: l =>
      sextet_char (ord a / 4) :: sextet_char (ord a mod 4 * 16 + ord b / 16)
      :: sextet_char (ord b mod 16 * 4 + ord c / 64) :: sextet_char (ord c mod 64) :: encode_data l
  end.

Definition missing (n : Z) : Z := - n mod 4.
Definition padding (n : Z) : list ascii := replicate (Z.to_nat (missing n)) pad.

(** [base64.urlsafe_b64encode(l)], and with [.rstrip(b"=")] *)
Definition urlsafe_b64encode (l : bytes) : list ascii := encode_data l ++ padding (len (encode_data l)).
Fixpoint drop_pads (l : list ascii) : list ascii :=
  match l with c :: l' => if is_pad c then drop_pads l' else l | [] => [] end.
Definition rstrip_pads (l : list ascii) : list ascii := reverse (drop_pads (reverse l)).

(** ** Decoding: [binascii.a2b_base64] *)

Fixpoint a2b (strict : bool) (quad_pos left pads : Z) (padding_started : bool) (l : list ascii) : option bytes :=
  match l with
  | [] => if quad_pos =? 0 then Some [] else None
  | c :: l =>
      if is_pad c then
        if 2 <=? quad_pos then
          if 4 <=? quad_pos + (pads + 1) then
            match strict, l with true, _ :: _ => None | _, _ => Some [] end
          else a2b strict quad_pos left (pads + 1) true l
        else a2b strict quad_pos left pads true l
      else
        match sextet_of c with
        | None => if strict then None else a2b strict quad_pos left pads padding_started l
        | Some n =>
            if strict && padding_started then None
            else if quad_pos =? 0 then a2b strict 1 n 0 padding_started l
            else if quad_pos =? 1 then cons (chr (left * 4 + n / 16)) <$> a2b strict 2 (n mod 16) 0 padding_started l
            else if quad_pos =? 2 then cons (chr (left * 16 + n / 4)) <$> a2b strict 3 (n mod 4) 0 padding_started l
            else cons (chr (left * 64 + n)) <$> a2b strict 0 0 0 padding_started l
        end
  end.

Definition a2b_base64 (strict : bool) (l : list ascii) : option bytes :=
  match l with
  | c :: _ => if strict && is_pad c then None else a2b strict 0 0 0 false l
  | [] => a2b strict 0 0 0 false l
  end.

(** [urlsafe_b64decode(value)] of a [str], which must be ASCII, and [b64decode(value,
    altchars=b"-_", validate=True)]. *)
Definition is_ascii (l : list ascii) : bool := forallb (λ c, ord c <? 128) l.
Definition urlsafe_b64decode (l : list ascii) : option bytes := if is_ascii l then a2b_base64 false l else None.
Definition b64decode_strict (l : list ascii) : option bytes := if is_ascii l then a2b_base64 true l else None.

(** ** Round trips *)

Lemma sextets (P : Z → Prop) `{!∀ n, Decision (P n)} : forallb (λ n, bool_decide (P n)) (seqZ 0 64) = true → ∀ n, 0 <= n < 64 → P n.
Proof. intros Hall n Hn. rewrite forallb_forall in Hall. apply (bool_decide_eq_true_1 (P n)), Hall, list_elem_of_In, elem_of_seqZ. lia. Qed.

Ltac each_sextet n := revert n; refine (sextets _ _); by vm_compute.
Lemma sextet_of_char n : 0 <= n < 64 → sextet_of (sextet_char n) = Some n.
Proof. each_sextet n. Qed.
Lemma sextet_not_pad n : 0 <= n < 64 → is_pad (sextet_char n) = false.
Proof. each_sextet n. Qed.
Lemma sextet_ascii n : 0 <= n < 64 → (ord (sextet_char n) <? 128) = true.
Proof. each_sextet n. Qed.

Lemma triples (P : bytes → Prop) :
  P [] → (∀ a, P [a]) → (∀ a b, P [a; b]) → (∀ a b c l, P l → P (a :: b :: c :: l)) → ∀ l, P l.
Proof.
  intros H0 H1 H2 H3. assert (∀ n l, (length l ≤ n)%nat → P l) as Hall; [|by intros l; apply (Hall (length l))].
  induction n as [|n IH]; intros [|a [|b [|c l]]] Hl; cbn in Hl; try done; try lia. apply H3, IH. lia.
Qed.

Ltac sextet_bounds :=
  repeat match goal with
  | c : ascii |- _ => lazymatch goal with H : 0 <= ord c < 256 |- _ => fail | _ => pose proof (ord_bounds c) end
  end.
Ltac sextet := sextet_bounds; Z.to_euclidean_division_equations; lia.

Lemma a2b_char strict quad_pos left pads n l :
  0 <= n < 64 →
  a2b strict quad_pos left pads false (sextet_char n :: l)
  = if quad_pos =? 0 then a2b strict 1 n 0 false l
    else if quad_pos =? 1 then cons (chr (left * 4 + n / 16)) <$> a2b strict 2 (n mod 16) 0 false l
    else if quad_pos =? 2 then cons (chr (left * 16 + n / 4)) <$> a2b strict 3 (n mod 4) 0 false l
    else cons (chr (left * 64 + n)) <$> a2b strict 0 0 0 false l.
Proof.
  intros Hn. cbn [a2b]. rewrite (sextet_not_pad n Hn), (sextet_of_char n Hn). by rewrite andb_false_r.
Qed.

Lemma len_cons {A} (x : A) l : len (x :: l) = 1 + len l.
Proof. unfold len. cbn [length]. lia. Qed.

Lemma missing_quad n : missing (4 + n) = missing n.
Proof. unfold missing. Z.to_euclidean_division_equations. lia. Qed.

Lemma chr_is c n : n = ord c → chr n = c.
Proof. intros ->. apply chr_ord. Qed.

(** Padded data is decoded to what was encoded. *)
Lemma a2b_encoded strict l : a2b strict 0 0 0 false (urlsafe_b64encode l) = Some l.
Proof.
  unfold urlsafe_b64encode. induction l as [|a|a b|a b c l IH] using triples; cbn [encode_data]; rewrite <- ?app_comm_cons, ?app_nil_l.
  - done.
  - rewrite !a2b_char by sextet. cbn [Z.eqb Pos.eqb]. replace (padding _) with [pad; pad] by done.
    rewrite (chr_is a) by sextet. by destruct strict.
  - rewrite !a2b_char by sextet. cbn [Z.eqb Pos.eqb]. replace (padding _) with [pad] by done.
    rewrite (chr_is a), (chr_is b) by sextet. by destruct strict.
  - rewrite !a2b_char by sextet. cbn [Z.eqb Pos.eqb]. rewrite (chr_is a), (chr_is b), (chr_is c) by sextet.
    rewrite !len_cons. replace (padding (1 + (1 + (1 + (1 + len (encode_data l)))))) with (padding (len (encode_data l))).
    { by rewrite IH. }
    unfold padding. do 2 f_equal. rewrite <- missing_quad. f_equal. lia.
Qed.

Lemma encode_data_chars l c : c ∈ encode_data l → ∃ n, 0 <= n < 64 ∧ c = sextet_char n.
Proof.
  induction l as [|a|a b|a b c' l IH] using triples; cbn [encode_data]; rewrite ?elem_of_cons.
  - by intros ?%elem_of_nil.
  - intros [->|[->|?%elem_of_nil]]; [..|done]; eexists; (split; [|done]); sextet.
  - intros [->|[->|[->|?%elem_of_nil]]]; [..|done]; eexists; (split; [|done]); sextet.
  - intros [->|[->|[->|[->|?]]]]; [..|by apply IH]; eexists; (split; [|done]); sextet.
Qed.

Lemma encode_data_length l : len (encode_data l) = (len l * 8 + 5) / 6.
Proof.
  induction l as [|a|a b|a b c l IH] using triples; cbn [encode_data]; [done..|]. rewrite !len_cons, IH.
  Z.to_euclidean_division_equations. lia.
Qed.

Lemma encode_data_ascii l : is_ascii (encode_data l) = true.
Proof.
  apply forallb_forall. intros c (n & Hn & ->)%list_elem_of_In%encode_data_chars. by apply sextet_ascii.
Qed.

Lemma is_ascii_app l1 l2 : is_ascii (l1 ++ l2) = is_ascii l1 && is_ascii l2.
Proof. apply forallb_app. Qed.

Lemma padding_ascii n : is_ascii (padding n) = true.
Proof. unfold padding. induction (Z.to_nat _) as [|k IH]; [done|]. exact IH. Qed.

Lemma drop_pads_replicate k l : drop_pads (replicate k pad ++ l) = drop_pads l.
Proof. induction k as [|k IH]; [done|]. cbn. exact IH. Qed.

(** [rstrip(b"=")] leaves the data characters. *)
Lemma rstrip_encoded l : rstrip_pads (urlsafe_b64encode l) = encode_data l.
Proof.
  unfold rstrip_pads, urlsafe_b64encode, padding. rewrite reverse_app, reverse_replicate, drop_pads_replicate.
  destruct (reverse (encode_data l)) as [|c r] eqn:E.
  - cbn. apply (f_equal reverse) in E. by rewrite reverse_involutive in E.
  - assert (c ∈ encode_data l) as (n & Hn & ->)%encode_data_chars by (apply elem_of_reverse; rewrite E; by left).
    cbn [drop_pads]. rewrite sextet_not_pad by done. rewrite <- E. by rewrite reverse_involutive.
Qed.

Lemma encoded_head strict l c r : urlsafe_b64encode l = c :: r → strict && is_pad c = false.
Proof.
  intros E. destruct strict; [|done]. cbn. destruct (encode_data l) as [|c' r'] eqn:Ed; unfold urlsafe_b64encode in E; rewrite Ed in E;
    [discriminate|]. injection E as -> _. assert (c ∈ encode_data l) as (n & Hn & ->)%encode_data_chars by (rewrite Ed; by left).
  by apply sextet_not_pad.
Qed.

Lemma a2b_base64_encoded strict l : a2b_base64 strict (urlsafe_b64encode l) = Some l.
Proof.
  unfold a2b_base64. destruct (urlsafe_b64encode l) as [|c r] eqn:E; [by rewrite <- E, a2b_encoded|].
  rewrite (encoded_head strict l c r E), <- E. apply a2b_encoded.
Qed.

Lemma urlsafe_b64_roundtrip l : urlsafe_b64decode (urlsafe_b64encode l) = Some l.
Proof.
  unfold urlsafe_b64decode. replace (is_ascii _) with true; [apply a2b_base64_encoded|].
  unfold urlsafe_b64encode. by rewrite is_ascii_app, encode_data_ascii, padding_ascii.
Qed.

(** What [rstrip] took off is put back. *)
Lemma repadded_roundtrip l pads :
  pads = padding (len (encode_data l)) → urlsafe_b64decode (rstrip_pads (urlsafe_b64encode l) ++ pads) = Some l.
Proof. intros ->. rewrite rstrip_encoded. apply urlsafe_b64_roundtrip. Qed.

Lemma strict_b64_roundtrip l : b64decode_strict (urlsafe_b64encode l) = Some l.
Proof.
  unfold b64decode_strict. replace (is_ascii _) with true; [apply a2b_base64_encoded|].
  unfold urlsafe_b64encode. by rewrite is_ascii_app, encode_data_ascii, padding_ascii.
Qed.

#[global] Instance encode_data_inj : Inj (=) (=) encode_data.
Proof.
  intros l1 l2 E. pose proof (urlsafe_b64_roundtrip l1) as H1. pose proof (urlsafe_b64_roundtrip l2) as H2.
  unfold urlsafe_b64encode in H1, H2. rewrite E in H1. congruence.
Qed.

(** * The cursors of the API (api/contracts.py 1173-1241): positions in a listing as
    opaque strings, and the law a listing relies on. *)

(** ** Integers as bytes *)

(** [value.to_bytes(k, "big")] of a value in range, and [int.from_bytes(l, "big")] *)
Fixpoint to_bytes (k : nat) (value : Z) : bytes :=
  match k with O => [] | S k => to_bytes k (value / 256) ++ [chr (value mod 256)] end.
Definition from_bytes (l : bytes) : Z := fold_left (λ v c, v * 256 + ord c) l 0.

(** The same with [signed=True]. *)
Definition to_signed_bytes (k : nat) (value : Z) : bytes := to_bytes k (value mod 256 ^ Z.of_nat k).
Definition from_signed_bytes (l : bytes) : Z :=
  let bound := 256 ^ len l in
  let value := from_bytes l in
  if bound <=? 2 * value then value - bound else value.

(** A [UUID] is the positive number whose predecessor is its 128-bit integer, so that
    the order of identifiers is that of their bytes. *)
Definition uuid_int (u : uuid) : Z := Z.pos u - 1.
Definition uuid_bytes (u : uuid) : bytes := to_bytes 16 (uuid_int u).
Definition uuid_of_bytes (l : bytes) : option uuid :=
  if len l =? 16 then Some (Z.to_pos (from_bytes l + 1)) else None.
Definition valid_uuid (u : uuid) : Prop := uuid_int u < 256 ^ 16.

(** ** [int(s)] of an ASCII [str] *)

Definition digit_value (c : ascii) : option Z :=
  if (48 <=? ord c) && (ord c <=? 57) then Some (ord c - 48) else None.
Fixpoint digits (value : Z) (l : list ascii) : option Z :=
  match l with
  | [] => Some value
  | c :: l =>
      match digit_value c with
      | Some d => digits (value * 10 + d) l
      | None => match l with
                | c' :: _ => if (ord c =? 95) && is_some (digit_value c') then digits value l else None
                | [] => None
                end
      end
  end.
Definition unsigned (l : list ascii) : option Z :=
  match l with c :: _ => if is_some (digit_value c) then digits 0 l else None | [] => None end.
Definition int_of_str (l : list ascii) : option Z :=
  match chars (strip (of_chars l)) with
  | c :: l => if ord c =? 45 then Z.opp <$> unsigned l else if ord c =? 43 then unsigned l else unsigned (c :: l)
  | [] => None
  end.

(** ** The three kinds of cursor; [None] is [InvalidRequest] *)

(** [_encode_cursor], [_decode_cursor] *)
Definition _encode_cursor (value : uuid) : string := of_chars (rstrip_pads (urlsafe_b64encode (uuid_bytes value))).
Definition _decode_cursor (value : string) : option uuid :=
  if negb (slen value =? 22) then None else urlsafe_b64decode (chars value ++ [pad; pad]) ≫= uuid_of_bytes.

(** [_encode_sequence_cursor], [_decode_sequence_cursor] *)
Definition _encode_sequence_cursor (value : Z) : string := of_chars (rstrip_pads (urlsafe_b64encode (chars (pretty value)))).
Definition _decode_sequence_cursor (value : string) : option Z :=
  if negb ((1 <=? slen value) && (slen value <=? 16)) then None else
  decoded ← urlsafe_b64decode (chars value ++ padding (slen value));
  if negb (is_ascii decoded) then None else
  sequence ← int_of_str decoded;
  if sequence <? 1 then None else Some sequence.

(** The instants a [datetime] can hold, years 1 to 9999. *)
Definition datetime_min : instant := - 62135596800 * 1000000.
Definition datetime_max : instant := 253402300800 * 1000000 - 1.

(** [_encode_audit_cursor], [_decode_audit_cursor] *)
Definition _encode_audit_cursor (position : instant * uuid) : string :=
  of_chars (urlsafe_b64encode (to_signed_bytes 8 position.1 ++ uuid_bytes position.2)).
Definition _decode_audit_cursor (value : string) : option (instant * uuid) :=
  if negb (slen value =? 32) then None else
  payload ← b64decode_strict (chars value);
  if negb (len payload =? 24) then None else
  let microseconds := from_signed_bytes (take 8 payload) in
  if negb ((datetime_min <=? microseconds) && (microseconds <=? datetime_max)) then None else
  identifier ← uuid_of_bytes (drop 8 payload);
  Some (microseconds, identifier).

(** ** The law *)

(** A kind of position with its cursors: what was handed out is read back. *)
Class CursorCodec (K : Type) := {
  encode_cursor : K → string;
  decode_cursor : string → option K;
  encodable : K → Prop;
  cursor_roundtrip k : encodable k → decode_cursor (encode_cursor k) = Some k }.

Lemma from_bytes_snoc l c : from_bytes (l ++ [c]) = from_bytes l * 256 + ord c.
Proof. unfold from_bytes. by rewrite fold_left_app. Qed.

Lemma length_to_bytes k v : len (to_bytes k v) = Z.of_nat k.
Proof.
  revert v. induction k as [|k IH]; intros v; cbn [to_bytes]; [done|]. unfold len in *. rewrite length_app. cbn [length].
  specialize (IH (v / 256)). lia.
Qed.

Lemma from_to_bytes k v : 0 <= v < 256 ^ Z.of_nat k → from_bytes (to_bytes k v) = v.
Proof.
  revert v. induction k as [|k IH]; intros v Hv; cbn [to_bytes]; [cbn in *; lia|].
  rewrite Nat2Z.inj_succ, Z.pow_succ_r in Hv by lia. set (b := 256 ^ Z.of_nat k) in *.
  pose proof (Z.mod_pos_bound v 256 ltac:(lia)). pose proof (Z.div_mod v 256 ltac:(lia)).
  rewrite from_bytes_snoc, (IH (v / 256)), ord_chr by (try (fold b); split; nia). lia.
Qed.

Lemma from_to_signed_bytes k v :
  (0 < k)%nat → - (256 ^ Z.of_nat k) <= 2 * v < 256 ^ Z.of_nat k → from_signed_bytes (to_signed_bytes k v) = v.
Proof.
  intros Hk Hv. unfold from_signed_bytes, to_signed_bytes. rewrite length_to_bytes. set (b := 256 ^ Z.of_nat k) in *.
  assert (0 < b) by (apply Z.pow_pos_nonneg; lia). rewrite from_to_bytes by (apply Z.mod_pos_bound; lia).
  assert (v mod b = if v <? 0 then v + b else v) as ->.
  { destruct (v <? 0) eqn:E; [apply Z.ltb_lt in E|apply Z.ltb_ge in E].
    - symmetry. apply (Z.mod_unique_pos _ _ (-1)); lia.
    - apply Z.mod_small. lia. }
  destruct (v <? 0) eqn:E; [apply Z.ltb_lt in E|apply Z.ltb_ge in E].
  - rewrite (proj2 (Z.leb_le _ _)) by lia. lia.
  - rewrite (proj2 (Z.leb_gt _ _)) by lia. done.
Qed.

Lemma uuid_bytes_roundtrip u : valid_uuid u → uuid_of_bytes (uuid_bytes u) = Some u.
Proof.
  intros Hu. unfold uuid_of_bytes, uuid_bytes. rewrite length_to_bytes. cbn [Z.of_nat Z.eqb Pos.eqb]. unfold valid_uuid, uuid_int in *.
  change (Z.of_nat 16 =? 16) with true. cbn iota. rewrite from_to_bytes by (change (Z.of_nat 16) with 16; lia).
  f_equal. replace (Z.pos u - 1 + 1) with (Z.pos u) by lia. done.
Qed.

Lemma padding_two n : n = 22 → padding n = [pad; pad].
Proof. by intros ->. Qed.

Lemma slen_chars_of l : slen (of_chars l) = len l.
Proof. apply slen_of_chars. Qed.

Lemma cursor_law u : valid_uuid u → _decode_cursor (_encode_cursor u) = Some u.
Proof.
  intros Hu. unfold _decode_cursor, _encode_cursor. rewrite slen_of_chars, chars_of_chars.
  assert (len (encode_data (uuid_bytes u)) = 22) as Hlen
    by (unfold uuid_bytes; by rewrite encode_data_length, length_to_bytes).
  rewrite rstrip_encoded, Hlen. cbn [Z.eqb Pos.eqb negb]. rewrite <- rstrip_encoded, repadded_roundtrip by (symmetry; by apply padding_two).
  by apply uuid_bytes_roundtrip.
Qed.

Lemma audit_cursor_law t u :
  datetime_min <= t <= datetime_max → valid_uuid u → _decode_audit_cursor (_encode_audit_cursor (t, u)) = Some (t, u).
Proof.
  intros Ht Hu. unfold _decode_audit_cursor, _encode_audit_cursor. cbn [fst snd]. rewrite slen_of_chars, chars_of_chars.
  set (payload := to_signed_bytes 8 t ++ uuid_bytes u).
  assert (len (to_signed_bytes 8 t) = 8) as H8 by apply length_to_bytes.
  assert (len (uuid_bytes u) = 16) as H16 by apply length_to_bytes.
  assert (len payload = 24) as H24 by (unfold payload, len in *; rewrite length_app; lia).
  assert (len (urlsafe_b64encode payload) = 32) as Hlen.
  { unfold urlsafe_b64encode. assert (len (encode_data payload) = 32) as E by (rewrite encode_data_length, H24; done).
    rewrite E. change (padding 32) with (@nil ascii). by rewrite app_nil_r. }
  rewrite Hlen, strict_b64_roundtrip. cbn [Z.eqb Pos.eqb negb mbind option_bind]. rewrite H24. cbn [Z.eqb Pos.eqb negb].
  assert (take 8 payload = to_signed_bytes 8 t ∧ drop 8 payload = uuid_bytes u) as [-> ->].
  { unfold payload. split; [apply take_app_length'|apply drop_app_length']; unfold len in H8; lia. }
  rewrite from_to_signed_bytes by (unfold datetime_min, datetime_max in Ht; change (256 ^ Z.of_nat 8) with 18446744073709551616; lia).
  assert ((datetime_min <=? t) && (t <=? datetime_max) = true) as -> by (apply andb_true_iff; split; apply Z.leb_le; lia).
  cbn [negb]. by rewrite uuid_bytes_roundtrip.
Qed.

(** *** Decimal numerals *)

Lemma pretty_digit d : (d < 10)%N → digit_value (pretty_N_char d) = Some (Z.of_N d).
Proof.
  intros Hd. assert (d = 0 ∨ d = 1 ∨ d = 2 ∨ d = 3 ∨ d = 4 ∨ d = 5 ∨ d = 6 ∨ d = 7 ∨ d = 8 ∨ d = 9)%N as Hcases by lia.
  by destruct_or! Hcases; subst d.
Qed.

Lemma pretty_N_go_digits x s : digits 0 (chars (pretty_N_go x s)) = digits (Z.of_N x) (chars s).
Proof.
  revert s. induction x as [x IH] using (well_founded_induction N.lt_wf_0). intros s.
  destruct (decide (x = 0)%N) as [->|Hx]; [by rewrite pretty_N_go_0|]. rewrite pretty_N_go_step by lia.
  rewrite IH by (apply N.div_lt; lia). pose proof (N.mod_lt x 10 ltac:(done)) as Hm. cbn [chars String.list_ascii_of_string digits].
  rewrite pretty_digit by done. f_equal. pose proof (N.div_mod x 10 ltac:(done)). lia.
Qed.

Definition numeral (s : string) : Prop := Forall (λ c, is_Some (digit_value c)) (chars s).

Lemma pretty_N_go_numeral x s : numeral s → numeral (pretty_N_go x s).
Proof.
  revert s. induction x as [x IH] using (well_founded_induction N.lt_wf_0). intros s Hs.
  destruct (decide (x = 0)%N) as [->|Hx]; [by rewrite pretty_N_go_0|]. rewrite pretty_N_go_step by lia.
  apply IH; [apply N.div_lt; lia|]. constructor; [|done]. rewrite pretty_digit by (by apply N.mod_lt). by eexists.
Qed.

Lemma pretty_N_go_length x s k : (x < 10 ^ N.of_nat k)%N → slen (pretty_N_go x s) <= Z.of_nat k + slen s.
Proof.
  revert s k. induction x as [x IH] using (well_founded_induction N.lt_wf_0). intros s k Hk.
  destruct (decide (x = 0)%N) as [->|Hx]; [rewrite pretty_N_go_0; lia|]. rewrite pretty_N_go_step by lia.
  destruct k as [|k]; [cbn in Hk; lia|]. rewrite Nat2N.inj_succ, N.pow_succ_r' in Hk.
  etrans; [apply (IH (x / 10)%N ltac:(apply N.div_lt; lia) _ k); apply N.Div0.div_lt_upper_bound; lia|].
  unfold slen. cbn [String.length]. lia.
Qed.

Lemma pretty_numeral n : 0 <= n → numeral (pretty n) ∧ digits 0 (chars (pretty n)) = Some n ∧ pretty n ≠ EmptyString.
Proof.
  destruct n as [|p|p]; intros Hn; [|clear Hn|done].
  { split; [|done]. repeat constructor. by eexists. }
  change (pretty (Z.pos p)) with (if decide (N.pos p = 0)%N then "0" else pretty_N_go (N.pos p) "")%string.
  destruct (decide _) as [?|_]; [done|]. split; [apply pretty_N_go_numeral; constructor|]. split; [by rewrite pretty_N_go_digits|].
  intros E. pose proof (pretty_N_go_digits (N.pos p) "") as Hd. rewrite E in Hd. by cbn in Hd.
Qed.

Lemma pretty_length n k : 0 <= n < 10 ^ Z.of_nat k → (0 < k)%nat → slen (pretty n) <= Z.of_nat k.
Proof.
  destruct n as [|p|p]; intros Hn Hk; [change (slen (pretty 0)) with 1; lia| |lia].
  change (pretty (Z.pos p)) with (if decide (N.pos p = 0)%N then "0" else pretty_N_go (N.pos p) "")%string.
  destruct (decide _) as [?|_]; [done|]. etrans; [apply (pretty_N_go_length _ _ k)|change (slen "") with 0; lia].
  apply N2Z.inj_lt. rewrite N2Z.inj_pow, nat_N_Z. cbn. lia.
Qed.

Lemma numeral_char c : is_Some (digit_value c) → isspace c = false ∧ (ord c =? 45) = false ∧ (ord c =? 43) = false ∧ (ord c <? 128) = true.
Proof.
  unfold digit_value, isspace. intros [d Hd]. destruct ((48 <=? ord c) && (ord c <=? 57)) eqn:E; [|done].
  apply andb_true_iff in E as [H1%Z.leb_le H2%Z.leb_le].
  repeat split; rewrite ?orb_false_iff, ?andb_false_iff, ?Z.leb_gt, ?Z.eqb_neq, ?Z.ltb_lt; lia.
Qed.

Lemma lstrip_numeral l : Forall (λ c, is_Some (digit_value c)) l → lstrip l = l.
Proof. intros [|c l' Hc _]; [done|]. cbn. by destruct (numeral_char c Hc) as [-> _]. Qed.

Lemma int_of_numeral s : numeral s → s ≠ EmptyString → int_of_str (chars s) = digits 0 (chars s).
Proof.
  unfold numeral, int_of_str, strip. intros Hs Hne. rewrite !chars_of_chars, (lstrip_numeral (chars s)) by done.
  rewrite lstrip_numeral by (apply Forall_forall; intros c Hc; eapply Forall_forall in Hs; [exact Hs|];
    apply list_elem_of_In in Hc; apply list_elem_of_In; by apply in_rev in Hc).
  rewrite rev_involutive. destruct (chars s) as [|c l] eqn:E.
  - destruct Hne. by rewrite <- (of_chars_chars s), E.
  - inversion Hs as [|? ? Hc _]; subst. destruct (numeral_char c Hc) as (_ & -> & -> & _). unfold unsigned.
    by destruct Hc as [d ->].
Qed.

Lemma sequence_cursor_law n : 1 <= n < 10 ^ 12 → _decode_sequence_cursor (_encode_sequence_cursor n) = Some n.
Proof.
  intros Hn. unfold _decode_sequence_cursor, _encode_sequence_cursor. rewrite slen_of_chars, chars_of_chars, rstrip_encoded.
  destruct (pretty_numeral n ltac:(lia)) as (Hnum & Hdig & Hne).
  pose proof (pretty_length n 12 ltac:(change (Z.of_nat 12) with 12; lia) ltac:(lia)) as Hlen.
  assert (1 <= slen (pretty n)) as Hpos by (destruct (pretty n); [done|]; unfold slen; cbn [String.length]; lia).
  assert (1 <= len (encode_data (chars (pretty n))) <= 16) as [H1 H2].
  { rewrite encode_data_length, slen_chars. change (Z.of_nat 12) with 12 in Hlen. Z.to_euclidean_division_equations. lia. }
  rewrite (proj2 (Z.leb_le _ _) H1), (proj2 (Z.leb_le _ _) H2). cbn [andb negb].
  rewrite <- rstrip_encoded at 1. rewrite repadded_roundtrip by done. cbn [mbind option_bind].
  assert (is_ascii (chars (pretty n)) = true) as ->.
  { apply forallb_forall. intros c Hc%list_elem_of_In. eapply Forall_forall in Hnum; [|exact Hc]. by apply numeral_char. }
  cbn [negb]. rewrite int_of_numeral, Hdig by done. cbn [mbind option_bind]. rewrite (proj2 (Z.ltb_ge _ _)) by lia. done.
Qed.

#[global] Instance uuid_cursor : CursorCodec uuid := {
  encode_cursor := _encode_cursor; decode_cursor := _decode_cursor; encodable := valid_uuid; cursor_roundtrip := cursor_law }.
#[global] Instance sequence_cursor : CursorCodec Z := {
  encode_cursor := _encode_sequence_cursor; decode_cursor := _decode_sequence_cursor;
  encodable := λ n, 1 <= n < 10 ^ 12; cursor_roundtrip := sequence_cursor_law }.
#[global] Program Instance audit_cursor : CursorCodec (instant * uuid) := {
  encode_cursor := _encode_audit_cursor; decode_cursor := _decode_audit_cursor;
  encodable := λ p, datetime_min <= p.1 <= datetime_max ∧ valid_uuid p.2 }.
Next Obligation. intros [t u] [Ht Hu]. by apply audit_cursor_law. Qed.

(** * Keyset pagination: a listing is read page by page, each page from a cursor that
    names the last row of the page before, while the table changes between the pages. *)

Lemma filter_all_of {A} (P : A → Prop) `{!∀ x, Decision (P x)} (l : list A) : (∀ x, x ∈ l → P x) → filter P l = l.
Proof.
  induction l as [|x l IH]; intros Hl; [done|]. rewrite filter_cons_True by (apply Hl; by left). f_equal. apply IH.
  intros y Hy. apply Hl. by right.
Qed.

Lemma filter_nil_of {A} (P : A → Prop) `{!∀ x, Decision (P x)} (l : list A) : (∀ x, x ∈ l → ¬ P x) → filter P l = [].
Proof. intros Hl. apply elem_of_nil_inv. intros x [HP Hx]%list_elem_of_filter. by eapply Hl. Qed.

Section keyset.
Context {R K : Type} (key : R → K) (precedes : K → K → Prop).
Context `{!RelDecision precedes} `{!StrictOrder precedes} `{!CursorCodec K}.
Implicit Types (rows items : list R) (cursor : option K).

(** ** Pages *)

(** The [WHERE] clause of a cursor. *)
Definition after cursor (r : R) : Prop := match cursor with None => True | Some k => precedes k (key r) end.
#[global] Instance after_dec cursor r : Decision (after cursor r).
Proof. unfold after. destruct cursor; apply _. Defined.

(** [statement.limit(limit + 1)], the first [limit] of its rows, and the position of the
    last one if there are more. *)
Definition page (limit : nat) rows cursor : list R * option K :=
  let found := take (S limit) (filter (after cursor) rows) in
  (take limit found, if decide (limit < length found)%nat then key <$> found !! (limit - 1)%nat else None).

(** A page with its cursors as strings; [None] is [InvalidRequest]. *)
Definition listed (limit : nat) rows (cursor : option string) : option (list R * option string) :=
  position ← match cursor with None => Some None | Some c => Some <$> decode_cursor c end;
  let '(items, next) := page limit rows position in
  Some (items, encode_cursor <$> next).

(** A client that follows the cursors, the table being [tables !! i] when it asks for
    the [i]-th page: the pages, and whether it reached the last one. *)
Fixpoint browse (limit : nat) (tables : list (list R)) (cursor : option string) : option (list (list R) * bool) :=
  match tables with
  | [] => Some ([], false)
  | rows :: tables =>
      '(items, next) ← listed limit rows cursor;
      match next with
      | None => Some ([items], true)
      | Some c => '(pages, finished) ← browse limit tables (Some c); Some (items :: pages, finished)
      end
  end.

(** ** Correctness *)

Definition earlier (a b : R) : Prop := precedes (key a) (key b).
Definition ordered rows : Prop := StronglySorted earlier rows ∧ Forall (λ r, encodable (key r)) rows.

Lemma after_trans cursor k r : match cursor with None => True | Some k0 => precedes k0 k end → precedes k (key r) → after cursor r.
Proof. destruct cursor as [k0|]; [|done]. cbn. intros. by transitivity k. Qed.

(** The matching rows, split at the end of a page. *)
Record page_of (limit : nat) rows cursor items (next : option K) : Prop := {
  po_rest : ∃ rest, filter (after cursor) rows = items ++ rest
    ∧ match next with None => rest = [] | Some k => ∃ r before, items = before ++ [r] ∧ k = key r end;
  po_size : (length items ≤ limit)%nat;
  po_full : is_Some next → length items = limit ∧ (limit < length (filter (after cursor) rows))%nat }.

Lemma page_spec limit rows cursor : (0 < limit)%nat →
  page_of limit rows cursor (page limit rows cursor).1 (page limit rows cursor).2.
Proof.
  intros Hl. unfold page. set (l := filter (after cursor) rows). cbn [fst snd]. rewrite take_take, Nat.min_l by lia.
  destruct (decide _) as [Hm|Hm]; rewrite length_take in Hm.
  - destruct (l !! (limit - 1)%nat) as [r|] eqn:Er; [|apply lookup_ge_None in Er; lia].
    assert (take (S limit) l !! (limit - 1)%nat = Some r) as -> by (by rewrite lookup_take_lt by lia).
    split; [| |intros _; rewrite length_take; fold l; lia].
    + exists (drop limit l). split; [by rewrite take_drop|]. exists r, (take (limit - 1) l). split; [|done].
      replace limit with (S (limit - 1)) at 1 by lia. by apply take_S_r.
    + rewrite length_take. lia.
  - split; [|rewrite length_take; lia|by intros []]. exists []. by rewrite app_nil_r, take_ge by lia.
Qed.

Lemma filter_ordered cursor rows : ordered rows → ordered (filter (after cursor) rows).
Proof.
  intros [Hs He]. split.
  - induction Hs as [|r rows Hs IH Hr]; [constructor|]. inversion He; subst. rewrite filter_cons. destruct (decide _); [|by apply IH].
    constructor; [by apply IH|]. apply Forall_forall. intros x [_ Hx]%list_elem_of_filter. by eapply Forall_forall in Hr.
  - apply Forall_forall. intros r [_ Hr]%list_elem_of_filter. by eapply Forall_forall in He.
Qed.

(** What a page leaves for the next one. *)
Lemma page_next limit rows cursor items k : ordered rows → page_of limit rows cursor items (Some k) →
  (∀ r, r ∈ items → after cursor r ∧ r ∈ rows ∧ (key r = k ∨ precedes (key r) k))
  ∧ encodable k ∧ match cursor with None => True | Some k0 => precedes k0 k end
  ∧ (∀ r, r ∈ rows → after cursor r → r ∈ items ∨ precedes k (key r))
  ∧ filter (after cursor) rows = items ++ filter (after (Some k)) rows.
Proof.
  intros Ho [(rest & El & r0 & before & -> & ->) _ _]. pose proof (filter_ordered cursor rows Ho) as [Hs He]. rewrite El in Hs, He.
  apply StronglySorted_app in Hs as (Hb & Hs1 & _). apply StronglySorted_app in Hs1 as (Hb1 & _ & _).
  assert (∀ r, r ∈ before ++ [r0] → after cursor r ∧ r ∈ rows) as Hin.
  { intros r Hr. apply (list_elem_of_filter (after cursor)). rewrite El. apply elem_of_app. by left. }
  assert (r0 ∈ before ++ [r0]) as H0 by (apply elem_of_app; right; by apply list_elem_of_singleton).
  assert (match cursor with None => True | Some k0 => precedes k0 (key r0) end) as Hpos by (destruct (Hin _ H0); by destruct cursor).
  split_and!; [| |done| |].
  - intros r Hr. destruct (Hin r Hr). split_and!; [done..|]. apply elem_of_app in Hr as [Hr| ->%list_elem_of_singleton]; [|by left].
    right. apply Hb1; [done|by apply list_elem_of_singleton].
  - eapply Forall_forall in He; [exact He|]. apply elem_of_app. by left.
  - intros r Hr Ha. assert (r ∈ (before ++ [r0]) ++ rest) as [?|Hrest]%elem_of_app; [|by left|right; by apply Hb].
    rewrite <- El. by apply list_elem_of_filter.
  - assert (filter (after (Some (key r0))) rows = filter (after (Some (key r0))) (filter (after cursor) rows)) as ->.
    { rewrite list_filter_filter. apply list_filter_iff. intros r. split; [|by intros [? _]]. intros Hr. split; [done|by eapply after_trans]. }
    rewrite El, filter_app.
    rewrite (filter_nil_of (after (Some (key r0))) (before ++ [r0])), (filter_all_of (after (Some (key r0))) rest); [done|..].
    + intros r Hr. by apply Hb.
    + intros r [Hr| ->%list_elem_of_singleton]%elem_of_app Ha; [|exact (StrictOrder_Irreflexive (key r0) Ha)].
      assert (earlier r r0) as Hr' by (apply Hb1; [done|by apply list_elem_of_singleton]).
      apply (StrictOrder_Irreflexive (key r0)). by transitivity (key r).
Qed.

Lemma listed_at limit rows cursor : match cursor with None => True | Some k => encodable k end →
  listed limit rows (encode_cursor <$> cursor)
  = Some ((page limit rows cursor).1, encode_cursor <$> (page limit rows cursor).2).
Proof.
  intros Hc. unfold listed. destruct cursor as [k|]; cbn [fmap option_fmap option_map].
  - rewrite cursor_roundtrip by done. cbn [fmap option_fmap option_map mbind option_bind]. by destruct (page _ _ _).
  - cbn [mbind option_bind]. by destruct (page _ _ _).
Qed.

(** What a client has seen when it stops: rows in order, none twice, each of one of the
    tables it read; and if it reached the last page, every row that stayed. *)
Record seen (limit : nat) (tables : list (list R)) cursor (pages : list (list R)) (finished : bool) : Prop := {
  sn_order : StronglySorted earlier (concat pages);
  sn_after : Forall (after cursor) (concat pages);
  sn_size : Forall (λ items, (length items ≤ limit)%nat) pages;
  sn_rows : ∀ i items r, pages !! i = Some items → r ∈ items → ∃ rows, tables !! i = Some rows ∧ r ∈ rows;
  sn_all : finished = true → ∀ r, (∀ rows, rows ∈ take (length pages) tables → r ∈ rows) → after cursor r → r ∈ concat pages }.

Lemma browse_seen limit tables cursor : (0 < limit)%nat → Forall ordered tables →
  match cursor with None => True | Some k => encodable k end →
  ∃ pages finished, browse limit tables (encode_cursor <$> cursor) = Some (pages, finished)
    ∧ seen limit tables cursor pages finished.
Proof.
  intros Hl. revert cursor. induction tables as [|rows tables IH]; intros cursor Ho Hc; cbn [browse].
  { exists [], false. split; [done|]. split; [constructor..|by intros i items r ?|done]. }
  inversion Ho as [|? ? Hrows Htables]; subst. rewrite listed_at by done. cbn [mbind option_bind].
  pose proof (page_spec limit rows cursor Hl) as Hp. destruct (page limit rows cursor) as [items next]. cbn [fst snd] in *.
  pose proof (filter_ordered cursor rows Hrows) as [Hs _]. destruct next as [k|]; cbn [fmap option_fmap option_map].
  - destruct (page_next _ _ _ _ _ Hrows Hp) as (Hitems & Hk & Hpos & Hrest & El). destruct (IH (Some k) Htables Hk) as (pages & finished & E & [S1 S2 S3 S4 S5]).
    cbn [fmap option_fmap option_map] in E. rewrite E. cbn [mbind option_bind]. exists (items :: pages), finished. split; [done|].
    rewrite Forall_forall in S2. split; cbn [concat].
    + apply StronglySorted_app_2; [|rewrite El in Hs; by eapply StronglySorted_app_1_l|done]. intros r1 r2 H1 H2. specialize (S2 _ H2).
      destruct (Hitems _ H1) as (_ & _ & [<-|Hlt]); [done|]. unfold earlier. by transitivity k.
    + apply Forall_app. split; apply Forall_forall; [intros r Hr; by apply Hitems|]. intros r Hr. eapply after_trans; [exact Hpos|by apply S2].
    + constructor; [apply Hp|done].
    + intros [|i] its r Hi Hr; [|by apply (S4 i its)]. injection Hi as <-. exists rows. split; [done|by apply Hitems].
    + intros Hf r Hall Ha. apply elem_of_app. destruct (Hrest r) as [?|Hr]; [apply Hall; by left|done|by left|].
      right. apply S5; [done| |done]. intros rows' Hin. apply Hall. by right.
  - destruct Hp as [(rest & El & ->) Hsize _]. rewrite app_nil_r in El. subst items. exists [filter (after cursor) rows], true. split; [done|].
    assert (concat [filter (after cursor) rows] = filter (after cursor) rows) as Ec by (cbn; by rewrite app_nil_r).
    split; rewrite ?Ec; [done| |constructor; [done|constructor]| |].
    + apply Forall_forall. by intros r [? _]%list_elem_of_filter.
    + intros [|i] its r Hi Hr; [|done]. injection Hi as <-. exists rows. split; [done|]. by apply list_elem_of_filter in Hr as [_ ?].
    + intros _ r Hall Ha. apply list_elem_of_filter. split; [done|]. apply Hall. by left.
Qed.

(** On a table that does not change the client reaches the last page. *)
Lemma browse_ends limit rows cursor n : (0 < limit)%nat → ordered rows →
  match cursor with None => True | Some k => encodable k end →
  (length (filter (after cursor) rows) ≤ n * limit)%nat → (0 < n)%nat →
  ∃ pages, browse limit (replicate n rows) (encode_cursor <$> cursor) = Some (pages, true).
Proof.
  intros Hl Ho. revert cursor. induction n as [|n IH]; intros cursor Hc Hn Hpos; [lia|]. cbn [replicate browse].
  rewrite listed_at by done. cbn [mbind option_bind]. pose proof (page_spec limit rows cursor Hl) as Hp.
  destruct (page limit rows cursor) as [items next]. cbn [fst snd] in *. destruct next as [k|]; cbn [fmap option_fmap option_map]; [|by eexists].
  destruct (page_next _ _ _ _ _ Ho Hp) as (_ & Hk & _ & _ & El). destruct (po_full _ _ _ _ _ Hp ltac:(done)) as [Hfull Hmore].
  rewrite El, length_app in Hn, Hmore. assert (0 < n)%nat by (destruct n; lia).
  destruct (IH (Some k) Hk) as [pages E]; [lia|done|]. cbn [fmap option_fmap option_map] in E. rewrite E. by eexists.
Qed.
End keyset.

(** ** Ordered statements *)

Section ordering.
Context {R K : Type} (key : R → K) (precedes : K → K → Prop).
Context `{!RelDecision precedes} `{!StrictOrder precedes} (trichotomy : ∀ a b, precedes a b ∨ a = b ∨ precedes b a).

Definition not_later (a b : R) : Prop := ¬ precedes (key b) (key a).
#[global] Instance not_later_dec a b : Decision (not_later a b).
Proof. unfold not_later. apply _. Defined.

(** [ORDER BY] the key. *)
Definition order_rows (rows : list R) : list R := merge_sort not_later rows.

#[local] Instance not_later_total : Total not_later.
Proof.
  intros a b. unfold not_later. destruct (decide (precedes (key b) (key a))) as [H1|]; [right|by left]. intros H2.
  apply (StrictOrder_Irreflexive (key a)). by transitivity (key b).
Qed.

#[local] Instance not_later_trans : Transitive not_later.
Proof.
  unfold not_later. intros a b c Hab Hbc Hca. destruct (trichotomy (key a) (key b)) as [H1|[H1|H1]]; [|congruence|done].
  apply Hbc. by transitivity (key a).
Qed.

Lemma elem_of_order_rows rows r : r ∈ order_rows rows ↔ r ∈ rows.
Proof. unfold order_rows. by rewrite merge_sort_Permutation. Qed.

Lemma order_rows_ordered rows : NoDup (key <$> rows) → StronglySorted (earlier key precedes) (order_rows rows).
Proof.
  intros Hn. assert (StronglySorted not_later (order_rows rows)) as Hs by apply (StronglySorted_merge_sort not_later).
  assert (NoDup (key <$> order_rows rows)) as Hd by (unfold order_rows; by rewrite merge_sort_Permutation).
  revert Hs Hd. generalize (order_rows rows) as l. clear Hn rows. induction 1 as [|r l Hs IH Hr]; [constructor|].
  rewrite fmap_cons. intros [Hnot Hd]%NoDup_cons. constructor; [by apply IH|]. apply Forall_forall. intros x Hx.
  eapply Forall_forall in Hr; [|exact Hx]. destruct (trichotomy (key r) (key x)) as [?|[Heq|?]]; [done| |done].
  destruct Hnot. rewrite Heq. apply list_elem_of_fmap. by exists x.
Qed.
End ordering.

(** The orders of the listings: identifiers descending, instants and identifiers
    descending, and sequence numbers ascending. *)
Definition newer_id (a b : uuid) : Prop := (b < a)%positive.
Definition larger (a b : Z) : Prop := (b < a)%Z.
Definition newer (a b : instant * uuid) : Prop := (b.1 < a.1)%Z ∨ b.1 = a.1 ∧ (b.2 < a.2)%positive.

#[global] Instance newer_id_dec : RelDecision newer_id.
Proof. intros a b. unfold newer_id. apply _. Defined.
#[global] Instance larger_dec : RelDecision larger.
Proof. intros a b. unfold larger. apply _. Defined.
#[global] Instance newer_dec : RelDecision newer.
Proof. intros a b. unfold newer. apply _. Defined.
#[global] Instance newer_id_order : StrictOrder newer_id.
Proof. split; unfold newer_id; [intros a; apply Pos.lt_irrefl|intros a b c ??; lia]. Qed.
#[global] Instance newer_order : StrictOrder newer.
Proof. split; unfold newer; [intros a ?; lia|intros a b c ??; lia]. Qed.

Lemma newer_id_trichotomy a b : newer_id a b ∨ a = b ∨ newer_id b a.
Proof. unfold newer_id. lia. Qed.
Lemma newer_trichotomy a b : newer a b ∨ a = b ∨ newer b a.
Proof.
  unfold newer. destruct a as [t u], b as [t' u']. cbn. destruct (Z.lt_trichotomy t t') as [?|[->|?]]; [tauto| |tauto].
  destruct (newer_id_trichotomy u u') as [?|[->|?]]; unfold newer_id in *; [tauto|tauto|tauto].
Qed.
#[global] Instance Zlt_order : StrictOrder Z.lt.
Proof. split; [intros a ?; lia|intros a b c ??; lia]. Qed.
