(* ===== verification/Secrets.v ===== *)
(** Recognition of credential-shaped text: the patterns and heuristics at the top
    of security/metadata.py.

    The entropy of a text is compared exactly; the rounding of the source's
    floating-point sum is not modelled. *)
From S2P Require Import Prelude PyStr.
From stdpp Require Import strings.
From Stdlib Require Import Ascii.
Local Open Scope re_scope.

(** ** The patterns *)

Definition alnum : re := Chr alnum_ascii.
Definition dash : re := Chr (one_of "_-").
Definition space : re := Chr isspace.
Definition value_char : re := Chr (λ c, alnum_ascii c || one_of "._~+/=-" c).
Definition upper_blank : re :=
  Chr (λ c, let n := ord (ascii_lower c) in ((97 <=? n) && (n <=? 122) || (n =? 32))%Z).

Definition _OBVIOUS_SECRET : re :=
  lit "sk_live_" · at_least 8 alnum
  ∥ lit "sk-" · at_least 16 (Chr (λ c, alnum_ascii c || one_of "_-" c))
  ∥ lit "gh" · Chr (λ c, one_of "pousr" (ascii_lower c)) · lit "_" · at_least 16 alnum
  ∥ lit "akia" · times 16 alnum
  ∥ lit "-----begin " · Star upper_blank · lit "private key-----".

(** [(?:api[_-]?key|(?:(?:access|refresh|session|auth|bearer)[_-]?)?token|...)] *)
Definition session_word : re := lit "access" ∥ lit "refresh" ∥ lit "session" ∥ lit "auth" ∥ lit "bearer".
Definition marker : re :=
  lit "api" · opt dash · lit "key"
  ∥ opt (session_word · opt dash) · lit "token"
  ∥ lit "credential"
  ∥ lit "private" · opt dash · lit "key"
  ∥ lit "secret"
  ∥ lit "password".

Definition control : re :=
  Chr (λ c, let n := ord c in isspace c || ((n <=? 31) || (127 <=? n) && (n <=? 159))%Z).

Definition _GENERIC_SECRET_VALUE : matcher (list ascii) :=
  group (marker · opt (Chr (λ c, (ord c =? 34) || (ord c =? 39))%Z)
         · (Chr (one_of "=:/") · Star control ∥ many1 space)
         · opt (Chr (λ c, (ord c =? 34) || (ord c =? 39) || (ord c =? 96))%Z) · Star space)
        (at_least 8 value_char) Eps.

Definition _GENERIC_SECRET_MARKER : matcher (list ascii) := whole marker.

(** [Some (true, v)] when the group [assigned] matched, [Some (false, v)] for
    [bearer]. *)
Definition _AUTHORIZATION_VALUE : matcher (bool * list ascii) := λ p,
  match group ((lit "authorization" ∥ lit "authentication") · Star space · Chr (one_of ":=")
               · Star space · opt (lit "bearer" · many1 space))
              (at_least 8 value_char) Eps p with
  | Some (v, rest) => Some ((true, v), rest)
  | None =>
      match group (lit "bearer" · many1 space) (at_least 8 value_char) Eps p with
      | Some (v, rest) => Some ((false, v), rest)
      | None => None
      end
  end.

Definition _SENSITIVE_JSON_FIELD : re :=
  (Begin ∥ dash)
  · (lit "api" · opt dash · lit "key"
     ∥ opt session_word · opt dash · lit "token"
     ∥ lit "authorization" ∥ lit "authentication"
     ∥ lit "credential" · opt (lit "s")
     ∥ lit "private" · opt dash · lit "key"
     ∥ lit "secret" ∥ lit "password")
  · (Look dollar ∥ dash).

Definition _OPAQUE_ANNOTATION_VALUE : re := at_least 8 value_char.

(** [_SENSITIVE_MARKER_PREFIX.fullmatch], [_SENSITIVE_HOST_LABEL_MARKER.fullmatch] *)
Definition _SENSITIVE_MARKER_PREFIX (s : list ascii) : option (list ascii) :=
  fullmatch_group (marker · dash) (at_least 8 value_char) Eps s.
Definition _SENSITIVE_HOST_LABEL_MARKER (s : list ascii) : option (list ascii) :=
  fullmatch_group
    ((Begin ∥ Star (Chr (λ c, negb (ord c =? 10)%Z)) · Chr (one_of "-")) · marker · dash)
    (at_least 8 (Chr (λ c, alnum_ascii c || one_of "_~+=-" c))) Eps s.

Definition _SENSITIVE_PATH_MARKER : matcher (list ascii) :=
  group ((Begin ∥ Chr (one_of "!$&'()*+,.;:=@/")) · marker · dash) (at_least_lazy 8 value_char)
    (Look (λ l, dollar l || match l with c :: _ => one_of "!$&'()*,;:=@" c | [] => false end)).

(** ** Candidates *)

(** [Counter(value).values()] *)
Definition counts (l : list ascii) : list Z :=
  map (λ c, len (List.filter (λ d, eqv d c) l)) (remove_dups l).

(** Twice [_entropy_bits(value)], the sum of [count * log2(length / count)], is
    at least [bound]. *)
Definition entropy_at_least (l : list ascii) (bound : Z) : bool :=
  (2 ^ bound * foldr (λ c r, c ^ (2 * c) * r) 1 (counts l) <=? len l ^ (2 * len l))%Z.

Definition _looks_like_opaque_value (value : string) : bool :=
  if (slen value <? 12)%Z || negb (fullmatch _OPAQUE_ANNOTATION_VALUE (chars value)) then false
  else entropy_at_least (chars value) (7 * slen value).

Definition isdecimal (value : string) : bool :=
  negb (falsy value) && forallb (λ c, (48 <=? ord c) && (ord c <=? 57))%Z (chars value).

Definition _looks_like_secret_candidate (value : string) : bool :=
  _looks_like_opaque_value value
  || (16 <=? slen value)%Z && isdecimal value && entropy_at_least (chars value) 128.

Definition _AUTH_MODE_WORDS : list string :=
  ["anonymous"; "api"; "apikey"; "auth"; "authentication"; "authorization"; "basic"; "bearer";
   "client"; "code"; "credentials"; "device"; "digest"; "disabled"; "enabled"; "key"; "jwt"; "mtls";
   "none"; "oauth"; "oauth2"; "oidc"; "optional"; "pkce"; "public"; "required"; "supported";
   "unsupported"]%string.

(** [[w for w in re.split(sep+, s) if w]] *)
Fixpoint words_by (sep : ascii → bool) (current : list ascii) (l : list ascii) : list (list ascii) :=
  match l with
  | [] => match current with [] => [] | _ => [rev current] end
  | c :: l =>
      if sep c then match current with
                    | [] => words_by sep [] l
                    | _ => rev current :: words_by sep [] l
                    end
      else words_by sep (c :: current) l
  end.
Definition words (sep : ascii → bool) (s : string) : list string := of_chars <$> words_by sep [] (chars s).

Definition _is_auth_mode (value : string) : bool :=
  match words (one_of "_-") (lower value) with
  | [] => false
  | ws => forallb (λ w, bool_decide (w ∈ _AUTH_MODE_WORDS)) ws
  end.

Definition contains_obvious_secret (value : string) : bool :=
  let l := chars value in
  if search _OBVIOUS_SECRET l then true else
  let marker_starts := (finditer _GENERIC_SECRET_MARKER l).*1 in
  let ends := tail marker_starts ++ [length l] in
  existsb (λ '(start, stop),
      match _GENERIC_SECRET_VALUE (bool_decide (start = O), drop start (take stop l)) with
      | Some (v, _) => _looks_like_secret_candidate (of_chars v)
      | None => false
      end) (zip marker_starts ends)
  || existsb (λ m : nat * (bool * list ascii),
       let '(assigned, candidate) := m.2 in
       if assigned && _is_auth_mode (of_chars candidate) then false
       else _looks_like_secret_candidate (of_chars candidate)) (finditer _AUTHORIZATION_VALUE l).

(** ** Field names *)

Definition upper_ascii (c : ascii) : bool := ((65 <=? ord c) && (ord c <=? 90))%Z.
Definition lower_or_digit (c : ascii) : bool :=
  ((97 <=? ord c) && (ord c <=? 122) || (48 <=? ord c) && (ord c <=? 57))%Z.
Definition underscore : ascii := Ascii.ascii_of_nat 95.

(** [re.sub(r"(?<=[a-z0-9])(?=[A-Z])", "_", key)] *)
Fixpoint camel_split (after_lower : bool) (l : list ascii) : list ascii :=
  match l with
  | [] => []
  | c :: l =>
      let rest := c :: camel_split (lower_or_digit c) l in
      if after_lower && upper_ascii c then underscore :: rest else rest
  end.

(** [re.sub(r"[^A-Za-z0-9]+", "_", normalized)] *)
Fixpoint collapse (in_run : bool) (l : list ascii) : list ascii :=
  match l with
  | [] => []
  | c :: l =>
      if alnum_ascii c then c :: collapse false l
      else if in_run then collapse true l else underscore :: collapse true l
  end.

Definition _is_sensitive_field (key : string) : bool :=
  search _SENSITIVE_JSON_FIELD (collapse false (camel_split false (chars key))).

Definition _is_expiration_field (key : string) : bool :=
  existsb (λ w, bool_decide (w ∈ ["expiration"; "expires"; "expiry"; "lifetime"; "ttl"]%string))
    (words (λ c, negb (lower_or_digit c)) (lower (of_chars (camel_split false (chars key))))).

Definition _SENSITIVE_FIELD_PROBES : list string :=
  ["api_key"; "apiKey"; "access_token"; "refresh_token"; "session_token"; "auth_token";
   "bearer_token"; "credential"; "credentials"; "authorization"; "authentication"; "private_key";
   "privateKey"; "client_secret"; "clientSecret"; "secret"; "password"; "token"]%string.

(** ** Host names and paths *)

Definition _looks_like_marker_suffix (value : string) : bool :=
  _looks_like_secret_candidate value
  || _looks_like_secret_candidate
       (of_chars (List.filter (λ c, negb (one_of "./" c)) (chars value))).

Definition isalpha_char (c : ascii) : bool :=
  let n := ord c in
  ((65 <=? n) && (n <=? 90) || (97 <=? n) && (n <=? 122) || (n =? 170) || (n =? 181) || (n =? 186)
   || (192 <=? n) && negb (n =? 215) && negb (n =? 247))%Z.
Definition cased_lower (c : ascii) : bool :=
  let n := ord c in isalpha_char c && ((97 <=? n) && (n <=? 186) || (223 <=? n))%Z.

(** [word.isalpha() and word.islower()] *)
Definition lower_word (word : string) : bool :=
  negb (falsy word) && forallb cased_lower (chars word).

Definition _looks_like_internal_marker_suffix (value : string) : bool :=
  let words := split_on 45 value in
  if (1 <? len words)%Z && forallb lower_word words then false
  else _looks_like_marker_suffix value.

(** [hostname.rstrip(".")] *)
Fixpoint drop_dots (l : list ascii) : list ascii :=
  match l with c :: l' => if (ord c =? 46)%Z then drop_dots l' else l | [] => [] end.
Definition rstrip_dot (s : string) : string := of_chars (rev (drop_dots (rev (chars s)))).

Definition join_dot (labels : list string) : string := String.concat "." labels.

(** A sensitive label, and a value spread over the labels after it. *)
Fixpoint labels_suspicious (labels : list string) : bool :=
  match labels with
  | [] => false
  | label :: rest =>
      _is_sensitive_field label
      && existsb (λ n, _looks_like_marker_suffix (join_dot (take n rest))) (seq 1 (length rest))
      || labels_suspicious rest
  end.

Definition group_matches (m : list ascii → option (list ascii)) (suffix : string → bool) (s : string) : bool :=
  match m (chars s) with Some v => suffix (of_chars v) | None => false end.

Definition contains_sensitive_hostname (hostname : string) : bool :=
  let labels := split_on 46 (rstrip_dot hostname) in
  labels_suspicious labels
  || existsb (group_matches _SENSITIVE_MARKER_PREFIX _looks_like_marker_suffix) labels
  || existsb (group_matches _SENSITIVE_HOST_LABEL_MARKER _looks_like_marker_suffix) labels.

Definition contains_sensitive_url_path (path : string) : bool :=
  existsb (group_matches _SENSITIVE_MARKER_PREFIX _looks_like_marker_suffix) (split_on 47 path)
  || existsb (group_matches _SENSITIVE_HOST_LABEL_MARKER _looks_like_internal_marker_suffix) (split_on 47 path)
  || existsb (λ m, _looks_like_marker_suffix (of_chars m.2)) (finditer _SENSITIVE_PATH_MARKER (chars path)).
