(* ===== verification/Store.v ===== *)
(** Persistence: the rows of persistence/models.py, the database they live in,
    and the SQLAlchemy session through which the services see it.

    One module per mapped class; [checks] is the conjunction of the table's
    CHECK constraints (constraints that only restrict a string column to the
    values of an enumeration hold by typing).  Columns that no service reads
    back and that only carry a database default are left out where noted. *)
From S2P Require Import Prelude Types Json.
Local Open Scope Z_scope.

(** ** Identity tables *)

Module User.
Record t := mk {
  id : uuid; oidc_issuer : string; oidc_subject : string; display_name : option string }.
#[global] Instance eta : Eta t := λ r, mk (id r) (oidc_issuer r) (oidc_subject r) (display_name r).
End User.

Module Workspace.
Record t := mk { id : uuid; name : string }.
#[global] Instance eta : Eta t := λ r, mk (id r) (name r).
End Workspace.

Module WorkspaceMembership.
Record t := mk { workspace_id : uuid; user_id : uuid; role : Role.t }.
#[global] Instance eta : Eta t := λ r, mk (workspace_id r) (user_id r) (role r).
End WorkspaceMembership.

Module SecretBinding.
Record t := mk {
  id : uuid; workspace_id : uuid; provider : string; external_reference : string;
  version : string; created_by_user_id : uuid }.
#[global] Instance eta : Eta t := λ r,
  mk (id r) (workspace_id r) (provider r) (external_reference r) (version r)
     (created_by_user_id r).
(** [ck_secret_provider] *)
Definition checks (r : t) : bool :=
  eqv (provider r) "fixture"%string || eqv (provider r) "mounted_file"%string.
End SecretBinding.

Module AuditEvent.
Record t := mk {
  id : uuid; workspace_id : uuid; actor_user_id : uuid; action : AuditAction.t;
  resource_type : ResourceType.t; resource_id : uuid; outcome : AuditOutcome.t;
  correlation_id : uuid }.
(** [AuditEvent.succeeded] *)
Definition succeeded (id workspace_id actor_user_id : uuid) (action : AuditAction.t)
    (resource_type : ResourceType.t) (resource_id correlation_id : uuid) : t :=
  mk id workspace_id actor_user_id action resource_type resource_id
     AuditOutcome.SUCCEEDED correlation_id.
End AuditEvent.

(** ** Registry tables *)

Module ServerConnection.
Record t := mk {
  id : uuid; workspace_id : uuid; name : string; lifecycle : ConnectionLifecycle.t;
  pending_version_id : option uuid; verified_version_id : option uuid;
  control_epoch : Z; refresh_generation : Z;
  allocated_control_epoch : option Z; allocated_target_version_id : option uuid;
  current_snapshot_id : option uuid;
  last_refresh_error_code : option DiscoveryFailureCode.t;
  last_refresh_at : option instant; created_by_user_id : uuid }.
#[global] Instance eta : Eta t := λ r,
  mk (id r) (workspace_id r) (name r) (lifecycle r) (pending_version_id r)
     (verified_version_id r) (control_epoch r) (refresh_generation r)
     (allocated_control_epoch r) (allocated_target_version_id r)
     (current_snapshot_id r) (last_refresh_error_code r) (last_refresh_at r)
     (created_by_user_id r).

(** [ck_connection_*] *)
Definition checks (r : t) : bool :=
  (0 <=? control_epoch r) && (0 <=? refresh_generation r)
  && ((refresh_generation r =? 0) && is_none (allocated_control_epoch r)
        && is_none (allocated_target_version_id r)
      || (0 <? refresh_generation r)
         && (is_none (allocated_control_epoch r) && is_none (allocated_target_version_id r)
             || is_some (allocated_control_epoch r)
                && is_some (allocated_target_version_id r)))
  && match allocated_control_epoch r with None => true | Some e => 0 <=? e end
  && (is_some (pending_version_id r) || is_some (verified_version_id r))
  && match pending_version_id r, verified_version_id r with
     | Some p, Some v => negb (eqv p v) | _, _ => true end.
End ServerConnection.

Module ServerConnectionVersion.
Record t := mk {
  id : uuid; workspace_id : uuid; connection_id : uuid; sequence : Z;
  endpoint_url : string; secret_binding_id : option uuid; transport : Transport.t;
  policy_version : string; created_by_user_id : uuid }.
(** [ck_connection_version_sequence] *)
Definition checks (r : t) : bool := 0 <? sequence r.
End ServerConnectionVersion.

Module Capability.
Record t := mk {
  id : uuid; workspace_id : uuid; connection_id : uuid; tool_identity : string;
  pending_version_id : option uuid; enabled_version_id : option uuid;
  status : CapabilityStatus.t; status_epoch : Z }.
#[global] Instance eta : Eta t := λ r,
  mk (id r) (workspace_id r) (connection_id r) (tool_identity r) (pending_version_id r)
     (enabled_version_id r) (status r) (status_epoch r).

(** [ck_capability_*] *)
Definition checks (r : t) : bool :=
  (0 <=? status_epoch r)
  && match pending_version_id r, enabled_version_id r with
     | Some p, Some e => negb (eqv p e) | _, _ => true end
  && (negb (eqv (status r) CapabilityStatus.ENABLED)
      || is_some (enabled_version_id r) && is_none (pending_version_id r))
  && (negb (eqv (status r) CapabilityStatus.PENDING_REVIEW)
      || is_some (pending_version_id r)).
End Capability.

Module CapabilityVersion.
Record t := mk {
  id : uuid; workspace_id : uuid; capability_id : uuid; sequence : Z;
  display_name : string; description : option string; input_schema : Json.t;
  output_schema : option Json.t; metadata_digest : string; schema_supported : bool }.
(** [ck_capability_version_sequence] *)
Definition checks (r : t) : bool := 0 <? sequence r.
End CapabilityVersion.

Module McpToolBinding.
Record t := mk {
  capability_version_id : uuid; capability_id : uuid; workspace_id : uuid;
  connection_id : uuid; connection_version_id : uuid; tool_name : string;
  protocol_revision : string }.
End McpToolBinding.

Module CapabilityStatusEvent.
Record t := mk {
  workspace_id : uuid; capability_id : uuid; capability_version_id : option uuid;
  status : CapabilityStatus.t; status_epoch : Z; actor_user_id : uuid }.
(** [ck_capability_status_event_epoch] *)
Definition checks (r : t) : bool := 0 <? status_epoch r.
End CapabilityStatusEvent.

Module DiscoveryPayload.
Record t := mk {
  id : uuid; workspace_id : uuid; canonical_digest : string;
  normalized_payload : Json.t; byte_count : Z }.
(** [ck_discovery_payload_byte_count] *)
Definition checks (r : t) : bool := 0 <? byte_count r.
End DiscoveryPayload.

Module DiscoverySnapshot.
Record t := mk {
  id : uuid; workspace_id : uuid; connection_id : uuid; connection_version_id : uuid;
  payload_id : uuid; generation : Z; control_epoch : Z; protocol_revision : string }.
(** [ck_discovery_snapshot_*] *)
Definition checks (r : t) : bool := (0 <? generation r) && (0 <=? control_epoch r).
End DiscoverySnapshot.

Module DiscoverySnapshotCapability.
Record t := mk {
  workspace_id : uuid; connection_id : uuid; connection_version_id : uuid;
  snapshot_id : uuid; capability_version_id : uuid }.
#[global] Instance eq_dec : EqDecision t.
Proof. solve_decision. Defined.
End DiscoverySnapshotCapability.

Module DiscoveryRefreshJob.
Record t := mk {
  id : uuid; workspace_id : uuid; actor_user_id : uuid; connection_id : uuid;
  connection_version_id : uuid; generation : Z; control_epoch : Z;
  status : RefreshJobStatus.t; lease_owner : option string; lease_epoch : Z;
  lease_expires_at : option instant }.
#[global] Instance eta : Eta t := λ r,
  mk (id r) (workspace_id r) (actor_user_id r) (connection_id r) (connection_version_id r)
     (generation r) (control_epoch r) (status r) (lease_owner r) (lease_epoch r)
     (lease_expires_at r).
(** [ck_discovery_job_*] *)
Definition checks (r : t) : bool :=
  (0 <? generation r) && (0 <=? control_epoch r) && (0 <=? lease_epoch r)
  && (eqv (status r) RefreshJobStatus.LEASED
        && is_some (lease_owner r) && is_some (lease_expires_at r)
      || negb (eqv (status r) RefreshJobStatus.LEASED)
         && is_none (lease_owner r) && is_none (lease_expires_at r)).
End DiscoveryRefreshJob.

(** ** Execution tables *)

Module SystemExecutionState.
Record t := mk { execution_epoch : Z; dispatch_quarantined : bool; updated_at : instant }.
#[global] Instance eta : Eta t := λ r, mk (execution_epoch r) (dispatch_quarantined r) (updated_at r).
(** [ck_system_execution_state_epoch]; the row with [id = 1] is the only one. *)
Definition checks (r : t) : bool := 0 <? execution_epoch r.
End SystemExecutionState.

(** [status <> 'succeeded' OR safe_error_code IS NULL], and
    [status NOT IN ('failed', ...) OR safe_error_code IS NOT NULL]. *)
Definition error_code_checks (status : RunStatus.t) (code : option RunFailureCode.t) : bool :=
  (negb (eqv status RunStatus.SUCCEEDED) || is_none code)
  && (negb (RunStatus.terminal status && negb (eqv status RunStatus.SUCCEEDED))
      || is_some code).

Module Run.
Record t := mk {
  id : uuid; workspace_id : uuid; correlation_id : uuid; actor_user_id : uuid;
  capability_id : uuid; capability_version_id : uuid; connection_id : uuid;
  connection_version_id : uuid; connection_control_epoch : Z; capability_status_epoch : Z;
  protocol_revision : string; status : RunStatus.t; arguments : option Json.t;
  argument_digest : option string; arguments_expires_at : instant; deadline : instant;
  cancellation_requested : bool; safe_error_code : option RunFailureCode.t;
  created_at : instant; updated_at : instant; terminal_at : option instant }.
#[global] Instance eta : Eta t := λ r,
  mk (id r) (workspace_id r) (correlation_id r) (actor_user_id r) (capability_id r)
     (capability_version_id r) (connection_id r) (connection_version_id r)
     (connection_control_epoch r) (capability_status_epoch r) (protocol_revision r)
     (status r) (arguments r) (argument_digest r) (arguments_expires_at r) (deadline r)
     (cancellation_requested r) (safe_error_code r) (created_at r) (updated_at r)
     (terminal_at r).

(** [ck_run_*] *)
Definition checks (r : t) : bool :=
  Bool.eqb (RunStatus.terminal (status r)) (is_some (terminal_at r))
  && (0 <=? connection_control_epoch r) && (0 <=? capability_status_epoch r)
  && match arguments r, argument_digest r with
     | None, None => true
     | Some _, Some d => slen d =? 64
     | _, _ => false
     end
  && error_code_checks (status r) (safe_error_code r).
End Run.

Module RunResult.
Record t := mk {
  run_id : uuid; workspace_id : uuid; payload : Json.t; canonical_digest : string;
  byte_count : Z; captured_at : instant; expires_at : instant }.
(** [ck_run_result_*] *)
Definition checks (r : t) : bool := (0 <? byte_count r) && (slen (canonical_digest r) =? 64).
End RunResult.

Module Job.
Record t := mk {
  id : uuid; workspace_id : uuid; run_id : uuid; actor_user_id : uuid; execution_epoch : Z;
  status : JobStatus.t; lease_owner : option string; lease_epoch : Z;
  lease_expires_at : option instant; available_at : instant; deadline : instant;
  created_at : instant; completed_at : option instant }.
#[global] Instance eta : Eta t := λ r,
  mk (id r) (workspace_id r) (run_id r) (actor_user_id r) (execution_epoch r) (status r)
     (lease_owner r) (lease_epoch r) (lease_expires_at r) (available_at r) (deadline r)
     (created_at r) (completed_at r).
(** [ck_job_*] *)
Definition checks (r : t) : bool :=
  (0 <? execution_epoch r) && (0 <=? lease_epoch r)
  && (eqv (status r) JobStatus.LEASED && is_some (lease_owner r) && is_some (lease_expires_at r)
      || negb (eqv (status r) JobStatus.LEASED)
         && is_none (lease_owner r) && is_none (lease_expires_at r))
  && Bool.eqb (JobStatus.terminal (status r)) (is_some (completed_at r)).
End Job.

Module RunAttempt.
Record t := mk {
  id : uuid; workspace_id : uuid; run_id : uuid; job_id : uuid; sequence : Z;
  lease_epoch : Z; status : RunStatus.t; started_at : instant;
  terminal_at : option instant; safe_error_code : option RunFailureCode.t }.
#[global] Instance eta : Eta t := λ r,
  mk (id r) (workspace_id r) (run_id r) (job_id r) (sequence r) (lease_epoch r) (status r)
     (started_at r) (terminal_at r) (safe_error_code r).

(** [status IN ('preparing', 'session_fenced', 'dispatch_fenced')] *)
Definition active (s : RunStatus.t) : bool :=
  match s with
  | RunStatus.PREPARING | RunStatus.SESSION_FENCED | RunStatus.DISPATCH_FENCED => true
  | _ => false
  end.

(** [ck_run_attempt_*] *)
Definition checks (r : t) : bool :=
  (0 <? sequence r) && (0 <? lease_epoch r)
  && (active (status r) || RunStatus.terminal (status r))
  && Bool.eqb (RunStatus.terminal (status r)) (is_some (terminal_at r))
  && error_code_checks (status r) (safe_error_code r).
End RunAttempt.

Module RunEvent.
Record t := mk {
  workspace_id : uuid; run_id : uuid; sequence : Z; event_type : RunEventType.t;
  status : RunStatus.t; safe_error_code : option RunFailureCode.t; occurred_at : instant }.
(** [ck_run_event_*] *)
Definition checks (r : t) : bool :=
  (0 <? sequence r) && error_code_checks (status r) (safe_error_code r).
End RunEvent.

Module ConfirmationNonce.
Record t := mk {
  workspace_id : uuid; actor_user_id : uuid; nonce_digest : string; run_id : uuid;
  key_version : string; expires_at : instant; consumed_at : instant }.
(** [ck_confirmation_nonce_*] *)
Definition checks (r : t) : bool :=
  (slen (nonce_digest r) =? 64) && (1 <=? slen (key_version r)) && (slen (key_version r) <=? 32).
End ConfirmationNonce.

Module IdempotencyRecord.
Record t := mk {
  id : uuid; workspace_id : uuid; actor_user_id : uuid; method : string; route : string;
  confirmation_key_version : string; key_version : string; key_hmac : string;
  request_hmac : string; resource_type : ResourceType.t; resource_id : uuid;
  created_at : instant; completed_at : instant; expires_at : instant }.
(** [ck_idempotency_*] *)
Definition checks (r : t) : bool :=
  (slen (key_hmac r) =? 64) && (slen (request_hmac r) =? 64)
  && eqv (resource_type r) ResourceType.RUN
  && (1 <=? slen (confirmation_key_version r)) && (slen (confirmation_key_version r) <=? 32).
(** The columns of the table's unique constraint. *)
Definition unique_key (r : t) :=
  (workspace_id r, actor_user_id r, method r, route r, key_version r, key_hmac r).
End IdempotencyRecord.

Module RegistryEntry.
Record t := mk {
  id : uuid; workspace_id : uuid; source : RegistrySource.t; external_id : option string;
  current_version_id : option uuid }.
#[global] Instance eta : Eta t := λ r,
  mk (id r) (workspace_id r) (source r) (external_id r) (current_version_id r).
(** [ck_registry_entry_official_external_id] *)
Definition checks (r : t) : bool :=
  negb (eqv (source r) RegistrySource.OFFICIAL)
  || match external_id r with
     | Some e => existsb (λ c, negb (Z.of_nat (Ascii.nat_of_ascii c) =? 32)) (String.list_ascii_of_string e)
     | None => false
     end.
End RegistryEntry.

Module RegistryEntryVersion.
Record t := mk {
  id : uuid; workspace_id : uuid; registry_entry_id : uuid; sequence : Z; name : string;
  description : option string; provenance_digest : string; source_version : option string;
  source_uri : option string; normalized_metadata : option Json.t; imported_by_user_id : option uuid }.
End RegistryEntryVersion.

Module RegistrySearchCache.
Record t := mk {
  id : uuid; workspace_id : uuid; provider : string; query_digest : string; response_digest : string;
  normalized_results : list Json.t; result_count : Z; byte_count : Z;
  fetched_at : instant; expires_at : instant }.
(** [ck_registry_search_cache_*] *)
Definition checks (r : t) : bool :=
  eqv (provider r) "official"%string && (0 <=? result_count r) && (0 <=? byte_count r).
End RegistrySearchCache.

(** ** Replay records of the API *)

Module ApiIdempotencyRecord.
Record t := mk {
  id : uuid; workspace_id : uuid; actor_user_id : uuid; method : string; route : string;
  key_version : string; key_hmac : string; request_hmac : string; response_body : Json.t;
  created_at : instant; expires_at : instant }.
(** [ck_api_idempotency_*] *)
Definition checks (r : t) : bool := (slen (key_hmac r) =? 64) && (slen (request_hmac r) =? 64).
(** The columns of the table's unique constraint. *)
Definition unique_key (r : t) :=
  (workspace_id r, actor_user_id r, method r, route r, key_version r, key_hmac r).
End ApiIdempotencyRecord.

(** ** The database *)

Module IdentityDb.
Record t := mk {
  users : gmap uuid User.t;
  workspaces : gmap uuid Workspace.t;
  workspace_memberships : gmap (uuid * uuid) WorkspaceMembership.t;
  secret_bindings : gmap uuid SecretBinding.t;
  audit_events : list AuditEvent.t;
  api_idempotency_records : gmap uuid ApiIdempotencyRecord.t }.
#[global] Instance eta : Eta t := λ r,
  mk (users r) (workspaces r) (workspace_memberships r) (secret_bindings r) (audit_events r)
     (api_idempotency_records r).
End IdentityDb.

Module RegistryDb.
Record t := mk {
  server_connections : gmap uuid ServerConnection.t;
  server_connection_versions : gmap uuid ServerConnectionVersion.t;
  capabilities : gmap uuid Capability.t;
  capability_versions : gmap uuid CapabilityVersion.t;
  mcp_tool_bindings : gmap uuid McpToolBinding.t;
  capability_status_events : list CapabilityStatusEvent.t;
  discovery_payloads : gmap uuid DiscoveryPayload.t;
  discovery_snapshots : gmap uuid DiscoverySnapshot.t;
  discovery_snapshot_capabilities : list DiscoverySnapshotCapability.t;
  discovery_refresh_jobs : gmap uuid DiscoveryRefreshJob.t;
  registry_entries : gmap uuid RegistryEntry.t;
  registry_entry_versions : gmap uuid RegistryEntryVersion.t;
  registry_search_cache : gmap uuid RegistrySearchCache.t }.
#[global] Instance eta : Eta t := λ r,
  mk (server_connections r) (server_connection_versions r) (capabilities r)
     (capability_versions r) (mcp_tool_bindings r) (capability_status_events r)
     (discovery_payloads r) (discovery_snapshots r) (discovery_snapshot_capabilities r)
     (discovery_refresh_jobs r) (registry_entries r) (registry_entry_versions r) (registry_search_cache r).
End RegistryDb.

Module ExecutionDb.
Record t := mk {
  system_execution_state : option SystemExecutionState.t;
  runs : gmap uuid Run.t;
  run_results : gmap uuid RunResult.t;
  jobs : gmap uuid Job.t;
  run_attempts : gmap uuid RunAttempt.t;
  run_events : list RunEvent.t;
  confirmation_nonces : gmap string ConfirmationNonce.t;
  idempotency_records : gmap uuid IdempotencyRecord.t }.
#[global] Instance eta : Eta t := λ r,
  mk (system_execution_state r) (runs r) (run_results r) (jobs r) (run_attempts r)
     (run_events r) (confirmation_nonces r) (idempotency_records r).
End ExecutionDb.

Module Db.
Record t := mk { identity : IdentityDb.t; registry : RegistryDb.t; execution : ExecutionDb.t }.
#[global] Instance eta : Eta t := λ r, mk (identity r) (registry r) (execution r).

Definition empty : t :=
  mk (IdentityDb.mk ∅ ∅ ∅ ∅ [] ∅)
     (RegistryDb.mk ∅ ∅ ∅ ∅ ∅ [] ∅ ∅ [] ∅ ∅ ∅ ∅)
     (ExecutionDb.mk None ∅ ∅ ∅ ∅ [] ∅ ∅).
End Db.
