(* ===== verification/Session.v ===== *)
(** The unit of work: a state and error monad over the database.

    A service call runs inside one transaction ([persistence/database.py]).
    The session has two views of the database: [flushed] is what SQL statements
    see, [work] is what the mapped Python objects hold.  Sessions are created
    with [autoflush=False], so a [SELECT] finds rows by their flushed columns
    although the objects it returns may already carry newer values; [flush]
    makes the two views agree, after the mapper listeners and the constraints
    of the schema accepted the pending rows.

    References to mapped objects are their identifiers: two queries that return
    the same row return the same object, and mutating it is visible through
    both.  An exception leaves the transaction, which rolls back: the state is
    dropped with it. *)
From S2P Require Import Prelude Types Json Store.
Local Open Scope Z_scope.

Inductive exn :=
| ExecutionError (code : ExecutionFailureCode.t)
| AuthorizationDenied
| InvalidConnectionTransition
| InvalidCapabilityTransition
| SecretProviderError
| MetadataValidationError (e : Metadata.error)
| ValueError
| PermissionError
| ImmutableUpdate    (* ValueError of a mapper listener during flush *)
| IntegrityError     (* SQLAlchemyError: the schema rejected a flush *)
| StaleReference.    (* a reference to a row that no longer exists *)
#[global] Instance exn_eq_dec : EqDecision exn.
Proof. solve_decision. Defined.

(** What surrounds a transaction: the database clock (one reading per call),
    the [uuid4] source, and the rows that other transactions hold locked. *)
Record Env := mkEnv {
  clock : nat → instant;
  uuid4_source : nat → uuid;
  row_locked : uuid → bool }.

Record Session := mkSession {
  flushed : Db.t;
  work : Db.t;
  conflict : bool;   (* a pending row duplicates a primary or unique key *)
  ticks : nat;       (* clock readings so far *)
  draws : nat }.     (* uuid4 calls so far *)
#[global] Instance session_eta : Eta Session := λ s,
  mkSession (flushed s) (work s) (conflict s) (ticks s) (draws s).

Definition M (A : Type) : Type := Env → Session → result exn (A * Session).
#[global] Instance M_ret : MRet M := λ A a _ s, Ok (a, s).
#[global] Instance M_bind : MBind M := λ A B k m env s,
  match m env s with Ok (a, s') => k a env s' | Err e => Err e end.

Definition raise {A} (e : exn) : M A := λ _ _, Err e.
Definition raise_if (b : bool) (e : exn) : M unit := if b then raise e else mret tt.
Definition lift {A} (m : result exn A) : M A :=
  λ _ s, match m with Ok a => Ok (a, s) | Err e => Err e end.
Definition gets {A} (f : Session → A) : M A := λ _ s, Ok (f s, s).
Definition modify (f : Session → Session) : M unit := λ _ s, Ok (tt, f s).
Definition ask {A} (f : Env → A) : M A := λ env s, Ok (f env, s).

(** [await self._durable_now()] *)
Definition durable_now : M instant := λ env s,
  Ok (clock env (ticks s), s <| ticks := S (ticks s) |>).

(** [uuid4()] *)
Definition uuid4 : M uuid := λ env s,
  Ok (uuid4_source env (draws s), s <| draws := S (draws s) |>).

Fixpoint for_each {A} (l : list A) (body : A → M unit) : M unit :=
  match l with
  | [] => mret tt
  | x :: l => body x ;; for_each l body
  end.

(** ** Writes: attribute assignment, [session.add], [session.delete] *)

Definition put_execution (f : ExecutionDb.t → ExecutionDb.t) : M unit :=
  modify (λ s, s <| work := (work s) <| Db.execution := f (Db.execution (work s)) |> |>).
Definition put_registry (f : RegistryDb.t → RegistryDb.t) : M unit :=
  modify (λ s, s <| work := (work s) <| Db.registry := f (Db.registry (work s)) |> |>).
Definition put_identity (f : IdentityDb.t → IdentityDb.t) : M unit :=
  modify (λ s, s <| work := (work s) <| Db.identity := f (Db.identity (work s)) |> |>).

(** A pending row whose key is taken makes the next flush fail. *)
Definition flag_conflict (b : Session → bool) : M unit :=
  modify (λ s, s <| conflict := conflict s || b s |>).

(** ** Flush *)

Definition all_rows {K R} `{Countable K} (f : R → bool) (m : gmap K R) : bool :=
  bool_decide (map_Forall (λ _ r, f r = true) m).

(** The CHECK constraints of every table. *)
Definition identity_checks (d : IdentityDb.t) : bool :=
  all_rows SecretBinding.checks (IdentityDb.secret_bindings d)
  && all_rows ApiIdempotencyRecord.checks (IdentityDb.api_idempotency_records d).

Definition registry_checks (d : RegistryDb.t) : bool :=
  all_rows ServerConnection.checks (RegistryDb.server_connections d)
  && all_rows ServerConnectionVersion.checks (RegistryDb.server_connection_versions d)
  && all_rows Capability.checks (RegistryDb.capabilities d)
  && all_rows CapabilityVersion.checks (RegistryDb.capability_versions d)
  && forallb CapabilityStatusEvent.checks (RegistryDb.capability_status_events d)
  && all_rows DiscoveryPayload.checks (RegistryDb.discovery_payloads d)
  && all_rows DiscoverySnapshot.checks (RegistryDb.discovery_snapshots d)
  && all_rows DiscoveryRefreshJob.checks (RegistryDb.discovery_refresh_jobs d)
  && all_rows RegistryEntry.checks (RegistryDb.registry_entries d)
  && all_rows RegistrySearchCache.checks (RegistryDb.registry_search_cache d).

Definition execution_checks (d : ExecutionDb.t) : bool :=
  match ExecutionDb.system_execution_state d with
  | None => true | Some st => SystemExecutionState.checks st end
  && all_rows Run.checks (ExecutionDb.runs d)
  && all_rows RunResult.checks (ExecutionDb.run_results d)
  && all_rows Job.checks (ExecutionDb.jobs d)
  && all_rows RunAttempt.checks (ExecutionDb.run_attempts d)
  && forallb RunEvent.checks (ExecutionDb.run_events d)
  && all_rows ConfirmationNonce.checks (ExecutionDb.confirmation_nonces d)
  && all_rows IdempotencyRecord.checks (ExecutionDb.idempotency_records d).

Definition schema_checks (d : Db.t) : bool :=
  identity_checks (Db.identity d) && registry_checks (Db.registry d)
  && execution_checks (Db.execution d).

(** [_reject_terminal_status_update], the before-update listener of [Run],
    [Job] and [RunAttempt]: a changed status must not have been terminal. *)
Definition status_update_ok {R S} `{EqDecision S} (status : R → S) (terminal : S → bool)
    (old new : gmap uuid R) : bool :=
  bool_decide (map_Forall (λ i o,
    match new !! i with
    | None => true
    | Some n => eqv (status o) (status n) || negb (terminal (status o))
    end = true) old).

Definition listeners_accept (old new : ExecutionDb.t) : bool :=
  status_update_ok Run.status RunStatus.terminal (ExecutionDb.runs old) (ExecutionDb.runs new)
  && status_update_ok Job.status JobStatus.terminal (ExecutionDb.jobs old) (ExecutionDb.jobs new)
  && status_update_ok RunAttempt.status RunStatus.terminal
       (ExecutionDb.run_attempts old) (ExecutionDb.run_attempts new).

(** [await session.flush()] *)
Definition flush : M unit := λ _ s,
  if conflict s then Err IntegrityError
  else if negb (listeners_accept (Db.execution (flushed s)) (Db.execution (work s)))
  then Err ImmutableUpdate
  else if negb (schema_checks (work s)) then Err IntegrityError
  else Ok (tt, s <| flushed := work s |>).

(** [_flush_execution_payload]: a database error becomes [False]. *)
Definition try_flush : M bool := λ env s,
  match flush env s with
  | Ok (_, s') => Ok (true, s')
  | Err IntegrityError => Ok (false, s)
  | Err e => Err e
  end.

(** [transaction(session_factory)]: commit (which flushes) or roll back. *)
Definition transaction {A} (m : M A) (env : Env) (d : Db.t) : result exn A * Db.t :=
  match (a ← m; flush;; mret a) env (mkSession d d false 0 0) with
  | Ok (a, s) => (Ok a, work s)
  | Err e => (Err e, d)
  end.

(** ** Queries *)

Section query.
Context {R : Type}.

(** Rows of a table that satisfy a [WHERE] clause. *)
Definition where_rows (table : gmap uuid R) (P : R → bool) : list (uuid * R) :=
  filter (λ kr, P kr.2 = true) (map_to_list table).

(** [ORDER BY column, id] *)
Definition order_le (column : R → Z) (a b : uuid * R) : Prop :=
  column a.2 < column b.2 ∨ column a.2 = column b.2 ∧ (a.1 ≤ b.1)%positive.
#[global] Instance order_le_dec column a b : Decision (order_le column a b).
Proof. unfold order_le. apply _. Defined.

Definition order_by (column : R → Z) (l : list (uuid * R)) : list (uuid * R) :=
  merge_sort (order_le column) l.

(** [select(...).where(primary key = id, P)]: the flushed row must satisfy the
    clause; the reference is the row's identifier. *)
Definition by_id (table : gmap uuid R) (id : uuid) (P : R → bool) : option uuid :=
  match table !! id with
  | Some r => if P r then Some id else None
  | None => None
  end.
End query.

Definition flushed_execution (s : Session) : ExecutionDb.t := Db.execution (flushed s).
Definition flushed_registry (s : Session) : RegistryDb.t := Db.registry (flushed s).
Definition flushed_identity (s : Session) : IdentityDb.t := Db.identity (flushed s).

(** Attribute access on a reference. *)
Definition deref {R} (table : Session → gmap uuid R) (id : uuid) : M R := λ env s,
  match table s !! id with Some r => Ok (r, s) | None => Err StaleReference end.

Definition run_of : uuid → M Run.t := deref (λ s, ExecutionDb.runs (Db.execution (work s))).
Definition job_of : uuid → M Job.t := deref (λ s, ExecutionDb.jobs (Db.execution (work s))).
Definition attempt_of : uuid → M RunAttempt.t :=
  deref (λ s, ExecutionDb.run_attempts (Db.execution (work s))).
Definition connection_of : uuid → M ServerConnection.t :=
  deref (λ s, RegistryDb.server_connections (Db.registry (work s))).
Definition capability_of : uuid → M Capability.t :=
  deref (λ s, RegistryDb.capabilities (Db.registry (work s))).

(** Attribute assignment on a reference. *)
Definition update_run (id : uuid) (f : Run.t → Run.t) : M unit :=
  put_execution (λ d, d <| ExecutionDb.runs := alter f id (ExecutionDb.runs d) |>).
Definition update_job (id : uuid) (f : Job.t → Job.t) : M unit :=
  put_execution (λ d, d <| ExecutionDb.jobs := alter f id (ExecutionDb.jobs d) |>).
Definition update_attempt (id : uuid) (f : RunAttempt.t → RunAttempt.t) : M unit :=
  put_execution (λ d, d <| ExecutionDb.run_attempts := alter f id (ExecutionDb.run_attempts d) |>).
Definition update_connection (id : uuid) (f : ServerConnection.t → ServerConnection.t) : M unit :=
  put_registry (λ d, d <| RegistryDb.server_connections :=
    alter f id (RegistryDb.server_connections d) |>).
Definition update_capability (id : uuid) (f : Capability.t → Capability.t) : M unit :=
  put_registry (λ d, d <| RegistryDb.capabilities := alter f id (RegistryDb.capabilities d) |>).

(** [session.add] of an audit row. *)
Definition add_audit_event (e : AuditEvent.t) : M unit :=
  put_identity (λ d, d <| IdentityDb.audit_events := IdentityDb.audit_events d ++ [e] |>).

(** [AuditEvent.succeeded(...)] with [correlation_id or uuid4()], added. *)
Definition audit (context : WorkspaceContext.t) (action : AuditAction.t)
    (resource_type : ResourceType.t) (resource_id : uuid) (correlation_id : option uuid) : M unit :=
  correlation ← match correlation_id with Some c => mret c | None => uuid4 end;
  id ← uuid4;
  add_audit_event (AuditEvent.succeeded id (WorkspaceContext.workspace_id context)
    (WorkspaceContext.actor_user_id context) action resource_type resource_id correlation).

(** ** What a success says *)

Lemma bind_ok {A B} (m : M A) (k : A → M B) env s b s' :
  (m ≫= k) env s = Ok (b, s') → ∃ a s1, m env s = Ok (a, s1) ∧ k a env s1 = Ok (b, s').
Proof. unfold mbind, M_bind. destruct (m env s) as [[a s1]|]; [|done]. intros E. by exists a, s1. Qed.

Lemma raise_if_ok b e env s x s' : raise_if b e env s = Ok (x, s') → b = false ∧ s' = s.
Proof. unfold raise_if. destruct b; [done|]. by intros [= _ <-]. Qed.

Lemma flush_ok env (s : Session) x : flush env s = Ok x → x = ((), s <| flushed := work s |>) ∧ conflict s = false.
Proof.
  unfold flush. destruct (conflict s); [done|]. destruct (listeners_accept _ _); cbn; [|done].
  destruct (schema_checks _); cbn; [|done]. intros [= <-]. done.
Qed.

Lemma commit_ok {A} (m : M A) env d a d' :
  transaction m env d = (Ok a, d') →
  ∃ s, m env (mkSession d d false 0 0) = Ok (a, s) ∧ conflict s = false ∧ d' = work s.
Proof.
  unfold transaction. destruct ((a ← m; flush;; mret a) env (mkSession d d false 0 0)) as [[b s]|] eqn:E; [|done].
  intros [= -> <-]. apply bind_ok in E as (b & s1 & E & (u & s2 & Ef & [= -> <-])%bind_ok).
  apply flush_ok in Ef as [[= _ ->] Hc]. by exists s1.
Qed.
