(* ===== verification/Registry.v ===== *)
(** Access to the registry tables: the queries on connections, capabilities and
    snapshots that the registry and execution services share. *)
From S2P Require Import Prelude Types Json Store Session.
From stdpp Require Import strings.
Local Open Scope Z_scope.

(** mcp_adapter/client.py *)
Definition QUALIFIED_PROTOCOL_REVISION : string := "2025-06-18".

(** A queried object: the flushed row decides whether it is found, its
    attributes are those of the object. *)
Definition fetch {R} (table : Db.t → gmap uuid R) (id : uuid) (P : R → bool) : M (option R) :=
  gets (λ s, match by_id (table (flushed s)) id P with
             | Some id => table (work s) !! id
             | None => None
             end).

Definition capabilities (d : Db.t) := RegistryDb.capabilities (Db.registry d).
Definition server_connections (d : Db.t) := RegistryDb.server_connections (Db.registry d).
Definition capability_versions (d : Db.t) := RegistryDb.capability_versions (Db.registry d).
Definition mcp_tool_bindings (d : Db.t) := RegistryDb.mcp_tool_bindings (Db.registry d).

(** [select(DiscoverySnapshotCapability.id).where(...)]: is the version in the
    connection's current snapshot? *)
Definition select_observed (workspace_id connection_id connection_version_id : uuid)
    (snapshot_id : option uuid) (capability_version_id : uuid) : M bool :=
  match snapshot_id with
  | None => mret false
  | Some snapshot_id =>
      gets (λ s, bool_decide (DiscoverySnapshotCapability.mk workspace_id connection_id
                   connection_version_id snapshot_id capability_version_id
                 ∈ RegistryDb.discovery_snapshot_capabilities (flushed_registry s)))
  end.

(** A query with [populate_existing]: the object takes the flushed columns. *)
Definition fetch_capability (id : uuid) (P : Capability.t → bool) : M (option Capability.t) :=
  found ← gets (λ s, RegistryDb.capabilities (flushed_registry s) !! id);
  match found with
  | Some c => if P c then
                put_registry (λ d, d <| RegistryDb.capabilities :=
                  <[id := c]> (RegistryDb.capabilities d) |>) ;; mret (Some c)
              else mret None
  | None => mret None
  end.
Definition fetch_connection (id : uuid) (P : ServerConnection.t → bool) : M (option ServerConnection.t) :=
  found ← gets (λ s, RegistryDb.server_connections (flushed_registry s) !! id);
  match found with
  | Some c => if P c then
                put_registry (λ d, d <| RegistryDb.server_connections :=
                  <[id := c]> (RegistryDb.server_connections d) |>) ;; mret (Some c)
              else mret None
  | None => mret None
  end.

Definition server_connection_versions (d : Db.t) := RegistryDb.server_connection_versions (Db.registry d).
Definition discovery_refresh_jobs (d : Db.t) := RegistryDb.discovery_refresh_jobs (Db.registry d).

(** Attribute assignment on a refresh job. *)
Definition update_refresh_job (id : uuid) (f : DiscoveryRefreshJob.t → DiscoveryRefreshJob.t) : M unit :=
  put_registry (λ d, d <| RegistryDb.discovery_refresh_jobs :=
    alter f id (RegistryDb.discovery_refresh_jobs d) |>).

(** [session.add] of a row with a primary key and the unique columns
    [clash]: a duplicate makes the next flush fail. *)
Definition clashes {R} (table : gmap uuid R) (id : uuid) (clash : R → bool) : bool :=
  is_some (table !! id) || existsb (λ kr, clash kr.2) (map_to_list table).

Definition add_connection (c : ServerConnection.t) : M unit :=
  flag_conflict (λ s, is_some (server_connections (work s) !! ServerConnection.id c)) ;;
  put_registry (λ d, d <| RegistryDb.server_connections :=
    <[ServerConnection.id c := c]> (RegistryDb.server_connections d) |>).

Definition add_connection_version (v : ServerConnectionVersion.t) : M unit :=
  flag_conflict (λ s, clashes (server_connection_versions (work s)) (ServerConnectionVersion.id v)
    (λ v', eqv (ServerConnectionVersion.connection_id v') (ServerConnectionVersion.connection_id v)
           && (ServerConnectionVersion.sequence v' =? ServerConnectionVersion.sequence v))) ;;
  put_registry (λ d, d <| RegistryDb.server_connection_versions :=
    <[ServerConnectionVersion.id v := v]> (RegistryDb.server_connection_versions d) |>).

Definition add_refresh_job (j : DiscoveryRefreshJob.t) : M unit :=
  flag_conflict (λ s, clashes (discovery_refresh_jobs (work s)) (DiscoveryRefreshJob.id j)
    (λ j', eqv (DiscoveryRefreshJob.connection_id j') (DiscoveryRefreshJob.connection_id j)
           && (DiscoveryRefreshJob.generation j' =? DiscoveryRefreshJob.generation j))) ;;
  put_registry (λ d, d <| RegistryDb.discovery_refresh_jobs :=
    <[DiscoveryRefreshJob.id j := j]> (RegistryDb.discovery_refresh_jobs d) |>).

(** [select(func.max(column))] over some rows: 0 when there are none
    ([sequence or 0]). *)
Definition max_or_zero (l : list Z) : Z := foldr Z.max 0 l.

Definition add_capability (c : Capability.t) : M unit :=
  flag_conflict (λ s, clashes (capabilities (work s)) (Capability.id c)
    (λ c', eqv (Capability.connection_id c') (Capability.connection_id c)
           && eqv (Capability.tool_identity c') (Capability.tool_identity c))) ;;
  put_registry (λ d, d <| RegistryDb.capabilities :=
    <[Capability.id c := c]> (RegistryDb.capabilities d) |>).

Definition add_capability_version (v : CapabilityVersion.t) : M unit :=
  flag_conflict (λ s, clashes (capability_versions (work s)) (CapabilityVersion.id v)
    (λ v', eqv (CapabilityVersion.capability_id v') (CapabilityVersion.capability_id v)
           && (CapabilityVersion.sequence v' =? CapabilityVersion.sequence v))) ;;
  put_registry (λ d, d <| RegistryDb.capability_versions :=
    <[CapabilityVersion.id v := v]> (RegistryDb.capability_versions d) |>).

Definition add_tool_binding (b : McpToolBinding.t) : M unit :=
  flag_conflict (λ s, is_some (mcp_tool_bindings (work s) !! McpToolBinding.capability_version_id b)) ;;
  put_registry (λ d, d <| RegistryDb.mcp_tool_bindings :=
    <[McpToolBinding.capability_version_id b := b]> (RegistryDb.mcp_tool_bindings d) |>).

Definition capability_status_events (d : Db.t) := RegistryDb.capability_status_events (Db.registry d).
Definition add_status_event (e : CapabilityStatusEvent.t) : M unit :=
  flag_conflict (λ s, existsb (λ e',
      eqv (CapabilityStatusEvent.capability_id e') (CapabilityStatusEvent.capability_id e)
      && (CapabilityStatusEvent.status_epoch e' =? CapabilityStatusEvent.status_epoch e))
    (capability_status_events (work s))) ;;
  put_registry (λ d, d <| RegistryDb.capability_status_events :=
    RegistryDb.capability_status_events d ++ [e] |>).

Definition discovery_payloads (d : Db.t) := RegistryDb.discovery_payloads (Db.registry d).
Definition add_payload (p : DiscoveryPayload.t) : M unit :=
  flag_conflict (λ s, clashes (discovery_payloads (work s)) (DiscoveryPayload.id p)
    (λ p', eqv (DiscoveryPayload.workspace_id p') (DiscoveryPayload.workspace_id p)
           && eqv (DiscoveryPayload.canonical_digest p') (DiscoveryPayload.canonical_digest p))) ;;
  put_registry (λ d, d <| RegistryDb.discovery_payloads :=
    <[DiscoveryPayload.id p := p]> (RegistryDb.discovery_payloads d) |>).

Definition discovery_snapshots (d : Db.t) := RegistryDb.discovery_snapshots (Db.registry d).
Definition add_snapshot (n : DiscoverySnapshot.t) : M unit :=
  flag_conflict (λ s, clashes (discovery_snapshots (work s)) (DiscoverySnapshot.id n)
    (λ n', eqv (DiscoverySnapshot.connection_id n') (DiscoverySnapshot.connection_id n)
           && (DiscoverySnapshot.generation n' =? DiscoverySnapshot.generation n))) ;;
  put_registry (λ d, d <| RegistryDb.discovery_snapshots :=
    <[DiscoverySnapshot.id n := n]> (RegistryDb.discovery_snapshots d) |>).

Definition discovery_snapshot_capabilities (d : Db.t) :=
  RegistryDb.discovery_snapshot_capabilities (Db.registry d).
Definition add_snapshot_capability (c : DiscoverySnapshotCapability.t) : M unit :=
  flag_conflict (λ s, existsb (λ c',
      eqv (DiscoverySnapshotCapability.snapshot_id c') (DiscoverySnapshotCapability.snapshot_id c)
      && eqv (DiscoverySnapshotCapability.capability_version_id c')
             (DiscoverySnapshotCapability.capability_version_id c))
    (discovery_snapshot_capabilities (work s))) ;;
  put_registry (λ d, d <| RegistryDb.discovery_snapshot_capabilities :=
    RegistryDb.discovery_snapshot_capabilities d ++ [c] |>).
