(* ===== verification/Identity.v ===== *)
(** Identity and workspace authorization: identity/types.py,
    identity/repository.py, identity/service.py and secrets/service.py. *)
From S2P Require Import Prelude Types Json Store Session PyStr.
Local Open Scope Z_scope.

Section repository.
Implicit Types (context : WorkspaceContext.t) (roles : list Role.t).

(** [require_role] *)
Definition require_role context roles : M unit :=
  raise_if (negb (bool_decide (WorkspaceContext.role context ∈ roles))) AuthorizationDenied.

(** [select(WorkspaceMembership).where(workspace_id, user_id)] *)
Definition select_membership (workspace_id user_id : uuid) : M (option WorkspaceMembership.t) :=
  gets (λ s, IdentityDb.workspace_memberships (flushed_identity s) !! (workspace_id, user_id)).

(** [execution_options(populate_existing=True)]: the object takes the flushed
    column values. *)
Definition populate_membership (m : WorkspaceMembership.t) : M unit :=
  put_identity (λ d, d <| IdentityDb.workspace_memberships :=
    <[(WorkspaceMembership.workspace_id m, WorkspaceMembership.user_id m) := m]>
      (IdentityDb.workspace_memberships d) |>).

(** [select(Workspace.id).where(Workspace.id == ...).with_for_update()] *)
Definition select_workspace (workspace_id : uuid) : M (option uuid) :=
  gets (λ s, by_id (IdentityDb.workspaces (flushed_identity s)) workspace_id (λ _, true)).

(** [require_current_role] *)
Definition require_current_role context roles (serialize_workspace : bool)
    : M WorkspaceMembership.t :=
  require_role context roles ;;
  (if serialize_workspace then
     workspace_id ← select_workspace (WorkspaceContext.workspace_id context);
     raise_if (is_none workspace_id) AuthorizationDenied
   else mret tt) ;;
  membership ← select_membership (WorkspaceContext.workspace_id context)
                                 (WorkspaceContext.actor_user_id context);
  match membership with
  | None => raise AuthorizationDenied
  | Some m =>
      populate_membership m ;;
      raise_if (negb (bool_decide (WorkspaceMembership.role m ∈ roles))) AuthorizationDenied ;;
      mret m
  end.

(** [AuthorizationService.authorize] *)
Definition authorize (user_id workspace_id : uuid) (permission : Permission.t)
    : M WorkspaceContext.t :=
  membership ← select_membership workspace_id user_id;
  match membership with
  | None => raise AuthorizationDenied
  | Some m =>
      let context := WorkspaceContext.mk workspace_id user_id (WorkspaceMembership.role m) in
      raise_if (negb (allows context permission)) AuthorizationDenied ;;
      mret context
  end.

(** [WorkspaceRepository.get_secret_binding] *)
Definition get_secret_binding context (binding_id : uuid) : M (option uuid) :=
  gets (λ s, by_id (IdentityDb.secret_bindings (flushed_identity s)) binding_id
    (λ b, eqv (SecretBinding.workspace_id b) (WorkspaceContext.workspace_id context))).
End repository.

Section service.
Implicit Types (context : WorkspaceContext.t) (owner : User.t) (name : string) (user_id : uuid).

(** The test on [principal.issuer] and [principal.subject]. *)
Definition identifier_rejected (value : string) : bool :=
  falsy (strip value) || (512 <? slen value) || has_nul value.

Definition select_user (principal : Principal.t) (s : Session) : list (uuid * User.t) :=
  where_rows (IdentityDb.users (flushed_identity s)) (λ u,
    eqv (User.oidc_issuer u) (Principal.issuer principal)
    && eqv (User.oidc_subject u) (Principal.subject principal)).

(** [IdentityService.resolve_user].  The [IntegrityError] branch needs a
    concurrent first login between the [SELECT] and the [INSERT], which one
    transaction alone does not see. *)
Definition resolve_user (principal : Principal.t) : M uuid :=
  raise_if (identifier_rejected (Principal.issuer principal)
            || identifier_rejected (Principal.subject principal)) ValueError ;;
  let display_name := prefix 256 ∘ drop_nul <$> Principal.display_name principal in
  found ← gets (select_user principal);
  match head found with
  | Some (id, _) => mret id
  | None =>
      id ← uuid4;
      flag_conflict (λ s, is_some (IdentityDb.users (Db.identity (work s)) !! id)) ;;
      put_identity (λ d, d <| IdentityDb.users :=
        <[id := User.mk id (Principal.issuer principal) (Principal.subject principal)
                  display_name]> (IdentityDb.users d) |>) ;;
      flush ;;
      mret id
  end.

Definition add_membership (m : WorkspaceMembership.t) : M unit :=
  let key := (WorkspaceMembership.workspace_id m, WorkspaceMembership.user_id m) in
  flag_conflict (λ s, is_some (IdentityDb.workspace_memberships (Db.identity (work s)) !! key)) ;;
  put_identity (λ d, d <| IdentityDb.workspace_memberships :=
    <[key := m]> (IdentityDb.workspace_memberships d) |>).

(** [IdentityService.create_workspace] *)
Definition create_workspace owner name (correlation_id : option uuid) : M uuid :=
  let normalized_name := strip name in
  raise_if (falsy normalized_name || (128 <? slen normalized_name) || has_nul normalized_name)
           ValueError ;;
  id ← uuid4;
  flag_conflict (λ s, is_some (IdentityDb.workspaces (Db.identity (work s)) !! id)) ;;
  put_identity (λ d, d <| IdentityDb.workspaces :=
    <[id := Workspace.mk id normalized_name]> (IdentityDb.workspaces d) |>) ;;
  flush ;;
  add_membership (WorkspaceMembership.mk id (User.id owner) Role.ADMIN) ;;
  flush ;;
  audit (WorkspaceContext.mk id (User.id owner) Role.ADMIN) AuditAction.WORKSPACE_CREATED
    ResourceType.WORKSPACE id correlation_id ;;
  mret id.

(** Flushed memberships of a workspace with the admin role. *)
Definition admins (workspace_id : uuid) (d : IdentityDb.t) : list (uuid * uuid * WorkspaceMembership.t) :=
  filter (λ km, WorkspaceMembership.workspace_id km.2 = workspace_id
                ∧ WorkspaceMembership.role km.2 = Role.ADMIN)
    (map_to_list (IdentityDb.workspace_memberships d)).

Definition assign_role (workspace_id user_id : uuid) (role : Role.t) : M unit :=
  put_identity (λ d, d <| IdentityDb.workspace_memberships :=
    alter (λ m, m <| WorkspaceMembership.role := role |>) (workspace_id, user_id)
      (IdentityDb.workspace_memberships d) |>).

(** [IdentityService.set_membership_role] *)
Definition set_membership_role context user_id (role : Role.t) (correlation_id : option uuid)
    : M unit :=
  let workspace_id := WorkspaceContext.workspace_id context in
  require_current_role context [Role.ADMIN] true ;;
  membership ← select_membership workspace_id user_id;
  match membership with
  | None => add_membership (WorkspaceMembership.mk workspace_id user_id role)
  | Some m =>
      populate_membership m ;;
      if eqv (WorkspaceMembership.role m) Role.ADMIN && negb (eqv role Role.ADMIN) then
        admin_count ← gets (λ s, len (admins workspace_id (flushed_identity s)));
        raise_if (admin_count <=? 1) AuthorizationDenied ;;
        assign_role workspace_id user_id role
      else assign_role workspace_id user_id role
  end ;;
  flush ;;
  audit context AuditAction.MEMBERSHIP_CHANGED ResourceType.MEMBERSHIP user_id correlation_id.
End service.
