(* ===== verification/Screening.v ===== *)
(** Screening of untrusted documents: [_contains_obvious_secret_in_json],
    [contains_sensitive_json], [contains_sensitive_schema] and the validation of
    capability metadata (security/metadata.py).

    The source identifies containers by [id]; a parsed document is a tree, so the
    model identifies a node by its path from the root. *)
From S2P Require Import Prelude Types Json PyStr Secrets Session.
From stdpp Require Import strings pretty.
From Stdlib Require Import Ascii.
From stdpp Require Import strings.
Local Open Scope Z_scope.

(** What the screening calls outside its module: [re2.compile(p).search] ([None]
    is [re2.error]), [urllib.parse.unquote], and [repr] of a float. *)
Class Patterns := {
  re2_search : string → option (string → bool);
  unquote : string → string;
  float_repr : PyFloat.t → string }.

(** A search that did not answer: the code raised ([TypeError] or [ValueError]),
    or the fuel of the model ran out, which the theorems exclude. *)
Inductive failure := Raised | OutOfFuel.

(** What visiting one entry of a work list does: [Ok None] ends the search, [Ok
    (Some es)] pushes [es]. *)
Abbreviation visit_result E := (result failure (option (list E))) (only parsing).

(** The entries that the members of an object push, in order. *)
Fixpoint visit_all {A E} (f : A → visit_result E) (l : list A) : visit_result E :=
  match l with
  | [] => Ok (Some [])
  | a :: l =>
      match f a with
      | Ok (Some es) => match visit_all f l with Ok (Some es') => Ok (Some (es ++ es')) | r => r end
      | r => r
      end
  end.

Definition json_lookup (key : string) (members : list (Json.key * Json.t)) : option Json.t :=
  snd <$> List.find (λ m, eqv m.1 (Json.KStr key)) members.

Definition is_number (v : Json.t) : bool :=
  match v with Json.Int _ | Json.Float _ => true | _ => false end.
Definition is_dict_or_bool (v : Json.t) : bool :=
  match v with Json.Dict _ | Json.Bool _ => true | _ => false end.

Definition literal_keys : list string := ["const"; "default"; "enum"; "example"; "examples"]%string.
Definition annotation_keys : list string := ["$comment"; "description"; "title"]%string.
Definition schema_map_keys : list string :=
  ["$defs"; "definitions"; "dependentSchemas"; "patternProperties"]%string.
Definition schema_keys : list string :=
  ["additionalProperties"; "contains"; "contentSchema"; "else"; "if"; "items"; "not";
   "propertyNames"; "then"; "unevaluatedItems"; "unevaluatedProperties"]%string.
Definition schema_array_keys : list string := ["allOf"; "anyOf"; "oneOf"; "prefixItems"]%string.
Definition reference_keys : list string := ["$ref"; "$dynamicRef"; "$recursiveRef"]%string.
Definition among (key : string) (keys : list string) : bool := bool_decide (key ∈ keys).

(** ["auth" in key.lower()] *)
Definition mentions_auth (key : string) : bool := search (exact_chars (chars "auth")) (chars (lower key)).

Section screening.
Context `{Patterns}.

(** [len(str(current))] of a number *)
Definition number_width (v : Json.t) : Z :=
  match v with Json.Int z => slen (pretty z) | Json.Float f => slen (float_repr f) | _ => 0 end.

(** ** Values: [_contains_obvious_secret_in_json] *)

(** The [while literals] loop: strings, and the members of nested lists. *)
Fixpoint literal_secret (literal : Json.t) : bool :=
  match literal with
  | Json.Str s => _looks_like_secret_candidate s
  | Json.List l => existsb literal_secret l
  | _ => false
  end.

(** One member of an object with a string key: does it end the search, and in
    which context is its value searched? *)
Definition member_found (sensitive_context : bool) (key : string) (child : Json.t) : bool :=
  sensitive_context && _looks_like_secret_candidate key
  || match child with
     | Json.Str s =>
         _is_sensitive_field key
         && negb (_is_auth_mode s && (sensitive_context || _is_sensitive_field key && mentions_auth key))
         && _looks_like_secret_candidate s
     | _ => false
     end
  || sensitive_context && among key literal_keys && literal_secret child.

Definition member_context (sensitive_context : bool) (key : string) (child : Json.t) : bool :=
  let key_is_sensitive := _is_sensitive_field key in
  let child_is_auth_mode :=
    match child with
    | Json.Str s => _is_auth_mode s && (sensitive_context || key_is_sensitive && mentions_auth key)
    | _ => false
    end in
  let child_is_expiration_metadata :=
    (key_is_sensitive || sensitive_context) && is_number child && _is_expiration_field key in
  if child_is_auth_mode || child_is_expiration_metadata then false
  else sensitive_context || key_is_sensitive.

(** A key that is no string makes [re.sub] raise. *)
Definition visit_member (sensitive_context : bool) (member : Json.key * Json.t)
    : visit_result (Json.t * bool) :=
  let '(key, child) := member in
  match key with
  | Json.KOther => Err Raised
  | Json.KStr key =>
      if member_found sensitive_context key child then Ok None
      else Ok (Some [(child, member_context sensitive_context key child)])
  end.

(** The scalar cases of the loop. *)
Definition scalar_found (current : Json.t) (sensitive_context : bool) : bool :=
  match current with
  | Json.Int _ | Json.Float _ => sensitive_context && (8 <=? number_width current)
  | Json.Str s => sensitive_context && _looks_like_secret_candidate s || contains_obvious_secret s
  | _ => false
  end.

Definition visit_value (entry : Json.t * bool) : visit_result (Json.t * bool) :=
  let '(current, sensitive_context) := entry in
  match current with
  | Json.Dict members => visit_all (visit_member sensitive_context) members
  | Json.List items => Ok (Some ((λ child, (child, sensitive_context)) <$> items))
  | _ => if scalar_found current sensitive_context then Ok None else Ok (Some [])
  end.

(** The [while stack] loop; the head of the list is the top of the stack. *)
Fixpoint scan (fuel : nat) (stack : list (Json.t * bool)) : result failure bool :=
  match fuel, stack with
  | _, [] => Ok false
  | O, _ => Err OutOfFuel
  | S fuel, entry :: stack =>
      match visit_value entry with
      | Err e => Err e
      | Ok None => Ok true
      | Ok (Some entries) => scan fuel (rev_append entries stack)
      end
  end.

(** Every node is visited once. *)
Definition _contains_obvious_secret_in_json (value : Json.t) (initially_sensitive : bool)
    : result failure bool :=
  scan (Z.to_nat (Json.nodes value)) [(value, initially_sensitive)].

Definition contains_sensitive_json (value : Json.t) : result failure bool :=
  _contains_obvious_secret_in_json value false.

(** ** Schemas *)

(** A node of a schema: its path from the root, and the value there. *)
Definition place : Type := list nat * Json.t.

Definition place_children (path : list nat) (values : list Json.t) : list place :=
  imap (λ i v, (path ++ [i], v)) values.

(** The schemas below [current] that [_index_schema_anchors] visits, by keyword. *)
Definition below (p : place) : list place :=
  match p.2 with
  | Json.Dict members => concat (imap (λ i (m : Json.key * Json.t),
      let path := p.1 ++ [i] in
      match m.1 with
      | Json.KOther => []
      | Json.KStr key =>
          match m.2 with
          | Json.Dict inner =>
              if eqv key "properties"%string || among key schema_map_keys
              then place_children path (inner.*2)
              else if among key schema_keys then [(path, m.2)] else []
          | Json.Bool _ => if among key schema_keys then [(path, m.2)] else []
          | Json.List items => if among key schema_array_keys then place_children path items else []
          | _ => []
          end
      end) members)
  | _ => []
  end.

Definition anchor_table : Type := list (string * place).
Definition anchor_lookup (name : string) (anchors : anchor_table) : option place :=
  snd <$> List.find (λ a, eqv a.1 name) anchors.

(** The anchors that one schema declares; [None] when a name is taken. *)
Fixpoint declare_anchors (keywords : list string) (p : place) (anchors : anchor_table) : option anchor_table :=
  match keywords with
  | [] => Some anchors
  | keyword :: keywords =>
      match p.2 with
      | Json.Dict members =>
          match json_lookup keyword members with
          | Some (Json.Str anchor) =>
              if is_some (anchor_lookup anchor anchors) then None
              else declare_anchors keywords p ((anchor, p) :: anchors)
          | _ => declare_anchors keywords p anchors
          end
      | _ => Some anchors
      end
  end.

(** The [while candidates] loop.  The source collects the candidates keyword by
    keyword from sets whose order is not specified; here they come in document
    order. *)
Fixpoint index_loop (fuel : nat) (visited : list (list nat)) (candidates : list place)
    (anchors : anchor_table) : result failure (option anchor_table) :=
  match fuel, candidates with
  | _, [] => Ok (Some anchors)
  | O, _ => Err OutOfFuel
  | S fuel, current :: candidates =>
      if bool_decide (current.1 ∈ visited) then index_loop fuel visited candidates anchors else
      match declare_anchors ["$anchor"; "$dynamicAnchor"]%string current anchors with
      | None => Ok None
      | Some anchors =>
          index_loop fuel (current.1 :: visited) (rev_append (below current) candidates) anchors
      end
  end.

Definition _index_schema_anchors (root : Json.t) : result failure (option anchor_table) :=
  index_loop (Z.to_nat (Json.nodes root)) [] [([], root)] [].

(** [part.replace("~1", "/").replace("~0", "~")] *)
Fixpoint replace_pair (a b : Z) (by_ : ascii) (l : list ascii) : list ascii :=
  match l with
  | c :: (d :: l') as tl => if (ord c =? a) && (ord d =? b) then by_ :: replace_pair a b by_ l'
                            else c :: replace_pair a b by_ tl
  | _ => l
  end.
Definition pointer_part (encoded : string) : string :=
  of_chars (replace_pair 126 48 (Ascii.ascii_of_nat 126)
    (replace_pair 126 49 (Ascii.ascii_of_nat 47) (chars encoded))).

(** [str.isdigit], which also accepts the superscripts that [int] refuses. *)
Definition decimal_digit (c : ascii) : bool := (48 <=? ord c) && (ord c <=? 57).
Definition isdigit (s : string) : bool :=
  negb (falsy s)
  && forallb (λ c, decimal_digit c || (ord c =? 178) || (ord c =? 179) || (ord c =? 185)) (chars s).
Definition int_of (s : string) : option Z :=
  if forallb decimal_digit (chars s)
  then Some (foldl (λ n c, 10 * n + (ord c - 48)) 0 (chars s)) else None.

(** One step of a JSON pointer: [Ok None] is [return None]. *)
Definition pointer_step (p : place) (part : string) : result failure (option place) :=
  match p.2 with
  | Json.Dict members =>
      Ok (match list_find (λ m : Json.key * Json.t, m.1 = Json.KStr part) members with
          | Some (i, m) => Some (p.1 ++ [i], m.2)
          | None => None
          end)
  | Json.List items =>
      if isdigit part then
        match int_of part with
        | None => Err Raised
        | Some i =>
            Ok (if i <? len items
                then (λ v, (p.1 ++ [Z.to_nat i], v)) <$> (items !! Z.to_nat i) else None)
        end
      else Ok None
  | _ => Ok None
  end.

Fixpoint follow_pointer (p : place) (parts : list string) : result failure (option place) :=
  match parts with
  | [] => Ok (Some p)
  | part :: parts =>
      match pointer_step p (pointer_part part) with
      | Ok (Some q) => follow_pointer q parts
      | r => r
      end
  end.

Definition _resolve_local_schema_reference (root : Json.t) (reference : string) (anchors : anchor_table)
    : result failure (option place) :=
  let fragment := unquote (of_chars (drop 1 (chars reference))) in
  if falsy fragment then Ok (Some ([], root))
  else if startswith fragment "/"
  then follow_pointer ([], root) (split_on 47 (of_chars (drop 1 (chars fragment))))
  else Ok (anchor_lookup fragment anchors).

Definition _pattern_matches_sensitive_field (pattern : string) : bool :=
  match re2_search pattern with
  | None => true
  | Some search => existsb search _SENSITIVE_FIELD_PROBES
  end.

(** [sensitive_property or test(name)] *)
Definition name_sensitive (sensitive_property : bool) (test : string → bool) (name : Json.key)
    : result failure bool :=
  if sensitive_property then Ok true
  else match name with Json.KStr name => Ok (test name) | Json.KOther => Err Raised end.

(** The schemas of a map of named schemas, each with the flag of its name. *)
Definition named_schemas (path : list nat) (sensitive_property : bool) (test : string → bool)
    (members : list (Json.key * Json.t)) : visit_result (place * bool) :=
  visit_all (λ '(i, (name, schema)),
      match name_sensitive sensitive_property test name with
      | Ok flag => Ok (Some [((path ++ [i], schema), flag)])
      | Err e => Err e
      end) (imap pair members).

(** The tests on a member that is not a nested schema. *)
Definition annotation_found (sensitive_property : bool) (key : string) (child : Json.t)
    : result failure bool :=
  literal ← ((if sensitive_property && among key literal_keys
              then _contains_obvious_secret_in_json child true else Ok false) : result failure bool);
  if (literal : bool) then Ok true else
  if sensitive_property && among key annotation_keys
     && match child with
        | Json.Str s => _looks_like_secret_candidate s || contains_obvious_secret s
        | _ => false
        end
  then Ok true
  else if negb (among key literal_keys) then contains_sensitive_json (Json.Dict [(Json.KStr key, child)])
  else contains_sensitive_json child.

(** One member of a schema object.  The cache of resolved references is not
    modelled: resolution is a function of the document. *)
Definition schema_member (root : Json.t) (anchors : anchor_table) (path : list nat)
    (sensitive_property : bool) (member : nat * (Json.key * Json.t)) : visit_result (place * bool) :=
  let '(i, (key, child)) := member in
  let path := path ++ [i] in
  match key with
  | Json.KOther => Err Raised
  | Json.KStr key =>
      let annotation :=
        match annotation_found sensitive_property key child with
        | Ok true => Ok None | Ok false => Ok (Some []) | Err e => Err e
        end in
      let keep (ps : list place) := Ok (Some ((λ p, (p, sensitive_property)) <$> ps)) in
      match child with
      | Json.Str s =>
          if sensitive_property && among key reference_keys && startswith s "#" then
            target ← _resolve_local_schema_reference root s anchors;
            Ok (Some (match target with Some p => [(p, true)] | None => [] end))
          else annotation
      | Json.Dict inner =>
          if eqv key "properties"%string
          then named_schemas path sensitive_property _is_sensitive_field inner
          else if eqv key "patternProperties"%string
          then named_schemas path sensitive_property _pattern_matches_sensitive_field inner
          else if eqv key "dependentSchemas"%string
          then named_schemas path sensitive_property _is_sensitive_field inner
          else if among key schema_map_keys then keep (place_children path (inner.*2))
          else if among key schema_keys then keep [(path, child)]
          else annotation
      | Json.Bool _ => if among key schema_keys then keep [(path, child)] else annotation
      | Json.List items =>
          if among key schema_array_keys then keep (place_children path items) else annotation
      | _ => annotation
      end
  end.

Definition visit_schema (root : Json.t) (anchors : anchor_table) (entry : place * bool)
    : visit_result (place * bool) :=
  let '((path, current), sensitive_property) := entry in
  match current with
  | Json.Dict members => visit_all (schema_member root anchors path sensitive_property) (imap pair members)
  | _ => if scalar_found current sensitive_property then Ok None else Ok (Some [])
  end.

(** The pops of entries that were visited before. *)
Fixpoint skip_visited (visited : list (list nat * bool)) (stack : list (place * bool))
    : list (place * bool) :=
  match stack with
  | [] => []
  | ((path, v), flag) :: stack' =>
      if bool_decide ((path, flag) ∈ visited) then skip_visited visited stack' else stack
  end.

(** The [while stack] loop; fuel counts the entries that are visited. *)
Fixpoint schema_loop (root : Json.t) (anchors : anchor_table) (fuel : nat)
    (visited : list (list nat * bool)) (stack : list (place * bool)) : result failure bool :=
  match skip_visited visited stack with
  | [] => Ok false
  | entry :: stack =>
      match fuel with
      | O => Err OutOfFuel
      | S fuel =>
          match visit_schema root anchors entry with
          | Err e => Err e
          | Ok None => Ok true
          | Ok (Some entries) =>
              schema_loop root anchors fuel ((entry.1.1, entry.2) :: visited) (rev_append entries stack)
          end
      end
  end.

(** [contains_sensitive_schema]: a node is visited at most once per flag. *)
Definition contains_sensitive_schema (value : Json.t) : result failure bool :=
  anchors ← _index_schema_anchors value;
  match anchors with
  | None => Ok true
  | Some anchors => schema_loop value anchors (2 * Z.to_nat (Json.nodes value)) [] [(([], value), false)]
  end.

(** ** Serialization: [json.dumps(..., ensure_ascii=False, allow_nan=False,
    separators=(",", ":"))] *)

Definition hex_char (n : Z) : ascii := Ascii.ascii_of_nat (Z.to_nat (if n <? 10 then 48 + n else 87 + n)).
Definition escape_char (c : ascii) : list ascii :=
  let n := ord c in
  let back (s : string) := Ascii.ascii_of_nat 92 :: chars s in
  if n =? 34 then [Ascii.ascii_of_nat 92; c]
  else if n =? 92 then [c; c]
  else if n =? 8 then back "b" else if n =? 9 then back "t" else if n =? 10 then back "n"
  else if n =? 12 then back "f" else if n =? 13 then back "r"
  else if n <? 32 then back "u00" ++ [hex_char (n / 16); hex_char (n mod 16)]
  else [c].
Definition quote_char : ascii := Ascii.ascii_of_nat 34.
Definition json_string (s : string) : list ascii :=
  quote_char :: concat (escape_char <$> chars s) ++ [quote_char].

Definition separated (l : list (list ascii)) : list ascii :=
  concat (imap (λ i x, if (i =? 0)%nat then x else chars "," ++ x) l).

(** [None] is a [ValueError] or [TypeError]. *)
Fixpoint dumps (v : Json.t) : option (list ascii) :=
  match v with
  | Json.Null => Some (chars "null")
  | Json.Bool b => Some (chars (if b then "true" else "false"))
  | Json.Int z => Some (chars (pretty z))
  | Json.Float f => if PyFloat.isfinite f then Some (chars (float_repr f)) else None
  | Json.Str s => Some (json_string s)
  | Json.List l =>
      items ← mapM dumps l;
      Some (chars "[" ++ separated items ++ chars "]")
  | Json.Dict l =>
      members ← mapM (λ m : Json.key * Json.t,
        match m.1 with
        | Json.KStr k => (λ t, json_string k ++ chars ":" ++ t) <$> dumps m.2
        | Json.KOther => None
        end) l;
      Some (chars "{" ++ separated members ++ chars "}")
  | Json.Other => None
  end.

(** [len(serialized.encode("utf-8"))] *)
Definition utf8_length (l : list ascii) : Z := Zsum (map (λ c, if ord c <? 128 then 1 else 2) l).

(** ** Capability metadata *)

Definition bad_name (s : string) : bool := falsy s || (256 <? slen s) || has_nul s.

(** [validate_capability_scalars]; every modelled string has a UTF-8 encoding. *)
Definition validate_capability_scalars (tool_identity tool_name display_name : string)
    (description : option string) (protocol_revision : string) : result exn unit :=
  let bad_description :=
    match description with Some d => (2048 <? slen d) || has_nul d | None => false end in
  if bad_name tool_identity || bad_name tool_name || bad_name display_name || bad_description
  then Err (MetadataValidationError Metadata.invalid_scalar)
  else if existsb contains_obvious_secret
            ([tool_identity; tool_name; display_name] ++ option_list description ++ [protocol_revision])
  then Err (MetadataValidationError Metadata.credential_shaped) else Ok tt.

(** [any(contains_sensitive_schema(root) for root in roots)] *)
Fixpoint any_sensitive (roots : list Json.t) : result failure bool :=
  match roots with
  | [] => Ok false
  | root :: roots =>
      found ← contains_sensitive_schema root;
      if (found : bool) then Ok true else any_sensitive roots
  end.

Definition max_schema_bytes : Z := 131072.

(** [validate_schema_payload]; the traversal is that of [validate_bounded_json]
    on two roots. *)
Definition validate_schema_payload (input_schema : Json.t) (output_schema : option Json.t)
    : result exn unit :=
  let roots := input_schema :: option_list output_schema in
  match Metadata.traverse Metadata.traversal_fuel (rev ((λ r, (r, 1)) <$> roots)) 0 with
  | Err e => Err (MetadataValidationError e)
  | Ok _ =>
      match dumps (Json.List roots) with
      | None => Err (MetadataValidationError Metadata.not_bounded_json)
      | Some serialized =>
          if max_schema_bytes <? utf8_length serialized
          then Err (MetadataValidationError Metadata.serialized_size)
          else if contains_obvious_secret (of_chars serialized)
          then Err (MetadataValidationError Metadata.credential_shaped)
          else match any_sensitive roots with
               | Ok true => Err (MetadataValidationError Metadata.credential_shaped)
               | Ok false => Ok tt
               | Err _ => Err ValueError
               end
      end
  end.
End screening.

(** * Canonical JSON text: [json.dumps(value, ensure_ascii=False, allow_nan=False,
    sort_keys=True, separators=(",", ":")).encode()], which the execution service
    digests. *)

(** Strings are compared by code points. *)
Fixpoint string_ltb (a b : string) : bool :=
  match a, b with
  | _, EmptyString => false
  | EmptyString, String _ _ => true
  | String x a, String y b => (ord x <? ord y) || (ord x =? ord y) && string_ltb a b
  end.

(** Keys in order; keys that are not strings do not get this far. *)
Definition key_le (a b : Json.key * Json.t) : Prop :=
  match a.1, b.1 with
  | Json.KStr x, Json.KStr y => string_ltb y x = false
  | _, _ => True
  end.
#[global] Instance key_le_dec a b : Decision (key_le a b).
Proof. unfold key_le. destruct a.1, b.1; apply _. Defined.

Fixpoint sort_keys (v : Json.t) : Json.t :=
  match v with
  | Json.List l => Json.List (map sort_keys l)
  | Json.Dict l => Json.Dict (merge_sort key_le (map (λ m, (m.1, sort_keys m.2)) l))
  | _ => v
  end.

(** UTF-8 of a character below 256. *)
Definition utf8 (c : ascii) : list ascii :=
  let n := ord c in
  if n <? 128 then [c]
  else [Ascii.ascii_of_nat (Z.to_nat (192 + n / 64)); Ascii.ascii_of_nat (Z.to_nat (128 + n mod 64))].

Definition json_dumps `{Patterns} (v : Json.t) : option string :=
  (λ l, of_chars (concat (utf8 <$> l))) <$> dumps (sort_keys v).
