(* ===== verification/SchemaSearch.v ===== *)
(** What the search of a schema decides: [contains_sensitive_schema] of
    security/metadata.py against a definition by the keywords of JSON Schema, that
    says which values are schemas, what their anchors and references name, and what
    a schema shows. *)
From S2P Require Import Prelude Types Json PyStr Secrets Session Screening ScreeningSpec.
From stdpp Require Import strings relations.
From Stdlib Require Import Ascii.
Local Open Scope Z_scope.

(** ** The definition *)

Section specification.
Context `{Patterns}.
Local Open Scope string_scope.

(** *** Schemas within a schema *)

(** The member [i] of the schema at [path] holds the schema [q]; the flag says that it
    holds it under the name of a sensitive field. *)
Inductive nested (path : list nat) (i : nat) : string → Json.t → place → bool → Prop :=
| nested_property keyword inner j name schema :
    keyword ∈ ["properties"; "dependentSchemas"] → inner !! j = Some (Json.KStr name, schema) →
    nested path i keyword (Json.Dict inner) ((path ++ [i; j])%list, schema) (_is_sensitive_field name)
| nested_pattern inner j pattern schema :
    inner !! j = Some (Json.KStr pattern, schema) →
    nested path i "patternProperties" (Json.Dict inner) ((path ++ [i; j])%list, schema) (_pattern_matches_sensitive_field pattern)
| nested_definition keyword inner j name schema :
    keyword ∈ ["$defs"; "definitions"] → inner !! j = Some (name, schema) →
    nested path i keyword (Json.Dict inner) ((path ++ [i; j])%list, schema) false
| nested_schema keyword schema :
    keyword ∈ ["additionalProperties"; "contains"; "contentSchema"; "else"; "if"; "items"; "not"; "propertyNames";
               "then"; "unevaluatedItems"; "unevaluatedProperties"] →
    is_dict_or_bool schema = true → nested path i keyword schema ((path ++ [i])%list, schema) false
| nested_item keyword items j schema :
    keyword ∈ ["allOf"; "anyOf"; "oneOf"; "prefixItems"] → items !! j = Some schema →
    nested path i keyword (Json.List items) ((path ++ [i; j])%list, schema) false.

Definition part (p q : place) (sensitive_name : bool) : Prop :=
  ∃ members i keyword child, p.2 = Json.Dict members ∧ members !! i = Some (Json.KStr keyword, child)
    ∧ nested p.1 i keyword child q sensitive_name.

(** The schemas of a document. *)
Definition schema_of (root : Json.t) : place → Prop := rtc (λ p q, ∃ b, part p q b) ([], root).

(** *** Anchors and references *)

Definition declares (keyword : string) (p : place) (name : string) : Prop :=
  keyword ∈ ["$anchor"; "$dynamicAnchor"]
  ∧ ∃ members, p.2 = Json.Dict members ∧ json_lookup keyword members = Some (Json.Str name).

(** A name is declared twice. *)
Definition ambiguous (root : Json.t) : Prop :=
  ∃ name keyword p keyword' p', schema_of root p ∧ schema_of root p'
    ∧ declares keyword p name ∧ declares keyword' p' name ∧ (keyword, p) ≠ (keyword', p').

(** What a JSON pointer points to. *)
Inductive points : place → list string → place → Prop :=
| points_here p : points p [] p
| points_member path members key parts i child q :
    members !! i = Some (Json.KStr (pointer_part key), child) →
    (∀ j m, members !! j = Some m → (j < i)%nat → m.1 ≠ Json.KStr (pointer_part key)) →
    points ((path ++ [i])%list, child) parts q → points (path, Json.Dict members) (key :: parts) q
| points_item path items number parts n child q :
    isdigit (pointer_part number) = true → int_of (pointer_part number) = Some n →
    items !! Z.to_nat n = Some child →
    points ((path ++ [Z.to_nat n])%list, child) parts q → points (path, Json.List items) (number :: parts) q.

(** A pointer that comes to an array with a digit that is no decimal one. *)
Definition misnumbered (p : place) (parts : list string) : Prop :=
  ∃ parts1 number parts2 path items, parts = (parts1 ++ number :: parts2)%list ∧ points p parts1 (path, Json.List items)
    ∧ isdigit (pointer_part number) = true ∧ int_of (pointer_part number) = None.

Definition fragment_of (reference : string) : string := unquote (of_chars (drop 1 (chars reference))).
Definition pointer_of (fragment : string) : list string := split_on 47 (of_chars (drop 1 (chars fragment))).

Inductive refers (root : Json.t) (reference : string) : place → Prop :=
| refers_root : fragment_of reference = "" → refers root reference ([], root)
| refers_pointer q :
    fragment_of reference ≠ "" → startswith (fragment_of reference) "/" = true →
    points ([], root) (pointer_of (fragment_of reference)) q → refers root reference q
| refers_anchor keyword q :
    fragment_of reference ≠ "" → startswith (fragment_of reference) "/" = false →
    schema_of root q → declares keyword q (fragment_of reference) → refers root reference q.

(** *** The search *)

(** A member that is a local reference. *)
Definition local_reference (keyword : string) (child : Json.t) (reference : string) : Prop :=
  keyword ∈ ["$ref"; "$dynamicRef"; "$recursiveRef"] ∧ child = Json.Str reference ∧ startswith reference "#" = true.

(** From a schema to those within it, and from the schema of a sensitive field to those
    it refers to. *)
Inductive leads_to (root : Json.t) : place * bool → place * bool → Prop :=
| leads_nested p q flag b : part p q b → leads_to root (p, flag) (q, flag || b)
| leads_reference path members i keyword child reference q :
    members !! i = Some (Json.KStr keyword, child) → local_reference keyword child reference → refers root reference q →
    leads_to root ((path, Json.Dict members), true) (q, true).
Definition reached (root : Json.t) : place * bool → Prop := rtc (leads_to root) (([], root), false).

(** A member whose value is not searched as an annotation. *)
Definition holds_schemas (keyword : string) (child : Json.t) : Prop :=
  (keyword ∈ ["properties"; "$defs"; "definitions"; "dependentSchemas"; "patternProperties"] ∧ ∃ inner, child = Json.Dict inner)
  ∨ (keyword ∈ ["additionalProperties"; "contains"; "contentSchema"; "else"; "if"; "items"; "not"; "propertyNames";
                "then"; "unevaluatedItems"; "unevaluatedProperties"] ∧ is_dict_or_bool child = true)
  ∨ (keyword ∈ ["allOf"; "anyOf"; "oneOf"; "prefixItems"] ∧ ∃ items, child = Json.List items).

(** The values that a keyword gives, and the texts that describe, are screened in the
    context of the field; every other member as a document of its own. *)
Definition literal_keyword (keyword : string) : Prop := keyword ∈ ["const"; "default"; "enum"; "example"; "examples"].
Definition member_shows (keyword : string) (child : Json.t) (flag : bool) : Prop :=
  (flag = true ∧ literal_keyword keyword ∧ sensitive child true = true)
  ∨ (flag = true ∧ keyword ∈ ["$comment"; "description"; "title"]
       ∧ ∃ text, child = Json.Str text ∧ (_looks_like_secret_candidate text = true ∨ contains_obvious_secret text = true))
  ∨ (literal_keyword keyword ∧ sensitive child false = true)
  ∨ (¬ literal_keyword keyword ∧ sensitive (Json.Dict [(Json.KStr keyword, child)]) false = true).

Inductive shows : place * bool → Prop :=
| shows_text path text flag :
    contains_obvious_secret text = true ∨ flag = true ∧ _looks_like_secret_candidate text = true →
    shows ((path, Json.Str text), flag)
| shows_number path v : is_number v = true → (8 <= number_width v)%Z → shows ((path, v), true)
| shows_member path members flag i keyword child :
    members !! i = Some (Json.KStr keyword, child) → ¬ holds_schemas keyword child →
    (flag = true → ∀ reference, ¬ local_reference keyword child reference) →
    member_shows keyword child flag → shows ((path, Json.Dict members), flag).

(** The reference of a sensitive field that the code cannot follow. *)
Definition unfollowed (root : Json.t) (e : place * bool) : Prop :=
  ∃ path members i keyword child reference, e = ((path, Json.Dict members), true)
    ∧ members !! i = Some (Json.KStr keyword, child) ∧ local_reference keyword child reference
    ∧ fragment_of reference ≠ "" ∧ startswith (fragment_of reference) "/" = true
    ∧ misnumbered ([], root) (pointer_of (fragment_of reference)).
End specification.

(** ** The pieces of the code *)

Section proofs.
Context `{Patterns}.

Lemma visit_all_cases {A E} (f : A → visit_result E) l :
  match visit_all f l with
  | Ok (Some es) => (∀ a, a ∈ l → ∃ es', f a = Ok (Some es')) ∧ ∀ e, e ∈ es ↔ ∃ a es', a ∈ l ∧ f a = Ok (Some es') ∧ e ∈ es'
  | Ok None => ∃ a, a ∈ l ∧ f a = Ok None
  | Err x => ∃ a, a ∈ l ∧ f a = Err x
  end.
Proof.
  induction l as [|a l IH]; cbn; [set_solver|].
  destruct (f a) as [[es1|]|x] eqn:Ha; [|exists a; set_solver..].
  destruct (visit_all f l) as [[es2|]|x]; [|naive_solver set_solver..].
  destruct IH as [IH1 IH2]. split; [set_solver|]. intros e. rewrite elem_of_app, IH2. split.
  - intros [He|(b & es' & ? & ? & ?)]; [exists a, es1|exists b, es']; set_solver.
  - intros (b & es' & [->|Hb]%elem_of_cons & Hf & He); [left; congruence|right; eauto].
Qed.

Lemma sensitive_screen v context : string_keys v = true → _contains_obvious_secret_in_json v context = Ok (sensitive v context).
Proof. apply contains_obvious_secret_in_json_spec. Qed.

Lemma among_spec key keys : among key keys = true ↔ key ∈ keys.
Proof. apply bool_decide_eq_true. Qed.

(** The keywords of the code and of the definition are the same sets. *)
Lemma annotation_found_exact flag key child : string_keys child = true →
  ∃ b, annotation_found flag key child = Ok b ∧ (b = true ↔ member_shows key child flag).
Proof.
  intros Hk. unfold annotation_found, contains_sensitive_json, member_shows.
  pose proof (among_spec key literal_keys : _ ↔ literal_keyword key) as HL.
  pose proof (among_spec key annotation_keys : _ ↔ key ∈ ["$comment"; "description"; "title"]%string) as HA.
  assert (∀ b, match child with Json.Str s => b s | _ => false end = true ↔ ∃ text, child = Json.Str text ∧ b text = true) as Htext.
  { intros b. destruct child; naive_solver. }
  specialize (Htext (λ s, _looks_like_secret_candidate s || contains_obvious_secret s)).
  setoid_rewrite orb_true_iff in Htext.
  rewrite !sensitive_screen; [|done..|by cbn; rewrite Hk].
  destruct flag, (among key literal_keys) eqn:Hl; cbn [andb negb mbind result_bind].
  all: repeat match goal with |- context [sensitive ?v ?c] => destruct (sensitive v c) end; cbn.
  all: repeat match goal with |- context [if ?b then _ else _] => destruct b eqn:? end.
  all: repeat match goal with H : andb _ _ = _ |- _ => apply andb_true_iff in H as [? ?] || apply andb_false_iff in H end.
  all: eexists; split; [reflexivity|]; intuition congruence.
Qed.

Lemma members_string_keys root p : string_keys root = true → is_place root p → string_keys p.2 = true.
Proof.
  unfold is_place. destruct p as [path v]. cbn [fst snd]. revert root. induction path as [|i path IH]; intros root Hr; cbn; [congruence|].
  intros (c & Hc & Hp)%bind_Some. apply (IH c); [|done]. apply string_keys_children in Hr. rewrite Forall_lookup in Hr. by eapply Hr.
Qed.

Lemma member_of_place root path members i k child :
  is_place root (path, Json.Dict members) → members !! i = Some (k, child) → is_place root (path ++ [i], child).
Proof. intros Hp Hi. eapply place_child; [done|]. cbn. rewrite list_lookup_fmap. by rewrite Hi. Qed.

Lemma member_string_key members i k child :
  string_keys (Json.Dict members) = true → members !! i = Some (k, child) → ∃ key, k = Json.KStr key ∧ string_keys child = true.
Proof.
  cbn. rewrite forallb_Forall, Forall_lookup. intros Hk Hi. specialize (Hk _ _ Hi). cbn in Hk. destruct k; [eauto|done].
Qed.

(** *** Nested schemas *)

Lemma elem_of_place_children path vs q :
  q ∈ place_children path vs ↔ ∃ j v, q = (path ++ [j], v) ∧ vs !! j = Some v.
Proof. unfold place_children. rewrite elem_of_lookup_imap. done. Qed.

Lemma children_of_map path i (inner : list (Json.key * Json.t)) q :
  q ∈ place_children (path ++ [i]) inner.*2 ↔ ∃ j name schema, q = (path ++ [i; j], schema) ∧ inner !! j = Some (name, schema).
Proof.
  rewrite elem_of_place_children. setoid_rewrite list_lookup_fmap. setoid_rewrite <- app_assoc. split.
  - intros (j & v & -> & Hj). destruct (inner !! j) as [[name schema]|] eqn:E; [|done]. injection Hj as <-. eauto.
  - intros (j & name & schema & -> & Hj). exists j, schema. by rewrite Hj.
Qed.

Lemma children_of_list path i items q :
  q ∈ place_children (path ++ [i]) items ↔ ∃ j schema, q = (path ++ [i; j], schema) ∧ items !! j = Some schema.
Proof. rewrite elem_of_place_children. by setoid_rewrite <- app_assoc. Qed.

Lemma named_schemas_exact path flag test inner : string_keys (Json.Dict inner) = true →
  ∃ es, named_schemas path flag test inner = Ok (Some es)
    ∧ ∀ e, e ∈ es ↔ ∃ j name schema, inner !! j = Some (Json.KStr name, schema) ∧ e = ((path ++ [j], schema), flag || test name).
Proof.
  intros Hk. unfold named_schemas.
  set (f := λ '(i, (name, schema)), match name_sensitive flag test name with
            | Ok flag => Ok (Some [((path ++ [i], schema), flag)]) | Err e => Err e end).
  assert (∀ a, a ∈ imap pair inner → ∃ j name schema, a = (j, (Json.KStr name, schema)) ∧ inner !! j = Some (Json.KStr name, schema)
            ∧ f a = Ok (Some [((path ++ [j], schema), flag || test name)])) as Hf.
  { intros a (j & [k schema] & -> & Hj)%elem_of_lookup_imap. destruct (member_string_key _ _ _ _ Hk Hj) as (name & -> & _).
    exists j, name, schema. split_and!; [done..|]. by destruct flag. }
  pose proof (visit_all_cases f (imap pair inner)) as Hv. destruct (visit_all f _) as [[es|]|x].
  - destruct Hv as [_ Hv]. exists es. split; [done|]. intros e. rewrite Hv. split.
    + intros (a & es' & Ha & Hfa & He). destruct (Hf a Ha) as (j & name & schema & _ & Hj & Hfa'). rewrite Hfa' in Hfa.
      injection Hfa as <-. apply list_elem_of_singleton in He as ->. eauto 6.
    + intros (j & name & schema & Hj & ->). exists (j, (Json.KStr name, schema)).
      assert ((j, (Json.KStr name, schema)) ∈ imap pair inner) as Hin by (apply elem_of_lookup_imap; eauto).
      destruct (Hf _ Hin) as (j' & name' & schema' & [= <- <- <-] & _ & Hfa). eexists. split; [done|]. split; [exact Hfa|]. set_solver.
  - destruct Hv as (a & Ha & Hfa). destruct (Hf a Ha) as (? & ? & ? & _ & _ & Hfa'). congruence.
  - destruct Hv as (a & Ha & Hfa). destruct (Hf a Ha) as (? & ? & ? & _ & _ & Hfa'). congruence.
Qed.

(** *** References *)

Lemma follow_pointer_cases p parts :
  match follow_pointer p parts with
  | Ok (Some q) => points p parts q
  | Ok None => ∀ q, ¬ points p parts q
  | Err x => x = Raised ∧ misnumbered p parts
  end.
Proof.
  revert p. induction parts as [|part parts IH]; intros [path v]; cbn [follow_pointer]; [constructor|].
  unfold pointer_step. cbn [fst snd].
  destruct v as [ | | | | |items|members|]; try (by intros q Hq; inversion Hq).
  - destruct (isdigit (pointer_part part)) eqn:Hd; [|intros q Hq; inversion Hq; congruence].
    destruct (int_of (pointer_part part)) as [n|] eqn:Hn.
    2:{ split; [done|]. exists [], part, parts, path, items. split_and!; [done|constructor|done..]. }
    destruct (n <? len items) eqn:Hlen; [destruct (items !! Z.to_nat n) as [child|] eqn:Hc; cbn|].
    + specialize (IH (path ++ [Z.to_nat n], child)). destruct (follow_pointer _ parts) as [[q|]|x].
      * by eapply points_item.
      * intros q Hq. inversion Hq; subst. apply (IH q). congruence.
      * destruct IH as [-> (ps1 & num & ps2 & path' & its & -> & Hp & Hm)]. split; [done|].
        exists (part :: ps1), num, ps2, path', its. split; [done|]. split; [by eapply points_item|done].
    + intros q Hq. inversion Hq; congruence.
    + intros q Hq. inversion Hq as [| |? ? ? ? m ? ? Hd' Hn' Hi']; subst. rewrite Hn in Hn'. injection Hn' as <-.
      apply lookup_lt_Some in Hi'. breflect. unfold len in *. lia.
  - destruct (list_find _ members) as [[i [k child]]|] eqn:Hf.
    + apply list_find_Some in Hf as (Hi & Hkey & Hfirst). cbn in Hkey. subst k. cbn [snd].
      specialize (IH (path ++ [i], child)). destruct (follow_pointer _ parts) as [[q|]|x].
      * eapply points_member; [done|by intros; eapply Hfirst|done].
      * intros q Hq. inversion Hq as [|? ? ? ? j c ? Hj Hfj Hp|]; subst. apply (IH q).
        assert (j = i) as ->; [|congruence].
        destruct (Nat.lt_trichotomy i j) as [Hlt|[->|Hlt]]; [|done|]; [by destruct (Hfj _ _ Hi Hlt)|by destruct (Hfirst _ _ Hj Hlt)].
      * destruct IH as [-> (ps1 & num & ps2 & path' & its & -> & Hp & Hm)]. split; [done|].
        exists (part :: ps1), num, ps2, path', its. split; [done|].
        split; [eapply points_member; [done|by intros; eapply Hfirst|done]|done].
    + intros q Hq. inversion Hq as [|? ? ? ? j c ? Hj Hfj Hp|]; subst. apply list_find_None in Hf.
      rewrite Forall_lookup in Hf. by apply (Hf _ _ Hj).
Qed.

Lemma points_functional p parts q q' : points p parts q → points p parts q' → q = q'.
Proof.
  intros Hq. revert q'. induction Hq as [p|path members key parts i child q Hi Hf _ IH|path items number parts n child q Hd Hn Hi _ IH];
    intros q' Hq'; inversion Hq' as [|? ? ? ? j c ? Hj Hfj Hp|? ? ? ? m ? ? Hd' Hn' Hi' Hp]; subst; try done; apply IH.
  - assert (j = i) as ->; [|congruence].
    destruct (Nat.lt_trichotomy i j) as [Hlt|[->|Hlt]]; [|done|]; [by destruct (Hfj _ _ Hi Hlt)|by destruct (Hf _ _ Hj Hlt)].
  - rewrite Hn in Hn'. injection Hn' as <-. congruence.
Qed.

Definition anchors_of (root : Json.t) (anchors : anchor_table) : Prop :=
  ∀ name q, anchor_lookup name anchors = Some q ↔ schema_of root q ∧ ∃ keyword, declares keyword q name.

Lemma resolve_cases root anchors reference : anchors_of root anchors →
  match _resolve_local_schema_reference root reference anchors with
  | Ok (Some q) => ∀ q', q' = q ↔ refers root reference q'
  | Ok None => ∀ q, ¬ refers root reference q
  | Err x => x = Raised ∧ fragment_of reference ≠ ""%string ∧ startswith (fragment_of reference) "/" = true
      ∧ misnumbered ([], root) (pointer_of (fragment_of reference))
  end.
Proof.
  intros Ha. unfold _resolve_local_schema_reference. fold (fragment_of reference).
  destruct (falsy (fragment_of reference)) eqn:Hf; unfold falsy in Hf; breflect.
  { intros q'. split; [intros ->; by apply refers_root|]. intros Hr. inversion Hr; congruence. }
  destruct (startswith (fragment_of reference) "/") eqn:Hs.
  - change (split_on 47 _) with (pointer_of (fragment_of reference)).
    pose proof (follow_pointer_cases ([], root) (pointer_of (fragment_of reference))) as Hp.
    destruct (follow_pointer _ _) as [[q|]|x].
    + intros q'. split; [intros ->; by apply refers_pointer|]. intros Hr. inversion Hr; try congruence. by eapply points_functional.
    + intros q Hr. inversion Hr; try congruence. by eapply Hp.
    + destruct Hp as [-> Hp]. done.
  - destruct (anchor_lookup (fragment_of reference) anchors) as [q|] eqn:Hl.
    + intros q'. split.
      * intros ->. apply Ha in Hl as (Hq & keyword & Hk). by eapply refers_anchor.
      * intros Hr. inversion Hr; try congruence. assert (anchor_lookup (fragment_of reference) anchors = Some q') as Hl'; [|congruence].
        apply Ha. eauto.
    + intros q Hr. inversion Hr; try congruence. assert (anchor_lookup (fragment_of reference) anchors = Some q) as Hl'; [|congruence].
      apply Ha. eauto.
Qed.

(** *** One member *)

(** The keyword decides what a member nests. *)
Ltac keywords :=
  repeat match goal with
  | K : _ ∈ _ :: _ |- _ => apply elem_of_cons in K as [K|K]
  | K : _ ∈ [] |- _ => by apply elem_of_nil in K
  end.

Lemma nested_holds path i keyword child q b : nested path i keyword child q b → holds_schemas keyword child.
Proof.
  intros Hn. destruct Hn as [keyword inner j name schema Hk _|inner j name schema _|keyword inner j name schema Hk _
    |keyword schema Hk Hd|keyword items j schema Hk _].
  - left. split; [|eauto]. keywords; set_solver.
  - left. split; [set_solver|eauto].
  - left. split; [|eauto]. keywords; set_solver.
  - right. by left.
  - right. right. eauto.
Qed.

Section member.
Context (root : Json.t) (anchors : anchor_table) (Hanchors : anchors_of root anchors).

Definition refers_locally (key : string) (child : Json.t) (flag : bool) : Prop :=
  flag = true ∧ ∃ reference, local_reference key child reference.

Definition member_leads (path : list nat) (i : nat) (key : string) (child : Json.t) (flag : bool) (e : place * bool) : Prop :=
  (∃ q b, nested path i key child q b ∧ e = (q, flag || b))
  ∨ (flag = true ∧ ∃ reference q, local_reference key child reference ∧ refers root reference q ∧ e = (q, true)).

(** What the visit of one member answers. *)
Definition member_answer (path : list nat) (i : nat) (key : string) (child : Json.t) (flag : bool)
    (r : visit_result (place * bool)) : Prop :=
  match r with
  | Ok (Some es) =>
      (¬ holds_schemas key child → ¬ refers_locally key child flag → ¬ member_shows key child flag)
      ∧ ∀ e, e ∈ es ↔ member_leads path i key child flag e
  | Ok None => ¬ holds_schemas key child ∧ ¬ refers_locally key child flag ∧ member_shows key child flag
  | Err x => x = Raised ∧ flag = true ∧ ∃ reference, local_reference key child reference
      ∧ fragment_of reference ≠ ""%string ∧ startswith (fragment_of reference) "/" = true
      ∧ misnumbered ([], root) (pointer_of (fragment_of reference))
  end.

Lemma annotation_answer path i key child flag : string_keys child = true →
  ¬ holds_schemas key child → ¬ refers_locally key child flag →
  member_answer path i key child flag
    match annotation_found flag key child with Ok true => Ok None | Ok false => Ok (Some []) | Err e => Err e end.
Proof.
  intros Hk Hh Hr. destruct (annotation_found_exact flag key child Hk) as (b & -> & Hb). destruct b; cbn.
  - split_and!; [done..|by apply Hb].
  - split; [intros _ _ Hs; by apply Hb in Hs|]. intros e. split; [by intros ?%elem_of_nil|].
    intros [(q & b & Hn & _)|(Hf & reference & q & Hl & _)]; [by apply nested_holds in Hn|destruct Hr; split; eauto].
Qed.

(** A member that holds schemas leads to what it nests. *)
Lemma nested_answer path i key child flag es :
  holds_schemas key child → ¬ refers_locally key child flag →
  (∀ e, e ∈ es ↔ ∃ q b, nested path i key child q b ∧ e = (q, flag || b)) →
  member_answer path i key child flag (Ok (Some es)).
Proof.
  intros Hh Hr Hes. split; [done|]. intros e. rewrite Hes. split; [by left|].
  intros [He|(Hf & reference & q & Hl & _)]; [done|destruct Hr; split; eauto].
Qed.

Lemma not_string_reference key child flag : (∀ s, child ≠ Json.Str s) → ¬ refers_locally key child flag.
Proof. intros Hc (_ & reference & _ & -> & _). by apply (Hc reference). Qed.

Lemma named_answer path i key inner flag test :
  string_keys (Json.Dict inner) = true → key ∈ ["properties"; "dependentSchemas"; "patternProperties"]%string →
  (∀ q b, nested path i key (Json.Dict inner) q b ↔
     ∃ j name schema, inner !! j = Some (Json.KStr name, schema) ∧ q = (path ++ [i; j], schema) ∧ b = test name) →
  member_answer path i key (Json.Dict inner) flag (named_schemas (path ++ [i]) flag test inner).
Proof.
  intros Hk Hkey Hn. destruct (named_schemas_exact (path ++ [i]) flag test inner Hk) as (es & -> & Hes).
  apply nested_answer; [left; split; [set_solver|eauto]|by apply not_string_reference|]. intros e. rewrite Hes. split.
  - intros (j & name & schema & Hj & ->). rewrite <- app_assoc. exists (path ++ [i; j], schema), (test name). split; [|done].
    apply Hn. eauto 6.
  - intros (q & b & Hq & ->). apply Hn in Hq as (j & name & schema & Hj & -> & ->). exists j, name, schema. by rewrite <- app_assoc.
Qed.

Lemma dict_answer path i key inner flag : string_keys (Json.Dict inner) = true →
  member_answer path i key (Json.Dict inner) flag (schema_member root anchors path flag (i, (Json.KStr key, Json.Dict inner))).
Proof.
  intros Hk. cbn [schema_member]. assert (¬ refers_locally key (Json.Dict inner) flag) as Hnr by by apply not_string_reference.
  destruct (eqv key "properties") eqn:E1.
  { apply eqv_eq in E1 as ->. apply named_answer; [done|set_solver|]. intros q b. split.
    - intros Hn. inversion Hn; subst; keywords; simplify_eq; eauto 6.
    - intros (j & name & schema & Hj & -> & ->). apply nested_property; [set_solver|done]. }
  destruct (eqv key "patternProperties") eqn:E2.
  { apply eqv_eq in E2 as ->. apply named_answer; [done|set_solver|]. intros q b. split.
    - intros Hn. inversion Hn; subst; keywords; simplify_eq; eauto 6.
    - intros (j & name & schema & Hj & -> & ->). by apply nested_pattern. }
  destruct (eqv key "dependentSchemas") eqn:E3.
  { apply eqv_eq in E3 as ->. apply named_answer; [done|set_solver|]. intros q b. split.
    - intros Hn. inversion Hn; subst; keywords; simplify_eq; eauto 6.
    - intros (j & name & schema & Hj & -> & ->). apply nested_property; [set_solver|done]. }
  breflect. destruct (among key schema_map_keys) eqn:E4.
  { apply among_spec in E4. assert (key ∈ ["$defs"; "definitions"]%string) as Hkey by (unfold schema_map_keys in E4; keywords; set_solver).
    apply nested_answer; [left; split; [keywords; set_solver|eauto]|done|]. intros e. rewrite list_elem_of_fmap. split.
    - intros (q & -> & (j & name & schema & -> & Hj)%children_of_map). eexists _, false. rewrite orb_false_r.
      split; [by eapply nested_definition|done].
    - intros (q & b & Hn & ->). exists q. inversion Hn; subst; keywords; simplify_eq; rewrite orb_false_r; (split; [done|]);
        apply children_of_map; eauto 6. }
  destruct (among key schema_keys) eqn:E5.
  { apply among_spec in E5. apply nested_answer; [right; by left|done|]. intros e. cbn. rewrite list_elem_of_singleton. split.
    - intros ->. eexists _, false. rewrite orb_false_r. split; [by apply nested_schema|done].
    - intros (q & b & Hn & ->). inversion Hn; subst; unfold schema_keys in E5; try (keywords; simplify_eq); by rewrite orb_false_r. }
  apply annotation_answer; [done| |done].
  assert (key ∉ schema_map_keys) as H4 by (intros K; apply among_spec in K; congruence).
  assert (key ∉ schema_keys) as H5 by (intros K; apply among_spec in K; congruence).
  intros [(K & _)|[(K & _)|(_ & items & ?)]]; [|done..]. unfold schema_map_keys in H4. keywords; set_solver.
Qed.

Lemma member_exact path i key child flag : string_keys child = true →
  member_answer path i key child flag (schema_member root anchors path flag (i, (Json.KStr key, child))).
Proof.
  intros Hk. destruct child as [ |b|z|f|s|items|inner| ]; [..|by apply dict_answer|]; cbn [schema_member].
  all: try (apply annotation_answer; [done| |by apply not_string_reference];
            by intros [(_ & ? & ?)|[(_ & ?)|(_ & ? & ?)]]).
  - assert (¬ refers_locally key (Json.Bool b) flag) as Hnr by by apply not_string_reference.
    destruct (among key schema_keys) eqn:E.
    + apply among_spec in E. apply nested_answer; [right; by left|done|]. intros e. cbn. rewrite list_elem_of_singleton. split.
      * intros ->. eexists _, false. rewrite orb_false_r. split; [by apply nested_schema|done].
      * intros (q & c & Hn & ->). inversion Hn; subst. by rewrite orb_false_r.
    + apply annotation_answer; [done| |done]. assert (key ∉ schema_keys) by (intros K; apply among_spec in K; congruence).
      by intros [(_ & ? & ?)|[(K & _)|(_ & ? & ?)]].
  - assert (¬ holds_schemas key (Json.Str s)) as Hnh by by intros [(_ & ? & ?)|[(_ & ?)|(_ & ? & ?)]].
    destruct (flag && among key reference_keys && startswith s "#") eqn:E.
    + apply andb_true_iff in E as [[-> E]%andb_true_iff Es]. apply among_spec in E.
      assert (local_reference key (Json.Str s) s) as Hl by done.
      assert (∀ reference, local_reference key (Json.Str s) reference → reference = s) as Hs by by intros r (_ & [= ->] & _).
      pose proof (resolve_cases root anchors s Hanchors) as Hres.
      destruct (_resolve_local_schema_reference root s anchors) as [[q|]|x]; cbn.
      * split; [intros _ Hn; destruct Hn; split; eauto|]. intros e. rewrite list_elem_of_singleton. split.
        { intros ->. right. split; [done|]. exists s, q. split_and!; [done| |done]. by apply Hres. }
        intros [(q' & b & Hn & _)|(_ & r & q' & Hr & Hq & ->)]; [by apply nested_holds in Hn|].
        apply Hs in Hr as ->. by apply Hres in Hq as ->.
      * split; [intros _ Hn; destruct Hn; split; eauto|]. intros e. split; [by intros ?%elem_of_nil|].
        intros [(q' & b & Hn & _)|(_ & r & q' & Hr & Hq & ->)]; [by apply nested_holds in Hn|]. apply Hs in Hr as ->. by destruct (Hres q').
      * destruct Hres as (-> & Hres). split; [done|]. split; [done|]. by exists s.
    + apply annotation_answer; [done..|]. intros (-> & reference & K & [= ->] & Hst).
      assert (among key reference_keys = true) as Hk' by by apply among_spec. by rewrite Hk', Hst in E.
  - assert (¬ refers_locally key (Json.List items) flag) as Hnr by by apply not_string_reference.
    destruct (among key schema_array_keys) eqn:E.
    + apply among_spec in E. apply nested_answer; [right; right; eauto|done|]. intros e. rewrite list_elem_of_fmap. split.
      * intros (q & -> & (j & schema & -> & Hj)%children_of_list). eexists _, false. rewrite orb_false_r.
        split; [by apply nested_item|done].
      * intros (q & b & Hn & ->). exists q. inversion Hn; subst; [done|]. rewrite orb_false_r. split; [done|]. apply children_of_list. eauto.
    + apply annotation_answer; [done| |done]. assert (key ∉ schema_array_keys) by (intros K; apply among_spec in K; congruence).
      by intros [(_ & ? & ?)|[(_ & ?)|(K & _)]].
Qed.

(** *** One entry *)

Lemma visit_exact e : string_keys root = true → is_place root e.1 →
  match visit_schema root anchors e with
  | Ok (Some es) => ¬ shows e ∧ ∀ e', e' ∈ es ↔ leads_to root e e'
  | Ok None => shows e
  | Err x => x = Raised ∧ unfollowed root e
  end.
Proof.
  intros Hk Hp. pose proof (members_string_keys _ _ Hk Hp) as Hkeys. destruct e as [[path v] flag]. cbn [fst snd] in *.
  assert (∀ e', leads_to root ((path, v), flag) e' ↔ ∃ members i key child, v = Json.Dict members
    ∧ members !! i = Some (Json.KStr key, child) ∧ member_leads path i key child flag e') as Hleads.
  { intros e'. split.
    - intros Hl. inversion Hl as [p q fl b (members & i & key & child & Hd & Hi & Hn)|? members i key child r q Hi Hr Hq]; subst.
      + cbn in Hd, Hn. exists members, i, key, child. split_and!; [done..|]. left. eauto.
      + exists members, i, key, child. split_and!; [done..|]. right. eauto 6.
    - intros (members & i & key & child & -> & Hi & [(q & b & Hn & ->)|(-> & r & q & Hr & Hq & ->)]).
      + apply leads_nested. exists members, i, key, child. done.
      + by eapply leads_reference. }
  unfold visit_schema. destruct v as [ |b|z|f|s|items|members| ].
  all: try (match goal with |- context [scalar_found ?v ?c] => destruct (scalar_found v c) eqn:E end; cbn in E;
    [ (apply shows_text; apply orb_true_iff in E as [[? ?]%andb_true_iff|?]; [by right|by left])
      || (apply andb_true_iff in E as [-> E]; by apply shows_number, Z.leb_le) || done
    | split; [intros Hs; inversion Hs; subst; try done; cbn in *;
              try (apply orb_false_iff in E as [E1 E2]; match goal with K : _ ∨ _ |- _ => destruct K as [?|[-> ?]] end; [congruence|by rewrite andb_true_l in E1; congruence]);
              try (by apply Z.leb_gt in E; lia)
             | intros e'; split; [by intros ?%elem_of_nil|]; intros (? & ? & ? & ? & ? & _)%Hleads; done ] ]).
  pose proof (visit_all_cases (schema_member root anchors path flag) (imap pair members)) as Hv.
  assert (∀ a, a ∈ imap pair members → ∃ i key child, a = (i, (Json.KStr key, child)) ∧ members !! i = Some (Json.KStr key, child)
    ∧ member_answer path i key child flag (schema_member root anchors path flag a)) as Ha.
  { intros a (i & [k child] & -> & Hi)%elem_of_lookup_imap. destruct (member_string_key _ _ _ _ Hkeys Hi) as (key & -> & Hc).
    exists i, key, child. split_and!; [done..|]. by apply member_exact. }
  destruct (visit_all _ _) as [[es|]|x].
  - destruct Hv as [Hall Hes].
    assert (∀ i key child, members !! i = Some (Json.KStr key, child) → ∃ es', (i, (Json.KStr key, child)) ∈ imap pair members
      ∧ schema_member root anchors path flag (i, (Json.KStr key, child)) = Ok (Some es')
      ∧ member_answer path i key child flag (Ok (Some es'))) as Hm.
    { intros i key child Hi. assert ((i, (Json.KStr key, child)) ∈ imap pair members) as Hin by (apply elem_of_lookup_imap; eauto).
      destruct (Hall _ Hin) as (es' & Hs). exists es'. split_and!; [done..|]. destruct (Ha _ Hin) as (i' & key' & child' & [= <- <- <-] & _ & Hans).
      by rewrite Hs in Hans. }
    split.
    + intros Hs. inversion Hs as [| |? ? ? i key child Hi Hnh Hnr Hsh]; subst; [done|]. destruct (Hm i key child Hi) as (es' & _ & _ & Hno & _).
      apply Hno; [done| |done]. intros (-> & r & Hr). by eapply Hnr.
    + intros e'. rewrite Hes, Hleads. split.
      * intros (a & es' & Hin & Hs & He). destruct (Ha a Hin) as (i & key & child & -> & Hi & Hans). rewrite Hs in Hans.
        exists members, i, key, child. split_and!; [done..|]. by apply Hans.
      * intros (members' & i & key & child & [= <-] & Hi & Hl). destruct (Hm i key child Hi) as (es' & Hin & Hs & _ & He).
        eexists _, es'. split_and!; [done..|]. by apply He.
  - destruct Hv as (a & Hin & Hs). destruct (Ha a Hin) as (i & key & child & -> & Hi & Hans). rewrite Hs in Hans.
    destruct Hans as (Hnh & Hnr & Hsh). eapply shows_member; [done..| |done]. intros -> r Hr. apply Hnr. split; eauto.
  - destruct Hv as (a & Hin & Hs). destruct (Ha a Hin) as (i & key & child & -> & Hi & Hans). rewrite Hs in Hans.
    destruct Hans as (-> & -> & r & Hr & Hrest). split; [done|]. exists path, members, i, key, child, r. done.
Qed.
End member.

(** *** The index of the anchors *)

Lemma below_exact p q : string_keys p.2 = true → q ∈ below p ↔ ∃ b, part p q b.
Proof.
  destruct p as [path v]. cbn [snd]. intros Hk. unfold part. cbn [fst snd]. unfold below. cbn [fst snd].
  destruct v as [ | | | | | |members|]; try (split; [by intros ?%elem_of_nil|by intros (? & ? & ? & ? & ? & ? & _)]).
  trans (∃ i key child, members !! i = Some (Json.KStr key, child) ∧ ∃ b, nested path i key child q b).
  2:{ split; [intros (i & key & child & Hi & b & Hn); eauto 8|]. intros (b & members' & i & key & child & [= <-] & Hi & Hn). eauto 6. }
  set (f := λ i (m : Json.key * Json.t), _). trans (∃ i m, members !! i = Some m ∧ q ∈ f i m).
  { rewrite list_elem_of_In, in_concat. split.
    - intros (l & Hl & Hq). apply list_elem_of_In in Hl, Hq. apply elem_of_lookup_imap in Hl as (i & m & -> & Hi). eauto.
    - intros (i & m & Hi & Hq). exists (f i m). rewrite <- !list_elem_of_In. split; [apply elem_of_lookup_imap; eauto|done]. }
  assert (∀ i key child, members !! i = Some (Json.KStr key, child) → q ∈ f i (Json.KStr key, child) ↔ ∃ b, nested path i key child q b) as Hf.
  { intros i key child Hi. destruct (member_string_key _ _ _ _ Hk Hi) as (key' & [= <-] & Hc). unfold f. cbn [fst snd].
    destruct child as [ |b|z|x|s|items|inner| ].
    1,3,4,5,8: split; [by intros ?%elem_of_nil|intros (b & Hn); apply nested_holds in Hn; by destruct Hn as [(_ & ? & ?)|[(_ & ?)|(_ & ? & ?)]]].
    - destruct (among key schema_keys) eqn:E.
      + apply among_spec in E. rewrite list_elem_of_singleton. split; [intros ->; exists false; by apply nested_schema|].
        intros (c & Hn). by inversion Hn; subst.
      + split; [by intros ?%elem_of_nil|]. intros (c & Hn). inversion Hn; subst. assert (among key schema_keys = true) by by apply among_spec. congruence.
    - destruct (among key schema_array_keys) eqn:E.
      + apply among_spec in E. rewrite children_of_list. split; [intros (j & v & -> & Hj); exists false; by apply nested_item|].
        intros (c & Hn). inversion Hn; subst; [done|]. eauto.
      + split; [by intros ?%elem_of_nil|]. intros (c & Hn). inversion Hn; subst; [done|].
        assert (among key schema_array_keys = true) by by apply among_spec. congruence.
    - destruct (eqv key "properties" || among key schema_map_keys) eqn:E.
      + rewrite children_of_map. apply orb_true_iff in E. rewrite among_spec, eqv_true in E. split.
        * intros (j & k & v & -> & Hj). destruct (member_string_key _ _ _ _ Hc Hj) as (name & -> & _).
          destruct E as [->|E]; [eexists; apply nested_property; [set_solver|done]|]. unfold schema_map_keys in E. keywords; subst.
          -- exists false. eapply nested_definition; [set_solver|done].
          -- exists false. eapply nested_definition; [set_solver|done].
          -- eexists. apply nested_property; [set_solver|done].
          -- eexists. by apply nested_pattern.
        * intros (c & Hn). destruct E as [->|E]; inversion Hn; subst; keywords; simplify_eq; try (by eauto); unfold schema_map_keys in E; keywords; simplify_eq.
      + apply orb_false_iff in E as [E1 E2]. breflect. assert (key ∉ schema_map_keys) as Hm by (intros K; apply among_spec in K; congruence).
        destruct (among key schema_keys) eqn:E.
        * apply among_spec in E. rewrite list_elem_of_singleton. split; [intros ->; exists false; by apply nested_schema|].
          intros (c & Hn). inversion Hn; subst; try done; exfalso; unfold schema_map_keys in Hm; keywords; subst; set_solver.
        * split; [by intros ?%elem_of_nil|]. intros (c & Hn). exfalso. unfold schema_map_keys in Hm. inversion Hn; subst.
          -- keywords; subst; set_solver.
          -- set_solver.
          -- keywords; subst; set_solver.
          -- assert (among key schema_keys = true) by by apply among_spec. congruence. }
  split.
  - intros (i & [k child] & Hi & Hq). destruct (member_string_key _ _ _ _ Hk Hi) as (key & -> & _). exists i, key, child. split; [done|]. by apply Hf.
  - intros (i & key & child & Hi & Hq). exists i, (Json.KStr key, child). split; [done|]. by apply Hf.
Qed.

Lemma part_place root p q b : is_place root p → part p q b → is_place root q.
Proof.
  destruct p as [path v]. intros Hp (members & i & keyword & child & Hd & Hi & Hn). cbn in Hd, Hn. subst v.
  assert (is_place root (path ++ [i], child)) as Hc by by eapply member_of_place.
  assert (∀ j c, Json.children child !! j = Some c → is_place root (path ++ [i; j], c)) as Hch.
  { intros j c Hj. change (path ++ [i; j]) with (path ++ ([i] ++ [j])). rewrite app_assoc. by eapply place_child. }
  inversion Hn as [? ? j ? ? ? Hj|? j ? ? Hj|? ? j ? ? ? Hj| |? ? j ? ? Hj]; subst; try done;
    apply Hch; cbn; [rewrite list_lookup_fmap; by rewrite Hj..|done].
Qed.

Lemma schema_of_place root p : schema_of root p → is_place root p.
Proof.
  unfold schema_of. revert p. apply (rtc_ind_r (λ p, is_place root p)); [apply place_root|].
  intros p q _ (b & Hb) Hp. by eapply part_place.
Qed.

(** What one schema declares, by a list of keywords. *)
Definition gives (keywords : list string) (p : place) (keyword name : string) : Prop :=
  keyword ∈ keywords ∧ ∃ members, p.2 = Json.Dict members ∧ json_lookup keyword members = Some (Json.Str name).

Lemma anchor_lookup_cons name a (p : place) anchors :
  anchor_lookup name ((a, p) :: anchors) = if eqv a name then Some p else anchor_lookup name anchors.
Proof. unfold anchor_lookup. cbn. by destruct (eqv a name). Qed.

Lemma declare_anchors_cases keywords p anchors : NoDup keywords →
  match declare_anchors keywords p anchors with
  | Some anchors' =>
      (∀ name q, anchor_lookup name anchors' = Some q ↔
         anchor_lookup name anchors = Some q ∨ q = p ∧ ∃ keyword, gives keywords p keyword name)
      ∧ (∀ keyword name, gives keywords p keyword name → anchor_lookup name anchors = None)
      ∧ ∀ keyword keyword' name, gives keywords p keyword name → gives keywords p keyword' name → keyword = keyword'
  | None => ∃ keyword name, gives keywords p keyword name
      ∧ (is_Some (anchor_lookup name anchors) ∨ ∃ keyword', gives keywords p keyword' name ∧ keyword ≠ keyword')
  end.
Proof.
  revert anchors. induction keywords as [|k ks IH]; intros anchors; cbn [declare_anchors].
  { intros _. split; [|split]; [|by intros ? ? [?%elem_of_nil _]|by intros ? ? ? [?%elem_of_nil _]]. intros name q. split; [by left|].
    by intros [?|(_ & ? & [?%elem_of_nil _])]. }
  intros [Hk Hnd]%NoDup_cons.
  destruct p.2 as [ | | | | | |members|] eqn:Hp.
  1-6,8: split; [|split]; [|intros ? ? (_ & ? & ? & _); congruence|intros ? ? ? (_ & ? & ? & _); congruence]; intros name q; (split; [by left|]);
         intros [?|(_ & ? & _ & ? & ? & _)]; [done|congruence].
  assert (∀ keyword name, gives (k :: ks) p keyword name ↔
    keyword = k ∧ json_lookup k members = Some (Json.Str name) ∨ gives ks p keyword name) as Hgives.
  { intros keyword name. unfold gives. rewrite elem_of_cons, Hp. split.
    - intros ([->|Hin] & ms & [= <-] & Hl); [by left|right; eauto].
    - intros [(-> & Hl)|(Hin & ms & [= <-] & Hl)]; (split; [tauto|eauto]). }
  assert (∀ keyword name, gives ks p keyword name → keyword ≠ k) as Hne by (intros ? ? (Hin & _) ->; done).
  destruct (json_lookup k members) as [[ | | | |anchor| | |]|] eqn:Hl.
  1-4,6-9: specialize (IH anchors Hnd);
    assert (∀ keyword name, gives (k :: ks) p keyword name ↔ gives ks p keyword name) as Hsame
      by (intros keyword name; rewrite Hgives; intuition congruence);
    destruct (declare_anchors ks p anchors) as [anchors'|];
    [ destruct IH as (I1 & I2 & I3); split; [|split];
      [ intros name q; rewrite I1; by setoid_rewrite Hsame
      | intros keyword name Hg; apply Hsame in Hg; by eapply I2
      | intros keyword keyword' name Hg Hg'; apply Hsame in Hg, Hg'; by eapply I3 ]
    | destruct IH as (keyword & name & Hg & Hor); exists keyword, name; (split; [by apply Hsame|]);
      destruct Hor as [?|(keyword' & ? & ?)]; [by left|right; exists keyword'; (split; [by apply Hsame|done])] ].
  destruct (is_some (anchor_lookup anchor anchors)) eqn:Hs.
  { exists k, anchor. split; [apply Hgives; by left|]. left. by apply is_some_spec. }
  assert (anchor_lookup anchor anchors = None) as Hnone by (by destruct (anchor_lookup anchor anchors)).
  specialize (IH ((anchor, p) :: anchors) Hnd). destruct (declare_anchors ks p _) as [anchors'|].
  - destruct IH as (I1 & I2 & I3).
    assert (∀ keyword, ¬ gives ks p keyword anchor) as Hfresh.
    { intros keyword Hg. specialize (I2 _ _ Hg). rewrite anchor_lookup_cons, eqv_refl in I2. done. }
    split; [|split].
    + intros name q. rewrite I1, anchor_lookup_cons. setoid_rewrite Hgives. destruct (eqv anchor name) eqn:E.
      * apply eqv_eq in E as <-. rewrite Hnone. split; [intros [[= ->]|(-> & ? & Hg)]|intros [?|(-> & _)]]; [|by apply Hfresh in Hg|done|by left].
        right. split; [done|]. exists k. by left.
      * breflect. split; [intros [?|(-> & keyword & ?)]|intros [?|(-> & keyword & [(-> & [= ?])|?])]]; eauto 6. congruence.
    + intros keyword name [(-> & [= <-])|Hg]%Hgives; [done|]. specialize (I2 _ _ Hg). rewrite anchor_lookup_cons in I2.
      by destruct (eqv anchor name).
    + intros keyword keyword' name [(-> & ?)|Hg]%Hgives [(-> & ?)|Hg']%Hgives; simplify_eq; try done.
      * by apply Hfresh in Hg'.
      * by apply Hfresh in Hg.
      * by eapply I3.
  - destruct IH as (keyword & name & Hg & Hor). exists keyword, name. split; [apply Hgives; by right|].
    destruct Hor as [Hl'|(keyword' & Hg' & Hneq)]; [|right; exists keyword'; split; [apply Hgives; by right|done]].
    rewrite anchor_lookup_cons in Hl'. destruct (eqv anchor name) eqn:E; [|by left]. apply eqv_eq in E as <-.
    right. exists k. split; [apply Hgives; by left|]. by eapply Hne.
Qed.

Lemma gives_declares p keyword name : gives ["$anchor"; "$dynamicAnchor"]%string p keyword name ↔ declares keyword p name.
Proof. done. Qed.

(** The state of the index: [seen] are the schemas visited so far. *)
Record indexed (root : Json.t) (seen candidates : list place) (anchors : anchor_table) : Prop := {
  i_schemas : ∀ p, p ∈ seen ++ candidates → schema_of root p;
  i_root : ([], root) ∈ seen ++ candidates;
  i_closed : ∀ p q b, p ∈ seen → part p q b → q ∈ seen ++ candidates;
  i_table : ∀ name q, anchor_lookup name anchors = Some q ↔ q ∈ seen ∧ ∃ keyword, declares keyword q name;
  i_unique : ∀ p p' keyword keyword' name, p ∈ seen → p' ∈ seen → declares keyword p name → declares keyword' p' name →
    (keyword, p) = (keyword', p') }.

Lemma indexed_done root seen anchors : indexed root seen [] anchors → anchors_of root anchors ∧ ¬ ambiguous root.
Proof.
  intros [Hs Hr Hc Ht Hu]. rewrite app_nil_r in *.
  assert (∀ p, p ∈ seen ↔ schema_of root p) as Hseen.
  { intros p. split; [apply Hs|]. unfold schema_of. revert p. apply (rtc_ind_r (λ p, p ∈ seen)); [done|].
    intros p q _ (b & Hb) Hp. specialize (Hc _ _ _ Hp Hb). by rewrite ?app_nil_r in Hc. }
  split.
  - intros name q. by rewrite Ht, Hseen.
  - intros (name & keyword & p & keyword' & p' & Hp & Hp' & Hd & Hd' & Hne). apply Hne. apply Hseen in Hp, Hp'. by eapply Hu.
Qed.

Lemma indexed_skip root seen p candidates anchors :
  indexed root seen (p :: candidates) anchors → p.1 ∈ seen.*1 → indexed root seen candidates anchors.
Proof.
  intros [Hs Hr Hc Ht Hu] (p' & Hpath & Hp')%list_elem_of_fmap.
  assert (p = p') as <-.
  { assert (is_place root p) as H1 by (apply schema_of_place, Hs; set_solver).
    assert (is_place root p') as H2 by (apply schema_of_place, Hs; set_solver).
    unfold is_place in H1, H2. rewrite Hpath, H2 in H1. destruct p, p'. cbn in *. congruence. }
  assert (∀ q, q ∈ seen ++ p :: candidates → q ∈ seen ++ candidates) as Hsub by set_solver.
  split; try done; [set_solver|by apply Hsub|eauto].
Qed.

Lemma indexed_visit root seen p candidates anchors : string_keys root = true →
  indexed root seen (p :: candidates) anchors → p.1 ∉ seen.*1 →
  match declare_anchors ["$anchor"; "$dynamicAnchor"]%string p anchors with
  | Some anchors' => indexed root (p :: seen) (rev_append (below p) candidates) anchors'
  | None => ambiguous root
  end.
Proof.
  intros Hk [Hs Hr Hc Ht Hu] Hp.
  assert (p ∉ seen) as Hnew by (intros Hin; apply Hp, list_elem_of_fmap; eauto).
  assert (schema_of root p) as Hsp by (apply Hs; set_solver).
  assert (∀ q, q ∈ below p ↔ ∃ b, part p q b) as Hb by (intros q; by eapply below_exact, members_string_keys, schema_of_place).
  pose proof (declare_anchors_cases ["$anchor"; "$dynamicAnchor"]%string p anchors) as Hd.
  destruct (declare_anchors _ p anchors) as [anchors'|]; specialize (Hd ltac:(by vm_compute; repeat constructor; set_solver)).
  - destruct Hd as (D1 & D2 & D3). split.
    + intros q. cbn [app]. rewrite elem_of_cons, elem_of_app, elem_of_rev_append, Hb. intros [->|[?|[(b & Hq)|?]]]; [done|apply Hs; set_solver| |apply Hs; set_solver].
      eapply rtc_r; [exact Hsp|]. by exists b.
    + cbn [app]. rewrite elem_of_cons, elem_of_app, elem_of_rev_append. set_solver.
    + intros q q' b Hq Hpart. cbn [app]. rewrite elem_of_cons, elem_of_app, elem_of_rev_append, Hb.
      apply elem_of_cons in Hq as [->|Hq]; [eauto|]. specialize (Hc _ _ _ Hq Hpart). set_solver.
    + intros name q. rewrite D1, Ht, elem_of_cons. setoid_rewrite gives_declares. split; [intros [[? ?]|[-> ?]]; eauto|].
      intros [[->|?] ?]; eauto.
    + assert (∀ q keyword keyword' name, q ∈ seen → declares keyword p name → declares keyword' q name → False) as Hcross.
      { intros q keyword keyword' name Hq Hg Hg'. specialize (D2 keyword name Hg).
        assert (anchor_lookup name anchors = Some q) as Hl by (apply Ht; eauto). congruence. }
      intros q q' keyword keyword' name [->|Hq]%elem_of_cons [->|Hq']%elem_of_cons Hg Hg'.
      * by rewrite (D3 keyword keyword' name Hg Hg').
      * by destruct (Hcross q' keyword keyword' name).
      * by destruct (Hcross q keyword' keyword name).
      * by eapply Hu.
  - destruct Hd as (keyword & name & Hg & [[q Hq]|(keyword' & Hg' & Hne)]).
    + apply Ht in Hq as (Hq & keyword' & Hg'). exists name, keyword, p, keyword', q. split_and!; [done|apply Hs; set_solver|done..|].
      intros [= _ ->]. done.
    + exists name, keyword, p, keyword', p. split_and!; [done..|]. by intros [= ->].
Qed.

Lemma index_loop_exact root fuel seen candidates anchors : string_keys root = true → indexed root seen candidates anchors →
  match index_loop fuel (seen.*1) candidates anchors with
  | Ok (Some anchors') => anchors_of root anchors' ∧ ¬ ambiguous root
  | Ok None => ambiguous root
  | Err _ => True
  end.
Proof.
  intros Hk. revert seen candidates anchors. induction fuel as [|fuel IH]; intros seen [|p candidates] anchors Hi; cbn [index_loop];
    try (by eapply indexed_done); [done|].
  case_bool_decide as Hv; [by eapply IH, indexed_skip|].
  pose proof (indexed_visit _ _ _ _ _ Hk Hi Hv) as Hd. destruct (declare_anchors _ p anchors) as [anchors'|]; [|done].
  change (p.1 :: seen.*1) with ((p :: seen).*1). by apply IH.
Qed.

Lemma index_exact root : string_keys root = true →
  ∃ found, _index_schema_anchors root = Ok found ∧
    match found with Some anchors => anchors_of root anchors ∧ ¬ ambiguous root | None => ambiguous root end.
Proof.
  intros Hk. destruct (index_schema_anchors_spec root) as (found & Hf & _). exists found. split; [done|].
  pose proof (index_loop_exact root (Z.to_nat (Json.nodes root)) [] [([], root)] [] Hk) as Hi.
  unfold _index_schema_anchors in Hf. change (fmap fst []) with ([] : list (list nat)) in Hi. rewrite Hf in Hi. destruct found; apply Hi.
  all: split; cbn; [intros p ->%list_elem_of_singleton; constructor|set_solver|intros ? ? ? ?%elem_of_nil; done| |intros ? ? ? ? ? ?%elem_of_nil; done].
  all: intros name q; split; [done|intros [?%elem_of_nil _]; done].
Qed.

(** *** The search *)

Lemma points_place root p parts q : is_place root p → points p parts q → is_place root q.
Proof.
  intros Hp Hq. induction Hq as [|path members key parts i child q Hi Hf _ IH|path items number parts n child q Hd Hn Hi _ IH]; [done|..]; apply IH.
  - by eapply member_of_place.
  - by eapply place_child.
Qed.

Lemma leads_place root e e' : is_place root e.1 → leads_to root e e' → is_place root e'.1.
Proof.
  intros Hp Hl. inversion Hl as [p q flag b Hpart|? ? ? ? ? ? ? _ _ Hr]; subst; cbn in *; [by eapply part_place|].
  inversion Hr; subst; [apply place_root| |by apply schema_of_place].
  match goal with K : points _ _ _ |- _ => by eapply points_place, K; apply place_root end.
Qed.

Lemma reached_place root e : reached root e → is_place root e.1.
Proof.
  unfold reached. revert e. apply (rtc_ind_r (λ e, is_place root e.1)); [apply place_root|]. intros e e' _ Hl Hp. by eapply leads_place.
Qed.

Lemma within_reached root anchors e : string_keys root = true → anchors_of root anchors →
  within root anchors e → reached root e.
Proof.
  intros Hk Ha. unfold within. revert e. apply (rtc_ind_r (λ e, reached root e)); [constructor|].
  intros e e' _ (es & Hv & He) Hr. pose proof (visit_exact root anchors Ha e Hk (reached_place _ _ Hr)) as Hx. rewrite Hv in Hx.
  eapply rtc_r; [exact Hr|]. by apply Hx.
Qed.

Lemma reached_within root anchors e : string_keys root = true → anchors_of root anchors →
  (∀ e, within root anchors e → ∃ es, visit_schema root anchors e = Ok (Some es)) → reached root e → within root anchors e.
Proof.
  intros Hk Ha Hall. unfold reached. revert e. apply (rtc_ind_r (λ e, within root anchors e)); [constructor|].
  intros e e' _ Hl Hw. eapply rtc_r; [exact Hw|]. destruct (Hall e Hw) as (es & Hv). exists es. split; [done|].
  pose proof (visit_exact root anchors Ha e Hk (reached_place _ _ (within_reached _ _ _ Hk Ha Hw))) as Hx. rewrite Hv in Hx. by apply Hx.
Qed.

End proofs.

(** A field that holds a secret by a reference to an anchor. *)
Module SearchScenario.
Local Open Scope string_scope.
Definition schema (name : string) : Json.t :=
  Json.Dict [(Json.KStr "$defs", Json.Dict
               [(Json.KStr "pin", Json.Dict [(Json.KStr "$anchor", Json.Str "pin"); (Json.KStr "default", Json.Str "Xk29fjQ7vLp0")])]);
             (Json.KStr "properties", Json.Dict [(Json.KStr name, Json.Dict [(Json.KStr "$ref", Json.Str "#pin")])])].
End SearchScenario.

Example unnamed_field_is_clear : @contains_sensitive_schema Sample.patterns (SearchScenario.schema "city") = Ok false.
Proof. vm_compute. reflexivity. Qed.
