(* ===== verification/Endpoint.v ===== *)
(** Endpoint validation: security/endpoints.py, [decode_safe_url_path] and
    [contains_sensitive_url] of security/metadata.py, and the configuration checks
    of registry/service.py.

    URL splitting, IDNA and address parsing and percent decoding enter as
    parameters. *)
From S2P Require Import Prelude Types Json PyStr Secrets Store Session.
From stdpp Require Import strings pretty.
From Stdlib Require Import Ascii.
Local Open Scope Z_scope.

(** The result of [urllib.parse.urlsplit], with its [port] already read. *)
Module SplitResult.
Record t := mk {
  scheme : string; hostname : option string; port : option Z; username : option string;
  password : option string; path : string; query : string; fragment : string }.
End SplitResult.

(** A parsed [ipaddress] literal: its [compressed] text and [is_loopback]. *)
Module IpAddress.
Record t := mk { compressed : string; is_loopback : bool }.
End IpAddress.

(** What the checks call: [None] is a [ValueError] (or [OSError], [IDNAError],
    [UnicodeError]) of the call. *)
Class Urls := {
  urlsplit : string → option SplitResult.t;
  ip_address : string → option IpAddress.t;
  idna_encode : string → option string;
  inet_aton : string → bool;
  unquote_strict : string → option string }.

Module NormalizedEndpointHost.
Record t := mk { value : string; parsed_ip : option IpAddress.t; is_ip_literal : bool }.
End NormalizedEndpointHost.

(** [_DNS_LABEL.fullmatch] *)
Definition dns_label (label : string) : bool :=
  let l := chars label in
  match l, last l with
  | first :: _, Some final =>
      (slen label <=? 63) && alnum_ascii first && alnum_ascii final
      && forallb (λ c, alnum_ascii c || (ord c =? 45)) l
  | _, _ => false
  end.

(** [re.search(r"%(?![0-9A-Fa-f]{2})", path)] *)
Fixpoint bad_percent (l : list ascii) : bool :=
  match l with
  | [] => false
  | c :: l' =>
      (ord c =? 37) && match l' with a :: b :: _ => negb (hex_digit a && hex_digit b) | _ => true end
      || bad_percent l'
  end.

(** [re.search(r"%[0-9A-Fa-f]{2}", path)] *)
Fixpoint percent_pair (l : list ascii) : bool :=
  match l with
  | [] => false
  | c :: l' =>
      (ord c =? 37) && match l' with a :: b :: _ => hex_digit a && hex_digit b | _ => false end
      || percent_pair l'
  end.

Section endpoint.
Context `{Urls}.

(** [normalize_endpoint_host] *)
Definition normalize_endpoint_host (raw_hostname : option string)
    : result exn NormalizedEndpointHost.t :=
  let hostname := lower (default "" raw_hostname) in
  if falsy hostname || endswith hostname ".." || char_in 37 hostname then Err ValueError else
  let hostname := removesuffix hostname "." in
  match ip_address hostname with
  | Some ip => Ok (NormalizedEndpointHost.mk (IpAddress.compressed ip) (Some ip) true)
  | None =>
      match idna_encode hostname with
      | None => Err ValueError
      | Some normalized =>
          if (253 <? slen normalized) || negb (forallb dns_label (split_on 46 normalized))
          then Err ValueError
          else Ok (NormalizedEndpointHost.mk normalized None (inet_aton normalized))
      end
  end.

Definition unsafe_path_character (c : ascii) : bool :=
  isspace c || (ord c <? 32) || (127 <=? ord c) && (ord c <=? 159).

(** [decode_safe_url_path] *)
Definition decode_safe_url_path (path : string) : result exn string :=
  if bad_percent (chars path) then Err ValueError else
  match unquote_strict path with
  | None => Err ValueError
  | Some decoded_path =>
      if percent_pair (chars decoded_path) || existsb unsafe_path_character (chars decoded_path)
      then Err ValueError else Ok decoded_path
  end.

(** [_URL_CANDIDATE] *)
Definition _URL_CANDIDATE : re :=
  (lit "http" · opt (lit "s") · lit "://"
   · many1 (Chr (λ c, negb (isspace c || one_of "<>[]{}'" c || (ord c =? 34)))))%re.

(** [candidate.rstrip(".,;:!?)]")] *)
Fixpoint drop_while (f : ascii → bool) (l : list ascii) : list ascii :=
  match l with c :: l' => if f c then drop_while f l' else l | [] => [] end.
Definition trim_candidate (l : list ascii) : string :=
  of_chars (rev (drop_while (one_of ".,;:!?)]") (rev l))).

(** The text and up to [rounds] further percent decodings of it. *)
Fixpoint decodings (rounds : nat) (decoded : string) : list string :=
  match rounds with
  | O => []
  | S rounds =>
      match unquote_strict decoded with
      | None => []
      | Some next_decoded =>
          if eqv next_decoded decoded then [] else next_decoded :: decodings rounds next_decoded
      end
  end.

Definition text_sensitive (s : string) : bool := contains_sensitive_url_path s || contains_obvious_secret s.

(** The parts of a candidate that parses; [Err] is the [ValueError] that makes the
    loop continue. *)
Definition url_parts_sensitive (candidate : string) : result exn bool :=
  match urlsplit candidate with
  | None => Err ValueError
  | Some parsed =>
      host ← normalize_endpoint_host (SplitResult.hostname parsed);
      decoded_path ← decode_safe_url_path (SplitResult.path parsed);
      decoded_username ← match SplitResult.username parsed with
                         | Some u => Some <$> decode_safe_url_path u
                         | None => Ok None
                         end;
      decoded_query ← decode_safe_url_path (SplitResult.query parsed);
      decoded_fragment ← decode_safe_url_path (SplitResult.fragment parsed);
      Ok (is_some (SplitResult.password parsed)
          || contains_sensitive_hostname (NormalizedEndpointHost.value host)
          || text_sensitive decoded_path
          || contains_sensitive_url_path decoded_query || contains_sensitive_url_path decoded_fragment
          || contains_obvious_secret decoded_query || contains_obvious_secret decoded_fragment
          || match decoded_username with Some u => text_sensitive u | None => false end)
  end.

Definition candidate_sensitive (candidate : string) : bool :=
  let decoded_candidate :=
    match decode_safe_url_path candidate with Ok d => d | Err _ => candidate end in
  text_sensitive decoded_candidate
  || match url_parts_sensitive candidate with Ok b => b | Err _ => false end.

(** [contains_sensitive_url] *)
Definition contains_sensitive_url (value : string) : bool :=
  let candidates := value :: decodings 3 value in
  existsb (λ text, existsb (λ m, candidate_sensitive (trim_candidate m.2))
                     (finditer (whole _URL_CANDIDATE) (chars text))) candidates.

(** [ConnectionService._POLICY_VERSION.fullmatch] *)
Definition policy_version_match (version : string) : bool :=
  match chars version with
  | [] => false
  | first :: rest =>
      alnum_ascii first && (len rest <=? 63)
      && forallb (λ c, alnum_ascii c || (ord c =? 46) || (ord c =? 95) || (ord c =? 45)) rest
  end.
End endpoint.

(** ** The connection service's configuration *)

Module ConnectionService.
Record t := mk { environment : string; allow_loopback_http : bool }.
(** [__init__] raises [ValueError] unless this holds. *)
Definition valid (self : t) : bool :=
  negb (allow_loopback_http self && negb (bool_decide (environment self ∈ ["local"; "test"]%string))).
End ConnectionService.

Section configuration.
Context `{Urls} (self : ConnectionService.t).

Definition local_or_test : bool :=
  bool_decide (ConnectionService.environment self ∈ ["local"; "test"]%string).

(** [local_fixture]: a loopback HTTP endpoint that the configuration allows. *)
Definition local_fixture (parsed : SplitResult.t) (host : NormalizedEndpointHost.t) : bool :=
  let hostname := NormalizedEndpointHost.value host in
  local_or_test && ConnectionService.allow_loopback_http self
  && eqv (SplitResult.scheme parsed) "http"%string
  && (eqv hostname "localhost"%string || endswith hostname ".localhost"
      || match NormalizedEndpointHost.parsed_ip host with
         | Some ip => IpAddress.is_loopback ip | None => false end).

(** The shape of an endpoint that is refused. *)
Definition endpoint_refused (parsed : SplitResult.t) (host : NormalizedEndpointHost.t) : bool :=
  let hostname := NormalizedEndpointHost.value host in
  let port := SplitResult.port parsed in
  let local := local_fixture parsed host in
  (negb (eqv (SplitResult.scheme parsed) "https"%string) && negb local)
  || eqv port (Some 0)
  || falsy hostname
  || (negb local && (eqv hostname "localhost"%string || endswith hostname ".localhost"
                     || NormalizedEndpointHost.is_ip_literal host))
  || is_some (SplitResult.username parsed)
  || is_some (SplitResult.password parsed)
  || negb (falsy (SplitResult.query parsed))
  || negb (falsy (SplitResult.fragment parsed))
  || (negb local && negb (is_none port || eqv port (Some 443))).

Definition canonical_endpoint (parsed : SplitResult.t) (hostname decoded_path : string) : string :=
  (SplitResult.scheme parsed +:+ "://" +:+ hostname
   +:+ (match SplitResult.port parsed with Some p => ":" +:+ pretty p | None => "" end)
   +:+ decoded_path)%string.

(** [_validate_configuration] *)
Definition _validate_configuration (endpoint_url policy_version : string) (has_secret : bool)
    : result exn unit :=
  if falsy endpoint_url || (2048 <? slen endpoint_url)
     || existsb (λ c, (ord c <=? 32) || (ord c =? 127)) (chars endpoint_url)
  then Err ValueError else
  match urlsplit endpoint_url with
  | None => Err ValueError
  | Some parsed =>
      host ← normalize_endpoint_host (SplitResult.hostname parsed);
      let hostname := NormalizedEndpointHost.value host in
      if endpoint_refused parsed host then Err ValueError else
      if local_fixture parsed host && has_secret then Err ValueError else
      decoded_path ← decode_safe_url_path (SplitResult.path parsed);
      if contains_obvious_secret (canonical_endpoint parsed hostname decoded_path)
         || contains_sensitive_hostname hostname
         || contains_sensitive_url_path decoded_path then Err ValueError else
      if negb (policy_version_match policy_version) then Err ValueError else Ok tt
  end.

(** [_validate_name] *)
Definition _validate_name (name : string) : result exn string :=
  let normalized := strip name in
  if falsy normalized || (128 <? slen normalized) || has_nul normalized
  then Err ValueError else Ok normalized.
End configuration.

(** ** What an accepted configuration guarantees *)

(** A host that a loopback fixture may have. *)
Definition loopback_host (host : NormalizedEndpointHost.t) : Prop :=
  NormalizedEndpointHost.value host = "localhost"%string
  ∨ endswith (NormalizedEndpointHost.value host) ".localhost" = true
  ∨ ∃ ip, NormalizedEndpointHost.parsed_ip host = Some ip ∧ IpAddress.is_loopback ip = true.

(** Credentials travel over TLS to a public host only: an accepted endpoint is
    HTTPS on the default port and not an address literal or a loopback name,
    unless the configuration is local or a test, allows loopback HTTP, the host is a
    loopback one and the connection has no secret.  The URL carries no credential:
    neither as user information, nor in a query or a fragment, nor as text that the
    screens recognise in its host, its path or the whole of it, the path being decoded
    once and holding no further percent escape, white space or control character. *)
Record endpoint_safe `{Urls} (self : ConnectionService.t) (endpoint_url : string) (has_secret : bool) (parsed : SplitResult.t)
    (host : NormalizedEndpointHost.t) : Prop := {
  es_text : endpoint_url ≠ ""%string ∧ slen endpoint_url ≤ 2048
    ∧ Forall (λ c, 32 < ord c ∧ ord c ≠ 127) (chars endpoint_url);
  es_host : NormalizedEndpointHost.value host ≠ ""%string ∧ SplitResult.port parsed ≠ Some 0;
  es_userinfo : SplitResult.username parsed = None ∧ SplitResult.password parsed = None;
  es_transport :
    SplitResult.scheme parsed = "https"%string ∧ NormalizedEndpointHost.is_ip_literal host = false
      ∧ NormalizedEndpointHost.value host ≠ "localhost"%string
      ∧ endswith (NormalizedEndpointHost.value host) ".localhost" = false
      ∧ (SplitResult.port parsed = None ∨ SplitResult.port parsed = Some 443)
    ∨ ConnectionService.environment self ∈ ["local"; "test"]%string
      ∧ ConnectionService.allow_loopback_http self = true
      ∧ SplitResult.scheme parsed = "http"%string ∧ loopback_host host ∧ has_secret = false;
  es_plain : SplitResult.query parsed = ""%string ∧ SplitResult.fragment parsed = ""%string;
  es_screened : ∃ decoded_path, unquote_strict (SplitResult.path parsed) = Some decoded_path
    ∧ bad_percent (chars (SplitResult.path parsed)) = false
    ∧ percent_pair (chars decoded_path) = false
    ∧ Forall (λ c, isspace c = false ∧ ¬ (ord c < 32 ∨ 127 <= ord c <= 159)) (chars decoded_path)
    ∧ contains_sensitive_hostname (NormalizedEndpointHost.value host) = false
    ∧ contains_sensitive_url_path decoded_path = false
    ∧ contains_obvious_secret (canonical_endpoint parsed (NormalizedEndpointHost.value host) decoded_path) = false }.

Lemma existsb_Forall {A} (f : A → bool) (P : A → Prop) l :
  (∀ x, f x = false ↔ P x) → existsb f l = false ↔ Forall P l.
Proof.
  intros Hf. induction l as [|x l IH]; [by split|]. cbn. by rewrite orb_false_iff, IH, Hf, Forall_cons.
Qed.

Section safety.
Context `{Urls} (self : ConnectionService.t).
Implicit Types (parsed : SplitResult.t) (host : NormalizedEndpointHost.t).

Lemma local_fixture_spec parsed host : local_fixture self parsed host = true ↔
  ConnectionService.environment self ∈ ["local"; "test"]%string ∧ ConnectionService.allow_loopback_http self = true
  ∧ SplitResult.scheme parsed = "http"%string ∧ loopback_host host.
Proof.
  unfold local_fixture, local_or_test, loopback_host. rewrite !andb_true_iff, !orb_true_iff, bool_decide_eq_true, !eqv_true.
  assert (match NormalizedEndpointHost.parsed_ip host with Some ip => IpAddress.is_loopback ip | None => false end = true ↔
    ∃ ip, NormalizedEndpointHost.parsed_ip host = Some ip ∧ IpAddress.is_loopback ip = true) as ->; [|tauto].
  destruct (NormalizedEndpointHost.parsed_ip host); naive_solver.
Qed.

Lemma decode_safe_url_path_ok path decoded : decode_safe_url_path path = Ok decoded ↔
  unquote_strict path = Some decoded ∧ bad_percent (chars path) = false ∧ percent_pair (chars decoded) = false
  ∧ Forall (λ c, isspace c = false ∧ ¬ (ord c < 32 ∨ 127 <= ord c <= 159)) (chars decoded).
Proof.
  unfold decode_safe_url_path. rewrite <- (existsb_Forall unsafe_path_character).
  2:{ intros c. unfold unsafe_path_character. rewrite !orb_false_iff, andb_false_iff, !Z.ltb_ge, !Z.leb_gt. intuition lia. }
  destruct (bad_percent (chars path)); [naive_solver|]. destruct (unquote_strict path) as [d|]; [|naive_solver].
  destruct (percent_pair (chars d) || _) eqn:E.
  - split; [done|]. intros ([= ->] & _ & Hp & Hc). by rewrite Hp, Hc in E.
  - apply orb_false_iff in E as [E1 E2]. split; [by intros [= <-]|]. by intros ([= ->] & _).
Qed.

(** The refusals of the shape of an endpoint, as the record states them. *)
Lemma endpoint_refused_spec parsed host has_secret :
  endpoint_refused self parsed host = false ∧ (local_fixture self parsed host && has_secret) = false ↔
  (NormalizedEndpointHost.value host ≠ ""%string ∧ SplitResult.port parsed ≠ Some 0)
  ∧ (SplitResult.username parsed = None ∧ SplitResult.password parsed = None)
  ∧ (SplitResult.scheme parsed = "https"%string ∧ NormalizedEndpointHost.is_ip_literal host = false
       ∧ NormalizedEndpointHost.value host ≠ "localhost"%string
       ∧ endswith (NormalizedEndpointHost.value host) ".localhost" = false
       ∧ (SplitResult.port parsed = None ∨ SplitResult.port parsed = Some 443)
     ∨ ConnectionService.environment self ∈ ["local"; "test"]%string
       ∧ ConnectionService.allow_loopback_http self = true
       ∧ SplitResult.scheme parsed = "http"%string ∧ loopback_host host ∧ has_secret = false)
  ∧ (SplitResult.query parsed = ""%string ∧ SplitResult.fragment parsed = ""%string).
Proof.
  pose proof (local_fixture_spec parsed host) as Hl. unfold endpoint_refused, falsy.
  assert (∀ {A} (o : option A), is_some o = false ↔ o = None) as Hnone by (intros A o; by destruct o).
  assert (is_none (SplitResult.port parsed) || eqv (SplitResult.port parsed) (Some 443) = true ↔
    SplitResult.port parsed = None ∨ SplitResult.port parsed = Some 443) as Hport.
  { rewrite orb_true_iff, eqv_true. destruct (SplitResult.port parsed); naive_solver. }
  rewrite !orb_false_iff, !andb_false_iff, !negb_false_iff, !Hnone, !eqv_false, !orb_false_iff, !eqv_true, !eqv_false, Hport.
  destruct (local_fixture self parsed host); cbn [negb].
  - destruct Hl as [Hl _]. specialize (Hl eq_refl) as (H1 & H2 & H3 & H4). rewrite H3. split; [intuition congruence|].
    intros (? & ? & [(Hs & _)|?] & ?); [done|intuition congruence].
  - destruct Hl as [_ Hl]. assert (∀ P, (ConnectionService.environment self ∈ ["local"; "test"]%string
       ∧ ConnectionService.allow_loopback_http self = true ∧ SplitResult.scheme parsed = "http"%string ∧ loopback_host host ∧ P) → False) as Hn.
    { intros P (? & ? & ? & ? & _). by discriminate Hl. }
    specialize (Hn (has_secret = false)). intuition congruence.
Qed.
End safety.

(** C15. A connection configuration is accepted exactly when its endpoint is safe and its
    policy version well-formed: credentials are never sent in the clear, nor carried
    where the screens look for them in the URL. *)
Theorem validate_configuration_safe `{Urls} self endpoint_url policy_version has_secret :
  _validate_configuration self endpoint_url policy_version has_secret = Ok tt ↔
  policy_version_match policy_version = true
  ∧ ∃ parsed host, urlsplit endpoint_url = Some parsed
      ∧ normalize_endpoint_host (SplitResult.hostname parsed) = Ok host
      ∧ endpoint_safe self endpoint_url has_secret parsed host.
Proof.
  assert (falsy endpoint_url || (2048 <? slen endpoint_url)
     || existsb (λ c, (ord c <=? 32) || (ord c =? 127)) (chars endpoint_url) = false ↔
    endpoint_url ≠ ""%string ∧ slen endpoint_url ≤ 2048 ∧ Forall (λ c, 32 < ord c ∧ ord c ≠ 127) (chars endpoint_url)) as Htext.
  { rewrite !orb_false_iff, Z.ltb_ge. unfold falsy. rewrite eqv_false, (existsb_Forall _ (λ c, 32 < ord c ∧ ord c ≠ 127)); [tauto|].
    intros c. rewrite orb_false_iff, Z.leb_gt, Z.eqb_neq. lia. }
  unfold _validate_configuration. revert Htext.
  match goal with |- context [(if ?b then _ else _) = Ok tt] => generalize b end. intros refused Htext. split.
  - destruct refused; [done|]. pose proof (proj1 Htext eq_refl) as E. destruct (urlsplit endpoint_url) as [parsed|]; [|done].
    intros (host & Hh & Hrest)%result_bind_ok. destruct (endpoint_refused self parsed host) eqn:Hr; [done|].
    destruct (local_fixture self parsed host && has_secret) eqn:Hl; [done|].
    apply result_bind_ok in Hrest as (decoded & Hd & Hrest). destruct (_ || _ || _) eqn:Hc in Hrest; [done|].
    destruct (policy_version_match policy_version) eqn:Hv; [|done]. split; [done|]. exists parsed, host. split_and!; [done..|].
    apply orb_false_iff in Hc as [[Hc1 Hc2]%orb_false_iff Hc3]. apply decode_safe_url_path_ok in Hd.
    destruct (proj1 (endpoint_refused_spec self parsed host has_secret) (conj Hr Hl)) as (H1 & H2 & H3 & H4).
    constructor; try done. exists decoded. naive_solver.
  - intros (Hv & parsed & host & Hp & Hh & [H1 H2 H3 H4 H5 H6]). apply Htext in H1. rewrite H1, Hp, Hh. cbn.
    destruct (proj2 (endpoint_refused_spec self parsed host has_secret)) as [-> ->]; [done|].
    destruct H6 as (decoded & Hu & Hb & Hpp & Hsp & Hs1 & Hs2 & Hs3).
    rewrite (proj2 (decode_safe_url_path_ok _ _) (conj Hu (conj Hb (conj Hpp Hsp)))). cbn. by rewrite Hs1, Hs2, Hs3, Hv.
Qed.
