(* ===== verification/Connection.v ===== *)
(** Server connections: [ConnectionService] of registry/service.py. *)
From S2P Require Import Prelude Types Json PyStr Store Session Registry Identity Endpoint.
Local Open Scope Z_scope.

Section connections.
Context `{Urls} (self : ConnectionService.t).
Implicit Types (context : WorkspaceContext.t) (connection_id : uuid).

Definition transition_rejected {A} : M A := raise InvalidConnectionTransition.

(** [_locked_connection] *)
Definition _locked_connection context connection_id : M ServerConnection.t :=
  connection ← fetch_connection connection_id
    (λ c, eqv (ServerConnection.workspace_id c) (WorkspaceContext.workspace_id context));
  match connection with
  | None => raise AuthorizationDenied
  | Some connection => mret connection
  end.

(** [_require_scoped_secret] *)
Definition _require_scoped_secret context (secret_binding_id : option uuid) : M unit :=
  match secret_binding_id with
  | None => mret tt
  | Some id =>
      binding ← get_secret_binding context id;
      raise_if (is_none binding) AuthorizationDenied
  end.

(** [_audit] *)
Definition audit_connection context (action : AuditAction.t) connection_id (correlation_id : option uuid)
    : M unit :=
  audit context action ResourceType.SERVER_CONNECTION connection_id correlation_id.

(** [_obsolete_refresh_jobs] *)
Definition outstanding (workspace_id connection_id : uuid) (j : DiscoveryRefreshJob.t) : bool :=
  eqv (DiscoveryRefreshJob.workspace_id j) workspace_id
  && eqv (DiscoveryRefreshJob.connection_id j) connection_id
  && (eqv (DiscoveryRefreshJob.status j) RefreshJobStatus.QUEUED
      || eqv (DiscoveryRefreshJob.status j) RefreshJobStatus.LEASED).

Definition _obsolete_refresh_jobs context connection_id : M unit :=
  outstanding_jobs ← gets (λ s, where_rows (discovery_refresh_jobs (flushed s))
                              (outstanding (WorkspaceContext.workspace_id context) connection_id));
  for_each outstanding_jobs (λ kj,
    update_refresh_job kj.1 (λ j, j <| DiscoveryRefreshJob.status := RefreshJobStatus.OBSOLETE |>
                                   <| DiscoveryRefreshJob.lease_owner := None |>
                                   <| DiscoveryRefreshJob.lease_expires_at := None |>)).

(** [ConnectionService.create] *)
Definition create context (name endpoint_url : string) (secret_binding_id : option uuid)
    (policy_version : string) (correlation_id : option uuid) : M uuid :=
  require_current_role context [Role.ADMIN] true ;;
  normalized_name ← lift (_validate_name name);
  lift (_validate_configuration self endpoint_url policy_version (is_some secret_binding_id)) ;;
  _require_scoped_secret context secret_binding_id ;;
  connection_id ← uuid4;
  version_id ← uuid4;
  let workspace_id := WorkspaceContext.workspace_id context in
  let actor := WorkspaceContext.actor_user_id context in
  add_connection (ServerConnection.mk connection_id workspace_id normalized_name
    ConnectionLifecycle.VERIFYING (Some version_id) None 0 0 None None None None None actor) ;;
  add_connection_version (ServerConnectionVersion.mk version_id workspace_id connection_id 1
    endpoint_url secret_binding_id Transport.STREAMABLE_HTTP policy_version actor) ;;
  flush ;;
  audit_connection context AuditAction.CONNECTION_CREATED connection_id correlation_id ;;
  flush ;;
  mret connection_id.

(** A new control epoch: outstanding allocations no longer match. *)
Definition advance_control (lifecycle : ConnectionLifecycle.t) (c : ServerConnection.t) : ServerConnection.t :=
  c <| ServerConnection.lifecycle := lifecycle |>
    <| ServerConnection.control_epoch := ServerConnection.control_epoch c + 1 |>
    <| ServerConnection.allocated_control_epoch := None |>
    <| ServerConnection.allocated_target_version_id := None |>.

(** [append_version] *)
Definition append_version context connection_id (endpoint_url : string) (secret_binding_id : option uuid)
    (policy_version : string) (correlation_id : option uuid) : M uuid :=
  require_current_role context [Role.ADMIN] true ;;
  lift (_validate_configuration self endpoint_url policy_version (is_some secret_binding_id)) ;;
  _require_scoped_secret context secret_binding_id ;;
  connection ← _locked_connection context connection_id;
  raise_if (eqv (ServerConnection.lifecycle connection) ConnectionLifecycle.DISABLED)
           InvalidConnectionTransition ;;
  sequence ← gets (λ s, max_or_zero ((λ kv, ServerConnectionVersion.sequence kv.2) <$>
    where_rows (server_connection_versions (flushed s))
      (λ v, eqv (ServerConnectionVersion.connection_id v) connection_id)));
  version_id ← uuid4;
  add_connection_version (ServerConnectionVersion.mk version_id (WorkspaceContext.workspace_id context)
    connection_id (sequence + 1) endpoint_url secret_binding_id Transport.STREAMABLE_HTTP policy_version
    (WorkspaceContext.actor_user_id context)) ;;
  flush ;;
  update_connection connection_id (λ c,
    advance_control ConnectionLifecycle.VERIFYING
      (c <| ServerConnection.pending_version_id := Some version_id |>)) ;;
  _obsolete_refresh_jobs context connection_id ;;
  audit_connection context AuditAction.CONNECTION_VERSION_APPENDED connection_id correlation_id ;;
  flush ;;
  mret version_id.

(** [connection.pending_version_id or connection.verified_version_id] *)
Definition current_target (c : ServerConnection.t) : option uuid :=
  or_else (ServerConnection.pending_version_id c) (ServerConnection.verified_version_id c).

(** The allocation fences shared by promotion, completion and publication. *)
Definition allocation_matches (c : ServerConnection.t) (version_id : uuid) (control_epoch generation : Z)
    : bool :=
  (ServerConnection.control_epoch c =? control_epoch)
  && (ServerConnection.refresh_generation c =? generation)
  && eqv (ServerConnection.allocated_control_epoch c) (Some control_epoch)
  && eqv (ServerConnection.allocated_target_version_id c) (Some version_id).

Definition release_allocation (c : ServerConnection.t) : ServerConnection.t :=
  c <| ServerConnection.allocated_control_epoch := None |>
    <| ServerConnection.allocated_target_version_id := None |>.

(** [promote_pending] *)
Definition promote_pending context connection_id (expected_version_id : uuid)
    (expected_control_epoch expected_refresh_generation : Z) (correlation_id : option uuid) : M uuid :=
  require_current_role context [Role.ADMIN; Role.OPERATOR] true ;;
  connection ← _locked_connection context connection_id;
  raise_if (negb (eqv (ServerConnection.lifecycle connection) ConnectionLifecycle.VERIFYING)
            || negb (eqv (current_target connection) (Some expected_version_id))
            || negb (allocation_matches connection expected_version_id expected_control_epoch
                       expected_refresh_generation))
           InvalidConnectionTransition ;;
  update_connection connection_id (λ c, release_allocation
    (c <| ServerConnection.verified_version_id := Some expected_version_id |>
       <| ServerConnection.pending_version_id := None |>
       <| ServerConnection.lifecycle := ConnectionLifecycle.ACTIVE |>)) ;;
  audit_connection context AuditAction.CONNECTION_VERIFIED connection_id correlation_id ;;
  flush ;;
  mret connection_id.

(** [disable] *)
Definition disable context connection_id (correlation_id : option uuid) : M uuid :=
  require_current_role context [Role.ADMIN; Role.OPERATOR] true ;;
  connection ← _locked_connection context connection_id;
  raise_if (eqv (ServerConnection.lifecycle connection) ConnectionLifecycle.DISABLED)
           InvalidConnectionTransition ;;
  update_connection connection_id (advance_control ConnectionLifecycle.DISABLED) ;;
  _obsolete_refresh_jobs context connection_id ;;
  audit_connection context AuditAction.CONNECTION_DISABLED connection_id correlation_id ;;
  flush ;;
  mret connection_id.

(** [enable] *)
Definition enable context connection_id (correlation_id : option uuid) : M uuid :=
  require_current_role context [Role.ADMIN] true ;;
  connection ← _locked_connection context connection_id;
  raise_if (negb (eqv (ServerConnection.lifecycle connection) ConnectionLifecycle.DISABLED))
           InvalidConnectionTransition ;;
  update_connection connection_id (advance_control ConnectionLifecycle.VERIFYING) ;;
  audit_connection context AuditAction.CONNECTION_ENABLED connection_id correlation_id ;;
  flush ;;
  mret connection_id.

(** [allocate_refresh_generation] *)
Definition allocate_refresh_generation context connection_id : M (Z * Z * uuid) :=
  require_current_role context [Role.ADMIN; Role.OPERATOR] true ;;
  connection ← _locked_connection context connection_id;
  raise_if (eqv (ServerConnection.lifecycle connection) ConnectionLifecycle.DISABLED)
           InvalidConnectionTransition ;;
  match current_target connection with
  | None => transition_rejected
  | Some target =>
      (if is_some (ServerConnection.pending_version_id connection)
          && eqv (ServerConnection.lifecycle connection) ConnectionLifecycle.DEGRADED
       then update_connection connection_id
              (λ c, c <| ServerConnection.lifecycle := ConnectionLifecycle.VERIFYING |>)
       else mret tt) ;;
      update_connection connection_id (λ c,
        c <| ServerConnection.refresh_generation := ServerConnection.refresh_generation c + 1 |>
          <| ServerConnection.allocated_control_epoch := Some (ServerConnection.control_epoch c) |>
          <| ServerConnection.allocated_target_version_id := Some target |>) ;;
      flush ;;
      connection ← connection_of connection_id;
      mret (ServerConnection.refresh_generation connection, ServerConnection.control_epoch connection, target)
  end.

Definition refreshable (lifecycle : ConnectionLifecycle.t) : bool :=
  bool_decide (lifecycle ∈ [ConnectionLifecycle.VERIFYING; ConnectionLifecycle.ACTIVE;
                            ConnectionLifecycle.DEGRADED]).

(** [complete_refresh] *)
Definition complete_refresh context connection_id (expected_version_id : uuid)
    (expected_control_epoch expected_refresh_generation : Z) : M uuid :=
  require_current_role context [Role.ADMIN; Role.OPERATOR] true ;;
  connection ← _locked_connection context connection_id;
  raise_if (negb (refreshable (ServerConnection.lifecycle connection))
            || is_some (ServerConnection.pending_version_id connection)
            || negb (eqv (ServerConnection.verified_version_id connection) (Some expected_version_id))
            || negb (allocation_matches connection expected_version_id expected_control_epoch
                       expected_refresh_generation))
           InvalidConnectionTransition ;;
  update_connection connection_id (λ c, release_allocation
    (c <| ServerConnection.lifecycle := ConnectionLifecycle.ACTIVE |>)) ;;
  flush ;;
  mret connection_id.

(** [is_executable] *)
Definition is_executable (c : ServerConnection.t) (connection_version_id : uuid) : bool :=
  eqv (ServerConnection.lifecycle c) ConnectionLifecycle.ACTIVE
  && is_none (ServerConnection.pending_version_id c)
  && eqv (ServerConnection.verified_version_id c) (Some connection_version_id).
End connections.
