(* ===== verification/Capabilities.v ===== *)
(** Capabilities: [CapabilityService] of registry/service.py. *)
From S2P Require Import Prelude Types Json PyStr Secrets Screening Store Session Registry Identity Connection.
From stdpp Require Import strings.
Local Open Scope Z_scope.

(** [mcp_adapter.client.ToolDefinition]: what a discovery says about one tool. *)
Module ToolDefinition.
Record t := mk {
  identity : string; name : string; display_name : string; description : option string;
  input_schema : Json.t; output_schema : option Json.t; metadata_digest : string;
  schema_supported : bool }.
End ToolDefinition.

(** [_DIGEST.fullmatch], [_PROTOCOL_REVISION.fullmatch] *)
Definition digest_match (s : string) : bool :=
  (slen s =? 64)
  && forallb (λ c, let n := ord c in (48 <=? n) && (n <=? 57) || (97 <=? n) && (n <=? 102)) (chars s).
Definition protocol_revision_match (s : string) : bool :=
  match chars s with
  | [] => false
  | first :: rest =>
      alnum_ascii first && (len rest <=? 63)
      && forallb (λ c, alnum_ascii c || (ord c =? 46) || (ord c =? 95) || (ord c =? 47) || (ord c =? 45)) rest
  end.

Section capabilities.
Context `{Patterns}.
Implicit Types (context : WorkspaceContext.t) (capability_id : uuid) (tool : ToolDefinition.t).

Definition capability_rejected {A} : M A := raise InvalidCapabilityTransition.

(** [_validate_metadata] *)
Definition _validate_metadata tool (protocol_revision : string) : result exn unit :=
  if negb (digest_match (ToolDefinition.metadata_digest tool)) then Err ValueError
  else if negb (protocol_revision_match protocol_revision) then Err ValueError
  else match validate_capability_scalars (ToolDefinition.identity tool) (ToolDefinition.name tool)
               (ToolDefinition.display_name tool) (ToolDefinition.description tool) protocol_revision with
       | Err e => Err e
       | Ok _ => validate_schema_payload (ToolDefinition.input_schema tool) (ToolDefinition.output_schema tool)
       end.

(** [_locked_capability] *)
Definition _locked_capability context capability_id : M Capability.t :=
  capability ← fetch_capability capability_id
    (λ c, eqv (Capability.workspace_id c) (WorkspaceContext.workspace_id context));
  match capability with None => raise AuthorizationDenied | Some c => mret c end.

(** [_append_status_event] *)
Definition _append_status_event context capability_id (capability_version_id : option uuid) : M unit :=
  capability ← capability_of capability_id;
  add_status_event (CapabilityStatusEvent.mk (WorkspaceContext.workspace_id context)
    (Capability.id capability) capability_version_id (Capability.status capability)
    (Capability.status_epoch capability) (WorkspaceContext.actor_user_id context)).

(** [CapabilityService._audit] *)
Definition audit_capability context (action : AuditAction.t) capability_id (correlation_id : option uuid)
    : M unit :=
  audit context action ResourceType.CAPABILITY capability_id correlation_id.

(** A stored version says what the tool says. *)
Definition same_metadata tool (v : CapabilityVersion.t) : bool :=
  eqv (CapabilityVersion.display_name v) (ToolDefinition.display_name tool)
  && eqv (CapabilityVersion.description v) (ToolDefinition.description tool)
  && Json.python_eq (CapabilityVersion.input_schema v) (ToolDefinition.input_schema tool)
  && match CapabilityVersion.output_schema v, ToolDefinition.output_schema tool with
     | None, None => true
     | Some schema, Some schema' => Json.python_eq schema schema'
     | _, _ => false
     end
  && eqv (CapabilityVersion.metadata_digest v) (ToolDefinition.metadata_digest tool)
  && eqv (CapabilityVersion.schema_supported v) (ToolDefinition.schema_supported tool).

(** [sorted(found_rows, key=sequence, reverse=True)] *)
Definition sequence_desc (a b : uuid * CapabilityVersion.t) : Prop :=
  CapabilityVersion.sequence b.2 ≤ CapabilityVersion.sequence a.2.
#[global] Instance sequence_desc_dec a b : Decision (sequence_desc a b).
Proof. unfold sequence_desc. apply _. Defined.

(** [_matching_current_version]: the enabled version first, then the pending one,
    then the others from the newest. *)
Definition _matching_current_version (capability : Capability.t) (connection_version_id : uuid) tool
    (protocol_revision : string) : M (option CapabilityVersion.t) :=
  found_rows ← gets (λ s,
    let binding_matches v :=
      match mcp_tool_bindings (flushed s) !! CapabilityVersion.id v with
      | Some b => eqv (McpToolBinding.connection_version_id b) connection_version_id
                  && eqv (McpToolBinding.tool_name b) (ToolDefinition.name tool)
                  && eqv (McpToolBinding.protocol_revision b) protocol_revision
      | None => false
      end in
    where_rows (capability_versions (flushed s)) (λ v,
      eqv (CapabilityVersion.capability_id v) (Capability.id capability)
      && eqv (CapabilityVersion.workspace_id v) (Capability.workspace_id capability)
      && eqv (CapabilityVersion.metadata_digest v) (ToolDefinition.metadata_digest tool)
      && binding_matches v));
  let current_ids := option_list (Capability.enabled_version_id capability)
                     ++ option_list (Capability.pending_version_id capability) in
  let by_id := list_to_map found_rows : gmap uuid CapabilityVersion.t in
  let historical_ids :=
    filter (λ i, i ∉ current_ids) ((merge_sort sequence_desc found_rows).*1) in
  mret (List.find (same_metadata tool) (omap (λ i, by_id !! i) (current_ids ++ historical_ids))).

(** The transition that observing a known version makes: [None] leaves the
    capability as it is. *)
Definition observe_existing (capability : Capability.t) (existing : uuid) : option Capability.t :=
  let advance c := c <| Capability.status_epoch := Capability.status_epoch c + 1 |> in
  let enabled := eqv (Some existing) (Capability.enabled_version_id capability) in
  let pending := eqv (Some existing) (Capability.pending_version_id capability) in
  let status := Capability.status capability in
  if enabled && is_some (Capability.pending_version_id capability) then
    let capability := capability <| Capability.pending_version_id := None |> in
    Some (advance (if eqv status CapabilityStatus.DISABLED then capability
                   else capability <| Capability.status := CapabilityStatus.ENABLED |>))
  else if enabled && eqv status CapabilityStatus.UNAVAILABLE then
    Some (advance (capability <| Capability.status := CapabilityStatus.ENABLED |>))
  else if eqv status CapabilityStatus.UNAVAILABLE && pending then
    Some (advance (capability <| Capability.status := CapabilityStatus.PENDING_REVIEW |>))
  else if negb enabled && negb pending then
    let capability := capability <| Capability.pending_version_id := Some existing |> in
    Some (advance (if eqv status CapabilityStatus.DISABLED then capability
                   else capability <| Capability.status := CapabilityStatus.PENDING_REVIEW |>))
  else None.

(** The transition that recording a new version makes. *)
Definition observe_new (version_id : uuid) (capability : Capability.t) : Capability.t :=
  let capability := capability <| Capability.pending_version_id := Some version_id |> in
  let capability :=
    if eqv (Capability.status capability) CapabilityStatus.DISABLED then capability
    else capability <| Capability.status := CapabilityStatus.PENDING_REVIEW |> in
  capability <| Capability.status_epoch := Capability.status_epoch capability + 1 |>.

(** The tail of [record_version]: the version, its binding, and the transition. *)
Definition store_version context (connection_id connection_version_id capability_id : uuid) tool
    (protocol_revision : string) (sequence : Z) (version_id : uuid) (correlation_id : option uuid) : M uuid :=
  let workspace_id := WorkspaceContext.workspace_id context in
  add_capability_version (CapabilityVersion.mk version_id workspace_id capability_id sequence
    (ToolDefinition.display_name tool) (ToolDefinition.description tool)
    (ToolDefinition.input_schema tool) (ToolDefinition.output_schema tool)
    (ToolDefinition.metadata_digest tool) (ToolDefinition.schema_supported tool)) ;;
  add_tool_binding (McpToolBinding.mk version_id capability_id workspace_id connection_id
    connection_version_id (ToolDefinition.name tool) protocol_revision) ;;
  update_capability capability_id (observe_new version_id) ;;
  flush ;;
  _append_status_event context capability_id (Some version_id) ;;
  audit_capability context AuditAction.CAPABILITY_VERSION_RECORDED capability_id correlation_id ;;
  flush ;;
  mret version_id.

(** [record_version] *)
Definition record_version context (connection_id connection_version_id : uuid)
    (expected_control_epoch expected_refresh_generation : Z) tool (protocol_revision : string)
    (correlation_id : option uuid) : M uuid :=
  require_current_role context [Role.ADMIN; Role.OPERATOR] true ;;
  lift (_validate_metadata tool protocol_revision) ;;
  let workspace_id := WorkspaceContext.workspace_id context in
  connection ← fetch_connection connection_id (λ c, eqv (ServerConnection.workspace_id c) workspace_id);
  match connection with
  | None => raise AuthorizationDenied
  | Some connection =>
      raise_if (eqv (ServerConnection.lifecycle connection) ConnectionLifecycle.DISABLED
                || negb (eqv (current_target connection) (Some connection_version_id))
                || negb (allocation_matches connection connection_version_id expected_control_epoch
                           expected_refresh_generation))
               InvalidConnectionTransition ;;
      let selected c :=
        eqv (Capability.workspace_id c) workspace_id && eqv (Capability.connection_id c) connection_id
        && eqv (Capability.tool_identity c) (ToolDefinition.identity tool) in
      known ← gets (λ s, head (where_rows (capabilities (flushed s)) selected));
      match known with
      | Some (capability_id, _) =>
          capability ← fetch_capability capability_id selected;
          match capability with
          | None => raise StaleReference
          | Some capability =>
              existing ← _matching_current_version capability connection_version_id tool protocol_revision;
              match existing with
              | Some existing =>
                  match observe_existing capability (CapabilityVersion.id existing) with
                  | Some capability' =>
                      update_capability capability_id (λ _, capability') ;;
                      _append_status_event context capability_id (Some (CapabilityVersion.id existing))
                  | None => mret tt
                  end ;;
                  mret (CapabilityVersion.id existing)
              | None =>
                  sequence ← gets (λ s, max_or_zero ((λ kv, CapabilityVersion.sequence kv.2) <$>
                    where_rows (capability_versions (flushed s))
                      (λ v, eqv (CapabilityVersion.capability_id v) capability_id)));
                  version_id ← uuid4;
                  store_version context connection_id connection_version_id capability_id tool
                    protocol_revision (sequence + 1) version_id correlation_id
              end
          end
      | None =>
          capability_id ← uuid4;
          add_capability (Capability.mk capability_id workspace_id connection_id
            (ToolDefinition.identity tool) None None CapabilityStatus.PENDING_REVIEW 0) ;;
          version_id ← uuid4;
          store_version context connection_id connection_version_id capability_id tool
            protocol_revision 1 version_id correlation_id
      end
  end.

(** [capability.pending_version_id or capability.enabled_version_id] *)
Definition decision_version (c : Capability.t) : option uuid :=
  or_else (Capability.pending_version_id c) (Capability.enabled_version_id c).

(** What [enable] requires of the rows it selects. *)
Definition enablement_ready (binding : option McpToolBinding.t) (version : option CapabilityVersion.t)
    (connection : option ServerConnection.t) (observed : bool) : bool :=
  match binding, version, connection with
  | Some b, Some v, Some c =>
      CapabilityVersion.schema_supported v && observed
      && eqv (McpToolBinding.protocol_revision b) QUALIFIED_PROTOCOL_REVISION
      && is_executable c (McpToolBinding.connection_version_id b)
  | _, _, _ => false
  end.

(** [CapabilityService.enable] *)
Definition enable_capability context capability_id (expected_version_id : uuid)
    (correlation_id : option uuid) : M uuid :=
  require_current_role context [Role.ADMIN; Role.OPERATOR] true ;;
  capability ← _locked_capability context capability_id;
  raise_if (negb (eqv (decision_version capability) (Some expected_version_id))
            || eqv (Capability.status capability) CapabilityStatus.ENABLED)
           InvalidCapabilityTransition ;;
  let workspace_id := WorkspaceContext.workspace_id context in
  binding ← fetch mcp_tool_bindings expected_version_id (λ b,
    eqv (McpToolBinding.capability_id b) (Capability.id capability)
    && eqv (McpToolBinding.workspace_id b) workspace_id);
  version ← fetch capability_versions expected_version_id (λ v,
    eqv (CapabilityVersion.capability_id v) (Capability.id capability)
    && eqv (CapabilityVersion.workspace_id v) workspace_id);
  connection ← fetch_connection (Capability.connection_id capability)
    (λ c, eqv (ServerConnection.workspace_id c) workspace_id);
  observed ← match connection, binding with
             | Some c, Some b =>
                 select_observed workspace_id (Capability.connection_id capability)
                   (McpToolBinding.connection_version_id b) (ServerConnection.current_snapshot_id c)
                   expected_version_id
             | _, _ => mret false
             end;
  raise_if (negb (enablement_ready binding version connection observed)) InvalidCapabilityTransition ;;
  update_capability capability_id (λ c,
    c <| Capability.enabled_version_id := Some expected_version_id |>
      <| Capability.pending_version_id := None |>
      <| Capability.status := CapabilityStatus.ENABLED |>
      <| Capability.status_epoch := Capability.status_epoch c + 1 |>) ;;
  _append_status_event context capability_id (Some expected_version_id) ;;
  audit_capability context AuditAction.CAPABILITY_ENABLED capability_id correlation_id ;;
  flush ;;
  mret capability_id.

(** [CapabilityService.disable] *)
Definition disable_capability context capability_id (expected_version_id : uuid)
    (correlation_id : option uuid) : M uuid :=
  require_current_role context [Role.ADMIN; Role.OPERATOR] true ;;
  capability ← _locked_capability context capability_id;
  raise_if (eqv (Capability.status capability) CapabilityStatus.DISABLED
            || negb (eqv (decision_version capability) (Some expected_version_id)))
           InvalidCapabilityTransition ;;
  update_capability capability_id (λ c,
    c <| Capability.status := CapabilityStatus.DISABLED |>
      <| Capability.status_epoch := Capability.status_epoch c + 1 |>) ;;
  _append_status_event context capability_id (decision_version capability) ;;
  audit_capability context AuditAction.CAPABILITY_DISABLED capability_id correlation_id ;;
  flush ;;
  mret capability_id.
End capabilities.
