(* ===== verification/Discovery.v ===== *)
(** Refresh leasing and publication of discoveries: registry/discovery.py. *)
From S2P Require Import Prelude Types Json PyStr Secrets Screening Store Session Registry Identity Connection.
From S2P Require Import Capabilities.
From stdpp Require Import strings.
Local Open Scope Z_scope.

Module RefreshLease.
Record t := mk {
  job_id : uuid; actor_user_id : uuid; worker_id : string; lease_epoch : Z; connection_id : uuid;
  connection_version_id : uuid; control_epoch : Z; generation : Z }.
End RefreshLease.

(** [mcp_adapter.client.DiscoveryResult]; of [canonical_bytes] only the length is
    used here. *)
Module DiscoveryResult.
Record t := mk {
  protocol_revision : string; tools : list ToolDefinition.t; normalized_payload : Json.t;
  canonical_length : Z; canonical_digest : string }.
End DiscoveryResult.

Definition lease_rejected {A} : M A := raise InvalidConnectionTransition.

(** [populate_existing] on a refresh job. *)
Definition fetch_refresh_job (id : uuid) (P : DiscoveryRefreshJob.t → bool)
    : M (option DiscoveryRefreshJob.t) :=
  found ← gets (λ s, discovery_refresh_jobs (flushed s) !! id);
  match found with
  | Some j => if P j then update_refresh_job id (λ _, j) ;; mret (Some j) else mret None
  | None => mret None
  end.

(** [job.status = ...; job.lease_owner = None; job.lease_expires_at = None] *)
Definition settle (status : RefreshJobStatus.t) (j : DiscoveryRefreshJob.t) : DiscoveryRefreshJob.t :=
  j <| DiscoveryRefreshJob.status := status |>
    <| DiscoveryRefreshJob.lease_owner := None |>
    <| DiscoveryRefreshJob.lease_expires_at := None |>.

(** The fences of [_lock_eligible_connection]. *)
Definition eligible (connection_version_id : uuid) (control_epoch generation : Z)
    (c : ServerConnection.t) : bool :=
  refreshable (ServerConnection.lifecycle c)
  && eqv (current_target c) (Some connection_version_id)
  && allocation_matches c connection_version_id control_epoch generation.

Section discovery.
Context `{Patterns}.
Implicit Types (context : WorkspaceContext.t) (lease : RefreshLease.t).

(** [_lock_eligible_connection] *)
Definition _lock_eligible_connection context (connection_id connection_version_id : uuid)
    (control_epoch generation : Z) : M ServerConnection.t :=
  connection ← fetch_connection connection_id
    (λ c, eqv (ServerConnection.workspace_id c) (WorkspaceContext.workspace_id context));
  match connection with
  | None => raise AuthorizationDenied
  | Some c =>
      raise_if (negb (eligible connection_version_id control_epoch generation c))
               InvalidConnectionTransition ;;
      mret c
  end.

Definition lock_lease_connection context lease : M ServerConnection.t :=
  _lock_eligible_connection context (RefreshLease.connection_id lease)
    (RefreshLease.connection_version_id lease) (RefreshLease.control_epoch lease)
    (RefreshLease.generation lease).

(** ** [RefreshJobService] *)

(** [enqueue] *)
Definition enqueue context (connection_id : uuid) : M uuid :=
  allocated ← allocate_refresh_generation context connection_id;
  let '(generation, control_epoch, version_id) := allocated in
  let workspace_id := WorkspaceContext.workspace_id context in
  older_jobs ← gets (λ s, where_rows (discovery_refresh_jobs (flushed s))
                            (outstanding workspace_id connection_id));
  for_each older_jobs (λ kj, update_refresh_job kj.1 (settle RefreshJobStatus.OBSOLETE)) ;;
  job_id ← uuid4;
  add_refresh_job (DiscoveryRefreshJob.mk job_id workspace_id (WorkspaceContext.actor_user_id context)
    connection_id version_id generation control_epoch RefreshJobStatus.QUEUED None 0 None) ;;
  flush ;;
  mret job_id.

(** [context_for_job] *)
Definition context_for_job (job_id : uuid) : M WorkspaceContext.t :=
  job ← gets (λ s, discovery_refresh_jobs (flushed s) !! job_id);
  match job with
  | None => raise AuthorizationDenied
  | Some job =>
      membership ← select_membership (DiscoveryRefreshJob.workspace_id job)
                                     (DiscoveryRefreshJob.actor_user_id job);
      match membership with
      | None => raise AuthorizationDenied
      | Some m => mret (WorkspaceContext.mk (DiscoveryRefreshJob.workspace_id job)
                          (DiscoveryRefreshJob.actor_user_id job) (WorkspaceMembership.role m))
      end
  end.

(** [job.status == QUEUED or (job.status == LEASED and expires_at <= claimed_at)] *)
Definition reclaimable (claimed_at : instant) (j : DiscoveryRefreshJob.t) : bool :=
  eqv (DiscoveryRefreshJob.status j) RefreshJobStatus.QUEUED
  || eqv (DiscoveryRefreshJob.status j) RefreshJobStatus.LEASED
     && match DiscoveryRefreshJob.lease_expires_at j with
        | Some expires_at => expires_at <=? claimed_at
        | None => false
        end.

(** [claim] *)
Definition claim context (job_id : uuid) (worker_id : string) (lease_duration : Z) : M RefreshLease.t :=
  require_current_role context [Role.ADMIN; Role.OPERATOR] true ;;
  raise_if (falsy worker_id || (128 <? slen worker_id) || (lease_duration <=? 0)) ValueError ;;
  job ← fetch_refresh_job job_id (λ j,
    eqv (DiscoveryRefreshJob.workspace_id j) (WorkspaceContext.workspace_id context)
    && eqv (DiscoveryRefreshJob.actor_user_id j) (WorkspaceContext.actor_user_id context));
  match job with
  | None => raise AuthorizationDenied
  | Some job =>
      claimed_at ← durable_now;
      raise_if (negb (reclaimable claimed_at job)) InvalidConnectionTransition ;;
      _lock_eligible_connection context (DiscoveryRefreshJob.connection_id job)
        (DiscoveryRefreshJob.connection_version_id job) (DiscoveryRefreshJob.control_epoch job)
        (DiscoveryRefreshJob.generation job) ;;
      update_refresh_job job_id (λ j,
        j <| DiscoveryRefreshJob.status := RefreshJobStatus.LEASED |>
          <| DiscoveryRefreshJob.lease_owner := Some worker_id |>
          <| DiscoveryRefreshJob.lease_epoch := DiscoveryRefreshJob.lease_epoch j + 1 |>
          <| DiscoveryRefreshJob.lease_expires_at := Some (claimed_at + lease_duration) |>) ;;
      flush ;;
      mret (RefreshLease.mk job_id (DiscoveryRefreshJob.actor_user_id job) worker_id
              (DiscoveryRefreshJob.lease_epoch job + 1) (DiscoveryRefreshJob.connection_id job)
              (DiscoveryRefreshJob.connection_version_id job) (DiscoveryRefreshJob.control_epoch job)
              (DiscoveryRefreshJob.generation job))
  end.

(** [claim_durable] *)
Definition claim_durable (job_id : uuid) (worker_id : string) (lease_duration : Z)
    : M (WorkspaceContext.t * RefreshLease.t) :=
  context ← context_for_job job_id;
  lease ← claim context job_id worker_id lease_duration;
  mret (context, lease).

(** The row still carries the lease. *)
Definition lease_current context lease (j : DiscoveryRefreshJob.t) : bool :=
  eqv (DiscoveryRefreshJob.workspace_id j) (WorkspaceContext.workspace_id context)
  && eqv (DiscoveryRefreshJob.actor_user_id j) (WorkspaceContext.actor_user_id context)
  && eqv (DiscoveryRefreshJob.actor_user_id j) (RefreshLease.actor_user_id lease)
  && eqv (DiscoveryRefreshJob.status j) RefreshJobStatus.LEASED
  && eqv (DiscoveryRefreshJob.lease_owner j) (Some (RefreshLease.worker_id lease))
  && (DiscoveryRefreshJob.lease_epoch j =? RefreshLease.lease_epoch lease)
  && eqv (DiscoveryRefreshJob.connection_id j) (RefreshLease.connection_id lease)
  && eqv (DiscoveryRefreshJob.connection_version_id j) (RefreshLease.connection_version_id lease)
  && (DiscoveryRefreshJob.control_epoch j =? RefreshLease.control_epoch lease)
  && (DiscoveryRefreshJob.generation j =? RefreshLease.generation lease).

Definition unexpired (now : instant) (j : DiscoveryRefreshJob.t) : bool :=
  match DiscoveryRefreshJob.lease_expires_at j with Some e => now <? e | None => false end.

(** [_locked_job_for_lease] *)
Definition _locked_job_for_lease context lease (require_unexpired : bool) : M DiscoveryRefreshJob.t :=
  now ← (if require_unexpired then durable_now else mret 0);
  job ← fetch_refresh_job (RefreshLease.job_id lease) (λ j,
    lease_current context lease j && (negb require_unexpired || unexpired now j));
  match job with None => lease_rejected | Some j => mret j end.

(** [renew] *)
Definition renew context lease (lease_duration : Z) : M RefreshLease.t :=
  require_current_role context [Role.ADMIN; Role.OPERATOR] true ;;
  raise_if (lease_duration <=? 0) ValueError ;;
  job ← _locked_job_for_lease context lease false;
  renewed_at ← durable_now;
  match DiscoveryRefreshJob.lease_expires_at job with
  | None => lease_rejected
  | Some expires_at =>
      raise_if (expires_at <=? renewed_at) InvalidConnectionTransition ;;
      lock_lease_connection context lease ;;
      update_refresh_job (RefreshLease.job_id lease) (λ j,
        j <| DiscoveryRefreshJob.lease_expires_at :=
               Some (Z.max expires_at (renewed_at + lease_duration)) |>) ;;
      flush ;;
      mret lease
  end.

(** [validate_for_contact] *)
Definition validate_for_contact context lease : M unit :=
  require_current_role context [Role.ADMIN; Role.OPERATOR] true ;;
  _locked_job_for_lease context lease true ;;
  lock_lease_connection context lease ;;
  mret tt.

(** ** [DiscoveryPublicationService] *)

(** [_locked_active_job] *)
Definition _locked_active_job context lease : M DiscoveryRefreshJob.t :=
  _locked_job_for_lease context lease true.

(** [_mark_missing_unavailable] *)
Definition missing (observed_identities : list string) (c : Capability.t) : bool :=
  negb (bool_decide (Capability.tool_identity c ∈ observed_identities)
        || eqv (Capability.status c) CapabilityStatus.UNAVAILABLE
        || eqv (Capability.status c) CapabilityStatus.DISABLED).

Definition mark_unavailable context (observed_identities : list string) (capability_id : uuid) : M unit :=
  capability ← capability_of capability_id;
  if missing observed_identities capability then
    update_capability capability_id (λ c,
      c <| Capability.status := CapabilityStatus.UNAVAILABLE |>
        <| Capability.status_epoch := Capability.status_epoch c + 1 |>) ;;
    _append_status_event context capability_id (decision_version capability)
  else mret tt.

Definition _mark_missing_unavailable context (connection_id : uuid) (observed_identities : list string)
    : M unit :=
  rows ← gets (λ s, where_rows (capabilities (flushed s)) (λ c,
    eqv (Capability.workspace_id c) (WorkspaceContext.workspace_id context)
    && eqv (Capability.connection_id c) connection_id));
  for_each rows (λ kc, mark_unavailable context observed_identities kc.1) ;;
  flush.

(** The stored payload of a digest, or a new one. *)
Definition store_payload context (result : DiscoveryResult.t) : M uuid :=
  let workspace_id := WorkspaceContext.workspace_id context in
  known ← gets (λ s, head (where_rows (discovery_payloads (flushed s)) (λ p,
    eqv (DiscoveryPayload.workspace_id p) workspace_id
    && eqv (DiscoveryPayload.canonical_digest p) (DiscoveryResult.canonical_digest result))));
  match known with
  | None =>
      payload_id ← uuid4;
      add_payload (DiscoveryPayload.mk payload_id workspace_id (DiscoveryResult.canonical_digest result)
        (DiscoveryResult.normalized_payload result) (DiscoveryResult.canonical_length result)) ;;
      flush ;;
      mret payload_id
  | Some (payload_id, p) =>
      raise_if (negb (DiscoveryPayload.byte_count p =? DiscoveryResult.canonical_length result)
                || negb (Json.python_eq (DiscoveryPayload.normalized_payload p)
                           (DiscoveryResult.normalized_payload result)))
               InvalidConnectionTransition ;;
      mret payload_id
  end.

(** One tool of a discovery. *)
Definition publish_tool context lease (snapshot_id : uuid) (protocol_revision : string)
    (tool : ToolDefinition.t) : M unit :=
  version_id ← record_version context (RefreshLease.connection_id lease)
    (RefreshLease.connection_version_id lease) (RefreshLease.control_epoch lease)
    (RefreshLease.generation lease) tool protocol_revision None;
  add_snapshot_capability (DiscoverySnapshotCapability.mk (WorkspaceContext.workspace_id context)
    (RefreshLease.connection_id lease) (RefreshLease.connection_version_id lease) snapshot_id version_id).

(** [publish_success] *)
Definition publish_success context lease (result : DiscoveryResult.t) : M uuid :=
  require_current_role context [Role.ADMIN; Role.OPERATOR] true ;;
  _locked_active_job context lease ;;
  connection ← lock_lease_connection context lease;
  payload_id ← store_payload context result;
  snapshot_id ← uuid4;
  let connection_id := RefreshLease.connection_id lease in
  let version_id := RefreshLease.connection_version_id lease in
  add_snapshot (DiscoverySnapshot.mk snapshot_id (WorkspaceContext.workspace_id context) connection_id
    version_id payload_id (RefreshLease.generation lease) (RefreshLease.control_epoch lease)
    (DiscoveryResult.protocol_revision result)) ;;
  flush ;;
  for_each (DiscoveryResult.tools result)
    (publish_tool context lease snapshot_id (DiscoveryResult.protocol_revision result)) ;;
  _mark_missing_unavailable context connection_id
    (ToolDefinition.identity <$> DiscoveryResult.tools result) ;;
  connection ← connection_of connection_id;
  (if is_some (ServerConnection.pending_version_id connection)
   then promote_pending context connection_id version_id (RefreshLease.control_epoch lease)
          (RefreshLease.generation lease) None
   else complete_refresh context connection_id version_id (RefreshLease.control_epoch lease)
          (RefreshLease.generation lease)) ;;
  now ← durable_now;
  update_connection connection_id (λ c,
    c <| ServerConnection.current_snapshot_id := Some snapshot_id |>
      <| ServerConnection.last_refresh_error_code := None |>
      <| ServerConnection.last_refresh_at := Some now |>) ;;
  update_refresh_job (RefreshLease.job_id lease) (settle RefreshJobStatus.SUCCEEDED) ;;
  flush ;;
  mret snapshot_id.

(** [publish_failure] *)
Definition publish_failure context lease (error_code : DiscoveryFailureCode.t) : M unit :=
  require_current_role context [Role.ADMIN; Role.OPERATOR] true ;;
  _locked_active_job context lease ;;
  lock_lease_connection context lease ;;
  now ← durable_now;
  update_connection (RefreshLease.connection_id lease) (λ c,
    release_allocation
      (c <| ServerConnection.lifecycle := ConnectionLifecycle.DEGRADED |>
         <| ServerConnection.last_refresh_error_code := Some error_code |>
         <| ServerConnection.last_refresh_at := Some now |>)) ;;
  update_refresh_job (RefreshLease.job_id lease) (settle RefreshJobStatus.FAILED) ;;
  flush.
End discovery.
