(* ===== verification/Ledger.v ===== *)
(** The execution ledger: the service object of execution/service.py, the
    primitives that append events and terminalize runs, the row locks of a
    lease, and the replay of an event history. *)
From S2P Require Import Prelude Types Json PyStr Store Session Identity.
Local Open Scope Z_scope.


(** ** The service object *)

Module ExecutionService.
Record t := mk {
  limits : ExecutionLimits.t;
  confirmation_keys : list HmacKeyVersion.t;
  idempotency_keys : list HmacKeyVersion.t;
  has_system_authority : bool }.
End ExecutionService.

(** ** Ledger primitives *)

(** [_append_event]; [UniqueConstraint("run_id", "sequence")] rejects a
    duplicate at the next flush. *)
Definition _append_event (run : uuid) (event_type : RunEventType.t) (status : RunStatus.t)
    (safe_error_code : option RunFailureCode.t) (now : instant) (sequence : Z) : M unit :=
  r ← run_of run;
  flag_conflict (λ s, existsb (λ e, eqv (RunEvent.run_id e) run && (RunEvent.sequence e =? sequence))
                        (ExecutionDb.run_events (Db.execution (work s)))) ;;
  put_execution (λ d, d <| ExecutionDb.run_events := ExecutionDb.run_events d ++
    [RunEvent.mk (Run.workspace_id r) run sequence event_type status safe_error_code now] |>).

(** Events of a run, in insertion order. *)
Definition events_of (run : uuid) (d : ExecutionDb.t) : list RunEvent.t :=
  filter (λ e, RunEvent.run_id e = run) (ExecutionDb.run_events d).

(** [select(func.max(...))]: [None] on no rows. *)
Definition max_of (l : list Z) : option Z :=
  match l with [] => None | x :: l => Some (foldr Z.max x l) end.

(** [_append_next_event]: the successor of the greatest flushed sequence. *)
Definition _append_next_event (run : uuid) (event_type : RunEventType.t) (status : RunStatus.t)
    (safe_error_code : option RunFailureCode.t) (now : instant) : M unit :=
  sequence ← gets (λ s, max_of (RunEvent.sequence <$> events_of run (flushed_execution s)));
  _append_event run event_type status safe_error_code now (default 0 sequence + 1).

(** [select(Job).where(Job.run_id == run.id)] *)
Definition job_for_run (run : uuid) : M (option uuid) :=
  gets (λ s, fst <$> head (where_rows (ExecutionDb.jobs (flushed_execution s))
                             (λ j, eqv (Job.run_id j) run))).

(** [_active_attempt]: [ORDER BY sequence DESC LIMIT 1]. *)
Definition _active_attempt (run : uuid) : M (option uuid) :=
  gets (λ s, fst <$> head (order_by (λ a, - RunAttempt.sequence a)
    (where_rows (ExecutionDb.run_attempts (flushed_execution s))
       (λ a, eqv (RunAttempt.run_id a) run && RunAttempt.active (RunAttempt.status a))))).

(** [JobStatus(status.value)] *)
Definition job_status_of (status : RunStatus.t) : M JobStatus.t :=
  match JobStatus.of_value (RunStatus.value status) with
  | Some j => mret j
  | None => raise ValueError
  end.

(** [_terminalize_run] *)
Definition _terminalize_run (run : uuid) (status : RunStatus.t) (now : instant)
    (safe_error_code : RunFailureCode.t) (event_type : RunEventType.t) : M unit :=
  update_run run (λ r, r <| Run.status := status |>
                         <| Run.safe_error_code := Some safe_error_code |>
                         <| Run.updated_at := now |>
                         <| Run.terminal_at := Some now |>) ;;
  job ← job_for_run run;
  (match job with
   | None => mret tt
   | Some job =>
       job_status ← job_status_of status;
       update_job job (λ j, j <| Job.status := job_status |>
                              <| Job.lease_owner := None |>
                              <| Job.lease_expires_at := None |>
                              <| Job.completed_at := Some now |>)
   end) ;;
  attempt ← _active_attempt run;
  (match attempt with
   | None => mret tt
   | Some attempt =>
       update_attempt attempt (λ a, a <| RunAttempt.status := status |>
                                      <| RunAttempt.safe_error_code := Some safe_error_code |>
                                      <| RunAttempt.terminal_at := Some now |>)
   end) ;;
  _append_next_event run event_type status (Some safe_error_code) now.

(** [_execution_state]: the singleton row, created on first use.  The row lock
    orders transactions and has no effect inside one. *)
Definition _execution_state : M SystemExecutionState.t :=
  found ← gets (λ s, ExecutionDb.system_execution_state (flushed_execution s));
  match found with
  | Some _ =>
      held ← gets (λ s, ExecutionDb.system_execution_state (Db.execution (work s)));
      match held with Some st => mret st | None => raise StaleReference end
  | None =>
      now ← durable_now;
      let st := SystemExecutionState.mk 1 false now in
      put_execution (λ d, d <| ExecutionDb.system_execution_state := Some st |>) ;;
      flush ;;
      mret st
  end.

Definition update_execution_state (f : SystemExecutionState.t → SystemExecutionState.t) : M unit :=
  put_execution (λ d, d <| ExecutionDb.system_execution_state :=
    f <$> ExecutionDb.system_execution_state d |>).

Definition invalid_transition : exn := ExecutionError ExecutionFailureCode.INVALID_TRANSITION.

(** [_locked_run] *)
Definition _locked_run (workspace_id run_id : uuid) : M uuid :=
  run ← gets (λ s, by_id (ExecutionDb.runs (flushed_execution s)) run_id
                     (λ r, eqv (Run.workspace_id r) workspace_id));
  match run with
  | Some run => mret run
  | None => raise invalid_transition
  end.

Definition lease_lost {A} : M A := raise (ExecutionError ExecutionFailureCode.LEASE_LOST).

(** [_locked_job] *)
Definition _locked_job (lease : JobLease.t) : M uuid :=
  job ← gets (λ s, by_id (ExecutionDb.jobs (flushed_execution s)) (JobLease.job_id lease)
                     (λ j, eqv (Job.workspace_id j) (JobLease.workspace_id lease)));
  match job with
  | None => lease_lost
  | Some job =>
      j ← job_of job;
      if eqv (Job.run_id j) (JobLease.run_id lease) then mret job else lease_lost
  end.

(** [_locked_lease_lineage] *)
Definition _locked_lease_lineage (lease : JobLease.t) : M (uuid * uuid) :=
  lineage ← gets (λ s,
    match ExecutionDb.jobs (flushed_execution s) !! JobLease.job_id lease with
    | Some j => if eqv (Job.workspace_id j) (JobLease.workspace_id lease)
                then Some (Job.workspace_id j, Job.run_id j) else None
    | None => None
    end);
  match lineage with
  | None => lease_lost
  | Some (workspace_id, run_id) =>
      if negb (eqv run_id (JobLease.run_id lease)) then lease_lost else
      run ← gets (λ s, by_id (ExecutionDb.runs (flushed_execution s)) run_id
                         (λ r, eqv (Run.workspace_id r) workspace_id));
      match run with
      | None => lease_lost
      | Some run => job ← _locked_job lease; mret (run, job)
      end
  end.

(** ** Event replay *)

Definition sequence_le (a b : RunEvent.t) : Prop := RunEvent.sequence a ≤ RunEvent.sequence b.
#[global] Instance sequence_le_dec a b : Decision (sequence_le a b).
Proof. unfold sequence_le. apply _. Defined.

(** The loop of [replay_projection] over the sorted events. *)
Fixpoint replay_loop (expected_sequence : Z) (current : RunStatus.t) (events : list RunEvent.t)
    : result exn RunStatus.t :=
  match events with
  | [] => Ok current
  | event :: events =>
      if negb (RunEvent.sequence event =? expected_sequence) then Err ValueError
      else replay_loop (expected_sequence + 1) (RunEvent.status event) events
  end.

(** [replay_projection] *)
Definition replay_projection (events : list RunEvent.t) : result exn RunStatus.t :=
  match events with
  | [] => Err ValueError
  | _ => replay_loop 1 RunStatus.QUEUED (merge_sort sequence_le events)
  end.
