(* ===== verification/Lease.v ===== *)
(** Worker leasing and the invocation fences of execution/service.py:
    [claim_job], [heartbeat], [fence_session], [fence_dispatch],
    [complete_lease] and [cancel_run]. *)
From S2P Require Import Prelude Types Json PyStr Store Session Registry Identity Ledger.
Local Open Scope Z_scope.

(** ** The configuration a run is pinned to *)

Module Target.
Record t := mk {
  membership : option WorkspaceMembership.t;
  capability : option Capability.t;
  connection : option ServerConnection.t;
  observed : bool;
  binding : bool }.
End Target.

Definition fetch_membership (workspace_id user_id : uuid) : M (option WorkspaceMembership.t) :=
  gets (λ s,
    let key := (workspace_id, user_id) in
    match IdentityDb.workspace_memberships (flushed_identity s) !! key with
    | Some _ => IdentityDb.workspace_memberships (Db.identity (work s)) !! key
    | None => None
    end).

(** The loads shared by [_fence_attempt] and [_claim_target_is_current]. *)
Definition load_run_target (r : Run.t) : M Target.t :=
  let workspace_id := Run.workspace_id r in
  membership ← fetch_membership workspace_id (Run.actor_user_id r);
  capability ← fetch capabilities (Run.capability_id r)
                 (λ c, eqv (Capability.workspace_id c) workspace_id);
  connection ← fetch server_connections (Run.connection_id r)
                 (λ c, eqv (ServerConnection.workspace_id c) workspace_id);
  observed ← match connection with
             | None => mret false
             | Some c => select_observed workspace_id (Run.connection_id r)
                 (Run.connection_version_id r) (ServerConnection.current_snapshot_id c)
                 (Run.capability_version_id r)
             end;
  binding ← fetch mcp_tool_bindings (Run.capability_version_id r) (λ b,
      eqv (McpToolBinding.workspace_id b) workspace_id
      && eqv (McpToolBinding.capability_id b) (Run.capability_id r)
      && eqv (McpToolBinding.connection_id b) (Run.connection_id r)
      && eqv (McpToolBinding.connection_version_id b) (Run.connection_version_id r)
      && eqv (McpToolBinding.protocol_revision b) (Run.protocol_revision r));
  mret (Target.mk membership capability connection observed (is_some binding)).

(** The conjunction of [_claim_target_is_current]; the same tests, negated, are
    part of the guard of [_fence_attempt]. *)
Definition target_current (r : Run.t) (t : Target.t) : bool :=
  eqv (Run.protocol_revision r) QUALIFIED_PROTOCOL_REVISION
  && match Target.membership t with
     | None => false
     | Some m => bool_decide (WorkspaceMembership.role m ∈ [Role.ADMIN; Role.OPERATOR])
     end
  && match Target.capability t with
     | None => false
     | Some c =>
         eqv (Capability.status c) CapabilityStatus.ENABLED
         && eqv (Capability.enabled_version_id c) (Some (Run.capability_version_id r))
         && is_none (Capability.pending_version_id c)
         && (Capability.status_epoch c =? Run.capability_status_epoch r)
     end
  && match Target.connection t with
     | None => false
     | Some c =>
         eqv (ServerConnection.lifecycle c) ConnectionLifecycle.ACTIVE
         && is_none (ServerConnection.pending_version_id c)
         && eqv (ServerConnection.verified_version_id c) (Some (Run.connection_version_id r))
         && (ServerConnection.control_epoch c =? Run.connection_control_epoch r)
     end
  && Target.observed t
  && Target.binding t.

(** [_claim_target_is_current] *)
Definition _claim_target_is_current (run : uuid) : M bool :=
  r ← run_of run;
  workspace_id ← select_workspace (Run.workspace_id r);
  t ← load_run_target r;
  mret (is_some workspace_id && target_current r t).

(** ** Leases *)

Section leases.
Context (self : ExecutionService.t).
Implicit Types (lease : JobLease.t) (run job : uuid) (now : instant).

Definition reconciled_job run job (status : RunStatus.t) : M ReconciledJob.t :=
  r ← run_of run;
  j ← job_of job;
  mret (ReconciledJob.mk job run (Run.workspace_id r) (Run.correlation_id r)
          (Job.lease_epoch j) status).

(** Rows of [select(Run, Job).join(...)] that satisfy a [WHERE] clause, with
    runs locked by other transactions skipped, in [ORDER BY column, Job.id]
    order. *)
Definition joined_rows (P : Run.t → Job.t → bool) (column : Job.t → Z) (env : Env)
    (d : ExecutionDb.t) : list (uuid * uuid) :=
  omap (λ kj,
      let '(job, j) := kj in
      match ExecutionDb.runs d !! Job.run_id j with
      | Some r =>
          if eqv (Job.workspace_id j) (Run.workspace_id r) && P r j
             && negb (row_locked env (Job.run_id j))
          then Some (Job.run_id j, job) else None
      | None => None
      end)
    (order_by column (map_to_list (ExecutionDb.jobs d))).

Definition select_joined (P : Run.t → Job.t → bool) (column : Job.t → Z) (limit : nat)
    : M (list (uuid * uuid)) :=
  λ env s, Ok (take limit (joined_rows P column env (flushed_execution s)), s).

Definition batch_limit : nat :=
  Z.to_nat (ExecutionLimits.reconciliation_batch_size (ExecutionService.limits self)).

Fixpoint map_rows {A B} (l : list A) (body : A → M B) : M (list B) :=
  match l with
  | [] => mret []
  | x :: l => y ← body x; ys ← map_rows l body; mret (y :: ys)
  end.

(** The status of a run whose deadline passed. *)
Definition deadline_status (status : RunStatus.t) : RunStatus.t :=
  if eqv status RunStatus.DISPATCH_FENCED then RunStatus.INDETERMINATE else RunStatus.TIMED_OUT.

Definition job_open (j : Job.t) : bool :=
  eqv (Job.status j) JobStatus.QUEUED || eqv (Job.status j) JobStatus.LEASED.

(** [_terminalize_expired_jobs] *)
Definition _terminalize_expired_jobs now : M (list ReconciledJob.t) :=
  rows ← select_joined (λ _ j, job_open j && (Job.deadline j <=? now)) Job.deadline batch_limit;
  map_rows rows (λ row,
    let '(run, job) := row in
    r ← run_of run;
    let status := deadline_status (Run.status r) in
    _terminalize_run run status now RunFailureCode.DEADLINE_EXCEEDED RunEventType.TERMINAL ;;
    reconciled_job run job status).

Definition lease_expired (j : Job.t) now : bool :=
  match Job.lease_expires_at j with Some e => e <=? now | None => false end.

(** [_terminalize_abandoned_dispatches] *)
Definition _terminalize_abandoned_dispatches now : M (list ReconciledJob.t) :=
  rows ← select_joined (λ r j, eqv (Job.status j) JobStatus.LEASED && lease_expired j now
                               && eqv (Run.status r) RunStatus.DISPATCH_FENCED)
           (λ j, default 0 (Job.lease_expires_at j)) batch_limit;
  reconciled ← map_rows rows (λ row,
    let '(run, job) := row in
    _terminalize_run run RunStatus.INDETERMINATE now RunFailureCode.WORKER_LOST_AFTER_DISPATCH
      RunEventType.TERMINAL ;;
    reconciled_job run job RunStatus.INDETERMINATE);
  flush ;;
  mret reconciled.

Definition claimable (execution_epoch : Z) now (r : Run.t) (j : Job.t) : bool :=
  (Job.execution_epoch j =? execution_epoch) && (Job.available_at j <=? now)
  && (now <? Job.deadline j)
  && (eqv (Run.status r) RunStatus.QUEUED || eqv (Run.status r) RunStatus.PREPARING
      || eqv (Run.status r) RunStatus.SESSION_FENCED)
  && (eqv (Job.status j) JobStatus.QUEUED
      || eqv (Job.status j) JobStatus.LEASED && lease_expired j now).

(** The tail of [claim_job]: the job is granted to [worker_id]. *)
Definition grant_lease run job (worker_id : string) (lease_duration : Z) now : M JobLease.t :=
  j ← job_of job;
  (if eqv (Job.status j) JobStatus.LEASED then
     previous ← _active_attempt run;
     match previous with
     | None => mret tt
     | Some previous =>
         update_attempt previous (λ a, a <| RunAttempt.status := RunStatus.FAILED |>
           <| RunAttempt.safe_error_code := Some RunFailureCode.WORKER_LOST_BEFORE_DISPATCH |>
           <| RunAttempt.terminal_at := Some now |>) ;;
         r ← run_of run;
         _append_next_event run RunEventType.LEASE_LOST (Run.status r)
           (Some RunFailureCode.WORKER_LOST_BEFORE_DISPATCH) now ;;
         flush
     end
   else mret tt) ;;
  let lease_epoch := Job.lease_epoch j + 1 in
  let expires_at := Z.min (now + lease_duration) (Job.deadline j) in
  update_job job (λ j, j <| Job.status := JobStatus.LEASED |>
                         <| Job.lease_owner := Some worker_id |>
                         <| Job.lease_epoch := lease_epoch |>
                         <| Job.lease_expires_at := Some expires_at |>) ;;
  latest_attempt ← gets (λ s, max_of ((λ kr, RunAttempt.sequence kr.2) <$>
    where_rows (ExecutionDb.run_attempts (flushed_execution s))
               (λ a, eqv (RunAttempt.run_id a) run)));
  r ← run_of run;
  id ← uuid4;
  flag_conflict (λ s,
    let attempts := ExecutionDb.run_attempts (Db.execution (work s)) in
    is_some (attempts !! id)
    || existsb (λ ka, eqv (RunAttempt.run_id ka.2) run
         && ((RunAttempt.sequence ka.2 =? default 0 latest_attempt + 1)
             || RunAttempt.active (RunAttempt.status ka.2))) (map_to_list attempts)) ;;
  put_execution (λ d, d <| ExecutionDb.run_attempts :=
    <[id := RunAttempt.mk id (Run.workspace_id r) run job (default 0 latest_attempt + 1)
              lease_epoch RunStatus.PREPARING now None None]> (ExecutionDb.run_attempts d) |>) ;;
  update_run run (λ r, r <| Run.status := RunStatus.PREPARING |> <| Run.updated_at := now |>) ;;
  _append_next_event run RunEventType.ATTEMPT_STARTED RunStatus.PREPARING None now ;;
  flush ;;
  r ← run_of run;
  j ← job_of job;
  mret (JobLease.mk job (Job.run_id j) (Job.workspace_id j) (Run.correlation_id r) worker_id
          (Job.lease_epoch j) (Job.execution_epoch j) expires_at).

(** An early exit of [claim_job] that ends the run. *)
Definition claim_terminalizes run job (status : RunStatus.t) (code : RunFailureCode.t) now
    : M (option JobLease.t * list ReconciledJob.t) :=
  _terminalize_run run status now code RunEventType.TERMINAL ;;
  reconciled ← reconciled_job run job status;
  flush ;;
  mret (None, [reconciled]).

(** [claim_job]: the lease, if any, and the jobs reconciled on the way (the
    list the caller passes to be extended). *)
Definition claim_job (worker_id : string) (lease_duration : Z)
    : M (option JobLease.t * list ReconciledJob.t) :=
  raise_if (falsy worker_id || (128 <? slen worker_id) || (lease_duration <=? 0)) ValueError ;;
  now ← durable_now;
  state ← _execution_state;
  raise_if (SystemExecutionState.dispatch_quarantined state)
           (ExecutionError ExecutionFailureCode.DISPATCH_QUARANTINED) ;;
  expired ← _terminalize_expired_jobs now;
  flush ;;
  abandoned ← _terminalize_abandoned_dispatches now;
  let reconciled := expired ++ abandoned in
  rows ← select_joined (claimable (SystemExecutionState.execution_epoch state) now)
           Job.created_at 1;
  match rows with
  | [] => mret (None, reconciled)
  | (run, _) :: _ =>
      found ← job_for_run run;
      match found with
      | None => mret (None, reconciled)
      | Some job =>
          now ← durable_now;
          j ← job_of job;
          if Job.deadline j <=? now then
            '(lease, more) ← claim_terminalizes run job RunStatus.TIMED_OUT
                               RunFailureCode.DEADLINE_EXCEEDED now;
            mret (lease, reconciled ++ more)
          else
            target_is_current ← _claim_target_is_current run;
            now ← durable_now;
            if Job.deadline j <=? now then
              '(lease, more) ← claim_terminalizes run job RunStatus.TIMED_OUT
                                 RunFailureCode.DEADLINE_EXCEEDED now;
              mret (lease, reconciled ++ more)
            else if negb target_is_current then
              '(lease, more) ← claim_terminalizes run job RunStatus.FAILED
                                 RunFailureCode.PREPARATION_FAILED now;
              mret (lease, reconciled ++ more)
            else
              lease ← grant_lease run job worker_id lease_duration now;
              mret (Some lease, reconciled)
      end
  end.
End leases.

(** ** Fences, heartbeats, completion, cancellation *)

Section worker.
Context (self : ExecutionService.t).
Implicit Types (lease : JobLease.t) (run job : uuid) (now : instant).

(** [job.status != LEASED or job.lease_owner != ... or job.lease_epoch != ...
    or job.lease_expires_at is None], negated. *)
Definition holds_lease lease (j : Job.t) : bool :=
  eqv (Job.status j) JobStatus.LEASED
  && eqv (Job.lease_owner j) (Some (JobLease.worker_id lease))
  && (Job.lease_epoch j =? JobLease.lease_epoch lease)
  && is_some (Job.lease_expires_at j).

Definition lease_unexpired (j : Job.t) now : bool :=
  match Job.lease_expires_at j with Some e => now <? e | None => false end.

(** The guard of [_fence_attempt], negated. *)
Definition fence_allowed (state : SystemExecutionState.t) lease (r : Run.t) (j : Job.t)
    (t : Target.t) (attempt : option RunAttempt.t) (expected : RunStatus.t) now : bool :=
  negb (SystemExecutionState.dispatch_quarantined state)
  && (SystemExecutionState.execution_epoch state =? JobLease.execution_epoch lease)
  && (Job.execution_epoch j =? JobLease.execution_epoch lease)
  && holds_lease lease j
  && lease_unexpired j now
  && (now <? Job.deadline j)
  && negb (Run.cancellation_requested r)
  && eqv (Run.status r) expected
  && target_current r t
  && match attempt with
     | None => false
     | Some a => (RunAttempt.lease_epoch a =? JobLease.lease_epoch lease)
                 && eqv (RunAttempt.status a) expected
     end.

(** [_fence_attempt] *)
Definition _fence_attempt lease (expected target : RunStatus.t) (event_type : RunEventType.t)
    : M uuid :=
  state ← _execution_state;
  lineage ← gets (λ s, by_id (ExecutionDb.jobs (flushed_execution s)) (JobLease.job_id lease)
    (λ j, eqv (Job.workspace_id j) (JobLease.workspace_id lease)
          && eqv (Job.run_id j) (JobLease.run_id lease)));
  match lineage with
  | None => lease_lost
  | Some _ =>
      '(run, job) ← _locked_lease_lineage lease;
      workspace_id ← select_workspace (JobLease.workspace_id lease);
      match workspace_id with
      | None => lease_lost
      | Some _ =>
          r ← run_of run;
          j ← job_of job;
          t ← load_run_target r;
          attempt ← _active_attempt run;
          a ← match attempt with
              | None => mret None
              | Some attempt => a ← attempt_of attempt; mret (Some a)
              end;
          now ← durable_now;
          match attempt with
          | Some attempt =>
              if fence_allowed state lease r j t a expected now then
                update_run run (λ r, r <| Run.status := target |> <| Run.updated_at := now |>) ;;
                update_attempt attempt (λ a, a <| RunAttempt.status := target |>) ;;
                _append_next_event run event_type target None now ;;
                flush ;;
                mret run
              else lease_lost
          | None => lease_lost
          end
      end
  end.

(** [fence_session] and [fence_dispatch] *)
Definition fence_session lease : M uuid :=
  _fence_attempt lease RunStatus.PREPARING RunStatus.SESSION_FENCED RunEventType.SESSION_FENCED.
Definition fence_dispatch lease : M uuid :=
  _fence_attempt lease RunStatus.SESSION_FENCED RunStatus.DISPATCH_FENCED
    RunEventType.DISPATCH_FENCED.

(** [heartbeat] *)
Definition heartbeat lease (lease_duration : Z) : M JobLease.t :=
  raise_if (lease_duration <=? 0) ValueError ;;
  state ← _execution_state;
  '(run, job) ← _locked_lease_lineage lease;
  now ← durable_now;
  r ← run_of run;
  j ← job_of job;
  raise_if (SystemExecutionState.dispatch_quarantined state
            || negb (SystemExecutionState.execution_epoch state =? JobLease.execution_epoch lease)
            || negb (holds_lease lease j)
            || negb (lease_unexpired j now)
            || (Job.deadline j <=? now)) (ExecutionError ExecutionFailureCode.LEASE_LOST) ;;
  raise_if (RunStatus.terminal (Run.status r)) (ExecutionError ExecutionFailureCode.LEASE_LOST) ;;
  let expires_at := Z.min (now + lease_duration) (Job.deadline j) in
  update_job job (λ j, j <| Job.lease_expires_at := Some expires_at |>) ;;
  flush ;;
  mret (JobLease.mk job (Job.run_id j) (Job.workspace_id j) (JobLease.correlation_id lease)
          (JobLease.worker_id lease) (JobLease.lease_epoch lease)
          (JobLease.execution_epoch lease) expires_at).

(** [_valid_worker_completion] *)
Definition _valid_worker_completion (r : Run.t) (a : RunAttempt.t) (status : RunStatus.t)
    (safe_error_code : option RunFailureCode.t) : bool :=
  let source := Run.status r in
  eqv (RunAttempt.status a) source &&
  match status with
  | RunStatus.SUCCEEDED =>
      eqv source RunStatus.DISPATCH_FENCED && is_none safe_error_code
  | RunStatus.FAILED =>
      match source, safe_error_code with
      | RunStatus.PREPARING, Some RunFailureCode.PREPARATION_FAILED => true
      | RunStatus.SESSION_FENCED, Some RunFailureCode.SESSION_INITIALIZATION_FAILED => true
      | RunStatus.DISPATCH_FENCED,
          Some (RunFailureCode.TOOL_CALL_FAILED | RunFailureCode.INVALID_TOOL_RESULT
                | RunFailureCode.UNSUPPORTED_TOOL_RESULT
                | RunFailureCode.SENSITIVE_TOOL_RESULT) => true
      | _, _ => false
      end
  | RunStatus.CANCELLED =>
      Run.cancellation_requested r
      && (eqv source RunStatus.PREPARING || eqv source RunStatus.SESSION_FENCED)
      && eqv safe_error_code (Some RunFailureCode.CANCELLED_BEFORE_DISPATCH)
  | RunStatus.INDETERMINATE =>
      eqv source RunStatus.DISPATCH_FENCED
      && eqv safe_error_code (Some RunFailureCode.UPSTREAM_OUTCOME_UNKNOWN)
  | _ => false
  end.

(** [complete_lease] *)
Definition complete_lease lease (status : RunStatus.t)
    (safe_error_code : option RunFailureCode.t) : M uuid :=
  raise_if (negb (RunStatus.terminal status)) invalid_transition ;;
  raise_if (eqv status RunStatus.SUCCEEDED && is_some safe_error_code) invalid_transition ;;
  state ← _execution_state;
  '(run, job) ← _locked_lease_lineage lease;
  now ← durable_now;
  r ← run_of run;
  j ← job_of job;
  raise_if (negb (SystemExecutionState.execution_epoch state =? JobLease.execution_epoch lease)
            || negb (holds_lease lease j)) (ExecutionError ExecutionFailureCode.LEASE_LOST) ;;
  raise_if (RunStatus.terminal (Run.status r)) invalid_transition ;;
  if Job.deadline j <=? now then
    _terminalize_run run (deadline_status (Run.status r)) now RunFailureCode.DEADLINE_EXCEEDED
      RunEventType.TERMINAL ;;
    flush ;;
    mret run
  else
    raise_if (negb (lease_unexpired j now)) (ExecutionError ExecutionFailureCode.LEASE_LOST) ;;
    attempt ← _active_attempt run;
    match attempt with
    | None => lease_lost
    | Some attempt =>
        a ← attempt_of attempt;
        raise_if (negb (RunAttempt.lease_epoch a =? JobLease.lease_epoch lease))
                 (ExecutionError ExecutionFailureCode.LEASE_LOST) ;;
        raise_if (negb (_valid_worker_completion r a status safe_error_code))
                 invalid_transition ;;
        update_run run (λ r, r <| Run.status := status |>
                               <| Run.safe_error_code := safe_error_code |>
                               <| Run.updated_at := now |>
                               <| Run.terminal_at := Some now |>) ;;
        update_attempt attempt (λ a, a <| RunAttempt.status := status |>
                                       <| RunAttempt.safe_error_code := safe_error_code |>
                                       <| RunAttempt.terminal_at := Some now |>) ;;
        job_status ← job_status_of status;
        update_job job (λ j, j <| Job.status := job_status |>
                               <| Job.lease_owner := None |>
                               <| Job.lease_expires_at := None |>
                               <| Job.completed_at := Some now |>) ;;
        _append_next_event run RunEventType.TERMINAL status safe_error_code now ;;
        flush ;;
        mret run
    end.

(** [cancel_run] *)
Definition cancel_run (context : WorkspaceContext.t) (run_id : uuid)
    (correlation_id : option uuid) : M uuid :=
  require_current_role context [Role.ADMIN; Role.OPERATOR] false ;;
  run ← _locked_run (WorkspaceContext.workspace_id context) run_id;
  require_current_role context [Role.ADMIN; Role.OPERATOR] true ;;
  r ← run_of run;
  let status := Run.status r in
  if RunStatus.terminal status then mret run else
  now ← durable_now;
  update_run run (λ r, r <| Run.cancellation_requested := true |>) ;;
  (if Run.deadline r <=? now then
     _terminalize_run run (deadline_status status) now RunFailureCode.DEADLINE_EXCEEDED
       RunEventType.TERMINAL
   else if eqv status RunStatus.QUEUED || eqv status RunStatus.PREPARING
           || eqv status RunStatus.SESSION_FENCED then
     _terminalize_run run RunStatus.CANCELLED now RunFailureCode.CANCELLED_BEFORE_DISPATCH
       RunEventType.CANCEL_REQUESTED
   else
     update_run run (λ r, r <| Run.updated_at := now |>) ;;
     _append_next_event run RunEventType.CANCEL_REQUESTED status None now) ;;
  r ← run_of run;
  audit context (if eqv (Run.status r) RunStatus.CANCELLED then AuditAction.RUN_CANCELLED
                 else AuditAction.RUN_CANCELLATION_REQUESTED)
    ResourceType.RUN run correlation_id ;;
  flush ;;
  mret run.
End worker.

