(* ===== verification/Maintenance.v ===== *)
(** Restore quarantine and retention of execution/service.py. *)
From S2P Require Import Prelude Types Json PyStr Store Session Identity Ledger.
Local Open Scope Z_scope.

(** ** Restore quarantine and retention *)

Section maintenance.
Context (self : ExecutionService.t).
Implicit Types (now : instant).

(** [_require_system_authority] *)
Definition _require_system_authority : M unit :=
  raise_if (negb (ExecutionService.has_system_authority self)) PermissionError.

(** [enter_restore_quarantine] *)
Definition enter_restore_quarantine : M Z :=
  _require_system_authority ;;
  now ← durable_now;
  state ← _execution_state;
  let epoch := SystemExecutionState.execution_epoch state + 1 in
  update_execution_state (λ st, st <| SystemExecutionState.execution_epoch := epoch |>
                                   <| SystemExecutionState.dispatch_quarantined := true |>
                                   <| SystemExecutionState.updated_at := now |>) ;;
  flush ;;
  mret epoch.

(** [select(Run).where(P).order_by(column, Run.id).limit(n)
    .with_for_update(skip_locked=True)] *)
Definition select_runs (P : Run.t → bool) (column : Run.t → Z) (limit : Z) : M (list uuid) :=
  λ env s, Ok (take (Z.to_nat limit)
    (filter (λ run, row_locked env run = false)
      (fst <$> order_by column (where_rows (ExecutionDb.runs (flushed_execution s)) P))), s).

Definition batch_rejected (batch_size : Z) : bool := (batch_size <=? 0) || (1000 <? batch_size).

(** [reconcile_restore_quarantine] *)
Definition reconcile_restore_quarantine (batch_size : Z) : M Z :=
  _require_system_authority ;;
  raise_if (batch_rejected batch_size) ValueError ;;
  state ← _execution_state;
  raise_if (negb (SystemExecutionState.dispatch_quarantined state)) invalid_transition ;;
  now ← durable_now;
  runs ← select_runs (λ r, RunStatus.active (Run.status r)) Run.created_at batch_size;
  for_each runs (λ run,
    r ← run_of run;
    let terminal := if eqv (Run.status r) RunStatus.DISPATCH_FENCED
                    then RunStatus.INDETERMINATE else RunStatus.CANCELLED in
    _terminalize_run run terminal now RunFailureCode.RESTORE_RECONCILIATION
      RunEventType.RESTORE_RECONCILED) ;;
  flush ;;
  mret (len runs).

(** [clear_restore_quarantine] *)
Definition clear_restore_quarantine : M Z :=
  _require_system_authority ;;
  state ← _execution_state;
  unreconciled ← gets (λ s, where_rows (ExecutionDb.runs (flushed_execution s))
                              (λ r, RunStatus.active (Run.status r)));
  raise_if (negb (SystemExecutionState.dispatch_quarantined state)
            || is_some (head unreconciled)) invalid_transition ;;
  update_execution_state (λ st, st <| SystemExecutionState.dispatch_quarantined := false |>) ;;
  now ← durable_now;
  update_execution_state (λ st, st <| SystemExecutionState.updated_at := now |>) ;;
  flush ;;
  mret (SystemExecutionState.execution_epoch state).

(** [expire_retained_content] *)
Definition expire_retained_content (batch_size : Z) : M Z :=
  raise_if (batch_rejected batch_size) ValueError ;;
  now ← durable_now;
  runs ← select_runs (λ r, is_some (Run.arguments r) && (Run.arguments_expires_at r <=? now))
           Run.arguments_expires_at batch_size;
  for_each runs (λ run,
    r ← run_of run;
    let status := Run.status r in
    (if negb (RunStatus.terminal status) then
       let terminal := if eqv status RunStatus.DISPATCH_FENCED
                       then RunStatus.INDETERMINATE else RunStatus.TIMED_OUT in
       _terminalize_run run terminal now RunFailureCode.CONTENT_RETENTION_DEADLINE
         RunEventType.CONTENT_EXPIRED
     else
       _append_next_event run RunEventType.CONTENT_EXPIRED status (Run.safe_error_code r) now) ;;
    update_run run (λ r, r <| Run.arguments := None |> <| Run.argument_digest := None |>
                           <| Run.updated_at := now |>)) ;;
  flush ;;
  mret (len runs).

(** The rows that [ON DELETE CASCADE] leaves when runs are deleted. *)
Definition keep {R} (run_id : R → uuid) (ids : list uuid) (m : gmap uuid R) : gmap uuid R :=
  filter (λ kr, run_id kr.2 ∉ ids) m.

Definition cascade (ids : list uuid) (d : ExecutionDb.t) : ExecutionDb.t :=
  d <| ExecutionDb.runs := filter (λ kr, kr.1 ∉ ids) (ExecutionDb.runs d) |>
    <| ExecutionDb.run_results := keep RunResult.run_id ids (ExecutionDb.run_results d) |>
    <| ExecutionDb.jobs := keep Job.run_id ids (ExecutionDb.jobs d) |>
    <| ExecutionDb.run_attempts := keep RunAttempt.run_id ids (ExecutionDb.run_attempts d) |>
    <| ExecutionDb.run_events :=
         filter (λ e, RunEvent.run_id e ∉ ids) (ExecutionDb.run_events d) |>
    <| ExecutionDb.confirmation_nonces :=
         filter (λ kr, ConfirmationNonce.run_id kr.2 ∉ ids) (ExecutionDb.confirmation_nonces d) |>
    <| ExecutionDb.idempotency_records :=
         keep IdempotencyRecord.resource_id ids (ExecutionDb.idempotency_records d) |>.

(** A [DELETE] statement is executed at once. *)
Definition execute_delete (f : ExecutionDb.t → ExecutionDb.t) : M unit :=
  modify (λ s, s <| flushed := (flushed s) <| Db.execution := f (Db.execution (flushed s)) |> |>
                 <| work := (work s) <| Db.execution := f (Db.execution (work s)) |> |>).

(** [delete(Run).where(Run.id.in_(ids))] *)
Definition delete_runs (ids : list uuid) : M unit := execute_delete (cascade ids).

(** [delete(RunResult).where(RunResult.run_id.in_(ids))] *)
Definition delete_results (ids : list uuid) : M unit :=
  execute_delete (λ d, d <| ExecutionDb.run_results :=
    filter (λ kr, kr.1 ∉ ids) (ExecutionDb.run_results d) |>).

(** [select(RunResult.run_id).where(expires_at <= now)...] *)
Definition select_results (now : instant) (limit : Z) : M (list uuid) :=
  λ env s, Ok (take (Z.to_nat limit)
    (filter (λ run, row_locked env run = false)
      (fst <$> order_by RunResult.expires_at
         (where_rows (ExecutionDb.run_results (flushed_execution s))
            (λ r, RunResult.expires_at r <=? now)))), s).

(** [delete_expired_run_metadata] *)
Definition delete_expired_run_metadata (batch_size : Z) : M Z :=
  raise_if (batch_rejected batch_size) ValueError ;;
  now ← durable_now;
  let cutoff := now - days (ExecutionLimits.run_retention_days (ExecutionService.limits self)) in
  run_ids ← select_runs (λ r, match Run.terminal_at r with
                              | Some at_ => at_ <=? cutoff | None => false end)
              (λ r, default 0 (Run.terminal_at r)) batch_size;
  (match run_ids with [] => mret tt | _ => delete_runs run_ids end) ;;
  mret (len run_ids).

(** [expire_retained_results] *)
Definition expire_retained_results (batch_size : Z) : M Z :=
  raise_if (batch_rejected batch_size) ValueError ;;
  now ← durable_now;
  result_ids ← select_results now batch_size;
  (match result_ids with [] => mret tt | _ => delete_results result_ids end) ;;
  mret (len result_ids).
End maintenance.

