(* ===== verification/Admission.v ===== *)
(** Run admission of execution/service.py: [preflight], [create_run] and the
    validations they share, and [complete_invocation_success].

    Hashing, JSON parsing, JSON web tokens, UUID and timestamp text and the
    sandboxed JSON Schema check are the methods of [Externals]; what a theorem needs of them it states as a hypothesis. *)
From Stdlib Require Import Ascii.
From stdpp Require Import strings.
From S2P Require Import Prelude Types Json PyStr Screening Store Session Registry Identity Ledger Lease.
Local Open Scope Z_scope.

(** ** What the service calls *)

Module SchemaValidationResult.
Inductive t := VALID | INVALID_ARGUMENTS | INVALID_SCHEMA | FAILED.
#[global] Instance eq_dec : EqDecision t.
Proof. solve_decision. Defined.
End SchemaValidationResult.

Class Externals := {
  sha256_hex : string → string;                       (* [_sha256] *)
  hmac_sha256_hex : string → string → string;         (* [_hmac_hex] *)
  external_patterns :: Patterns;
  json_loads : string → option Json.t;
  uuid_str : uuid → string;                           (* [str(u)] *)
  uuid_hex : uuid → string;                           (* [u.hex] *)
  uuid_parse : string → option uuid;                  (* [UUID(s)] *)
  py_str : Json.t → string;                           (* [str(v)] *)
  py_int : Json.t → option Z;                         (* [int(v)] *)
  isoformat : instant → string;
  jwt_encode : list (string * Json.t) → string → string → string; (* claims, secret, kid *)
  jwt_header_kid : string → option (option string);   (* [None] when it raises *)
  (* [jwt.decode] with HS256, the audience, the issuer and the required claims *)
  jwt_decode : string → string → option (list (string * Json.t));
  validate_schema_arguments : Json.t → Json.t → SchemaValidationResult.t }.

Definition failure {A} (code : ExecutionFailureCode.t) : result exn A := Err (ExecutionError code).

Definition _TOKEN_ISSUER : string := "modall".
Definition _TOKEN_AUDIENCE : string := "modall-run-confirmation".
Definition _RUN_METHOD : string := "POST".
Definition _RUN_ROUTE : string := "/v1/runs".
Definition NUL : string := String (Ascii.ascii_of_nat 0) EmptyString.

Module AcceptedToolResult.
Record t := mk { payload : Json.t; canonical_digest : string; byte_count : Z }.
End AcceptedToolResult.

Module RunPreflight.
Record t := mk {
  confirmation_token : string; capability_version_id : uuid; connection_version_id : uuid;
  argument_digest : string; expires_at : instant; server_observed_at : instant }.
End RunPreflight.

(** [_AdmissionTarget] *)
Module AdmissionTarget.
Record t := mk {
  capability_id : uuid; capability : Capability.t; version_id : uuid;
  version : CapabilityVersion.t; binding : McpToolBinding.t;
  connection_id : uuid; connection : ServerConnection.t }.
End AdmissionTarget.

(** [_ConfirmationClaims] *)
Module ConfirmationClaims.
Record t := mk {
  workspace_id : uuid; actor_user_id : uuid; capability_version_id : uuid;
  capability_id : uuid; connection_id : uuid; connection_version_id : uuid;
  argument_digest : string; route : string; nonce : string; key_version : string;
  issued_at : instant; expires_at : instant }.
End ConfirmationClaims.

(** [_validate_keyring] *)
Definition key_version_character (c : ascii) : bool :=
  let n := ord c in
  (65 <=? n) && (n <=? 90) || (97 <=? n) && (n <=? 122) || (48 <=? n) && (n <=? 57)
  || (n =? 46) || (n =? 95) || (n =? 45).

(** [_KEY_VERSION.fullmatch(version)] *)
Definition key_version_match (version : string) : bool :=
  (1 <=? slen version) && (slen version <=? 32) && forallb key_version_character (chars version).

Definition valid_keyring (limits : ExecutionLimits.t) (keys : list HmacKeyVersion.t) : bool :=
  negb (match keys with [] => true | _ => false end
        || (ExecutionLimits.max_historical_hmac_keys limits <? len keys)
        || negb (bool_decide (NoDup (HmacKeyVersion.version <$> keys)))
        || existsb (λ key, negb (key_version_match (HmacKeyVersion.version key))) keys
        || existsb (λ key, slen (HmacKeyVersion.secret key) <? 32) keys).

(** [_key_by_version] *)
Definition _key_by_version (keys : list HmacKeyVersion.t) (version : string) : option HmacKeyVersion.t :=
  List.find (λ key, eqv (HmacKeyVersion.version key) version) keys.

(** Seconds of a timestamp: [int(t.timestamp())] and [math.ceil(t.timestamp())]. *)
Definition timestamp_int (t : instant) : Z := Z.quot t 1000000.
Definition timestamp_ceil (t : instant) : Z := - (- t / 1000000).

(** [datetime.fromtimestamp(n, UTC)] raises outside the years 1 to 9999. *)
Definition fromtimestamp (n : Z) : option instant :=
  if (-62135596800 <=? n) && (n <=? 253402300799) then Some (seconds n) else None.

Section admission.
Context `{Externals} (self : ExecutionService.t).
Implicit Types (context : WorkspaceContext.t) (claims : ConfirmationClaims.t).

Definition limits : ExecutionLimits.t := ExecutionService.limits self.

(** ** Arguments *)

(** [_normalize_arguments]: the document as stored, and its digest. *)
Definition _normalize_arguments (arguments : Json.t) : result exn (Json.t * string) :=
  let invalid {A} : result exn A := failure ExecutionFailureCode.INVALID_ARGUMENTS in
  match Metadata.validate_bounded_json arguments with
  | Err _ => invalid
  | Ok _ =>
      match json_dumps arguments with
      | None => invalid
      | Some encoded =>
          if ExecutionLimits.max_argument_bytes limits <? slen encoded
          then failure ExecutionFailureCode.ARGUMENT_LIMIT
          else match json_loads encoded with
               | Some (Json.Dict items) => Ok (Json.Dict items, sha256_hex encoded)
               | _ => invalid
               end
      end
  end.

(** [_validate_normalized_arguments] *)
Definition _validate_normalized_arguments (arguments schema : Json.t) : result exn unit :=
  match contains_sensitive_json arguments with
  | Err _ => failure ExecutionFailureCode.SCANNER_FAILED
  | Ok true => failure ExecutionFailureCode.SENSITIVE_ARGUMENTS
  | Ok false =>
      match validate_schema_arguments arguments schema with
      | SchemaValidationResult.INVALID_ARGUMENTS => failure ExecutionFailureCode.INVALID_ARGUMENTS
      | SchemaValidationResult.INVALID_SCHEMA => failure ExecutionFailureCode.CAPABILITY_UNAVAILABLE
      | SchemaValidationResult.FAILED => failure ExecutionFailureCode.SCANNER_FAILED
      | SchemaValidationResult.VALID => Ok tt
      end
  end.

(** [_validate_arguments] *)
Definition _validate_arguments (arguments schema : Json.t) : result exn (Json.t * string) :=
  '(normalized, digest) ← _normalize_arguments arguments;
  _validate_normalized_arguments normalized schema ;;
  mret (normalized, digest).

(** ** Deadlines and keys *)

(** [_canonicalize_deadline] *)
Definition _canonicalize_deadline (deadline : option Datetime.t) : result exn (option instant) :=
  match deadline with
  | None => Ok None
  | Some d => if Datetime.naive d then failure ExecutionFailureCode.INVALID_ARGUMENTS
              else Ok (Some (Datetime.utc d))
  end.

(** [_admission_deadline] *)
Definition _admission_deadline (requested : option instant) (now : instant) : result exn instant :=
  let latest := now + seconds (ExecutionLimits.max_run_seconds limits) in
  match requested with
  | None => Ok latest
  | Some requested =>
      if (requested <=? now) || (latest <? requested)
      then failure ExecutionFailureCode.INVALID_ARGUMENTS else Ok requested
  end.

(** [_validate_idempotency_key] *)
Definition _validate_idempotency_key (value : string) : result exn string :=
  if falsy value
     || (ExecutionLimits.max_idempotency_key_characters limits <? slen value)
     || existsb (λ c, (ord c <? 33) || (126 <? ord c)) (chars value)
  then failure ExecutionFailureCode.INVALID_IDEMPOTENCY_KEY else Ok value.

(** [_idempotency_hmac] *)
Definition _idempotency_hmac (key : HmacKeyVersion.t) context (raw_key : string) : string :=
  let scope := ("key" +:+ NUL +:+ uuid_str (WorkspaceContext.workspace_id context) +:+ NUL
                +:+ uuid_str (WorkspaceContext.actor_user_id context) +:+ NUL
                +:+ _RUN_METHOD +:+ NUL +:+ _RUN_ROUTE +:+ NUL)%string in
  hmac_sha256_hex (HmacKeyVersion.secret key) (scope +:+ raw_key).

Definition request_hmac (key : HmacKeyVersion.t) (canonical_request : string) : string :=
  hmac_sha256_hex (HmacKeyVersion.secret key) ("request" +:+ NUL +:+ canonical_request).

(** [_canonical_request]; the default [ensure_ascii] does not matter on these
    ASCII members. *)
Definition _canonical_request (capability_id capability_version_id connection_id
    connection_version_id : uuid) (argument_digest : string) (deadline : option instant)
    : option string :=
  json_dumps (Json.Dict
    [(Json.KStr "argument_digest", Json.Str argument_digest);
     (Json.KStr "capability_id", Json.Str (uuid_str capability_id));
     (Json.KStr "capability_version_id", Json.Str (uuid_str capability_version_id));
     (Json.KStr "connection_id", Json.Str (uuid_str connection_id));
     (Json.KStr "connection_version_id", Json.Str (uuid_str connection_version_id));
     (Json.KStr "deadline", match deadline with
                            | None => Json.Null | Some d => Json.Str (isoformat d) end);
     (Json.KStr "method", Json.Str _RUN_METHOD);
     (Json.KStr "route", Json.Str _RUN_ROUTE)]).

(** ** Confirmation tokens *)

(** The claims that [preflight] signs. *)
Definition confirmation_payload context (capability_version_id capability_id connection_id
    connection_version_id : uuid) (argument_digest nonce : string) (now expires_at : instant)
    : list (string * Json.t) :=
  [("iss", Json.Str _TOKEN_ISSUER); ("aud", Json.Str _TOKEN_AUDIENCE);
   ("iat", Json.Int (timestamp_int now)); ("exp", Json.Int (timestamp_int expires_at));
   ("jti", Json.Str nonce);
   ("w", Json.Str (uuid_str (WorkspaceContext.workspace_id context)));
   ("a", Json.Str (uuid_str (WorkspaceContext.actor_user_id context)));
   ("cv", Json.Str (uuid_str capability_version_id));
   ("c", Json.Str (uuid_str capability_id));
   ("cn", Json.Str (uuid_str connection_id));
   ("cnv", Json.Str (uuid_str connection_version_id));
   ("ad", Json.Str argument_digest); ("r", Json.Str _RUN_ROUTE)]%string.

(** [payload[name]] *)
Definition claim (payload : list (string * Json.t)) (name : string) : option Json.t :=
  snd <$> List.find (λ kv, eqv kv.1 name) payload.
Definition uuid_claim payload name : option uuid :=
  v ← claim payload name; match v with Json.Str s => uuid_parse s | _ => None end.
Definition str_claim payload name : option string :=
  v ← claim payload name; match v with Json.Str s => Some s | v => Some (py_str v) end.
Definition time_claim payload name : option instant :=
  v ← claim payload name;
  n ← match v with Json.Int n => Some n | v => py_int v end;
  fromtimestamp n.

Definition claims_of (key_version : string) (payload : list (string * Json.t))
    : option ConfirmationClaims.t :=
  w ← uuid_claim payload "w"; a ← uuid_claim payload "a"; cv ← uuid_claim payload "cv";
  c ← uuid_claim payload "c"; cn ← uuid_claim payload "cn"; cnv ← uuid_claim payload "cnv";
  ad ← str_claim payload "ad"; r ← str_claim payload "r"; jti ← str_claim payload "jti";
  iat ← time_claim payload "iat"; exp ← time_claim payload "exp";
  Some (ConfirmationClaims.mk w a cv c cn cnv ad r jti key_version iat exp).

(** [_decode_confirmation] *)
Definition _decode_confirmation (token : string) : result exn ConfirmationClaims.t :=
  let invalid {A} : result exn A := failure ExecutionFailureCode.INVALID_CONFIRMATION in
  if falsy token || (4096 <? slen token) then invalid else
  match jwt_header_kid token with
  | None => invalid
  | Some kid =>
      match _key_by_version (ExecutionService.confirmation_keys self) (default "" kid) with
      | None => invalid
      | Some key =>
          match jwt_decode token (HmacKeyVersion.secret key) ≫= claims_of (HmacKeyVersion.version key) with
          | None => invalid
          | Some claims => Ok claims
          end
      end
  end.

(** [_require_confirmation_bindings] *)
Definition _require_confirmation_bindings claims context (capability_version_id : uuid)
    (argument_digest : string) (now : instant) : result exn unit :=
  if negb (eqv (ConfirmationClaims.workspace_id claims) (WorkspaceContext.workspace_id context))
     || negb (eqv (ConfirmationClaims.actor_user_id claims) (WorkspaceContext.actor_user_id context))
     || negb (eqv (ConfirmationClaims.capability_version_id claims) capability_version_id)
     || negb (eqv (ConfirmationClaims.argument_digest claims) argument_digest)
     || negb (eqv (ConfirmationClaims.route claims) _RUN_ROUTE)
     || falsy (ConfirmationClaims.nonce claims)
     || (now <? ConfirmationClaims.issued_at claims)
     || (ConfirmationClaims.expires_at claims <=? ConfirmationClaims.issued_at claims)
  then failure ExecutionFailureCode.INVALID_CONFIRMATION else Ok tt.
End admission.

(** ** Retained key versions

    String columns are compared by code points. *)

(** [select(column).where(column > previous).order_by(column).limit(1)] *)
Definition min_string (a b : string) : string := if string_ltb b a then b else a.
Definition first_above (previous : option string) (column : list string) : option string :=
  let above := match previous with
               | None => column
               | Some p => List.filter (λ v, string_ltb p v) column
               end in
  match above with [] => None | x :: l => Some (fold_left min_string l x) end.

(** The loop of [_find_unconfigured_key_version]. *)
Fixpoint find_unconfigured (probes : nat) (column configured : list string)
    (previous : option string) : option string :=
  match probes with
  | O => previous
  | S probes =>
      match first_above previous column with
      | None => None
      | Some observed =>
          if bool_decide (observed ∈ configured)
          then find_unconfigured probes column configured (Some observed)
          else Some observed
      end
  end.

Section history.
Context `{Externals} (self : ExecutionService.t).
Implicit Types (context : WorkspaceContext.t) (claims : ConfirmationClaims.t).

(** [_find_unconfigured_key_version] *)
Definition _find_unconfigured_key_version (column configured : list string) : option string :=
  find_unconfigured (Z.to_nat (ExecutionLimits.max_historical_hmac_keys (limits self) + 1))
    column configured None.

Definition record_column {A} (f : IdempotencyRecord.t → A) (d : ExecutionDb.t) : list A :=
  (λ kr, f kr.2) <$> map_to_list (ExecutionDb.idempotency_records d).

(** [_require_idempotency_key_history] *)
Definition _require_idempotency_key_history : M unit :=
  missing_version ← gets (λ s, _find_unconfigured_key_version
    (record_column IdempotencyRecord.key_version (flushed_execution s))
    (HmacKeyVersion.version <$> ExecutionService.idempotency_keys self));
  raise_if (is_some missing_version)
    (ExecutionError ExecutionFailureCode.IDEMPOTENCY_KEY_HISTORY_INCOMPLETE).

(** [_require_confirmation_key_history] *)
Definition _require_confirmation_key_history : M unit :=
  let configured_versions := HmacKeyVersion.version <$> ExecutionService.confirmation_keys self in
  missing_version ← gets (λ s, _find_unconfigured_key_version
    (record_column IdempotencyRecord.confirmation_key_version (flushed_execution s))
    configured_versions);
  raise_if (is_some missing_version)
    (ExecutionError ExecutionFailureCode.CONFIRMATION_KEY_HISTORY_INCOMPLETE) ;;
  missing_nonce_version ← gets (λ s, _find_unconfigured_key_version
    ((λ kr, ConfirmationNonce.key_version kr.2) <$>
       map_to_list (ExecutionDb.confirmation_nonces (flushed_execution s)))
    configured_versions);
  raise_if (is_some missing_nonce_version)
    (ExecutionError ExecutionFailureCode.CONFIRMATION_KEY_HISTORY_INCOMPLETE).

(** ** Idempotency records *)

(** [_find_idempotency_record]: the identifier of a matching record. *)
Definition record_matches context (raw_key : string) (r : IdempotencyRecord.t) : bool :=
  eqv (IdempotencyRecord.workspace_id r) (WorkspaceContext.workspace_id context)
  && eqv (IdempotencyRecord.actor_user_id r) (WorkspaceContext.actor_user_id context)
  && eqv (IdempotencyRecord.method r) _RUN_METHOD && eqv (IdempotencyRecord.route r) _RUN_ROUTE
  && existsb (λ key, eqv (IdempotencyRecord.key_version r) (HmacKeyVersion.version key)
                     && eqv (IdempotencyRecord.key_hmac r) (_idempotency_hmac key context raw_key))
       (ExecutionService.idempotency_keys self).

Definition _find_idempotency_record context (raw_key : string) : M (option (uuid * IdempotencyRecord.t)) :=
  gets (λ s, head (where_rows (ExecutionDb.idempotency_records (flushed_execution s))
                     (record_matches context raw_key))).

(** [select(ConfirmationNonce).where(nonce_digest == ...)] *)
Definition select_nonce (nonce_digest : string) : M (option ConfirmationNonce.t) :=
  gets (λ s, ExecutionDb.confirmation_nonces (flushed_execution s) !! nonce_digest).

Definition add_nonce (nonce_digest : string) (n : ConfirmationNonce.t) : M unit :=
  flag_conflict (λ s, is_some (ExecutionDb.confirmation_nonces (Db.execution (work s)) !! nonce_digest)) ;;
  put_execution (λ d, d <| ExecutionDb.confirmation_nonces :=
    <[nonce_digest := n]> (ExecutionDb.confirmation_nonces d) |>).

Definition idempotency_conflict {A} : M A := raise (ExecutionError ExecutionFailureCode.IDEMPOTENCY_CONFLICT).

(** [_replay_existing_run] *)
Definition _replay_existing_run context (record_id : uuid) (existing_record : IdempotencyRecord.t)
    (canonical_request : string) claims (nonce_digest : string) : M uuid :=
  match _key_by_version (ExecutionService.idempotency_keys self)
          (IdempotencyRecord.key_version existing_record) with
  | None => idempotency_conflict
  | Some key =>
      if negb (eqv (IdempotencyRecord.request_hmac existing_record)
                   (request_hmac key canonical_request)) then idempotency_conflict else
      run ← gets (λ s, by_id (ExecutionDb.runs (flushed_execution s))
                         (IdempotencyRecord.resource_id existing_record)
                         (λ r, eqv (Run.workspace_id r) (WorkspaceContext.workspace_id context)));
      match run with
      | None => idempotency_conflict
      | Some run =>
          locked_record ← gets (λ s, ExecutionDb.idempotency_records (flushed_execution s) !! record_id);
          match locked_record with
          | None => idempotency_conflict
          | Some _ =>
              require_current_role context [Role.ADMIN; Role.OPERATOR] true ;;
              r ← run_of run;
              if negb (eqv (Run.capability_id r) (ConfirmationClaims.capability_id claims))
                 || negb (eqv (Run.capability_version_id r)
                              (ConfirmationClaims.capability_version_id claims))
                 || negb (eqv (Run.connection_id r) (ConfirmationClaims.connection_id claims))
                 || negb (eqv (Run.connection_version_id r)
                              (ConfirmationClaims.connection_version_id claims))
              then idempotency_conflict else
              used_nonce ← select_nonce nonce_digest;
              now ← durable_now;
              match used_nonce with
              | Some n =>
                  if eqv (ConfirmationNonce.run_id n) run then mret run
                  else raise (ExecutionError ExecutionFailureCode.CONFIRMATION_REPLAYED)
              | None =>
                  add_nonce nonce_digest
                    (ConfirmationNonce.mk (WorkspaceContext.workspace_id context)
                       (WorkspaceContext.actor_user_id context) nonce_digest run
                       (ConfirmationClaims.key_version claims)
                       (ConfirmationClaims.expires_at claims) now) ;;
                  flush ;;
                  mret run
              end
          end
      end
  end.

(** ** The admission target *)

Definition unavailable {A} : M A := raise (ExecutionError ExecutionFailureCode.CAPABILITY_UNAVAILABLE).

(** The conditions under which a capability can be invoked; the code raises
    [CAPABILITY_UNAVAILABLE] on the negation. *)
Definition admissible (version_id : uuid) (version : CapabilityVersion.t) (capability : Capability.t)
    (binding : McpToolBinding.t) (connection : ServerConnection.t) (observed : bool) : bool :=
  observed && CapabilityVersion.schema_supported version
  && eqv (Capability.status capability) CapabilityStatus.ENABLED
  && eqv (Capability.enabled_version_id capability) (Some version_id)
  && is_none (Capability.pending_version_id capability)
  && eqv (ServerConnection.lifecycle connection) ConnectionLifecycle.ACTIVE
  && is_none (ServerConnection.pending_version_id connection)
  && eqv (ServerConnection.verified_version_id connection)
         (Some (McpToolBinding.connection_version_id binding))
  && eqv (McpToolBinding.protocol_revision binding) QUALIFIED_PROTOCOL_REVISION.

(** [_load_admission_target] *)
Definition _load_admission_target context (capability_version_id : uuid) : M AdmissionTarget.t :=
  let workspace_id := WorkspaceContext.workspace_id context in
  version ← fetch capability_versions capability_version_id
              (λ v, eqv (CapabilityVersion.workspace_id v) workspace_id);
  match version with
  | None => unavailable
  | Some version =>
      let capability_id := CapabilityVersion.capability_id version in
      capability ← fetch_capability capability_id
                     (λ c, eqv (Capability.workspace_id c) workspace_id);
      binding ← fetch mcp_tool_bindings capability_version_id
                  (λ b, eqv (McpToolBinding.workspace_id b) workspace_id);
      match capability, binding with
      | Some capability, Some binding =>
          let connection_id := McpToolBinding.connection_id binding in
          connection ← fetch_connection connection_id
                         (λ c, eqv (ServerConnection.workspace_id c) workspace_id);
          match connection with
          | None => unavailable
          | Some connection =>
              observed ← select_observed workspace_id connection_id
                (McpToolBinding.connection_version_id binding)
                (ServerConnection.current_snapshot_id connection) capability_version_id;
              if admissible capability_version_id version capability binding connection observed
              then mret (AdmissionTarget.mk capability_id capability capability_version_id version
                           binding connection_id connection)
              else unavailable
          end
      | _, _ => unavailable
      end
  end.

(** ** Preflight *)

(** [preflight] *)
Definition preflight context (capability_version_id : uuid) (arguments : Json.t) : M RunPreflight.t :=
  require_current_role context [Role.ADMIN; Role.OPERATOR] false ;;
  target ← _load_admission_target context capability_version_id;
  '(_, argument_digest) ← lift (_validate_arguments self arguments
      (CapabilityVersion.input_schema (AdmissionTarget.version target)));
  now ← durable_now;
  let expires_at := seconds (timestamp_ceil
    (now + seconds (ExecutionLimits.confirmation_ttl_seconds (limits self)))) in
  nonce ← uuid4;
  match ExecutionService.confirmation_keys self with
  | [] => raise ValueError   (* excluded by [_validate_keyring] *)
  | active :: _ =>
      let connection_version_id := McpToolBinding.connection_version_id (AdmissionTarget.binding target) in
      let claims := confirmation_payload context capability_version_id
        (AdmissionTarget.capability_id target) (AdmissionTarget.connection_id target)
        connection_version_id argument_digest (uuid_hex nonce) now expires_at in
      mret (RunPreflight.mk
        (jwt_encode claims (HmacKeyVersion.secret active) (HmacKeyVersion.version active))
        capability_version_id connection_version_id argument_digest expires_at now)
  end.
End history.

(** ** Admission *)

(** [begin_nested()] flushes and opens a savepoint; [rollback()] returns to it. *)
Definition begin_nested : M Session := flush ;; gets (λ s, s).
Definition rollback_to (saved : Session) : M unit :=
  modify (λ s, saved <| ticks := ticks s |> <| draws := draws s |>).

Section create.
Context `{Externals} (self : ExecutionService.t).
Implicit Types (context : WorkspaceContext.t) (claims : ConfirmationClaims.t).

(** The tail of [create_run]: the rows of an admitted run. *)
Definition admit_run context claims (state : SystemExecutionState.t) (target : AdmissionTarget.t)
    (normalized : Json.t) (argument_digest nonce_digest raw_key canonical_request : string)
    (effective_deadline now : instant) (correlation_id : option uuid) : M uuid :=
  let workspace_id := WorkspaceContext.workspace_id context in
  let actor_user_id := WorkspaceContext.actor_user_id context in
  let persistence_failure := ExecutionError ExecutionFailureCode.PERSISTENCE_FAILURE in
  run_id ← uuid4;
  trace_id ← match correlation_id with Some c => mret c | None => uuid4 end;
  flag_conflict (λ s, is_some (ExecutionDb.runs (Db.execution (work s)) !! run_id)) ;;
  put_execution (λ d, d <| ExecutionDb.runs := <[run_id :=
    Run.mk run_id workspace_id trace_id actor_user_id (AdmissionTarget.capability_id target)
      (AdmissionTarget.version_id target) (AdmissionTarget.connection_id target)
      (McpToolBinding.connection_version_id (AdmissionTarget.binding target))
      (ServerConnection.control_epoch (AdmissionTarget.connection target))
      (Capability.status_epoch (AdmissionTarget.capability target))
      (McpToolBinding.protocol_revision (AdmissionTarget.binding target))
      RunStatus.QUEUED (Some normalized) (Some argument_digest)
      (now + days (ExecutionLimits.argument_retention_days (limits self))) effective_deadline
      false None now now None]> (ExecutionDb.runs d) |>) ;;
  ok ← try_flush;
  raise_if (negb ok) persistence_failure ;;
  job_id ← uuid4;
  flag_conflict (λ s,
    let jobs := ExecutionDb.jobs (Db.execution (work s)) in
    is_some (jobs !! job_id)
    || existsb (λ kj, eqv (Job.run_id kj.2) run_id) (map_to_list jobs)) ;;
  put_execution (λ d, d <| ExecutionDb.jobs := <[job_id :=
    Job.mk job_id workspace_id run_id actor_user_id (SystemExecutionState.execution_epoch state)
      JobStatus.QUEUED None 0 None now effective_deadline now None]> (ExecutionDb.jobs d) |>) ;;
  _append_event run_id RunEventType.ADMITTED RunStatus.QUEUED None now 1 ;;
  add_nonce nonce_digest
    (ConfirmationNonce.mk workspace_id actor_user_id nonce_digest run_id
       (ConfirmationClaims.key_version claims) (ConfirmationClaims.expires_at claims) now) ;;
  match ExecutionService.idempotency_keys self with
  | [] => raise ValueError   (* excluded by [_validate_keyring] *)
  | active_key :: _ =>
      record_id ← uuid4;
      let record := IdempotencyRecord.mk record_id workspace_id actor_user_id _RUN_METHOD _RUN_ROUTE
        (ConfirmationClaims.key_version claims) (HmacKeyVersion.version active_key)
        (_idempotency_hmac active_key context raw_key) (request_hmac active_key canonical_request)
        ResourceType.RUN run_id now now
        (now + days (ExecutionLimits.run_retention_days (limits self))) in
      flag_conflict (λ s,
        let records := ExecutionDb.idempotency_records (Db.execution (work s)) in
        is_some (records !! record_id)
        || existsb (λ kr, eqv (IdempotencyRecord.unique_key kr.2) (IdempotencyRecord.unique_key record))
             (map_to_list records)) ;;
      put_execution (λ d, d <| ExecutionDb.idempotency_records :=
        <[record_id := record]> (ExecutionDb.idempotency_records d) |>) ;;
      audit_id ← uuid4;
      add_audit_event (AuditEvent.succeeded audit_id workspace_id actor_user_id
        AuditAction.RUN_CREATED ResourceType.RUN run_id trace_id) ;;
      ok ← try_flush;
      raise_if (negb ok) persistence_failure ;;
      mret run_id
  end.

(** The middle of [create_run], once no idempotency record matches: the checks
    of admission proper. *)
Definition admit_new context (capability_version_id : uuid) claims (state : SystemExecutionState.t)
    (normalized : Json.t) (argument_digest nonce_digest raw_key canonical_request : string)
    (requested_deadline : option instant) (now : instant) (correlation_id : option uuid) : M uuid :=
  let expired := ExecutionError ExecutionFailureCode.CONFIRMATION_EXPIRED in
  used_nonce ← select_nonce nonce_digest;
  raise_if (ConfirmationClaims.expires_at claims <=? now) expired ;;
  raise_if (is_some used_nonce) (ExecutionError ExecutionFailureCode.CONFIRMATION_REPLAYED) ;;
  lift (_admission_deadline self requested_deadline now) ;;
  target ← _load_admission_target context capability_version_id;
  raise_if (negb (eqv (ConfirmationClaims.capability_id claims) (AdmissionTarget.capability_id target))
            || negb (eqv (ConfirmationClaims.connection_id claims) (AdmissionTarget.connection_id target))
            || negb (eqv (ConfirmationClaims.connection_version_id claims)
                         (McpToolBinding.connection_version_id (AdmissionTarget.binding target))))
           (ExecutionError ExecutionFailureCode.INVALID_CONFIRMATION) ;;
  lift (_validate_normalized_arguments normalized
          (CapabilityVersion.input_schema (AdmissionTarget.version target))) ;;
  now ← durable_now;
  raise_if (ConfirmationClaims.expires_at claims <=? now) expired ;;
  effective_deadline ← lift (_admission_deadline self requested_deadline now);
  raise_if (SystemExecutionState.dispatch_quarantined state)
           (ExecutionError ExecutionFailureCode.DISPATCH_QUARANTINED) ;;
  active_run_count ← gets (λ s, len (where_rows (ExecutionDb.runs (flushed_execution s))
    (λ r, eqv (Run.workspace_id r) (WorkspaceContext.workspace_id context)
          && RunStatus.active (Run.status r))));
  raise_if (ExecutionLimits.max_active_runs_per_workspace (limits self) <=? active_run_count)
           (ExecutionError ExecutionFailureCode.ACTIVE_RUN_LIMIT) ;;
  admit_run context claims state target normalized argument_digest nonce_digest raw_key
    canonical_request effective_deadline now correlation_id.

(** [create_run] *)
Definition create_run context (capability_version_id : uuid) (arguments : Json.t)
    (confirmation_token idempotency_key : string) (deadline : option Datetime.t)
    (correlation_id : option uuid) : M uuid :=
  state ← _execution_state;
  require_current_role context [Role.ADMIN; Role.OPERATOR] false ;;
  '(normalized, argument_digest) ← lift (_normalize_arguments self arguments);
  _require_confirmation_key_history self ;;
  _require_idempotency_key_history self ;;
  claims ← lift (_decode_confirmation self confirmation_token);
  now ← durable_now;
  lift (_require_confirmation_bindings claims context capability_version_id argument_digest now) ;;
  requested_deadline ← lift (_canonicalize_deadline deadline);
  raw_key ← lift (_validate_idempotency_key self idempotency_key);
  canonical_request ← lift (match _canonical_request (ConfirmationClaims.capability_id claims)
      capability_version_id (ConfirmationClaims.connection_id claims)
      (ConfirmationClaims.connection_version_id claims) argument_digest requested_deadline with
    | Some r => Ok r | None => Err ValueError end);
  existing_record ← _find_idempotency_record self context raw_key;
  let nonce_digest := sha256_hex (ConfirmationClaims.nonce claims) in
  match existing_record with
  | Some (record_id, record) =>
      _replay_existing_run self context record_id record canonical_request claims nonce_digest
  | None =>
      admission_lock ← begin_nested;
      require_current_role context [Role.ADMIN; Role.OPERATOR] true ;;
      now ← durable_now;
      _require_confirmation_key_history self ;;
      _require_idempotency_key_history self ;;
      existing_record ← _find_idempotency_record self context raw_key;
      match existing_record with
      | Some (record_id, record) =>
          rollback_to admission_lock ;;
          _replay_existing_run self context record_id record canonical_request claims nonce_digest
      | None =>
          flush ;;
          admit_new context capability_version_id claims state normalized argument_digest
            nonce_digest raw_key canonical_request requested_deadline now correlation_id
      end
  end.

(** [complete_invocation_success] *)
Definition result_accepted (result : AcceptedToolResult.t) : bool :=
  match Metadata.validate_bounded_json (AcceptedToolResult.payload result),
        json_dumps (AcceptedToolResult.payload result) with
  | Ok _, Some canonical =>
      negb (falsy canonical
            || (ExecutionLimits.max_result_bytes (limits self) <? slen canonical)
            || negb (slen canonical =? AcceptedToolResult.byte_count result)
            || negb (eqv (sha256_hex canonical) (AcceptedToolResult.canonical_digest result))
            || match contains_sensitive_json (AcceptedToolResult.payload result) with
               | Ok false => false | _ => true end)
  | _, _ => false
  end.

Definition complete_invocation_success (lease : JobLease.t) (result : AcceptedToolResult.t) : M uuid :=
  raise_if (negb (result_accepted result)) (ExecutionError ExecutionFailureCode.INVALID_ARGUMENTS) ;;
  run ← complete_lease lease RunStatus.SUCCEEDED None;
  r ← run_of run;
  if negb (eqv (Run.status r) RunStatus.SUCCEEDED) then mret run else
  captured_at ← match Run.terminal_at r with Some t => mret t | None => durable_now end;
  flag_conflict (λ s, is_some (ExecutionDb.run_results (Db.execution (work s)) !! run)) ;;
  put_execution (λ d, d <| ExecutionDb.run_results := <[run :=
    RunResult.mk run (Run.workspace_id r) (AcceptedToolResult.payload result)
      (AcceptedToolResult.canonical_digest result) (AcceptedToolResult.byte_count result) captured_at
      (captured_at + days (ExecutionLimits.result_retention_days (limits self)))]>
    (ExecutionDb.run_results d) |>) ;;
  flush ;;
  mret run.
End create.
