(* ===== verification/Hoare.v ===== *)
(** Weakest preconditions for the unit of work, and the facts about queries
    that the proofs of the services share. *)
From S2P Require Import Prelude Types Json Store Session.
Local Open Scope Z_scope.

(** [wp m E Q env s]: running [m] from [s] ends in a state and value that
    satisfy [Q], or raises an exception that satisfies [E]. *)
Definition wp {A} (m : M A) (E : exn → Prop) (Q : A → Session → Prop) (env : Env) (s : Session) : Prop :=
  match m env s with Ok (a, s') => Q a s' | Err e => E e end.

#[global] Arguments wp : simpl never.

Section rules.
Context (E : exn → Prop) (env : Env).

Lemma wp_ret {A} (a : A) Q s : Q a s → wp (mret a) E Q env s.
Proof. done. Qed.

Lemma wp_bind {A B} (m : M A) (k : A → M B) Q s :
  wp m E (λ a s', wp (k a) E Q env s') env s → wp (m ≫= k) E Q env s.
Proof. unfold wp, mbind, M_bind. by destruct (m env s) as [[??]|]. Qed.

Lemma wp_mono {A} (m : M A) (E' : exn → Prop) (Q Q' : A → Session → Prop) s :
  wp m E' Q' env s → (∀ e, E' e → E e) → (∀ a s', Q' a s' → Q a s') → wp m E Q env s.
Proof. unfold wp. destruct (m env s) as [[??]|]; auto. Qed.

Lemma wp_conseq {A} (m : M A) (Q Q' : A → Session → Prop) s :
  wp m E Q' env s → (∀ a s', Q' a s' → Q a s') → wp m E Q env s.
Proof. intros H HQ. by eapply wp_mono. Qed.

Lemma wp_and {A} (m : M A) (Q Q' : A → Session → Prop) s :
  wp m E Q env s → wp m (λ _, True) Q' env s → wp m E (λ a s', Q a s' ∧ Q' a s') env s.
Proof. unfold wp. by destruct (m env s) as [[??]|]. Qed.

Lemma wp_raise {A} (e : exn) (Q : A → Session → Prop) s : E e → wp (raise e) E Q env s.
Proof. done. Qed.

Lemma wp_raise_if b e Q s :
  (b = true → E e) → (b = false → Q tt s) → wp (raise_if b e) E Q env s.
Proof. destruct b; unfold wp; cbn; auto. Qed.

Lemma wp_gets {A} (f : Session → A) Q s : Q (f s) s → wp (gets f) E Q env s.
Proof. done. Qed.

Lemma wp_modify f Q s : Q tt (f s) → wp (modify f) E Q env s.
Proof. done. Qed.

Lemma wp_durable_now Q s :
  Q (clock env (ticks s)) (s <| ticks := S (ticks s) |>) → wp durable_now E Q env s.
Proof. done. Qed.

Lemma wp_uuid4 Q s :
  Q (uuid4_source env (draws s)) (s <| draws := S (draws s) |>) → wp uuid4 E Q env s.
Proof. done. Qed.

Lemma wp_deref {R} (table : Session → gmap uuid R) id r Q s :
  table s !! id = Some r → Q r s → wp (deref table id) E Q env s.
Proof. intros H ?. unfold wp, deref. by rewrite H. Qed.

Lemma wp_ok {A} (m : M A) Q s a s' :
  wp m E Q env s → m env s = Ok (a, s') → Q a s'.
Proof. unfold wp. intros H Heq. by rewrite Heq in H. Qed.

Lemma wp_flush Q s :
  listeners_accept (Db.execution (flushed s)) (Db.execution (work s)) = true →
  conflict s = false → schema_checks (work s) = true →
  Q tt (s <| flushed := work s |>) → wp flush E Q env s.
Proof. intros H1 H2 H3 HQ. unfold wp, flush. by rewrite H1, H2, H3. Qed.

Lemma wp_for_each {A} (l : list A) (body : A → M unit) (I : list A → Session → Prop) s :
  I [] s →
  (∀ done x rest s, l = done ++ x :: rest → I done s →
     wp (body x) E (λ _ s', I (done ++ [x]) s') env s) →
  wp (for_each l body) E (λ _ s', I l s') env s.
Proof.
  intros H0 Hstep.
  assert (∀ rest done s, l = done ++ rest → I done s →
            wp (for_each rest body) E (λ _ s', I l s') env s) as Hgen.
  { intros rest. induction rest as [|x rest IH]; intros done' s' Hl HI; cbn.
    - apply wp_ret. by rewrite Hl, app_nil_r.
    - apply wp_bind. eapply wp_conseq; [by eapply Hstep|]. cbn. intros _ s'' HI''.
      apply (IH (done' ++ [x])); [by rewrite <- app_assoc|done]. }
  by apply (Hgen l [] s).
Qed.
End rules.

(** Step through a program: binds, guards and reads. *)
Ltac wp_step :=
  lazymatch goal with
  | |- wp (mbind _ _) _ _ _ _ => apply wp_bind
  | |- wp (mret _) _ _ _ _ => apply wp_ret
  | |- wp (gets _) _ _ _ _ => apply wp_gets
  | |- wp (modify _) _ _ _ _ => apply wp_modify
  | |- wp (put_execution _) _ _ _ _ => apply wp_modify
  | |- wp (put_registry _) _ _ _ _ => apply wp_modify
  | |- wp (put_identity _) _ _ _ _ => apply wp_modify
  | |- wp (flag_conflict _) _ _ _ _ => apply wp_modify
  | |- wp (update_run _ _) _ _ _ _ => apply wp_modify
  | |- wp (update_job _ _) _ _ _ _ => apply wp_modify
  | |- wp (update_attempt _ _) _ _ _ _ => apply wp_modify
  | |- wp (update_connection _ _) _ _ _ _ => apply wp_modify
  | |- wp (update_capability _ _) _ _ _ _ => apply wp_modify
  | |- wp durable_now _ _ _ _ => apply wp_durable_now
  | |- wp uuid4 _ _ _ _ => apply wp_uuid4
  | |- wp (raise_if _ _) _ _ _ _ => apply wp_raise_if; intros ?
  | |- wp (raise _) _ _ _ _ => apply wp_raise
  end.
Ltac wp_steps := repeat wp_step.

(** ** Reads

    Computations that neither fail nor write. *)

Class ReadOnly {A} (m : M A) : Prop := read_only : ∀ env s, ∃ a, m env s = Ok (a, s).

#[global] Instance read_only_ret {A} (a : A) : ReadOnly (mret a).
Proof. intros env s. by exists a. Qed.
#[global] Instance read_only_gets {A} (f : Session → A) : ReadOnly (gets f).
Proof. intros env s. by exists (f s). Qed.
#[global] Instance read_only_bind {A B} (m : M A) (k : A → M B) :
  ReadOnly m → (∀ a, ReadOnly (k a)) → ReadOnly (m ≫= k).
Proof.
  intros Hm Hk env s. destruct (Hm env s) as [a Ha]. destruct (Hk a env s) as [b Hb].
  exists b. unfold mbind, M_bind. by rewrite Ha.
Qed.
#[global] Instance read_only_option {A B} (o : option A) (k : A → M B) (m : M B) :
  ReadOnly m → (∀ a, ReadOnly (k a)) → ReadOnly (match o with Some a => k a | None => m end).
Proof. by destruct o. Qed.

Lemma wp_read {A} (E : exn → Prop) (m : M A) `{!ReadOnly m} Q env s :
  (∀ a, m env s = Ok (a, s) → Q a s) → wp m E Q env s.
Proof. intros HQ. destruct (read_only env s) as [a Ha]. unfold wp. rewrite Ha. auto. Qed.

Tactic Notation "wp_read" "as" simple_intropattern(x) simple_intropattern(H) :=
  apply wp_bind; apply wp_read; [apply _|]; intros x H.

(** ** Queries *)

Section queries.
Context {R : Type}.
Implicit Types (t : gmap uuid R) (P : R → bool).

Lemma elem_of_where_rows t P k r :
  (k, r) ∈ where_rows t P ↔ t !! k = Some r ∧ P r = true.
Proof. unfold where_rows. rewrite list_elem_of_filter, elem_of_map_to_list. naive_solver. Qed.

Lemma NoDup_where_rows t P : NoDup (where_rows t P).*1.
Proof.
  unfold where_rows. pose proof (NoDup_fst_map_to_list t) as Hnd. revert Hnd.
  induction (map_to_list t) as [|[k r] l IH]; [done|].
  intros [Hk Hnd]%NoDup_cons. rewrite filter_cons. case_decide; [|by apply IH].
  cbn. constructor; [|by apply IH]. intros Hin. apply Hk.
  apply list_elem_of_fmap in Hin as ([k' r'] & -> & [_ Hin]%list_elem_of_filter).
  apply list_elem_of_fmap. by exists (k', r').
Qed.

Lemma where_rows_singleton t P k r :
  t !! k = Some r → P r = true →
  (∀ k' r', t !! k' = Some r' → P r' = true → k' = k) → where_rows t P = [(k, r)].
Proof.
  intros Hk HP Huniq. apply Permutation_singleton_r, NoDup_Permutation.
  - eapply NoDup_fmap_1, NoDup_where_rows.
  - apply NoDup_singleton.
  - intros [k' r']. rewrite list_elem_of_singleton, elem_of_where_rows. split.
    + intros [Hk' HP']. assert (k' = k) as -> by eauto. congruence.
    + by intros [= -> ->].
Qed.

Lemma where_rows_nil t P :
  (∀ k r, t !! k = Some r → P r = false) → where_rows t P = [].
Proof.
  intros H. destruct (where_rows t P) as [|[k r] l] eqn:E; [done|].
  assert ((k, r) ∈ where_rows t P) as [Hk HP]%elem_of_where_rows by (rewrite E; left).
  apply H in Hk. congruence.
Qed.

Lemma elem_of_order_by (column : R → Z) l x : x ∈ order_by column l ↔ x ∈ l.
Proof. unfold order_by. by rewrite merge_sort_Permutation. Qed.

Lemma NoDup_order_by (column : R → Z) (l : list (uuid * R)) :
  NoDup l.*1 → NoDup (order_by column l).*1.
Proof. unfold order_by. by rewrite merge_sort_Permutation. Qed.

Lemma order_by_singleton (column : R → Z) x : order_by column [x] = [x].
Proof. done. Qed.

#[global] Instance order_le_total (column : R → Z) : Total (order_le column).
Proof. intros [k1 r1] [k2 r2]. unfold order_le. cbn. lia. Qed.
#[global] Instance order_le_trans (column : R → Z) : Transitive (order_le column).
Proof. intros [k1 r1] [k2 r2] [k3 r3]. unfold order_le. cbn. lia. Qed.

(** The first row of an ordered query precedes the others. *)
Lemma order_by_sorted (column : R → Z) l : StronglySorted (order_le column) (order_by column l).
Proof. unfold order_by. apply StronglySorted_merge_sort; apply _. Qed.

Lemma by_id_Some t id P k :
  by_id t id P = Some k ↔ k = id ∧ ∃ r, t !! id = Some r ∧ P r = true.
Proof.
  unfold by_id. split.
  - destruct (t !! id) as [r|] eqn:Ht; [destruct (P r) eqn:?|]; intros [= <-]; eauto.
  - by intros (-> & r & -> & ->).
Qed.
End queries.

(** ** Constraints of all rows *)

Lemma all_rows_spec {K R} `{Countable K} (f : R → bool) (m : gmap K R) :
  all_rows f m = true ↔ ∀ k r, m !! k = Some r → f r = true.
Proof. unfold all_rows. by rewrite bool_decide_eq_true, map_Forall_lookup. Qed.

Lemma all_rows_alter {K R} `{Countable K} (f : R → bool) (m : gmap K R) g k r :
  all_rows f m = true → m !! k = Some r → f (g r) = true → all_rows f (alter g k m) = true.
Proof.
  rewrite !all_rows_spec. intros Hm Hk Hg k' r'. rewrite lookup_alter. case_decide; subst.
  - rewrite Hk. by intros [= <-].
  - apply Hm.
Qed.

Lemma all_rows_insert {K R} `{Countable K} (f : R → bool) (m : gmap K R) k r :
  all_rows f m = true → f r = true → all_rows f (<[k := r]> m) = true.
Proof.
  rewrite !all_rows_spec. intros Hm Hr k' r'. rewrite lookup_insert. case_decide; subst.
  - by intros [= <-].
  - apply Hm.
Qed.

Lemma status_update_ok_spec {R S} `{EqDecision S} (status : R → S) terminal (old new : gmap uuid R) :
  status_update_ok status terminal old new = true ↔
  ∀ k o n, old !! k = Some o → new !! k = Some n →
    status o = status n ∨ terminal (status o) = false.
Proof.
  unfold status_update_ok. rewrite bool_decide_eq_true, map_Forall_lookup. split.
  - intros H' k o n Ho Hn. specialize (H' k o Ho). cbn in H'. rewrite Hn in H'.
    apply orb_true_iff in H' as [H'|H']; breflect; [by left|by right].
  - intros H' k o Ho. destruct (new !! k) as [n|] eqn:Hn; [|done].
    apply orb_true_iff. destruct (H' k o n Ho Hn) as [->|Ht].
    + left. apply eqv_refl.
    + right. by rewrite Ht.
Qed.

(** ** [func.max] *)

Lemma foldr_max_spec x l : (∀ y, y ∈ x :: l → y ≤ foldr Z.max x l) ∧ foldr Z.max x l ∈ x :: l.
Proof.
  induction l as [|z l [IH1 IH2]]; cbn.
  - split; [|set_solver]. intros y ->%list_elem_of_singleton. lia.
  - split.
    + intros y Hy. assert (y = z ∨ y ∈ x :: l) as [->|Hy'] by set_solver; [lia|].
      specialize (IH1 y Hy'). lia.
    + destruct (Z.max_spec z (foldr Z.max x l)) as [[? ->]|[? ->]]; set_solver.
Qed.
