(* ===== verification/LedgerInv.v ===== *)
(** The abstract specification of a run: the automaton that a run's event
    history has to follow.  [Ledger], [Lease] and [Maintenance] implement it;
    [LedgerInv] proves the refinement. *)
From S2P Require Import Prelude Types Json Store Session Ledger Hoare.

(** [pre_dispatch]: no tool call can have been sent yet. *)
Definition pre_dispatch (s : RunStatus.t) : bool :=
  match s with
  | RunStatus.QUEUED | RunStatus.PREPARING | RunStatus.SESSION_FENCED => true
  | _ => false
  end.

Definition leased (s : RunStatus.t) : bool :=
  match s with RunStatus.PREPARING | RunStatus.SESSION_FENCED => true | _ => false end.

Inductive step : RunStatus.t → RunEventType.t → RunStatus.t → Prop :=
| step_attempt s :
    pre_dispatch s = true → step s RunEventType.ATTEMPT_STARTED RunStatus.PREPARING
| step_lease_lost s :
    leased s = true → step s RunEventType.LEASE_LOST s
| step_session :
    step RunStatus.PREPARING RunEventType.SESSION_FENCED RunStatus.SESSION_FENCED
| step_dispatch :
    step RunStatus.SESSION_FENCED RunEventType.DISPATCH_FENCED RunStatus.DISPATCH_FENCED
| step_cancelled s :
    pre_dispatch s = true → step s RunEventType.CANCEL_REQUESTED RunStatus.CANCELLED
| step_cancel_requested :
    step RunStatus.DISPATCH_FENCED RunEventType.CANCEL_REQUESTED RunStatus.DISPATCH_FENCED
| step_succeeded :
    step RunStatus.DISPATCH_FENCED RunEventType.TERMINAL RunStatus.SUCCEEDED
| step_failed s :
    RunStatus.active s = true → step s RunEventType.TERMINAL RunStatus.FAILED
| step_worker_cancelled s :
    leased s = true → step s RunEventType.TERMINAL RunStatus.CANCELLED
| step_timed_out s :
    pre_dispatch s = true → step s RunEventType.TERMINAL RunStatus.TIMED_OUT
| step_indeterminate :
    step RunStatus.DISPATCH_FENCED RunEventType.TERMINAL RunStatus.INDETERMINATE
| step_content_timed_out s :
    pre_dispatch s = true → step s RunEventType.CONTENT_EXPIRED RunStatus.TIMED_OUT
| step_content_indeterminate :
    step RunStatus.DISPATCH_FENCED RunEventType.CONTENT_EXPIRED RunStatus.INDETERMINATE
| step_content_terminal s :
    RunStatus.terminal s = true → step s RunEventType.CONTENT_EXPIRED s
| step_restored s :
    pre_dispatch s = true → step s RunEventType.RESTORE_RECONCILED RunStatus.CANCELLED
| step_restored_indeterminate :
    step RunStatus.DISPATCH_FENCED RunEventType.RESTORE_RECONCILED RunStatus.INDETERMINATE.

#[export] Hint Constructors step : lifecycle.

(** A history of (event, status after it) pairs that the automaton accepts,
    and the status it ends in. *)
Notation entry := (RunEventType.t * RunStatus.t)%type.

Inductive path : list entry → RunStatus.t → Prop :=
| path_admitted : path [(RunEventType.ADMITTED, RunStatus.QUEUED)] RunStatus.QUEUED
| path_step h s ev s' : path h s → step s ev s' → path (h ++ [(ev, s')]) s'.
#[export] Hint Constructors path : lifecycle.

(** ** What the automaton guarantees *)

Lemma path_nonempty h s : path h s → h ≠ [].
Proof. destruct 1; [done|]. by destruct h. Qed.

Lemma path_last h s : path h s → snd <$> last h = Some s.
Proof. destruct 1; [done|]. by rewrite last_snoc. Qed.

(** A terminal status is never left. *)
Lemma step_terminal s ev s' : step s ev s' → RunStatus.terminal s = true → s' = s.
Proof. destruct 1; intros H'; try done; by destruct s. Qed.

(** A dispatch fence is only entered from a session fence, and is left only
    towards a terminal status. *)
Lemma step_dispatched s ev s' :
  step s ev s' → s = RunStatus.DISPATCH_FENCED →
  s' = RunStatus.DISPATCH_FENCED ∨ RunStatus.terminal s' = true.
Proof. destruct 1; intros Heq; simplify_eq; try done; auto; subst; try done. Qed.

Definition is_dispatch (e : entry) : bool := eqv e.1 RunEventType.DISPATCH_FENCED.
Definition dispatches (h : list entry) : nat := length (List.filter is_dispatch h).

Lemma dispatches_snoc h e :
  dispatches (h ++ [e]) = dispatches h + (if is_dispatch e then 1 else 0).
Proof.
  unfold dispatches. rewrite List.filter_app, length_app. cbn. by destruct (is_dispatch e).
Qed.

Lemma dispatches_path h s :
  path h s → dispatches h ≤ 1 ∧ (pre_dispatch s = true → dispatches h = 0)
             ∧ (s = RunStatus.SUCCEEDED → dispatches h = 1)
             ∧ (s = RunStatus.DISPATCH_FENCED → dispatches h = 1).
Proof.
  induction 1 as [|h s ev s' Hp (Hle & Hpre & Hs & Hd) Hst]; [by vm_compute; naive_solver|].
  rewrite dispatches_snoc. unfold is_dispatch. cbn [fst].
  destruct Hst; cbn; repeat split; try (intros; done); try lia;
    try (intros; subst; naive_solver lia); try (destruct s; naive_solver lia).
Qed.

(** ** Extensions of a history *)

Lemma path_snoc_inv h e s :
  path (h ++ [e]) s → h ≠ [] → ∃ s0, path h s0 ∧ step s0 e.1 s ∧ e.2 = s.
Proof.
  intros Hp Hne. inversion Hp as [Heq|h0 s0 ev s' Hp0 Hst Heq]; subst.
  - by destruct h as [|x [|y l]].
  - apply app_inj_tail in Heq as [-> <-]. by exists s0.
Qed.

Lemma path_fun h s s' : path h s → path h s' → s = s'.
Proof. intros H1%path_last H2%path_last. rewrite H1 in H2. by injection H2. Qed.

(** Once terminal, always terminal. *)
Lemma path_extend_terminal h k s s' :
  path h s → path (h ++ k) s' → RunStatus.terminal s = true → s' = s.
Proof.
  intros Hp. revert s'. induction k as [|e k IH] using rev_ind; intros s'.
  - rewrite app_nil_r. intros Hp' _. by eapply path_fun.
  - rewrite app_assoc. intros Hp' Ht. apply path_snoc_inv in Hp' as (s0 & Hp0 & Hst & _).
    + assert (s0 = s) as -> by by apply IH. by eapply step_terminal.
    + apply path_nonempty in Hp. by destruct h.
Qed.

(** * The invariant of the execution ledger and the facts about it that do not
    mention the unit of work: which rows belong to a run, what a consistent
    run looks like, and how an update of one run preserves the others. *)

Local Open Scope Z_scope.

(** ** The rows of one run *)

Definition entry_of (e : RunEvent.t) : entry := (RunEvent.event_type e, RunEvent.status e).
Definition history (run : uuid) (d : ExecutionDb.t) : list entry := entry_of <$> events_of run d.

(** Two databases agree on the jobs, attempts and events of a run. *)
Record lineage_eq (run : uuid) (d d' : ExecutionDb.t) : Prop := {
  le_jobs : ∀ k j, Job.run_id j = run → ExecutionDb.jobs d !! k = Some j ↔ ExecutionDb.jobs d' !! k = Some j;
  le_attempts : ∀ k a, RunAttempt.run_id a = run →
    ExecutionDb.run_attempts d !! k = Some a ↔ ExecutionDb.run_attempts d' !! k = Some a;
  le_events : events_of run d = events_of run d' }.

#[global] Instance lineage_eq_equivalence run : Equivalence (lineage_eq run).
Proof.
  split.
  - by constructor.
  - intros d d' [H1 H2 H3]. constructor; [..|done]; intros; symmetry; auto.
  - intros d d' d'' [H1 H2 H3] [H1' H2' H3']. constructor.
    + intros k j Hj. by rewrite H1, H1'.
    + intros k a Ha. by rewrite H2, H2'.
    + by rewrite H3.
Qed.

(** [job] is the one job of the run. *)
Definition only_job (d : ExecutionDb.t) (run job : uuid) (j : Job.t) : Prop :=
  ExecutionDb.jobs d !! job = Some j ∧ Job.run_id j = run
  ∧ ∀ k j', ExecutionDb.jobs d !! k = Some j' → Job.run_id j' = run → k = job.

(** An attempt of the run that is still active. *)
Definition active_attempt (d : ExecutionDb.t) (run k : uuid) (a : RunAttempt.t) : Prop :=
  ExecutionDb.run_attempts d !! k = Some a ∧ RunAttempt.run_id a = run
  ∧ RunAttempt.active (RunAttempt.status a) = true.

(** The job status that goes with a run status. *)
Definition job_status_for (s : RunStatus.t) : JobStatus.t :=
  match s with
  | RunStatus.QUEUED => JobStatus.QUEUED
  | RunStatus.PREPARING | RunStatus.SESSION_FENCED | RunStatus.DISPATCH_FENCED => JobStatus.LEASED
  | RunStatus.SUCCEEDED => JobStatus.SUCCEEDED
  | RunStatus.FAILED => JobStatus.FAILED
  | RunStatus.CANCELLED => JobStatus.CANCELLED
  | RunStatus.TIMED_OUT => JobStatus.TIMED_OUT
  | RunStatus.INDETERMINATE => JobStatus.INDETERMINATE
  end.

(** Active attempts mirror the run: there is at most one, in the run's status
    and under the job's lease epoch; hence none while the run is queued or
    terminal. *)
Record attempts_ok (d : ExecutionDb.t) (run : uuid) (status : RunStatus.t) (epoch : Z) : Prop := {
  ao_agree : ∀ k a, active_attempt d run k a →
    RunAttempt.status a = status ∧ RunAttempt.lease_epoch a = epoch;
  ao_unique : ∀ k k' a a', active_attempt d run k a → active_attempt d run k' a' → k = k' }.

Record lineage_ok (d : ExecutionDb.t) (run : uuid) (status : RunStatus.t)
    (workspace : uuid) (deadline : instant) : Prop := {
  lo_history : path (history run d) status;
  lo_sequences : RunEvent.sequence <$> events_of run d = seqZ 1 (len (events_of run d));
  lo_job : ∃ job j, only_job d run job j ∧ Job.workspace_id j = workspace
    ∧ Job.deadline j = deadline ∧ Job.status j = job_status_for status
    ∧ attempts_ok d run status (Job.lease_epoch j) }.

#[global] Instance only_job_proper run :
  Proper (lineage_eq run ==> eq ==> eq ==> iff) (λ d, only_job d run).
Proof.
  assert (∀ d d' job j, lineage_eq run d d' → only_job d run job j → only_job d' run job j) as H.
  { intros d d' job j [Hj _ _] (H1 & H2 & H3). split; [by apply Hj|]. split; [done|].
    intros k j' Hk Hr. apply Hj in Hk; eauto. }
  intros d d' Hd ? job -> ? j ->. split; apply H; done.
Qed.

#[global] Instance active_attempt_proper run :
  Proper (lineage_eq run ==> eq ==> eq ==> iff) (λ d, active_attempt d run).
Proof.
  intros d d' [_ Ha _] ? k -> ? a ->. unfold active_attempt.
  split; intros (H1 & H2 & H3); (split; [by apply Ha|done]).
Qed.

Lemma attempts_ok_eq run d d' status epoch :
  lineage_eq run d d' → attempts_ok d run status epoch → attempts_ok d' run status epoch.
Proof.
  intros Hd [H1 H2]. constructor.
  - intros k a Ha. apply (H1 k). by apply (active_attempt_proper _ _ _ Hd k k eq_refl a a eq_refl).
  - intros k k' a a' Ha Ha'. apply (H2 k k' a a');
      by apply (active_attempt_proper _ _ _ Hd _ _ eq_refl _ _ eq_refl).
Qed.

#[global] Instance lineage_ok_proper run :
  Proper (lineage_eq run ==> eq ==> eq ==> eq ==> iff) (λ d, lineage_ok d run).
Proof.
  assert (∀ d d' s w t, lineage_eq run d d' → lineage_ok d run s w t → lineage_ok d' run s w t) as H.
  { intros d d' s w t Hd [H1 H2 (job & j & Hj & Hw & Ht & Hs & Ha)].
    unfold history in *. rewrite (le_events _ _ _ Hd) in H1, H2. constructor; [done..|].
    exists job, j. split_and!; [|done..|].
    - by apply (only_job_proper _ _ _ Hd job job eq_refl j j eq_refl).
    - by eapply attempts_ok_eq. }
  intros d d' Hd ? s -> ? w -> ? t ->. split; apply H; done.
Qed.

Definition run_ok (d : ExecutionDb.t) (run : uuid) (r : Run.t) : Prop :=
  Run.id r = run ∧ lineage_ok d run (Run.status r) (Run.workspace_id r) (Run.deadline r).

(** ** The invariant *)

Record ledger_inv (d : ExecutionDb.t) : Prop := {
  li_checks : execution_checks d = true;
  li_runs : ∀ run r, ExecutionDb.runs d !! run = Some r → run_ok d run r;
  li_jobs : ∀ k j, ExecutionDb.jobs d !! k = Some j → is_Some (ExecutionDb.runs d !! Job.run_id j);
  li_attempts : ∀ k a, ExecutionDb.run_attempts d !! k = Some a →
    is_Some (ExecutionDb.runs d !! RunAttempt.run_id a);
  li_events : ∀ e, e ∈ ExecutionDb.run_events d →
    is_Some (ExecutionDb.runs d !! RunEvent.run_id e) }.

Lemma elem_of_events_of run d e :
  e ∈ events_of run d ↔ e ∈ ExecutionDb.run_events d ∧ RunEvent.run_id e = run.
Proof. unfold events_of. rewrite list_elem_of_filter. naive_solver. Qed.

(** Two databases agree on everything that belongs to a run. *)
Definition same (run : uuid) (d d' : ExecutionDb.t) : Prop :=
  ExecutionDb.runs d !! run = ExecutionDb.runs d' !! run ∧ lineage_eq run d d'.

#[global] Instance same_equivalence run : Equivalence (same run).
Proof.
  split.
  - intros d. by split.
  - intros d d' [H1 H2]. split; by symmetry.
  - intros d d' d'' [H1 H2] [H1' H2']. split; by etrans.
Qed.

(** A change that is confined to one run, and leaves it consistent, preserves
    the invariant. *)
Lemma ledger_inv_update d d' run r :
  ledger_inv d → (∀ run', run' ≠ run → same run' d d') →
  execution_checks d' = true → ExecutionDb.runs d' !! run = Some r → run_ok d' run r →
  ledger_inv d'.
Proof.
  intros [_ Hruns Hjobs Hatt Hev] Hsame Hchecks Hr Hok.
  assert (∀ run', (run' ≠ run → is_Some (ExecutionDb.runs d !! run')) →
            is_Some (ExecutionDb.runs d' !! run')) as Hfk.
  { intros run' H. destruct (decide (run' = run)) as [->|Hne]; [by eexists|].
    destruct (Hsame run' Hne) as [<- _]. auto. }
  constructor; [done|..].
  - intros run' r' Hr'. destruct (decide (run' = run)) as [->|Hne]; [congruence|].
    destruct (Hsame run' Hne) as [Hrow Hlin]. rewrite <- Hrow in Hr'.
    destruct (Hruns run' r' Hr') as [Hid Hlo]. split; [done|].
    by apply (lineage_ok_proper _ _ _ Hlin _ _ eq_refl _ _ eq_refl _ _ eq_refl).
  - intros k j Hk. apply Hfk. intros Hne. apply (Hjobs k).
    by apply (le_jobs _ _ _ (proj2 (Hsame _ Hne))).
  - intros k a Hk. apply Hfk. intros Hne. apply (Hatt k).
    by apply (le_attempts _ _ _ (proj2 (Hsame _ Hne))).
  - intros e He. apply Hfk. intros Hne. apply (Hev e).
    assert (e ∈ events_of (RunEvent.run_id e) d') as He' by by apply elem_of_events_of.
    rewrite <- (le_events _ _ _ (proj2 (Hsame _ Hne))) in He'.
    by apply elem_of_events_of in He' as [??].
Qed.

(** Tables that no run's lineage depends on may change freely. *)
Lemma ledger_inv_frame d d' :
  ledger_inv d → execution_checks d' = true →
  ExecutionDb.runs d' = ExecutionDb.runs d → ExecutionDb.jobs d' = ExecutionDb.jobs d →
  ExecutionDb.run_attempts d' = ExecutionDb.run_attempts d →
  ExecutionDb.run_events d' = ExecutionDb.run_events d → ledger_inv d'.
Proof.
  intros [_ H1 H2 H3 H4] Hch Hr Hj Ha He.
  assert (∀ run, lineage_eq run d d') as Hlin.
  { intros run. constructor; intros; rewrite ?Hj, ?Ha; [done..|]. unfold events_of. by rewrite He. }
  constructor; rewrite ?Hr, ?Hj, ?Ha, ?He; try done.
  intros run r Hrow. destruct (H1 run r Hrow) as [Hid Hlo]. split; [done|].
  by apply (lineage_ok_proper _ _ _ (Hlin run) _ _ eq_refl _ _ eq_refl _ _ eq_refl).
Qed.

(** ** Elementary writes are confined to one run *)

(** Every row that differs between two tables belongs to [run]. *)
Definition owned {R} (run_id : R → uuid) (run : uuid) (m m' : gmap uuid R) : Prop :=
  ∀ k, m !! k = m' !! k
       ∨ (∀ x, m !! k = Some x → run_id x = run) ∧ (∀ x, m' !! k = Some x → run_id x = run).

Section owned.
Context {R : Type} (run_id : R → uuid) (run : uuid).
Implicit Types (m : gmap uuid R).

Lemma owned_refl m : owned run_id run m m.
Proof. intros k. by left. Qed.

Lemma owned_alter m k f :
  (∀ x, m !! k = Some x → run_id x = run ∧ run_id (f x) = run) → owned run_id run m (alter f k m).
Proof.
  intros Hk k'. rewrite lookup_alter. case_decide; [subst k'; right|by left].
  destruct (m !! k) as [x|]; cbn; [|done]. destruct (Hk x eq_refl). naive_solver.
Qed.

Lemma owned_insert m k x : m !! k = None → run_id x = run → owned run_id run m (<[k := x]> m).
Proof.
  intros Hk Hx k'. rewrite lookup_insert. case_decide; [subst k'; right|by left].
  rewrite Hk. naive_solver.
Qed.

Lemma owned_lookup m m' run' k x :
  owned run_id run m m' → run' ≠ run → run_id x = run' → m !! k = Some x ↔ m' !! k = Some x.
Proof. intros Ho Hne Hx. destruct (Ho k) as [->|[H1 H2]]; [done|]. naive_solver congruence. Qed.
End owned.

Lemma same_of d d' run run' :
  run' ≠ run → ExecutionDb.runs d !! run' = ExecutionDb.runs d' !! run' →
  owned Job.run_id run (ExecutionDb.jobs d) (ExecutionDb.jobs d') →
  owned RunAttempt.run_id run (ExecutionDb.run_attempts d) (ExecutionDb.run_attempts d') →
  events_of run' d = events_of run' d' → same run' d d'.
Proof.
  intros Hne Hr Hj Ha He. split; [done|]. constructor; [..|done].
  - intros k j ?. by eapply owned_lookup.
  - intros k a ?. by eapply owned_lookup.
Qed.

Lemma events_of_append_ne run' d e :
  RunEvent.run_id e ≠ run' →
  events_of run' d
  = events_of run' (d <| ExecutionDb.run_events := ExecutionDb.run_events d ++ [e] |>).
Proof.
  intros He. unfold events_of. cbn. by rewrite filter_app, filter_cons_False, app_nil_r by done.
Qed.

Lemma events_of_append run d e :
  RunEvent.run_id e = run →
  events_of run (d <| ExecutionDb.run_events := ExecutionDb.run_events d ++ [e] |>)
  = events_of run d ++ [e].
Proof. intros He. unfold events_of. cbn. by rewrite filter_app, filter_cons_True by done. Qed.
