(* ===== verification/LedgerStep.v ===== *)
(** The state changes of the ledger as pure functions of the execution tables,
    and that each of them preserves the invariant.  [LedgerWp] shows that the
    services compute these functions. *)
From S2P Require Import Prelude Types Json Store Session Ledger LedgerInv Hoare.
Local Open Scope Z_scope.

(** ** Constraints and histories *)

Lemma execution_checks_spec d :
  execution_checks d = true ↔
  (∀ st, ExecutionDb.system_execution_state d = Some st → SystemExecutionState.checks st = true)
  ∧ all_rows Run.checks (ExecutionDb.runs d) = true
  ∧ all_rows RunResult.checks (ExecutionDb.run_results d) = true
  ∧ all_rows Job.checks (ExecutionDb.jobs d) = true
  ∧ all_rows RunAttempt.checks (ExecutionDb.run_attempts d) = true
  ∧ forallb RunEvent.checks (ExecutionDb.run_events d) = true
  ∧ all_rows ConfirmationNonce.checks (ExecutionDb.confirmation_nonces d) = true
  ∧ all_rows IdempotencyRecord.checks (ExecutionDb.idempotency_records d) = true.
Proof.
  unfold execution_checks. rewrite !andb_true_iff.
  destruct (ExecutionDb.system_execution_state d); naive_solver.
Qed.

Lemma checks_run d run r :
  execution_checks d = true → ExecutionDb.runs d !! run = Some r → Run.checks r = true.
Proof. intros (_ & H & _)%execution_checks_spec. by apply all_rows_spec. Qed.
Lemma checks_job d k j :
  execution_checks d = true → ExecutionDb.jobs d !! k = Some j → Job.checks j = true.
Proof. intros (_ & _ & _ & H & _)%execution_checks_spec. by apply all_rows_spec. Qed.
Lemma checks_attempt d k a :
  execution_checks d = true → ExecutionDb.run_attempts d !! k = Some a → RunAttempt.checks a = true.
Proof. intros (_ & _ & _ & _ & H & _)%execution_checks_spec. by apply all_rows_spec. Qed.

Lemma forallb_snoc {A} (f : A → bool) l x :
  forallb f l = true → f x = true → forallb f (l ++ [x]) = true.
Proof. intros H1 H2. rewrite forallb_app. cbn. by rewrite H1, H2. Qed.

(** Appending the next event extends the history by one step. *)
Lemma append_history d d' run s e :
  path (history run d) s → RunEvent.sequence <$> events_of run d = seqZ 1 (len (events_of run d)) →
  events_of run d' = events_of run d ++ [e] →
  RunEvent.sequence e = len (events_of run d) + 1 →
  step s (RunEvent.event_type e) (RunEvent.status e) →
  path (history run d') (RunEvent.status e)
  ∧ RunEvent.sequence <$> events_of run d' = seqZ 1 (len (events_of run d')).
Proof.
  intros Hp Hs He Hq Hst. unfold history. rewrite He, fmap_app. split.
  - by apply (path_step _ s).
  - rewrite fmap_app, Hs. unfold len. rewrite length_app. cbn.
    rewrite Nat2Z.inj_add, seqZ_app by lia. f_equal. cbn. unfold len in Hq.
    rewrite Hq. change (Z.of_nat 1) with 1. rewrite seqZ_cons by lia. cbn. f_equal. lia.
Qed.

(** The sequence number chosen by [_append_next_event]. *)
Lemma max_of_seqZ n : 0 ≤ n → default 0 (max_of (seqZ 1 n)) = n.
Proof.
  intros Hn. destruct (max_of (seqZ 1 n)) as [m|] eqn:E; cbn.
  - unfold max_of in E. destruct (seqZ 1 n) as [|x l] eqn:El; simplify_eq.
    destruct (foldr_max_spec x l) as [Hle Hin]. rewrite <- El in *.
    apply elem_of_seqZ in Hin. specialize (Hle n). rewrite elem_of_seqZ in Hle. lia.
  - unfold max_of in E. destruct (seqZ 1 n) as [|x l] eqn:El; [|done].
    assert (length (seqZ 1 n) = 0%nat) as H by by rewrite El. rewrite length_seqZ in H. lia.
Qed.

(** ** Closing a run *)

(** The rows written when a run becomes terminal: the run, its job, its active
    attempt if any, and one event. *)
Definition close_run (d : ExecutionDb.t) (run job : uuid) (attempt : option uuid)
    (status : RunStatus.t) (code : option RunFailureCode.t) (now : instant) (e : RunEvent.t)
    : ExecutionDb.t :=
  d <| ExecutionDb.runs := alter (λ r, r <| Run.status := status |>
                                         <| Run.safe_error_code := code |>
                                         <| Run.updated_at := now |>
                                         <| Run.terminal_at := Some now |>)
                             run (ExecutionDb.runs d) |>
    <| ExecutionDb.jobs := alter (λ j, j <| Job.status := job_status_for status |>
                                         <| Job.lease_owner := None |>
                                         <| Job.lease_expires_at := None |>
                                         <| Job.completed_at := Some now |>)
                             job (ExecutionDb.jobs d) |>
    <| ExecutionDb.run_attempts :=
         match attempt with
         | None => ExecutionDb.run_attempts d
         | Some k => alter (λ a, a <| RunAttempt.status := status |>
                                   <| RunAttempt.safe_error_code := code |>
                                   <| RunAttempt.terminal_at := Some now |>)
                       k (ExecutionDb.run_attempts d)
         end |>
    <| ExecutionDb.run_events := ExecutionDb.run_events d ++ [e] |>.

(** [e] is the event that the primitives would append next for the run. *)
Definition next_event (d : ExecutionDb.t) (run : uuid) (e : RunEvent.t) : Prop :=
  RunEvent.run_id e = run ∧ RunEvent.sequence e = len (events_of run d) + 1
  ∧ error_code_checks (RunEvent.status e) (RunEvent.safe_error_code e) = true.

Lemma next_event_checks d run e : next_event d run e → RunEvent.checks e = true.
Proof.
  intros (_ & Hs & Hc). unfold RunEvent.checks. rewrite Hs, Hc, andb_true_r.
  pose proof (len_nonneg (events_of run d)). lia.
Qed.

(** [attempt] is the active attempt of the run, if it has one. *)
Definition the_attempt (d : ExecutionDb.t) (run : uuid) (attempt : option uuid) : Prop :=
  match attempt with
  | Some k => ∃ a, active_attempt d run k a
  | None => ∀ k a, ¬ active_attempt d run k a
  end.

(** ** Listeners *)

Lemma status_update_ok_refl {R S} `{EqDecision S} (status : R → S) terminal (m : gmap uuid R) :
  status_update_ok status terminal m m = true.
Proof. apply status_update_ok_spec. intros k o n Ho Hn. left. congruence. Qed.

Lemma status_update_ok_alter {R S} `{EqDecision S} (status : R → S) terminal (m : gmap uuid R) f k :
  (∀ o, m !! k = Some o → status o = status (f o) ∨ terminal (status o) = false) →
  status_update_ok status terminal m (alter f k m) = true.
Proof.
  intros Hf. apply status_update_ok_spec. intros k' o n Ho. rewrite lookup_alter.
  case_decide; subst; [|naive_solver congruence]. rewrite Ho. intros [= <-]. by apply Hf.
Qed.

Lemma status_update_ok_insert {R S} `{EqDecision S} (status : R → S) terminal (m : gmap uuid R) r k :
  m !! k = None → status_update_ok status terminal m (<[k := r]> m) = true.
Proof.
  intros Hk. apply status_update_ok_spec. intros k' o n Ho. rewrite lookup_insert.
  case_decide; subst; naive_solver congruence.
Qed.

Lemma status_update_ok_trans {R S} `{EqDecision S} (status : R → S) terminal (m1 m2 m3 : gmap uuid R) :
  status_update_ok status terminal m1 m2 = true → status_update_ok status terminal m2 m3 = true →
  dom m1 ⊆ dom m2 → status_update_ok status terminal m1 m3 = true.
Proof.
  rewrite !status_update_ok_spec. intros H12 H23 Hdom k o n Ho Hn.
  assert (is_Some (m2 !! k)) as [x Hx] by (apply elem_of_dom, Hdom, elem_of_dom; by eexists).
  destruct (H12 k o x Ho Hx) as [->|?], (H23 k x n Hx Hn); auto.
Qed.

(** No row disappears, and the listeners accept the change. *)
Record extends (d d' : ExecutionDb.t) : Prop := {
  ex_listeners : listeners_accept d d' = true;
  ex_runs : dom (ExecutionDb.runs d) ⊆ dom (ExecutionDb.runs d');
  ex_jobs : dom (ExecutionDb.jobs d) ⊆ dom (ExecutionDb.jobs d');
  ex_attempts : dom (ExecutionDb.run_attempts d) ⊆ dom (ExecutionDb.run_attempts d') }.

#[global] Instance extends_preorder : PreOrder extends.
Proof.
  split.
  - intros d. constructor; [|done..]. unfold listeners_accept. by rewrite !status_update_ok_refl.
  - intros d1 d2 d3 [H1 R1 J1 A1] [H2 R2 J2 A2]. constructor; [|set_solver..].
    unfold listeners_accept in *. breflect.
    rewrite !andb_true_iff; split_and!; by eapply status_update_ok_trans.
Qed.

(** A change of one run that keeps the ledger consistent. *)
Record run_change (run : uuid) (d d' : ExecutionDb.t) : Prop := {
  rc_inv : ledger_inv d';
  rc_same : ∀ run', run' ≠ run → same run' d d';
  rc_extends : extends d d';
  rc_state : ExecutionDb.system_execution_state d' = ExecutionDb.system_execution_state d }.

Section change.
Context (d : ExecutionDb.t) (run job : uuid) (r : Run.t) (j : Job.t).
Context (Hinv : ledger_inv d) (Hr : ExecutionDb.runs d !! run = Some r).
Context (Hj : only_job d run job j).

Let Hok : run_ok d run r := li_runs d Hinv run r Hr.

(** What the invariant says of [job], the run's job. *)
Lemma lineage_job :
  Job.workspace_id j = Run.workspace_id r ∧ Job.deadline j = Run.deadline r
  ∧ Job.status j = job_status_for (Run.status r)
  ∧ attempts_ok d run (Run.status r) (Job.lease_epoch j).
Proof using Hinv Hr Hj.
  destruct Hok as [_ [_ _ (job' & j' & (H1 & H2 & H3) & Hrest)]].
  destruct Hj as (Hjk & Hjr & Huniq).
  assert (job' = job) as -> by eauto. simplify_eq. exact Hrest.
Qed.

Lemma job_of_run k j' : ExecutionDb.jobs d !! k = Some j' → k = job → Job.run_id j' = run.
Proof using Hj. intros Hk ->. destruct Hj as (? & ? & _). congruence. Qed.

(** A history after one more event, or unchanged. *)
Lemma event_history d' e s' :
  events_of run d' = events_of run d ++ [e] → next_event d run e → RunEvent.status e = s' →
  step (Run.status r) (RunEvent.event_type e) s' →
  path (history run d') s' ∧ RunEvent.sequence <$> events_of run d' = seqZ 1 (len (events_of run d')).
Proof using Hinv Hr.
  intros He (_ & Hseq & _) <- Hst. destruct Hok as [_ [Hp Hq _]]. by eapply append_history.
Qed.

Lemma quiet_history d' :
  events_of run d' = events_of run d →
  path (history run d') (Run.status r)
  ∧ RunEvent.sequence <$> events_of run d' = seqZ 1 (len (events_of run d')).
Proof using Hinv Hr. intros He. destruct Hok as [_ [Hp Hq _]]. unfold history. by rewrite He. Qed.

(** What is left to show of a change that is confined to the run. *)
Lemma lineage_update d' r' j' :
  (∀ run', run' ≠ run → same run' d d') → execution_checks d' = true → extends d d' →
  ExecutionDb.system_execution_state d' = ExecutionDb.system_execution_state d →
  ExecutionDb.runs d' !! run = Some r' → Run.id r' = Run.id r →
  Run.workspace_id r' = Run.workspace_id r → Run.deadline r' = Run.deadline r →
  only_job d' run job j' → Job.workspace_id j' = Job.workspace_id j →
  Job.deadline j' = Job.deadline j → Job.status j' = job_status_for (Run.status r') →
  attempts_ok d' run (Run.status r') (Job.lease_epoch j') →
  path (history run d') (Run.status r')
  ∧ RunEvent.sequence <$> events_of run d' = seqZ 1 (len (events_of run d')) →
  run_change run d d'.
Proof using Hinv Hr Hj.
  intros Hsame Hch Hext Hst Hr' Hid Hw Ht Hj' Hjw Hjt Hjs Hatt [Hp Hq].
  destruct lineage_job as (Hjw0 & Hjt0 & _ & _).
  constructor; [|done..]. apply (ledger_inv_update d d' run r'); [done..|].
  split; [by destruct Hok; congruence|]. constructor; [done..|].
  exists job, j'. split_and!; [done|congruence|congruence|done..].
Qed.
End change.

Lemma terminal_not_active s : RunStatus.terminal s = true → RunAttempt.active s = false.
Proof. by destruct s. Qed.

Lemma active_not_terminal_attempt s : RunAttempt.active s = true → RunStatus.terminal s = false.
Proof. by destruct s. Qed.

Lemma job_status_for_terminal s : JobStatus.terminal (job_status_for s) = RunStatus.terminal s.
Proof. by destruct s. Qed.

Lemma only_job_alter d d' run job j f :
  only_job d run job j → ExecutionDb.jobs d' = alter f job (ExecutionDb.jobs d) →
  Job.run_id (f j) = run → only_job d' run job (f j).
Proof.
  intros (Hk & Hr & Hu) Hd' Hf. unfold only_job. rewrite Hd'.
  split_and!; cbn; [by rewrite lookup_alter_eq, Hk|done|].
  intros k j'. rewrite lookup_alter. case_decide; [done|]. apply Hu.
Qed.

Lemma only_job_same d d' run job j :
  only_job d run job j → ExecutionDb.jobs d' = ExecutionDb.jobs d → only_job d' run job j.
Proof. intros Hj Hd'. unfold only_job. by rewrite Hd'. Qed.

Lemma attempts_ok_same d d' run s epoch :
  attempts_ok d run s epoch → ExecutionDb.run_attempts d' = ExecutionDb.run_attempts d →
  attempts_ok d' run s epoch.
Proof. intros [H1 H2] Hd'. by constructor; unfold active_attempt in *; rewrite Hd'. Qed.

(** Writing the active attempt of a run: it becomes inactive. *)
Lemma attempts_ok_closed d d' run s epoch attempt f s' epoch' :
  attempts_ok d run s epoch → the_attempt d run attempt →
  (∀ a, RunAttempt.active (RunAttempt.status (f a)) = false) →
  ExecutionDb.run_attempts d'
  = match attempt with None => ExecutionDb.run_attempts d
                  | Some k => alter f k (ExecutionDb.run_attempts d) end →
  attempts_ok d' run s' epoch'.
Proof.
  intros [_ Hu] Hatt Hf Hd'.
  assert (∀ k a, ¬ active_attempt d' run k a) as Hnone.
  { intros k a (Hk & Hr & Ha). rewrite Hd' in Hk. destruct attempt as [k0|]; [|by eapply Hatt].
    destruct Hatt as [a0 Ha0]. rewrite lookup_alter in Hk. case_decide; subst.
    - destruct Ha0 as (Hk0 & _). rewrite Hk0 in Hk. cbn in Hk. simplify_eq. by rewrite Hf in Ha.
    - assert (k0 = k) by (by eapply Hu). done. }
  constructor; [by intros k a ?%Hnone|by intros k k' a a' ?%Hnone].
Qed.

Lemma close_run_change d run job r j attempt status code now e :
  ledger_inv d → ExecutionDb.runs d !! run = Some r → only_job d run job j →
  RunStatus.terminal (Run.status r) = false → RunStatus.terminal status = true →
  error_code_checks status code = true → the_attempt d run attempt → next_event d run e →
  RunEvent.status e = status → step (Run.status r) (RunEvent.event_type e) status →
  run_change run d (close_run d run job attempt status code now e).
Proof.
  intros Hinv Hr Hj Hnt Ht Hcode Hatt Hev Hes Hst.
  pose proof (lineage_job d run job r j Hinv Hr Hj) as (Hjw & Hjt & Hjs & Hao).
  assert (Job.run_id j = run) as Hjr by apply Hj.
  pose proof (li_checks d Hinv) as Hch. pose proof Hev as (Her & _).
  assert (∀ j, ExecutionDb.jobs d !! job = Some j → Job.run_id j = run) as Hjob
    by (intros j' ?; by eapply job_of_run).
  eapply (lineage_update d run job r j Hinv Hr Hj).
  - intros run' Hne. apply (same_of _ _ run); [done|..]; cbn.
    + by rewrite lookup_alter_ne by done.
    + apply owned_alter. cbn. auto.
    + destruct attempt as [k|]; [|apply owned_refl]. destruct Hatt as [a (Hk & Ha & _)].
      apply owned_alter. cbn. rewrite Hk. by intros a' [= <-].
    + by apply (events_of_append_ne run' d); congruence.
  - apply execution_checks_spec in Hch as (H1 & H2 & H3 & H4 & H5 & H6 & H7 & H8).
    apply execution_checks_spec. split_and!; [done|..|done|done].
    + eapply all_rows_alter; [done..|]. pose proof (proj1 (all_rows_spec _ _) H2 _ _ Hr) as Hc.
      unfold Run.checks in *. cbn. breflect. rewrite Ht, Hcode. cbn. rewrite !andb_true_r.
      rewrite !andb_true_iff, !Z.leb_le. split_and!; done.
    + done.
    + eapply all_rows_alter; [done|apply Hj|]. pose proof (proj1 (all_rows_spec _ _) H4 _ _ (proj1 Hj)) as Hc.
      unfold Job.checks in *. cbn. breflect. rewrite job_status_for_terminal, Ht.
      rewrite !andb_true_iff, Z.ltb_lt, Z.leb_le. split_and!; try done. by destruct status.
    + destruct attempt as [k|]; [|done]. destruct Hatt as [a (Hk & Ha & _)].
      eapply all_rows_alter; [done..|]. pose proof (proj1 (all_rows_spec _ _) H5 _ _ Hk) as Hc.
      unfold RunAttempt.checks in *. cbn. breflect. rewrite Ht, Hcode, orb_true_r. cbn. lia.
    + apply forallb_snoc; [done|]. by eapply next_event_checks.
  - constructor; [|cbn; by rewrite dom_alter_L..|].
    + unfold listeners_accept. rewrite !andb_true_iff. split_and!; cbn.
      * apply status_update_ok_alter. intros o. rewrite Hr. intros [= <-]. auto.
      * apply status_update_ok_alter. intros o. destruct Hj as [-> _]. intros [= <-]. right.
        by rewrite Hjs, job_status_for_terminal.
      * destruct attempt as [k|]; [|apply status_update_ok_refl].
        destruct Hatt as [a (Hk & _ & Ha)]. apply status_update_ok_alter. rewrite Hk.
        intros o [= <-]. right. by apply active_not_terminal_attempt.
    + destruct attempt; cbn; [by rewrite dom_alter_L|done].
  - done.
  - cbn. by rewrite lookup_alter_eq, Hr.
  - done.
  - done.
  - done.
  - by eapply (only_job_alter d).
  - done.
  - done.
  - done.
  - eapply (attempts_ok_closed d); [done..| |reflexivity].
    intros a. by apply terminal_not_active.
  - apply (event_history d run r Hinv Hr _ e); [by apply (events_of_append run d)|done..].
Qed.

(** ** Moving a leased run *)

(** The rows written by a fence. *)
Definition fence_run (d : ExecutionDb.t) (run attempt : uuid) (target : RunStatus.t)
    (now : instant) (e : RunEvent.t) : ExecutionDb.t :=
  d <| ExecutionDb.runs := alter (λ r, r <| Run.status := target |> <| Run.updated_at := now |>)
                             run (ExecutionDb.runs d) |>
    <| ExecutionDb.run_attempts := alter (λ a, a <| RunAttempt.status := target |>)
                                     attempt (ExecutionDb.run_attempts d) |>
    <| ExecutionDb.run_events := ExecutionDb.run_events d ++ [e] |>.

(** Writing the active attempt of a run: it stays the active one. *)
Lemma attempts_ok_moved d d' run s epoch attempt a f s' :
  attempts_ok d run s epoch → active_attempt d run attempt a →
  RunAttempt.run_id (f a) = run → RunAttempt.active s' = true → RunAttempt.status (f a) = s' →
  RunAttempt.lease_epoch (f a) = epoch →
  ExecutionDb.run_attempts d' = alter f attempt (ExecutionDb.run_attempts d) →
  attempts_ok d' run s' epoch.
Proof.
  intros [_ Hu] Ha Hr Hs' <- He Hd'.
  assert (∀ k b, active_attempt d' run k b → k = attempt ∧ b = f a) as Hone.
  { intros k b (Hk & Hbr & Hba). rewrite Hd', lookup_alter in Hk. case_decide; [subst k|].
    - destruct Ha as (Hak & _). rewrite Hak in Hk. cbn in Hk. by simplify_eq.
    - assert (k = attempt) as -> by (by eapply Hu). done. }
  constructor.
  - intros k b Hb. destruct (Hone k b Hb) as [-> ->]. done.
  - intros k k' b b' Hb Hb'. destruct (Hone k b Hb), (Hone k' b' Hb'). congruence.
Qed.

Lemma fence_run_change d run job r j attempt a target now e :
  ledger_inv d → ExecutionDb.runs d !! run = Some r → only_job d run job j →
  active_attempt d run attempt a → RunAttempt.active target = true →
  job_status_for (Run.status r) = JobStatus.LEASED → next_event d run e →
  RunEvent.status e = target → step (Run.status r) (RunEvent.event_type e) target →
  run_change run d (fence_run d run attempt target now e).
Proof.
  intros Hinv Hr Hj Hatt Ht Hl Hev Hes Hst.
  pose proof (lineage_job d run job r j Hinv Hr Hj) as (Hjw & Hjt & Hjs & Hao).
  pose proof (li_checks d Hinv) as Hch. pose proof Hev as (Her & _). destruct Hatt as (Hk & Ha & Hact).
  assert (RunStatus.terminal target = false) as Htt by by apply active_not_terminal_attempt.
  assert (RunStatus.terminal (Run.status r) = false) as Hnt by by destruct (Run.status r).
  eapply (lineage_update d run job r j Hinv Hr Hj).
  - intros run' Hne. apply (same_of _ _ run); [done|..]; cbn.
    + by rewrite lookup_alter_ne by done.
    + apply owned_refl.
    + apply owned_alter. cbn. rewrite Hk. by intros a' [= <-].
    + by apply (events_of_append_ne run' d); congruence.
  - apply execution_checks_spec in Hch as (H1 & H2 & H3 & H4 & H5 & H6 & H7 & H8).
    apply execution_checks_spec. split_and!; [done|..|done|done].
    + eapply all_rows_alter; [done..|]. pose proof (proj1 (all_rows_spec _ _) H2 _ _ Hr) as Hc.
      unfold Run.checks, error_code_checks in *. cbn. breflect. rewrite Htt. rewrite Hnt in *.
      rewrite !andb_true_iff, !Z.leb_le. split_and!; try done. by destruct target.
    + done.
    + done.
    + eapply all_rows_alter; [done..|]. pose proof (proj1 (all_rows_spec _ _) H5 _ _ Hk) as Hc.
      apply active_not_terminal_attempt in Hact.
      unfold RunAttempt.checks, error_code_checks in *. cbn. breflect. rewrite Ht, Htt. rewrite Hact in *.
      rewrite !andb_true_iff, !Z.ltb_lt. split_and!; try done. by destruct target.
    + apply forallb_snoc; [done|]. by eapply next_event_checks.
  - constructor; [|cbn; by rewrite ?dom_alter_L..].
    unfold listeners_accept. rewrite !andb_true_iff. split_and!; cbn.
    + apply status_update_ok_alter. intros o. rewrite Hr. intros [= <-]. auto.
    + apply status_update_ok_refl.
    + apply status_update_ok_alter. rewrite Hk. intros o [= <-]. right.
      by apply active_not_terminal_attempt.
  - done.
  - cbn. by rewrite lookup_alter_eq, Hr.
  - done.
  - done.
  - done.
  - by eapply (only_job_same d).
  - done.
  - done.
  - cbn. rewrite Hjs, Hl. by destruct target.
  - cbn. destruct (ao_agree _ _ _ _ Hao attempt a) as [_ Hep]; [done|].
    by apply (attempts_ok_moved d _ run (Run.status r) _ attempt a (λ a, a <| RunAttempt.status := target |>)).
  - apply (event_history d run r Hinv Hr _ e); [by apply (events_of_append run d)|done..].
Qed.

(** Updating the row of a run without changing its status, with or without an
    event. *)
Definition touch_run (d : ExecutionDb.t) (run : uuid) (f : Run.t → Run.t) (e : option RunEvent.t)
    : ExecutionDb.t :=
  d <| ExecutionDb.runs := alter f run (ExecutionDb.runs d) |>
    <| ExecutionDb.run_events := ExecutionDb.run_events d ++ option_list e |>.

Lemma touch_run_change d run r f e :
  ledger_inv d → ExecutionDb.runs d !! run = Some r →
  Run.id (f r) = Run.id r → Run.workspace_id (f r) = Run.workspace_id r →
  Run.deadline (f r) = Run.deadline r → Run.status (f r) = Run.status r → Run.checks (f r) = true →
  match e with
  | None => True
  | Some e => next_event d run e ∧ RunEvent.status e = Run.status r
              ∧ step (Run.status r) (RunEvent.event_type e) (Run.status r)
  end →
  run_change run d (touch_run d run f e).
Proof.
  intros Hinv Hr Hid Hw Ht Hs Hc He.
  destruct (li_runs d Hinv run r Hr) as [_ [_ _ (job & j & Hj & _)]].
  pose proof (lineage_job d run job r j Hinv Hr Hj) as (Hjw & Hjt & Hjs & Hao).
  pose proof (li_checks d Hinv) as Hch.
  assert (∀ run', run' ≠ run → events_of run' d = events_of run' (touch_run d run f e)) as Hne.
  { intros run' Hne. destruct e as [e|]; [|unfold events_of; cbn; by rewrite app_nil_r].
    apply (events_of_append_ne run' d). destruct He as ((Her & _) & _). congruence. }
  eapply (lineage_update d run job r j Hinv Hr Hj).
  - intros run' Hrun. apply (same_of _ _ run); [done|..]; cbn.
    + by rewrite lookup_alter_ne by done.
    + apply owned_refl.
    + apply owned_refl.
    + by apply Hne.
  - apply execution_checks_spec in Hch as (H1 & H2 & H3 & H4 & H5 & H6 & H7 & H8).
    apply execution_checks_spec. split_and!; [done|..|done|done]; try done.
    + by eapply all_rows_alter.
    + cbn. destruct e as [e|]; cbn; [|by rewrite app_nil_r].
      apply forallb_snoc; [done|]. destruct He as (? & _). by eapply next_event_checks.
  - constructor; [|cbn; by rewrite ?dom_alter_L..].
    unfold listeners_accept. rewrite !andb_true_iff. split_and!; cbn; try apply status_update_ok_refl.
    apply status_update_ok_alter. intros o. rewrite Hr. intros [= <-]. auto.
  - done.
  - cbn. by rewrite lookup_alter_eq, Hr.
  - done.
  - done.
  - done.
  - by eapply (only_job_same d).
  - done.
  - done.
  - by rewrite Hs.
  - rewrite Hs. by eapply (attempts_ok_same d).
  - rewrite Hs. destruct e as [e|].
    + destruct He as (Hev & Hes & Hst). apply (event_history d run r Hinv Hr _ e); try done.
      apply (events_of_append run d). apply Hev.
    + apply (quiet_history d run r Hinv Hr). unfold events_of. cbn. by rewrite app_nil_r.
Qed.

(** ** Leasing a run *)

(** An attempt whose lease expired before dispatch is closed. *)
Definition expire_attempt (d : ExecutionDb.t) (attempt : uuid) (now : instant) (e : RunEvent.t)
    : ExecutionDb.t :=
  d <| ExecutionDb.run_attempts :=
         alter (λ a, a <| RunAttempt.status := RunStatus.FAILED |>
                       <| RunAttempt.safe_error_code := Some RunFailureCode.WORKER_LOST_BEFORE_DISPATCH |>
                       <| RunAttempt.terminal_at := Some now |>)
           attempt (ExecutionDb.run_attempts d) |>
    <| ExecutionDb.run_events := ExecutionDb.run_events d ++ [e] |>.

Lemma expire_attempt_change d run r attempt a now e :
  ledger_inv d → ExecutionDb.runs d !! run = Some r → active_attempt d run attempt a →
  next_event d run e → RunEvent.status e = Run.status r →
  step (Run.status r) (RunEvent.event_type e) (Run.status r) →
  run_change run d (expire_attempt d attempt now e).
Proof.
  intros Hinv Hr Hatt Hev Hes Hst.
  destruct (li_runs d Hinv run r Hr) as [_ [_ _ (job & j & Hj & _)]].
  pose proof (lineage_job d run job r j Hinv Hr Hj) as (Hjw & Hjt & Hjs & Hao).
  pose proof (li_checks d Hinv) as Hch. pose proof Hev as (Her & _).
  pose proof Hatt as (Hk & Ha & Hact).
  eapply (lineage_update d run job r j Hinv Hr Hj).
  - intros run' Hne. apply (same_of _ _ run); [done|..]; cbn.
    + done.
    + apply owned_refl.
    + apply owned_alter. cbn. rewrite Hk. by intros a' [= <-].
    + by apply (events_of_append_ne run' d); congruence.
  - apply execution_checks_spec in Hch as (H1 & H2 & H3 & H4 & H5 & H6 & H7 & H8).
    apply execution_checks_spec. split_and!; try done.
    + eapply all_rows_alter; [done..|]. pose proof (proj1 (all_rows_spec _ _) H5 _ _ Hk) as Hc.
      unfold RunAttempt.checks in *. cbn. breflect.
      rewrite !andb_true_iff, !Z.ltb_lt. by split_and!.
    + apply forallb_snoc; [done|]. by eapply next_event_checks.
  - constructor; [|cbn; by rewrite ?dom_alter_L..].
    unfold listeners_accept. rewrite !andb_true_iff. split_and!; cbn; try apply status_update_ok_refl.
    apply status_update_ok_alter. rewrite Hk. intros o [= <-]. right.
    by apply active_not_terminal_attempt.
  - done.
  - done.
  - done.
  - done.
  - done.
  - by eapply (only_job_same d).
  - done.
  - done.
  - done.
  - eapply (attempts_ok_closed d _ _ _ _ (Some attempt)); [done|by eexists| |reflexivity]. done.
  - apply (event_history d run r Hinv Hr _ e); try done. by apply (events_of_append run d).
Qed.

(** The rows written when a lease is granted. *)
Definition grant_run (d : ExecutionDb.t) (run job attempt : uuid) (worker_id : string)
    (expires_at now : instant) (lease_epoch : Z) (a : RunAttempt.t) (e : RunEvent.t) : ExecutionDb.t :=
  d <| ExecutionDb.jobs := alter (λ j, j <| Job.status := JobStatus.LEASED |>
                                         <| Job.lease_owner := Some worker_id |>
                                         <| Job.lease_epoch := lease_epoch |>
                                         <| Job.lease_expires_at := Some expires_at |>)
                             job (ExecutionDb.jobs d) |>
    <| ExecutionDb.run_attempts := <[attempt := a]> (ExecutionDb.run_attempts d) |>
    <| ExecutionDb.runs := alter (λ r, r <| Run.status := RunStatus.PREPARING |>
                                         <| Run.updated_at := now |>) run (ExecutionDb.runs d) |>
    <| ExecutionDb.run_events := ExecutionDb.run_events d ++ [e] |>.

Lemma grant_run_change d run job r j attempt worker_id expires_at now epoch a e :
  ledger_inv d → ExecutionDb.runs d !! run = Some r → only_job d run job j →
  pre_dispatch (Run.status r) = true → the_attempt d run None →
  ExecutionDb.run_attempts d !! attempt = None → RunAttempt.run_id a = run →
  RunAttempt.status a = RunStatus.PREPARING → RunAttempt.lease_epoch a = epoch →
  RunAttempt.checks a = true → 0 < epoch → next_event d run e →
  RunEvent.event_type e = RunEventType.ATTEMPT_STARTED → RunEvent.status e = RunStatus.PREPARING →
  run_change run d (grant_run d run job attempt worker_id expires_at now epoch a e).
Proof.
  intros Hinv Hr Hj Hpre Hnone Hfresh Har Has Hae Hac Hep Hev Het Hes.
  pose proof (lineage_job d run job r j Hinv Hr Hj) as (Hjw & Hjt & Hjs & Hao).
  pose proof (li_checks d Hinv) as Hch. pose proof Hev as (Her & _).
  assert (RunStatus.terminal (Run.status r) = false) as Hnt by by destruct (Run.status r).
  assert (Job.run_id j = run) as Hjr by apply Hj.
  eapply (lineage_update d run job r j Hinv Hr Hj).
  - intros run' Hne. apply (same_of _ _ run); [done|..]; cbn.
    + by rewrite lookup_alter_ne by done.
    + apply owned_alter. destruct Hj as [-> _]. by intros x [= <-].
    + by apply owned_insert.
    + by apply (events_of_append_ne run' d); congruence.
  - apply execution_checks_spec in Hch as (H1 & H2 & H3 & H4 & H5 & H6 & H7 & H8).
    apply execution_checks_spec. split_and!; [done|..|done|done].
    + eapply all_rows_alter; [done..|]. pose proof (proj1 (all_rows_spec _ _) H2 _ _ Hr) as Hc.
      unfold Run.checks, error_code_checks in *. cbn. breflect. rewrite Hnt in *.
      rewrite !andb_true_iff, !Z.leb_le. by split_and!.
    + done.
    + eapply all_rows_alter; [done|apply Hj|]. pose proof (proj1 (all_rows_spec _ _) H4 _ _ (proj1 Hj)) as Hc.
      unfold Job.checks in *. cbn. breflect.
      rewrite !andb_true_iff, Z.ltb_lt, Z.leb_le. split_and!; try done; [lia|].
      by rewrite Hjs, job_status_for_terminal, Hnt in *.
    + by eapply all_rows_insert.
    + apply forallb_snoc; [done|]. by eapply next_event_checks.
  - constructor; [|cbn; rewrite ?dom_alter_L, ?dom_insert_L; set_solver..].
    unfold listeners_accept. rewrite !andb_true_iff. split_and!; cbn.
    + apply status_update_ok_alter. intros o. rewrite Hr. intros [= <-]. auto.
    + apply status_update_ok_alter. intros o. destruct Hj as [-> _]. intros [= <-]. right.
      by rewrite Hjs, job_status_for_terminal.
    + by apply status_update_ok_insert.
  - done.
  - cbn. by rewrite lookup_alter_eq, Hr.
  - done.
  - done.
  - done.
  - by eapply (only_job_alter d).
  - done.
  - done.
  - done.
  - assert (∀ k b, active_attempt (grant_run d run job attempt worker_id expires_at now epoch a e) run k b
                   → k = attempt ∧ b = a) as Hone.
    { intros k b (Hk & Hbr & Hba). cbn in Hk. rewrite lookup_insert in Hk. case_decide.
      - by simplify_eq.
      - by destruct (Hnone k b). }
    constructor.
    + intros k b Hb. destruct (Hone k b Hb) as [-> ->]. done.
    + intros k k' b b' Hb Hb'. destruct (Hone k b Hb), (Hone k' b' Hb'). congruence.
  - apply (event_history d run r Hinv Hr _ e); try done; [by apply (events_of_append run d)|].
    rewrite Het. by constructor.
Qed.

(** A heartbeat moves the expiry of the job's lease. *)
Definition beat_job (d : ExecutionDb.t) (job : uuid) (expires_at : instant) : ExecutionDb.t :=
  d <| ExecutionDb.jobs := alter (λ j, j <| Job.lease_expires_at := Some expires_at |>)
                             job (ExecutionDb.jobs d) |>.

Lemma beat_job_change d run job r j expires_at :
  ledger_inv d → ExecutionDb.runs d !! run = Some r → only_job d run job j →
  Job.status j = JobStatus.LEASED → run_change run d (beat_job d job expires_at).
Proof.
  intros Hinv Hr Hj Hl.
  pose proof (lineage_job d run job r j Hinv Hr Hj) as (Hjw & Hjt & Hjs & Hao).
  pose proof (li_checks d Hinv) as Hch. assert (Job.run_id j = run) as Hjr by apply Hj.
  eapply (lineage_update d run job r j Hinv Hr Hj).
  - intros run' Hne. apply (same_of _ _ run); try done; cbn; [|apply owned_refl].
    apply owned_alter. destruct Hj as [-> _]. by intros x [= <-].
  - apply execution_checks_spec in Hch as (H1 & H2 & H3 & H4 & H5 & H6 & H7 & H8).
    apply execution_checks_spec. split_and!; try done.
    eapply all_rows_alter; [done|apply Hj|]. pose proof (proj1 (all_rows_spec _ _) H4 _ _ (proj1 Hj)) as Hc.
    unfold Job.checks in *. cbn. rewrite Hl in *. breflect. cbn in *.
    rewrite andb_true_r, orb_false_r in *. breflect.
    rewrite !andb_true_iff, Z.ltb_lt, Z.leb_le. by split_and!.
  - constructor; [|cbn; by rewrite ?dom_alter_L..].
    unfold listeners_accept. rewrite !andb_true_iff. split_and!; cbn; try apply status_update_ok_refl.
    apply status_update_ok_alter. intros o _. by left.
  - done.
  - done.
  - done.
  - done.
  - done.
  - by eapply (only_job_alter d).
  - done.
  - done.
  - done.
  - by eapply (attempts_ok_same d).
  - by apply (quiet_history d run r Hinv Hr).
Qed.
