(* ===== verification/LedgerWp.v ===== *)
(** The ledger primitives against the invariant: what a consistent unit of work
    is, and the weakest preconditions of the primitives in such a unit. *)
From S2P Require Import Prelude Types Json PyStr Store Session Identity Ledger LedgerInv Hoare.
From S2P Require Import LedgerInv LedgerStep.
Local Open Scope Z_scope.

Notation flushed_exec s := (Db.execution (flushed s)) (only parsing).
Notation exec s := (Db.execution (work s)) (only parsing).

(** The session after its execution tables were replaced. *)
Definition with_exec (s : Session) (d : ExecutionDb.t) : Session :=
  s <| work := (work s) <| Db.execution := d |> |>.

(** A consistent unit of work of the execution services, which do not write the
    registry: [dirty] are the runs with pending writes. *)
Record sess_inv (dirty : gset uuid) (s : Session) : Prop := {
  si_conflict : conflict s = false;
  si_ledger : ledger_inv (exec s);
  si_identity : identity_checks (Db.identity (work s)) = true;
  si_registry : registry_checks (Db.registry (work s)) = true;
  si_registry_eq : Db.registry (flushed s) = Db.registry (work s);
  si_lineage : ∀ run, run ∉ dirty → lineage_eq run (flushed_exec s) (exec s);
  si_runs : ∀ run, run ∉ dirty → Run.status <$> ExecutionDb.runs (flushed_exec s) !! run
                                 = Run.status <$> ExecutionDb.runs (exec s) !! run;
  si_state : is_Some (ExecutionDb.system_execution_state (flushed_exec s)) →
             is_Some (ExecutionDb.system_execution_state (exec s));
  si_extends : extends (flushed_exec s) (exec s) }.

(** A database that a unit of work can start from. *)
Definition db_inv (d : Db.t) : Prop :=
  ledger_inv (Db.execution d) ∧ identity_checks (Db.identity d) = true
  ∧ registry_checks (Db.registry d) = true.

Lemma sess_init d t n : db_inv d → sess_inv ∅ (mkSession d d false t n).
Proof. intros (H1 & H2 & H3). by constructor. Qed.

Lemma sess_db_inv dirty s : sess_inv dirty s → db_inv (work s).
Proof. intros H. split_and!; apply H. Qed.

(** The invariant does not depend on the clock and the identifier source. *)
Lemma sess_inv_eq dirty s s' :
  sess_inv dirty s → flushed s' = flushed s → work s' = work s → conflict s' = conflict s →
  sess_inv dirty s'.
Proof. intros [] Hf Hw Hc. by constructor; rewrite ?Hf, ?Hw, ?Hc. Qed.

Lemma sess_weaken dirty dirty' s : sess_inv dirty s → dirty ⊆ dirty' → sess_inv dirty' s.
Proof. intros []. constructor; auto; set_solver. Qed.

Lemma sess_flush dirty s : sess_inv dirty s → sess_inv ∅ (s <| flushed := work s |>).
Proof. by intros []. Qed.

(** A change of one run makes it dirty. *)
Lemma sess_change dirty s run d' :
  sess_inv dirty s → run_change run (exec s) d' → sess_inv ({[run]} ∪ dirty) (with_exec s d').
Proof.
  intros [] [Hinv Hsame Hext Hst]. constructor; cbn; try done.
  - intros run' Hrun'. etrans; [by apply si_lineage0; set_solver|].
    apply Hsame. set_solver.
  - intros run' Hrun'. rewrite si_runs0 by set_solver. f_equal. apply Hsame. set_solver.
  - intros ?. rewrite Hst. auto.
  - by etrans.
Qed.

(** A change of the run's row alone that keeps its status. *)
Lemma sess_touch dirty s run r f :
  sess_inv dirty s → ExecutionDb.runs (exec s) !! run = Some r →
  Run.id (f r) = Run.id r → Run.workspace_id (f r) = Run.workspace_id r →
  Run.deadline (f r) = Run.deadline r → Run.status (f r) = Run.status r → Run.checks (f r) = true →
  sess_inv dirty (with_exec s (exec s <| ExecutionDb.runs := alter f run (ExecutionDb.runs (exec s)) |>)).
Proof.
  intros Hs Hr Hid Hw Ht Hst Hc.
  assert (touch_run (exec s) run f None
          = exec s <| ExecutionDb.runs := alter f run (ExecutionDb.runs (exec s)) |>) as <-.
  { unfold touch_run. destruct (exec s). cbn. by rewrite app_nil_r. }
  assert (run_change run (exec s) (touch_run (exec s) run f None)) as Hch
    by (by eapply touch_run_change; [apply Hs|..]).
  pose proof (sess_change _ _ _ _ Hs Hch) as Hs'. destruct Hs as [].
  destruct Hs' as [C1 C2 C3 C4 C7 _ _ C5 C6]. constructor; try done; cbn.
  - intros run' Hrun'. destruct (si_lineage0 run' Hrun') as [L1 L2 L3]. constructor; try done.
    unfold events_of in *. cbn. by rewrite app_nil_r.
  - intros run' Hrun'. rewrite si_runs0 by done. rewrite lookup_alter. case_decide; [subst|done].
    rewrite Hr. cbn. by rewrite Hst.
Qed.

(** Writes to the identity tables that have no constraints. *)
Lemma sess_identity dirty s f :
  sess_inv dirty s →
  (∀ d, IdentityDb.secret_bindings (f d) = IdentityDb.secret_bindings d
        ∧ IdentityDb.api_idempotency_records (f d) = IdentityDb.api_idempotency_records d) →
  sess_inv dirty (s <| work := (work s) <| Db.identity := f (Db.identity (work s)) |> |>).
Proof.
  intros [] Hf. constructor; cbn; try done. unfold identity_checks in *.
  by destruct (Hf (Db.identity (work s))) as [-> ->].
Qed.

Lemma with_exec_id s d : d = exec s → with_exec s d = s.
Proof. intros ->. by destruct s as [? [] ? ? ?]. Qed.

Lemma no_conflict s b : conflict s = false → b = false → s <| conflict := conflict s || b |> = s.
Proof. intros Hc ->. destruct s. cbn in *. by subst. Qed.

Section primitives.
Context (E : exn → Prop) (env : Env).

Lemma wp_flush_inv dirty s (Q : unit → Session → Prop) :
  sess_inv dirty s → (sess_inv ∅ (s <| flushed := work s |>) → Q tt (s <| flushed := work s |>)) →
  wp flush E Q env s.
Proof.
  intros Hs HQ. apply wp_flush.
  - apply (si_extends _ _ Hs).
  - apply (si_conflict _ _ Hs).
  - unfold schema_checks. rewrite (si_identity _ _ Hs), (si_registry _ _ Hs).
    apply (li_checks _ (si_ledger _ _ Hs)).
  - by eapply HQ, sess_flush.
Qed.

(** A unit of work with a duplicate key cannot be flushed. *)
Lemma wp_flush_conflict s (Q : unit → Session → Prop) :
  conflict s = true → E IntegrityError → wp flush E Q env s.
Proof. intros Hc H1. unfold wp, flush. by rewrite Hc. Qed.

(** [_append_next_event] appends the next event of the history. *)
Definition new_event (s : Session) (run workspace : uuid) (ty : RunEventType.t) (status : RunStatus.t)
    (code : option RunFailureCode.t) (now : instant) : RunEvent.t :=
  RunEvent.mk workspace run (len (events_of run (exec s)) + 1) ty status code now.

Lemma wp__append_next_event s run r ty status code now (Q : unit → Session → Prop) :
  conflict s = false → ExecutionDb.runs (exec s) !! run = Some r →
  events_of run (flushed_exec s) = events_of run (exec s) →
  RunEvent.sequence <$> events_of run (exec s) = seqZ 1 (len (events_of run (exec s))) →
  Q tt (with_exec s (exec s <| ExecutionDb.run_events := ExecutionDb.run_events (exec s)
          ++ [new_event s run (Run.workspace_id r) ty status code now] |>)) →
  wp (_append_next_event run ty status code now) E Q env s.
Proof.
  intros Hc Hr Hev Hseq HQ. unfold _append_next_event, _append_event. wp_steps.
  unfold flushed_execution. rewrite Hev, Hseq, max_of_seqZ by apply len_nonneg.
  eapply wp_deref; [done|]. wp_steps. rewrite no_conflict; [done..|].
  apply not_true_is_false. intros (e & He & H')%existsb_exists. breflect.
  assert (len (events_of run (exec s)) + 1 ∈ RunEvent.sequence <$> events_of run (exec s)) as Hin.
  { apply list_elem_of_fmap. exists e. split; [done|]. apply elem_of_events_of.
    split; [by apply list_elem_of_In|done]. }
  rewrite Hseq, elem_of_seqZ in Hin. lia.
Qed.

Lemma wp__append_conflict s run r ty status code now (Q : unit → Session → Prop) :
  conflict s = true → ExecutionDb.runs (exec s) !! run = Some r →
  (∀ s', conflict s' = true → Q tt s') → wp (_append_next_event run ty status code now) E Q env s.
Proof.
  intros Hc Hr HQ. unfold _append_next_event, _append_event. wp_steps.
  eapply wp_deref; [done|]. wp_steps. apply HQ. cbn. by rewrite Hc.
Qed.

(** The queries for the job and the active attempt of an untouched run. *)
Lemma job_for_run_eq d d' run job j :
  lineage_eq run d d' → only_job d' run job j →
  fst <$> head (where_rows (ExecutionDb.jobs d) (λ j, eqv (Job.run_id j) run)) = Some job.
Proof.
  intros Hd Hj. apply (only_job_proper _ _ _ Hd job job eq_refl j j eq_refl) in Hj as (Hk & Hr & Hu).
  rewrite (where_rows_singleton _ _ job j); [done|done|by apply eqv_true|].
  intros k' j' Hk' ?%eqv_eq. eauto.
Qed.

Lemma active_attempt_eq d d' run s epoch :
  lineage_eq run d d' → attempts_ok d' run s epoch →
  the_attempt d' run (fst <$> head (order_by (λ a, - RunAttempt.sequence a)
    (where_rows (ExecutionDb.run_attempts d)
       (λ a, eqv (RunAttempt.run_id a) run && RunAttempt.active (RunAttempt.status a))))).
Proof.
  intros Hd Ha.
  assert (attempts_ok d run s epoch) as [_ Hu] by (eapply attempts_ok_eq; [by symmetry|done]).
  destruct (head _) as [[k a]|] eqn:Eh; cbn.
  - exists a. apply (active_attempt_proper _ _ _ Hd k k eq_refl a a eq_refl).
    apply head_Some_elem_of, elem_of_order_by, elem_of_where_rows in Eh as [Hk Hc].
    breflect. by split_and!.
  - intros k a Hka. apply (active_attempt_proper _ _ _ Hd k k eq_refl a a eq_refl) in Hka as (Hk & Hr & Hact).
    apply head_None in Eh. assert ((k, a) ∈ @nil (uuid * RunAttempt.t)) as Hin; [|by inversion Hin].
    rewrite <- Eh. apply elem_of_order_by, elem_of_where_rows. split; [done|].
    rewrite Hact, andb_true_r. by apply eqv_true.
Qed.

Lemma job_status_of_terminal status :
  RunStatus.terminal status = true → job_status_of status = mret (job_status_for status).
Proof. by destruct status. Qed.

Definition with_attempt (attempt : option uuid) (f : RunAttempt.t → RunAttempt.t) : M unit :=
  match attempt with None => mret tt | Some k => update_attempt k f end.

Lemma wp_with_attempt attempt f (Q : unit → Session → Prop) s :
  Q tt (with_exec s (exec s <| ExecutionDb.run_attempts :=
          match attempt with None => ExecutionDb.run_attempts (exec s)
                        | Some k => alter f k (ExecutionDb.run_attempts (exec s)) end |>)) →
  wp (with_attempt attempt f) E Q env s.
Proof.
  destruct attempt as [k|]; cbn; [done|]. rewrite with_exec_id; [done|]. by destruct (exec s).
Qed.

(** The state after a run was closed. *)
Record closed (s s' : Session) (run : uuid) (status : RunStatus.t) (code : option RunFailureCode.t)
    (now : instant) (ty : RunEventType.t) : Prop := {
  cl_row : ∃ r job j attempt, ExecutionDb.runs (exec s) !! run = Some r
    ∧ only_job (exec s) run job j ∧ the_attempt (exec s) run attempt
    ∧ s' = with_exec s (close_run (exec s) run job attempt status code now
             (new_event s run (Run.workspace_id r) ty status code now)) }.

Lemma next_event_new s run workspace ty status code now :
  error_code_checks status code = true →
  next_event (exec s) run (new_event s run workspace ty status code now).
Proof. intros Hc. split_and!; done. Qed.

(** What the invariant gives for a run that has no pending writes. *)
Lemma clean_run dirty s run r :
  sess_inv dirty s → run ∉ dirty → ExecutionDb.runs (exec s) !! run = Some r →
  ∃ job j attempt,
    only_job (exec s) run job j ∧ the_attempt (exec s) run attempt
    ∧ fst <$> head (where_rows (ExecutionDb.jobs (flushed_exec s)) (λ j, eqv (Job.run_id j) run)) = Some job
    ∧ fst <$> head (order_by (λ a, - RunAttempt.sequence a)
        (where_rows (ExecutionDb.run_attempts (flushed_exec s))
           (λ a, eqv (RunAttempt.run_id a) run && RunAttempt.active (RunAttempt.status a)))) = attempt
    ∧ events_of run (flushed_exec s) = events_of run (exec s)
    ∧ RunEvent.sequence <$> events_of run (exec s) = seqZ 1 (len (events_of run (exec s))).
Proof.
  intros Hs Hrun Hr. pose proof (si_lineage _ _ Hs run Hrun) as Hlin.
  destruct (li_runs _ (si_ledger _ _ Hs) run r Hr) as [_ [_ Hseq (job & j & Hj & _ & _ & _ & Ha)]].
  exists job, j, (fst <$> head (order_by (λ a, - RunAttempt.sequence a)
    (where_rows (ExecutionDb.run_attempts (flushed_exec s))
       (λ a, eqv (RunAttempt.run_id a) run && RunAttempt.active (RunAttempt.status a))))).
  split_and!; try done.
  - by eapply active_attempt_eq.
  - by eapply job_for_run_eq.
  - by apply le_events.
Qed.

Lemma wp__terminalize_run dirty s run r status code now ty (Q : unit → Session → Prop) :
  sess_inv dirty s → run ∉ dirty → ExecutionDb.runs (exec s) !! run = Some r →
  RunStatus.terminal (Run.status r) = false → RunStatus.terminal status = true →
  status ≠ RunStatus.SUCCEEDED → step (Run.status r) ty status →
  (∀ s', closed s s' run status (Some code) now ty → sess_inv ({[run]} ∪ dirty) s' → Q tt s') →
  wp (_terminalize_run run status now code ty) E Q env s.
Proof.
  intros Hs Hrun Hr Hnt Ht Hns Hst HQ.
  destruct (clean_run dirty s run r Hs Hrun Hr) as (job & j & attempt & Hj & Ha & Hqj & Hqa & Hev & Hseq).
  unfold _terminalize_run, update_run, job_for_run, _active_attempt, flushed_execution.
  wp_steps. cbn. rewrite Hqj, job_status_of_terminal by done. wp_steps. cbn. rewrite Hqa.
  change (match attempt with None => _ | Some a => _ end) with (with_attempt attempt
    (λ a, a <| RunAttempt.status := status |> <| RunAttempt.safe_error_code := Some code |>
            <| RunAttempt.terminal_at := Some now |>)).
  apply wp_with_attempt. eapply wp__append_next_event.
  - apply (si_conflict _ _ Hs).
  - cbn. by rewrite lookup_alter_eq, Hr.
  - exact Hev.
  - exact Hseq.
  - assert (error_code_checks status (Some code) = true) as Hcode.
    { unfold error_code_checks. destruct status; done. }
    set (s' := with_exec s (close_run (exec s) run job attempt status (Some code) now
               (new_event s run (Run.workspace_id r) ty status (Some code) now))).
    apply (HQ s').
    + constructor. by exists r, job, j, attempt.
    + apply sess_change; [done|]. eapply close_run_change; try done. apply Hs.
Qed.
End primitives.
