(* ===== verification/LeaseWp.v ===== *)
(** The operations of [Lease] keep a unit of work consistent, and raise only
    the exceptions they declare. *)
From S2P Require Import Prelude Types Json PyStr Store Session Registry Identity Ledger Lease LedgerInv Hoare.
From S2P Require Import LedgerInv LedgerStep LedgerWp.
Local Open Scope Z_scope.

(** What an operation may raise: not a rejected flush, and not a dangling
    reference. *)
Definition expected (e : exn) : Prop :=
  match e with ImmutableUpdate | IntegrityError | StaleReference => False | _ => True end.

(** ** Generic rules *)

Lemma wp_map_rows {A B} (E : exn → Prop) env (l : list A) (body : A → M B)
    (I : list A → Session → Prop) s :
  I [] s →
  (∀ done x rest s', l = done ++ x :: rest → I done s' →
     wp (body x) E (λ _ s'', I (done ++ [x]) s'') env s') →
  wp (map_rows l body) E (λ _ s', I l s') env s.
Proof.
  intros H0 Hstep.
  assert (∀ rest done s', l = done ++ rest → I done s' →
            wp (map_rows rest body) E (λ _ s'', I l s'') env s') as Hgen.
  { intros rest. induction rest as [|x rest IH]; intros done' s' Hl HI; cbn.
    - apply wp_ret. by rewrite Hl, app_nil_r.
    - apply wp_bind. eapply wp_conseq; [by eapply Hstep|]. cbn. intros b s'' HI''.
      apply wp_bind. eapply wp_conseq.
      + apply (IH (done' ++ [x])); [by rewrite <- app_assoc|done].
      + intros bs s3 HI3. by apply wp_ret. }
  by apply (Hgen l [] s).
Qed.

Lemma NoDup_omap_fst {A B C} (f : A → option (B * C)) l :
  NoDup l →
  (∀ x y b c c', x ∈ l → y ∈ l → f x = Some (b, c) → f y = Some (b, c') → x = y) →
  NoDup (fst <$> omap f l).
Proof.
  induction 1 as [|x l Hx Hnd IH]; intros Hinj; cbn; [constructor|].
  destruct (f x) as [[b c]|] eqn:Ef; cbn.
  - constructor.
    + intros Hin. apply list_elem_of_fmap in Hin as ([b' c'] & Hb & Hin). cbn in Hb. subst b'.
      apply list_elem_of_omap in Hin as (y & Hy & Efy). apply Hx.
      rewrite (Hinj x y b c c'); [done|by left|by right|done|done].
    + apply IH. intros; eapply Hinj; eauto; by right.
  - apply IH. intros; eapply Hinj; eauto; by right.
Qed.

(** The rows of a join, and that each run occurs once. *)
Lemma elem_of_joined_rows P column env d run job :
  (run, job) ∈ joined_rows P column env d ↔
  ∃ r j, ExecutionDb.jobs d !! job = Some j ∧ Job.run_id j = run ∧ ExecutionDb.runs d !! run = Some r
    ∧ Job.workspace_id j = Run.workspace_id r ∧ P r j = true ∧ row_locked env run = false.
Proof.
  unfold joined_rows. rewrite list_elem_of_omap. split.
  - intros ([job' j] & Hin & Hf). apply elem_of_order_by, elem_of_map_to_list in Hin.
    destruct (ExecutionDb.runs d !! Job.run_id j) as [r|] eqn:Hr; [|done].
    destruct (_ && _) eqn:Hc in Hf; simplify_eq. breflect. by exists r, j.
  - intros (r & j & Hj & <- & Hr & Hw & HP & Hl). exists (job, j). split.
    + by apply elem_of_order_by, elem_of_map_to_list.
    + rewrite Hr, HP, Hl. replace (eqv _ _) with true by (symmetry; by apply eqv_true). done.
Qed.

Lemma NoDup_joined_rows P column env d :
  (∀ run r, ExecutionDb.runs d !! run = Some r → ∃ job j, only_job d run job j) →
  NoDup (fst <$> joined_rows P column env d).
Proof.
  intros Honly. apply NoDup_omap_fst.
  - unfold order_by. rewrite merge_sort_Permutation. apply NoDup_map_to_list.
  - intros [k j] [k' j'] run c c' Hx Hy Hf Hf'.
    apply elem_of_order_by, elem_of_map_to_list in Hx, Hy.
    destruct (ExecutionDb.runs d !! Job.run_id j) as [r|] eqn:Hr; [|done].
    destruct (ExecutionDb.runs d !! Job.run_id j') as [r'|] eqn:Hr'; [|done].
    destruct (_ && _) in Hf; [|done]. destruct (_ && _) in Hf'; [|done]. simplify_eq.
    destruct (Honly _ _ Hr) as (job & j0 & _ & _ & Hu).
    assert (c = job) as -> by eauto. assert (c' = job) as -> by eauto. congruence.
Qed.

(** Without pending writes for a run, its flushed rows agree with the objects. *)
Lemma flushed_run dirty s run r :
  sess_inv dirty s → run ∉ dirty → ExecutionDb.runs (flushed_exec s) !! run = Some r →
  ∃ r' job j, ExecutionDb.runs (exec s) !! run = Some r' ∧ Run.status r' = Run.status r
    ∧ only_job (flushed_exec s) run job j ∧ only_job (exec s) run job j
    ∧ Job.status j = job_status_for (Run.status r').
Proof.
  intros Hs Hrun Hr. pose proof (si_runs _ _ Hs run Hrun) as Hst. rewrite Hr in Hst.
  destruct (ExecutionDb.runs (exec s) !! run) as [r'|] eqn:Hr'; cbn in Hst; [|done].
  destruct (li_runs _ (si_ledger _ _ Hs) run r' Hr') as [_ [_ _ (job & j & Hj & _ & _ & Hjs & _)]].
  exists r', job, j. split_and!; try done; [congruence|].
  by apply (only_job_proper run _ _ (si_lineage _ _ Hs run Hrun) job job eq_refl j j eq_refl).
Qed.

Lemma flushed_joined_NoDup s P column env :
  sess_inv ∅ s → NoDup (fst <$> joined_rows P column env (flushed_exec s)).
Proof.
  intros Hs. apply NoDup_joined_rows. intros run r Hr.
  destruct (flushed_run ∅ s run r Hs (not_elem_of_empty run) Hr) as (_ & job & j & _ & _ & Hj & _).
  by exists job, j.
Qed.

(** What closing runs leaves alone: which attempts exist, the lease epochs of
    the jobs, and the execution state. *)
Record swept (d d' : ExecutionDb.t) : Prop := {
  sw_attempts : dom (ExecutionDb.run_attempts d') = dom (ExecutionDb.run_attempts d);
  sw_epochs : ∀ k, Job.lease_epoch <$> ExecutionDb.jobs d' !! k
                   = Job.lease_epoch <$> ExecutionDb.jobs d !! k;
  sw_state : ExecutionDb.system_execution_state d' = ExecutionDb.system_execution_state d }.

#[global] Instance swept_preorder : PreOrder swept.
Proof.
  split; [done|]. intros d1 d2 d3 [A1 E1 T1] [A2 E2 T2].
  constructor; [by rewrite A2|intros k; by rewrite E2|by rewrite T2].
Qed.

(** ** Reads of the lease operations *)

#[global] Instance fetch_membership_reads w u : ReadOnly (fetch_membership w u).
Proof. apply _. Qed.
#[global] Instance fetch_reads {R} (t : Db.t → gmap uuid R) id P : ReadOnly (fetch t id P).
Proof. apply _. Qed.
#[global] Instance select_observed_reads w c v o p : ReadOnly (select_observed w c v o p).
Proof. destruct o; apply _. Qed.
#[global] Instance load_run_target_reads r : ReadOnly (load_run_target r).
Proof. unfold load_run_target. apply _. Qed.
#[global] Instance select_workspace_reads w : ReadOnly (select_workspace w).
Proof. apply _. Qed.
#[global] Instance job_for_run_reads run : ReadOnly (job_for_run run).
Proof. apply _. Qed.
#[global] Instance active_attempt_reads run : ReadOnly (_active_attempt run).
Proof. apply _. Qed.
#[global] Instance select_joined_reads P column n : ReadOnly (select_joined P column n).
Proof. intros env s. by eexists. Qed.
#[global] Instance select_membership_reads w u : ReadOnly (select_membership w u).
Proof. apply _. Qed.

Section operations.
Context (E : exn → Prop) (env : Env) (HE : ∀ e, expected e → E e).

Lemma wp_raise_expected {A} e (Q : A → Session → Prop) s : expected e → wp (raise e) E Q env s.
Proof. intros He. apply wp_raise. by apply HE. Qed.

(** [_execution_state] returns the singleton row, which exists afterwards. *)
Lemma wp__execution_state s (Q : SystemExecutionState.t → Session → Prop) :
  sess_inv ∅ s →
  (∀ st s', sess_inv ∅ s' → ExecutionDb.system_execution_state (exec s') = Some st →
     is_Some (ExecutionDb.system_execution_state (flushed_exec s')) →
     exec s' = exec s <| ExecutionDb.system_execution_state := Some st |> → Q st s') →
  wp _execution_state E Q env s.
Proof.
  intros Hs HQ. unfold _execution_state. wp_steps.
  destruct (ExecutionDb.system_execution_state (flushed_execution s)) as [st|] eqn:Hst.
  - wp_steps. destruct (si_state _ _ Hs) as [st' Hst']; [by eexists|].
    rewrite Hst'. apply wp_ret, HQ; [done..|by eexists|]. destruct (exec s). cbn in *. by subst.
  - wp_steps. set (st := SystemExecutionState.mk 1 false _).
    eapply wp_flush_inv with (dirty := ∅).
    + pose proof Hs as [Hc Hl Hi Hre Hreq Hlin Hru Hste Hext]. constructor; cbn; try done.
      * eapply ledger_inv_frame; [done| |done..]. pose proof (li_checks _ Hl) as Hch.
        apply execution_checks_spec in Hch as (_ & Hrest). apply execution_checks_spec.
        split; [by intros ? [= <-]|done].
      * intros run _. destruct (Hlin run (not_elem_of_empty run)) as [L1 L2 L3].
        constructor; [done..|]. by rewrite L3.
      * by destruct Hext.
    + intros Hs'. apply wp_ret, HQ; [done..|by eexists|done].
Qed.

Lemma wp__locked_run dirty s w run (Q : uuid → Session → Prop) :
  sess_inv dirty s →
  (∀ r, run ∉ dirty → ExecutionDb.runs (exec s) !! run = Some r → Q run s) →
  run ∉ dirty → wp (_locked_run w run) E Q env s.
Proof.
  intros Hs HQ Hrun. unfold _locked_run. wp_steps.
  destruct (by_id _ _ _) as [k|] eqn:Hk; [|by apply wp_raise_expected].
  apply by_id_Some in Hk as (-> & r & Hr & _). apply wp_ret.
  pose proof (si_runs _ _ Hs run Hrun) as Hst. unfold flushed_execution in Hr. rewrite Hr in Hst.
  destruct (ExecutionDb.runs (exec s) !! run) as [r'|] eqn:Hr'; [by eapply HQ|done].
Qed.

(** In a unit of work that has not written yet. *)
Lemma wp__execution_state_clean s (Q : SystemExecutionState.t → Session → Prop) :
  sess_inv ∅ s → flushed s = work s →
  (∀ st s', sess_inv ∅ s' → flushed s' = work s' → ExecutionDb.system_execution_state (exec s') = Some st →
     exec s' = exec s <| ExecutionDb.system_execution_state := Some st |> →
     (ExecutionDb.system_execution_state (exec s) = Some st
      ∨ ExecutionDb.system_execution_state (exec s) = None ∧ SystemExecutionState.execution_epoch st = 1
        ∧ SystemExecutionState.dispatch_quarantined st = false) → Q st s') →
  wp _execution_state E Q env s.
Proof.
  intros Hs Hfw HQ.
  assert (wp _execution_state (λ _, True) (λ st s', flushed s' = work s' ∧
     (ExecutionDb.system_execution_state (exec s) = Some st
      ∨ ExecutionDb.system_execution_state (exec s) = None ∧ SystemExecutionState.execution_epoch st = 1
        ∧ SystemExecutionState.dispatch_quarantined st = false)) env s) as Hclean.
  { unfold _execution_state, flushed_execution. apply wp_bind, wp_gets. rewrite Hfw.
    destruct (ExecutionDb.system_execution_state (exec s)) as [st|] eqn:Hst.
    - apply wp_bind, wp_gets. rewrite Hst. apply wp_ret. by split; [|left].
    - wp_steps. unfold wp, flush. destruct (conflict _); [done|].
      destruct (listeners_accept _ _); cbn; [|done]. destruct (schema_checks _); cbn; [|done].
      split; [done|by right]. }
  eapply wp_conseq; [apply wp_and; [|exact Hclean]|].
  - eapply (wp__execution_state _ (λ st s', sess_inv ∅ s' ∧ ExecutionDb.system_execution_state (exec s') = Some st
      ∧ exec s' = exec s <| ExecutionDb.system_execution_state := Some st |>)); [done|]. auto.
  - intros st s' ((H1 & H2 & H3) & H4 & H5). by apply HQ.
Qed.

Lemma wp__locked_lease_lineage s lease (Q : uuid * uuid → Session → Prop) :
  sess_inv ∅ s →
  (∀ r j, ExecutionDb.runs (exec s) !! JobLease.run_id lease = Some r →
     only_job (exec s) (JobLease.run_id lease) (JobLease.job_id lease) j →
     Q (JobLease.run_id lease, JobLease.job_id lease) s) →
  wp (_locked_lease_lineage lease) E Q env s.
Proof.
  intros Hs HQ. unfold _locked_lease_lineage, lease_lost. wp_steps. unfold flushed_execution.
  destruct (ExecutionDb.jobs (flushed_exec s) !! JobLease.job_id lease) as [j|] eqn:Hj;
    [|by apply wp_raise_expected].
  destruct (eqv _ _); [|by apply wp_raise_expected].
  destruct (eqv (Job.run_id j) (JobLease.run_id lease)) eqn:Hjr; cbn [negb]; [|by apply wp_raise_expected].
  apply eqv_eq in Hjr. wp_steps.
  destruct (by_id _ _ _) as [k|] eqn:Hk; [|by apply wp_raise_expected].
  apply by_id_Some in Hk as (-> & r & Hr & _). unfold flushed_execution in Hr. wp_steps.
  destruct (flushed_run ∅ s (Job.run_id j) r Hs (not_elem_of_empty _) Hr) as (r' & job & j' & Hr' & _ & Hjf & Hjw & _).
  assert (JobLease.job_id lease = job) as Hjob by (eapply Hjf; eauto).
  unfold _locked_job, lease_lost, flushed_execution. wp_steps.
  destruct (by_id _ _ _) as [k|] eqn:Hk; [|by apply wp_raise_expected].
  apply by_id_Some in Hk as (-> & _). wp_steps.
  eapply wp_deref; [rewrite Hjob; apply Hjw|].
  destruct (eqv _ _); [|by apply wp_raise_expected]. wp_steps.
  rewrite Hjr in *. eapply HQ; [done|]. by rewrite Hjob.
Qed.

Lemma wp_reconciled_job s run job status (Q : ReconciledJob.t → Session → Prop) :
  is_Some (ExecutionDb.runs (exec s) !! run) → is_Some (ExecutionDb.jobs (exec s) !! job) →
  (∀ x, Q x s) → wp (reconciled_job run job status) E Q env s.
Proof.
  intros [r Hr] [j Hj] HQ. unfold reconciled_job. wp_steps. eapply wp_deref; [done|].
  wp_steps. eapply wp_deref; [done|]. wp_steps. apply HQ.
Qed.

Lemma closed_rows s s' run status code now ty :
  closed s s' run status code now ty →
  flushed s' = flushed s ∧ dom (ExecutionDb.runs (exec s')) = dom (ExecutionDb.runs (exec s))
  ∧ dom (ExecutionDb.jobs (exec s')) = dom (ExecutionDb.jobs (exec s))
  ∧ swept (exec s) (exec s').
Proof.
  intros [(r & job & j & attempt & _ & _ & _ & ->)].
  split_and!; [done|cbn; by rewrite dom_alter_L..|]. constructor; [|intros k|done].
  - destruct attempt; cbn; by rewrite ?dom_alter_L.
  - cbn. rewrite lookup_alter. case_decide; [subst k|done]. by destruct (_ !! job).
Qed.

(** The body of the reconciliation loops. *)
Lemma wp_terminalize_row dirty s run job r j status code now (Q : ReconciledJob.t → Session → Prop) :
  sess_inv dirty s → run ∉ dirty → ExecutionDb.runs (flushed_exec s) !! run = Some r →
  ExecutionDb.jobs (flushed_exec s) !! job = Some j → Job.run_id j = run →
  RunStatus.terminal (Run.status r) = false → RunStatus.terminal status = true →
  status ≠ RunStatus.SUCCEEDED → step (Run.status r) RunEventType.TERMINAL status →
  (∀ x s', sess_inv ({[run]} ∪ dirty) s' → flushed s' = flushed s →
     swept (exec s) (exec s') → Q x s') →
  wp (_terminalize_run run status now code RunEventType.TERMINAL ;;
      reconciled_job run job status) E Q env s.
Proof.
  intros Hs Hrun Hr Hj Hjr Hnt Ht Hns Hst HQ.
  destruct (flushed_run dirty s run r Hs Hrun Hr) as (r' & job' & j' & Hr' & Hrs & Hjf & Hjw & _).
  rewrite <- Hrs in *. apply wp_bind. eapply wp__terminalize_run; try done.
  intros s' Hcl Hs'. destruct (closed_rows _ _ _ _ _ _ _ Hcl) as (Hf & Hdr & Hdj & Hda).
  assert (job = job') as -> by (eapply Hjf; eauto). apply wp_reconciled_job.
  - apply elem_of_dom. rewrite Hdr. apply elem_of_dom. by eexists.
  - apply elem_of_dom. rewrite Hdj. apply elem_of_dom. eexists. apply Hjw.
  - intros x. by apply HQ.
Qed.

(** A loop over joined rows that closes the run of each. *)
Lemma wp_terminalize_rows s rows P column n (body : uuid * uuid → M ReconciledJob.t) :
  sess_inv ∅ s → rows = take n (joined_rows P column env (flushed_exec s)) →
  (∀ dirty s' run job r j (Q : ReconciledJob.t → Session → Prop),
     sess_inv dirty s' → run ∉ dirty → flushed s' = flushed s →
     ExecutionDb.runs (flushed_exec s') !! run = Some r →
     ExecutionDb.jobs (flushed_exec s') !! job = Some j → Job.run_id j = run →
     Job.status j = job_status_for (Run.status r) → P r j = true →
     (∀ x s'', sess_inv ({[run]} ∪ dirty) s'' → flushed s'' = flushed s' →
        swept (exec s') (exec s'') → Q x s'') →
     wp (body (run, job)) E Q env s') →
  wp (map_rows rows body) E
    (λ _ s', sess_inv (list_to_set rows.*1) s' ∧ flushed s' = flushed s
       ∧ swept (exec s) (exec s')) env s.
Proof.
  intros Hs Hrows Hbody.
  assert (NoDup rows.*1) as Hnd.
  { pose proof (flushed_joined_NoDup s P column env Hs) as Hnd. subst rows.
    rewrite <- (take_drop n (joined_rows P column env (flushed_exec s))), fmap_app in Hnd.
    by apply NoDup_app in Hnd as [? _]. }
  assert (∀ x, x ∈ rows → x ∈ joined_rows P column env (flushed_exec s)) as Hin.
  { intros x Hx. subst rows. by apply elem_of_take in Hx as (i & Hi%list_elem_of_lookup_2 & _). }
  apply (wp_map_rows E env rows body
    (λ done s', sess_inv (list_to_set done.*1) s' ∧ flushed s' = flushed s
       ∧ swept (exec s) (exec s'))); [done|].
  intros done [run job] rest s' Hsplit (Hs' & Hf & Hda).
  destruct (proj1 (elem_of_joined_rows P column env (flushed_exec s) run job)) as
    (r & j & Hj & Hjr & Hr & _ & HP & _).
  { apply Hin. rewrite Hsplit. set_solver. }
  assert (run ∉ (list_to_set done.*1 : gset uuid)) as Hrun.
  { rewrite Hsplit, fmap_app in Hnd. apply NoDup_app in Hnd as (_ & Hnd & _).
    rewrite elem_of_list_to_set. intros Hd. apply (Hnd run Hd). by left. }
  destruct (flushed_run ∅ s run r Hs (not_elem_of_empty _) Hr) as (r' & job' & j' & _ & Hrs & Hjf & _ & Hjs).
  assert (job = job') as -> by (eapply Hjf; eauto).
  assert (j = j') as -> by (destruct Hjf; congruence).
  eapply (Hbody _ s' run job' r j'); [done..|by rewrite Hf|by rewrite Hf|done|congruence|done|].
  intros x s'' Hs'' Hf'' Hda''. split; [|split; [congruence|by etrans]]. rewrite fmap_app, list_to_set_app_L.
  cbn. rewrite union_empty_r_L. by rewrite union_comm_L.
Qed.

(** ** Claiming *)

Context (self : ExecutionService.t).

Lemma deadline_status_step s :
  RunStatus.terminal s = false →
  step s RunEventType.TERMINAL (deadline_status s) ∧ RunStatus.terminal (deadline_status s) = true
  ∧ deadline_status s ≠ RunStatus.SUCCEEDED.
Proof. destruct s; cbn; try done; intros _; split_and!; try done; by constructor. Qed.

Lemma job_open_nonterminal j s :
  job_open j = true → Job.status j = job_status_for s → RunStatus.terminal s = false.
Proof.
  intros Ho Hs. rewrite <- job_status_for_terminal, <- Hs. unfold job_open in Ho.
  apply orb_true_iff in Ho as [->%eqv_eq| ->%eqv_eq]; done.
Qed.

Lemma wp__terminalize_expired_jobs s now :
  sess_inv ∅ s →
  wp (_terminalize_expired_jobs self now) E (λ _ s', ∃ dirty, sess_inv dirty s' ∧ swept (exec s) (exec s')) env s.
Proof.
  intros Hs. unfold _terminalize_expired_jobs. wp_read as rows [= <-].
  eapply wp_conseq; [eapply wp_terminalize_rows; [done|reflexivity|]|].
  - intros dirty s' run job r j Q Hs' Hrun Hf Hr Hj Hjr Hjs [Ho _]%andb_true_iff HQ.
    destruct (flushed_run dirty s' run r Hs' Hrun Hr) as (r' & _ & _ & Hr' & Hrs & _).
    destruct (deadline_status_step (Run.status r)) as (Hst & Ht & Hns);
      [by eapply job_open_nonterminal|].
    wp_steps. eapply wp_deref; [done|]. rewrite Hrs.
    eapply wp_terminalize_row; try done. by eapply job_open_nonterminal.
  - intros l s' (Hs' & _ & Hda). by eexists.
Qed.

Lemma wp__terminalize_abandoned_dispatches s now :
  sess_inv ∅ s →
  wp (_terminalize_abandoned_dispatches self now) E (λ _ s', sess_inv ∅ s' ∧ swept (exec s) (exec s')) env s.
Proof.
  intros Hs. unfold _terminalize_abandoned_dispatches. wp_read as rows [= <-].
  apply wp_bind. eapply wp_conseq; [eapply wp_terminalize_rows; [done|reflexivity|]|].
  - intros dirty s' run job r j Q Hs' Hrun Hf Hr Hj Hjr Hjs [_ Hd]%andb_true_iff HQ.
    apply eqv_eq in Hd. eapply wp_terminalize_row; try done.
    + by rewrite Hd.
    + rewrite Hd. by constructor.
  - intros l s' (Hs' & _ & Hda). apply wp_bind. eapply wp_flush_inv; [done|]. intros Hs''.
    by apply wp_ret.
Qed.

Lemma wp_claim_terminalizes s run job r j status code now :
  sess_inv ∅ s → ExecutionDb.runs (exec s) !! run = Some r → only_job (exec s) run job j →
  RunStatus.terminal (Run.status r) = false → RunStatus.terminal status = true →
  status ≠ RunStatus.SUCCEEDED → step (Run.status r) RunEventType.TERMINAL status →
  wp (claim_terminalizes run job status code now) E (λ o s', sess_inv ∅ s' ∧ o.1 = None) env s.
Proof.
  intros Hs Hr Hj Hnt Ht Hns Hst. unfold claim_terminalizes. apply wp_bind.
  eapply (wp__terminalize_run _ _ ∅); try done.
  intros s' Hcl Hs'. destruct (closed_rows _ _ _ _ _ _ _ Hcl) as (Hf & Hdr & Hdj & _).
  apply wp_bind, wp_reconciled_job.
  - apply elem_of_dom. rewrite Hdr. apply elem_of_dom. by eexists.
  - apply elem_of_dom. rewrite Hdj. apply elem_of_dom. eexists. apply Hj.
  - intros x. apply wp_bind. eapply wp_flush_inv; [done|]. intros Hs''. by apply wp_ret.
Qed.

(** The early exits of a claim on a run that was not dispatched. *)
Lemma wp_claim_ends s run job r j status code now :
  sess_inv ∅ s → ExecutionDb.runs (exec s) !! run = Some r → only_job (exec s) run job j →
  pre_dispatch (Run.status r) = true → status = RunStatus.TIMED_OUT ∨ status = RunStatus.FAILED →
  wp (claim_terminalizes run job status code now) E (λ o s', sess_inv ∅ s' ∧ o.1 = None) env s.
Proof.
  intros Hs Hr Hj Hpre Hst.
  assert (RunStatus.terminal (Run.status r) = false) as Hnt by by destruct (Run.status r).
  eapply wp_claim_terminalizes; try done.
  - by destruct Hst as [-> | ->].
  - by destruct Hst as [-> | ->].
  - destruct Hst as [-> | ->]; constructor; [done|by destruct (Run.status r)].
Qed.

(** The target check reads only. *)
Lemma wp__claim_target_is_current s run r (Q : bool → Session → Prop) :
  ExecutionDb.runs (exec s) !! run = Some r → (∀ b, Q b s) →
  wp (_claim_target_is_current run) E Q env s.
Proof.
  intros Hr HQ. unfold _claim_target_is_current. apply wp_bind. eapply wp_deref; [done|].
  wp_read as w _. wp_read as t _. apply wp_ret, HQ.
Qed.

(** The queries of [_active_attempt] and of the latest attempt in a clean unit
    of work. *)
Lemma wp__active_attempt s run r (Q : option uuid → Session → Prop) :
  sess_inv ∅ s → ExecutionDb.runs (exec s) !! run = Some r →
  (∀ attempt, the_attempt (exec s) run attempt → Q attempt s) →
  wp (_active_attempt run) E Q env s.
Proof.
  intros Hs Hr HQ. unfold _active_attempt, flushed_execution. wp_steps.
  destruct (clean_run ∅ s run r Hs (not_elem_of_empty _) Hr) as (job & j & attempt & _ & Ha & _ & -> & _).
  by apply HQ.
Qed.

Lemma max_of_spec l x : max_of l = Some x → ∀ y, y ∈ l → y ≤ x.
Proof. destruct l as [|z l]; [done|]. intros [= <-]. apply foldr_max_spec. Qed.

Definition latest_attempt (d : ExecutionDb.t) (run : uuid) : option Z :=
  max_of ((λ kr, RunAttempt.sequence kr.2) <$>
    where_rows (ExecutionDb.run_attempts d) (λ a, eqv (RunAttempt.run_id a) run)).

(** Sequence numbers of attempts stay below the number of the next one. *)
Lemma latest_attempt_bound d run k a :
  ExecutionDb.run_attempts d !! k = Some a → RunAttempt.run_id a = run →
  RunAttempt.sequence a < default 0 (latest_attempt d run) + 1.
Proof.
  intros Hk Ha. unfold latest_attempt.
  assert (RunAttempt.sequence a ∈ (λ kr, RunAttempt.sequence kr.2) <$>
            where_rows (ExecutionDb.run_attempts d) (λ a, eqv (RunAttempt.run_id a) run)) as Hin.
  { apply list_elem_of_fmap. exists (k, a). split; [done|]. apply elem_of_where_rows.
    split; [done|by apply eqv_true]. }
  destruct (max_of _) as [m|] eqn:Em; cbn.
  - pose proof (max_of_spec _ _ Em _ Hin). lia.
  - destruct (_ <$> _) in Em, Hin; [by inversion Hin|done].
Qed.

Lemma latest_attempt_nonneg s run :
  sess_inv ∅ s → 0 ≤ default 0 (latest_attempt (flushed_exec s) run).
Proof.
  intros Hs. destruct (latest_attempt (flushed_exec s) run) as [m|] eqn:Em; cbn; [|done].
  unfold latest_attempt, max_of in Em. destruct (_ <$> _) as [|x l] eqn:El; [done|].
  simplify_eq. destruct (foldr_max_spec x l) as [_ Hin]. rewrite <- El in Hin.
  apply list_elem_of_fmap in Hin as ([k a] & -> & [Hk Ha%eqv_eq]%elem_of_where_rows). cbn.
  apply (le_attempts _ _ _ (si_lineage _ _ Hs run (not_elem_of_empty _))) in Hk; [|done].
  pose proof (checks_attempt _ k a (li_checks _ (si_ledger _ _ Hs)) Hk) as Hc.
  unfold RunAttempt.checks in Hc. breflect. lia.
Qed.

(** The first half of [grant_lease]: a lost lease is recorded. *)
Definition expire_previous (run : uuid) (j : Job.t) (now : instant) : M unit :=
  if eqv (Job.status j) JobStatus.LEASED then
    previous ← _active_attempt run;
    match previous with
    | None => mret tt
    | Some previous =>
        update_attempt previous (λ a, a <| RunAttempt.status := RunStatus.FAILED |>
          <| RunAttempt.safe_error_code := Some RunFailureCode.WORKER_LOST_BEFORE_DISPATCH |>
          <| RunAttempt.terminal_at := Some now |>) ;;
        r ← run_of run;
        _append_next_event run RunEventType.LEASE_LOST (Run.status r)
          (Some RunFailureCode.WORKER_LOST_BEFORE_DISPATCH) now ;;
        flush
    end
  else mret tt.

Lemma the_attempt_expired d run k now e s epoch :
  attempts_ok d run s epoch → the_attempt d run (Some k) →
  the_attempt (expire_attempt d k now e) run None.
Proof.
  intros [_ Hu] [a0 Ha0] k' a (Hk & Hr & Ha). cbn in Hk. rewrite lookup_alter in Hk.
  case_decide as Hkk; subst.
  - destruct Ha0 as (Hk0 & _). rewrite Hk0 in Hk. cbn in Hk. by simplify_eq.
  - apply Hkk. by eapply Hu.
Qed.

Lemma wp_expire_previous s run job r j now (Q : unit → Session → Prop) :
  sess_inv ∅ s → ExecutionDb.runs (exec s) !! run = Some r → only_job (exec s) run job j →
  pre_dispatch (Run.status r) = true →
  (∀ s', sess_inv ∅ s' → swept (exec s) (exec s') → draws s' = draws s →
     ExecutionDb.runs (exec s') = ExecutionDb.runs (exec s) →
     ExecutionDb.jobs (exec s') = ExecutionDb.jobs (exec s) →
     the_attempt (exec s') run None → Q tt s') →
  wp (expire_previous run j now) E Q env s.
Proof.
  intros Hs Hr Hj Hpre HQ.
  pose proof (lineage_job _ run job r j (si_ledger _ _ Hs) Hr Hj) as (_ & _ & Hjs & Hao).
  unfold expire_previous. destruct (eqv _ _) eqn:Hl.
  - apply eqv_eq in Hl. apply wp_bind. eapply wp__active_attempt; [done..|].
    intros [k|] Hatt; [|by apply wp_ret, HQ].
    destruct Hatt as [a Ha]. wp_steps. eapply wp_deref; [done|].
    destruct (clean_run ∅ s run r Hs (not_elem_of_empty _) Hr) as (_ & _ & _ & _ & _ & _ & _ & Hev & Hseq).
    wp_steps. eapply wp__append_next_event; [apply (si_conflict _ _ Hs)|exact Hr|exact Hev|exact Hseq|].
    set (e := new_event s run (Run.workspace_id r) RunEventType.LEASE_LOST (Run.status r)
                (Some RunFailureCode.WORKER_LOST_BEFORE_DISPATCH) now).
    assert (leased (Run.status r) = true) as Hle.
    { rewrite Hl in Hjs. by destruct (Run.status r). }
    assert (run_change run (exec s) (expire_attempt (exec s) k now e)) as Hch.
    { eapply expire_attempt_change; try done; [apply Hs| |by constructor].
      apply next_event_new. by destruct (Run.status r). }
    apply (wp_flush_inv E env ({[run]} ∪ ∅) (with_exec s (expire_attempt (exec s) k now e))).
    + by apply sess_change.
    + intros Hs'. apply HQ; try done.
      * constructor; [cbn; by rewrite dom_alter_L|done|done].
      * eapply the_attempt_expired; [done|by exists a].
  - apply wp_ret, HQ; try done. intros k a Ha. destruct (ao_agree _ _ _ _ Hao k a Ha) as [Hs1 _].
    destruct Ha as (_ & _ & Hact). rewrite Hs1 in Hact. apply eqv_false in Hl.
    by destruct (Run.status r).
Qed.

(** The rows behind a lease that was just granted. *)
Record lease_rows (d : ExecutionDb.t) (l : JobLease.t) (worker_id : string) : Prop := {
  lr_job : ∃ j, only_job d (JobLease.run_id l) (JobLease.job_id l) j
    ∧ Job.status j = JobStatus.LEASED ∧ Job.lease_owner j = Some worker_id
    ∧ Job.lease_epoch j = JobLease.lease_epoch l
    ∧ Job.lease_expires_at j = Some (JobLease.expires_at l)
    ∧ Job.execution_epoch j = JobLease.execution_epoch l
    ∧ JobLease.expires_at l ≤ Job.deadline j;
  lr_run : ∃ r, ExecutionDb.runs d !! JobLease.run_id l = Some r
    ∧ Run.status r = RunStatus.PREPARING ∧ Run.workspace_id r = JobLease.workspace_id l;
  lr_attempt : ∃ k a, active_attempt d (JobLease.run_id l) k a
    ∧ RunAttempt.status a = RunStatus.PREPARING
    ∧ RunAttempt.lease_epoch a = JobLease.lease_epoch l;
  lr_worker : JobLease.worker_id l = worker_id }.

(** The second half of [grant_lease].  A collision of the new attempt's
    identifier makes the flush fail. *)
Lemma wp_grant_lease s run job r j worker_id lease_duration now :
  sess_inv ∅ s → ExecutionDb.runs (exec s) !! run = Some r → only_job (exec s) run job j →
  pre_dispatch (Run.status r) = true →
  E IntegrityError
    ∨ ExecutionDb.run_attempts (exec s) !! uuid4_source env (draws s) = None →
  wp (grant_lease run job worker_id lease_duration now) E
    (λ l s', sess_inv ∅ s' ∧ lease_rows (exec s') l worker_id ∧ JobLease.job_id l = job
       ∧ JobLease.lease_epoch l = Job.lease_epoch j + 1
       ∧ JobLease.execution_epoch l = Job.execution_epoch j
       ∧ JobLease.expires_at l = Z.min (now + lease_duration) (Job.deadline j)
       ∧ ExecutionDb.system_execution_state (exec s') = ExecutionDb.system_execution_state (exec s)) env s.
Proof.
  intros Hs Hr Hj Hpre Hfresh. unfold grant_lease. apply wp_bind. eapply wp_deref; [apply Hj|].
  apply wp_bind. change (if eqv (Job.status j) JobStatus.LEASED then _ else _)
    with (expire_previous run j now).
  eapply wp_expire_previous; [done..|]. intros s1 Hs1 Hsw Hdr Hruns Hjobs Hnone.
  rewrite <- (sw_state _ _ Hsw).
  rewrite <- Hdr in Hfresh. rewrite <- Hruns in Hr.
  assert (only_job (exec s1) run job j) as Hj1 by by eapply only_job_same.
  assert (ExecutionDb.run_attempts (exec s1) !! uuid4_source env (draws s1) = None
          ∨ E IntegrityError
            ∧ is_Some (ExecutionDb.run_attempts (exec s1) !! uuid4_source env (draws s1))) as Hfresh1.
  { destruct (ExecutionDb.run_attempts (exec s1) !! _) as [x|] eqn:Hx; [|by left].
    right. destruct Hfresh as [?|Hn]; [by eauto|]. apply not_elem_of_dom in Hn.
    exfalso. apply Hn. rewrite <- (sw_attempts _ _ Hsw). apply elem_of_dom. by eexists. }
  clear Hfresh Hdr Hruns Hjobs Hs Hj. rename s1 into s0.
  destruct (clean_run ∅ s0 run r Hs1 (not_elem_of_empty _) Hr) as (_ & _ & _ & _ & _ & _ & _ & Hev & Hseq).
  wp_steps. eapply wp_deref; [done|]. wp_steps. cbn.
  set (n := uuid4_source env (draws s0)) in *.
  lazymatch goal with |- context [conflict s0 || ?b] => set (c := conflict s0 || b) in * end.
  destruct Hfresh1 as [Hn|(HE1 & Hcol)].
  - assert (c = false) as Hc.
    { subst c. rewrite (si_conflict _ _ Hs1), Hn. apply not_true_is_false.
      intros ([k a] & Hin & Hc)%existsb_exists. apply list_elem_of_In, elem_of_map_to_list in Hin.
      cbn in Hc. apply andb_true_iff in Hc as [Har%eqv_eq Hc]. apply orb_true_iff in Hc as [Hc|Hc].
      - apply Z.eqb_eq in Hc. pose proof (si_lineage _ _ Hs1 run (not_elem_of_empty _)) as Hlin.
        apply (le_attempts _ _ _ Hlin) in Hin; [|done].
        pose proof (latest_attempt_bound _ run k a Hin Har) as Hb.
        unfold latest_attempt in Hb. rewrite Hc in Hb. by apply Z.lt_irrefl in Hb.
      - by eapply Hnone. }
    clearbody c. eapply wp__append_next_event; [done|cbn; by rewrite lookup_alter_eq, Hr|exact Hev|exact Hseq|].
    set (a := RunAttempt.mk n (Run.workspace_id r) run job _ _ _ _ _ _).
    set (e := new_event _ _ _ _ _ _ _).
    assert (run_change run (exec s0) (grant_run (exec s0) run job n worker_id
              (Z.min (now + lease_duration) (Job.deadline j)) now (Job.lease_epoch j + 1) a e)) as Hch.
    { pose proof (li_checks _ (si_ledger _ _ Hs1)) as Hchk.
      pose proof (checks_job _ _ _ Hchk (proj1 Hj1)) as Hjc. unfold Job.checks in Hjc. breflect.
      eapply grant_run_change; try done; [apply Hs1| |lia].
      pose proof (latest_attempt_nonneg s0 run Hs1) as Hl.
      unfold RunAttempt.checks. cbn. rewrite !andb_true_r, andb_true_iff, !Z.ltb_lt.
      split; [|lia]. by apply Z.lt_succ_r. }
    apply wp_bind. eapply (wp_flush_inv E env ({[run]} ∪ ∅)).
    + eapply sess_inv_eq; [eapply sess_change; [exact Hs1|exact Hch]|done..|].
      cbn. by rewrite Hc, (si_conflict _ _ Hs1).
    + intros Hs'. apply wp_bind. eapply wp_deref; [cbn; by rewrite lookup_alter_eq, Hr|].
      apply wp_bind. eapply wp_deref; [cbn; by rewrite lookup_alter_eq, (proj1 Hj1)|].
      apply wp_ret. split; [exact Hs'|]. split; [|done].
      assert (Job.run_id j = run) as Hjr by apply Hj1.
      constructor; cbn; rewrite ?Hjr.
      * eexists. split; [by eapply (only_job_alter (exec s0))|]. cbn. split_and!; try done. lia.
      * rewrite lookup_alter_eq, Hr. eexists. split; [done|]. split; [done|]. cbn.
        by destruct (lineage_job _ run job r j (si_ledger _ _ Hs1) Hr Hj1) as (-> & _).
      * exists n, a. split; [|done]. split_and!; [cbn; by rewrite lookup_insert_eq|done|done].
      * done.
  - assert (c = true) as Hc.
    { subst c. apply is_some_spec in Hcol. by rewrite Hcol, orb_true_r. }
    clearbody c. eapply wp__append_conflict; [done|cbn; by rewrite lookup_alter_eq, Hr|].
    intros s' Hs'. apply wp_bind. by apply wp_flush_conflict.
Qed.

Ltac wp_guard := apply wp_bind, wp_raise_if; intros ?; [by apply HE|].

(** Identifiers of new attempts do not collide, or a rejected flush is allowed. *)
Definition attempts_fresh (s : Session) : Prop :=
  E IntegrityError
  ∨ ∀ n, ExecutionDb.run_attempts (exec s) !! uuid4_source env n = None.

Lemma attempts_fresh_swept s s' : attempts_fresh s → swept (exec s) (exec s') → attempts_fresh s'.
Proof.
  intros [?|Hf] Hsw; [by left|right]. intros n. apply not_elem_of_dom. rewrite (sw_attempts _ _ Hsw).
  by apply not_elem_of_dom.
Qed.

(** What a claim that returns a lease did: the lease's epoch is one more than
    the job's epoch before, and its expiry is bounded by the duration asked for
    and the deadline of the run. *)
Record lease_claimed (s s' : Session) (worker_id : string) (lease_duration : Z) (l : JobLease.t)
    : Prop := {
  lc_rows : lease_rows (exec s') l worker_id;
  lc_epoch : Job.lease_epoch <$> ExecutionDb.jobs (exec s) !! JobLease.job_id l
             = Some (JobLease.lease_epoch l - 1);
  lc_state : ∃ st, ExecutionDb.system_execution_state (exec s') = Some st
    ∧ SystemExecutionState.dispatch_quarantined st = false
    ∧ SystemExecutionState.execution_epoch st = JobLease.execution_epoch l;
  lc_bounds : ∃ t, clock env t < JobLease.expires_at l ≤ clock env t + lease_duration }.

Lemma wp_claim_job s worker_id lease_duration :
  sess_inv ∅ s → attempts_fresh s →
  wp (claim_job self worker_id lease_duration) E
    (λ o s', sess_inv ∅ s' ∧ match o.1 with
       | None => True
       | Some l => lease_claimed s s' worker_id lease_duration l
       end) env s.
Proof.
  intros Hs Hfresh. unfold claim_job. wp_guard. wp_steps. apply wp_bind.
  eapply wp__execution_state; [by eapply sess_inv_eq|]. intros st s1 Hs1 Hst _ Hx. wp_guard.
  assert (attempts_fresh s1) as Hf1 by (unfold attempts_fresh in *; by rewrite Hx).
  apply wp_bind. eapply wp_conseq; [by apply wp__terminalize_expired_jobs|].
  intros expired s2 (dirty & Hs2 & Hsw2). apply wp_bind. eapply wp_flush_inv; [done|]. intros Hs2'.
  apply wp_bind. eapply wp_conseq; [by apply wp__terminalize_abandoned_dispatches|].
  intros abandoned s3 (Hs3 & Hsw3). change (exec (s2 <| flushed := work s2 |>)) with (exec s2) in Hsw3.
  assert (swept (exec s1) (exec s3)) as Hsw by by etrans.
  assert (attempts_fresh s3) as Hf3 by by eapply attempts_fresh_swept.
  assert (∀ k, Job.lease_epoch <$> ExecutionDb.jobs (exec s3) !! k
               = Job.lease_epoch <$> ExecutionDb.jobs (exec s) !! k) as Hep.
  { intros k. rewrite (sw_epochs _ _ Hsw). by rewrite Hx. }
  assert (ExecutionDb.system_execution_state (exec s3) = Some st) as Hst3 by by rewrite (sw_state _ _ Hsw).
  clear Hsw2 Hsw3 Hf1 Hs1 Hs2 Hs2' Hx. wp_read as rows [= <-].
  destruct (take 1 _) as [|[run job0] rows] eqn:Hrows; [by apply wp_ret|].
  assert ((run, job0) ∈ joined_rows (claimable (SystemExecutionState.execution_epoch st)
            (clock env (ticks s))) Job.created_at env (flushed_exec s3)) as Hin.
  { assert ((run, job0) ∈ take 1 (joined_rows (claimable (SystemExecutionState.execution_epoch st)
            (clock env (ticks s))) Job.created_at env (flushed_exec s3))) as Hin.
    { unfold flushed_execution in Hrows. rewrite Hrows. by left. }
    by apply elem_of_take in Hin as (i & Hi%list_elem_of_lookup_2 & _). }
  apply elem_of_joined_rows in Hin as (r0 & j0 & Hj0 & Hjr0 & Hr0 & _ & Hcl & _).
  destruct (flushed_run ∅ s3 run r0 Hs3 (not_elem_of_empty _) Hr0) as (r & job & j & Hr & Hrs & Hjf & Hj & Hjs).
  assert (job0 = job) as -> by (eapply Hjf; eauto).
  assert (j0 = j) as -> by (destruct Hjf; congruence).
  assert (pre_dispatch (Run.status r) = true ∧ Job.execution_epoch j = SystemExecutionState.execution_epoch st)
    as [Hpre Hje].
  { unfold claimable in Hcl. breflect. split; [|done]. rewrite Hrs.
    repeat match goal with H : (_ || _) = true |- _ => apply orb_true_iff in H as [H|H] end; breflect; by
    match goal with H : Run.status r0 = _ |- _ => rewrite H end. }
  apply wp_bind. unfold job_for_run. apply wp_gets. unfold flushed_execution.
  erewrite job_for_run_eq; [|reflexivity|exact Hjf].
  apply wp_bind, wp_durable_now, wp_bind. set (s4 := s3 <| ticks := _ |>).
  assert (sess_inv ∅ s4) as Hs4 by by eapply sess_inv_eq.
  eapply wp_deref; [apply Hj|].
  destruct (Job.deadline j <=? _).
  { apply wp_bind. eapply wp_conseq; [eapply (wp_claim_ends s4); try done; auto|]. intros [l more] s5 [Hs5 Hl].
    cbn in Hl. subst l. by apply wp_ret. }
  apply wp_bind. eapply wp__claim_target_is_current; [exact Hr|]. intros b.
  apply wp_bind, wp_durable_now. set (s5 := s4 <| ticks := _ |>).
  assert (sess_inv ∅ s5) as Hs5 by by eapply sess_inv_eq.
  destruct (Job.deadline j <=? clock env (ticks s4)) eqn:Hdl; [|destruct b; cbn [negb]].
  - apply wp_bind. eapply wp_conseq; [eapply (wp_claim_ends s5); try done; auto|]. intros [l more] s6 [Hs6 Hl].
    cbn in Hl. subst l. by apply wp_ret.
  - apply wp_bind. eapply wp_conseq; [eapply (wp_grant_lease s5); try done|].
    + destruct Hf3 as [?|Hf3]; [by left|right; apply Hf3].
    + intros l s6 (Hs6 & Hrows6 & Hl1 & Hl2 & Hl3 & Hl4 & Hl5). apply wp_ret. split; [done|]. cbn.
      breflect. constructor; [done|..].
      * rewrite Hl1, <- Hep, (proj1 Hj). cbn. f_equal. lia.
      * exists st. rewrite Hl5. split_and!; [exact Hst3|done|congruence].
      * exists (ticks s4). rewrite Hl4. lia.
  - apply wp_bind. eapply wp_conseq; [eapply (wp_claim_ends s5); try done; auto|]. intros [l more] s6 [Hs6 Hl].
    cbn in Hl. subst l. by apply wp_ret.
Qed.

(** ** Fences, heartbeats, completion, cancellation *)

(** The rows written by a granted fence. *)
Lemma wp_fence_rows s run r job j k a target ty now (Q : uuid → Session → Prop) :
  sess_inv ∅ s → ExecutionDb.runs (exec s) !! run = Some r → only_job (exec s) run job j →
  active_attempt (exec s) run k a → RunAttempt.active (Run.status r) = true →
  RunAttempt.active target = true → step (Run.status r) ty target →
  (∀ s', sess_inv ∅ s' →
     exec s' = fence_run (exec s) run k target now
                 (new_event s run (Run.workspace_id r) ty target None now) → Q run s') →
  wp (update_run run (λ r, r <| Run.status := target |> <| Run.updated_at := now |>) ;;
      update_attempt k (λ a, a <| RunAttempt.status := target |>) ;;
      _append_next_event run ty target None now ;;
      flush ;;
      mret run) E Q env s.
Proof.
  intros Hs Hr Hj Ha Hact Htgt Hst HQ. wp_steps. cbn.
  destruct (clean_run ∅ s run r Hs (not_elem_of_empty _) Hr) as (_ & _ & _ & _ & _ & _ & _ & Hev & Hseq).
  eapply wp__append_next_event; [apply (si_conflict _ _ Hs)|cbn; by rewrite lookup_alter_eq, Hr|exact Hev|exact Hseq|].
  set (e := new_event s run (Run.workspace_id r) ty target None now).
  assert (run_change run (exec s) (fence_run (exec s) run k target now e)) as Hch.
  { eapply fence_run_change; try done; [apply Hs|by destruct (Run.status r)|].
    split_and!; [done|done|by destruct target]. }
  apply wp_bind. eapply (wp_flush_inv E env ({[run]} ∪ ∅)).
  - by eapply sess_inv_eq; [eapply sess_change; [exact Hs|exact Hch]|..].
  - intros Hs'. by apply wp_ret, HQ.
Qed.

Lemma wp__fence_attempt_status s lease expected_ target ty :
  sess_inv ∅ s → RunAttempt.active expected_ = true → RunAttempt.active target = true →
  step expected_ ty target →
  wp (_fence_attempt lease expected_ target ty) E
    (λ _ s', sess_inv ∅ s' ∧ (∃ r, ExecutionDb.runs (exec s') !! JobLease.run_id lease = Some r ∧ Run.status r = target)
     ∧ ∃ r, ExecutionDb.runs (exec s) !! JobLease.run_id lease = Some r ∧ Run.status r = expected_) env s.
Proof.
  intros Hs Hexp Htgt Hst. unfold _fence_attempt, lease_lost. apply wp_bind.
  eapply wp__execution_state; [done|]. intros st s1 Hs1 _ _ Hs1s. wp_steps.
  destruct (by_id _ _ _); [|by apply wp_raise_expected]. apply wp_bind.
  eapply wp__locked_lease_lineage; [done|]. intros r j Hr Hj.
  set (run := JobLease.run_id lease) in *. set (job := JobLease.job_id lease) in *.
  wp_read as w Hw. destruct w; [|by apply wp_raise_expected].
  apply wp_bind. eapply wp_deref; [exact Hr|]. apply wp_bind. eapply wp_deref; [apply Hj|].
  wp_read as t Ht. apply wp_bind. eapply wp__active_attempt; [done..|]. intros attempt Hatt.
  apply wp_bind. destruct attempt as [k|]; [|wp_steps; by apply HE].
  destruct Hatt as [a Ha]. apply wp_bind. eapply wp_deref; [apply Ha|].
  apply wp_ret, wp_bind, wp_durable_now.
  destruct (fence_allowed _ _ _ _ _ _ _ _) eqn:Hok; [|by apply wp_raise_expected].
  assert (ExecutionDb.runs (exec s) !! run = Some r) as Hr0 by (by rewrite Hs1s in Hr).
  clear Hs1s. assert (Run.status r = expected_) as <-.
  { unfold fence_allowed in Hok. breflect. done. }
  set (s2 := s1 <| ticks := _ |>). eapply (wp_fence_rows s2); try done; [by eapply sess_inv_eq; [exact Hs1|..]|].
  intros s' Hs' He. split; [done|]. split; [|by exists r]. rewrite He. cbn. rewrite lookup_alter_eq, Hr. by eexists.
Qed.

Lemma wp__fence_attempt s lease expected_ target ty :
  sess_inv ∅ s → RunAttempt.active expected_ = true → RunAttempt.active target = true →
  step expected_ ty target →
  wp (_fence_attempt lease expected_ target ty) E (λ _ s', sess_inv ∅ s') env s.
Proof. intros. eapply wp_conseq; [by apply wp__fence_attempt_status|]. by intros run s' [Hs' _]. Qed.

Lemma wp_fence_session s lease :
  sess_inv ∅ s → wp (fence_session lease) E (λ _ s', sess_inv ∅ s') env s.
Proof. intros Hs. unfold fence_session. apply wp__fence_attempt; [exact Hs|done|done|constructor]. Qed.

Lemma wp_fence_dispatch s lease :
  sess_inv ∅ s → wp (fence_dispatch lease) E (λ _ s', sess_inv ∅ s') env s.
Proof. intros Hs. unfold fence_dispatch. apply wp__fence_attempt; [exact Hs|done|done|constructor]. Qed.

Lemma wp_heartbeat s lease lease_duration :
  sess_inv ∅ s → wp (heartbeat lease lease_duration) E (λ _ s', sess_inv ∅ s') env s.
Proof.
  intros Hs. unfold heartbeat. wp_guard. apply wp_bind.
  eapply wp__execution_state; [done|]. intros st s1 Hs1 _ _ _. clear s Hs.
  apply wp_bind. eapply wp__locked_lease_lineage; [done|]. intros r j Hr Hj.
  apply wp_bind, wp_durable_now, wp_bind. eapply wp_deref; [exact Hr|]. apply wp_bind.
  eapply wp_deref; [apply Hj|]. wp_guard. wp_guard.
  assert (Job.status j = JobStatus.LEASED) as Hl. { unfold holds_lease in *. by breflect. }
  assert (run_change (JobLease.run_id lease) (exec s1)
            (beat_job (exec s1) (JobLease.job_id lease) (Z.min (clock env (ticks s1) + lease_duration) (Job.deadline j)))) as Hch.
  { eapply beat_job_change; try done. apply Hs1. }
  wp_steps. eapply (wp_flush_inv E env ({[JobLease.run_id lease]} ∪ ∅)).
  - by eapply sess_inv_eq; [eapply sess_change; [exact Hs1|exact Hch]|..].
  - intros Hs'. by apply wp_ret.
Qed.

(** A completion the service accepts is a step of the automaton. *)
Lemma valid_completion_step r a status code :
  _valid_worker_completion r a status code = true →
  step (Run.status r) RunEventType.TERMINAL status ∧ error_code_checks status code = true
  ∧ RunStatus.terminal (Run.status r) = false.
Proof.
  unfold _valid_worker_completion, error_code_checks. intros H. apply andb_true_iff in H as [_ H].
  destruct status; try done; breflect; destruct (Run.status r); try done; destruct code as [[]|];
    try done; split_and!; try done; by constructor.
Qed.

Lemma wp_complete_lease s lease status code :
  sess_inv ∅ s →
  wp (complete_lease lease status code) E
    (λ run s', sess_inv ∅ s' ∧ flushed s' = work s' ∧ is_Some (ExecutionDb.runs (exec s') !! run)) env s.
Proof.
  intros Hs. unfold complete_lease. wp_guard. wp_guard. apply wp_bind.
  eapply wp__execution_state; [done|]. intros st s0 Hs0 _ _ _. clear s Hs.
  apply wp_bind. eapply wp__locked_lease_lineage; [done|]. intros r j Hr Hj.
  set (run := JobLease.run_id lease) in *. set (job := JobLease.job_id lease) in *.
  apply wp_bind, wp_durable_now. set (now := clock env (ticks s0)). set (s1 := s0 <| ticks := _ |>).
  assert (sess_inv ∅ s1) as Hs1 by by eapply sess_inv_eq.
  apply wp_bind. eapply wp_deref; [exact Hr|]. apply wp_bind.
  eapply wp_deref; [apply Hj|]. wp_guard. wp_guard.
  assert (RunStatus.terminal status = true) as Ht by by apply negb_false_iff.
  destruct (Job.deadline j <=? now).
  - destruct (deadline_status_step (Run.status r)) as (Hst & Hdt & Hns); [done|].
    apply wp_bind. eapply (wp__terminalize_run _ _ ∅); try done. intros s2 Hcl Hs2.
    apply wp_bind. eapply wp_flush_inv; [done|]. intros Hs3. apply wp_ret. split_and!; [done..|].
    destruct (closed_rows _ _ _ _ _ _ _ Hcl) as (_ & Hd & _). apply elem_of_dom. cbn. rewrite Hd.
    apply elem_of_dom. by eexists.
  - wp_guard. apply wp_bind. eapply wp__active_attempt; [exact Hs1|exact Hr|]. intros attempt Hatt.
    destruct attempt as [k|]; [|by apply HE]. pose proof Hatt as [a Ha].
    apply wp_bind. eapply wp_deref; [apply Ha|]. wp_guard. wp_guard. breflect.
    match goal with H : _valid_worker_completion _ _ _ _ = true |- _ =>
      destruct (valid_completion_step _ _ _ _ H) as (Hst & Hcode & Hnt) end.
    wp_steps. rewrite job_status_of_terminal by done. wp_steps. cbn.
    destruct (clean_run ∅ s1 run r Hs1 (not_elem_of_empty _) Hr) as (_ & _ & _ & _ & _ & _ & _ & Hev & Hseq).
    eapply wp__append_next_event; [apply (si_conflict _ _ Hs1)|cbn; by rewrite lookup_alter_eq, Hr|exact Hev|exact Hseq|].
    set (e := new_event _ _ _ _ _ _ _).
    assert (run_change run (exec s1) (close_run (exec s1) run job (Some k) status code now e)) as Hch.
    { eapply close_run_change; try done; apply Hs1. }
    apply wp_bind. eapply (wp_flush_inv E env ({[run]} ∪ ∅)).
    + by eapply sess_inv_eq; [eapply sess_change; [exact Hs1|exact Hch]|..].
    + intros Hs'. apply wp_ret. split_and!; [done..|]. cbn. rewrite lookup_alter_eq, Hr. by eexists.
Qed.

Lemma wp_require_current_role dirty s context roles b (Q : WorkspaceMembership.t → Session → Prop) :
  sess_inv dirty s →
  (∀ m s', sess_inv dirty s' → flushed s' = flushed s → exec s' = exec s → ticks s' = ticks s →
     Q m s') →
  wp (require_current_role context roles b) E Q env s.
Proof.
  intros Hs HQ. unfold require_current_role, require_role. wp_guard. apply wp_bind.
  assert (∀ Q' : unit → Session → Prop, Q' tt s →
    wp (if b then workspace_id ← select_workspace (WorkspaceContext.workspace_id context);
                  raise_if (is_none workspace_id) AuthorizationDenied else mret tt) E Q' env s) as Hb.
  { intros Q' HQ'. destruct b; [|done]. wp_read as w Hw. apply wp_raise_if; [by intros; apply HE|done]. }
  apply Hb. wp_read as m Hm. destruct m as [m|]; [|by apply wp_raise_expected].
  unfold populate_membership. apply wp_bind, wp_modify. wp_guard. apply wp_ret, HQ; [|done..].
  by apply (sess_identity dirty s (λ d, d <| IdentityDb.workspace_memberships := _ |>)).
Qed.

Lemma wp_audit dirty s context action rt id correlation (Q : unit → Session → Prop) :
  sess_inv dirty s →
  (∀ s', sess_inv dirty s' → flushed s' = flushed s → exec s' = exec s → Q tt s') →
  wp (audit context action rt id correlation) E Q env s.
Proof.
  intros Hs HQ. unfold audit, add_audit_event. apply wp_bind.
  assert (∀ Q' : uuid → Session → Prop,
            (∀ c n, Q' c (s <| draws := n |>)) →
            wp (match correlation with Some c => mret c | None => uuid4 end) E Q' env s) as Hc.
  { intros Q' HQ'. destruct correlation as [u|]; [|by apply wp_uuid4]. apply wp_ret.
    specialize (HQ' u (draws s)). by destruct s. }
  apply Hc. intros c n. wp_steps. apply HQ; [|done..].
  by eapply sess_inv_eq; [eapply (sess_identity dirty s (λ d, d <| IdentityDb.audit_events := _ |>))|..].
Qed.

Lemma wp_cancel_run s context run_id correlation :
  sess_inv ∅ s → wp (cancel_run context run_id correlation) E (λ _ s', sess_inv ∅ s') env s.
Proof.
  intros Hs. unfold cancel_run. apply wp_bind. eapply wp_require_current_role; [exact Hs|].
  intros _ s1 Hs1 _ _ _. clear s Hs. apply wp_bind.
  eapply wp__locked_run; [exact Hs1| |apply not_elem_of_empty]. intros r0 _ Hr0.
  apply wp_bind. eapply wp_require_current_role; [exact Hs1|]. intros _ s2 Hs2 _ Hx _.
  rewrite <- Hx in Hr0. clear s1 Hs1 Hx. set (run := run_id) in *.
  apply wp_bind. eapply wp_deref; [exact Hr0|].
  destruct (RunStatus.terminal (Run.status r0)) eqn:Hnt; [by apply wp_ret|].
  apply wp_bind, wp_durable_now. set (now := clock env (ticks s2)). set (s3 := s2 <| ticks := _ |>).
  assert (sess_inv ∅ s3) as Hs3 by by eapply sess_inv_eq.
  apply wp_bind, wp_modify.
  match goal with |- wp _ _ _ _ ?s => set (s4 := s) end.
  set (r := r0 <| Run.cancellation_requested := true |>).
  assert (sess_inv ∅ s4) as Hs4.
  { apply (sess_touch ∅ s3 run r0); try done.
    apply (checks_run (exec s3) run r0); [apply (si_ledger _ _ Hs3)|done]. }
  assert (ExecutionDb.runs (exec s4) !! run = Some r) as Hr by (cbn; by rewrite lookup_alter_eq, Hr0).
  apply wp_bind.
  assert (∀ s5 dirty, sess_inv dirty s5 → is_Some (ExecutionDb.runs (exec s5) !! run) →
    wp (r ← run_of run;
        audit context (if eqv (Run.status r) RunStatus.CANCELLED then AuditAction.RUN_CANCELLED
                       else AuditAction.RUN_CANCELLATION_REQUESTED) ResourceType.RUN run correlation ;;
        flush ;; mret run) E (λ _ s', sess_inv ∅ s') env s5) as Htail.
  { intros s5 dirty Hs5 [r5 Hr5]. apply wp_bind. eapply wp_deref; [exact Hr5|]. apply wp_bind.
    eapply wp_audit; [exact Hs5|]. intros s6 Hs6 _ _. apply wp_bind. eapply wp_flush_inv; [exact Hs6|].
    intros Hs7. by apply wp_ret. }
  assert (∀ s5 status code ty, closed s4 s5 run status code now ty →
            is_Some (ExecutionDb.runs (exec s5) !! run)) as Hcl.
  { intros s5 status code ty Hc. destruct (closed_rows _ _ _ _ _ _ _ Hc) as (_ & Hd & _).
    apply elem_of_dom. rewrite Hd. apply elem_of_dom. by eexists. }
  destruct (Run.deadline r0 <=? now).
  - destruct (deadline_status_step (Run.status r0)) as (Hst & Hdt & Hns); [done|].
    eapply (wp__terminalize_run _ _ ∅ s4 run r); try done. intros s5 Hc Hs5. eauto.
  - destruct (_ || _) eqn:Hpre.
    + assert (pre_dispatch (Run.status r0) = true) as Hpd.
      { apply orb_true_iff in Hpre as [Hpre|H%eqv_eq]; [apply orb_true_iff in Hpre as [H%eqv_eq|H%eqv_eq]|];
          by rewrite H. }
      eapply (wp__terminalize_run _ _ ∅ s4 run r); try done; [by constructor|].
      intros s5 Hc Hs5. eauto.
    + assert (Run.status r0 = RunStatus.DISPATCH_FENCED) as Hd.
      { breflect. by destruct (Run.status r0). }
      apply wp_bind, wp_modify.
      destruct (clean_run ∅ s4 run r Hs4 (not_elem_of_empty _) Hr) as (_ & _ & _ & _ & _ & _ & _ & Hev & Hseq).
      eapply wp__append_next_event;
        [apply (si_conflict _ _ Hs4)|cbn; by rewrite lookup_alter_eq, lookup_alter_eq, Hr0|exact Hev|exact Hseq|].
      set (e := new_event _ _ _ _ _ _ _).
      assert (run_change run (exec s4) (touch_run (exec s4) run (λ r, r <| Run.updated_at := now |>) (Some e))) as Hch.
      { eapply touch_run_change; try done; [apply Hs4| |].
        - exact (checks_run (exec s4) run r (li_checks _ (si_ledger _ _ Hs4)) Hr).
        - split; [|split; [done|]].
          + split_and!; [done|done|]. cbn. by rewrite Hd.
          + cbn. rewrite Hd. constructor. }
      eapply (Htail _ ({[run]} ∪ ∅)); [by eapply sess_inv_eq; [eapply sess_change; [exact Hs4|exact Hch]|..]|].
      cbn. rewrite lookup_alter_eq, lookup_alter_eq, Hr0. by eexists.
Qed.
End operations.
