(* ===== verification/MaintenanceWp.v ===== *)
(** The operations of [Maintenance] keep the ledger consistent. *)
From S2P Require Import Prelude Types Json PyStr Store Session Registry Identity Ledger Lease Maintenance.
From S2P Require Import LedgerInv Hoare LedgerStep LedgerWp LeaseWp.
Local Open Scope Z_scope.

(** Writes to tables outside the lineage of runs. *)
Lemma sess_frame dirty s d' :
  sess_inv dirty s → execution_checks d' = true →
  ExecutionDb.runs d' = ExecutionDb.runs (exec s) → ExecutionDb.jobs d' = ExecutionDb.jobs (exec s) →
  ExecutionDb.run_attempts d' = ExecutionDb.run_attempts (exec s) →
  ExecutionDb.run_events d' = ExecutionDb.run_events (exec s) →
  (is_Some (ExecutionDb.system_execution_state (exec s)) →
   is_Some (ExecutionDb.system_execution_state d')) →
  sess_inv dirty (with_exec s d').
Proof.
  intros [Hc Hl Hi Hre Hreq Hlin Hru Hste Hext] Hch Hr Hj Ha He Hst. constructor; cbn; auto.
  - by eapply ledger_inv_frame.
  - intros run Hrun. destruct (Hlin run Hrun) as [L1 L2 L3].
    constructor; intros; rewrite ?Hj, ?Ha; auto. unfold events_of in *. by rewrite He.
  - intros run Hrun. rewrite Hr. auto.
  - destruct Hext as [X1 X2 X3 X4]. constructor; rewrite ?Hr, ?Hj, ?Ha; try done.
    unfold listeners_accept in *. by rewrite Hr, Hj, Ha.
Qed.

(** ** Deletion *)

Lemma keep_lookup {R} (run_id : R → uuid) ids m k x :
  keep run_id ids m !! k = Some x ↔ m !! k = Some x ∧ run_id x ∉ ids.
Proof. unfold keep. by rewrite map_lookup_filter_Some. Qed.

Lemma all_rows_filter {K R} `{Countable K} (f : R → bool) (m : gmap K R)
    (P : K * R → Prop) `{∀ x, Decision (P x)} :
  all_rows f m = true → all_rows f (filter P m) = true.
Proof. rewrite !all_rows_spec. intros Hm k r [Hk _]%map_lookup_filter_Some. by eapply Hm. Qed.

Lemma cascade_same ids d run : run ∉ ids → same run d (cascade ids d).
Proof.
  intros Hrun. split; cbn.
  - symmetry. destruct (ExecutionDb.runs d !! run) as [r|] eqn:Hr.
    + by apply map_lookup_filter_Some.
    + apply map_lookup_filter_None. by left.
  - constructor; cbn.
    + intros k j Hj. rewrite keep_lookup, Hj. naive_solver.
    + intros k a Ha. rewrite keep_lookup, Ha. naive_solver.
    + unfold events_of. cbn. rewrite list_filter_filter. apply list_filter_iff.
      intros e. naive_solver.
Qed.

Lemma cascade_checks ids d : execution_checks d = true → execution_checks (cascade ids d) = true.
Proof.
  rewrite !execution_checks_spec. intros (H1 & H2 & H3 & H4 & H5 & H6 & H7 & H8). cbn.
  split_and!; try by apply all_rows_filter. 1: done.
  apply forallb_forall. intros e He%list_elem_of_In. apply list_elem_of_filter in He as [_ He].
  by apply (proj1 (forallb_forall _ _) H6), list_elem_of_In.
Qed.

Lemma cascade_inv ids d : ledger_inv d → ledger_inv (cascade ids d).
Proof.
  intros [Hch Hruns Hjobs Hatt Hev].
  assert (∀ run, run ∉ ids → is_Some (ExecutionDb.runs d !! run) →
            is_Some (ExecutionDb.runs (cascade ids d) !! run)) as Hfk.
  { intros run Hrun Hr. by destruct (cascade_same ids d run Hrun) as [<- _]. }
  constructor.
  - by apply cascade_checks.
  - intros run r [Hr Hrun]%map_lookup_filter_Some. cbn in Hrun.
    destruct (Hruns run r Hr) as [Hid Hlo]. split; [done|].
    destruct (cascade_same ids d run Hrun) as [_ Hlin].
    by apply (lineage_ok_proper _ _ _ Hlin _ _ eq_refl _ _ eq_refl _ _ eq_refl).
  - intros k j [Hk Hrun]%keep_lookup. eauto.
  - intros k a [Hk Hrun]%keep_lookup. eauto.
  - cbn. intros e [Hrun He]%list_elem_of_filter. eauto.
Qed.

(** ** Batches of runs *)

Definition selected (P : Run.t → bool) (column : Run.t → Z) (limit : Z) (env : Env)
    (d : ExecutionDb.t) : list uuid :=
  take (Z.to_nat limit) (filter (λ run, row_locked env run = false)
    (fst <$> order_by column (where_rows (ExecutionDb.runs d) P))).

Lemma elem_of_selected P column limit env d run :
  run ∈ selected P column limit env d →
  ∃ r, ExecutionDb.runs d !! run = Some r ∧ P r = true ∧ row_locked env run = false.
Proof.
  unfold selected. intros (i & Hi%list_elem_of_lookup_2 & _)%elem_of_take.
  apply list_elem_of_filter in Hi as [Hl ([run' r] & -> & Hin)%list_elem_of_fmap].
  apply elem_of_order_by, elem_of_where_rows in Hin as [Hr HP]. by exists r.
Qed.

Lemma NoDup_selected P column limit env d : NoDup (selected P column limit env d).
Proof.
  unfold selected.
  assert (NoDup (filter (λ run, row_locked env run = false)
    (fst <$> order_by column (where_rows (ExecutionDb.runs d) P)))) as Hnd
    by apply NoDup_filter, NoDup_order_by, NoDup_where_rows.
  rewrite <- (take_drop (Z.to_nat limit)) in Hnd. by apply NoDup_app in Hnd as [? _].
Qed.

Lemma selected_length P column limit env d :
  0 ≤ limit → len (selected P column limit env d) ≤ limit.
Proof. intros Hl. unfold selected, len. rewrite length_take. lia. Qed.

#[global] Instance select_runs_reads P column limit : ReadOnly (select_runs P column limit).
Proof. intros env s. by eexists. Qed.

#[global] Instance select_results_reads now limit : ReadOnly (select_results now limit).
Proof. intros env s. by eexists. Qed.

(** What a batch did to the rows of runs: those of [l] changed by [F], the
    others and the execution state stayed. *)
Record runs_rewritten (F : Run.t → Run.t → Prop) (l : list uuid) (d d' : ExecutionDb.t) : Prop := {
  rw_done : ∀ run, run ∈ l → ∃ r r', ExecutionDb.runs d !! run = Some r
    ∧ ExecutionDb.runs d' !! run = Some r' ∧ F r r';
  rw_rest : ∀ run, run ∉ l → ExecutionDb.runs d' !! run = ExecutionDb.runs d !! run;
  rw_state : ExecutionDb.system_execution_state d' = ExecutionDb.system_execution_state d }.

Notation run_rewritten F run := (runs_rewritten F [run]).

Lemma runs_rewritten_nil F d : runs_rewritten F [] d d.
Proof. split; [|done..]. by intros run ?%elem_of_nil. Qed.

Lemma runs_rewritten_snoc F l run d d1 d2 :
  runs_rewritten F l d d1 → run ∉ l → run_rewritten F run d1 d2 → runs_rewritten F (l ++ [run]) d d2.
Proof.
  intros [D1 R1 S1] Hrun [D2 R2 S2]. constructor; [|intros k Hk|congruence].
  - intros k [Hk| ->%list_elem_of_singleton]%elem_of_app.
    + destruct (D1 k Hk) as (r & r' & Hr & Hr' & HF). exists r, r'. split_and!; [done| |done].
      rewrite R2; [done|]. intros ->%list_elem_of_singleton. done.
    + destruct (D2 run) as (r & r' & Hr & Hr' & HF); [by left|]. exists r, r'. by rewrite <- R1.
  - rewrite R2, R1; [done|set_solver..].
Qed.

(** A terminalized run. *)
Definition ended (r r' : Run.t) : Prop := RunStatus.terminal (Run.status r') = true.

Lemma closed_rewritten s s' run status code now ty :
  RunStatus.terminal status = true → closed s s' run status code now ty →
  run_rewritten ended run (exec s) (exec s').
Proof.
  intros Ht [(r & job & j & attempt & Hr & _ & _ & ->)]. constructor; cbn; [| |done].
  - intros k ->%list_elem_of_singleton. rewrite lookup_alter_eq, Hr. eexists _, _. by split_and!.
  - intros k Hk. apply lookup_alter_ne. set_solver.
Qed.

(** ** The execution state of a database *)

(** The execution epoch that [_execution_state] reads or creates. *)
Definition current_epoch (d : Db.t) : Z :=
  match ExecutionDb.system_execution_state (Db.execution d) with
  | Some st => SystemExecutionState.execution_epoch st
  | None => 1
  end.

(** Is dispatch quarantined? *)
Definition quarantined (d : Db.t) : bool :=
  match ExecutionDb.system_execution_state (Db.execution d) with
  | Some st => SystemExecutionState.dispatch_quarantined st
  | None => false
  end.

(** The state that [_execution_state] returns and the one in the database. *)
Lemma state_read d st :
  (ExecutionDb.system_execution_state (Db.execution d) = Some st
   ∨ ExecutionDb.system_execution_state (Db.execution d) = None
     ∧ SystemExecutionState.execution_epoch st = 1
     ∧ SystemExecutionState.dispatch_quarantined st = false) →
  SystemExecutionState.execution_epoch st = current_epoch d
  ∧ SystemExecutionState.dispatch_quarantined st = quarantined d.
Proof. unfold current_epoch, quarantined. by intros [->|(-> & -> & ->)]. Qed.

Section batches.
Context (E : exn → Prop) (env : Env) (self : ExecutionService.t).

(** A loop over selected runs whose body makes its run dirty. *)
Lemma wp_for_runs s P column limit (F : Run.t → Run.t → Prop) (body : uuid → M unit) :
  sess_inv ∅ s →
  (∀ dirty s' run r r' (Q : unit → Session → Prop),
     sess_inv dirty s' → run ∉ dirty → flushed s' = flushed s →
     ExecutionDb.runs (flushed_exec s') !! run = Some r → P r = true →
     ExecutionDb.runs (exec s') !! run = Some r' → Run.status r' = Run.status r →
     (∀ s'', sess_inv ({[run]} ∪ dirty) s'' → flushed s'' = flushed s' →
        run_rewritten F run (exec s') (exec s'') → Q tt s'') →
     wp (body run) E Q env s') →
  let l := selected P column limit env (flushed_exec s) in
  wp (for_each l body) E
    (λ _ s', ∃ dirty, sess_inv dirty s' ∧ runs_rewritten F l (exec s) (exec s')) env s.
Proof.
  intros Hs Hbody l.
  eapply wp_conseq; [apply (wp_for_each E env l body
    (λ done s', sess_inv (list_to_set done) s' ∧ flushed s' = flushed s
       ∧ runs_rewritten F done (exec s) (exec s'))); [by split_and!; [..|apply runs_rewritten_nil]|]|].
  - intros done run rest s' Hsplit (Hs' & Hf & Hrw).
    destruct (elem_of_selected P column limit env (flushed_exec s) run) as (r & Hr & HP & _).
    { fold l. rewrite Hsplit. set_solver. }
    assert (run ∉ done) as Hdone.
    { pose proof (NoDup_selected P column limit env (flushed_exec s)) as Hnd. fold l in Hnd.
      rewrite Hsplit in Hnd. apply NoDup_app in Hnd as (_ & Hnd & _).
      intros Hd. apply (Hnd run Hd). by left. }
    assert (run ∉ (list_to_set done : gset uuid)) as Hrun by by rewrite elem_of_list_to_set.
    destruct (flushed_run _ s' run r Hs' Hrun) as (r' & _ & _ & Hr' & Hrs & _); [by rewrite Hf|].
    eapply (Hbody _ s' run r r'); try done; [by rewrite Hf|].
    intros s'' Hs'' Hf'' Hrw''. split_and!; [|congruence|by eapply runs_rewritten_snoc].
    rewrite list_to_set_app_L. cbn. rewrite union_empty_r_L. by rewrite union_comm_L.
  - intros _ s' (Hs' & _ & Hrw). by eexists.
Qed.

(** The runs that one reconciliation terminalizes. *)
Definition reconciled_batch (n : Z) (d : ExecutionDb.t) : list uuid :=
  selected (λ r, RunStatus.active (Run.status r)) Run.created_at n env d.

Lemma wp_reconcile_restore_quarantine s n :
  sess_inv ∅ s → flushed s = work s →
  (ExecutionService.has_system_authority self = false → E PermissionError) →
  (batch_rejected n = true → E ValueError) →
  (quarantined (work s) = false → E invalid_transition) →
  wp (reconcile_restore_quarantine self n) E (λ k s', sess_inv ∅ s'
    ∧ k = len (reconciled_batch n (exec s))
    ∧ runs_rewritten ended (reconciled_batch n (exec s))
        (exec s <| ExecutionDb.system_execution_state :=
                     ExecutionDb.system_execution_state (exec s') |>) (exec s')
    ∧ quarantined (work s') = quarantined (work s)) env s.
Proof.
  intros Hs Hfw HE1 HE2 HE3. unfold reconcile_restore_quarantine, _require_system_authority.
  apply wp_bind, wp_raise_if; [by intros ?%negb_true_iff%HE1|]. intros _.
  apply wp_bind, wp_raise_if; [exact HE2|]. intros _.
  apply wp_bind. eapply wp__execution_state_clean; [done..|]. intros st s0 Hs0 Hfw0 Hst Hx Hor.
  apply state_read in Hor as [_ Hq].
  apply wp_bind, wp_raise_if; [intros Hq0%negb_true_iff; apply HE3; by rewrite <- Hq|]. intros _.
  apply wp_bind, wp_durable_now. set (s1 := s0 <| ticks := _ |>).
  assert (sess_inv ∅ s1) as Hs1 by by eapply sess_inv_eq.
  wp_read as runs [= <-]. apply wp_bind. eapply wp_conseq.
  - eapply (wp_for_runs s1 (λ r, RunStatus.active (Run.status r)) Run.created_at n ended); [done|].
    intros dirty s' run r r' Q Hs' Hrun _ _ HP Hr' Hrs HQ. apply wp_bind.
    eapply wp_deref; [done|]. rewrite RunStatus.active_not_terminal, <- Hrs in HP.
    apply negb_true_iff in HP.
    eapply wp__terminalize_run; try done.
    + by destruct (eqv _ _).
    + by destruct (eqv _ _).
    + destruct (eqv _ _) eqn:Hd; [apply eqv_eq in Hd; rewrite Hd; constructor|].
      apply eqv_false in Hd. constructor. by destruct (Run.status r').
    + intros s'' Hcl Hs''. apply HQ; [done|by apply closed_rows in Hcl as (? & _)|].
      eapply closed_rewritten; [|exact Hcl]. by destruct (eqv _ _).
  - intros _ s2 (dirty & Hs2 & Hrw). apply wp_bind. eapply wp_flush_inv; [done|]. intros Hs3.
    apply wp_ret. split; [done|].
    assert (reconciled_batch n (flushed_exec s1) = reconciled_batch n (exec s)) as Hb.
    { change (flushed s1) with (flushed s0). unfold reconciled_batch, selected. by rewrite Hfw0, Hx. }
    fold (reconciled_batch n (flushed_exec s1)) in Hrw. rewrite Hb in Hrw.
    pose proof (rw_state _ _ _ _ Hrw) as Hst2. cbn in Hst2. rewrite Hst in Hst2.
    split_and!; [by rewrite <- Hb| |].
    + cbn. rewrite Hst2, <- Hx. exact Hrw.
    + rewrite <- Hq. unfold quarantined. cbn. by rewrite Hst2.
Qed.

(** Erasing the arguments of a run. *)
Definition erase (now : instant) (r : Run.t) : Run.t :=
  r <| Run.arguments := None |> <| Run.argument_digest := None |> <| Run.updated_at := now |>.

Lemma erase_checks now r : Run.checks r = true → Run.checks (erase now r) = true.
Proof.
  unfold Run.checks, erase. intros Hc. cbn. breflect.
  rewrite !andb_true_iff, !Z.leb_le. by split_and!.
Qed.

(** A run whose arguments were erased has ended. *)
Definition erased (r r' : Run.t) : Prop :=
  Run.arguments r' = None ∧ Run.argument_digest r' = None ∧ RunStatus.terminal (Run.status r') = true.

(** The runs whose arguments one batch erases. *)
Definition content_due (now : instant) (r : Run.t) : bool :=
  is_some (Run.arguments r) && (Run.arguments_expires_at r <=? now).
Definition expired_batch (n : Z) (now : instant) (d : ExecutionDb.t) : list uuid :=
  selected (content_due now) Run.arguments_expires_at n env d.

Lemma erase_rewritten F run d d' now r' :
  run_rewritten F run d d' → ExecutionDb.runs d' !! run = Some r' →
  RunStatus.terminal (Run.status r') = true →
  run_rewritten erased run d
    (d' <| ExecutionDb.runs := alter (erase now) run (ExecutionDb.runs d') |>).
Proof.
  intros [D Rest St] Hr' Ht. constructor; cbn; [| |done].
  - intros k ->%list_elem_of_singleton. destruct (D run) as (r & _ & Hr & _); [by left|].
    rewrite lookup_alter_eq, Hr'. exists r. eexists. by split_and!.
  - intros k Hk. rewrite lookup_alter_ne by set_solver. by apply Rest.
Qed.

Lemma wp_expire_retained_content s n :
  sess_inv ∅ s → (batch_rejected n = true → E ValueError) →
  wp (expire_retained_content n) E (λ k s', sess_inv ∅ s'
    ∧ k = len (expired_batch n (clock env (ticks s)) (flushed_exec s))
    ∧ runs_rewritten erased (expired_batch n (clock env (ticks s)) (flushed_exec s)) (exec s) (exec s')) env s.
Proof.
  intros Hs HE1. unfold expire_retained_content. apply wp_bind, wp_raise_if; [exact HE1|]. intros _.
  apply wp_bind, wp_durable_now. set (s1 := s <| ticks := _ |>). set (now := clock env (ticks s)).
  assert (sess_inv ∅ s1) as Hs1 by by eapply sess_inv_eq.
  wp_read as runs [= <-]. apply wp_bind. eapply wp_conseq.
  - eapply (wp_for_runs s1 (content_due now) Run.arguments_expires_at n erased); [done|].
    intros dirty s' run r0 r Q Hs' Hrun _ _ _ Hr _ HQ. apply wp_bind.
    eapply wp_deref; [done|]. apply wp_bind. destruct (RunStatus.terminal (Run.status r)) eqn:Hnt; cbn [negb].
    + destruct (clean_run dirty s' run r Hs' Hrun Hr) as (_ & _ & _ & _ & _ & _ & _ & Hev & Hseq).
      eapply wp__append_next_event; [apply (si_conflict _ _ Hs')|exact Hr|exact Hev|exact Hseq|].
      set (e := new_event _ _ _ _ _ _ _). wp_steps.
      pose proof (checks_run _ _ _ (li_checks _ (si_ledger _ _ Hs')) Hr) as Hck.
      assert (run_change run (exec s') (touch_run (exec s') run (erase now) (Some e))) as Hch.
      { eapply touch_run_change; try done; [apply Hs'|by apply erase_checks|].
        split; [|split; [done|by constructor]]. split_and!; [done|done|].
        unfold Run.checks in Hck. breflect. done. }
      apply HQ; [|done|].
      * by eapply sess_inv_eq; [eapply sess_change; [exact Hs'|exact Hch]|..].
      * constructor; cbn; [| |done].
        -- intros k ->%list_elem_of_singleton. rewrite lookup_alter_eq, Hr. eexists _, _. by split_and!.
        -- intros k Hk. apply lookup_alter_ne. set_solver.
    + eapply wp__terminalize_run; try done.
      * by destruct (eqv _ _).
      * by destruct (eqv _ _).
      * destruct (eqv _ _) eqn:Hd; [apply eqv_eq in Hd; rewrite Hd; constructor|].
        apply eqv_false in Hd. constructor. by destruct (Run.status r).
      * intros s'' Hcl Hs''. wp_steps.
        assert (run_rewritten ended run (exec s') (exec s'')) as Hrw.
        { eapply closed_rewritten; [|exact Hcl]. by destruct (eqv _ _). }
        destruct (rw_done _ _ _ _ Hrw run) as (r1 & r' & _ & Hr' & Ht); [by left|].
        apply HQ; [|by apply closed_rows in Hcl as (? & _)|by eapply erase_rewritten].
        apply (sess_touch _ s'' run r' (erase now)); try done.
        apply erase_checks. exact (checks_run _ _ _ (li_checks _ (si_ledger _ _ Hs'')) Hr').
  - intros _ s2 (dirty & Hs2 & Hrw). apply wp_bind. eapply wp_flush_inv; [done|]. intros Hs3.
    by apply wp_ret.
Qed.

End batches.

Section operations.
Context (E : exn → Prop) (env : Env) (HE : ∀ e, expected e → E e) (self : ExecutionService.t).

Ltac wp_guard := apply wp_bind, wp_raise_if; intros ?; [by apply HE|].

Lemma wp_update_execution_state s st f (Q : unit → Session → Prop) :
  sess_inv ∅ s → ExecutionDb.system_execution_state (exec s) = Some st →
  SystemExecutionState.checks (f st) = true →
  (∀ s', sess_inv ∅ s' → ExecutionDb.system_execution_state (exec s') = Some (f st) →
     s' = with_exec s (exec s <| ExecutionDb.system_execution_state := Some (f st) |>) → Q tt s') →
  wp (update_execution_state f) E Q env s.
Proof.
  intros Hs Hst Hf HQ. unfold update_execution_state. wp_steps.
  match goal with |- Q tt ?s0 => assert (sess_inv ∅ s0) as Hs' end.
  - apply (sess_frame ∅ s (exec s <| ExecutionDb.system_execution_state := _ |>)); try done.
    + pose proof (li_checks _ (si_ledger _ _ Hs)) as (_ & Hrest)%execution_checks_spec.
      apply execution_checks_spec. split; [|done]. cbn. rewrite Hst. by intros ? [= <-].
    + cbn. by rewrite Hst.
  - apply HQ; [done|cbn; by rewrite Hst|]. unfold with_exec. cbn. by rewrite Hst.
Qed.

Lemma state_epoch s st :
  sess_inv ∅ s → ExecutionDb.system_execution_state (exec s) = Some st →
  0 < SystemExecutionState.execution_epoch st.
Proof.
  intros Hs Hst. pose proof (li_checks _ (si_ledger _ _ Hs)) as (H & _)%execution_checks_spec.
  specialize (H st Hst). unfold SystemExecutionState.checks in H. by breflect.
Qed.

Lemma wp_enter_restore_quarantine s :
  sess_inv ∅ s → wp (enter_restore_quarantine self) E (λ _ s', sess_inv ∅ s') env s.
Proof.
  intros Hs. unfold enter_restore_quarantine, _require_system_authority. wp_guard.
  apply wp_bind, wp_durable_now, wp_bind.
  eapply wp__execution_state; [by eapply sess_inv_eq|]. intros st s1 Hs1 Hst _ _.
  pose proof (state_epoch s1 st Hs1 Hst) as Hep.
  apply wp_bind. eapply wp_update_execution_state; [done..| |].
  - unfold SystemExecutionState.checks. cbn. lia.
  - intros s2 Hs2 _ _. apply wp_bind. eapply wp_flush_inv; [done|]. intros Hs3. by apply wp_ret.
Qed.

Lemma wp_clear_restore_quarantine s :
  sess_inv ∅ s → wp (clear_restore_quarantine self) E (λ _ s', sess_inv ∅ s') env s.
Proof.
  intros Hs. unfold clear_restore_quarantine, _require_system_authority. wp_guard.
  apply wp_bind. eapply wp__execution_state; [done|]. intros st s1 Hs1 Hst _ _.
  pose proof (state_epoch s1 st Hs1 Hst) as Hep.
  apply wp_bind, wp_gets. wp_guard. apply wp_bind.
  eapply wp_update_execution_state; [done..| |].
  { unfold SystemExecutionState.checks. cbn. lia. }
  intros s2 Hs2 Hst2 _. apply wp_bind, wp_durable_now, wp_bind.
  eapply (wp_update_execution_state (s2 <| ticks := _ |>)); [by eapply sess_inv_eq|done| |].
  { unfold SystemExecutionState.checks. cbn. lia. }
  intros s3 Hs3 _ _. apply wp_bind. eapply wp_flush_inv; [done|]. intros Hs4. by apply wp_ret.
Qed.

(** ** Deletion: the first statement of its unit of work *)

Lemma wp_execute_delete s f (Q : unit → Session → Prop) :
  flushed s = work s → conflict s = false → db_inv (work s) →
  ledger_inv (f (exec s)) →
  (∀ s', sess_inv ∅ s' → exec s' = f (exec s) → Q tt s') → wp (execute_delete f) E Q env s.
Proof.
  intros Hfw Hc (Hl & Hi & Hr) Hf HQ. unfold execute_delete. wp_steps. apply HQ; [|done].
  rewrite Hfw. eapply sess_inv_eq; [apply (sess_init ((work s) <| Db.execution := f (exec s) |>) 0 0)|..];
    done.
Qed.

Lemma results_inv d f :
  ledger_inv d → all_rows RunResult.checks f = true →
  ledger_inv (d <| ExecutionDb.run_results := f |>).
Proof.
  intros Hd Hf. eapply ledger_inv_frame; [done| |done..].
  pose proof (li_checks d Hd) as (H1 & H2 & H3 & Hrest)%execution_checks_spec.
  by apply execution_checks_spec.
Qed.

Lemma wp_delete_expired_run_metadata s n :
  sess_inv ∅ s → flushed s = work s →
  wp (delete_expired_run_metadata self n) E (λ _ s', sess_inv ∅ s') env s.
Proof.
  intros Hs Hfw. unfold delete_expired_run_metadata. wp_guard.
  apply wp_bind, wp_durable_now. set (s1 := s <| ticks := _ |>).
  assert (sess_inv ∅ s1) as Hs1 by by eapply sess_inv_eq.
  wp_read as ids [= <-]. apply wp_bind.
  assert (∀ l, wp (delete_runs l) E (λ _ s', sess_inv ∅ s') env s1) as Hdel.
  { intros l. apply (wp_execute_delete s1 (cascade l)); [done|apply Hs1|by eapply sess_db_inv| |done].
    apply cascade_inv, Hs1. }
  destruct (take _ _); [by apply wp_ret, wp_ret|].
  eapply wp_conseq; [apply Hdel|]. intros ? s2 Hs2. by apply wp_ret.
Qed.

Lemma wp_expire_retained_results s n :
  sess_inv ∅ s → flushed s = work s →
  wp (expire_retained_results n) E (λ _ s', sess_inv ∅ s') env s.
Proof.
  intros Hs Hfw. unfold expire_retained_results. wp_guard.
  apply wp_bind, wp_durable_now. set (s1 := s <| ticks := _ |>).
  assert (sess_inv ∅ s1) as Hs1 by by eapply sess_inv_eq.
  wp_read as ids [= <-]. apply wp_bind.
  assert (∀ l, wp (delete_results l) E (λ _ s', sess_inv ∅ s') env s1) as Hdel.
  { intros l. eapply (wp_execute_delete s1); [done|apply Hs1|by eapply sess_db_inv| |done].
    apply results_inv; [apply Hs1|]. apply all_rows_filter.
    pose proof (li_checks _ (si_ledger _ _ Hs1)) as (_ & _ & H3 & _)%execution_checks_spec. done. }
  destruct (take _ _); [by apply wp_ret, wp_ret|].
  eapply wp_conseq; [apply Hdel|]. intros ? s2 Hs2. by apply wp_ret.
Qed.
End operations.
