(* ===== verification/AdmissionWp.v ===== *)
(** Admission keeps the ledger consistent: the rows of a new run, and the
    operations of [Admission]. *)
From S2P Require Import Prelude Types Json PyStr Store Session Registry Identity Ledger Lease Maintenance.
From S2P Require Import Admission LedgerInv Hoare LedgerStep LedgerWp LeaseWp MaintenanceWp.
Local Open Scope Z_scope.

(** ** Adding a run *)

Lemma admitted_run_inv d d' run r job j e :
  ledger_inv d → ExecutionDb.runs d !! run = None → ExecutionDb.jobs d !! job = None →
  ExecutionDb.runs d' = <[run := r]> (ExecutionDb.runs d) →
  ExecutionDb.jobs d' = <[job := j]> (ExecutionDb.jobs d) →
  ExecutionDb.run_attempts d' = ExecutionDb.run_attempts d →
  ExecutionDb.run_events d' = ExecutionDb.run_events d ++ [e] →
  execution_checks d' = true →
  Run.id r = run → Run.status r = RunStatus.QUEUED → Job.run_id j = run →
  Job.workspace_id j = Run.workspace_id r → Job.deadline j = Run.deadline r →
  Job.status j = JobStatus.QUEUED →
  entry_of e = (RunEventType.ADMITTED, RunStatus.QUEUED) → RunEvent.run_id e = run →
  RunEvent.sequence e = 1 → ledger_inv d'.
Proof.
  intros Hinv Hnr Hnj Hr Hj Ha He Hch Hid Hst Hjr Hjw Hjd Hjs Hee Her Hes.
  assert (∀ k j', ExecutionDb.jobs d !! k = Some j' → Job.run_id j' ≠ run) as Hnojob.
  { intros k j' Hk Hx. destruct (li_jobs d Hinv k j' Hk) as [? ?]. congruence. }
  assert (∀ k a, ExecutionDb.run_attempts d !! k = Some a → RunAttempt.run_id a ≠ run) as Hnoatt.
  { intros k a Hk Hx. destruct (li_attempts d Hinv k a Hk) as [? ?]. congruence. }
  assert (events_of run d = []) as Hnoev.
  { destruct (events_of run d) as [|x l] eqn:Hx; [done|].
    assert (x ∈ events_of run d) as [Hin Hxr]%elem_of_events_of by (rewrite Hx; left).
    destruct (li_events d Hinv x Hin) as [? ?]. congruence. }
  assert (events_of run d' = [e]) as Hev.
  { unfold events_of in *. rewrite He, filter_app, Hnoev, filter_cons_True by done. done. }
  eapply (ledger_inv_update d d' run r); [done| |done|by rewrite Hr, lookup_insert_eq|].
  - intros run' Hne. apply (same_of _ _ run); [done|..].
    + by rewrite Hr, lookup_insert_ne by done.
    + rewrite Hj. by apply owned_insert.
    + rewrite Ha. apply owned_refl.
    + unfold events_of. rewrite He, filter_app, (filter_cons_False _ e) by congruence.
      by rewrite app_nil_r.
  - split; [done|]. constructor; unfold history; rewrite ?Hev.
    + cbn. rewrite Hee, Hst. constructor.
    + cbn. by rewrite Hes.
    + exists job, j. split_and!; [|done|done|by rewrite Hst|].
      * split_and!; [by rewrite Hj, lookup_insert_eq|done|].
        intros k j' Hk Hr'. rewrite Hj, lookup_insert in Hk. case_decide; [done|]. by destruct (Hnojob k j').
      * constructor; [intros k a (Hk & Har & _)|intros k k' a a' (Hk & Har & _)];
          rewrite Ha in Hk; by destruct (Hnoatt k a).
Qed.

Section operations.
Context `{Externals} (E : exn → Prop) (env : Env) (HE : ∀ e, expected e → E e).
Context (self : ExecutionService.t).

Ltac wp_guard := apply wp_bind, wp_raise_if; intros ?; [by apply HE|].

(** [_flush_execution_payload]: a conflict is reported, not raised. *)
Lemma wp_try_flush s (Q : bool → Session → Prop) :
  (conflict s = false → listeners_accept (flushed_exec s) (exec s) = true) →
  Q false s →
  (conflict s = false → schema_checks (work s) = true → Q true (s <| flushed := work s |>)) →
  wp try_flush E Q env s.
Proof.
  intros Hl Hf Ht. unfold wp, try_flush, flush. destruct (conflict s) eqn:Hc; [done|].
  rewrite Hl by done. cbn. destruct (schema_checks (work s)); cbn; auto.
Qed.

Definition fails_expected {A} (m : result exn A) : Prop := ∀ e, m = Err e → expected e.

Lemma wp_lift {A} (m : result exn A) (Q : A → Session → Prop) s :
  fails_expected m → (∀ a, m = Ok a → Q a s) → wp (lift m) E Q env s.
Proof. intros Hm HQ. unfold wp, lift. destruct m as [a|e]; [by apply HQ|by apply HE, Hm]. Qed.

Ltac by_cases := repeat case_match; intros ? [=]; by subst.

Lemma normalize_fails a : fails_expected (_normalize_arguments self a).
Proof. unfold fails_expected, _normalize_arguments, failure. by_cases. Qed.
Lemma validate_fails a b : fails_expected (_validate_normalized_arguments a b).
Proof. unfold fails_expected, _validate_normalized_arguments, failure. by_cases. Qed.
Lemma decode_fails t : fails_expected (_decode_confirmation self t).
Proof. unfold fails_expected, _decode_confirmation, failure. by_cases. Qed.
Lemma bindings_fails c x v d now : fails_expected (_require_confirmation_bindings c x v d now).
Proof. unfold fails_expected, _require_confirmation_bindings, failure. by_cases. Qed.
Lemma canonicalize_fails d : fails_expected (_canonicalize_deadline d).
Proof. unfold fails_expected, _canonicalize_deadline, failure. by_cases. Qed.
Lemma deadline_fails d now : fails_expected (_admission_deadline self d now).
Proof. unfold fails_expected, _admission_deadline, failure. by_cases. Qed.
Lemma key_fails v : fails_expected (_validate_idempotency_key self v).
Proof. unfold fails_expected, _validate_idempotency_key, failure. by_cases. Qed.
Lemma arguments_fails a b : fails_expected (_validate_arguments self a b).
Proof.
  intros e. unfold _validate_arguments. destruct (_normalize_arguments self a) as [[n d]|e0] eqn:Hn; cbn.
  - destruct (_validate_normalized_arguments n b) as [|e1] eqn:Hv; cbn; [done|]. intros [= <-].
    by eapply validate_fails.
  - intros [= <-]. by eapply normalize_fails.
Qed.

(** Histories of keys are only read. *)
Lemma wp__require_confirmation_key_history s (Q : unit → Session → Prop) :
  Q tt s → wp (_require_confirmation_key_history self) E Q env s.
Proof.
  intros HQ. unfold _require_confirmation_key_history. apply wp_bind, wp_gets. wp_guard.
  apply wp_bind, wp_gets, wp_raise_if; [by intros; apply HE|done].
Qed.
Lemma wp__require_idempotency_key_history s (Q : unit → Session → Prop) :
  Q tt s → wp (_require_idempotency_key_history self) E Q env s.
Proof.
  intros HQ. unfold _require_idempotency_key_history.
  apply wp_bind, wp_gets, wp_raise_if; [by intros; apply HE|done].
Qed.

(** [_load_admission_target] refreshes registry objects that nothing changed. *)
Lemma refresh_registry s (d : RegistryDb.t) :
  d = Db.registry (work s) → s <| work := (work s) <| Db.registry := d |> |> = s.
Proof. intros ->. by destruct s as [? [] ? ? ?]. Qed.

Lemma wp_fetch_capability dirty s id P (Q : option Capability.t → Session → Prop) :
  sess_inv dirty s → (∀ c, Q c s) → wp (fetch_capability id P) E Q env s.
Proof.
  intros Hs HQ. unfold fetch_capability. apply wp_bind, wp_gets.
  destruct (RegistryDb.capabilities (flushed_registry s) !! id) as [c|] eqn:Hc; [|by apply wp_ret].
  destruct (P c); [|by apply wp_ret]. wp_steps. unfold flushed_registry in Hc.
  rewrite (si_registry_eq _ _ Hs) in Hc. rewrite refresh_registry; [done|].
  cbn. rewrite insert_id by done. by destruct (Db.registry (work s)).
Qed.
Lemma wp_fetch_connection dirty s id P (Q : option ServerConnection.t → Session → Prop) :
  sess_inv dirty s → (∀ c, Q c s) → wp (fetch_connection id P) E Q env s.
Proof.
  intros Hs HQ. unfold fetch_connection. apply wp_bind, wp_gets.
  destruct (RegistryDb.server_connections (flushed_registry s) !! id) as [c|] eqn:Hc; [|by apply wp_ret].
  destruct (P c); [|by apply wp_ret]. wp_steps. unfold flushed_registry in Hc.
  rewrite (si_registry_eq _ _ Hs) in Hc. rewrite refresh_registry; [done|].
  cbn. rewrite insert_id by done. by destruct (Db.registry (work s)).
Qed.

Lemma wp__load_admission_target dirty s context v (Q : AdmissionTarget.t → Session → Prop) :
  sess_inv dirty s → (∀ t, Q t s) → wp (_load_admission_target context v) E Q env s.
Proof.
  intros Hs HQ. unfold _load_admission_target, unavailable. wp_read as version Hv.
  destruct version as [version|]; [|by apply wp_raise_expected]. apply wp_bind.
  eapply wp_fetch_capability; [done|]. intros c. wp_read as b Hb.
  destruct c as [c|]; [|by apply wp_raise_expected]. destruct b as [b|]; [|by apply wp_raise_expected].
  apply wp_bind. eapply wp_fetch_connection; [done|]. intros [n|]; [|by apply wp_raise_expected].
  wp_read as o Ho. destruct (admissible _ _ _ _ _ _); [by apply wp_ret|by apply wp_raise_expected].
Qed.

Lemma wp_preflight s context v arguments :
  sess_inv ∅ s → wp (preflight self context v arguments) E (λ _ s', sess_inv ∅ s') env s.
Proof.
  intros Hs. unfold preflight. apply wp_bind. eapply wp_require_current_role; [done..|].
  intros _ s1 Hs1 _ _ _. apply wp_bind. eapply wp__load_admission_target; [done|]. intros t.
  apply wp_bind, wp_lift; [apply arguments_fails|]. intros [n digest] _. wp_steps.
  destruct (ExecutionService.confirmation_keys self); [by apply wp_raise_expected|].
  apply wp_ret. by eapply sess_inv_eq.
Qed.

(** ** Replay and admission *)

Lemma wp_flush_any s (Q : unit → Session → Prop) :
  E IntegrityError → (conflict s = false → listeners_accept (flushed_exec s) (exec s) = true) →
  (conflict s = false → schema_checks (work s) = true → Q tt (s <| flushed := work s |>)) →
  wp flush E Q env s.
Proof.
  intros Hi Hl HQ. unfold wp, flush. destruct (conflict s) eqn:Hc; [done|].
  rewrite Hl by done. cbn. destruct (schema_checks (work s)); cbn; auto.
Qed.

Lemma schema_checks_spec d :
  schema_checks d = true ↔ identity_checks (Db.identity d) = true
    ∧ registry_checks (Db.registry d) = true ∧ execution_checks (Db.execution d) = true.
Proof. unfold schema_checks. rewrite !andb_true_iff. tauto. Qed.

(** A session right after a flush. *)
Lemma sess_flushed s :
  flushed s = work s → conflict s = false → db_inv (work s) → sess_inv ∅ s.
Proof.
  intros Hf Hc Hd. eapply sess_inv_eq; [by apply (sess_init (work s) 0 0)|by rewrite Hf|done|done].
Qed.

Context (HI : E IntegrityError).

Lemma wp__replay_existing_run s context id record request claims digest :
  sess_inv ∅ s →
  wp (_replay_existing_run self context id record request claims digest) E
     (λ _ s', sess_inv ∅ s') env s.
Proof.
  intros Hs. unfold _replay_existing_run, idempotency_conflict.
  destruct (_key_by_version _ _) as [key|]; [|by apply wp_raise_expected].
  destruct (negb _); [by apply wp_raise_expected|]. apply wp_bind, wp_gets.
  destruct (by_id _ _ _) as [run|] eqn:Hrun; [|by apply wp_raise_expected].
  apply by_id_Some in Hrun as (-> & r & Hr & _). apply wp_bind, wp_gets.
  destruct (_ !! id); [|by apply wp_raise_expected]. apply wp_bind.
  eapply wp_require_current_role; [done..|]. intros _ s1 Hs1 Hf1 Hx1 _.
  destruct (flushed_run ∅ s _ r Hs (not_elem_of_empty _) Hr) as (r' & _ & _ & Hr' & _).
  rewrite <- Hx1 in Hr'. apply wp_bind. eapply wp_deref; [done|].
  destruct (_ || _); [by apply wp_raise_expected|]. apply wp_bind, wp_gets, wp_bind, wp_durable_now.
  destruct (ExecutionDb.confirmation_nonces _ !! digest) as [n|].
  - destruct (eqv _ _); [|by apply wp_raise_expected]. apply wp_ret. by eapply sess_inv_eq.
  - unfold add_nonce. wp_steps. apply wp_flush_any; [done|intros _; apply Hs1|]. cbn. intros Hc Hck.
    apply wp_ret, sess_flushed; [done..|].
    apply schema_checks_spec in Hck as (Hi & Hre & Hex). split_and!; [|done..].
    eapply ledger_inv_frame; [apply Hs1|exact Hex|done..].
Qed.

Lemma wp_optional_uuid4 (o : option uuid) s (Q : uuid → Session → Prop) :
  (∀ c n, Q c (s <| draws := n |>)) →
  wp (match o with Some c => mret c | None => uuid4 end) E Q env s.
Proof.
  intros HQ. destruct o as [u|]; [|by apply wp_uuid4]. apply wp_ret.
  specialize (HQ u (draws s)). by destruct s.
Qed.

Lemma listeners_insert_job d d' job j :
  ExecutionDb.runs d' = ExecutionDb.runs d → ExecutionDb.run_attempts d' = ExecutionDb.run_attempts d →
  ExecutionDb.jobs d' = <[job := j]> (ExecutionDb.jobs d) → ExecutionDb.jobs d !! job = None →
  listeners_accept d d' = true.
Proof.
  intros Hr Ha Hj Hn. unfold listeners_accept. rewrite Hr, Ha, Hj.
  by rewrite !status_update_ok_refl, status_update_ok_insert.
Qed.

Lemma listeners_insert_run d d' run r :
  extends d d' → ExecutionDb.runs d' !! run = None →
  extends d (d' <| ExecutionDb.runs := <[run := r]> (ExecutionDb.runs d') |>).
Proof.
  intros Hx Hn. etrans; [exact Hx|]. constructor; cbn; rewrite ?dom_insert_L; try set_solver.
  unfold listeners_accept. cbn. by rewrite !status_update_ok_refl, status_update_ok_insert.
Qed.

Lemma wp_admit_run s context claims state target normalized digest nonce raw request deadline now corr :
  sess_inv ∅ s →
  wp (admit_run self context claims state target normalized digest nonce raw request deadline now corr)
     E (λ _ s', sess_inv ∅ s') env s.
Proof.
  intros Hs. unfold admit_run. apply wp_bind, wp_uuid4. set (run := uuid4_source env (draws s)).
  apply wp_bind, wp_optional_uuid4. intros trace n. apply wp_bind, wp_modify, wp_bind, wp_modify.
  apply wp_bind. cbn. rewrite (si_conflict _ _ Hs). cbn [orb].
  destruct (ExecutionDb.runs (exec s) !! run) as [r0|] eqn:Hrun; cbn [is_some].
  { apply wp_try_flush; [done| |done]. wp_guard. done. }
  set (r := Run.mk run _ _ _ _ _ _ _ _ _ _ _ _ _ _ _ _ _ _ _ _).
  pose proof (listeners_insert_run _ _ run r (si_extends _ _ Hs) Hrun) as Hx1.
  apply wp_try_flush; [intros _; apply Hx1|by apply wp_bind, wp_raise_if; [intros; apply HE|]|].
  intros _ Hck1. apply wp_bind, wp_raise_if; [done|]. intros _. cbn.
  apply wp_bind, wp_uuid4.
  apply wp_bind, wp_modify, wp_bind, wp_modify. cbn. set (job := uuid4_source env n).
  set (j := Job.mk job _ _ _ _ _ _ _ _ _ _ _ _).
  apply wp_bind. unfold _append_event. apply wp_bind.
  eapply wp_deref; [cbn; by rewrite lookup_insert_eq|]. apply wp_bind, wp_modify, wp_modify. cbn.
  apply wp_bind. unfold add_nonce. apply wp_bind, wp_modify, wp_modify. cbn.
  destruct (ExecutionService.idempotency_keys self) as [|key keys]; [by apply wp_raise_expected|].
  do 3 (wp_steps; cbv zeta). unfold add_audit_event. wp_steps. cbn. apply wp_try_flush.
  - cbn. intros Hc. apply (listeners_insert_job _ _ job j); [done..|]. cbn.
    repeat (apply orb_false_iff in Hc as [Hc ?]).
    by destruct (ExecutionDb.jobs (exec s) !! job).
  - apply wp_bind, wp_raise_if; [by intros; apply HE|done].
  - intros Hc Hck. apply wp_bind, wp_raise_if; [done|]. intros _. apply wp_ret, sess_flushed; [done..|].
    apply schema_checks_spec in Hck as (Hi & Hre & Hex). split_and!; [|done..].
    cbn in Hc. repeat (apply orb_false_iff in Hc as [Hc ?]).
    eapply (admitted_run_inv (exec s) _ run r job j); try done; [apply Hs|].
    by destruct (ExecutionDb.jobs (exec s) !! job).
Qed.

Lemma wp_admit_new s context v claims state normalized digest nonce raw request deadline now corr :
  sess_inv ∅ s →
  wp (admit_new self context v claims state normalized digest nonce raw request deadline now corr)
     E (λ _ s', sess_inv ∅ s') env s.
Proof.
  intros Hs. unfold admit_new, select_nonce. apply wp_bind, wp_gets. wp_guard. wp_guard.
  apply wp_bind, wp_lift; [apply deadline_fails|]. intros _ _.
  apply wp_bind. eapply wp__load_admission_target; [done|]. intros t. wp_guard.
  apply wp_bind, wp_lift; [apply validate_fails|]. intros _ _.
  apply wp_bind, wp_durable_now. wp_guard.
  apply wp_bind, wp_lift; [apply deadline_fails|]. intros dl _. wp_guard.
  apply wp_bind, wp_gets. wp_guard. apply wp_admit_run. by eapply sess_inv_eq.
Qed.

Lemma canonical_request_fails a b c d e f :
  fails_expected (match _canonical_request a b c d e f with Some r => Ok r | None => Err ValueError end).
Proof. intros x. destruct (_canonical_request _ _ _ _ _ _); [done|]. by intros [= <-]. Qed.

Lemma wp_create_run s context v arguments token key deadline corr :
  sess_inv ∅ s →
  wp (create_run self context v arguments token key deadline corr) E (λ _ s', sess_inv ∅ s') env s.
Proof.
  intros Hs. unfold create_run, _find_idempotency_record, begin_nested, rollback_to. apply wp_bind.
  eapply wp__execution_state; [done|]. intros st s1 Hs1 _ _ _. clear s Hs.
  apply wp_bind. eapply wp_require_current_role; [done..|]. intros _ s2 Hs2 _ _ _. clear s1 Hs1.
  apply wp_bind, wp_lift; [apply normalize_fails|]. intros [normalized digest] _.
  apply wp_bind, wp__require_confirmation_key_history, wp_bind, wp__require_idempotency_key_history.
  apply wp_bind, wp_lift; [apply decode_fails|]. intros claims _.
  apply wp_bind, wp_durable_now. set (s3 := s2 <| ticks := _ |>).
  assert (sess_inv ∅ s3) as Hs3 by by eapply sess_inv_eq.
  apply wp_bind, wp_lift; [apply bindings_fails|]. intros _ _.
  apply wp_bind, wp_lift; [apply canonicalize_fails|]. intros dl _.
  apply wp_bind, wp_lift; [apply key_fails|]. intros raw _.
  apply wp_bind, wp_lift; [apply canonical_request_fails|]. intros request _.
  apply wp_bind, wp_gets. destruct (head _) as [[id record]|]; [by apply wp__replay_existing_run|].
  apply wp_bind, wp_bind. eapply wp_flush_inv; [done|]. intros Hs4.
  set (s4 := s3 <| flushed := _ |>) in *. apply wp_gets, wp_bind.
  eapply wp_require_current_role; [done..|]. intros _ s5 Hs5 _ _ _.
  apply wp_bind, wp_durable_now.
  apply wp_bind, wp__require_confirmation_key_history, wp_bind, wp__require_idempotency_key_history.
  apply wp_bind, wp_gets. destruct (head _) as [[id record]|].
  - apply wp_bind, wp_modify, wp__replay_existing_run. eapply sess_inv_eq; [exact Hs4|done..].
  - apply wp_bind. eapply (wp_flush_inv _ _ ∅); [eapply sess_inv_eq; [exact Hs5|done..]|]. intros Hs6.
    by apply wp_admit_new.
Qed.

Lemma wp_complete_invocation_success s lease result :
  sess_inv ∅ s →
  wp (complete_invocation_success self lease result) E (λ _ s', sess_inv ∅ s') env s.
Proof.
  intros Hs. unfold complete_invocation_success. wp_guard. apply wp_bind.
  eapply wp_conseq; [by apply wp_complete_lease|]. intros run s1 (Hs1 & Hf & [r Hr]).
  apply wp_bind. eapply wp_deref; [done|]. destruct (negb (eqv _ _)); [by apply wp_ret|].
  assert (∀ Q' : Z → Session → Prop, (∀ t n, Q' t (s1 <| ticks := n |>)) →
    wp (match Run.terminal_at r with Some t => mret t | None => durable_now end) E Q' env s1) as Ht.
  { intros Q' HQ'. destruct (Run.terminal_at r) as [t|]; [|by apply wp_durable_now]. apply wp_ret.
    specialize (HQ' t (ticks s1)). by destruct s1. }
  apply wp_bind, Ht. intros t n. wp_steps. apply wp_flush_any; [done|intros _; apply Hs1|].
  cbn. intros Hc Hck. apply wp_ret, sess_flushed; [done..|].
  apply schema_checks_spec in Hck as (Hi & Hre & Hex). split_and!; [|done..].
  eapply ledger_inv_frame; [apply Hs1|exact Hex|done..].
Qed.
End operations.
