(* ===== verification/Frame.v ===== *)
(** What a program may do to the execution tables, proved along its structure:
    [Keeps R m] says that every successful run of [m] relates the tables before
    and after by [R], unless it left a duplicate key behind, which the next
    flush rejects. *)
From S2P Require Import Prelude Types Json PyStr Store Session Registry Identity Ledger Lease Maintenance Admission Hoare LedgerWp.
From S2P Require Import LeaseWp MaintenanceWp.
Local Open Scope Z_scope.

Section keeps.
Context (R : ExecutionDb.t → ExecutionDb.t → Prop) `{!PreOrder R}.

Class Keeps {A} (m : M A) : Prop := keeps : ∀ env s a s',
  m env s = Ok (a, s') →
  (conflict s = true → conflict s' = true) ∧ (conflict s' = false → R (exec s) (exec s')).

Lemma keeps_bind {A B} (m : M A) (k : A → M B) :
  Keeps m → (∀ a, Keeps (k a)) → Keeps (m ≫= k).
Proof using PreOrder0.
  intros Hm Hk env s b s'. unfold mbind, M_bind. destruct (m env s) as [[a s1]|e] eqn:E; [|done].
  intros E'. destruct (Hm _ _ _ _ E) as [Hm1 Hm2]. destruct (Hk a _ _ _ _ E') as [Hk1 Hk2].
  split; [auto|]. intros Hc. etrans; [|by apply Hk2]. apply Hm2.
  destruct (conflict s1) eqn:Hc1; [|done]. specialize (Hk1 eq_refl). congruence.
Qed.

Lemma keeps_pure {A} (m : M A) :
  (∀ env s a s', m env s = Ok (a, s') → work s' = work s ∧ conflict s' = conflict s) → Keeps m.
Proof using PreOrder0. intros Hm env s a s' E. destruct (Hm _ _ _ _ E) as [Hw Hc]. by rewrite Hw, Hc. Qed.

#[global] Instance keeps_ret {A} (a : A) : Keeps (mret a).
Proof using PreOrder0. apply keeps_pure. by intros env s b s' [= <- <-]. Qed.
#[global] Instance keeps_raise {A} e : Keeps (raise (A := A) e).
Proof using PreOrder0. by apply keeps_pure. Qed.
#[global] Instance keeps_raise_if b e : Keeps (raise_if b e).
Proof using PreOrder0. destruct b; [apply keeps_raise|apply keeps_ret]. Qed.
#[global] Instance keeps_lift {A} (m : result exn A) : Keeps (lift m).
Proof using PreOrder0. apply keeps_pure. intros env s a s'. unfold lift. destruct m; [by intros [= <- <-]|done]. Qed.
#[global] Instance keeps_gets {A} (f : Session → A) : Keeps (gets f).
Proof using PreOrder0. apply keeps_pure. by intros env s b s' [= <- <-]. Qed.
#[global] Instance keeps_durable_now : Keeps durable_now.
Proof using PreOrder0. apply keeps_pure. by intros env s b s' [= <- <-]. Qed.
#[global] Instance keeps_uuid4 : Keeps uuid4.
Proof using PreOrder0. apply keeps_pure. by intros env s b s' [= <- <-]. Qed.
#[global] Instance keeps_deref {T} (t : Session → gmap uuid T) i : Keeps (deref t i).
Proof using PreOrder0. apply keeps_pure. intros env s a s'. unfold deref. destruct (_ !! _); [by intros [= <- <-]|done]. Qed.
#[global] Instance keeps_flush : Keeps flush.
Proof using PreOrder0.
  apply keeps_pure. intros env s a s'. unfold flush. repeat case_match; intros [=]; by subst.
Qed.
#[global] Instance keeps_try_flush : Keeps try_flush.
Proof using PreOrder0.
  apply keeps_pure. intros env s a s'. unfold try_flush, flush. destruct (conflict s) eqn:Hc.
  - intros [= <- <-]. by rewrite Hc.
  - destruct (listeners_accept _ _), (schema_checks _); cbn; intros [=]; by subst.
Qed.
#[global] Instance keeps_flag_conflict b : Keeps (flag_conflict b).
Proof using PreOrder0.
  intros env s a s' [= <- <-]. cbn. split; [|done]. by intros ->.
Qed.
#[global] Instance keeps_put_registry f : Keeps (put_registry f).
Proof using PreOrder0. by intros env s a s' [= <- <-]. Qed.
#[global] Instance keeps_put_identity f : Keeps (put_identity f).
Proof using PreOrder0. by intros env s a s' [= <- <-]. Qed.
Lemma keeps_put_execution f : (∀ d, R d (f d)) → Keeps (put_execution f).
Proof. intros Hf env s a s' [= <- <-]. cbn. auto. Qed.
#[global] Instance keeps_for_each {A} (l : list A) body : (∀ x, Keeps (body x)) → Keeps (for_each l body).
Proof using PreOrder0.
  intros Hb. induction l as [|x l IH]; cbn; [apply keeps_ret|]. apply keeps_bind; [apply Hb|by intros].
Qed.
Lemma keeps_read_only {A} (m : M A) : ReadOnly m → Keeps m.
Proof using PreOrder0.
  intros Hm. apply keeps_pure. intros env s a s' E. destruct (Hm env s) as [b Hb].
  rewrite Hb in E. by simplify_eq.
Qed.

(** *** Programs that may return to an earlier state of the session *)

Definition keeps_rel (s s' : Session) : Prop :=
  (conflict s = true → conflict s' = true) ∧ (conflict s' = false → R (exec s) (exec s')).

#[global] Instance keeps_rel_preorder : PreOrder keeps_rel.
Proof using PreOrder0.
  split; [by split|]. intros s1 s2 s3 [C1 G1] [C2 G2]. split; [auto|]. intros Hc. etrans; [|by apply G2].
  apply G1. destruct (conflict s2); [|done]. specialize (C2 eq_refl). congruence.
Qed.

Class KeepsFrom (s0 : Session) {A} (m : M A) : Prop :=
  keeps_from : ∀ env s a s', keeps_rel s0 s → m env s = Ok (a, s') → keeps_rel s0 s'.

#[global] Instance keeps_from_keeps s0 {A} (m : M A) : Keeps m → KeepsFrom s0 m.
Proof using PreOrder0. intros Hm env s a s' Hrel E. etrans; [exact Hrel|]. by eapply Hm. Qed.
Lemma keeps_from_bind s0 {A B} (m : M A) (k : A → M B) :
  KeepsFrom s0 m → (∀ a, KeepsFrom s0 (k a)) → KeepsFrom s0 (m ≫= k).
Proof.
  intros Hm Hk env s b s' Hrel. unfold mbind, M_bind. destruct (m env s) as [[a s1]|] eqn:E; [|done].
  intros E'. eapply Hk; [|done]. by eapply Hm.
Qed.
#[global] Instance keeps_from_rollback s0 : KeepsFrom s0 (rollback_to s0).
Proof. by intros env s a s' Hrel [= <- <-]. Qed.

Lemma keeps_nested {A} (k : Session → M A) : (∀ s0, KeepsFrom s0 (k s0)) → Keeps (begin_nested ≫= k).
Proof using PreOrder0.
  intros Hk env s a s' E. change (keeps_rel s s'). revert E. unfold begin_nested, gets, flush, mbind, M_bind.
  destruct (conflict s); [done|].
  destruct (listeners_accept _ _); cbn; [|done]. destruct (schema_checks _); cbn; [|done].
  intros E. etrans; [|eapply Hk; [reflexivity|exact E]]. by split.
Qed.

(** An insertion guarded by a conflict flag. *)
Lemma keeps_flagged {A} (b : Session → bool) f (k : unit → M A) :
  (∀ s, b s = false → R (exec s) (f (exec s))) → (∀ u, Keeps (k u)) →
  Keeps (flag_conflict b ≫= λ _, put_execution f ≫= k).
Proof using PreOrder0.
  intros Hf Hk env s a s'. unfold flag_conflict, put_execution, modify, mbind, M_bind. intros E.
  change (keeps_rel s s'). etrans; [|eapply Hk; exact E]. split; cbn.
  - by intros ->.
  - intros Hc. apply Hf. by destruct (b s), (conflict s).
Qed.

End keeps.

(** Decompose a program into its primitives. *)
Ltac keeps_step :=
  lazymatch goal with
  | |- ∀ _, _ => intros
  | |- Keeps _ (begin_nested ≫= _) => fail
  | |- Keeps _ (_ ≫= _) => apply keeps_bind; [apply _|..]
  | |- Keeps _ (match ?x with _ => _ end) => destruct x
  | |- Keeps _ _ => apply _
  end.
Ltac solve_keeps := repeat keeps_step.

Section keeps_shared.
Context (R : ExecutionDb.t → ExecutionDb.t → Prop) `{!PreOrder R}.

#[global] Instance keeps_audit c a t i o : Keeps R (audit c a t i o).
Proof using PreOrder0. unfold audit, add_audit_event. solve_keeps. Qed.
#[global] Instance keeps_select_membership w u : Keeps R (select_membership w u).
Proof using PreOrder0. unfold select_membership. solve_keeps. Qed.
#[global] Instance keeps_select_workspace w : Keeps R (select_workspace w).
Proof using PreOrder0. unfold select_workspace. solve_keeps. Qed.
#[global] Instance keeps_populate_membership m : Keeps R (populate_membership m).
Proof using PreOrder0. unfold populate_membership. solve_keeps. Qed.
#[global] Instance keeps_require_current_role c r b : Keeps R (require_current_role c r b).
Proof using PreOrder0. unfold require_current_role, require_role. solve_keeps. Qed.
#[global] Instance keeps_reads {A} (m : M A) : ReadOnly m → Keeps R m | 20.
Proof using PreOrder0. apply keeps_read_only, _. Qed.
#[global] Instance keeps_map_rows {A B} (l : list A) (body : A → M B) :
  (∀ x, Keeps R (body x)) → Keeps R (map_rows l body).
Proof using PreOrder0. intros Hb. induction l; cbn; solve_keeps. Qed.

(** The operations that do not write the execution tables. *)
#[global] Instance keeps_run_of r : Keeps R (run_of r).
Proof using PreOrder0. unfold run_of. solve_keeps. Qed.
#[global] Instance keeps_job_of r : Keeps R (job_of r).
Proof using PreOrder0. unfold job_of. solve_keeps. Qed.
#[global] Instance keeps_attempt_of r : Keeps R (attempt_of r).
Proof using PreOrder0. unfold attempt_of. solve_keeps. Qed.
#[global] Instance keeps_job_for_run run : Keeps R (job_for_run run).
Proof using PreOrder0. unfold job_for_run. solve_keeps. Qed.
#[global] Instance keeps__active_attempt run : Keeps R (_active_attempt run).
Proof using PreOrder0. unfold _active_attempt. solve_keeps. Qed.
#[global] Instance keeps_job_status_of s : Keeps R (job_status_of s).
Proof using PreOrder0. unfold job_status_of. solve_keeps. Qed.
#[global] Instance keeps__locked_run w r : Keeps R (_locked_run w r).
Proof using PreOrder0. unfold _locked_run. solve_keeps. Qed.
#[global] Instance keeps__locked_job l : Keeps R (_locked_job l).
Proof using PreOrder0. unfold _locked_job, lease_lost. solve_keeps. Qed.
#[global] Instance keeps__locked_lease_lineage l : Keeps R (_locked_lease_lineage l).
Proof using PreOrder0. unfold _locked_lease_lineage, lease_lost. solve_keeps. Qed.
#[global] Instance keeps_reconciled_job r j s : Keeps R (reconciled_job r j s).
Proof using PreOrder0. unfold reconciled_job. solve_keeps. Qed.
#[global] Instance keeps__claim_target_is_current r : Keeps R (_claim_target_is_current r).
Proof using PreOrder0. unfold _claim_target_is_current. solve_keeps. Qed.

Context `{Externals} (self : ExecutionService.t).

#[global] Instance keeps_fetch_capability id P : Keeps R (fetch_capability id P).
Proof using PreOrder0. unfold fetch_capability. solve_keeps. Qed.
#[global] Instance keeps_fetch_connection id P : Keeps R (fetch_connection id P).
Proof using PreOrder0. unfold fetch_connection. solve_keeps. Qed.
#[global] Instance keeps__load_admission_target c v : Keeps R (_load_admission_target c v).
Proof using PreOrder0. unfold _load_admission_target, unavailable. solve_keeps. Qed.
#[global] Instance keeps_preflight c v a : Keeps R (preflight self c v a).
Proof using PreOrder0. unfold preflight. solve_keeps. Qed.
#[global] Instance keeps__require_confirmation_key_history : Keeps R (_require_confirmation_key_history self).
Proof using PreOrder0. unfold _require_confirmation_key_history. solve_keeps. Qed.
#[global] Instance keeps__require_idempotency_key_history : Keeps R (_require_idempotency_key_history self).
Proof using PreOrder0. unfold _require_idempotency_key_history. solve_keeps. Qed.
#[global] Instance keeps__find_idempotency_record c k : Keeps R (_find_idempotency_record self c k).
Proof using PreOrder0. unfold _find_idempotency_record. solve_keeps. Qed.
#[global] Instance keeps_select_nonce d : Keeps R (select_nonce d).
Proof using PreOrder0. unfold select_nonce. solve_keeps. Qed.
End keeps_shared.

#[export] Typeclasses Opaque run_of job_of attempt_of job_for_run _active_attempt job_status_of.

(** A committed transaction relates the databases. *)
Lemma transaction_keeps R `{!PreOrder R} {A} (m : M A) env d :
  Keeps R m → R (Db.execution d) (Db.execution (transaction m env d).2).
Proof.
  intros Hm. unfold transaction.
  assert (Keeps R (a ← m; flush;; mret a)) as Hm' by solve_keeps.
  destruct ((a ← m; flush;; mret a) env (mkSession d d false 0 0)) as [[a s']|e] eqn:E; cbn; [|done].
  destruct (Hm' _ _ _ _ E) as [_ HR]. apply HR. clear HR Hm'.
  revert E. unfold mbind, M_bind. destruct (m env _) as [[a1 s1]|]; [|done].
  unfold flush. destruct (conflict s1) eqn:Hc; [done|].
  destruct (listeners_accept _ _), (schema_checks _); cbn; intros [=]; by subst.
Qed.

(** A committed database satisfies the constraints of the schema. *)
Lemma transaction_checks {A} (m : M A) env d :
  schema_checks d = true → schema_checks (transaction m env d).2 = true.
Proof.
  intros Hd. unfold transaction. unfold mbind, M_bind.
  destruct (m env _) as [[a1 s1]|]; [|done]. unfold flush.
  destruct (conflict s1); [done|]. destruct (listeners_accept _ _); cbn; [|done].
  by destruct (schema_checks (work s1)) eqn:Hs; cbn.
Qed.

(** * The ledger only grows: apart from the retention of metadata, no operation
    removes an event or changes what a run is pinned to. *)

(** The columns of a run that never change after admission. *)
Definition pin (r : Run.t) :=
  (Run.id r, Run.workspace_id r, Run.correlation_id r, Run.actor_user_id r, Run.capability_id r,
   Run.capability_version_id r, Run.connection_id r, Run.connection_version_id r,
   Run.connection_control_epoch r, Run.capability_status_epoch r, Run.protocol_revision r,
   Run.arguments_expires_at r, Run.deadline r, Run.created_at r).

(** The columns of a job that never change. *)
Definition job_pin (j : Job.t) :=
  (Job.id j, Job.workspace_id j, Job.run_id j, Job.actor_user_id j, Job.execution_epoch j,
   Job.available_at j, Job.deadline j, Job.created_at j).

Record grows (d d' : ExecutionDb.t) : Prop := {
  gr_events : ExecutionDb.run_events d `prefix_of` ExecutionDb.run_events d';
  gr_runs : ∀ run r, ExecutionDb.runs d !! run = Some r →
    ∃ r', ExecutionDb.runs d' !! run = Some r' ∧ pin r' = pin r;
  gr_jobs : ∀ job j, ExecutionDb.jobs d !! job = Some j →
    ∃ j', ExecutionDb.jobs d' !! job = Some j' ∧ job_pin j' = job_pin j
      ∧ Job.lease_epoch j ≤ Job.lease_epoch j';
  gr_nonces : ExecutionDb.confirmation_nonces d ⊆ ExecutionDb.confirmation_nonces d';
  gr_records : ExecutionDb.idempotency_records d ⊆ ExecutionDb.idempotency_records d' }.

#[global] Instance grows_preorder : PreOrder grows.
Proof.
  split.
  - intros d. constructor; try done; eauto with lia.
  - intros d1 d2 d3 [E1 R1 J1 N1 I1] [E2 R2 J2 N2 I2]. constructor; [by etrans| | |by etrans..].
    + intros run r Hr. destruct (R1 run r Hr) as (r' & Hr' & Hp).
      destruct (R2 run r' Hr') as (r'' & Hr'' & Hp'). exists r''. split; [done|congruence].
    + intros job j Hj. destruct (J1 job j Hj) as (j' & Hj' & Hp & Hl).
      destruct (J2 job j' Hj') as (j'' & Hj'' & Hp' & Hl'). exists j''. split_and!; [done|congruence|lia].
Qed.

Lemma grows_frame d d' :
  ExecutionDb.run_events d' = ExecutionDb.run_events d → ExecutionDb.runs d' = ExecutionDb.runs d →
  ExecutionDb.jobs d' = ExecutionDb.jobs d →
  ExecutionDb.confirmation_nonces d' = ExecutionDb.confirmation_nonces d →
  ExecutionDb.idempotency_records d' = ExecutionDb.idempotency_records d →
  grows d d'.
Proof. intros He Hr Hj Hn Hi. constructor; rewrite ?He, ?Hr, ?Hj, ?Hn, ?Hi; eauto with lia. Qed.

Lemma grows_alter_run d run f :
  (∀ r, pin (f r) = pin r) →
  grows d (d <| ExecutionDb.runs := alter f run (ExecutionDb.runs d) |>).
Proof.
  intros Hf. constructor; cbn; eauto with lia. intros run' r Hr. rewrite lookup_alter.
  case_decide as Hrun; [subst run'; rewrite Hr|by eauto]. exists (f r). split; [done|apply Hf].
Qed.

Lemma grows_alter_job d job f :
  (∀ j, ExecutionDb.jobs d !! job = Some j →
     job_pin (f j) = job_pin j ∧ Job.lease_epoch j ≤ Job.lease_epoch (f j)) →
  grows d (d <| ExecutionDb.jobs := alter f job (ExecutionDb.jobs d) |>).
Proof.
  intros Hf. constructor; cbn; eauto. intros job' j Hj. rewrite lookup_alter.
  case_decide as Hjob; [subst job'; rewrite Hj|by eauto with lia]. exists (f j). split; [done|by apply Hf].
Qed.

Lemma insert_new {R} (m : gmap uuid R) k x : m !! k = None → m ⊆ <[k := x]> m.
Proof. apply insert_subseteq. Qed.

Lemma grows_insert_run d run r :
  ExecutionDb.runs d !! run = None →
  grows d (d <| ExecutionDb.runs := <[run := r]> (ExecutionDb.runs d) |>).
Proof.
  intros Hn. constructor; cbn; eauto with lia. intros run' r' Hr. rewrite lookup_insert.
  case_decide; [congruence|by eauto].
Qed.

Lemma grows_insert_job d job j :
  ExecutionDb.jobs d !! job = None →
  grows d (d <| ExecutionDb.jobs := <[job := j]> (ExecutionDb.jobs d) |>).
Proof.
  intros Hn. constructor; cbn; eauto. intros job' j' Hj. rewrite lookup_insert.
  case_decide; [congruence|by eauto with lia].
Qed.

Lemma grows_insert_nonce d k n :
  ExecutionDb.confirmation_nonces d !! k = None →
  grows d (d <| ExecutionDb.confirmation_nonces := <[k := n]> (ExecutionDb.confirmation_nonces d) |>).
Proof. intros Hn. constructor; cbn; eauto with lia. by apply insert_subseteq. Qed.

Lemma grows_insert_record d k n :
  ExecutionDb.idempotency_records d !! k = None →
  grows d (d <| ExecutionDb.idempotency_records := <[k := n]> (ExecutionDb.idempotency_records d) |>).
Proof. intros Hn. constructor; cbn; eauto with lia. by apply insert_subseteq. Qed.

Lemma grows_append d l :
  grows d (d <| ExecutionDb.run_events := ExecutionDb.run_events d ++ l |>).
Proof. constructor; cbn; eauto with lia. by eexists. Qed.

(** ** The relations that the operations respect

    A relation on the execution tables that every write of the services keeps;
    admission also inserts runs, jobs and idempotency records. *)

Class LedgerRel (R : ExecutionDb.t → ExecutionDb.t → Prop) : Prop := {
  lr_order :: PreOrder R;
  lr_run d run f : (∀ r, pin (f r) = pin r) →
    R d (d <| ExecutionDb.runs := alter f run (ExecutionDb.runs d) |>);
  lr_job d job f :
    (∀ j, ExecutionDb.jobs d !! job = Some j →
       job_pin (f j) = job_pin j ∧ Job.lease_epoch j ≤ Job.lease_epoch (f j)) →
    R d (d <| ExecutionDb.jobs := alter f job (ExecutionDb.jobs d) |>);
  lr_append d l : R d (d <| ExecutionDb.run_events := ExecutionDb.run_events d ++ l |>);
  lr_attempts d m : R d (d <| ExecutionDb.run_attempts := m |>);
  lr_state d st : R d (d <| ExecutionDb.system_execution_state := st |>);
  lr_results d m : R d (d <| ExecutionDb.run_results := m |>);
  lr_nonce d k n : ExecutionDb.confirmation_nonces d !! k = None →
    R d (d <| ExecutionDb.confirmation_nonces := <[k := n]> (ExecutionDb.confirmation_nonces d) |>) }.

Class AdmitRel (R : ExecutionDb.t → ExecutionDb.t → Prop) : Prop := {
  ar_ledger :: LedgerRel R;
  ar_run d run r : ExecutionDb.runs d !! run = None →
    R d (d <| ExecutionDb.runs := <[run := r]> (ExecutionDb.runs d) |>);
  ar_job d job j : ExecutionDb.jobs d !! job = None →
    R d (d <| ExecutionDb.jobs := <[job := j]> (ExecutionDb.jobs d) |>);
  ar_record d k r : ExecutionDb.idempotency_records d !! k = None →
    R d (d <| ExecutionDb.idempotency_records := <[k := r]> (ExecutionDb.idempotency_records d) |>) }.

#[global] Instance grows_ledger : LedgerRel grows.
Proof.
  split; [apply _|auto using grows_alter_run|auto using grows_alter_job|auto using grows_append|
    by intros; apply grows_frame..|auto using grows_insert_nonce].
Qed.
#[global] Instance grows_admit : AdmitRel grows.
Proof.
  split; [apply _|auto using grows_insert_run|auto using grows_insert_job|auto using grows_insert_record].
Qed.

(** Writes that add no run. *)
Definition no_new_run (d d' : ExecutionDb.t) : Prop :=
  dom (ExecutionDb.runs d') ⊆ dom (ExecutionDb.runs d).
#[global] Instance no_new_run_ledger : LedgerRel no_new_run.
Proof.
  split; unfold no_new_run; [split|..]; try (intros; cbn; reflexivity).
  - intros d. reflexivity.
  - intros d1 d2 d3. set_solver.
  - intros d run f _. cbn. by rewrite dom_alter_L.
Qed.

(** ** The operations *)

Ltac keep_write :=
  lazymatch goal with
  | |- _ (set_field ExecutionDb.runs _ _) => apply lr_run; intros; reflexivity
  | |- _ (set_field ExecutionDb.jobs _ _) => apply lr_job; intros; split; [reflexivity|cbn; lia]
  | |- _ (set_field ExecutionDb.run_events _ _) => apply lr_append
  | |- _ (set_field ExecutionDb.run_attempts _ _) => apply lr_attempts
  | |- _ (set_field ExecutionDb.system_execution_state _ _) => apply lr_state
  | |- _ (set_field ExecutionDb.run_results _ _) => apply lr_results
  end.
#[export] Hint Extern 2 (Keeps _ (put_execution _)) =>
  apply keeps_put_execution; intros; keep_write : typeclass_instances.

Section ledger.
Context (R : ExecutionDb.t → ExecutionDb.t → Prop) `{!LedgerRel R}.
Notation Grows := (Keeps R).

Lemma keeps_update_run run f : (∀ r, pin (f r) = pin r) → Grows (update_run run f).
Proof using LedgerRel0. intros Hf. apply keeps_put_execution. intros d. by apply lr_run. Qed.
Lemma keeps_update_job job f :
  (∀ j, job_pin (f j) = job_pin j ∧ Job.lease_epoch j ≤ Job.lease_epoch (f j)) → Grows (update_job job f).
Proof using LedgerRel0. intros Hf. apply keeps_put_execution. intros d. by apply lr_job. Qed.
#[global] Instance grows_update_attempt k f : Grows (update_attempt k f).
Proof using LedgerRel0. unfold update_attempt. solve_keeps. Qed.
#[global] Instance grows_update_state f : Grows (update_execution_state f).
Proof using LedgerRel0. unfold update_execution_state. solve_keeps. Qed.
#[global] Instance grows__append_event run ty st code now n : Grows (_append_event run ty st code now n).
Proof using LedgerRel0. unfold _append_event, run_of. solve_keeps. Qed.
#[global] Instance grows__append_next_event run ty st code now : Grows (_append_next_event run ty st code now).
Proof using LedgerRel0. unfold _append_next_event. solve_keeps. Qed.
End ledger.

#[export] Hint Extern 1 (Keeps _ (update_run _ _)) =>
  apply keeps_update_run; [apply _|]; intros; reflexivity : typeclass_instances.
#[export] Hint Extern 1 (Keeps _ (update_job _ _)) =>
  apply keeps_update_job; [apply _|]; intros; split; [reflexivity|cbn; lia] : typeclass_instances.
#[local] Typeclasses Opaque _append_event _append_next_event update_job update_run update_attempt update_execution_state.

(** An assignment computed from the job as it was read. *)
Definition jobs_same (d d' : ExecutionDb.t) : Prop := ExecutionDb.jobs d' = ExecutionDb.jobs d.
#[global] Instance jobs_same_preorder : PreOrder jobs_same.
Proof. split; [done|]. intros d1 d2 d3. unfold jobs_same. congruence. Qed.

#[export] Hint Extern 2 (Keeps jobs_same (put_execution _)) =>
  apply keeps_put_execution; intros; reflexivity : typeclass_instances.
#[global] Instance jobs_same_expire_previous run j now : Keeps jobs_same (expire_previous run j now).
Proof.
  unfold expire_previous, _active_attempt, update_attempt, _append_next_event, _append_event, run_of.
  solve_keeps.
Qed.

(** *** Leases *)

Section operations.
Context (R : ExecutionDb.t → ExecutionDb.t → Prop) `{!LedgerRel R}.
Notation Grows := (Keeps R).

#[global] Instance grows__terminalize_run run s now c ty : Grows (_terminalize_run run s now c ty).
Proof using LedgerRel0. unfold _terminalize_run. solve_keeps. Qed.
#[global] Instance grows__execution_state : Grows _execution_state.
Proof using LedgerRel0. unfold _execution_state. solve_keeps. Qed.
#[global] Instance grows__terminalize_expired_jobs self now : Grows (_terminalize_expired_jobs self now).
Proof using LedgerRel0. unfold _terminalize_expired_jobs. solve_keeps. apply keeps_map_rows; [apply _|]. solve_keeps. Qed.
#[global] Instance grows__terminalize_abandoned_dispatches self now :
  Grows (_terminalize_abandoned_dispatches self now).
Proof using LedgerRel0.
  unfold _terminalize_abandoned_dispatches. apply keeps_bind; [apply _..|]. intros rows.
  apply keeps_bind; [apply _|apply keeps_map_rows; [apply _|]; solve_keeps|solve_keeps].
Qed.
#[global] Instance grows_claim_terminalizes r j s c now : Grows (claim_terminalizes r j s c now).
Proof using LedgerRel0. unfold claim_terminalizes. solve_keeps. Qed.

Lemma grows_reassign job (m : Job.t → M unit) f {A} (k : Job.t → M A) :
  (∀ j, Grows (m j)) → (∀ j, Keeps jobs_same (m j)) → (∀ j, Grows (k j)) →
  (∀ j, job_pin (f j j) = job_pin j ∧ Job.lease_epoch j ≤ Job.lease_epoch (f j j)) →
  Grows (j ← job_of job; m j ;; update_job job (f j) ;; k j).
Proof using LedgerRel0.
  intros Hm Hsame Hk Hf env s a s'. unfold job_of, deref, mbind, M_bind.
  destruct (ExecutionDb.jobs (exec s) !! job) as [j|] eqn:Hj; [|done].
  destruct (m j env s) as [[u s1]|] eqn:E1; [|done]. unfold update_job, put_execution, modify.
  intros E2. destruct (Hm j _ _ _ _ E1) as [C1 G1]. destruct (Hsame j _ _ _ _ E1) as [_ J1].
  destruct (Hk j _ _ _ _ E2) as [C2 G2]. cbn in C2, G2. split; [auto|]. intros Hc.
  assert (conflict s1 = false) as Hc1.
  { destruct (conflict s1); [|done]. specialize (C2 eq_refl). congruence. }
  etrans; [by apply G1|]. etrans; [|by apply G2]. apply lr_job.
  intros j'. rewrite (J1 Hc1), Hj. intros [= <-]. apply Hf.
Qed.

#[global] Instance grows_expire_previous run j now : Grows (expire_previous run j now).
Proof using LedgerRel0. unfold expire_previous. solve_keeps. Qed.
#[global] Instance grows_grant_lease r j w d now : Grows (grant_lease r j w d now).
Proof using LedgerRel0.
  unfold grant_lease. apply (grows_reassign j (λ x, expire_previous r x now) (λ x x', _)).
  - apply _.
  - apply _.
  - solve_keeps.
  - intros x. split; [reflexivity|cbn; lia].
Qed.
#[global] Instance grows_claim_job self w d : Grows (claim_job self w d).
Proof using LedgerRel0. unfold claim_job. solve_keeps. Qed.
#[global] Instance grows__fence_attempt l s t ty : Grows (_fence_attempt l s t ty).
Proof using LedgerRel0. unfold _fence_attempt, lease_lost. solve_keeps. Qed.
#[global] Instance grows_fence_session l : Grows (fence_session l).
Proof using LedgerRel0. unfold fence_session. apply _. Qed.
#[global] Instance grows_fence_dispatch l : Grows (fence_dispatch l).
Proof using LedgerRel0. unfold fence_dispatch. apply _. Qed.
#[global] Instance grows_heartbeat l d : Grows (heartbeat l d).
Proof using LedgerRel0. unfold heartbeat. solve_keeps. Qed.
#[global] Instance grows_begin_session l d : Grows (heartbeat l d;; fence_session l).
Proof using LedgerRel0. apply keeps_bind; [apply _..|]. intros _. apply _. Qed.
#[global] Instance grows_complete_lease l s c : Grows (complete_lease l s c).
Proof using LedgerRel0. unfold complete_lease, lease_lost. solve_keeps. Qed.
#[global] Instance grows_cancel_run c r o : Grows (cancel_run c r o).
Proof using LedgerRel0. unfold cancel_run. solve_keeps. Qed.

(** *** Maintenance *)

#[global] Instance grows_enter_restore_quarantine self : Grows (enter_restore_quarantine self).
Proof using LedgerRel0. unfold enter_restore_quarantine, _require_system_authority. solve_keeps. Qed.
#[global] Instance grows_reconcile_restore_quarantine self n : Grows (reconcile_restore_quarantine self n).
Proof using LedgerRel0.
  unfold reconcile_restore_quarantine, _require_system_authority. solve_keeps.
  apply keeps_for_each; [apply _|]. solve_keeps.
Qed.
#[global] Instance grows_clear_restore_quarantine self : Grows (clear_restore_quarantine self).
Proof using LedgerRel0. unfold clear_restore_quarantine, _require_system_authority. solve_keeps. Qed.
#[global] Instance grows_expire_retained_content n : Grows (expire_retained_content n).
Proof using LedgerRel0.
  unfold expire_retained_content. solve_keeps. apply keeps_for_each; [apply _|]. solve_keeps.
Qed.
#[global] Instance grows_delete_results ids : Grows (delete_results ids).
Proof using LedgerRel0. intros env s a s' [= <- <-]. split; [done|]. intros _. cbn. apply lr_results. Qed.
#[global] Instance grows_expire_retained_results n : Grows (expire_retained_results n).
Proof using LedgerRel0. unfold expire_retained_results. solve_keeps. Qed.

(** *** Admission *)

Section admission.
Context `{Externals} (self : ExecutionService.t).

#[global] Instance grows_add_nonce d n : Grows (add_nonce d n).
Proof using LedgerRel0.
  intros env s a s'. unfold add_nonce, flag_conflict, put_execution, modify, mbind, M_bind. intros [= <- <-].
  cbn. split; [by intros ->|]. intros Hc. apply lr_nonce.
  destruct (conflict s); [done|]. by destruct (_ !! _).
Qed.
#[global] Instance grows__replay_existing_run c i r q cl n :
  Grows (_replay_existing_run self c i r q cl n).
Proof using LedgerRel0. unfold _replay_existing_run, idempotency_conflict. solve_keeps. Qed.

#[global] Instance grows_complete_invocation_success l r : Grows (complete_invocation_success self l r).
Proof using LedgerRel0. unfold complete_invocation_success. solve_keeps. Qed.
End admission.
End operations.

Section create.
Context (R : ExecutionDb.t → ExecutionDb.t → Prop) `{!AdmitRel R} `{Externals} (self : ExecutionService.t).
Notation Grows := (Keeps R).

#[global] Instance grows_admit_run c cl st t n d nd rk q dl now o :
  Grows (admit_run self c cl st t n d nd rk q dl now o).
Proof using AdmitRel0.
  unfold admit_run. cbv zeta. apply keeps_bind; [apply _..|]. intros run. apply keeps_bind; [apply _|solve_keeps|].
  intros trace. apply keeps_flagged; [apply _|..].
  { intros s Hs. apply ar_run. by destruct (_ !! _). }
  intros _. do 3 (apply keeps_bind; [apply _..|]; intros ?). apply keeps_flagged; [apply _|..].
  { intros s Hs. apply ar_job. by destruct (_ !! _). }
  intros _. do 2 (apply keeps_bind; [apply _..|]; intros ?).
  destruct (ExecutionService.idempotency_keys self); [apply _|]. apply keeps_bind; [apply _..|]. intros id.
  apply keeps_flagged; [apply _| |solve_keeps].
  intros s Hs. apply ar_record. by destruct (_ !! _).
Qed.
#[global] Instance grows_admit_new c v cl st n d nd rk q dl now o :
  Grows (admit_new self c v cl st n d nd rk q dl now o).
Proof using AdmitRel0. unfold admit_new. solve_keeps. Qed.

#[global] Instance grows_create_run c v a t k d o : Grows (create_run self c v a t k d o).
Proof using AdmitRel0.
  unfold create_run. solve_keeps. apply keeps_nested; [apply _|]. intros s0.
  do 5 (apply keeps_from_bind; [apply keeps_from_keeps; [apply _|]; solve_keeps|intros ?]).
  lazymatch goal with |- KeepsFrom R _ (match ?o with _ => _ end) => destruct o as [[id r]|] end.
  - apply keeps_from_bind; [apply _|]. intros _. apply keeps_from_keeps; [apply _|]. solve_keeps.
  - apply keeps_from_keeps; [apply _|]. solve_keeps.
Qed.
End create.

#[export] Typeclasses Opaque preflight create_run claim_job fence_session fence_dispatch heartbeat
  complete_lease complete_invocation_success cancel_run enter_restore_quarantine
  reconcile_restore_quarantine clear_restore_quarantine expire_retained_content
  delete_expired_run_metadata expire_retained_results.
