(* ===== verification/Triple.v ===== *)
(** What a transaction of the registry services may do to the registry tables.

    [advances w d d']: from [d] to [d'] the fencing counters only grow, a row
    whose counter stands still has not changed in the columns the counter
    guards, history is only appended to, and rows of workspaces other than [w]
    are untouched. *)
From S2P Require Import Prelude Types Json PyStr Secrets Store Session Registry Identity Screening Endpoint Connection Capabilities Discovery.
From S2P Require Import Hoare.
Local Open Scope Z_scope.

(** ** Rows *)

Record connection_advances (c c' : ServerConnection.t) : Prop := {
  ca_id : ServerConnection.id c' = ServerConnection.id c;
  ca_workspace : ServerConnection.workspace_id c' = ServerConnection.workspace_id c;
  ca_name : ServerConnection.name c' = ServerConnection.name c;
  ca_epoch : ServerConnection.control_epoch c ≤ ServerConnection.control_epoch c';
  ca_generation : ServerConnection.refresh_generation c ≤ ServerConnection.refresh_generation c';
  (* within a control epoch the target stands, and so does being disabled *)
  ca_target : ServerConnection.control_epoch c' = ServerConnection.control_epoch c →
    current_target c' = current_target c
    ∧ (ServerConnection.lifecycle c' = ConnectionLifecycle.DISABLED
       ↔ ServerConnection.lifecycle c = ConnectionLifecycle.DISABLED);
  (* within a generation an allocation is only released *)
  ca_allocation : ServerConnection.control_epoch c' = ServerConnection.control_epoch c →
    ServerConnection.refresh_generation c' = ServerConnection.refresh_generation c →
    ServerConnection.allocated_target_version_id c' = None
    ∨ ServerConnection.allocated_target_version_id c' = ServerConnection.allocated_target_version_id c
      ∧ ServerConnection.allocated_control_epoch c' = ServerConnection.allocated_control_epoch c }.

Record capability_advances (c c' : Capability.t) : Prop := {
  pa_id : Capability.id c' = Capability.id c;
  pa_workspace : Capability.workspace_id c' = Capability.workspace_id c;
  pa_connection : Capability.connection_id c' = Capability.connection_id c;
  pa_tool : Capability.tool_identity c' = Capability.tool_identity c;
  pa_epoch : Capability.status_epoch c ≤ Capability.status_epoch c';
  pa_same : Capability.status_epoch c' = Capability.status_epoch c → c' = c }.

(** The columns of a refresh job that never change. *)
Definition refresh_pin (j : DiscoveryRefreshJob.t) :=
  (DiscoveryRefreshJob.id j, DiscoveryRefreshJob.workspace_id j, DiscoveryRefreshJob.actor_user_id j,
   DiscoveryRefreshJob.connection_id j, DiscoveryRefreshJob.connection_version_id j,
   DiscoveryRefreshJob.generation j, DiscoveryRefreshJob.control_epoch j).

Definition settled (j : DiscoveryRefreshJob.t) : Prop :=
  DiscoveryRefreshJob.status j ≠ RefreshJobStatus.QUEUED
  ∧ DiscoveryRefreshJob.status j ≠ RefreshJobStatus.LEASED.

Record refresh_advances (j j' : DiscoveryRefreshJob.t) : Prop := {
  ra_pin : refresh_pin j' = refresh_pin j;
  ra_epoch : DiscoveryRefreshJob.lease_epoch j ≤ DiscoveryRefreshJob.lease_epoch j';
  ra_settled : settled j → j' = j;
  ra_queued : DiscoveryRefreshJob.status j' = RefreshJobStatus.QUEUED → j' = j;
  (* a lease keeps its owner and is never shortened *)
  ra_lease : DiscoveryRefreshJob.status j = RefreshJobStatus.LEASED →
    DiscoveryRefreshJob.status j' = RefreshJobStatus.LEASED →
    DiscoveryRefreshJob.lease_epoch j' = DiscoveryRefreshJob.lease_epoch j →
    DiscoveryRefreshJob.lease_owner j' = DiscoveryRefreshJob.lease_owner j
    ∧ ∀ e, DiscoveryRefreshJob.lease_expires_at j = Some e →
        ∃ e', DiscoveryRefreshJob.lease_expires_at j' = Some e' ∧ e ≤ e' }.

#[global] Instance connection_advances_preorder : PreOrder connection_advances.
Proof.
  split; [intros c; constructor; auto; lia|].
  intros c1 c2 c3 [I W N E G T A] [I' W' N' E' G' T' A']. constructor; try congruence; try lia.
  - intros Heq. destruct T as [T1 T2], T' as [T1' T2']; try lia. split; [congruence|tauto].
  - intros Heq Hgen. destruct A as [A|[A1 A2]], A' as [A'|[A1' A2']]; try lia; try (by left).
    + left. congruence.
    + right. split; congruence.
Qed.

#[global] Instance capability_advances_preorder : PreOrder capability_advances.
Proof.
  split; [intros c; constructor; auto; lia|].
  intros c1 c2 c3 [I W N T E S] [I' W' N' T' E' S']. constructor; try congruence; try lia.
  intros Heq. rewrite <- S by lia. apply S'. lia.
Qed.

#[global] Instance refresh_advances_preorder : PreOrder refresh_advances.
Proof.
  split; [intros j; constructor; auto; try lia; eauto with lia|].
  intros j1 j2 j3 [P E S Q L] [P' E' S' Q' L']. constructor; try congruence; try lia.
  - intros Hs. specialize (S Hs). subst j2. auto.
  - intros Hq. specialize (Q' Hq). subst j3. auto.
  - intros H1 H3 Heq.
    assert (DiscoveryRefreshJob.status j2 = RefreshJobStatus.LEASED) as H2.
    { destruct (decide (DiscoveryRefreshJob.status j2 = RefreshJobStatus.LEASED)) as [|Hn]; [done|].
      destruct (decide (DiscoveryRefreshJob.status j2 = RefreshJobStatus.QUEUED)) as [Hq|Hq].
      - rewrite (Q Hq) in Hq. congruence.
      - rewrite (S' (conj Hq Hn)) in H3. congruence. }
    destruct L as [L1 L2]; [done..|lia|]. destruct L' as [L1' L2']; [done..|lia|].
    split; [congruence|]. intros e He. destruct (L2 e He) as (e2 & He2 & ?).
    destruct (L2' e2 He2) as (e3 & ? & ?). exists e3. split; [done|lia].
Qed.

(** ** Tables *)

Section tables.
Context (w : uuid).

Record rows_advance {T} (workspace : T → uuid) (R : T → T → Prop) (m m' : gmap uuid T) : Prop := {
  ta_kept : ∀ k r, m !! k = Some r → ∃ r', m' !! k = Some r' ∧ R r r' ∧ (workspace r ≠ w → r' = r);
  ta_new : ∀ k r', m' !! k = Some r' → m !! k = None → workspace r' = w }.

Record log_advances {T} (workspace : T → uuid) (l l' : list T) : Prop := {
  la_suffix : ∃ k, l' = l ++ k ∧ Forall (λ e, workspace e = w) k }.

Lemma rows_advance_refl {T} (workspace : T → uuid) (R : T → T → Prop) m :
  Reflexive R → rows_advance workspace R m m.
Proof. intros HR. split; [eauto|congruence]. Qed.

Lemma rows_advance_trans {T} (workspace : T → uuid) (R : T → T → Prop) m1 m2 m3 :
  Transitive R → (∀ r r', R r r' → workspace r' = workspace r) →
  rows_advance workspace R m1 m2 → rows_advance workspace R m2 m3 → rows_advance workspace R m1 m3.
Proof.
  intros HR Hws [K1 N1] [K2 N2]. split.
  - intros k r Hr. destruct (K1 k r Hr) as (r2 & Hr2 & HR2 & Hsame2).
    destruct (K2 k r2 Hr2) as (r3 & Hr3 & HR3 & Hsame3). exists r3. split_and!; [done|by etrans|].
    intros Hw. rewrite Hsame3; [auto|]. by rewrite (Hws _ _ HR2).
  - intros k r' Hr' Hn. destruct (m2 !! k) as [r2|] eqn:Hr2; [|by apply (N2 k)].
    destruct (K2 k r2 Hr2) as (r3 & Hr3 & HR3 & _). simplify_eq. rewrite (Hws _ _ HR3). by apply (N1 k).
Qed.

Lemma rows_advance_insert {T} (workspace : T → uuid) (R : T → T → Prop) m m' k r :
  rows_advance workspace R m m' → m' !! k = None → workspace r = w →
  rows_advance workspace R m (<[k := r]> m').
Proof.
  intros [K N] Hk Hw. split.
  - intros k' r0 Hr0. destruct (K k' r0 Hr0) as (r' & Hr' & ?). exists r'. split; [|done].
    rewrite lookup_insert_ne; [done|]. intros ->. congruence.
  - intros k' r'. rewrite lookup_insert. case_decide; [intros [= <-]; done|apply N].
Qed.

(** A row of the workspace that existed before moves on. *)
Lemma rows_advance_alter {T} (workspace : T → uuid) (R : T → T → Prop) m m' k f r r' :
  (∀ r r', R r r' → workspace r' = workspace r) →
  rows_advance workspace R m m' → m !! k = Some r → workspace r = w → m' !! k = Some r' → R r (f r') →
  rows_advance workspace R m (alter f k m').
Proof.
  intros Hws [K N] Hr Hw Hr' HR. split.
  - intros k' r0 Hr0. rewrite lookup_alter. case_decide as Hk; [subst k'|by apply K].
    simplify_eq. exists (f r'). rewrite Hr'. split_and!; [done|done|congruence].
  - intros k' r0. rewrite lookup_alter. case_decide as Hk; [subst k'|by apply N].
    congruence.
Qed.

(** An object is refreshed from its row. *)
Lemma rows_advance_populate {T} (workspace : T → uuid) (R : T → T → Prop) m m' k r :
  Reflexive R → rows_advance workspace R m m' → m !! k = Some r →
  rows_advance workspace R m (<[k := r]> m').
Proof.
  intros HR [K N] Hr. split.
  - intros k' r0 Hr0. rewrite lookup_insert. case_decide as Hk; [subst k'; simplify_eq; eauto|by apply K].
  - intros k' r0. rewrite lookup_insert. case_decide as Hk; [subst k'; congruence|by apply N].
Qed.

(** A row that the transaction itself created moves on. *)
Lemma rows_advance_alter_new {T} (workspace : T → uuid) (R : T → T → Prop) m m' k f :
  rows_advance workspace R m m' → m !! k = None → (∀ r, workspace (f r) = workspace r) →
  rows_advance workspace R m (alter f k m').
Proof.
  intros [K N] Hr Hw. split.
  - intros k' r0 Hr0. rewrite lookup_alter_ne; [by apply K|]. intros ->. congruence.
  - intros k' r0. rewrite lookup_alter. case_decide as Hk; [subst k'|by apply N].
    destruct (m' !! k) as [r'|] eqn:Hr'; [|done]. intros [= <-] _. rewrite Hw. by apply (N k).
Qed.

#[global] Instance log_advances_preorder {T} (workspace : T → uuid) : PreOrder (log_advances workspace).
Proof.
  split.
  - intros l. split. exists []. by rewrite app_nil_r.
  - intros l1 l2 l3 [(k & -> & Hk)] [(k' & -> & Hk')]. split. exists (k ++ k').
    rewrite (assoc_L app). split; [done|]. by apply Forall_app.
Qed.

Lemma log_advances_snoc {T} (workspace : T → uuid) l l' e :
  log_advances workspace l l' → workspace e = w → log_advances workspace l (l' ++ [e]).
Proof.
  intros Hl He. etrans; [exact Hl|]. split. exists [e]. split; [done|by constructor].
Qed.

(** ** The registry *)

Record advances (d d' : RegistryDb.t) : Prop := {
  ad_connections : rows_advance ServerConnection.workspace_id connection_advances
    (RegistryDb.server_connections d) (RegistryDb.server_connections d');
  ad_connection_versions : rows_advance ServerConnectionVersion.workspace_id eq
    (RegistryDb.server_connection_versions d) (RegistryDb.server_connection_versions d');
  ad_capabilities : rows_advance Capability.workspace_id capability_advances
    (RegistryDb.capabilities d) (RegistryDb.capabilities d');
  ad_capability_versions : rows_advance CapabilityVersion.workspace_id eq
    (RegistryDb.capability_versions d) (RegistryDb.capability_versions d');
  ad_bindings : rows_advance McpToolBinding.workspace_id eq
    (RegistryDb.mcp_tool_bindings d) (RegistryDb.mcp_tool_bindings d');
  ad_events : log_advances CapabilityStatusEvent.workspace_id
    (RegistryDb.capability_status_events d) (RegistryDb.capability_status_events d');
  ad_payloads : rows_advance DiscoveryPayload.workspace_id eq
    (RegistryDb.discovery_payloads d) (RegistryDb.discovery_payloads d');
  ad_snapshots : rows_advance DiscoverySnapshot.workspace_id eq
    (RegistryDb.discovery_snapshots d) (RegistryDb.discovery_snapshots d');
  ad_snapshot_capabilities : log_advances DiscoverySnapshotCapability.workspace_id
    (RegistryDb.discovery_snapshot_capabilities d) (RegistryDb.discovery_snapshot_capabilities d');
  ad_jobs : rows_advance DiscoveryRefreshJob.workspace_id refresh_advances
    (RegistryDb.discovery_refresh_jobs d) (RegistryDb.discovery_refresh_jobs d') }.

Lemma refresh_advances_workspace j j' :
  refresh_advances j j' → DiscoveryRefreshJob.workspace_id j' = DiscoveryRefreshJob.workspace_id j.
Proof. intros [Hp]. by injection Hp. Qed.

#[global] Instance advances_preorder : PreOrder advances.
Proof.
  split.
  - intros d. constructor; try reflexivity; apply rows_advance_refl; apply _.
  - intros d1 d2 d3 [] []. constructor; try (by etrans);
      (eapply rows_advance_trans; [apply _| |done..]); try (by intros ?? <-).
    + apply ca_workspace.
    + apply pa_workspace.
    + apply refresh_advances_workspace.
Qed.
End tables.

(** * Assertions on the registry part of a session, and programs that respect them.

    [Preserves I m]: a run of [m] that returns preserves [I].  [When P m I]: a run
    that starts where [P] and [I] hold ends where [I] holds.  Programs are
    decomposed into their primitives by instance resolution; the primitives that
    write registry tables are treated in RegistryWp.v. *)

Definition reg_work (s : Session) : RegistryDb.t := Db.registry (work s).
Definition reg_flushed (s : Session) : RegistryDb.t := Db.registry (flushed s).

(** An assertion on the registry views survives what does not concern them; most
    survive a flush as well. *)
Class RegSame (I : Session → Prop) : Prop :=
  ri_same s s' : reg_work s' = reg_work s → reg_flushed s' = reg_flushed s →
    (conflict s = true → conflict s' = true) → I s → I s'.
Class RegInv (I : Session → Prop) : Prop := {
  ri_reg_same :: RegSame I;
  ri_flush s : conflict s = false → I s → I (s <| flushed := work s |>) }.

Class Preserves (I : Session → Prop) {A} (m : M A) : Prop :=
  preserves : ∀ env s a s', I s → m env s = Ok (a, s') → I s'.

Definition When (P I : Session → Prop) {A} (m : M A) : Prop :=
  ∀ env s a s', P s → I s → m env s = Ok (a, s') → I s'.

Section structure.
Context (I : Session → Prop).

(** Programs that leave the registry views alone. *)
Class Apart {A} (m : M A) : Prop := apart : ∀ env s a s', m env s = Ok (a, s') →
  reg_work s' = reg_work s ∧ reg_flushed s' = reg_flushed s ∧ (conflict s = true → conflict s' = true).

#[global] Instance preserves_apart {A} (m : M A) : Apart m → RegSame I → Preserves I m | 5.
Proof. intros Hm HI env s a s' Hs E. destruct (Hm _ _ _ _ E) as (? & ? & ?). by eapply ri_same. Qed.

Lemma preserves_bind {A B} (m : M A) (k : A → M B) :
  Preserves I m → (∀ a, Preserves I (k a)) → Preserves I (m ≫= k).
Proof.
  intros Hm Hk env s b s' Hs. unfold mbind, M_bind. destruct (m env s) as [[a s1]|] eqn:E; [|done].
  intros E'. eapply Hk; [|exact E']. by eapply Hm.
Qed.

#[global] Instance preserves_flush : RegInv I → Preserves I flush.
Proof.
  intros HI env s a s' Hs. unfold flush. destruct (conflict s) eqn:Hc; [done|].
  destruct (listeners_accept _ _); cbn; [|done]. destruct (schema_checks _); cbn; [|done].
  intros [= <- <-]. by apply ri_flush.
Qed.

#[global] Instance preserves_for_each {A} (l : list A) body :
  (∀ x, Preserves I (body x)) → Preserves I (for_each l body).
Proof.
  intros Hb. induction l as [|x l IH]; cbn; [by intros env s a s' Hs [= <- <-]|].
  apply preserves_bind; [apply Hb|by intros].
Qed.

#[global] Instance preserves_raise {A} e : Preserves I (raise (A := A) e).
Proof. by intros env s a s' Hs [=]. Qed.

(** *** Programs with a precondition *)

Lemma when_preserves P {A} (m : M A) : Preserves I m → When P I m.
Proof. intros Hm env s a s' _. apply Hm. Qed.

Lemma when_bind P {A B} (m : M A) (k : A → M B) :
  Preserves I m → Preserves P m → (∀ a, When P I (k a)) → When P I (m ≫= k).
Proof.
  intros Hm HP Hk env s b s' HsP HsI. unfold mbind, M_bind. destruct (m env s) as [[a s1]|] eqn:E; [|done].
  intros E'. eapply Hk; [| |exact E']; [by eapply HP|by eapply Hm].
Qed.

(** A run that starts where [P] holds and returns ends where [Q] holds. *)
Definition Post (P : Session → Prop) {A} (m : M A) (Q : Session → Prop) : Prop :=
  ∀ env s a s', P s → m env s = Ok (a, s') → Q s'.

Lemma post_bind P Q {A B} (m : M A) (k : A → M B) :
  Preserves P m → (∀ a, Post P (k a) Q) → Post P (m ≫= k) Q.
Proof.
  intros HP Hk env s b s' HsP. unfold mbind, M_bind. destruct (m env s) as [[a s1]|] eqn:E; [|done].
  intros E'. eapply Hk; [|exact E']. by eapply HP.
Qed.

Lemma post_then P P' Q {A B} (m : M A) (k : A → M B) :
  Post P m P' → (∀ a, Post P' (k a) Q) → Post P (m ≫= k) Q.
Proof.
  intros Hm Hk env s b s' HsP. unfold mbind, M_bind. destruct (m env s) as [[a s1]|] eqn:E; [|done].
  intros E'. eapply Hk; [|exact E']. by eapply Hm.
Qed.

Lemma post_preserves P {A} (m : M A) : Preserves P m → Post P m P.
Proof. intros Hm env s a s' Hs E. by eapply Hm. Qed.

Lemma post_weaken P Q Q' {A} (m : M A) : Post P m Q → (∀ s, Q s → Q' s) → Post P m Q'.
Proof. intros Hm HQ env s a s' Hs E. apply HQ. by eapply Hm. Qed.

(** A guard establishes its negation. *)
Lemma when_guard P b e {B} (k : unit → M B) :
  (b = false → When P I (k tt)) → When P I (raise_if b e ≫= k).
Proof.
  intros Hk env s a s' HP Hs. unfold mbind, M_bind. destruct b; cbn; [done|]. by apply Hk.
Qed.

Lemma preserves_guard b e {B} (k : unit → M B) :
  (b = false → Preserves I (k tt)) → Preserves I (raise_if b e ≫= k).
Proof.
  intros Hk env s a s' Hs. unfold mbind, M_bind. destruct b; cbn; [done|]. by apply Hk.
Qed.

Lemma when_and P Q {A} (m : M A) : (∀ s, P s → I s → Q s) → When Q I m → When P I m.
Proof. intros HPQ Hm env s a s' HP Hs. apply Hm; auto. Qed.
End structure.
Arguments Apart {A} m.

(** ** The programs that are apart from the registry *)

Lemma apart_bind {A B} (m : M A) (k : A → M B) : Apart m → (∀ a, Apart (k a)) → Apart (m ≫= k).
Proof.
  intros Hm Hk env s b s'. unfold mbind, M_bind. destruct (m env s) as [[a s1]|] eqn:E; [|done].
  intros E'. destruct (Hm _ _ _ _ E) as (W & F & C). destruct (Hk a _ _ _ _ E') as (W' & F' & C').
  split_and!; [congruence|congruence|auto].
Qed.

Lemma apart_read_only {A} (m : M A) : ReadOnly m → Apart m.
Proof. intros Hm env s a s' E. destruct (Hm env s) as [b Hb]. rewrite Hb in E. by simplify_eq. Qed.
#[global] Instance apart_ret {A} (a : A) : Apart (mret a).
Proof. apply apart_read_only, _. Qed.
#[global] Instance apart_gets {A} (f : Session → A) : Apart (gets f).
Proof. apply apart_read_only, _. Qed.
#[global] Instance apart_raise {A} e : Apart (raise (A := A) e).
Proof. by intros env s a s' [=]. Qed.
#[global] Instance apart_raise_if b e : Apart (raise_if b e).
Proof. destruct b; apply _. Qed.
#[global] Instance apart_lift {A} (m : result exn A) : Apart (lift m).
Proof. intros env s a s'. unfold lift. destruct m; [by intros [= <- <-]|done]. Qed.
#[global] Instance apart_durable_now : Apart durable_now.
Proof. by intros env s a s' [= <- <-]. Qed.
#[global] Instance apart_uuid4 : Apart uuid4.
Proof. by intros env s a s' [= <- <-]. Qed.
#[global] Instance apart_deref {R} (t : Session → gmap uuid R) i : Apart (deref t i).
Proof. intros env s a s'. unfold deref. destruct (t s !! i); [by intros [= <- <-]|done]. Qed.
#[global] Instance apart_put_identity f : Apart (put_identity f).
Proof. by intros env s a s' [= <- <-]. Qed.
#[global] Instance apart_flag_conflict b : Apart (flag_conflict b).
Proof. intros env s a s' [= <- <-]. cbn. split_and!; [done..|]. by intros ->. Qed.

Ltac apart_step :=
  lazymatch goal with
  | |- ∀ _, _ => intros
  | |- Apart (_ ≫= _) => apply apart_bind
  | |- Apart (match ?x with _ => _ end) => destruct x
  | |- Apart _ => apply _
  end.
Ltac solve_apart := repeat apart_step.

#[global] Instance apart_select_membership u v : Apart (select_membership u v).
Proof. unfold select_membership. solve_apart. Qed.
#[global] Instance apart_require_current_role c r b : Apart (require_current_role c r b).
Proof.
  unfold require_current_role, require_role, select_workspace, populate_membership. solve_apart.
Qed.
#[global] Instance apart_audit c a t i o : Apart (audit c a t i o).
Proof. unfold audit, add_audit_event. solve_apart. Qed.
#[global] Instance apart_audit_connection c a i o : Apart (audit_connection c a i o).
Proof. unfold audit_connection. apply _. Qed.
#[global] Instance apart_audit_capability c a i o : Apart (audit_capability c a i o).
Proof. unfold audit_capability. apply _. Qed.
#[global] Instance apart_require_scoped_secret c o : Apart (_require_scoped_secret c o).
Proof. unfold _require_scoped_secret, get_secret_binding. solve_apart. Qed.
#[global] Instance apart_connection_of i : Apart (connection_of i).
Proof. unfold connection_of. apply _. Qed.
#[global] Instance apart_capability_of i : Apart (capability_of i).
Proof. unfold capability_of. apply _. Qed.
#[global] Instance apart_select_observed a b c d e : Apart (select_observed a b c d e).
Proof. unfold select_observed. solve_apart. Qed.
#[global] Instance apart_fetch {R} (t : Db.t → gmap uuid R) i P : Apart (fetch t i P).
Proof. unfold fetch. apply _. Qed.
#[global] Instance apart_matching `{Patterns} c v t p : Apart (_matching_current_version c v t p).
Proof. unfold _matching_current_version. solve_apart. Qed.
#[global] Instance apart_context_for_job i : Apart (context_for_job i).
Proof. unfold context_for_job. solve_apart. Qed.
