(* ===== verification/RegistryWp.v ===== *)
(** The operations of the registry services advance the registry tables, each
    within the workspace of its context. *)
From S2P Require Import Prelude Types Json PyStr Secrets Screening Store Session Registry Identity Endpoint Connection.
From S2P Require Import Capabilities Discovery.
From S2P Require Import Hoare Triple.
Local Open Scope Z_scope.

#[global] Typeclasses Opaque
  fetch_connection fetch_capability fetch_refresh_job update_connection update_capability update_refresh_job
  add_connection add_connection_version add_refresh_job add_capability add_capability_version
  add_tool_binding add_status_event add_payload add_snapshot add_snapshot_capability
  require_current_role audit_connection audit_capability _require_scoped_secret _locked_connection
  _obsolete_refresh_jobs create append_version promote_pending disable enable
  allocate_refresh_generation complete_refresh _locked_capability _append_status_event
  _matching_current_version store_version record_version enable_capability disable_capability
  _lock_eligible_connection lock_lease_connection enqueue context_for_job claim claim_durable
  _locked_job_for_lease renew validate_for_contact _locked_active_job mark_unavailable
  _mark_missing_unavailable store_payload publish_tool publish_success publish_failure.

(** ** Assertions *)

(** The transaction advanced from [d0] to its last flush, and from there to the
    objects in memory. *)
Definition moving (w : uuid) (d0 : RegistryDb.t) (s : Session) : Prop :=
  conflict s = false →
  advances w d0 (reg_flushed s) ∧ advances w (reg_flushed s) (reg_work s).

(** The object at [id] is its row [r]. *)
Definition held {R} (table : RegistryDb.t → gmap uuid R) (id : uuid) (r : R) (s : Session) : Prop :=
  conflict s = false → table (reg_flushed s) !! id = Some r ∧ table (reg_work s) !! id = Some r.

(** The connection [id] is one of workspace [w]. *)
Definition connection_in (w id : uuid) (s : Session) : Prop :=
  conflict s = false →
  (∃ c, RegistryDb.server_connections (reg_flushed s) !! id = Some c ∧ ServerConnection.workspace_id c = w)
  ∧ (∃ c, RegistryDb.server_connections (reg_work s) !! id = Some c ∧ ServerConnection.workspace_id c = w).

(** The capability [id] was not there when the transaction last flushed. *)
Definition capability_new (id : uuid) (s : Session) : Prop :=
  conflict s = false → RegistryDb.capabilities (reg_flushed s) !! id = None.

(** The object at [id] is [r]. *)
Definition row_is {R} (table : RegistryDb.t → gmap uuid R) (id : uuid) (r : R) (s : Session) : Prop :=
  conflict s = false → table (reg_work s) !! id = Some r.

Abbreviation connection_held := (held RegistryDb.server_connections).
Abbreviation capability_held := (held RegistryDb.capabilities).
Abbreviation job_held := (held RegistryDb.discovery_refresh_jobs).

Lemma unflagged s s' : (conflict s = true → conflict s' = true) → conflict s' = false → conflict s = false.
Proof. intros Hc Hs'. destruct (conflict s); [|done]. by rewrite Hc in Hs'. Qed.

#[global] Instance moving_inv w d0 : RegInv (moving w d0).
Proof.
  split.
  - intros s s' Hw Hf Hc Hs Hs'. unfold moving in Hs. rewrite Hw, Hf. apply Hs. by eapply unflagged.
  - intros s Hc Hs _. destruct (Hs Hc) as [H1 H2]. split; [by etrans|reflexivity].
Qed.
#[global] Instance held_inv {R} (table : RegistryDb.t → gmap uuid R) id r : RegInv (held table id r).
Proof.
  split.
  - intros s s' Hw Hf Hc Hs Hs'. unfold held in Hs. rewrite Hw, Hf. apply Hs. by eapply unflagged.
  - intros s Hc Hs _. by destruct (Hs Hc).
Qed.
#[global] Instance row_is_inv {R} (table : RegistryDb.t → gmap uuid R) id r : RegInv (row_is table id r).
Proof.
  split; [|by intros s Hc Hs _; apply Hs].
  intros s s' Hw Hf Hc Hs Hs'. unfold row_is in Hs. rewrite Hw. apply Hs. by eapply unflagged.
Qed.
#[global] Instance connection_in_inv w id : RegInv (connection_in w id).
Proof.
  split.
  - intros s s' Hw Hf Hc Hs Hs'. unfold connection_in in Hs. rewrite Hw, Hf. apply Hs. by eapply unflagged.
  - intros s Hc Hs _. by destruct (Hs Hc).
Qed.
#[global] Instance capability_new_same id : RegSame (capability_new id).
Proof. intros s s' Hw Hf Hc Hs Hs'. unfold capability_new in Hs. rewrite Hf. apply Hs. by eapply unflagged. Qed.
#[global] Instance and_inv P Q : RegInv P → RegInv Q → RegInv (λ s, P s ∧ Q s).
Proof.
  intros HP HQ. split.
  - intros s s' Hw Hf Hc [??]. split; [by eapply (ri_same (I := P))|by eapply (ri_same (I := Q))].
  - intros s Hc [??]. split; by apply ri_flush.
Qed.

Lemma preserves_and P Q {A} (m : M A) : Preserves P m → Preserves Q m → Preserves (λ s, P s ∧ Q s) m.
Proof. intros HP HQ env s a s' [??] E. split; [by eapply HP|by eapply HQ]. Qed.

(** ** Writes to the registry *)

Lemma preserves_put (I : Session → Prop) f :
  (∀ s, I s → I (s <| work := (work s) <| Db.registry := f (Db.registry (work s)) |> |>)) →
  Preserves I (put_registry f).
Proof. intros Hf env s a s' Hs [= <- <-]. by apply Hf. Qed.

(** A write to another table. *)
Lemma held_put {R} (table : RegistryDb.t → gmap uuid R) id r f :
  (∀ d, table (f d) !! id = table d !! id) → Preserves (held table id r) (put_registry f).
Proof.
  intros Hf. apply preserves_put. intros s Hs Hc. destruct (Hs Hc) as [Hfl Hw].
  split; [done|]. unfold reg_work in *. cbn. by rewrite Hf.
Qed.
Lemma row_is_put {R} (table : RegistryDb.t → gmap uuid R) id r f :
  (∀ d, table (f d) !! id = table d !! id) → Preserves (row_is table id r) (put_registry f).
Proof. intros Hf. apply preserves_put. intros s Hs Hc. unfold reg_work. cbn. rewrite Hf. by apply Hs. Qed.
Lemma connection_in_put w id f :
  (∀ d, RegistryDb.server_connections (f d) = RegistryDb.server_connections d) →
  Preserves (connection_in w id) (put_registry f).
Proof.
  intros Hf. apply preserves_put. intros s Hs Hc. destruct (Hs Hc) as [Hfl Hw].
  split; [done|]. unfold reg_work in *. cbn. by rewrite Hf.
Qed.
Lemma connection_in_update w id id' f :
  (∀ c, ServerConnection.workspace_id (f c) = ServerConnection.workspace_id c) →
  Preserves (connection_in w id) (update_connection id' f).
Proof.
  intros Hf. apply preserves_put. intros s Hs Hc. destruct (Hs Hc) as [Hfl (c & Hw & Hws)].
  split; [done|]. unfold reg_work in *. cbn. rewrite lookup_alter. case_decide as Hid.
  - subst id'. rewrite Hw. exists (f c). split; [done|]. by rewrite Hf.
  - by exists c.
Qed.

#[export] Hint Extern 5 (Preserves (connection_in _ _) (update_connection _ _)) =>
  apply connection_in_update; intros; reflexivity : typeclass_instances.
#[global] Instance connection_in_fetch w id id' P : Preserves (connection_in w id) (fetch_connection id' P).
Proof.
  intros env s a s' Hs. unfold fetch_connection, gets, mbind, M_bind. cbn.
  destruct (RegistryDb.server_connections (flushed_registry s) !! id') as [c|] eqn:Hc; [|by intros [= <- <-]].
  destruct (P c); [|by intros [= <- <-]]. intros [= <- <-] Hcf.
  destruct (Hs Hcf) as [(c1 & Hfl & Hws) (c2 & Hw & Hws2)]. split; [by exists c1|].
  unfold reg_work in *. cbn. rewrite lookup_insert. case_decide as Hid; [subst id'|by exists c2].
  exists c. split; [done|]. unfold reg_flushed, flushed_registry in *. congruence.
Qed.

(** A write that continues from what was flushed. *)
Lemma moving_put w d0 P f :
  (∀ s, conflict s = false → P s → advances w (reg_flushed s) (reg_work s) →
        advances w (reg_flushed s) (f (reg_work s))) →
  When P (moving w d0) (put_registry f).
Proof.
  intros Hf env s a s' HP Hs [= <- <-] Hc. destruct (Hs Hc) as [H1 H2]. split; [done|].
  exact (Hf s Hc HP H2).
Qed.

(** One table of the registry changes. *)
Ltac one_table H := destruct H; constructor; cbn; try assumption.

Lemma update_connection_held w d0 id c f :
  ServerConnection.workspace_id c = w → connection_advances c (f c) →
  When (connection_held id c) (moving w d0) (update_connection id f).
Proof.
  intros Hw Hf. apply moving_put. intros s Hc Hh Ha. destruct (Hh Hc) as [Hfl Hwk].
  one_table Ha. by eapply rows_advance_alter; first apply ca_workspace.
Qed.

Lemma update_connection_any w d0 id f :
  (∀ c, connection_advances c (f c)) →
  When (connection_in w id) (moving w d0) (update_connection id f).
Proof.
  intros Hf. apply moving_put. intros s Hc Hh Ha. destruct (Hh Hc) as [(c & Hfl & Hws) (c' & Hwk & _)].
  one_table Ha. eapply rows_advance_alter; [apply ca_workspace|done..|].
  destruct ad_connections as [K _]. destruct (K id c Hfl) as (c'' & Hc'' & Hadv & _). simplify_eq. by etrans.
Qed.

Lemma update_capability_held w d0 id c f :
  Capability.workspace_id c = w → capability_advances c (f c) →
  When (capability_held id c) (moving w d0) (update_capability id f).
Proof.
  intros Hw Hf. apply moving_put. intros s Hc Hh Ha. destruct (Hh Hc) as [Hfl Hwk].
  one_table Ha. by eapply rows_advance_alter; first apply pa_workspace.
Qed.

Lemma update_capability_new w d0 id f :
  (∀ c, Capability.workspace_id (f c) = Capability.workspace_id c) →
  When (capability_new id) (moving w d0) (update_capability id f).
Proof.
  intros Hf. apply moving_put. intros s Hc Hh Ha. specialize (Hh Hc).
  one_table Ha. by apply rows_advance_alter_new.
Qed.

Lemma update_refresh_job_held w d0 id j f :
  DiscoveryRefreshJob.workspace_id j = w → refresh_advances j (f j) →
  When (job_held id j) (moving w d0) (update_refresh_job id f).
Proof.
  intros Hw Hf. apply moving_put. intros s Hc Hh Ha. destruct (Hh Hc) as [Hfl Hwk].
  one_table Ha. by eapply rows_advance_alter; first apply refresh_advances_workspace.
Qed.

(** Refresh jobs in memory are never ahead of a [populate]: an outstanding row
    may be settled whatever its object holds. *)
Lemma settle_advances j j' status :
  refresh_advances j j' → ¬ settled j → status ≠ RefreshJobStatus.QUEUED → status ≠ RefreshJobStatus.LEASED →
  refresh_advances j (settle status j').
Proof.
  intros [P E S Q L] Hs Hq Hl. constructor; cbn; try done.
Qed.

(** *** Insertions *)

Lemma moving_insert w d0 (b : Session → bool) f :
  (∀ s, b s = false → advances w (reg_flushed s) (reg_work s) →
        advances w (reg_flushed s) (f (reg_work s))) →
  Preserves (moving w d0) (flag_conflict b ;; put_registry f).
Proof.
  intros Hf env s a s' Hs [= <- <-]. cbn. intros Hc. apply orb_false_iff in Hc as [Hc Hb].
  destruct (Hs Hc) as [H1 H2]. split; [done|]. exact (Hf s Hb H2).
Qed.

Lemma clashes_false {R} (table : gmap uuid R) id f : clashes table id f = false → table !! id = None.
Proof. unfold clashes. intros [Hc _]%orb_false_iff. by destruct (table !! id). Qed.

Ltac insertion :=
  apply moving_insert; intros s Hb Ha; one_table Ha;
  solve [apply rows_advance_insert; [assumption|by eapply clashes_false|assumption]
        |apply rows_advance_insert; [assumption|by destruct (_ !! _)|assumption]
        |by apply log_advances_snoc].

Section insertions.
Context (w : uuid) (d0 : RegistryDb.t).
Lemma moving_add_connection c : ServerConnection.workspace_id c = w → Preserves (moving w d0) (add_connection c).
Proof. intros Hw. insertion. Qed.
Lemma moving_add_connection_version v :
  ServerConnectionVersion.workspace_id v = w → Preserves (moving w d0) (add_connection_version v).
Proof. intros Hw. insertion. Qed.
Lemma moving_add_refresh_job j :
  DiscoveryRefreshJob.workspace_id j = w → Preserves (moving w d0) (add_refresh_job j).
Proof. intros Hw. insertion. Qed.
Lemma moving_add_capability c : Capability.workspace_id c = w → Preserves (moving w d0) (add_capability c).
Proof. intros Hw. insertion. Qed.
Lemma moving_add_capability_version v :
  CapabilityVersion.workspace_id v = w → Preserves (moving w d0) (add_capability_version v).
Proof. intros Hw. insertion. Qed.
Lemma moving_add_tool_binding b : McpToolBinding.workspace_id b = w → Preserves (moving w d0) (add_tool_binding b).
Proof. intros Hw. insertion. Qed.
Lemma moving_add_status_event e :
  CapabilityStatusEvent.workspace_id e = w → Preserves (moving w d0) (add_status_event e).
Proof. intros Hw. insertion. Qed.
Lemma moving_add_payload p : DiscoveryPayload.workspace_id p = w → Preserves (moving w d0) (add_payload p).
Proof. intros Hw. insertion. Qed.
Lemma moving_add_snapshot n : DiscoverySnapshot.workspace_id n = w → Preserves (moving w d0) (add_snapshot n).
Proof. intros Hw. insertion. Qed.
Lemma moving_add_snapshot_capability c :
  DiscoverySnapshotCapability.workspace_id c = w → Preserves (moving w d0) (add_snapshot_capability c).
Proof. intros Hw. insertion. Qed.
End insertions.

(** *** Objects refreshed from their rows *)

(** A locking query that refreshes the object it finds, followed by [k]. *)
Definition refresh_query {R} (table : RegistryDb.t → gmap uuid R) (put : uuid → R → RegistryDb.t → RegistryDb.t)
    (id : uuid) (P : R → bool) : M (option R) :=
  found ← gets (λ s, table (flushed_registry s) !! id);
  match found with
  | Some r => if P r then put_registry (put id r) ;; mret (Some r) else mret None
  | None => mret None
  end.

Lemma after_refresh_query {R} (table : RegistryDb.t → gmap uuid R) put w d0 id P {B} (k : option R → M B) :
  (∀ r d d', advances w d d' → table d !! id = Some r →
     advances w d (put id r d') ∧ table (put id r d') !! id = Some r) →
  (∀ r, P r = true → When (held table id r) (moving w d0) (k (Some r))) →
  Preserves (moving w d0) (k None) → Preserves (moving w d0) (refresh_query table put id P ≫= k).
Proof.
  intros Hput Hsome Hnone env s b s' Hs. unfold refresh_query, gets, mbind, M_bind. cbn.
  destruct (table (flushed_registry s) !! id) as [r|] eqn:Hr; [|by apply Hnone].
  destruct (P r) eqn:HP; [|by apply Hnone]. cbn. intros E.
  eapply Hsome; [exact HP| | |exact E]; intros Hc; destruct (Hs Hc) as [H1 H2];
    destruct (Hput r _ _ H2 Hr) as [Hadv Hget]; by split.
Qed.

Section queries.
Context (w : uuid) (d0 : RegistryDb.t) (id : uuid).

Lemma after_fetch_connection P {B} (k : option ServerConnection.t → M B) :
  (∀ c, P c = true → When (connection_held id c) (moving w d0) (k (Some c))) →
  Preserves (moving w d0) (k None) → Preserves (moving w d0) (fetch_connection id P ≫= k).
Proof.
  apply (after_refresh_query RegistryDb.server_connections (λ id c d,
    d <| RegistryDb.server_connections := <[id := c]> (RegistryDb.server_connections d) |>)).
  intros r d d' Ha Hr. split; [|cbn; apply lookup_insert_eq].
  one_table Ha. by apply rows_advance_populate; [apply _|..].
Qed.

#[global] Instance moving_fetch_connection P : Preserves (moving w d0) (fetch_connection id P).
Proof.
  assert (Preserves (moving w d0) (fetch_connection id P ≫= mret)) as Hp.
  { apply after_fetch_connection; [intros c _; apply when_preserves|]; apply _. }
  intros env s a s' Hs E. apply (Hp env s a s' Hs). unfold mbind, M_bind. by rewrite E.
Qed.

Lemma after_fetch_capability P {B} (k : option Capability.t → M B) :
  (∀ c, P c = true → When (capability_held id c) (moving w d0) (k (Some c))) →
  Preserves (moving w d0) (k None) → Preserves (moving w d0) (fetch_capability id P ≫= k).
Proof.
  apply (after_refresh_query RegistryDb.capabilities (λ id c d,
    d <| RegistryDb.capabilities := <[id := c]> (RegistryDb.capabilities d) |>)).
  intros r d d' Ha Hr. split; [|cbn; apply lookup_insert_eq].
  one_table Ha. by apply rows_advance_populate; [apply _|..].
Qed.

Lemma alter_const {R} (m : gmap uuid R) i r r' : m !! i = Some r' → alter (λ _, r) i m = <[i := r]> m.
Proof.
  intros Hi. apply map_eq. intros j. rewrite lookup_alter, lookup_insert. case_decide as Hj; [|done].
  subst j. by rewrite Hi.
Qed.

Lemma after_fetch_job P {B} (k : option DiscoveryRefreshJob.t → M B) :
  (∀ j, P j = true → When (job_held id j) (moving w d0) (k (Some j))) →
  Preserves (moving w d0) (k None) → Preserves (moving w d0) (fetch_refresh_job id P ≫= k).
Proof.
  apply (after_refresh_query RegistryDb.discovery_refresh_jobs (λ id j d,
    d <| RegistryDb.discovery_refresh_jobs := alter (λ _, j) id (RegistryDb.discovery_refresh_jobs d) |>)).
  intros r d d' Ha Hr. destruct (ad_jobs _ _ _ Ha) as [K _]. destruct (K id r Hr) as (r' & Hr' & _).
  cbn. rewrite (alter_const _ _ _ _ Hr'). split; [|apply lookup_insert_eq].
  one_table Ha. by apply rows_advance_populate; [apply _|..].
Qed.
End queries.

(** Composition when the assertion is used up by [m]. *)
Lemma when_last P I {A B} (m : M A) (k : A → M B) :
  When P I m → (∀ a, Preserves I (k a)) → When P I (m ≫= k).
Proof.
  intros Hm Hk env s b s' HP Hs. unfold mbind, M_bind. destruct (m env s) as [[a s1]|] eqn:E; [|done].
  intros E'. eapply Hk; [|exact E']. by eapply Hm.
Qed.

(** Composition when [m] keeps a consequence of the assertion. *)
Lemma when_keep P P' I {A B} (m : M A) (k : A → M B) :
  (∀ s, P s → P' s) → When P I m → Preserves P' m → (∀ a, When P' I (k a)) → When P I (m ≫= k).
Proof.
  intros HP' Hm HPm Hk env s b s' HP Hs. unfold mbind, M_bind. destruct (m env s) as [[a s1]|] eqn:E; [|done].
  intros E'. eapply Hk; [| |exact E']; [eapply HPm; [|exact E]; by apply HP'|by eapply Hm].
Qed.

(** A query that finds rows of the flushed tables. *)
Lemma after_gets {A B} (f : Session → A) (P : A → Session → Prop) I (k : A → M B) :
  (∀ s, I s → P (f s) s) → (∀ a, When (P a) I (k a)) → Preserves I (gets f ≫= k).
Proof. intros HP Hk env s b s' Hs E. eapply Hk; [by apply HP|exact Hs|exact E]. Qed.

Lemma when_for_each P I {A} (l : list A) (body : A → M unit) :
  (∀ x, x ∈ l → When P I (body x)) → (∀ x, Preserves P (body x)) → When P I (for_each l body).
Proof.
  intros Hb HP. induction l as [|x l IH]; cbn [for_each].
  { by intros env s a s' _ Hs [= <- <-]. }
  apply (when_keep P P); [done|by apply Hb; left|apply HP|]. intros _. apply IH. intros y Hy. apply Hb. by right.
Qed.

(** A step that establishes [H] while [P] persists. *)
Lemma when_gain P I {A B} (m : M A) (H : A → Session → Prop) (k : A → M B) :
  Preserves I m → Preserves P m → (∀ env s a s', m env s = Ok (a, s') → H a s') →
  (∀ a, When (λ s, P s ∧ H a s) I (k a)) → When P I (m ≫= k).
Proof.
  intros Hm HP HH Hk env s b s' HPs Hs. unfold mbind, M_bind. destruct (m env s) as [[a s1]|] eqn:E; [|done].
  intros E'. eapply Hk; [|by eapply Hm|exact E']. split; [by eapply HP|by eapply HH].
Qed.

(** Outstanding jobs are settled one after the other. *)
Definition rows_outstanding (w : uuid) (rows : list (uuid * DiscoveryRefreshJob.t)) (s : Session) : Prop :=
  Forall (λ kj, RegistryDb.discovery_refresh_jobs (reg_flushed s) !! kj.1 = Some kj.2
                ∧ DiscoveryRefreshJob.workspace_id kj.2 = w ∧ ¬ settled kj.2) rows.

Lemma moving_settle_all w d0 status rows :
  status ≠ RefreshJobStatus.QUEUED → status ≠ RefreshJobStatus.LEASED →
  When (rows_outstanding w rows) (moving w d0)
    (for_each rows (λ kj, update_refresh_job kj.1 (settle status))).
Proof.
  intros Hq Hl. apply when_for_each.
  - intros [k j] Hin. apply moving_put. intros s Hc Hrows Ha.
    unfold rows_outstanding in Hrows. rewrite Forall_forall in Hrows.
    destruct (Hrows _ Hin) as (Hj & Hws & Hs). cbn [fst snd] in *.
    destruct (ad_jobs _ _ _ Ha) as [K _]. destruct (K k j Hj) as (j' & Hj' & Hadv & _).
    one_table Ha. eapply rows_advance_alter; [apply refresh_advances_workspace|done..|].
    by apply settle_advances.
  - intros kj. apply preserves_put. intros s Hrows. exact Hrows.
Qed.

Lemma settle_outstanding w d0 wid id {B} (k : list (uuid * DiscoveryRefreshJob.t) → M B) :
  (∀ rows, When (rows_outstanding wid rows) (moving w d0) (k rows)) →
  Preserves (moving w d0)
    (gets (λ s, where_rows (discovery_refresh_jobs (flushed s)) (outstanding wid id)) ≫= k).
Proof.
  apply after_gets. intros s Hs.
  apply Forall_forall. intros [i j] [Hj Ho]%elem_of_where_rows. unfold outstanding in Ho.
  apply andb_true_iff in Ho as [Ho Hst]. breflect. split_and!; [done..|].
  intros [Hq Hl]. apply orb_true_iff in Hst as [Hst|Hst]; by apply eqv_eq in Hst.
Qed.

(** ** Decomposing a program *)

Lemma preserves_assoc I {A B C} (m : M A) (f : A → M B) (k : B → M C) :
  Preserves I (m ≫= λ a, f a ≫= k) → Preserves I ((m ≫= f) ≫= k).
Proof.
  intros Hm env s c s' Hs E. apply (Hm env s c s' Hs). revert E. unfold mbind, M_bind.
  by destruct (m env s) as [[a s1]|].
Qed.

Lemma when_assoc P I {A B C} (m : M A) (f : A → M B) (k : B → M C) :
  When P I (m ≫= λ a, f a ≫= k) → When P I ((m ≫= f) ≫= k).
Proof.
  intros Hm env s c s' HP Hs E. apply (Hm env s c s' HP Hs). revert E. unfold mbind, M_bind.
  by destruct (m env s) as [[a s1]|].
Qed.

Lemma preserves_raise_bind I {A B} e (k : A → M B) : Preserves I (raise e ≫= k).
Proof. by intros env s a s' _ [=]. Qed.


Create HintDb moving.
#[export] Hint Resolve moving_add_connection moving_add_connection_version moving_add_refresh_job
  moving_add_capability moving_add_capability_version moving_add_tool_binding moving_add_status_event
  moving_add_payload moving_add_snapshot moving_add_snapshot_capability : moving.

(** Programs that do not write the table an assertion is about. *)
Create HintDb adds.
#[export] Hint Unfold add_connection_version add_refresh_job add_capability_version add_tool_binding
  add_status_event add_payload add_snapshot add_snapshot_capability add_capability : adds.
Ltac untouched_step :=
  lazymatch goal with
  | |- Preserves (λ _, _ ∧ _) _ => apply preserves_and
  | |- ∀ _, _ => intros
  | |- Preserves _ (let _ := _ in _) => cbv zeta
  | |- Preserves _ (for_each _ _) => apply preserves_for_each
  | |- Preserves (connection_in _ _) (fetch_connection _ _) => apply _
  | |- Preserves (connection_in _ _) (update_connection _ _) => apply _
  | |- Preserves _ (fetch_connection _ _) => unfold fetch_connection
  | |- Preserves _ (fetch_capability _ _) => unfold fetch_capability
  | |- Preserves _ (update_connection _ _) => unfold update_connection
  | |- Preserves _ (update_capability _ _) => unfold update_capability
  | |- Preserves _ (put_registry _) => first [apply held_put|apply row_is_put|apply connection_in_put]; intros; reflexivity
  | |- Preserves _ (_ ≫= _) => apply preserves_bind; [|intros ?]
  | |- Preserves _ (match ?x with _ => _ end) => destruct x
  | |- Preserves _ _ => apply _
  end.
Ltac untouched := autounfold with adds; repeat untouched_step.

Ltac moving_solve := solve [apply _|auto with moving|apply preserves_apart; [solve_apart|apply _]].

Ltac moving_step :=
  lazymatch goal with
  | |- ∀ _, _ => intros
  | |- Preserves _ (let _ := _ in _) => cbv zeta
  | |- When _ _ (let _ := _ in _) => cbv zeta
  | |- Preserves _ ((_ ≫= _) ≫= _) => apply preserves_assoc
  | |- When _ _ ((_ ≫= _) ≫= _) => apply when_assoc
  | |- Preserves _ (raise_if _ _ ≫= _) => apply preserves_guard; intros ?
  | |- Preserves _ (fetch_connection _ _ ≫= _) => apply after_fetch_connection; [intros ? ?|]
  | |- Preserves _ (fetch_capability _ _ ≫= _) => apply after_fetch_capability; [intros ? ?|]
  | |- Preserves _ (fetch_refresh_job _ _ ≫= _) => apply after_fetch_job; [intros ? ?|]
  | |- Preserves _ (gets _ ≫= (λ rows, for_each rows _ ≫= _)) => apply settle_outstanding; intros ?
  | |- Preserves _ (_ ≫= _) => apply preserves_bind; [moving_solve|intros ?]
  | |- Preserves _ (match ?x with _ => _ end) => destruct x eqn:?
  | |- Preserves _ _ => moving_solve
  | |- When _ _ (raise_if _ _ ≫= _) => apply when_guard; intros ?
  | |- When _ _ (match ?x with _ => _ end) => destruct x eqn:?
  | |- When (rows_outstanding _ _) _ (for_each _ _) => by apply moving_settle_all
  | |- When (rows_outstanding _ _) _ (for_each _ _ ≫= _) => apply when_last; [by apply moving_settle_all|intros ?]
  | |- When _ _ (update_connection _ _ ≫= _) =>
      apply when_last; [apply update_connection_held|intros ?]
  | |- When _ _ (update_capability _ _ ≫= _) =>
      apply when_last; [apply update_capability_held|intros ?]
  | |- When _ _ (update_refresh_job _ _ ≫= _) =>
      apply when_last; [apply update_refresh_job_held|intros ?]
  | |- When _ _ (_ ≫= _) => apply when_bind; [moving_solve|solve [untouched]|intros ?]
  | |- When _ _ _ => apply when_preserves; moving_solve
  end.
Ltac solve_moving := repeat moving_step.

(** A row whose counter went up has advanced. *)
Ltac counted := constructor; cbn; try done; lia.

(** ** The connection service *)

Section operations.
Context (context : WorkspaceContext.t) (d0 : RegistryDb.t).
Let w := WorkspaceContext.workspace_id context.
Abbreviation I := (moving w d0).

#[global] Instance moving_obsolete id : Preserves (moving w d0) (_obsolete_refresh_jobs context id).
Proof. unfold _obsolete_refresh_jobs. fold w. apply settle_outstanding. intros rows. by apply moving_settle_all. Qed.

Lemma after_locked_connection id {B} (k : ServerConnection.t → M B) :
  (∀ c, ServerConnection.workspace_id c = w → When (connection_held id c) I (k c)) →
  Preserves I (_locked_connection context id ≫= k).
Proof.
  intros Hk. unfold _locked_connection. apply preserves_assoc, after_fetch_connection.
  - intros c Hc%eqv_eq. by apply Hk.
  - apply preserves_raise_bind.
Qed.

Lemma after_locked_capability id {B} (k : Capability.t → M B) :
  (∀ c, Capability.workspace_id c = w → When (capability_held id c) I (k c)) →
  Preserves I (_locked_capability context id ≫= k).
Proof.
  intros Hk. unfold _locked_capability. apply preserves_assoc, after_fetch_capability.
  - intros c Hc%eqv_eq. by apply Hk.
  - apply preserves_raise_bind.
Qed.

Context `{Urls} (self : ConnectionService.t).

#[global] Instance moving_create name url secret policy correlation :
  Preserves (moving w d0) (create self context name url secret policy correlation).
Proof. unfold create. solve_moving. Qed.

#[global] Instance moving_append_version id url secret policy correlation :
  Preserves (moving w d0) (append_version self context id url secret policy correlation).
Proof.
  unfold append_version. do 3 moving_step. apply after_locked_connection. intros c Hw. solve_moving; [done|counted].
Qed.

Lemma release_advances (c c' : ServerConnection.t) :
  ServerConnection.id c' = ServerConnection.id c →
  ServerConnection.workspace_id c' = ServerConnection.workspace_id c →
  ServerConnection.name c' = ServerConnection.name c →
  ServerConnection.control_epoch c' = ServerConnection.control_epoch c →
  ServerConnection.refresh_generation c' = ServerConnection.refresh_generation c →
  current_target c' = current_target c →
  ServerConnection.lifecycle c' ≠ ConnectionLifecycle.DISABLED →
  ServerConnection.lifecycle c ≠ ConnectionLifecycle.DISABLED →
  connection_advances c (release_allocation c').
Proof. intros. constructor; cbn; try done; try lia; intros; by left. Qed.

#[global] Instance moving_promote_pending id version epoch generation correlation :
  Preserves (moving w d0) (promote_pending context id version epoch generation correlation).
Proof.
  unfold promote_pending. moving_step. apply after_locked_connection. intros c Hw. solve_moving; [done|].
  breflect. apply release_advances; cbn; congruence.
Qed.

#[global] Instance moving_disable id correlation : Preserves (moving w d0) (disable context id correlation).
Proof.
  unfold disable. moving_step. apply after_locked_connection. intros c Hw. solve_moving; [done|counted].
Qed.

#[global] Instance moving_enable id correlation : Preserves (moving w d0) (enable context id correlation).
Proof.
  unfold enable. moving_step. apply after_locked_connection. intros c Hw. solve_moving; [done|counted].
Qed.

#[global] Instance moving_complete_refresh id version epoch generation :
  Preserves (moving w d0) (complete_refresh context id version epoch generation).
Proof.
  unfold complete_refresh. moving_step. apply after_locked_connection. intros c Hw. solve_moving; [done|].
  breflect. apply release_advances; try done.
  intros Hl. match goal with Hr : refreshable _ = true |- _ => by rewrite Hl in Hr end.
Qed.

(** An object of this workspace, whatever it holds. *)
Lemma held_connection_in id c :
  ServerConnection.workspace_id c = w → ∀ s, connection_held id c s → connection_in w id s.
Proof. intros Hw s Hs Hc. destruct (Hs Hc) as [??]. split; by exists c. Qed.

#[global] Instance moving_allocate id :
  Preserves (moving w d0) (allocate_refresh_generation context id).
Proof.
  unfold allocate_refresh_generation. moving_step. apply after_locked_connection. intros c Hw.
  moving_step. moving_step; [|by apply when_preserves; apply _].
  apply (when_keep _ (connection_in w id)); [by apply held_connection_in|..].
  - destruct (_ && _); [|apply when_preserves; apply _].
    apply update_connection_held; [done|]. breflect.
    constructor; cbn; try done; try lia; intros; by right.
  - destruct (_ && _); apply _.
  - intros _. apply when_last; [apply update_connection_any; counted|solve_moving].
Qed.
End operations.

(** ** The capability service *)

Section capability_operations.
Context (context : WorkspaceContext.t) (d0 : RegistryDb.t) `{Patterns}.
Let w := WorkspaceContext.workspace_id context.
Abbreviation I := (moving w d0).

#[global] Instance moving_append_status_event id v :
  Preserves (moving w d0) (_append_status_event context id v).
Proof. unfold _append_status_event. solve_moving. Qed.

Lemma moving_store_version P connection version id tool protocol sequence version_id correlation :
  (∀ f, (∀ d, RegistryDb.capabilities (f d) = RegistryDb.capabilities d) → Preserves P (put_registry f)) →
  RegSame P → When P I (update_capability id (observe_new version_id)) →
  When P I (store_version context connection version id tool protocol sequence version_id correlation).
Proof.
  intros HP Hsame Hupdate. unfold store_version. cbv zeta.
  do 2 (apply when_bind;
    [auto with moving|autounfold with adds; apply preserves_bind; [apply _|intros; by apply HP]|intros _]).
  apply when_last; [done|]. solve_moving.
Qed.

Lemma observe_existing_advances (c c' : Capability.t) existing :
  observe_existing c existing = Some c' →
  capability_advances c c' ∧ Capability.status_epoch c' = Capability.status_epoch c + 1.
Proof.
  unfold observe_existing. intros Ho. repeat case_match; simplify_eq; (split; [|done]);
    constructor; cbn; try done; lia.
Qed.

Lemma observe_new_advances version_id (c : Capability.t) : capability_advances c (observe_new version_id c).
Proof. unfold observe_new. case_match; constructor; cbn; try done; lia. Qed.

(** A row that is not in memory was not flushed either. *)
Lemma add_capability_is_new (c : Capability.t) {B} (k : unit → M B) :
  Capability.workspace_id c = w → When (capability_new (Capability.id c)) I (k tt) →
  Preserves I (add_capability c ≫= k).
Proof.
  intros Hw Hk env s b s' Hs E. unfold mbind, M_bind in E.
  destruct (add_capability c env s) as [[[] s1]|] eqn:Ea; [|done].
  pose proof (moving_add_capability w d0 c Hw _ _ _ _ Hs Ea) as Hs1.
  eapply Hk; [|exact Hs1|exact E]. intros Hc. revert Ea Hc. intros [= <-] [Hc Hb]%orb_false_iff.
  apply clashes_false in Hb. destruct (Hs Hc) as [_ Ha]. destruct (ad_capabilities _ _ _ Ha) as [K _].
  unfold reg_flushed in *. cbn. destruct (RegistryDb.capabilities (Db.registry (flushed s)) !! Capability.id c)
    as [c0|] eqn:Hc0; [|done].
  destruct (K _ _ Hc0) as (c1 & Hc1 & _). unfold capabilities, reg_work in *. congruence.
Qed.

#[global] Instance moving_record_version connection version epoch generation tool protocol correlation :
  Preserves (moving w d0)
    (record_version context connection version epoch generation tool protocol correlation).
Proof.
  unfold record_version. do 2 moving_step. cbv zeta. moving_step; [|solve_moving].
  moving_step. apply when_preserves. moving_step. moving_step.
  - destruct p as [id c0]. moving_step; [|solve_moving]. rename c0 into selected_row.
    match goal with Hsel : (_ && _ && _) = true |- When (capability_held id ?c) _ _ =>
      assert (Capability.workspace_id c = w) as Hcw by (unfold w; by breflect) end.
    do 2 moving_step.
    + destruct (observe_existing _ _) as [c'|] eqn:Ho.
      * apply observe_existing_advances in Ho as [Ho _]. solve_moving; done.
      * solve_moving.
    + do 2 moving_step. apply moving_store_version.
      * intros f Hf. apply held_put. intros d. by rewrite Hf.
      * apply _.
      * apply update_capability_held; [done|apply observe_new_advances].
  - moving_step. apply add_capability_is_new; [done|]. moving_step. apply moving_store_version.
    + intros f Hf. apply preserves_put. intros s Hs. exact Hs.
    + apply _.
    + apply update_capability_new. intros c'. unfold observe_new. by case_match.
Qed.

#[global] Instance moving_enable_capability id version correlation :
  Preserves (moving w d0) (enable_capability context id version correlation).
Proof.
  unfold enable_capability. moving_step. apply after_locked_capability. intros c Hw. solve_moving; [done|counted].
Qed.

#[global] Instance moving_disable_capability id version correlation :
  Preserves (moving w d0) (disable_capability context id version correlation).
Proof.
  unfold disable_capability. moving_step. apply after_locked_capability. intros c Hw. solve_moving; [done|counted].
Qed.
End capability_operations.

(** ** Discovery *)

Section discovery_operations.
Context (context : WorkspaceContext.t) (d0 : RegistryDb.t) `{Patterns}.
Let w := WorkspaceContext.workspace_id context.
Abbreviation I := (moving w d0).

Lemma after_eligible_connection id version epoch generation {B} (k : ServerConnection.t → M B) :
  (∀ c, ServerConnection.workspace_id c = w → eligible version epoch generation c = true →
     When (connection_held id c) I (k c)) →
  Preserves I (_lock_eligible_connection context id version epoch generation ≫= k).
Proof.
  intros Hk. unfold _lock_eligible_connection. apply preserves_assoc, after_fetch_connection.
  - intros c Hc%eqv_eq. apply when_assoc, when_guard. intros He. apply Hk; [done|].
    by apply negb_false_iff.
  - apply preserves_raise_bind.
Qed.

#[global] Instance moving_lock_eligible id version epoch generation :
  Preserves (moving w d0) (_lock_eligible_connection context id version epoch generation).
Proof. unfold _lock_eligible_connection. solve_moving. Qed.

#[global] Instance moving_enqueue id : Preserves (moving w d0) (enqueue context id).
Proof.
  unfold enqueue. moving_step. destruct a as [[generation epoch] version]. cbv zeta.
  apply settle_outstanding. intros rows. moving_step. solve_moving.
Qed.

(** *** What the steps of a publication leave alone *)

#[global] Instance job_held_lock_eligible id j i v e g :
  Preserves (job_held id j) (_lock_eligible_connection context i v e g).
Proof. unfold _lock_eligible_connection. untouched. Qed.
#[global] Instance job_held_lock_lease id j lease : Preserves (job_held id j) (lock_lease_connection context lease).
Proof. unfold lock_lease_connection. apply _. Qed.
#[global] Instance job_held_append_status_event id j i v : Preserves (job_held id j) (_append_status_event context i v).
Proof. unfold _append_status_event. untouched. Qed.
#[global] Instance job_held_record_version id j a b e g t p o :
  Preserves (job_held id j) (record_version context a b e g t p o).
Proof. unfold record_version, store_version. untouched. Qed.
#[global] Instance job_held_promote id j i v e g o : Preserves (job_held id j) (promote_pending context i v e g o).
Proof. unfold promote_pending, _locked_connection. untouched. Qed.
#[global] Instance job_held_complete id j i v e g : Preserves (job_held id j) (complete_refresh context i v e g).
Proof. unfold complete_refresh, _locked_connection. untouched. Qed.
#[global] Instance job_held_mark_missing id j i l : Preserves (job_held id j) (_mark_missing_unavailable context i l).
Proof. unfold _mark_missing_unavailable, mark_unavailable. untouched. Qed.
#[global] Instance job_held_store_payload id j r : Preserves (job_held id j) (store_payload context r).
Proof. unfold store_payload. untouched. Qed.
#[global] Instance job_held_publish_tool id j l n p t : Preserves (job_held id j) (publish_tool context l n p t).
Proof. unfold publish_tool. untouched. Qed.

#[global] Instance connection_in_append_status_event u id i v :
  Preserves (connection_in u id) (_append_status_event context i v).
Proof. unfold _append_status_event. untouched. Qed.
#[global] Instance connection_in_record_version u id a b e g t p o :
  Preserves (connection_in u id) (record_version context a b e g t p o).
Proof. unfold record_version, store_version. untouched. Qed.
#[global] Instance connection_in_promote u id i v e g o :
  Preserves (connection_in u id) (promote_pending context i v e g o).
Proof. unfold promote_pending, _locked_connection. untouched. Qed.
#[global] Instance connection_in_complete u id i v e g :
  Preserves (connection_in u id) (complete_refresh context i v e g).
Proof. unfold complete_refresh, _locked_connection. untouched. Qed.
#[global] Instance connection_in_mark_missing u id i l :
  Preserves (connection_in u id) (_mark_missing_unavailable context i l).
Proof. unfold _mark_missing_unavailable, mark_unavailable. untouched. Qed.
#[global] Instance connection_in_store_payload u id r : Preserves (connection_in u id) (store_payload context r).
Proof. unfold store_payload. untouched. Qed.
#[global] Instance connection_in_publish_tool u id l n p t :
  Preserves (connection_in u id) (publish_tool context l n p t).
Proof. unfold publish_tool. untouched. Qed.

(** *** The refresh jobs *)

Lemma claim_advances (j : DiscoveryRefreshJob.t) worker expiry now :
  reclaimable now j = true →
  refresh_advances j (j <| DiscoveryRefreshJob.status := RefreshJobStatus.LEASED |>
    <| DiscoveryRefreshJob.lease_owner := Some worker |>
    <| DiscoveryRefreshJob.lease_epoch := DiscoveryRefreshJob.lease_epoch j + 1 |>
    <| DiscoveryRefreshJob.lease_expires_at := Some expiry |>).
Proof.
  intros Hr. constructor; cbn; try done; try lia. intros [Hq Hl]. unfold reclaimable in Hr.
  apply orb_true_iff in Hr as [Hr|Hr]; breflect; done.
Qed.

#[global] Instance moving_claim id worker duration : Preserves (moving w d0) (claim context id worker duration).
Proof.
  unfold claim. do 2 moving_step. moving_step; [|solve_moving]. breflect. solve_moving; breflect; [done|].
  by eapply claim_advances.
Qed.

Lemma lease_current_workspace lease (j : DiscoveryRefreshJob.t) :
  lease_current context lease j = true → DiscoveryRefreshJob.workspace_id j = w.
Proof. unfold lease_current. intros Hl. unfold w. by breflect. Qed.

Lemma lease_current_leased lease (j : DiscoveryRefreshJob.t) :
  lease_current context lease j = true → DiscoveryRefreshJob.status j = RefreshJobStatus.LEASED.
Proof. unfold lease_current. intros Hl. by breflect. Qed.

Lemma after_locked_job lease b {B} (k : DiscoveryRefreshJob.t → M B) :
  (∀ j, lease_current context lease j = true → When (job_held (RefreshLease.job_id lease) j) I (k j)) →
  Preserves I (_locked_job_for_lease context lease b ≫= k).
Proof.
  intros Hk. unfold _locked_job_for_lease. apply preserves_assoc. apply preserves_bind.
  { destruct b; apply _. }
  intros now. apply preserves_assoc, after_fetch_job.
  - intros j Hj. apply Hk. by apply andb_true_iff in Hj as [Hj _].
  - apply preserves_raise_bind.
Qed.

#[global] Instance moving_locked_job lease b : Preserves (moving w d0) (_locked_job_for_lease context lease b).
Proof.
  assert (Preserves (moving w d0) (_locked_job_for_lease context lease b ≫= mret)) as Hp.
  { apply after_locked_job. intros j _. apply when_preserves, _. }
  intros env s a s' Hs E. apply (Hp env s a s' Hs). unfold mbind, M_bind. by rewrite E.
Qed.

#[global] Instance moving_lock_lease lease : Preserves (moving w d0) (lock_lease_connection context lease).
Proof. unfold lock_lease_connection. apply _. Qed.

Lemma renew_advances (j : DiscoveryRefreshJob.t) e e' :
  DiscoveryRefreshJob.status j = RefreshJobStatus.LEASED → DiscoveryRefreshJob.lease_expires_at j = Some e →
  e ≤ e' → refresh_advances j (j <| DiscoveryRefreshJob.lease_expires_at := Some e' |>).
Proof.
  intros Hs He Hle. constructor; cbn; try done; try lia.
  - intros [_ Hl]. done.
  - congruence.
  - intros _ _ _. split; [done|]. intros e0 He0. simplify_eq. eauto.
Qed.

#[global] Instance moving_renew lease duration : Preserves (moving w d0) (renew context lease duration).
Proof.
  unfold renew. do 2 moving_step. apply after_locked_job. intros j Hj. solve_moving.
  - by eapply lease_current_workspace.
  - eapply renew_advances; [by eapply lease_current_leased|done|lia].
Qed.

#[global] Instance moving_validate_for_contact lease :
  Preserves (moving w d0) (validate_for_contact context lease).
Proof. unfold validate_for_contact. solve_moving. Qed.

(** *** Publication *)

Lemma settle_leased (j : DiscoveryRefreshJob.t) status :
  DiscoveryRefreshJob.status j = RefreshJobStatus.LEASED →
  status ≠ RefreshJobStatus.QUEUED → status ≠ RefreshJobStatus.LEASED →
  refresh_advances j (settle status j).
Proof. intros Hs Hq Hl. apply settle_advances; try done. by intros [_ ?]. Qed.

#[global] Instance moving_store_payload result : Preserves (moving w d0) (store_payload context result).
Proof. unfold store_payload. solve_moving. Qed.
#[global] Instance moving_publish_tool lease n p t : Preserves (moving w d0) (publish_tool context lease n p t).
Proof. unfold publish_tool. solve_moving. Qed.

(** Capabilities that were not observed. *)
Definition rows_flushed (rows : list (uuid * Capability.t)) (s : Session) : Prop :=
  Forall (λ kc, RegistryDb.capabilities (reg_flushed s) !! kc.1 = Some kc.2
                ∧ Capability.workspace_id kc.2 = w) rows.

#[global] Instance rows_flushed_same rows : RegSame (rows_flushed rows).
Proof. intros s s' Hw Hf Hc Hs. unfold rows_flushed in *. by rewrite Hf. Qed.
#[global] Instance rows_flushed_put rows f : Preserves (rows_flushed rows) (put_registry f).
Proof. apply preserves_put. intros s Hs. exact Hs. Qed.
#[global] Instance rows_flushed_mark rows observed k :
  Preserves (rows_flushed rows) (mark_unavailable context observed k).
Proof.
  unfold mark_unavailable, _append_status_event, update_capability, add_status_event.
  repeat (apply preserves_bind; [apply _|intros ?]). case_match; [|apply _].
  repeat (apply preserves_bind; [apply _|intros ?]). apply _.
Qed.

Lemma moving_mark_unavailable rows observed k c :
  (k, c) ∈ rows → When (rows_flushed rows) I (mark_unavailable context observed k).
Proof.
  intros Hk. unfold mark_unavailable. apply when_bind; [apply _..|].
  intros c0. destruct (missing observed c0); [|apply when_preserves; apply _].
  apply when_last; [|solve_moving]. apply moving_put. intros s Hc Hrows Ha.
  unfold rows_flushed in Hrows. rewrite Forall_forall in Hrows. destruct (Hrows _ Hk) as [Hfl Hw]. cbn in Hfl, Hw.
  destruct (ad_capabilities _ _ _ Ha) as [K _]. destruct (K k c Hfl) as (c1 & Hc1 & Hadv & _).
  one_table Ha. eapply rows_advance_alter; [apply pa_workspace|done..|]. etrans; [exact Hadv|]. counted.
Qed.

#[global] Instance moving_mark_missing id observed :
  Preserves (moving w d0) (_mark_missing_unavailable context id observed).
Proof.
  unfold _mark_missing_unavailable. apply (after_gets _ rows_flushed).
  - intros s Hs. apply Forall_forall. intros [k c] [Hc Hw]%elem_of_where_rows. split; [done|]. unfold w. by breflect.
  - intros rows. apply when_last; [|intros _; apply _]. apply when_for_each; [|intros kc; apply _].
    intros [k c] Hkc. by eapply moving_mark_unavailable.
Qed.

Lemma leave_connection_advances (c : ServerConnection.t) snapshot error at_ :
  connection_advances c (c <| ServerConnection.current_snapshot_id := snapshot |>
    <| ServerConnection.last_refresh_error_code := error |>
    <| ServerConnection.last_refresh_at := at_ |>).
Proof. constructor; cbn; try done; try lia; intros; by right. Qed.

(** What the publishing fence establishes. *)
Lemma lock_lease_spec lease env s c s' :
  lock_lease_connection context lease env s = Ok (c, s') →
  ServerConnection.workspace_id c = w
  ∧ eligible (RefreshLease.connection_version_id lease) (RefreshLease.control_epoch lease)
      (RefreshLease.generation lease) c = true
  ∧ connection_held (RefreshLease.connection_id lease) c s'.
Proof.
  unfold lock_lease_connection, _lock_eligible_connection, fetch_connection, gets, mbind, M_bind. cbn -[eligible].
  destruct (RegistryDb.server_connections (flushed_registry s) !! _) as [c0|] eqn:Hc; [|done].
  destruct (eqv (ServerConnection.workspace_id c0) _) eqn:Hw; [|done]. cbn -[eligible].
  destruct (eligible (RefreshLease.connection_version_id lease) (RefreshLease.control_epoch lease)
    (RefreshLease.generation lease) c0) eqn:He; [|done].
  intros [= <- <-]. apply eqv_eq in Hw. split_and!; [done..|]. intros _. unfold reg_work. cbn.
  split; [done|apply lookup_insert_eq].
Qed.

(** A publication holds its job, and its connection is one of the workspace. *)
Definition publishing lease (j : DiscoveryRefreshJob.t) (s : Session) : Prop :=
  job_held (RefreshLease.job_id lease) j s ∧ connection_in w (RefreshLease.connection_id lease) s.
#[global] Instance publishing_inv lease j : RegInv (publishing lease j).
Proof. unfold publishing. apply _. Qed.

Lemma publishing_gain lease j {B} (k : ServerConnection.t → M B) :
  (∀ c, eligible (RefreshLease.connection_version_id lease) (RefreshLease.control_epoch lease)
          (RefreshLease.generation lease) c = true → ServerConnection.workspace_id c = w →
        When (λ s, job_held (RefreshLease.job_id lease) j s
                   ∧ connection_held (RefreshLease.connection_id lease) c s) I (k c)) →
  When (job_held (RefreshLease.job_id lease) j) I (lock_lease_connection context lease ≫= k).
Proof.
  intros Hk. eapply when_gain; [apply _|apply _|apply lock_lease_spec|].
  intros c env s b s' (Hj & Hw & He & Hc). by apply Hk.
Qed.

#[global] Instance moving_publish_success lease result :
  Preserves (moving w d0) (publish_success context lease result).
Proof.
  unfold publish_success, _locked_active_job. moving_step. apply after_locked_job. intros j Hj.
  apply publishing_gain. intros c _ Hcw. apply (when_and _ _ (publishing lease j)).
  { intros s [Hjs Hcs] _. split; [done|by eapply held_connection_in]. }
  cbv zeta.
  repeat (apply when_bind; [moving_solve|unfold publishing; untouched|intros ?]).
  apply when_bind; [destruct (is_some _); apply _|unfold publishing; untouched|intros ?].
  apply when_bind; [apply _..|intros now].
  apply (when_keep _ (publishing lease j)); [done| |unfold publishing; untouched|intros _].
  - apply (when_and _ _ (connection_in w (RefreshLease.connection_id lease))); [by intros s [_ ?] _|].
    apply update_connection_any. intros c'. apply leave_connection_advances.
  - apply (when_and _ _ (job_held (RefreshLease.job_id lease) j)); [by intros s [? _] _|].
    solve_moving; [by eapply lease_current_workspace|].
    by apply settle_leased; [eapply lease_current_leased|..].
Qed.

#[global] Instance moving_publish_failure lease code :
  Preserves (moving w d0) (publish_failure context lease code).
Proof.
  unfold publish_failure, _locked_active_job. moving_step. apply after_locked_job. intros j Hj.
  apply publishing_gain. intros c He Hcw. apply when_bind; [apply _..|intros now].
  apply (when_keep _ (job_held (RefreshLease.job_id lease) j)); [by intros s [? _]| |untouched|intros _].
  - apply (when_and _ _ (connection_held (RefreshLease.connection_id lease) c)); [by intros s [_ ?] _|].
    apply update_connection_held; [done|]. unfold eligible in He. breflect.
    apply release_advances; try done.
    intros Hl. match goal with Hr : refreshable _ = true |- _ => by rewrite Hl in Hr end.
  - solve_moving; [by eapply lease_current_workspace|].
    by apply settle_leased; [eapply lease_current_leased|..].
Qed.
End discovery_operations.
