(* ===== verification/RegistrySafety.v ===== *)
(** The registry services as transitions of the database: fencing counters are
    monotone, workspaces are isolated, and stale refresh leases stay powerless. *)
From S2P Require Import Prelude Types Json PyStr Secrets Screening Store Session Registry Identity Endpoint Connection.
From S2P Require Import Capabilities Discovery Hoare Triple RegistryWp.
Local Open Scope Z_scope.

(** The entry points of the registry services, each with the context it runs in. *)
Inductive registry_operation : Type :=
| CreateConnection (self : ConnectionService.t) (name endpoint_url : string) (secret : option uuid) (policy : string)
| AppendVersion (self : ConnectionService.t) (connection : uuid) (endpoint_url : string) (secret : option uuid)
    (policy : string)
| PromotePending (connection version : uuid) (control_epoch generation : Z)
| DisableConnection (connection : uuid)
| EnableConnection (connection : uuid)
| AllocateRefresh (connection : uuid)
| CompleteRefresh (connection version : uuid) (control_epoch generation : Z)
| RecordVersion (connection version : uuid) (control_epoch generation : Z) (tool : ToolDefinition.t)
    (protocol_revision : string)
| EnableCapability (capability version : uuid)
| DisableCapability (capability version : uuid)
| EnqueueRefresh (connection : uuid)
| ClaimRefresh (job : uuid) (worker : string) (duration : Z)
| RenewRefresh (lease : RefreshLease.t) (duration : Z)
| ValidateForContact (lease : RefreshLease.t)
| PublishSuccess (lease : RefreshLease.t) (result : DiscoveryResult.t)
| PublishFailure (lease : RefreshLease.t) (code : DiscoveryFailureCode.t).

Section registry.
Context `{Urls} `{Patterns}.
Implicit Types (context : WorkspaceContext.t) (lease : RefreshLease.t).

Definition perform_registry context (o : registry_operation) (correlation : option uuid) : M unit :=
  match o with
  | CreateConnection self n u s p => create self context n u s p correlation ;; mret tt
  | AppendVersion self c u s p => append_version self context c u s p correlation ;; mret tt
  | PromotePending c v e g => promote_pending context c v e g correlation ;; mret tt
  | DisableConnection c => disable context c correlation ;; mret tt
  | EnableConnection c => enable context c correlation ;; mret tt
  | AllocateRefresh c => allocate_refresh_generation context c ;; mret tt
  | CompleteRefresh c v e g => complete_refresh context c v e g ;; mret tt
  | RecordVersion c v e g t p => record_version context c v e g t p correlation ;; mret tt
  | EnableCapability c v => enable_capability context c v correlation ;; mret tt
  | DisableCapability c v => disable_capability context c v correlation ;; mret tt
  | EnqueueRefresh c => enqueue context c ;; mret tt
  | ClaimRefresh j w d => claim context j w d ;; mret tt
  | RenewRefresh l d => renew context l d ;; mret tt
  | ValidateForContact l => validate_for_contact context l
  | PublishSuccess l r => publish_success context l r ;; mret tt
  | PublishFailure l c => publish_failure context l c
  end.

(** One transaction of the registry services in workspace [w]. *)
Definition registry_step (w : uuid) (d d' : Db.t) : Prop :=
  ∃ context o correlation env, WorkspaceContext.workspace_id context = w
    ∧ d' = (transaction (perform_registry context o correlation) env d).2.

(** Any number of them, in any workspaces. *)
Definition registry_history : Db.t → Db.t → Prop := rtc (λ d d', ∃ w, registry_step w d d').

(** ** Every transaction advances the registry *)

Lemma transaction_moving w {A} (m : M A) env d :
  Preserves (moving w (Db.registry d)) m →
  advances w (Db.registry d) (Db.registry (transaction m env d).2).
Proof.
  intros Hm. unfold transaction.
  assert (Preserves (moving w (Db.registry d)) (a ← m; flush;; mret a)) as Hm'.
  { apply preserves_bind; [done|intros a]. apply preserves_bind; [apply _|intros _; apply _]. }
  destruct ((a ← m; flush;; mret a) env (mkSession d d false 0 0)) as [[a s]|e] eqn:E; [|done].
  assert (moving w (Db.registry d) s) as Hs.
  { eapply Hm'; [|exact E]. intros _. done. }
  assert (conflict s = false) as Hc.
  { revert E. unfold mbind, M_bind. destruct (m env _) as [[a1 s1]|]; [|done].
    unfold flush. destruct (conflict s1) eqn:Hc; [done|].
    destruct (listeners_accept _ _), (schema_checks _); cbn; intros [=]; by subst. }
  destruct (Hs Hc) as [H1 H2]. cbn. by etrans.
Qed.

#[global] Instance moving_perform context d0 o correlation :
  Preserves (moving (WorkspaceContext.workspace_id context) d0) (perform_registry context o correlation).
Proof. destruct o; cbn [perform_registry]; solve_moving. Qed.

Lemma registry_step_advances w d d' :
  registry_step w d d' → advances w (Db.registry d) (Db.registry d').
Proof. intros (context & o & correlation & env & <- & ->). by apply transaction_moving, moving_perform. Qed.

(** ** Counters and what they guard *)

(** What a history does to one row. *)
Lemma history_row {T} (table : RegistryDb.t → gmap uuid T) (workspace : T → uuid) (R : T → T → Prop) `{!PreOrder R} d d' k r :
  (∀ w d d', advances w d d' → rows_advance w workspace R (table d) (table d')) →
  registry_history d d' → table (Db.registry d) !! k = Some r →
  ∃ r', table (Db.registry d') !! k = Some r' ∧ R r r'.
Proof.
  intros Htable Hh Hr. induction Hh as [d|d d1 d' [w Hs%registry_step_advances] _ IH] in r, Hr |- *; [by exists r|].
  apply Htable in Hs as [K _]. destruct (K k r Hr) as (r1 & Hr1 & HR & _).
  destruct (IH r1 Hr1) as (r' & ? & ?). exists r'. split; [done|by etrans].
Qed.

Lemma history_connection d d' k c :
  registry_history d d' → server_connections d !! k = Some c →
  ∃ c', server_connections d' !! k = Some c' ∧ connection_advances c c'.
Proof. apply (history_row RegistryDb.server_connections ServerConnection.workspace_id connection_advances). by intros w e e' []. Qed.
Lemma history_capability d d' k c :
  registry_history d d' → capabilities d !! k = Some c →
  ∃ c', capabilities d' !! k = Some c' ∧ capability_advances c c'.
Proof. apply (history_row RegistryDb.capabilities Capability.workspace_id capability_advances). by intros w e e' []. Qed.
Lemma history_job d d' k j :
  registry_history d d' → discovery_refresh_jobs d !! k = Some j →
  ∃ j', discovery_refresh_jobs d' !! k = Some j' ∧ refresh_advances j j'.
Proof. apply (history_row RegistryDb.discovery_refresh_jobs DiscoveryRefreshJob.workspace_id refresh_advances). by intros w e e' []. Qed.

(** C18. The epochs of the registry are reliable fences.  Whatever transactions
    ran in between: a capability whose status epoch is the same is the same row;
    a connection whose control epoch is the same has the same target version and
    is disabled or not as before; and versions and tool bindings never change. *)
Theorem epochs_are_fences d d' :
  registry_history d d' →
  (∀ k c c', capabilities d !! k = Some c → capabilities d' !! k = Some c' →
     Capability.status_epoch c ≤ Capability.status_epoch c'
     ∧ (Capability.status_epoch c' = Capability.status_epoch c → c' = c))
  ∧ (∀ k c c', server_connections d !! k = Some c → server_connections d' !! k = Some c' →
     ServerConnection.control_epoch c ≤ ServerConnection.control_epoch c'
     ∧ (ServerConnection.control_epoch c' = ServerConnection.control_epoch c →
        current_target c' = current_target c
        ∧ (ServerConnection.lifecycle c' = ConnectionLifecycle.DISABLED
           ↔ ServerConnection.lifecycle c = ConnectionLifecycle.DISABLED)))
  ∧ (∀ k v, capability_versions d !! k = Some v → capability_versions d' !! k = Some v)
  ∧ (∀ k b, mcp_tool_bindings d !! k = Some b → mcp_tool_bindings d' !! k = Some b).
Proof.
  intros Hh. split_and!.
  - intros k c c' Hc Hc'. destruct (history_capability _ _ _ _ Hh Hc) as (c1 & Hc1 & []). by simplify_eq.
  - intros k c c' Hc Hc'. destruct (history_connection _ _ _ _ Hh Hc) as (c1 & Hc1 & []). by simplify_eq.
  - intros k v Hv. destruct (history_row RegistryDb.capability_versions CapabilityVersion.workspace_id eq d d' k v)
      as (v' & ? & ->); try done. by intros w e e' [].
  - intros k v Hv. destruct (history_row RegistryDb.mcp_tool_bindings McpToolBinding.workspace_id eq d d' k v)
      as (v' & ? & ->); try done. by intros w e e' [].
Qed.

(** The rows of the workspaces other than [w] are the same. *)
Definition same_elsewhere (w : uuid) {T} (workspace : T → uuid) (m m' : gmap uuid T) : Prop :=
  ∀ k r, workspace r ≠ w → (m' !! k = Some r ↔ m !! k = Some r).

Lemma rows_advance_elsewhere w {T} (workspace : T → uuid) (R : T → T → Prop) m m' :
  (∀ r r', R r r' → workspace r' = workspace r) →
  rows_advance w workspace R m m' → same_elsewhere w workspace m m'.
Proof.
  intros Hws [K N] k r Hw. split; intros Hr.
  - destruct (m !! k) as [r0|] eqn:Hr0; [|by apply (N k r Hr) in Hr0].
    destruct (K k r0 Hr0) as (r' & Hr' & HR & Hsame). simplify_eq. rewrite Hsame; [done|].
    by rewrite <- (Hws _ _ HR).
  - destruct (K k r Hr) as (r' & -> & _ & Hsame). by rewrite Hsame.
Qed.

(** C17. Workspaces are isolated: a transaction in the context of one workspace
    leaves every connection, capability, version, binding, snapshot, payload and
    refresh job of the others as it was, and adds none to them. *)
Theorem workspaces_isolated w d d' :
  registry_step w d d' →
  same_elsewhere w ServerConnection.workspace_id (server_connections d) (server_connections d')
  ∧ same_elsewhere w ServerConnectionVersion.workspace_id
      (server_connection_versions d) (server_connection_versions d')
  ∧ same_elsewhere w Capability.workspace_id (capabilities d) (capabilities d')
  ∧ same_elsewhere w CapabilityVersion.workspace_id (capability_versions d) (capability_versions d')
  ∧ same_elsewhere w McpToolBinding.workspace_id (mcp_tool_bindings d) (mcp_tool_bindings d')
  ∧ same_elsewhere w DiscoveryPayload.workspace_id (discovery_payloads d) (discovery_payloads d')
  ∧ same_elsewhere w DiscoverySnapshot.workspace_id (discovery_snapshots d) (discovery_snapshots d')
  ∧ same_elsewhere w DiscoveryRefreshJob.workspace_id (discovery_refresh_jobs d) (discovery_refresh_jobs d').
Proof.
  intros [C V P Q B E Y N X J]%registry_step_advances.
  split_and!; (eapply rows_advance_elsewhere; [|eassumption]); try (by intros ?? <-).
  - apply ca_workspace.
  - apply pa_workspace.
  - apply refresh_advances_workspace.
Qed.

(** ** Stale refresh leases *)

(** A lease is spent when its job was settled or claimed again, or when its
    connection moved on to another epoch or generation. *)
Definition spent (d : Db.t) lease : Prop :=
  (∃ j, discovery_refresh_jobs d !! RefreshLease.job_id lease = Some j
        ∧ (settled j ∨ RefreshLease.lease_epoch lease < DiscoveryRefreshJob.lease_epoch j))
  ∨ (∃ c, server_connections d !! RefreshLease.connection_id lease = Some c
        ∧ (RefreshLease.control_epoch lease < ServerConnection.control_epoch c
           ∨ RefreshLease.generation lease < ServerConnection.refresh_generation c)).

Lemma spent_history d d' lease : registry_history d d' → spent d lease → spent d' lease.
Proof.
  intros Hh [(j & Hj & Hs)|(c & Hc & Hs)].
  - destruct (history_job _ _ _ _ Hh Hj) as (j' & Hj' & [P E S Q L]). left. exists j'. split; [done|].
    destruct Hs as [Hs|Hs]; [left; by rewrite (S Hs)|right; lia].
  - destruct (history_connection _ _ _ _ Hh Hc) as (c' & Hc' & [I W N E G T A]). right. exists c'.
    split; [done|]. lia.
Qed.

(** A program that returns only from databases that satisfy [Q]. *)
Definition requires {A} (Q : Db.t → Prop) (m : M A) : Prop := ∀ env s a s',
  m env s = Ok (a, s') → Q (flushed s).

(** Programs that do not flush. *)
Class Unflushed {A} (m : M A) : Prop := unflushed : ∀ env s a s',
  m env s = Ok (a, s') → flushed s' = flushed s.

Lemma requires_later {A B} Q (m : M A) (k : A → M B) :
  Unflushed m → (∀ a, requires Q (k a)) → requires Q (m ≫= k).
Proof.
  intros Hm Hk env s b s'. unfold mbind, M_bind. destruct (m env s) as [[a s1]|] eqn:E; [|done].
  intros E'. rewrite <- (Hm _ _ _ _ E). by eapply Hk.
Qed.

Lemma requires_here {A B} Q (m : M A) (k : A → M B) : requires Q m → requires Q (m ≫= k).
Proof.
  intros Hm env s b s'. unfold mbind, M_bind. destruct (m env s) as [[a s1]|] eqn:E; [|done].
  intros _. by eapply Hm.
Qed.

Lemma requires_raise {A} Q e : requires Q (raise (A := A) e).
Proof. by intros env s a s' [=]. Qed.

Lemma unflushed_bind {A B} (m : M A) (k : A → M B) :
  Unflushed m → (∀ a, Unflushed (k a)) → Unflushed (m ≫= k).
Proof.
  intros Hm Hk env s b s'. unfold mbind, M_bind. destruct (m env s) as [[a s1]|] eqn:E; [|done].
  intros E'. rewrite (Hk a _ _ _ _ E'). by eapply Hm.
Qed.
#[global] Instance unflushed_read_only {A} (m : M A) : ReadOnly m → Unflushed m | 20.
Proof. intros Hm env s a s' E. destruct (Hm env s) as [b Hb]. rewrite Hb in E. by simplify_eq. Qed.
#[global] Instance unflushed_raise {A} e : Unflushed (raise (A := A) e).
Proof. by intros env s a s' [=]. Qed.
#[global] Instance unflushed_raise_if b e : Unflushed (raise_if b e).
Proof. destruct b; apply _. Qed.
#[global] Instance unflushed_durable_now : Unflushed durable_now.
Proof. by intros env s a s' [= <- <-]. Qed.
#[global] Instance unflushed_put_registry f : Unflushed (put_registry f).
Proof. by intros env s a s' [= <- <-]. Qed.
#[global] Instance unflushed_put_identity f : Unflushed (put_identity f).
Proof. by intros env s a s' [= <- <-]. Qed.
Ltac unflushed_step :=
  lazymatch goal with
  | |- ∀ _, _ => intros
  | |- Unflushed (_ ≫= _) => apply unflushed_bind
  | |- Unflushed (match ?x with _ => _ end) => destruct x
  | |- Unflushed _ => apply _
  end.
#[global] Instance unflushed_require_current_role c r b : Unflushed (require_current_role c r b).
Proof.
  unfold require_current_role, require_role, select_workspace, select_membership, populate_membership.
  repeat unflushed_step.
Qed.
#[global] Instance unflushed_lift {A} (m : result exn A) : Unflushed (lift m).
Proof. intros env s a s'. unfold lift. destruct m; [by intros [= <- <-]|done]. Qed.
#[global] Instance unflushed_scoped_secret c o : Unflushed (_require_scoped_secret c o).
Proof. unfold _require_scoped_secret, get_secret_binding. repeat unflushed_step. Qed.
#[global] Instance unflushed_locked_job context lease b : Unflushed (_locked_job_for_lease context lease b).
Proof. unfold _locked_job_for_lease, fetch_refresh_job, update_refresh_job, lease_rejected. repeat unflushed_step. Qed.

(** What the two lease fences require. *)
Definition job_current context lease (d : Db.t) : Prop := ∃ j,
  discovery_refresh_jobs d !! RefreshLease.job_id lease = Some j ∧ lease_current context lease j = true.
Definition connection_eligible context lease (d : Db.t) : Prop := ∃ c,
  server_connections d !! RefreshLease.connection_id lease = Some c
  ∧ ServerConnection.workspace_id c = WorkspaceContext.workspace_id context
  ∧ eligible (RefreshLease.connection_version_id lease) (RefreshLease.control_epoch lease)
      (RefreshLease.generation lease) c = true.

Lemma locked_job_requires context lease b : requires (job_current context lease) (_locked_job_for_lease context lease b).
Proof.
  unfold _locked_job_for_lease. apply requires_later; [destruct b; apply _|]. intros now.
  intros env s a s'. unfold fetch_refresh_job, gets, mbind, M_bind. cbn -[lease_current].
  destruct (discovery_refresh_jobs (flushed s) !! _) as [j|] eqn:Hj; [|done].
  destruct (lease_current context lease j) eqn:Hl; cbn; [|done]. intros _. by exists j.
Qed.

Lemma lock_lease_requires context lease : requires (connection_eligible context lease) (lock_lease_connection context lease).
Proof.
  intros env s a s'. unfold lock_lease_connection, _lock_eligible_connection, fetch_connection, gets, mbind, M_bind.
  cbn -[eligible].
  destruct (RegistryDb.server_connections (flushed_registry s) !! _) as [c|] eqn:Hc; [|done].
  destruct (eqv (ServerConnection.workspace_id c) _) eqn:Hw; [|done]. cbn -[eligible].
  destruct (eligible (RefreshLease.connection_version_id lease) (RefreshLease.control_epoch lease)
    (RefreshLease.generation lease) c) eqn:He; [|done].
  intros _. exists c. split_and!; [done|by apply eqv_eq|done].
Qed.

Lemma not_spent context lease d :
  job_current context lease d → connection_eligible context lease d → ¬ spent d lease.
Proof.
  intros (j & Hj & Hl) (c & Hc & _ & He) [(j' & Hj' & Hs)|(c' & Hc' & Hs)]; simplify_eq.
  - unfold lease_current in Hl. breflect. destruct Hs as [[_ Hs]|Hs]; [done|lia].
  - unfold eligible, allocation_matches in He. breflect. lia.
Qed.

(** The operations that act on a lease. *)
Definition uses_lease lease (o : registry_operation) : Prop :=
  match o with
  | RenewRefresh l _ | ValidateForContact l | PublishSuccess l _ | PublishFailure l _ => l = lease
  | _ => False
  end.

Lemma uses_lease_requires context lease o correlation :
  uses_lease lease o →
  requires (λ d, job_current context lease d ∧ connection_eligible context lease d)
    (perform_registry context o correlation).
Proof.
  intros Hu. assert (requires (job_current context lease) (perform_registry context o correlation)
    ∧ requires (connection_eligible context lease) (perform_registry context o correlation)) as [H1 H2].
  { destruct o; cbn in Hu; try done; subst; cbn [perform_registry];
      unfold renew, validate_for_contact, publish_success, publish_failure, _locked_active_job; split;
      repeat first [apply requires_here; solve [apply locked_job_requires|apply lock_lease_requires]
                   |apply requires_later; [apply _|intros ?]
                   |apply requires_here
                   |case_match; [|apply requires_raise]]. }
  intros env s a s' E. split; [by eapply H1|by eapply H2].
Qed.

(** C12. A spent refresh lease stays powerless.  Once its job was settled or
    claimed again, or its connection moved to another control epoch or refresh
    generation, no later attempt to renew it, to contact the server under it, or
    to publish a result with it succeeds, whatever happens in between. *)
Theorem spent_lease_powerless d d' lease context o correlation env :
  spent d lease → registry_history d d' → uses_lease lease o →
  ∃ e, transaction (perform_registry context o correlation) env d' = (Err e, d').
Proof.
  intros Hs Hh Hu. apply (spent_history _ _ _ Hh) in Hs.
  pose proof (uses_lease_requires context lease o correlation Hu) as Hr.
  unfold transaction, mbind, M_bind.
  destruct (perform_registry context o correlation env (mkSession d' d' false 0 0)) as [[a s]|e] eqn:E; [|by exists e].
  destruct (Hr _ _ _ _ E) as [Hj Hc]. by destruct (not_spent _ _ _ Hj Hc).
Qed.

(** ** What spends a lease *)

(** The row of a refresh job or connection after a commit. *)
Lemma commit_row {R A} (table : RegistryDb.t → gmap uuid R) (m : M A) env d a d' id r :
  transaction m env d = (Ok a, d') →
  (∀ s, m env (mkSession d d false 0 0) = Ok (a, s) → row_is table id r s) →
  table (Db.registry d') !! id = Some r.
Proof. intros (s & E & Hc & ->)%commit_ok Hm. by apply (Hm s E). Qed.

Lemma update_refresh_job_row id f j :
  Post (row_is RegistryDb.discovery_refresh_jobs id j) (update_refresh_job id f)
    (row_is RegistryDb.discovery_refresh_jobs id (f j)).
Proof.
  intros env s u s' Hj [= <- <-] Hc. unfold reg_work. cbn. rewrite lookup_alter_eq.
  unfold row_is, reg_work in Hj. by rewrite (Hj Hc).
Qed.
Lemma update_connection_row id f c :
  Post (row_is RegistryDb.server_connections id c) (update_connection id f)
    (row_is RegistryDb.server_connections id (f c)).
Proof.
  intros env s u s' Hj [= <- <-] Hc. unfold reg_work. cbn. rewrite lookup_alter_eq.
  unfold row_is, reg_work in Hj. by rewrite (Hj Hc).
Qed.

Lemma held_row {R} (table : RegistryDb.t → gmap uuid R) id r s : held table id r s → row_is table id r s.
Proof. intros Hh Hc. by destruct (Hh Hc). Qed.

Lemma fetch_job_post w d0 id P env s j s' :
  moving w d0 s → fetch_refresh_job id P env s = Ok (Some j, s') →
  discovery_refresh_jobs (flushed s) !! id = Some j ∧ P j = true ∧ job_held id j s'.
Proof.
  intros Hm. unfold fetch_refresh_job, gets, mbind, M_bind. cbn.
  destruct (discovery_refresh_jobs (flushed s) !! id) as [j0|] eqn:Hj; [|done].
  destruct (P j0) eqn:HP; cbn; [|done]. intros [= <- <-]. split_and!; [done..|]. intros Hc.
  destruct (Hm Hc) as [_ Ha]. destruct (ad_jobs _ _ _ Ha) as [K _]. destruct (K _ _ Hj) as (j1 & Hj1 & _).
  split; [done|]. unfold reg_work in *. cbn. by rewrite lookup_alter_eq, Hj1.
Qed.

Lemma locked_job_post context lease b d0 :
  ∀ env s j s', moving (WorkspaceContext.workspace_id context) d0 s →
  _locked_job_for_lease context lease b env s = Ok (j, s') →
  job_held (RefreshLease.job_id lease) j s'.
Proof.
  intros env s j s' Hm (now & s1 & En & ([j0|] & s2 & E2 & [= <- <-])%bind_ok)%bind_ok.
  eapply fetch_job_post; [|exact E2]. revert En.
  destruct b; intros En; (refine (post_preserves _ _ _ _ _ _ _ Hm En); apply _).
Qed.

(** A program that locks the job of a lease and goes on to [k]. *)
Lemma after_job_lock context lease {A} (m : M A) {B} (k : DiscoveryRefreshJob.t → M B) Q env d a s :
  (∀ d0, Preserves (moving (WorkspaceContext.workspace_id context) d0) m) →
  (∀ j, Post (job_held (RefreshLease.job_id lease) j) (k j) Q) →
  (m ;; _locked_job_for_lease context lease true ≫= k) env (mkSession d d false 0 0) = Ok (a, s) → Q s.
Proof.
  intros Hm Hk (x & s1 & E1 & (j & s2 & E2 & E)%bind_ok)%bind_ok.
  eapply Hk; [|exact E]. eapply locked_job_post; [|exact E2].
  eapply (Hm (Db.registry d)); [|exact E1]. by intros _.
Qed.

(** The last writes of a publication. *)
Lemma settle_post id j status {A} (k : unit → M A) :
  (∀ u, Preserves (row_is RegistryDb.discovery_refresh_jobs id (settle status j)) (k u)) →
  Post (job_held id j) (update_refresh_job id (settle status) ≫= k)
    (row_is RegistryDb.discovery_refresh_jobs id (settle status j)).
Proof.
  intros Hk. eapply post_then; [intros env s u s' Hs; apply update_refresh_job_row; by apply held_row|].
  intros u. by apply post_preserves.
Qed.

(** C26. Publication ends a lease: after a committed success or failure the job of
    the lease is settled, so by the previous theorem the lease is powerless from
    then on. *)
Theorem publication_spends_lease context lease env d d' :
  (∃ result a, transaction (publish_success context lease result) env d = (Ok a, d'))
  ∨ (∃ code a, transaction (publish_failure context lease code) env d = (Ok a, d')) →
  spent d' lease.
Proof.
  intros Hpub. left.
  set (done_with status s := ∃ j, row_is RegistryDb.discovery_refresh_jobs (RefreshLease.job_id lease)
         (settle status j) s).
  assert (∃ status s, status ≠ RefreshJobStatus.QUEUED ∧ status ≠ RefreshJobStatus.LEASED ∧
    conflict s = false ∧ d' = work s ∧ done_with status s) as (st & s & Hq & Hl & Hc & -> & j & Hj);
    [|exists (settle st j); split; [by apply Hj|by left]].
  destruct Hpub as [(result & a & (s & E & Hc & ->)%commit_ok)|(code & a & (s & E & Hc & ->)%commit_ok)].
  - exists RefreshJobStatus.SUCCEEDED, s. split_and!; [done..|].
    unfold publish_success, publish_failure, _locked_active_job in E.
    eapply after_job_lock; [..|exact E]; [intros; apply _|]. intros j. cbv beta zeta.
    eapply post_weaken; [|by intros s' Hs'; exists j].
    do 8 (apply post_bind; [solve [untouched]|intros ?]).
    apply post_bind; [destruct (is_some _); apply _|intros ?].
    do 2 (apply post_bind; [solve [untouched]|intros ?]). apply settle_post. intros _. untouched.
  - exists RefreshJobStatus.FAILED, s. split_and!; [done..|].
    unfold publish_success, publish_failure, _locked_active_job in E.
    eapply after_job_lock; [..|exact E]; [intros; apply _|]. intros j. cbv beta zeta.
    eapply post_weaken; [|by intros s' Hs'; exists j].
    do 3 (apply post_bind; [solve [untouched]|intros ?]).
    apply settle_post. intros _. apply _.
Qed.

(** *** A new control epoch *)

Lemma unflushed_start d {A} (m : M A) : Unflushed m → Preserves (λ s, flushed s = d) m.
Proof. intros Hm env s a s' Hs E. by rewrite (Hm _ _ _ _ E). Qed.

Lemma post_locked_connection context id d {B} (k : ServerConnection.t → M B) Q :
  (∀ c, server_connections d !! id = Some c → Post (connection_held id c) (k c) Q) →
  Post (λ s, flushed s = d) (_locked_connection context id ≫= k) Q.
Proof.
  intros Hk env s b s' <- E. revert E.
  unfold _locked_connection, fetch_connection, gets, mbind, M_bind. cbn.
  destruct (RegistryDb.server_connections (flushed_registry s) !! id) as [c|] eqn:Hc; [|done].
  destruct (eqv _ _); cbn; [|done]. intros E. eapply Hk; [exact Hc| |exact E].
  intros _. unfold reg_work. cbn. split; [done|apply lookup_insert_eq].
Qed.

(** The connection's row after a program that updates it once. *)
Lemma update_connection_post id c f {A} (k : unit → M A) :
  (∀ u, Preserves (row_is RegistryDb.server_connections id (f c)) (k u)) →
  Post (connection_held id c) (update_connection id f ≫= k) (row_is RegistryDb.server_connections id (f c)).
Proof.
  intros Hk. eapply post_then; [intros env s u s' Hs; apply update_connection_row; by apply held_row|].
  intros u. by apply post_preserves.
Qed.

#[global] Instance row_is_obsolete id r context i :
  Preserves (row_is RegistryDb.server_connections id r) (_obsolete_refresh_jobs context i).
Proof. unfold _obsolete_refresh_jobs, update_refresh_job. untouched. Qed.

(** The operations that start a new control epoch of a connection. *)
Definition changes_control (id : uuid) (o : registry_operation) : Prop :=
  match o with
  | AppendVersion _ i _ _ _ | DisableConnection i | EnableConnection i => i = id
  | _ => False
  end.

(** The connection [id] of [d] is in its next control epoch. *)
Definition next_epoch (d : Db.t) (id : uuid) (s : Session) : Prop := ∃ c c',
  server_connections d !! id = Some c ∧ row_is RegistryDb.server_connections id c' s
  ∧ ServerConnection.control_epoch c' = ServerConnection.control_epoch c + 1.

Lemma next_epoch_post d id c f {A} (k : unit → M A) :
  server_connections d !! id = Some c →
  ServerConnection.control_epoch (f c) = ServerConnection.control_epoch c + 1 →
  (∀ u, Preserves (row_is RegistryDb.server_connections id (f c)) (k u)) →
  Post (connection_held id c) (update_connection id f ≫= k) (next_epoch d id).
Proof.
  intros Hc Hf Hk. eapply post_weaken; [by apply update_connection_post|]. intros s Hs. by exists c, (f c).
Qed.

Lemma control_change_post context id o correlation d :
  changes_control id o → Post (λ s, flushed s = d) (perform_registry context o correlation) (next_epoch d id).
Proof.
  intros Ho.
  assert (∀ {A} (m : M A), Post (λ s, flushed s = d) m (next_epoch d id) →
    Post (λ s, flushed s = d) (m ;; mret tt) (next_epoch d id)) as Hret.
  { intros A m Hm. eapply post_then; [exact Hm|]. intros a. by intros env s u s' Hs [= <- <-]. }
  destruct o; cbn in Ho; try done; subst; cbn [perform_registry]; apply Hret;
    unfold append_version, disable, enable;
    repeat first [apply post_locked_connection; intros c Hc|apply post_bind; [solve [apply unflushed_start; apply _]|intros ?]];
    repeat (apply post_bind; [solve [untouched]|intros ?]);
    (apply next_epoch_post; [done|done|intros ?; untouched]).
Qed.

(** *** Claims *)

(** The lease that a claim returns is a new one of its job. *)
Lemma claim_post context job worker duration env d lease s :
  claim context job worker duration env (mkSession d d false 0 0) = Ok (lease, s) →
  ∃ j j', discovery_refresh_jobs d !! job = Some j
    ∧ row_is RegistryDb.discovery_refresh_jobs job j' s
    ∧ RefreshLease.job_id lease = job
    ∧ RefreshLease.lease_epoch lease = DiscoveryRefreshJob.lease_epoch j + 1
    ∧ DiscoveryRefreshJob.lease_epoch j' = RefreshLease.lease_epoch lease.
Proof.
  unfold claim. intros (m & s1 & E1 & (u & s2 & E2 & ([j|] & s3 & E3 & E)%bind_ok)%bind_ok)%bind_ok; [|done].
  assert (moving (WorkspaceContext.workspace_id context) (Db.registry d) s2 ∧ flushed s2 = d) as [Hm Hf].
  { split.
    - refine (post_preserves _ _ _ _ _ _ _ _ E2).
      refine (post_preserves _ _ _ _ _ _ _ _ E1). by intros _.
    - rewrite (unflushed _ _ _ _ E2). by rewrite (unflushed _ _ _ _ E1). }
  eapply fetch_job_post in E3 as (Hj & _ & Hh); [|exact Hm]. rewrite Hf in Hj.
  apply bind_ok in E as (now & s4 & E4 & (u' & s5 & E5 & (c & s6 & E6 & (u7 & s7 & E7 & E)%bind_ok)%bind_ok)%bind_ok).
  assert (job_held job j s6) as Hh6.
  { refine (post_preserves _ _ _ _ _ _ _ _ E6).
    refine (post_preserves _ _ _ _ _ _ _ _ E5).
    by refine (post_preserves _ _ _ _ _ _ _ _ E4). }
  apply (update_refresh_job_row _ _ j) in E7; [|by apply held_row].
  apply bind_ok in E as (u8 & s8 & E8 & [= <- <-]).
  exists j. eexists. split_and!; [exact Hj|exact (post_preserves _ _ _ _ _ _ _ E7 E8)|done..].
Qed.

(** C27. New claims and new control epochs spend the leases before them: after a
    committed claim every lease of the job with a smaller epoch is spent, and
    after a version was appended to a connection, or it was disabled or enabled,
    every lease that was allocated for it is. *)
Theorem superseded_leases_spent context env d d' :
  (∀ job worker duration lease lease',
     transaction (claim context job worker duration) env d = (Ok lease, d') →
     RefreshLease.job_id lease' = job →
     RefreshLease.lease_epoch lease' < RefreshLease.lease_epoch lease → spent d' lease')
  ∧ (∀ connection o correlation lease' c,
     transaction (perform_registry context o correlation) env d = (Ok tt, d') →
     changes_control connection o → RefreshLease.connection_id lease' = connection →
     server_connections d !! connection = Some c →
     RefreshLease.control_epoch lease' ≤ ServerConnection.control_epoch c → spent d' lease').
Proof.
  split.
  - intros job worker duration lease lease' (s & E & Hc & ->)%commit_ok Hjob Hlt.
    apply claim_post in E as (j & j' & _ & Hj' & _ & _ & He). left. exists j'. subst job.
    split; [by apply Hj'|right; lia].
  - intros connection o correlation lease' c (s & E & Hc & ->)%commit_ok Ho Hid Hrow Hle.
    apply (control_change_post _ connection _ _ d) in E as (c0 & c' & Hc0 & Hc' & He); [|done|done].
    right. exists c'. subst connection. simplify_eq. split; [by apply Hc'|left; lia].
Qed.
End registry.
