(* ===== verification/RefreshInv.v ===== *)
(** Every refresh job belongs to a connection of its workspace, and a connection
    has at most one job that is queued or leased. *)
From S2P Require Import Prelude Types Json PyStr Secrets Screening Store Session Registry Identity Endpoint Connection.
From S2P Require Import Capabilities Discovery Hoare Triple RegistryWp RegistrySafety.
Local Open Scope Z_scope.

Record refresh_inv (d : RegistryDb.t) : Prop := {
  rf_connection : ∀ k j, RegistryDb.discovery_refresh_jobs d !! k = Some j →
    ∃ c, RegistryDb.server_connections d !! DiscoveryRefreshJob.connection_id j = Some c
         ∧ ServerConnection.workspace_id c = DiscoveryRefreshJob.workspace_id j;
  rf_one : ∀ k k' j j', RegistryDb.discovery_refresh_jobs d !! k = Some j →
    RegistryDb.discovery_refresh_jobs d !! k' = Some j' →
    DiscoveryRefreshJob.connection_id j = DiscoveryRefreshJob.connection_id j' →
    ¬ settled j → ¬ settled j' → k = k' }.

(** No refresh job beyond [J]. *)
Definition jobs_within (J : gset uuid) (s : Session) : Prop :=
  conflict s = false →
  dom (RegistryDb.discovery_refresh_jobs (reg_flushed s)) ⊆ J
  ∧ dom (RegistryDb.discovery_refresh_jobs (reg_work s)) ⊆ J.

#[global] Instance jobs_within_inv J : RegInv (jobs_within J).
Proof.
  split.
  - intros s s' Hw Hf Hc Hs Hs'. unfold jobs_within in Hs. rewrite Hw, Hf. apply Hs. by eapply unflagged.
  - intros s Hc Hs _. by destruct (Hs Hc).
Qed.

Lemma jobs_within_put J f :
  (∀ d, dom (RegistryDb.discovery_refresh_jobs (f d)) ⊆ dom (RegistryDb.discovery_refresh_jobs d)) →
  Preserves (jobs_within J) (put_registry f).
Proof.
  intros Hf. apply preserves_put. intros s Hs Hc. destruct (Hs Hc) as [H1 H2]. split; [done|].
  unfold reg_work in *. cbn. specialize (Hf (Db.registry (work s))). by etrans.
Qed.

#[global] Instance jobs_within_update J id f : Preserves (jobs_within J) (update_refresh_job id f).
Proof. apply jobs_within_put. intros d. cbn. by rewrite dom_alter_L. Qed.
#[global] Instance jobs_within_fetch J id P : Preserves (jobs_within J) (fetch_refresh_job id P).
Proof.
  unfold fetch_refresh_job. apply preserves_bind; [apply _|intros [j|]; [|apply _]].
  destruct (P j); [|apply _]. apply preserves_bind; [apply _|intros ?; apply _].
Qed.

(** Programs that create no refresh job. *)
Ltac no_job_step :=
  lazymatch goal with
  | |- ∀ _, _ => intros
  | |- Preserves _ (let _ := _ in _) => cbv zeta
  | |- Preserves _ (put_registry _) => apply jobs_within_put; intros; reflexivity
  | |- Preserves _ (for_each _ _) => apply preserves_for_each
  | |- Preserves _ (_ ≫= _) => apply preserves_bind; [|intros ?]
  | |- Preserves _ (match ?x with _ => _ end) => destruct x
  | |- Preserves _ _ => apply _
  end.
Ltac no_job := repeat no_job_step.

Section instances.
Context `{Urls} `{Patterns} (J : gset uuid) (context : WorkspaceContext.t).
Ltac writes := unfold fetch_connection, fetch_capability, update_connection, update_capability, add_connection,
  add_connection_version, add_capability, add_capability_version, add_tool_binding, add_status_event,
  add_payload, add_snapshot, add_snapshot_capability; no_job.

#[global] Instance jobs_within_fetch_connection id P : Preserves (jobs_within J) (fetch_connection id P).
Proof. writes. Qed.
#[global] Instance jobs_within_update_connection id f : Preserves (jobs_within J) (update_connection id f).
Proof. writes. Qed.
#[global] Instance jobs_within_update_capability id f : Preserves (jobs_within J) (update_capability id f).
Proof. writes. Qed.
#[global] Instance jobs_within_fetch_capability id P : Preserves (jobs_within J) (fetch_capability id P).
Proof. writes. Qed.
#[global] Instance jobs_within_status_event id v : Preserves (jobs_within J) (_append_status_event context id v).
Proof. unfold _append_status_event. writes. Qed.
#[global] Instance jobs_within_locked id : Preserves (jobs_within J) (_locked_connection context id).
Proof. unfold _locked_connection. no_job. Qed.
#[global] Instance jobs_within_locked_capability id : Preserves (jobs_within J) (_locked_capability context id).
Proof. unfold _locked_capability. no_job. Qed.
#[global] Instance jobs_within_obsolete id : Preserves (jobs_within J) (_obsolete_refresh_jobs context id).
Proof. unfold _obsolete_refresh_jobs. no_job. Qed.
#[global] Instance jobs_within_allocate id : Preserves (jobs_within J) (allocate_refresh_generation context id).
Proof. unfold allocate_refresh_generation, transition_rejected. no_job. Qed.
#[global] Instance jobs_within_promote i v e g o : Preserves (jobs_within J) (promote_pending context i v e g o).
Proof. unfold promote_pending. no_job. Qed.
#[global] Instance jobs_within_complete i v e g : Preserves (jobs_within J) (complete_refresh context i v e g).
Proof. unfold complete_refresh. no_job. Qed.
#[global] Instance jobs_within_store_version a b c t p n v o :
  Preserves (jobs_within J) (store_version context a b c t p n v o).
Proof. unfold store_version. writes. Qed.
#[global] Instance jobs_within_record a b e g t p o : Preserves (jobs_within J) (record_version context a b e g t p o).
Proof. unfold record_version, add_capability. no_job. Qed.
#[global] Instance jobs_within_lock_eligible i v e g :
  Preserves (jobs_within J) (_lock_eligible_connection context i v e g).
Proof. unfold _lock_eligible_connection. no_job. Qed.
#[global] Instance jobs_within_lock_lease lease : Preserves (jobs_within J) (lock_lease_connection context lease).
Proof. unfold lock_lease_connection. no_job. Qed.
#[global] Instance jobs_within_locked_job lease b : Preserves (jobs_within J) (_locked_job_for_lease context lease b).
Proof. unfold _locked_job_for_lease, lease_rejected. no_job. Qed.
#[global] Instance jobs_within_mark i l : Preserves (jobs_within J) (_mark_missing_unavailable context i l).
Proof. unfold _mark_missing_unavailable, mark_unavailable. no_job. Qed.
#[global] Instance jobs_within_payload r : Preserves (jobs_within J) (store_payload context r).
Proof. unfold store_payload, add_payload. no_job. Qed.
#[global] Instance jobs_within_tool l n p t : Preserves (jobs_within J) (publish_tool context l n p t).
Proof. unfold publish_tool, add_snapshot_capability. no_job. Qed.

Definition creates_job (o : registry_operation) : Prop :=
  match o with EnqueueRefresh _ => True | _ => False end.

Lemma jobs_within_perform o correlation :
  ¬ creates_job o → Preserves (jobs_within J) (perform_registry context o correlation).
Proof.
  intros Ho. destruct o; cbn [perform_registry]; cbn in Ho; try done;
    unfold create, append_version, disable, enable, enable_capability, disable_capability, claim, renew,
      validate_for_contact, publish_success, publish_failure, _locked_active_job, add_connection,
      add_connection_version, add_snapshot, lease_rejected; no_job.
Qed.
End instances.

#[global] Typeclasses Opaque perform_registry.

(** ** What [enqueue] does to the jobs *)

(** The table of refresh jobs, in both views. *)
Definition jobs_are (m : gmap uuid DiscoveryRefreshJob.t) (s : Session) : Prop :=
  conflict s = false →
  RegistryDb.discovery_refresh_jobs (reg_flushed s) = m ∧ RegistryDb.discovery_refresh_jobs (reg_work s) = m.

#[global] Instance jobs_are_inv m : RegInv (jobs_are m).
Proof.
  split.
  - intros s s' Hw Hf Hc Hs Hs'. unfold jobs_are in Hs. rewrite Hw, Hf. apply Hs. by eapply unflagged.
  - intros s Hc Hs _. by destruct (Hs Hc).
Qed.

Lemma jobs_are_put m f :
  (∀ d, RegistryDb.discovery_refresh_jobs (f d) = RegistryDb.discovery_refresh_jobs d) →
  Preserves (jobs_are m) (put_registry f).
Proof.
  intros Hf. apply preserves_put. intros s Hs Hc. destruct (Hs Hc) as [H1 H2]. split; [done|].
  unfold reg_work in *. cbn. by rewrite Hf.
Qed.

Section enqueue.
Context `{Urls} `{Patterns} (context : WorkspaceContext.t).
Let w := WorkspaceContext.workspace_id context.

#[local] Instance jobs_are_update_connection m id f : Preserves (jobs_are m) (update_connection id f).
Proof. by apply jobs_are_put. Qed.

Lemma allocate_post connection d :
  Post (λ s, flushed s = d ∧ jobs_are (discovery_refresh_jobs d) s ∧ moving w (Db.registry d) s)
    (allocate_refresh_generation context connection)
    (λ s, jobs_are (discovery_refresh_jobs d) s ∧ connection_in w connection s).
Proof.
  unfold allocate_refresh_generation. intros env s a s' (Hf & Hj & Hm) (m & s1 & E1 & (c & s2 & E2 & E)%bind_ok)%bind_ok.
  assert (jobs_are (discovery_refresh_jobs d) s1) as Hj1.
  { refine (post_preserves _ _ _ _ _ _ _ Hj E1). }
  assert (jobs_are (discovery_refresh_jobs d) s2 ∧ connection_in w connection s2) as Hs2.
  { revert E2. unfold _locked_connection, fetch_connection, gets, mbind, M_bind. cbn.
    destruct (RegistryDb.server_connections (flushed_registry s1) !! connection) as [c0|] eqn:Hc; [|done].
    destruct (eqv (ServerConnection.workspace_id c0) _) eqn:Hw; cbn; [|done]. intros [= <- <-]. apply eqv_eq in Hw. split.
    - intros Hc0. destruct (Hj1 Hc0) as [Ha Hb]. split; [exact Ha|exact Hb].
    - intros Hc0. unfold reg_work. cbn. rewrite lookup_insert_eq. by split; exists c0. }
  revert E Hs2. generalize s2. clear. intros s2 E Hs2. revert env s2 a s' Hs2 E.
  apply post_preserves. apply preserves_bind; [apply _|intros _]. case_match; [|apply _].
  repeat first [apply preserves_and|apply preserves_bind; [|intros ?]|case_match|apply _].
Qed.

(** Settling a list of jobs. *)
Lemma settle_each status rows env s u s' :
  for_each rows (λ kj : uuid * DiscoveryRefreshJob.t, update_refresh_job kj.1 (settle status)) env s = Ok (u, s') →
  reg_flushed s' = reg_flushed s ∧ conflict s' = conflict s
  ∧ RegistryDb.server_connections (reg_work s') = RegistryDb.server_connections (reg_work s)
  ∧ ∀ k, RegistryDb.discovery_refresh_jobs (reg_work s') !! k
         = (if decide (k ∈ rows.*1) then settle status <$> RegistryDb.discovery_refresh_jobs (reg_work s) !! k
            else RegistryDb.discovery_refresh_jobs (reg_work s) !! k).
Proof.
  revert s. induction rows as [|[k0 j0] rows IH]; intros s.
  - intros [= <- <-]. split_and!; done.
  - intros (u0 & s1 & [= <- <-] & E)%bind_ok. apply IH in E as (-> & -> & -> & Hk).
    split_and!; [done..|]. intros k. rewrite Hk. unfold reg_work. cbn [fmap list_fmap fst].
    cbn [work Db.registry set_field RegistryDb.discovery_refresh_jobs]. cbn. rewrite lookup_alter.
    destruct (decide (k = k0)) as [->|Hne].
    + rewrite (decide_True (P := k0 = k0)) by done.
      rewrite (decide_True (P := k0 ∈ k0 :: rows.*1)) by left.
      destruct (RegistryDb.discovery_refresh_jobs (Db.registry (work s)) !! k0); by destruct (decide (k0 ∈ rows.*1)).
    + rewrite (decide_False (P := k0 = k)) by done.
      destruct (decide (k ∈ rows.*1)), (decide (k ∈ k0 :: rows.*1)); set_solver.
Qed.

(** [enqueue] settles the outstanding jobs of the connection and adds one. *)
Lemma enqueue_post connection env d job s :
  enqueue context connection env (mkSession d d false 0 0) = Ok (job, s) → conflict s = false →
  let jobs := discovery_refresh_jobs (work s) in
  (∃ j, jobs !! job = Some j ∧ DiscoveryRefreshJob.connection_id j = connection
        ∧ DiscoveryRefreshJob.workspace_id j = w)
  ∧ (∃ c, server_connections (work s) !! connection = Some c ∧ ServerConnection.workspace_id c = w)
  ∧ ∀ k j', k ≠ job → jobs !! k = Some j' → ∃ j, discovery_refresh_jobs d !! k = Some j
      ∧ if outstanding w connection j then j' = settle RefreshJobStatus.OBSOLETE j else j' = j.
Proof.
  unfold enqueue. intros ([[generation epoch] version] & s1 & E1 & E)%bind_ok.
  apply (allocate_post connection d) in E1 as [Hj Hc]; [|split; [done|split; [by intros _|by intros _]]].
  cbv zeta in E. apply bind_ok in E as (rows & s2 & [= <- <-] & (u & s3 & E3 & E)%bind_ok).
  apply settle_each in E3 as (_ & Hc3 & Hs3 & Hk3).
  apply bind_ok in E as (id & s4 & [= <- <-] & (u5 & s5 & E5 & (u6 & s6 & E6 & [= <- <-])%bind_ok)%bind_ok).
  unfold add_refresh_job in E5. apply bind_ok in E5 as (u7 & s7 & [= <- <-] & [= <- <-]).
  unfold flush in E6. cbn [conflict set_field] in E6.
  destruct (conflict s3 || clashes _ _ _) eqn:Hcl; [done|]. apply orb_false_iff in Hcl as [Hc3' Hcl].
  match type of E6 with (if ?b then _ else if ?c then _ else _) = _ => destruct b, c end; try done.
  injection E6 as <- <-. intros _.
  rewrite Hc3' in Hc3. destruct (Hj (eq_sym Hc3)) as [Hjf Hjw]. destruct (Hc (eq_sym Hc3)) as [_ (c & Hrow & Hw)].
  unfold clashes in Hcl. apply orb_false_iff in Hcl as [Hfresh _].
  cbn. split_and!.
  - eexists. by rewrite lookup_insert_eq.
  - exists c. unfold reg_work in Hs3. rewrite Hs3. done.
  - intros k j' Hne. rewrite lookup_insert_ne by done. unfold reg_work in Hk3. rewrite Hk3.
    unfold reg_work in Hjw. rewrite Hjw. unfold reg_flushed in Hjf. fold (discovery_refresh_jobs (flushed s1)) in Hjf.
    rewrite Hjf. case_decide as Hin.
    + apply list_elem_of_fmap in Hin as ([k0 j0] & -> & [Hk0 Ho]%elem_of_where_rows). cbn in Hk0.
      cbn. rewrite Hk0. intros [= <-]. exists j0. fold w in Ho. by rewrite Ho.
    + intros Hk. exists j'. split; [done|]. destruct (outstanding w connection j') eqn:Ho; [|done].
      destruct Hin. apply list_elem_of_fmap. exists (k, j'). split; [done|]. by apply elem_of_where_rows.
Qed.
End enqueue.

(** ** The invariant *)

Section invariant.
Context `{Urls} `{Patterns}.

Lemma outstanding_unsettled w connection j :
  outstanding w connection j = true ↔
    DiscoveryRefreshJob.workspace_id j = w ∧ DiscoveryRefreshJob.connection_id j = connection ∧ ¬ settled j.
Proof.
  unfold outstanding, settled. split.
  - intros Ho. breflect. destruct (DiscoveryRefreshJob.status j); naive_solver.
  - intros (<- & <- & Hu). rewrite !eqv_refl. destruct (DiscoveryRefreshJob.status j); naive_solver.
Qed.

Lemma settle_settled j : settled (settle RefreshJobStatus.OBSOLETE j).
Proof. done. Qed.

(** A transaction that creates no job. *)
Lemma refresh_inv_keeps w d d' :
  advances w d d' →
  dom (RegistryDb.discovery_refresh_jobs d') ⊆ dom (RegistryDb.discovery_refresh_jobs d) →
  refresh_inv d → refresh_inv d'.
Proof.
  intros Had Hdom [Rc R1].
  assert (∀ k j', RegistryDb.discovery_refresh_jobs d' !! k = Some j' →
    ∃ j, RegistryDb.discovery_refresh_jobs d !! k = Some j ∧ refresh_advances j j') as Hold.
  { intros k j' Hj'. assert (is_Some (RegistryDb.discovery_refresh_jobs d !! k)) as [j Hj].
    { apply elem_of_dom, Hdom, elem_of_dom. by exists j'. }
    destruct (ta_kept _ _ _ _ _ (ad_jobs _ _ _ Had) k j Hj) as (j1 & Hj1 & HR & _).
    simplify_eq. exists j. done. }
  split.
  - intros k j' Hj'. destruct (Hold k j' Hj') as (j & Hj & [P E S Q L]).
    destruct (Rc k j Hj) as (c & Hc & Hw).
    destruct (ta_kept _ _ _ _ _ (ad_connections _ _ _ Had) _ c Hc) as (c' & Hc' & HR & _).
    injection P as _ -> _ -> _ _ _. exists c'. split; [done|]. rewrite <- Hw. apply HR.
  - intros k k' j1 j2 H1 H2 Hsame Hu1 Hu2.
    destruct (Hold k j1 H1) as (i1 & Hi1 & [P1 _ S1 _ _]), (Hold k' j2 H2) as (i2 & Hi2 & [P2 _ S2 _ _]).
    apply (R1 k k' i1 i2); [done..| | |].
    + injection P1 as _ _ _ ? _ _ _. injection P2 as _ _ _ ? _ _ _. congruence.
    + intros Hs. by rewrite (S1 Hs) in Hu1.
    + intros Hs. by rewrite (S2 Hs) in Hu2.
Qed.

(** A transaction that replaces the outstanding jobs of a connection by one. *)
Lemma refresh_inv_enqueued w connection job d d' :
  advances w d d' → refresh_inv d →
  (∃ j, RegistryDb.discovery_refresh_jobs d' !! job = Some j ∧ DiscoveryRefreshJob.connection_id j = connection
        ∧ DiscoveryRefreshJob.workspace_id j = w) →
  (∃ c, RegistryDb.server_connections d' !! connection = Some c ∧ ServerConnection.workspace_id c = w) →
  (∀ k j', k ≠ job → RegistryDb.discovery_refresh_jobs d' !! k = Some j' →
     ∃ j, RegistryDb.discovery_refresh_jobs d !! k = Some j
      ∧ if outstanding w connection j then j' = settle RefreshJobStatus.OBSOLETE j else j' = j) →
  refresh_inv d'.
Proof.
  intros Had [Rc R1] (jn & Hjn & Hcn & Hwn) (c & Hc & Hw) Hold.
  assert (∀ k j', k ≠ job → RegistryDb.discovery_refresh_jobs d' !! k = Some j' → ¬ settled j' →
    RegistryDb.discovery_refresh_jobs d !! k = Some j' ∧ DiscoveryRefreshJob.connection_id j' ≠ connection) as Hlive.
  { intros k j' Hne Hj' Hu. destruct (Hold k j' Hne Hj') as (j & Hj & Hif).
    destruct (outstanding w connection j) eqn:Ho; [subst j'; by destruct Hu|subst j']. split; [done|].
    intros Hcj. destruct (Rc k j Hj) as (c0 & Hc0 & Hw0).
    destruct (ta_kept _ _ _ _ _ (ad_connections _ _ _ Had) _ c0 Hc0) as (c1 & Hc1 & [_ Hw1 _ _ _ _ _] & _).
    apply not_true_iff_false in Ho. apply Ho, outstanding_unsettled. split_and!; [|done|done].
    rewrite Hcj in Hc1. simplify_eq. congruence. }
  split.
  - intros k j' Hj'. destruct (decide (k = job)) as [->|Hne].
    + simplify_eq. by exists c.
    + destruct (Hold k j' Hne Hj') as (j & Hj & Hif). destruct (Rc k j Hj) as (c0 & Hc0 & Hw0).
      assert (DiscoveryRefreshJob.connection_id j' = DiscoveryRefreshJob.connection_id j
        ∧ DiscoveryRefreshJob.workspace_id j' = DiscoveryRefreshJob.workspace_id j) as [-> ->].
      { destruct (outstanding w connection j); by subst. }
      destruct (ta_kept _ _ _ _ _ (ad_connections _ _ _ Had) _ c0 Hc0) as (c1 & Hc1 & [_ Hw1 _ _ _ _ _] & _).
      exists c1. split; [done|congruence].
  - intros k k' j1 j2 H1 H2 Hsame Hu1 Hu2.
    destruct (decide (k = job)) as [->|Hne], (decide (k' = job)) as [->|Hne']; [done|..].
    + destruct (Hlive k' j2 Hne' H2 Hu2) as [_ []]. simplify_eq. congruence.
    + destruct (Hlive k j1 Hne H1 Hu1) as [_ []]. simplify_eq. congruence.
    + apply (R1 k k' j1 j2); try done; by eapply Hlive.
Qed.

Lemma refresh_inv_step w d d' :
  refresh_inv (Db.registry d) → registry_step w d d' → refresh_inv (Db.registry d').
Proof.
  intros Hd Hstep. pose proof (registry_step_advances _ _ _ Hstep) as Had.
  destruct Hstep as (context & o & correlation & env & <- & ->).
  destruct (transaction (perform_registry context o correlation) env d) as [[u|e] d'] eqn:E.
  - apply commit_ok in E as (s & E & Hc & ->). assert (creates_job o ∨ ¬ creates_job o) as [Hnew|Hnew] by (destruct o; cbn; tauto).
    + destruct o; try done.
      apply bind_ok in E as (job & s1 & E & [= <- <-]). apply enqueue_post in E as (? & ? & ?); [|done].
      by eapply refresh_inv_enqueued.
    + eapply refresh_inv_keeps; [exact Had| |done].
      pose proof (jobs_within_perform (dom (discovery_refresh_jobs d)) context o correlation Hnew) as Hp.
      by refine (proj2 (post_preserves _ _ _ _ _ _ _ _ E Hc)).
  - assert (d' = d) as ->; [|done]. revert E. unfold transaction.
    case_match; [by case_match|]. by intros [= _ ->].
Qed.

(** C13. A connection has at most one refresh job that is queued or leased, and
    every refresh job belongs to a connection of its workspace: from a database
    without refresh jobs, no history of transactions, in whatever workspaces and
    whichever of them failed, leads to anything else. *)
Theorem one_outstanding_refresh d d' :
  discovery_refresh_jobs d = ∅ → registry_history d d' → refresh_inv (Db.registry d').
Proof.
  intros Hd Hh. assert (refresh_inv (Db.registry d)) as Hi.
  { split; intros *; unfold discovery_refresh_jobs in Hd; rewrite Hd, lookup_empty; done. }
  clear Hd. induction Hh as [d|d d1 d' [w Hs] _ IH]; [done|]. apply IH. by eapply refresh_inv_step.
Qed.
End invariant.
