(* ===== verification/Review.v ===== *)
(** Who may do what in the registry: a capability version becomes callable only
    by a review of that version, and every committed operation was made by a
    current member with the role it needs. *)
From S2P Require Import Prelude Types Json PyStr Secrets Screening Store Session Registry Identity Endpoint Connection.
From S2P Require Import Capabilities Discovery Hoare Triple RegistryWp RegistrySafety.
Local Open Scope Z_scope.

(** ** The versions that are enabled *)

Section enabled.
Context (allowed : uuid → option uuid → Prop) (known : gset uuid).

Definition all_allowed (d : RegistryDb.t) : Prop := ∀ k c,
  RegistryDb.capabilities d !! k = Some c → allowed k (Capability.enabled_version_id c).

(** Every capability enables what it may, and the known ones are still there. *)
Definition restricted (s : Session) : Prop := conflict s = false →
  all_allowed (reg_flushed s) ∧ all_allowed (reg_work s) ∧ known ⊆ dom (RegistryDb.capabilities (reg_work s)).

#[global] Instance restricted_inv : RegInv restricted.
Proof.
  split.
  - intros s s' Hw Hf Hc Hs Hs'. unfold restricted in Hs. rewrite Hw, Hf. apply Hs. by eapply unflagged.
  - intros s Hc Hs _. destruct (Hs Hc) as (_ & H2 & H3). done.
Qed.

Lemma restricted_put f :
  (∀ d, RegistryDb.capabilities (f d) = RegistryDb.capabilities d) → Preserves restricted (put_registry f).
Proof.
  intros Hf. apply preserves_put. intros s Hs Hc. destruct (Hs Hc) as (H1 & H2 & H3).
  unfold all_allowed, reg_work in *. cbn. by rewrite Hf.
Qed.

Lemma restricted_update id f :
  (∀ c, allowed id (Capability.enabled_version_id c) → allowed id (Capability.enabled_version_id (f c))) →
  Preserves restricted (update_capability id f).
Proof.
  intros Hf. apply preserves_put. intros s Hs Hc. destruct (Hs Hc) as (H1 & H2 & H3).
  split_and!; [done| |]; unfold reg_work in *; cbn.
  - intros k c. cbn. rewrite lookup_alter. case_decide as Hk; [subst k|by apply H2].
    intros (c0 & Hc0 & ->)%fmap_Some_1. by apply Hf, H2.
  - by rewrite dom_alter_L.
Qed.

(** A capability is queried and refreshed, and [k] goes on with its row. *)
Lemma restricted_after_fetch id P {B} (k : option Capability.t → M B) :
  (∀ c, P c = true → When (capability_held id c) restricted (k (Some c))) →
  Preserves restricted (k None) → Preserves restricted (fetch_capability id P ≫= k).
Proof.
  intros Hsome Hnone env s b s' Hs. unfold fetch_capability, gets, mbind, M_bind. cbn.
  destruct (RegistryDb.capabilities (flushed_registry s) !! id) as [c|] eqn:Hc; [|by apply Hnone].
  destruct (P c) eqn:HP; [|by apply Hnone]. cbn. apply Hsome; [exact HP|..].
  - intros Hcf. unfold reg_work. cbn. by rewrite lookup_insert_eq.
  - intros Hcf. destruct (Hs Hcf) as (H1 & H2 & H3). split_and!; [done| |].
    + intros k' c'. unfold reg_work. cbn. rewrite lookup_insert. case_decide as Hk; [subst k'|by apply H2].
      intros [= <-]. by apply H1.
    + unfold reg_work. cbn. rewrite dom_insert_L. set_solver.
Qed.

#[global] Instance restricted_fetch id P : Preserves restricted (fetch_capability id P).
Proof.
  assert (Preserves restricted (fetch_capability id P ≫= mret)) as Hp.
  { apply restricted_after_fetch; [intros c _; apply when_preserves|]; apply _. }
  intros env s a s' Hs E. apply (Hp env s a s' Hs). unfold mbind, M_bind. by rewrite E.
Qed.

(** The object whose row is [c] is replaced by one that enables the same version. *)
Lemma restricted_replace id c c' :
  Capability.enabled_version_id c' = Capability.enabled_version_id c →
  When (capability_held id c) restricted (update_capability id (λ _, c')).
Proof.
  intros He env s u s' Hh Hs [= <- <-] Hc. destruct (Hs Hc) as (H1 & H2 & H3), (Hh Hc) as [Hf Hw].
  split_and!; [done| |]; unfold reg_work in *; cbn.
  - intros k k'. cbn. rewrite lookup_alter. case_decide as Hk; [subst k|by apply H2].
    rewrite Hw. intros [= <-]. rewrite He. by apply H1.
  - by rewrite dom_alter_L.
Qed.

Lemma restricted_add_capability c :
  (∀ k, k ∉ known → allowed k (Capability.enabled_version_id c)) → Preserves restricted (add_capability c).
Proof.
  intros Hnew env s u s' Hs [= <- <-] [Hc Hcl]%orb_false_iff. destruct (Hs Hc) as (H1 & H2 & H3).
  apply clashes_false in Hcl. unfold capabilities in Hcl. split_and!; [done| |]; unfold reg_work in *; cbn.
  - intros k k'. cbn. rewrite lookup_insert. case_decide as Hk; [subst k|by apply H2]. intros [= <-].
    apply Hnew. intros Hin. apply H3, elem_of_dom in Hin as [? Hin]. congruence.
  - rewrite dom_insert_L. set_solver.
Qed.
End enabled.

Ltac restrict_step :=
  lazymatch goal with
  | |- ∀ _, _ => intros
  | |- Preserves _ (let _ := _ in _) => cbv zeta
  | |- Preserves _ (put_registry _) => apply restricted_put; intros; reflexivity
  | |- Preserves _ (update_capability _ _) => apply restricted_update; intros ?; unfold observe_new; cbn; by repeat case_match
  | |- Preserves _ (add_capability _) => by apply restricted_add_capability
  | |- Preserves _ (for_each _ _) => apply preserves_for_each
  | |- Preserves _ (_ ≫= _) => apply preserves_bind; [|intros ?]
  | |- Preserves _ (match ?x with _ => _ end) => destruct x
  | |- Preserves _ _ => apply _
  end.
Ltac restrict := unfold add_connection_version, add_refresh_job, add_capability_version, add_tool_binding,
  add_status_event, add_payload, add_snapshot, add_snapshot_capability, fetch_connection, fetch_refresh_job, update_connection, update_refresh_job,
  add_connection; repeat restrict_step.

Section operations.
Context `{Urls} `{Patterns} (context : WorkspaceContext.t) (allowed : uuid → option uuid → Prop) (known : gset uuid).
Abbreviation I := (restricted allowed known).
Hypothesis Hnew : ∀ k, k ∉ known → allowed k None.

#[local] Instance restricted_fetch_connection id P : Preserves I (fetch_connection id P).
Proof. restrict. Qed.
#[local] Instance restricted_status_event id v : Preserves I (_append_status_event context id v).
Proof. unfold _append_status_event. restrict. Qed.
#[local] Instance restricted_locked id : Preserves I (_locked_connection context id).
Proof. unfold _locked_connection. restrict. Qed.
#[local] Instance restricted_locked_capability id : Preserves I (_locked_capability context id).
Proof. unfold _locked_capability. restrict. Qed.
#[local] Instance restricted_allocate id : Preserves I (allocate_refresh_generation context id).
Proof. unfold allocate_refresh_generation, transition_rejected. restrict. Qed.
#[local] Instance restricted_promote i v e g o : Preserves I (promote_pending context i v e g o).
Proof. unfold promote_pending. restrict. Qed.
#[local] Instance restricted_complete i v e g : Preserves I (complete_refresh context i v e g).
Proof. unfold complete_refresh. restrict. Qed.
#[local] Instance restricted_lock_lease lease : Preserves I (lock_lease_connection context lease).
Proof. unfold lock_lease_connection, _lock_eligible_connection. restrict. Qed.
#[local] Instance restricted_locked_job lease b : Preserves I (_locked_job_for_lease context lease b).
Proof. unfold _locked_job_for_lease, lease_rejected. restrict. Qed.
#[local] Instance restricted_mark i l : Preserves I (_mark_missing_unavailable context i l).
Proof. unfold _mark_missing_unavailable, mark_unavailable. restrict. Qed.
#[local] Instance restricted_payload r : Preserves I (store_payload context r).
Proof. unfold store_payload. restrict. Qed.
#[local] Instance restricted_obsolete id : Preserves I (_obsolete_refresh_jobs context id).
Proof. unfold _obsolete_refresh_jobs. restrict. Qed.
#[local] Instance restricted_store_version a b c t p n v o : Preserves I (store_version context a b c t p n v o).
Proof. unfold store_version. restrict. Qed.

Lemma observe_existing_enabled c c' existing :
  observe_existing c existing = Some c' → Capability.enabled_version_id c' = Capability.enabled_version_id c.
Proof. unfold observe_existing. intros Ho. by repeat case_match; simplify_eq. Qed.

#[local] Instance restricted_record a b e g t p o : Preserves I (record_version context a b e g t p o).
Proof using Hnew.
  unfold record_version. do 2 (apply preserves_bind; [apply _|intros _]). cbv zeta.
  apply preserves_bind; [apply _|intros [c|]; [|apply _]]. do 2 (apply preserves_bind; [apply _|intros ?]).
  case_match; [|restrict]. case_match. apply restricted_after_fetch; [|apply _].
  intros capability _. apply when_bind; [unfold _matching_current_version; restrict|unfold _matching_current_version; apply _|].
  intros [existing|]; [|apply when_preserves; restrict].
  destruct (observe_existing _ _) as [capability'|] eqn:Ho; [|apply when_preserves; restrict].
  apply when_assoc, when_last; [by eapply restricted_replace, observe_existing_enabled|intros _; restrict].
Qed.
#[local] Instance restricted_publish_tool l n p t : Preserves I (publish_tool context l n p t).
Proof using Hnew. unfold publish_tool. restrict. Qed.

(** The operations that do not review a version. *)
Definition reviews (o : registry_operation) : Prop :=
  match o with EnableCapability _ _ => True | _ => False end.

Lemma restricted_perform o correlation : ¬ reviews o → Preserves I (perform_registry context o correlation).
Proof using Hnew.
  intros Ho. destruct o; cbn [perform_registry]; cbn in Ho; try done;
    unfold create, append_version, disable, enable, enqueue, disable_capability, claim, renew,
      validate_for_contact, publish_success, publish_failure, _locked_active_job, _lock_eligible_connection,
      lease_rejected; restrict.
Qed.

Lemma restricted_enable id version correlation :
  allowed id (Some version) → Preserves I (enable_capability context id version correlation).
Proof. intros Ha. unfold enable_capability. restrict. Qed.
End operations.

(** ** What a review checks *)

Section review.
Context `{Urls} `{Patterns}.
Implicit Types (context : WorkspaceContext.t).

(** The capability [id] awaits a decision on [version]: the version is what its
    pending or else its enabled column names, its schema is supported, it was
    observed in the current snapshot of its connection, and the connection can
    execute it. *)
Definition reviewable context (id version : uuid) (d : Db.t) : Prop := ∃ c b v n,
  capabilities d !! id = Some c
  ∧ Capability.workspace_id c = WorkspaceContext.workspace_id context
  ∧ decision_version c = Some version ∧ Capability.status c ≠ CapabilityStatus.ENABLED
  ∧ mcp_tool_bindings d !! version = Some b ∧ McpToolBinding.capability_id b = Capability.id c
  ∧ capability_versions d !! version = Some v ∧ CapabilityVersion.capability_id v = Capability.id c
  ∧ server_connections d !! Capability.connection_id c = Some n
  ∧ ServerConnection.workspace_id n = WorkspaceContext.workspace_id context
  ∧ (∃ snapshot, ServerConnection.current_snapshot_id n = Some snapshot
     ∧ DiscoverySnapshotCapability.mk (WorkspaceContext.workspace_id context) (Capability.connection_id c)
         (McpToolBinding.connection_version_id b) snapshot version
       ∈ RegistryDb.discovery_snapshot_capabilities (Db.registry d))
  ∧ enablement_ready (Some b) (Some v) (Some n) true = true.

(** The flushed registry is [d], and the versions and bindings in memory are its. *)
Definition unwritten (d : RegistryDb.t) (s : Session) : Prop :=
  reg_flushed s = d ∧ RegistryDb.capability_versions (reg_work s) = RegistryDb.capability_versions d
  ∧ RegistryDb.mcp_tool_bindings (reg_work s) = RegistryDb.mcp_tool_bindings d.

#[local] Instance unwritten_same d : RegSame (unwritten d).
Proof. intros s s' Hw Hf Hc. unfold unwritten. by rewrite Hw, Hf. Qed.

(** The queries of a review, from the database [d]. *)
Lemma fetch_unwritten {R} (table : Db.t → gmap uuid R) (t : RegistryDb.t → gmap uuid R) id P d env s r s' :
  (∀ d, table d = t (Db.registry d)) → (unwritten d s → t (reg_work s) = t d) → unwritten d s →
  fetch table id P env s = Ok (r, s') →
  s' = s ∧ ∀ x, r = Some x → t d !! id = Some x ∧ P x = true.
Proof.
  intros Ht Hw Hs [= <- <-]. split; [done|]. intros x. specialize (Hw Hs). destruct Hs as (Hf & _ & _).
  unfold by_id. rewrite !Ht. unfold reg_flushed in Hf. rewrite Hf. destruct (t d !! id) as [y|] eqn:Hy; [|done].
  destruct (P y) eqn:HP; [|done]. unfold reg_work in Hw. rewrite Hw, Hy. by intros [= <-].
Qed.

Lemma fetch_capability_unwritten id P d env s r s' :
  unwritten d s → fetch_capability id P env s = Ok (r, s') →
  unwritten d s' ∧ ∀ x, r = Some x → RegistryDb.capabilities d !! id = Some x ∧ P x = true.
Proof.
  intros (Hf & Hv & Hb). unfold fetch_capability, gets, mbind, M_bind. cbn.
  unfold reg_flushed in Hf. unfold flushed_registry. rewrite Hf.
  destruct (RegistryDb.capabilities d !! id) as [c|] eqn:Hc; [|by intros [= <- <-]].
  destruct (P c) eqn:HP; cbn; intros [= <- <-]; (split; [done|by intros x [= <-]] || by split).
Qed.

Lemma fetch_connection_unwritten id P d env s r s' :
  unwritten d s → fetch_connection id P env s = Ok (r, s') →
  unwritten d s' ∧ ∀ x, r = Some x → RegistryDb.server_connections d !! id = Some x ∧ P x = true.
Proof.
  intros (Hf & Hv & Hb). unfold fetch_connection, gets, mbind, M_bind. cbn.
  unfold reg_flushed in Hf. unfold flushed_registry. rewrite Hf.
  destruct (RegistryDb.server_connections d !! id) as [c|] eqn:Hc; [|by intros [= <- <-]].
  destruct (P c) eqn:HP; cbn; intros [= <- <-]; (split; [done|by intros x [= <-]] || by split).
Qed.

Lemma enable_reviews context id version correlation env d a s :
  enable_capability context id version correlation env (mkSession d d false 0 0) = Ok (a, s) →
  reviewable context id version d.
Proof.
  unfold enable_capability. intros (m & s1 & E1 & E)%bind_ok.
  assert (unwritten (Db.registry d) s1) as Hs1 by (refine (post_preserves _ _ _ _ _ _ _ _ E1); done).
  apply bind_ok in E as (c & s2 & (oc & s2' & E2 & Eoc)%bind_ok & E).
  apply (fetch_capability_unwritten _ _ _ _ _ _ _ Hs1) in E2 as (Hs2 & Hoc).
  destruct oc as [c'|]; [|done]. injection Eoc as -> ->. destruct (Hoc _ eq_refl) as [Hc Hcw]. clear Hoc.
  apply bind_ok in E as (u & s3 & E3 & E). destruct (_ || _) eqn:Hg in E3; [done|]. injection E3 as _ <-.
  cbv zeta in E. apply bind_ok in E as (ob & s4 & E4 & E).
  edestruct (fetch_unwritten mcp_tool_bindings RegistryDb.mcp_tool_bindings) as [Hs4 Hb];
    [exact (λ _, eq_refl)|by intros (_ & _ & ?)|exact Hs2|exact E4|subst s4].
  apply bind_ok in E as (ov & s5 & E5 & E).
  edestruct (fetch_unwritten capability_versions RegistryDb.capability_versions) as [Hs5 Hv];
    [exact (λ _, eq_refl)|by intros (_ & ? & _)|exact Hs2|exact E5|subst s5].
  apply bind_ok in E as (on & s6 & E6 & E).
  apply (fetch_connection_unwritten _ _ _ _ _ _ _ Hs2) in E6 as (Hs6 & Hn).
  apply bind_ok in E as (observed & s7 & E7 & (u8 & s8 & E8 & _)%bind_ok).
  destruct (enablement_ready ob ov on observed) eqn:Hready; [|done].
  destruct ob as [b|], ov as [v|], on as [n|]; try done.
  destruct (Hb _ eq_refl) as [Hb1 Hb2], (Hv _ eq_refl) as [Hv1 Hv2], (Hn _ eq_refl) as [Hn1 Hn2].
  assert (observed = true) as -> by (unfold enablement_ready in Hready; by breflect).
  apply orb_false_iff in Hg as [Hg1 Hg2]. apply negb_false_iff in Hg1.
  exists c, b, v, n. breflect. split_and!; try done.
  unfold select_observed in E7. destruct (ServerConnection.current_snapshot_id n) as [snapshot|]; [|done].
  exists snapshot. split; [done|]. injection E7 as E7 _. apply bool_decide_eq_true in E7.
  destruct Hs6 as (Hf & _ & _). unfold reg_flushed in Hf. unfold flushed_registry in E7. by rewrite Hf in E7.
Qed.

(** C11. A capability version becomes callable only by a review of that version:
    no committed transaction of the registry services changes the enabled version
    of a capability, or creates a capability that has one, except an [enable] of
    that capability, which sets the version it names, and only when that version
    was up for decision and ready.  In particular what a server sends in a
    discovery never changes what is enabled. *)
Theorem only_review_enables context o correlation env d d' k c' :
  transaction (perform_registry context o correlation) env d = (Ok tt, d') →
  capabilities d' !! k = Some c' →
  Capability.enabled_version_id c' = capabilities d !! k ≫= Capability.enabled_version_id
  ∨ ∃ version, o = EnableCapability k version ∧ Capability.enabled_version_id c' = Some version
      ∧ reviewable context k version d.
Proof.
  intros (s & E & Hc & ->)%commit_ok Hk.
  set (old k := capabilities d !! k ≫= Capability.enabled_version_id).
  set (allowed k e := e = old k ∨ ∃ v, o = EnableCapability k v ∧ e = Some v).
  assert (restricted allowed (dom (capabilities d)) (mkSession d d false 0 0)) as Hinit.
  { intros _. split_and!; [intros i c Hi..|done]; left; unfold old; change (capabilities d !! i = Some c) in Hi; by rewrite Hi. }
  assert (restricted allowed (dom (capabilities d)) s) as Hs.
  { assert (reviews o ∨ ¬ reviews o) as [Hr|Hr] by (destruct o; cbn; tauto).
    - destruct o; try done. apply bind_ok in E as (a & s1 & E & [= <-]).
      refine (post_preserves _ _ _ _ _ _ _ Hinit E). apply restricted_enable. right. by eexists.
    - assert (∀ i, i ∉ dom (capabilities d) → allowed i None) as Hnew.
      { intros i Hi%not_elem_of_dom. left. unfold old. by rewrite Hi. }
      pose proof (restricted_perform context allowed (dom (capabilities d)) Hnew o correlation Hr) as Hp.
      by refine (post_preserves _ _ _ _ _ _ _ Hinit E). }
  destruct (Hs Hc) as (_ & Hw & _). destruct (Hw _ _ Hk) as [?|(v & -> & ?)]; [by left|right].
  exists v. split_and!; [done..|]. apply bind_ok in E as (a & s1 & E & _). by eapply enable_reviews.
Qed.

(** ** Who may act *)

(** The roles that an operation needs. *)
Definition needed_roles (o : registry_operation) : list Role.t :=
  match o with
  | CreateConnection _ _ _ _ _ | AppendVersion _ _ _ _ _ | EnableConnection _ => [Role.ADMIN]
  | _ => [Role.ADMIN; Role.OPERATOR]
  end.

(** The actor of the context is a member of its workspace in one of [roles]. *)
Definition current_member context (roles : list Role.t) (d : Db.t) : Prop :=
  ∃ m, IdentityDb.workspace_memberships (Db.identity d)
         !! (WorkspaceContext.workspace_id context, WorkspaceContext.actor_user_id context) = Some m
       ∧ WorkspaceMembership.role m ∈ roles.

Lemma require_current_role_requires context roles b :
  requires (current_member context roles) (require_current_role context roles b).
Proof.
  unfold require_current_role, require_role, select_workspace. apply requires_later; [apply _|intros _].
  apply requires_later; [destruct b; [apply unflushed_bind; [|intros ?]|]; apply _|intros _].
  intros env s a s'. unfold select_membership, gets, mbind, M_bind. cbn. unfold flushed_identity.
  destruct (IdentityDb.workspace_memberships (Db.identity (flushed s)) !! _) as [m|] eqn:Hm; [|done]. cbn.
  destruct (bool_decide (WorkspaceMembership.role m ∈ roles)) eqn:Hr; cbn; [|done].
  intros _. apply bool_decide_eq_true in Hr. by exists m.
Qed.

(** C14. Only current members act: whatever role the caller's context claims, a
    registry operation commits only if the actor's membership in the database has
    a role the operation needs at that moment. *)
Theorem registry_authorized context o correlation env d d' :
  transaction (perform_registry context o correlation) env d = (Ok tt, d') →
  current_member context (needed_roles o) d.
Proof.
  intros (s & E & _ & _)%commit_ok.
  assert (requires (current_member context (needed_roles o)) (perform_registry context o correlation)) as Hr;
    [|by apply Hr in E].
  destruct o; cbn [perform_registry needed_roles];
    unfold create, append_version, promote_pending, disable, enable, allocate_refresh_generation, complete_refresh,
      record_version, enable_capability, disable_capability, enqueue, allocate_refresh_generation, claim, renew,
      validate_for_contact, publish_success, publish_failure;
    repeat (apply requires_here; try apply require_current_role_requires).
  all: apply require_current_role_requires.
Qed.
End review.
