(* ===== verification/System.v ===== *)
(** The system as a transition system: a step commits, or rolls back, one
    transaction of one operation of the execution services, or is a transaction
    of the identity and registry services, of which it only matters here that
    it leaves the execution tables alone ([other_services]). *)
From S2P Require Import Prelude Types Json PyStr Store Session Registry Identity Ledger Lease Maintenance.
From S2P Require Import Admission LedgerInv Hoare LedgerStep LedgerWp LeaseWp.
From S2P Require Import MaintenanceWp AdmissionWp Frame.
Local Open Scope Z_scope.

Section system.
Context `{Externals}.

(** The entry points of the execution services. *)
Inductive operation : Type :=
| Preflight (self : ExecutionService.t) (context : WorkspaceContext.t) (version : uuid) (arguments : Json.t)
| CreateRun (self : ExecutionService.t) (context : WorkspaceContext.t) (version : uuid) (arguments : Json.t)
    (token key : string) (deadline : option Datetime.t) (correlation : option uuid)
| ClaimJob (self : ExecutionService.t) (worker_id : string) (lease_duration : Z)
| FenceSession (lease : JobLease.t)
| BeginSession (lease : JobLease.t) (lease_duration : Z)   (* a heartbeat and the fence in one transaction *)
| FenceDispatch (lease : JobLease.t)
| Heartbeat (lease : JobLease.t) (lease_duration : Z)
| CompleteLease (lease : JobLease.t) (status : RunStatus.t) (code : option RunFailureCode.t)
| CompleteInvocationSuccess (self : ExecutionService.t) (lease : JobLease.t) (result : AcceptedToolResult.t)
| CancelRun (context : WorkspaceContext.t) (run_id : uuid) (correlation : option uuid)
| EnterRestoreQuarantine (self : ExecutionService.t)
| ReconcileRestoreQuarantine (self : ExecutionService.t) (batch_size : Z)
| ClearRestoreQuarantine (self : ExecutionService.t)
| ExpireRetainedContent (batch_size : Z)
| DeleteExpiredRunMetadata (self : ExecutionService.t) (batch_size : Z)
| ExpireRetainedResults (batch_size : Z).

Definition discard {A} (m : M A) : M unit := m ;; mret tt.
#[global] Typeclasses Opaque discard.

Definition perform (o : operation) : M unit :=
  match o with
  | Preflight self c v a => discard (preflight self c v a)
  | CreateRun self c v a t k d o => discard (create_run self c v a t k d o)
  | ClaimJob self w d => discard (claim_job self w d)
  | FenceSession l => discard (fence_session l)
  | BeginSession l d => discard (heartbeat l d;; fence_session l)
  | FenceDispatch l => discard (fence_dispatch l)
  | Heartbeat l d => discard (heartbeat l d)
  | CompleteLease l s c => discard (complete_lease l s c)
  | CompleteInvocationSuccess self l r => discard (complete_invocation_success self l r)
  | CancelRun c r o => discard (cancel_run c r o)
  | EnterRestoreQuarantine self => discard (enter_restore_quarantine self)
  | ReconcileRestoreQuarantine self n => discard (reconcile_restore_quarantine self n)
  | ClearRestoreQuarantine self => discard (clear_restore_quarantine self)
  | ExpireRetainedContent n => discard (expire_retained_content n)
  | DeleteExpiredRunMetadata self n => discard (delete_expired_run_metadata self n)
  | ExpireRetainedResults n => discard (expire_retained_results n)
  end.

(** The database after a step: the committed one, or the old one on an error. *)
Definition step_db (o : operation) (env : Env) (d : Db.t) : Db.t := (transaction (perform o) env d).2.

Inductive reachable : Db.t → Prop :=
| reachable_empty : reachable Db.empty
| reachable_step d env o : reachable d → reachable (step_db o env d)
| reachable_other d d' :
    reachable d → Db.execution d' = Db.execution d → schema_checks d' = true → reachable d'.

#[global] Instance keeps_discard R `{!PreOrder R} {A} (m : M A) : Keeps R m → Keeps R (discard m).
Proof. intros Hm. unfold discard. solve_keeps. Qed.

(** ** The invariant is inductive *)

Lemma commit_inv {A} (m : M A) env d :
  db_inv d → wp m (λ _, True) (λ _ s', sess_inv ∅ s') env (mkSession d d false 0 0) →
  db_inv (transaction m env d).2.
Proof.
  intros Hd Hwp.
  assert (wp (a ← m; flush;; mret a) (λ _, True) (λ _ s', sess_inv ∅ s') env (mkSession d d false 0 0)) as Hwp'.
  { apply wp_bind. eapply wp_conseq; [exact Hwp|]. cbn. intros a s' Hs'. apply wp_bind.
    eapply wp_flush_inv; [exact Hs'|]. intros Hs''. by apply wp_ret. }
  unfold transaction. unfold wp in Hwp'.
  destruct ((a ← m; flush;; mret a) env (mkSession d d false 0 0)) as [[a s']|e]; [|done].
  by eapply sess_db_inv.
Qed.

Lemma wp_discard {A} (m : M A) E env s :
  wp m E (λ _ s', sess_inv ∅ s') env s → wp (discard m) E (λ _ s', sess_inv ∅ s') env s.
Proof. intros Hm. apply wp_bind. eapply wp_conseq; [exact Hm|]. intros a s' Hs'. by apply wp_ret. Qed.

Lemma db_inv_schema d : db_inv d → schema_checks d = true.
Proof. intros (Hl & Hi & Hr). unfold schema_checks. rewrite Hi, Hr. apply (li_checks _ Hl). Qed.

Lemma frame_inv d d' :
  db_inv d → Db.execution d' = Db.execution d → schema_checks d' = true → db_inv d'.
Proof.
  intros (Hl & _ & _) Heq (Hi & Hr & _)%schema_checks_spec. split_and!; [|done..]. by rewrite Heq.
Qed.

(** A transaction that keeps the execution tables is such a step. *)
Lemma other_services {A} (m : M A) env d :
  Keeps eq m → db_inv d →
  Db.execution (transaction m env d).2 = Db.execution d
  ∧ schema_checks (transaction m env d).2 = true.
Proof.
  intros Hm Hd. split.
  - symmetry. by apply (transaction_keeps eq m).
  - by apply transaction_checks, db_inv_schema.
Qed.

(** The operations of the execution services, from the start of a transaction. *)
Lemma perform_execution E env o s :
  (∀ e, expected e → E e) → E IntegrityError → sess_inv ∅ s → flushed s = work s →
  wp (perform o) E (λ _ s', sess_inv ∅ s') env s.
Proof.
  intros HE HI Hs Hf. destruct o; apply wp_discard.
  - by apply wp_preflight.
  - by apply wp_create_run.
  - eapply wp_conseq; [apply wp_claim_job; [done..|by left]|]. by intros a s' [Hs' _].
  - by apply wp_fence_session.
  - apply wp_bind. eapply wp_conseq; [by apply wp_heartbeat|]. intros a s' Hs'. by apply wp_fence_session.
  - by apply wp_fence_dispatch.
  - by apply wp_heartbeat.
  - eapply wp_conseq; [by apply wp_complete_lease|]. by intros a s' [Hs' _].
  - by apply wp_complete_invocation_success.
  - by apply wp_cancel_run.
  - by apply wp_enter_restore_quarantine.
  - eapply wp_conseq; [apply wp_reconcile_restore_quarantine; try done; intros _; by apply HE|]. by intros k s' [Hs' _].
  - by apply wp_clear_restore_quarantine.
  - eapply wp_conseq; [apply wp_expire_retained_content; try done; intros _; by apply HE|]. by intros k s' [Hs' _].
  - by apply wp_delete_expired_run_metadata.
  - by apply wp_expire_retained_results.
Qed.

Lemma step_inv o env d : db_inv d → db_inv (step_db o env d).
Proof.
  intros Hd. apply commit_inv; [done|]. apply perform_execution; try done. by apply sess_init.
Qed.

Lemma empty_inv : db_inv Db.empty.
Proof.
  split_and!; [|by vm_compute..]. constructor; [by vm_compute|..]; cbn; intros *.
  - by rewrite lookup_empty.
  - by rewrite lookup_empty.
  - by rewrite lookup_empty.
  - by intros ?%elem_of_nil.
Qed.

Lemma reachable_inv d : reachable d → db_inv d.
Proof. induction 1; [apply empty_inv|by apply step_inv|by eapply frame_inv]. Qed.
End system.
