(* ===== verification/Scenario.v ===== *)
(** A concrete installation on which the theorems are instantiated: one
    workspace, one active connection with one enabled capability, and a run that
    is admitted, claimed, fenced, dispatched and completed. *)
From S2P Require Import Prelude Types Json PyStr Screening Store Session Registry Identity Ledger Lease Maintenance.
From S2P Require Import Admission Hoare LedgerWp System.
From stdpp Require Import strings.
Local Open Scope Z_scope.

Module Scenario.

Definition workspace : uuid := 1%positive.
Definition admin : uuid := 2%positive.
Definition connection : uuid := 3%positive.
Definition connection_version : uuid := 4%positive.
Definition capability : uuid := 5%positive.
Definition capability_version : uuid := 6%positive.
Definition snapshot : uuid := 7%positive.

Definition digest64 : string :=
  "0000000000000000000000000000000000000000000000000000000000000000".
Definition secret32 : string := "00000000000000000000000000000000".

Definition context : WorkspaceContext.t := WorkspaceContext.mk workspace admin Role.ADMIN.

(** Identifier text: as many characters as the identifier says. *)
Fixpoint ones (n : nat) : string :=
  match n with O => EmptyString | S n => String (Ascii.ascii_of_nat 49) (ones n) end.
Definition uuid_text (u : uuid) : string := ones (Pos.to_nat u).
Definition uuid_of_text (s : string) : option uuid :=
  match String.length s with O => None | S n => Some (Pos.of_succ_nat n) end.

Definition payload : list (string * Json.t) :=
  [("iat", Json.Int 100); ("exp", Json.Int 220); ("jti", Json.Str "nonce");
   ("w", Json.Str (uuid_text workspace)); ("a", Json.Str (uuid_text admin));
   ("cv", Json.Str (uuid_text capability_version)); ("c", Json.Str (uuid_text capability));
   ("cn", Json.Str (uuid_text connection)); ("cnv", Json.Str (uuid_text connection_version));
   ("ad", Json.Str digest64); ("r", Json.Str "/v1/runs")]%string.

#[global] Instance externals : Externals := {
  sha256_hex := λ _, digest64;
  hmac_sha256_hex := λ _ _, digest64;
  external_patterns := {| re2_search := λ _, None; unquote := λ s, s; float_repr := λ _, "0.0"%string |};
  json_loads := λ _, Some (Json.Dict []);
  uuid_str := uuid_text;
  uuid_hex := uuid_text;
  uuid_parse := uuid_of_text;
  py_str := λ _, ""%string;
  py_int := λ _, None;
  isoformat := λ _, ""%string;
  jwt_encode := λ _ _ _, "token"%string;
  jwt_header_kid := λ _, Some (Some "k1"%string);
  jwt_decode := λ _ _, Some payload;
  validate_schema_arguments := λ _ _, SchemaValidationResult.VALID }.

Definition self : ExecutionService.t :=
  ExecutionService.mk ExecutionLimits.default [HmacKeyVersion.mk "k1" secret32]
    [HmacKeyVersion.mk "k1" secret32] true.

(** ** The installation *)

Definition identity : IdentityDb.t :=
  IdentityDb.mk {[admin := User.mk admin "issuer" "subject" None]}
    {[workspace := Workspace.mk workspace "team"]}
    {[(workspace, admin) := WorkspaceMembership.mk workspace admin Role.ADMIN]} ∅ [] ∅.

Definition registry : RegistryDb.t :=
  RegistryDb.mk
    {[connection := ServerConnection.mk connection workspace "tools" ConnectionLifecycle.ACTIVE None
        (Some connection_version) 0 1 (Some 0) (Some connection_version) (Some snapshot) None None admin]}
    {[connection_version := ServerConnectionVersion.mk connection_version workspace connection 1
        "https://tools.example/mcp" None Transport.STREAMABLE_HTTP "v1" admin]}
    {[capability := Capability.mk capability workspace connection "echo" None
        (Some capability_version) CapabilityStatus.ENABLED 1]}
    {[capability_version := CapabilityVersion.mk capability_version workspace capability 1 "echo"
        None (Json.Dict []) None digest64 true]}
    {[capability_version := McpToolBinding.mk capability_version capability workspace connection
        connection_version "echo" QUALIFIED_PROTOCOL_REVISION]}
    [] ∅ ∅
    [DiscoverySnapshotCapability.mk workspace connection connection_version snapshot capability_version]
    ∅ ∅ ∅ ∅.

Definition installed : Db.t := Db.mk identity registry (Db.execution Db.empty).

(** The [n]-th transaction runs at second [100 + n] and draws its own identifiers. *)
Definition env (n : Z) : Env :=
  mkEnv (λ k, seconds (100 + n) + Z.of_nat k) (λ k, Z.to_pos (1000 * n + 1000 + Z.of_nat k))
    (λ _, false).

Definition create : operation :=
  CreateRun self context capability_version (Json.Dict []) "token" "key" None None.
Definition claim : operation := ClaimJob self "worker" (seconds 30).

Definition admitted : Db.t := step_db create (env 0) installed.
Definition claimed : Db.t := step_db claim (env 1) admitted.

Definition run : uuid := 1000%positive.
Definition job : uuid := 1002%positive.
Definition lease : JobLease.t :=
  JobLease.mk job run workspace 1001 "worker" 1 1 (seconds 131 + 2).

Definition prepared : Db.t := step_db (FenceSession lease) (env 2) claimed.
Definition dispatched : Db.t := step_db (FenceDispatch lease) (env 3) prepared.
Definition completed : Db.t :=
  step_db (CompleteLease lease RunStatus.SUCCEEDED None) (env 4) dispatched.

Definition status_in (d : Db.t) : option RunStatus.t :=
  Run.status <$> ExecutionDb.runs (Db.execution d) !! run.
End Scenario.

Lemma installed_reachable : reachable Scenario.installed.
Proof. apply (reachable_other Db.empty); [constructor|done|by vm_compute]. Qed.
Lemma admitted_reachable : reachable Scenario.admitted.
Proof. apply reachable_step, installed_reachable. Qed.
Lemma claimed_reachable : reachable Scenario.claimed.
Proof. apply reachable_step, admitted_reachable. Qed.
Lemma prepared_reachable : reachable Scenario.prepared.
Proof. apply reachable_step, claimed_reachable. Qed.
Lemma dispatched_reachable : reachable Scenario.dispatched.
Proof. apply reachable_step, prepared_reachable. Qed.
Lemma completed_reachable : reachable Scenario.completed.
Proof. apply reachable_step, dispatched_reachable. Qed.

(** Name the row of the scenario's run in a database where it exists. *)
Ltac scenario_run d r Hr :=
  destruct (ExecutionDb.runs (Db.execution d) !! Scenario.run) as [r|] eqn:Hr;
  [|vm_compute in Hr; discriminate Hr].
