(* ===== verification/Safety.v ===== *)
(** Safety of the execution ledger: what holds of the runs and their event
    histories in every reachable database. *)
From S2P Require Import Prelude Types Json PyStr Store Session Registry Identity Ledger Lease Maintenance.
From S2P Require Import Admission LedgerInv Hoare LedgerStep LedgerWp LeaseWp.
From S2P Require Import MaintenanceWp AdmissionWp Frame System Scenario.
Local Open Scope Z_scope.

Section safety.
Context `{Externals}.

Lemma reachable_run d run r :
  reachable d → ExecutionDb.runs (Db.execution d) !! run = Some r → run_ok (Db.execution d) run r.
Proof. intros Hd. apply (li_runs _ (proj1 (reachable_inv d Hd))). Qed.

(** ** Growth of the ledger across a step *)

Lemma transaction_post {A} (m : M A) env d (P : Db.t → Prop) :
  P d → wp m (λ _, True) (λ _ s', P (work s')) env (mkSession d d false 0 0) → P (transaction m env d).2.
Proof.
  intros Hd. unfold transaction, wp, mbind, M_bind. destruct (m env _) as [[a s]|]; [|done].
  unfold flush. intros HP. destruct (conflict s); [done|].
  destruct (listeners_accept _ _); cbn; [|done]. by destruct (schema_checks _).
Qed.

(** The ledger of a run that survives a step: its history is extended, and what
    it is pinned to stays. *)
Definition survives (run : uuid) (d d' : ExecutionDb.t) : Prop :=
  ∀ r r', ExecutionDb.runs d !! run = Some r → ExecutionDb.runs d' !! run = Some r' →
    events_of run d `prefix_of` events_of run d' ∧ pin r' = pin r.

Lemma survives_grows run d d' : grows d d' → survives run d d'.
Proof.
  intros [[l Hl] Hr] r r' Hrun Hrun'. split.
  - unfold events_of. rewrite Hl, filter_app. by eexists.
  - destruct (Hr run r Hrun) as (r0 & Hr0 & Hp). congruence.
Qed.

Lemma survives_cascade run ids d : survives run d (cascade ids d).
Proof.
  intros r r' Hr [Hr' Hids]%map_lookup_filter_Some. cbn in Hids.
  destruct (cascade_same ids d run Hids) as [_ Hlin]. rewrite (le_events _ _ _ Hlin). split; [done|].
  congruence.
Qed.

Lemma delete_shape self n env d :
  let d' := (transaction (discard (delete_expired_run_metadata self n)) env d).2 in
  Db.execution d' = Db.execution d ∨ ∃ ids, Db.execution d' = cascade ids (Db.execution d).
Proof.
  cbv zeta. apply (transaction_post _ env d
    (λ d', Db.execution d' = Db.execution d ∨ ∃ ids, Db.execution d' = cascade ids (Db.execution d))); [by left|].
  unfold discard, delete_expired_run_metadata. apply wp_bind, wp_bind, wp_raise_if; [done|]. intros _.
  apply wp_bind, wp_durable_now. wp_read as ids [= <-].
  apply wp_bind. destruct (take _ _) as [|x l]; [apply wp_ret, wp_ret, wp_ret; by left|].
  apply wp_modify, wp_ret, wp_ret. cbn. right. by exists (x :: l).
Qed.

Lemma step_shape o env d :
  grows (Db.execution d) (Db.execution (step_db o env d))
  ∨ ∃ ids, Db.execution (step_db o env d) = cascade ids (Db.execution d).
Proof.
  unfold step_db. destruct o; cbn [perform]; try (left; apply (transaction_keeps grows); apply _).
  destruct (delete_shape self batch_size env d) as [->|[ids ->]]; [by left|right; by exists ids].
Qed.

Lemma step_survives o env d run : survives run (Db.execution d) (Db.execution (step_db o env d)).
Proof.
  destruct (step_shape o env d) as [Hg|[ids ->]]; [by apply survives_grows|apply survives_cascade].
Qed.

Lemma history_prefix run d d' :
  events_of run d `prefix_of` events_of run d' → ∃ k, history run d' = history run d ++ k.
Proof. intros [l Hl]. exists (entry_of <$> l). unfold history. by rewrite Hl, fmap_app. Qed.

(** Sorting any arrangement of the events of a run restores their order. *)
Lemma sort_events l l' :
  l ≡ₚ l' → StronglySorted sequence_le l' → NoDup (RunEvent.sequence <$> l') →
  merge_sort sequence_le l = l'.
Proof.
  intros Hp Hs Hnd. assert (Total sequence_le) by (intros x y; unfold sequence_le; lia).
  assert (Transitive sequence_le) by (intros x y z; unfold sequence_le; lia).
  apply (StronglySorted_unique_strong sequence_le); [|by apply StronglySorted_merge_sort; apply _|done|].
  - intros x y Hx Hy Hxy Hyx. rewrite merge_sort_Permutation, Hp in Hx.
    assert (RunEvent.sequence x = RunEvent.sequence y) as Hxs by (unfold sequence_le in *; lia).
    apply list_elem_of_lookup in Hx as [i Hi], Hy as [k Hk].
    assert (i = k) as ->.
    { eapply NoDup_lookup; [exact Hnd|by rewrite list_lookup_fmap, Hi|by rewrite list_lookup_fmap, Hk, Hxs]. }
    congruence.
  - by rewrite merge_sort_Permutation.
Qed.

Lemma seqZ_sorted m n l :
  RunEvent.sequence <$> l = seqZ m n → StronglySorted sequence_le l.
Proof.
  revert m n. induction l as [|e l IH]; intros m n Hl; [constructor|]. cbn in Hl.
  destruct (decide (0 < n)) as [Hn|Hn]; [|by rewrite seqZ_nil in Hl by lia].
  rewrite seqZ_cons in Hl by done. injection Hl as He Hl. constructor; [by eapply IH|].
  apply Forall_forall. intros e' He'. unfold sequence_le. rewrite He.
  assert (RunEvent.sequence e' ∈ RunEvent.sequence <$> l) as Hin by by apply list_elem_of_fmap_2.
  rewrite Hl, elem_of_seqZ in Hin. lia.
Qed.

Lemma replay_loop_dense l m n current :
  RunEvent.sequence <$> l = seqZ m n →
  replay_loop m current l = Ok (default current (RunEvent.status <$> last l)).
Proof.
  revert m n current. induction l as [|e l IH]; intros m n current Hl; cbn [replay_loop]; [done|].
  cbn in Hl. destruct (decide (0 < n)) as [Hn|Hn]; [|by rewrite seqZ_nil in Hl by lia].
  rewrite seqZ_cons in Hl by done. injection Hl as He Hl. rewrite He, Z.eqb_refl. cbn [negb].
  rewrite Z.add_1_r, (IH _ (Z.pred n)) by exact Hl. rewrite last_cons. by destruct (last l).
Qed.

(** C4. The system refines the automaton of [Lifecycle]: in every reachable
    database the recorded events of every run, numbered densely from 1, spell a
    history that the automaton accepts and that ends in the run's status. *)
Theorem reachable_history d run r :
  reachable d → ExecutionDb.runs (Db.execution d) !! run = Some r →
  path (history run (Db.execution d)) (Run.status r)
  ∧ RunEvent.sequence <$> events_of run (Db.execution d) = seqZ 1 (len (events_of run (Db.execution d))).
Proof. intros Hd Hr. by destruct (reachable_run d run r Hd Hr) as [_ [Hp Hs _]]. Qed.

Lemma reachable_dispatches d run r :
  reachable d → ExecutionDb.runs (Db.execution d) !! run = Some r → (dispatches (history run (Db.execution d)) ≤ 1)%nat.
Proof. intros Hd Hr. destruct (reachable_run d run r Hd Hr) as [_ [Hp _ _]]. by destruct (dispatches_path _ _ Hp). Qed.

(** C5. A tool call is dispatched at most once per run, whatever leases, retries,
    cancellations and restores happen: at most one event of the history is a
    dispatch fence, none is while the run can still be retried, and exactly one
    is when the run succeeded. *)
Theorem dispatch_at_most_once d run r :
  reachable d → ExecutionDb.runs (Db.execution d) !! run = Some r →
  (dispatches (history run (Db.execution d)) ≤ 1)%nat
  ∧ (pre_dispatch (Run.status r) = true → dispatches (history run (Db.execution d)) = 0%nat)
  ∧ (Run.status r = RunStatus.SUCCEEDED → dispatches (history run (Db.execution d)) = 1%nat).
Proof.
  intros Hd Hr. destruct (reachable_run d run r Hd Hr) as [_ [Hp _ _]].
  by destruct (dispatches_path _ _ Hp) as (H1 & H2 & H3 & _).
Qed.

(** C6. A terminal status is final: no step of any service changes it. *)
Theorem terminal_status_final o env d run r r' :
  reachable d → ExecutionDb.runs (Db.execution d) !! run = Some r →
  RunStatus.terminal (Run.status r) = true →
  ExecutionDb.runs (Db.execution (step_db o env d)) !! run = Some r' →
  Run.status r' = Run.status r.
Proof.
  intros Hd Hr Ht Hr'. destruct (step_survives o env d run r r' Hr Hr') as [Hev _].
  destruct (reachable_run d run r Hd Hr) as [_ [Hp _ _]].
  destruct (reachable_run _ run r' (reachable_step d env o Hd) Hr') as [_ [Hp' _ _]].
  destruct (history_prefix run _ _ Hev) as [k Hk]. rewrite Hk in Hp'.
  by eapply path_extend_terminal.
Qed.

(** C6. The ledger is append-only: a step extends the event history of every run
    that it does not delete, and never changes what the run is pinned to
    (target versions, epochs, deadline, actor, correlation). *)
Theorem ledger_append_only o env d run r r' :
  ExecutionDb.runs (Db.execution d) !! run = Some r →
  ExecutionDb.runs (Db.execution (step_db o env d)) !! run = Some r' →
  events_of run (Db.execution d) `prefix_of` events_of run (Db.execution (step_db o env d))
  ∧ pin r' = pin r.
Proof. apply step_survives. Qed.

(** C6. [replay_projection] reconstructs the status of a run from its events, in
    whatever order they are read. *)
Theorem replay_projection_correct d run r events :
  reachable d → ExecutionDb.runs (Db.execution d) !! run = Some r →
  events ≡ₚ events_of run (Db.execution d) →
  replay_projection events = Ok (Run.status r).
Proof.
  intros Hd Hr Hp. destruct (reachable_run d run r Hd Hr) as [_ [Hpath Hseq _]].
  set (l := events_of run (Db.execution d)) in *.
  assert (merge_sort sequence_le events = l) as Hsort.
  { apply sort_events; [done|by eapply seqZ_sorted|]. rewrite Hseq. apply NoDup_seqZ. }
  assert (l ≠ []) as Hne.
  { intros Hl. apply path_nonempty in Hpath. unfold history in Hpath. fold l in Hpath. by rewrite Hl in Hpath. }
  unfold replay_projection. destruct events as [|e es]; [by apply Permutation_nil_l in Hp|].
  rewrite Hsort, (replay_loop_dense _ 1 (len l)) by done.
  apply path_last in Hpath. unfold history in Hpath. fold l in Hpath. rewrite fmap_last in Hpath.
  destruct (last l) as [x|] eqn:Hx; cbn in *; [|done]. by injection Hpath as ->.
Qed.
End safety.

(** ** The theorems on the scenario *)

Lemma reachable_history_witness :
  ∃ r, ExecutionDb.runs (Db.execution Scenario.completed) !! Scenario.run = Some r
    ∧ path (history Scenario.run (Db.execution Scenario.completed)) (Run.status r).
Proof.
  scenario_run Scenario.completed r Hr. exists r. split; [reflexivity|].
  apply (reachable_history Scenario.completed Scenario.run r completed_reachable Hr).
Defined.

Lemma dispatch_at_most_once_witness :
  (dispatches (history Scenario.run (Db.execution Scenario.completed)) ≤ 1)%nat
  ∧ Scenario.status_in Scenario.completed = Some RunStatus.SUCCEEDED.
Proof.
  split; [|vm_compute; reflexivity]. scenario_run Scenario.completed r Hr.
  apply (dispatch_at_most_once Scenario.completed Scenario.run r completed_reachable Hr).
Defined.

Lemma terminal_status_final_witness :
  Scenario.status_in (step_db (CancelRun Scenario.context Scenario.run None) (Scenario.env 5) Scenario.completed)
  = Scenario.status_in Scenario.completed.
Proof.
  unfold Scenario.status_in. scenario_run Scenario.completed r Hr.
  scenario_run (step_db (CancelRun Scenario.context Scenario.run None) (Scenario.env 5) Scenario.completed) r' Hr'.
  cbn. f_equal.
  refine (terminal_status_final _ _ _ _ r r' completed_reachable Hr _ Hr').
  assert (Some (Run.status r) = Some RunStatus.SUCCEEDED) as [= ->]; [|reflexivity].
  change (Some (Run.status r)) with (Run.status <$> Some r). rewrite <- Hr. vm_compute. reflexivity.
Defined.

Lemma ledger_append_only_witness :
  events_of Scenario.run (Db.execution Scenario.claimed)
  `prefix_of` events_of Scenario.run
      (Db.execution (step_db (FenceSession Scenario.lease) (Scenario.env 2) Scenario.claimed)).
Proof.
  scenario_run Scenario.claimed r Hr.
  scenario_run (step_db (FenceSession Scenario.lease) (Scenario.env 2) Scenario.claimed) r' Hr'.
  exact (proj1 (ledger_append_only _ _ _ Scenario.run r r' Hr Hr')).
Defined.

Lemma replay_projection_correct_witness :
  replay_projection (reverse (events_of Scenario.run (Db.execution Scenario.completed)))
  = Ok RunStatus.SUCCEEDED.
Proof.
  scenario_run Scenario.completed r Hr.
  assert (Some (Run.status r) = Some RunStatus.SUCCEEDED) as [= <-].
  { change (Some (Run.status r)) with (Run.status <$> Some r). rewrite <- Hr. vm_compute. reflexivity. }
  apply (replay_projection_correct Scenario.completed Scenario.run r _ completed_reachable Hr).
  apply reverse_Permutation.
Defined.
