(* ===== verification/FenceSpec.v ===== *)
(** When a fence is granted: the conditions under which [fence_session] and
    [fence_dispatch] succeed, stated on the database, and the equivalence. *)
From S2P Require Import Prelude Types Json PyStr Store Session Registry Identity Ledger Lease Maintenance Admission Hoare LedgerInv.
From S2P Require Import LedgerStep LedgerWp LeaseWp MaintenanceWp AdmissionWp Frame System Scenario Safety.
Local Open Scope Z_scope.

(** ** The configuration a run is pinned to is current *)

Record pinned_target (d : Db.t) (r : Run.t) : Prop := {
  pt_protocol : Run.protocol_revision r = QUALIFIED_PROTOCOL_REVISION;
  pt_actor : ∃ m,
    IdentityDb.workspace_memberships (Db.identity d) !! (Run.workspace_id r, Run.actor_user_id r) = Some m
    ∧ (WorkspaceMembership.role m = Role.ADMIN ∨ WorkspaceMembership.role m = Role.OPERATOR);
  pt_capability : ∃ c,
    capabilities d !! Run.capability_id r = Some c ∧ Capability.workspace_id c = Run.workspace_id r
    ∧ Capability.status c = CapabilityStatus.ENABLED
    ∧ Capability.enabled_version_id c = Some (Run.capability_version_id r)
    ∧ Capability.pending_version_id c = None
    ∧ Capability.status_epoch c = Run.capability_status_epoch r;
  pt_connection : ∃ c snapshot,
    server_connections d !! Run.connection_id r = Some c
    ∧ ServerConnection.workspace_id c = Run.workspace_id r
    ∧ ServerConnection.lifecycle c = ConnectionLifecycle.ACTIVE
    ∧ ServerConnection.pending_version_id c = None
    ∧ ServerConnection.verified_version_id c = Some (Run.connection_version_id r)
    ∧ ServerConnection.control_epoch c = Run.connection_control_epoch r
    ∧ ServerConnection.current_snapshot_id c = Some snapshot
    ∧ DiscoverySnapshotCapability.mk (Run.workspace_id r) (Run.connection_id r)
        (Run.connection_version_id r) snapshot (Run.capability_version_id r)
      ∈ RegistryDb.discovery_snapshot_capabilities (Db.registry d);
  pt_binding : ∃ b,
    mcp_tool_bindings d !! Run.capability_version_id r = Some b
    ∧ McpToolBinding.workspace_id b = Run.workspace_id r
    ∧ McpToolBinding.capability_id b = Run.capability_id r
    ∧ McpToolBinding.connection_id b = Run.connection_id r
    ∧ McpToolBinding.connection_version_id b = Run.connection_version_id r
    ∧ McpToolBinding.protocol_revision b = Run.protocol_revision r }.

(** ** The lease is held, and everything else a fence needs *)

Record fence_permitted (d : Db.t) (lease : JobLease.t) (expected_status : RunStatus.t)
    (now : instant) : Prop := {
  fp_system : ∃ st, ExecutionDb.system_execution_state (Db.execution d) = Some st
    ∧ SystemExecutionState.dispatch_quarantined st = false
    ∧ SystemExecutionState.execution_epoch st = JobLease.execution_epoch lease;
  fp_workspace : is_Some (IdentityDb.workspaces (Db.identity d) !! JobLease.workspace_id lease);
  fp_job : ∃ j e,
    ExecutionDb.jobs (Db.execution d) !! JobLease.job_id lease = Some j
    ∧ Job.workspace_id j = JobLease.workspace_id lease ∧ Job.run_id j = JobLease.run_id lease
    ∧ Job.execution_epoch j = JobLease.execution_epoch lease ∧ Job.status j = JobStatus.LEASED
    ∧ Job.lease_owner j = Some (JobLease.worker_id lease)
    ∧ Job.lease_epoch j = JobLease.lease_epoch lease
    ∧ Job.lease_expires_at j = Some e ∧ now < e ∧ now < Job.deadline j;
  fp_run : ∃ r,
    ExecutionDb.runs (Db.execution d) !! JobLease.run_id lease = Some r
    ∧ Run.workspace_id r = JobLease.workspace_id lease ∧ Run.status r = expected_status
    ∧ Run.cancellation_requested r = false ∧ pinned_target d r;
  fp_attempt : ∃ k a,
    active_attempt (Db.execution d) (JobLease.run_id lease) k a
    ∧ RunAttempt.status a = expected_status
    ∧ RunAttempt.lease_epoch a = JobLease.lease_epoch lease }.

(** ** The queries in a transaction that has not written yet *)

Definition lookup_where {R} (table : gmap uuid R) (id : uuid) (P : R → bool) : option R :=
  match table !! id with Some x => if P x then Some x else None | None => None end.

Definition target_of (d : Db.t) (r : Run.t) : Target.t :=
  let w := Run.workspace_id r in
  let connection := lookup_where (server_connections d) (Run.connection_id r)
                      (λ c, eqv (ServerConnection.workspace_id c) w) in
  Target.mk
    (IdentityDb.workspace_memberships (Db.identity d) !! (w, Run.actor_user_id r))
    (lookup_where (capabilities d) (Run.capability_id r) (λ c, eqv (Capability.workspace_id c) w))
    connection
    match connection with
    | None => false
    | Some c => match ServerConnection.current_snapshot_id c with
                | None => false
                | Some s => bool_decide (DiscoverySnapshotCapability.mk w (Run.connection_id r)
                    (Run.connection_version_id r) s (Run.capability_version_id r)
                    ∈ RegistryDb.discovery_snapshot_capabilities (Db.registry d))
                end
    end
    (is_some (lookup_where (mcp_tool_bindings d) (Run.capability_version_id r) (λ b,
      eqv (McpToolBinding.workspace_id b) w
      && eqv (McpToolBinding.capability_id b) (Run.capability_id r)
      && eqv (McpToolBinding.connection_id b) (Run.connection_id r)
      && eqv (McpToolBinding.connection_version_id b) (Run.connection_version_id r)
      && eqv (McpToolBinding.protocol_revision b) (Run.protocol_revision r)))).

Lemma fetch_clean {R} (table : Db.t → gmap uuid R) id P env s :
  flushed s = work s → fetch table id P env s = Ok (lookup_where (table (work s)) id P, s).
Proof.
  intros Hf. unfold fetch, gets, by_id, lookup_where. rewrite Hf.
  destruct (table (work s) !! id) as [x|] eqn:Hx; [|done]. by destruct (P x); rewrite ?Hx.
Qed.

#[local] Arguments fetch : simpl never.
Lemma load_run_target_clean r env s :
  flushed s = work s → load_run_target r env s = Ok (target_of (work s) r, s).
Proof.
  intros Hf. unfold load_run_target, fetch_membership, gets, mbind, M_bind, flushed_identity.
  rewrite (fetch_clean capabilities), (fetch_clean server_connections) by done. cbn.
  unfold target_of. rewrite Hf.
  destruct (IdentityDb.workspace_memberships (Db.identity (work s)) !! _) as [m|] eqn:Hm;
    destruct (lookup_where (server_connections (work s)) _ _) as [c|]; cbn;
    try (destruct (ServerConnection.current_snapshot_id c) as [sn|]; cbn);
    rewrite (fetch_clean mcp_tool_bindings) by done; unfold flushed_registry; rewrite ?Hf; done.
Qed.

Lemma lookup_where_Some {R} (table : gmap uuid R) id P x :
  lookup_where table id P = Some x ↔ table !! id = Some x ∧ P x = true.
Proof.
  unfold lookup_where. destruct (table !! id) as [y|]; [destruct (P y) eqn:HP|]; split.
  - by intros [= <-].
  - by intros [[= <-] _].
  - done.
  - intros [[= <-] HP']. congruence.
  - done.
  - by intros [? _].
Qed.

(** ** Equivalence for the target *)

Lemma target_current_spec d r : target_current r (target_of d r) = true ↔ pinned_target d r.
Proof.
  unfold target_current, target_of. cbn. rewrite !andb_true_iff, eqv_true. split.
  - intros (((((Hp & Hm) & Hc) & Hn) & Ho) & Hb). constructor; [done|..].
    + destruct (_ !! _) as [m|]; [|done]. exists m. split; [done|]. breflect. set_solver.
    + destruct (lookup_where (capabilities d) _ _) as [c|] eqn:E; [|done].
      apply lookup_where_Some in E as [E Ew]. exists c. apply eqv_eq in Ew. breflect.
      split_and!; try done. by destruct (Capability.pending_version_id c).
    + destruct (lookup_where (server_connections d) _ _) as [c|] eqn:E; [|done].
      apply lookup_where_Some in E as [E Ew]. apply eqv_eq in Ew.
      destruct (ServerConnection.current_snapshot_id c) as [sn|] eqn:Es; [|done].
      exists c, sn. breflect. split_and!; try done. by destruct (ServerConnection.pending_version_id c).
    + apply is_some_spec in Hb as [b E]. apply lookup_where_Some in E as [E Ew].
      exists b. breflect. by split_and!.
  - intros [Hp (m & Hm & Hrole) (c & Hc & Hcw & Hcs & Hce & Hcp & Hcep)
      (n & sn & Hn & Hnw & Hnl & Hnp & Hnv & Hne & Hns & Hno) (b & Hb & Hb1 & Hb2 & Hb3 & Hb4 & Hb5)].
    assert (lookup_where (capabilities d) (Run.capability_id r)
      (λ c, eqv (Capability.workspace_id c) (Run.workspace_id r)) = Some c) as ->.
    { apply lookup_where_Some. by rewrite eqv_true. }
    assert (lookup_where (server_connections d) (Run.connection_id r)
      (λ c, eqv (ServerConnection.workspace_id c) (Run.workspace_id r)) = Some n) as ->.
    { apply lookup_where_Some. by rewrite eqv_true. }
    rewrite Hm, Hns, Hcs, Hce, Hcp, Hcep, Hnl, Hnp, Hnv, Hne, !eqv_refl, !Z.eqb_refl. split_and!; try done.
    + apply bool_decide_eq_true. set_solver.
    + by apply bool_decide_eq_true.
    + apply is_some_spec. exists b. apply lookup_where_Some. split; [done|].
      by rewrite Hb1, Hb2, Hb3, Hb4, Hb5, !eqv_refl.
Qed.

(** ** Equivalence for the fence *)

Lemma transaction_ok_post {A} (m : M A) env d (P : Prop) :
  wp m (λ _, True) (λ _ _, P) env (mkSession d d false 0 0) →
  is_ok (transaction m env d).1 = true → P.
Proof.
  unfold transaction, wp, mbind, M_bind. destruct (m env _) as [[a s]|]; [|done]. by intros HP _.
Qed.

Lemma transaction_ok {A} (m : M A) env d :
  wp m (λ _, False) (λ _ s', sess_inv ∅ s') env (mkSession d d false 0 0) →
  is_ok (transaction m env d).1 = true.
Proof.
  intros Hwp.
  assert (wp (a ← m; flush;; mret a) (λ _, False) (λ _ _, True) env (mkSession d d false 0 0)) as Hwp'.
  { apply wp_bind. eapply wp_conseq; [exact Hwp|]. cbn. intros a s' Hs'. apply wp_bind.
    eapply wp_flush_inv; [exact Hs'|]. intros _. by apply wp_ret. }
  unfold wp in Hwp'. unfold transaction.
  by destruct ((a ← m; flush;; mret a) env (mkSession d d false 0 0)) as [[a s']|e].
Qed.

Lemma wp_certain {A} (m : M A) (P : Prop) env s : P → wp m (λ _, True) (λ _ _, P) env s.
Proof. unfold wp. by destruct (m env s) as [[??]|]. Qed.

Lemma wp__execution_state_some E env s st (Q : SystemExecutionState.t → Session → Prop) :
  flushed s = work s → ExecutionDb.system_execution_state (exec s) = Some st →
  Q st s → wp _execution_state E Q env s.
Proof.
  intros Hf Hst HQ. unfold _execution_state, flushed_execution. apply wp_bind, wp_gets.
  rewrite Hf, Hst. apply wp_bind, wp_gets. rewrite Hst. by apply wp_ret.
Qed.

Section fence.
Context (d : Db.t) (env : Env) (lease : JobLease.t) (expected_ target : RunStatus.t) (ty : RunEventType.t).
Context (Hd : db_inv d) (Hexp : RunAttempt.active expected_ = true).
Context (Htgt : RunAttempt.active target = true) (Hstep : step expected_ ty target).
Let s := mkSession d d false 0 0.
Let Hs : sess_inv ∅ s := sess_init d 0 0 Hd.
Let now := clock env 0.

Lemma fence_sound :
  is_Some (ExecutionDb.system_execution_state (Db.execution d)) →
  wp (_fence_attempt lease expected_ target ty) (λ _, True)
     (λ _ _, fence_permitted d lease expected_ now) env s.
Proof using Hd Hexp.
  intros [st Hst]. unfold _fence_attempt, lease_lost. apply wp_bind.
  apply (wp__execution_state_some _ _ _ st); [done..|]. apply wp_bind, wp_gets. unfold flushed_execution. cbn.
  destruct (by_id _ _ _) as [k|] eqn:Hk; [|by apply wp_raise].
  apply by_id_Some in Hk as (-> & j & Hj & Hjc). apply andb_true_iff in Hjc as [Hjw%eqv_eq Hjr%eqv_eq].
  apply wp_bind. eapply (wp__locked_lease_lineage _ _ (λ _ _, I)); [exact Hs|]. intros r j' Hr Honly. cbn in Hr, Honly.
  assert (j' = j) as ->. { destruct Honly as [Hj' _]. congruence. }
  destruct (lineage_job _ _ _ r j (proj1 Hd) Hr Honly) as (Hjw2 & _ & _ & _).
  apply wp_bind. unfold select_workspace, flushed_identity. apply wp_gets. cbn.
  destruct (by_id _ (JobLease.workspace_id lease) _) as [w|] eqn:Hw; [|by apply wp_raise].
  apply by_id_Some in Hw as (-> & wr & Hw & _).
  apply wp_bind. eapply wp_deref; [exact Hr|]. apply wp_bind. eapply wp_deref; [apply Honly|].
  apply wp_bind, wp_read; [apply _|]. intros t Ht.
  rewrite load_run_target_clean in Ht by done. injection Ht as <-. cbn.
  apply wp_bind. eapply wp__active_attempt; [exact Hs|exact Hr|]. intros [k|] Hatt; cycle 1.
  { apply wp_bind, wp_ret, wp_bind, wp_durable_now. by apply wp_raise. }
  destruct Hatt as [a Ha]. apply wp_bind, wp_bind. eapply wp_deref; [apply Ha|]. apply wp_ret, wp_bind, wp_durable_now.
  destruct (fence_allowed _ _ _ _ _ _ _ _) eqn:Hok; [|by apply wp_raise].
  apply wp_certain. unfold fence_allowed, holds_lease, lease_unexpired in Hok.
  breflect. match goal with H : target_current _ _ = true |- _ => apply target_current_spec in H; rename H into Hpt end.
  destruct (Job.lease_expires_at j) as [e|] eqn:He; [|done]. breflect.
  constructor.
  - by exists st.
  - by eexists.
  - exists j, e. by split_and!.
  - exists r. split_and!; try done. congruence.
  - by exists k, a.
Qed.

Lemma fence_complete :
  fence_permitted d lease expected_ now →
  wp (_fence_attempt lease expected_ target ty) (λ _, False) (λ _ s', sess_inv ∅ s') env s.
Proof using Hd Hexp Htgt Hstep.
  intros [(st & Hst & Hq & Hep) [w Hw] (j & e & Hj & Hjw & Hjr & Hje & Hjs & Hjo & Hjl & Hjx & Hn1 & Hn2)
    (r & Hr & Hrw & Hrs & Hrc & Hpt) (k & a & Ha & Has & Hae)].
  destruct (flushed_run ∅ s (JobLease.run_id lease) r Hs (not_elem_of_empty _) Hr)
    as (r' & job & j' & Hr' & _ & Hjf & Hj' & _). cbn in Hr', Hj', Hjf.
  assert (JobLease.job_id lease = job) as Hjob by (eapply Hj'; eauto). subst job.
  assert (r' = r) as -> by congruence. assert (j' = j) as -> by (destruct Hj'; congruence).
  destruct (lineage_job _ _ _ r j (proj1 Hd) Hr Hj') as (_ & _ & _ & Hao).
  assert (fence_allowed st lease r j (target_of d r) (Some a) expected_ now = true) as Hok.
  { unfold fence_allowed, holds_lease, lease_unexpired. apply target_current_spec in Hpt.
    rewrite Hq, Hep, Hje, Hjs, Hjo, Hjl, Hjx, Hrc, Hrs, Hpt, Has, Hae, !eqv_refl, !Z.eqb_refl. cbn. lia. }
  unfold _fence_attempt, _locked_lease_lineage, _locked_job, select_workspace.
  apply wp_bind, (wp__execution_state_some _ _ _ st); [done..|].
  apply wp_bind, wp_gets. unfold flushed_execution, flushed_identity, by_id. cbn [flushed s].
  rewrite Hj, Hjw, Hjr, !eqv_refl. cbn [andb]. apply wp_bind, wp_bind, wp_gets. cbn [flushed s].
  rewrite Hj, Hjw, Hjr, !eqv_refl. cbn [negb]. apply wp_bind, wp_gets. cbn [flushed s].
  rewrite Hr, Hrw, eqv_refl. apply wp_bind, wp_bind, wp_gets. cbn [flushed s]. rewrite Hj, Hjw, eqv_refl.
  apply wp_bind. eapply wp_deref; [exact Hj|]. rewrite Hjr, eqv_refl. apply wp_ret, wp_ret.
  apply wp_bind, wp_gets. cbn [flushed s]. rewrite Hw.
  apply wp_bind. eapply wp_deref; [exact Hr|]. apply wp_bind. eapply wp_deref; [exact Hj|].
  apply wp_bind, wp_read; [apply _|]. intros t Ht.
  rewrite load_run_target_clean in Ht by done. injection Ht as <-.
  apply wp_bind. eapply wp__active_attempt; [exact Hs|exact Hr|]. intros attempt Hatt.
  assert (attempt = Some k) as ->.
  { destruct attempt as [k'|]; [|by destruct (Hatt k a)]. destruct Hatt as [a' Ha'].
    f_equal. by eapply (ao_unique _ _ _ _ Hao). }
  apply wp_bind, wp_bind. eapply wp_deref; [apply Ha|]. apply wp_ret, wp_bind, wp_durable_now.
  change (fence_allowed _ _ _ _ _ _ _ _)
    with (fence_allowed st lease r j (target_of d r) (Some a) expected_ now). rewrite Hok.
  set (s2 := s <| ticks := _ |>).
  eapply (wp_fence_rows _ _ s2); try done; [by eapply sess_inv_eq|by rewrite Hrs|by rewrite Hrs].
Qed.
End fence.

(** C7. The kill switches: a dispatch fence is granted exactly when, at the instant
    the fence reads the clock, nothing is quarantined, the worker still holds
    an unexpired lease of the current execution epoch before the deadline, no
    cancellation is requested, and the actor's role, the capability and the
    connection are those the run was admitted with, at the same epochs. *)
Theorem fence_dispatch_iff d env lease :
  db_inv d → is_Some (ExecutionDb.system_execution_state (Db.execution d)) →
  is_ok (transaction (fence_dispatch lease) env d).1 = true
  ↔ fence_permitted d lease RunStatus.SESSION_FENCED (clock env 0).
Proof.
  intros Hd Hst. unfold fence_dispatch. split; intros Hok.
  - eapply transaction_ok_post; [|exact Hok]. by apply fence_sound.
  - apply transaction_ok. apply fence_complete; try done. constructor.
Qed.

Lemma fence_dispatch_iff_witness :
  fence_permitted Scenario.prepared Scenario.lease RunStatus.SESSION_FENCED (seconds 103)
  ∧ is_Some (ExecutionDb.system_execution_state (Db.execution Scenario.prepared)).
Proof.
  split; [|vm_compute; by eexists].
  refine (proj1 (fence_dispatch_iff Scenario.prepared (Scenario.env 3) Scenario.lease _ _) _).
  - apply (reachable_inv _ prepared_reachable).
  - vm_compute. by eexists.
  - vm_compute. reflexivity.
Defined.

(** * Leases as fencing tokens: what a claim grants, that the epoch of a lease
    only grows, and that a worker operation under anything but the job's current
    lease fails and changes nothing. *)

(** ** Results of transactions *)

Lemma transaction_value {A} (m : M A) env d (Q : A → Session → Prop) a d' :
  wp m (λ _, True) Q env (mkSession d d false 0 0) → transaction m env d = (Ok a, d') →
  ∃ s, Q a s ∧ d' = work s ∧ conflict s = false.
Proof.
  unfold transaction, wp, mbind, M_bind. destruct (m env _) as [[b s]|]; [|done].
  unfold flush. intros HQ. destruct (conflict s) eqn:Hc; [done|].
  destruct (listeners_accept _ _); cbn; [|done]. destruct (schema_checks _); cbn; [|done].
  intros [= <- <-]. by exists s.
Qed.

(** An operation that always raises leaves the database as it was. *)
Lemma transaction_raises {A} (m : M A) env d :
  wp m (λ _, True) (λ _ _, False) env (mkSession d d false 0 0) →
  is_ok (transaction m env d).1 = false ∧ (transaction m env d).2 = d.
Proof. unfold transaction, wp, mbind, M_bind. by destruct (m env _) as [[b s]|]. Qed.

(** ** Claims *)

(** The rows and bounds of a lease that was just granted. *)
Record granted (d d' : Db.t) (env : Env) (worker_id : string) (lease_duration : Z) (l : JobLease.t)
    : Prop := {
  gt_rows : lease_rows (Db.execution d') l worker_id;
  gt_epoch : Job.lease_epoch <$> ExecutionDb.jobs (Db.execution d) !! JobLease.job_id l
             = Some (JobLease.lease_epoch l - 1);
  gt_state : ∃ st, ExecutionDb.system_execution_state (Db.execution d') = Some st
    ∧ SystemExecutionState.dispatch_quarantined st = false
    ∧ SystemExecutionState.execution_epoch st = JobLease.execution_epoch l;
  gt_bounds : ∃ n, clock env n < JobLease.expires_at l ≤ clock env n + lease_duration }.

Section claim.
Context `{Externals}.

(** C11. A claim that returns a lease has leased the job to the worker under a
    fresh lease epoch (one more than before), in the current execution epoch
    and out of quarantine, with an expiry in the future that exceeds neither the
    duration asked for nor the run's deadline; the run is being prepared and its
    active attempt carries the lease's epoch. *)
Theorem claim_job_grants self worker_id lease_duration env d l reconciled d' :
  reachable d →
  transaction (claim_job self worker_id lease_duration) env d = (Ok (Some l, reconciled), d') →
  granted d d' env worker_id lease_duration l.
Proof.
  intros Hd Ht. eapply transaction_value in Ht as (s & Hs & -> & _); cycle 1.
  { apply wp_claim_job; [done|by apply sess_init, reachable_inv|by left]. }
  cbn in Hs. destruct Hs as [_ []]. by constructor.
Qed.

(** C12. The lease epoch of a job never decreases, and its run, deadline and
    execution epoch never change. *)
Theorem lease_epoch_monotone o env d job j j' :
  ExecutionDb.jobs (Db.execution d) !! job = Some j →
  ExecutionDb.jobs (Db.execution (step_db o env d)) !! job = Some j' →
  Job.lease_epoch j ≤ Job.lease_epoch j' ∧ job_pin j' = job_pin j.
Proof.
  intros Hj. destruct (step_shape o env d) as [Hg|[ids ->]].
  - destruct (gr_jobs _ _ Hg job j Hj) as (j0 & Hj0 & Hp & Hl). rewrite Hj0. by intros [= <-].
  - cbn. intros [Hj' _]%keep_lookup. simplify_eq. by split; [lia|].
Qed.
End claim.

(** ** Worker operations *)

(** The lease is the one that the job's row names. *)
Record lease_current (d : Db.t) (l : JobLease.t) : Prop := {
  cu_epoch : current_epoch d = JobLease.execution_epoch l;
  cu_job : ∃ j, ExecutionDb.jobs (Db.execution d) !! JobLease.job_id l = Some j
    ∧ Job.run_id j = JobLease.run_id l ∧ Job.status j = JobStatus.LEASED
    ∧ Job.lease_owner j = Some (JobLease.worker_id l)
    ∧ Job.lease_epoch j = JobLease.lease_epoch l }.

Section worker.
Context (env : Env) (d : Db.t) (Hd : db_inv d).
Let s := mkSession d d false 0 0.

Lemma wp_state_read (Q : SystemExecutionState.t → Session → Prop) :
  (∀ st s', sess_inv ∅ s' → SystemExecutionState.execution_epoch st = current_epoch d →
     ExecutionDb.jobs (exec s') = ExecutionDb.jobs (Db.execution d) → Q st s') →
  wp _execution_state (λ _, True) Q env s.
Proof using Hd.
  intros HQ. assert (sess_inv ∅ s) as Hs by by apply sess_init.
  destruct (ExecutionDb.system_execution_state (Db.execution d)) as [st|] eqn:Hst.
  - apply (wp__execution_state_some _ _ _ st); [done..|]. apply HQ; [done| |done].
    unfold current_epoch. by rewrite Hst.
  - assert (wp _execution_state (λ _, True) (λ st _, SystemExecutionState.execution_epoch st = 1) env s) as Hone.
    { unfold _execution_state, flushed_execution. apply wp_bind, wp_gets. cbn. rewrite Hst.
      wp_steps. unfold wp. by destruct (flush env _) as [[??]|]. }
    pose proof (wp__execution_state (λ _, True) env s
      (λ st s', sess_inv ∅ s' ∧ ExecutionDb.jobs (exec s') = ExecutionDb.jobs (Db.execution d)) Hs) as Hinv.
    unfold wp in *. destruct (_execution_state env s) as [[st s']|]; [|done].
    destruct Hinv as [Hs' Hj]; [by intros st0 s0 Hs0 _ _ ->|].
    apply HQ; [done| |done]. rewrite Hone. unfold current_epoch. by rewrite Hst.
Qed.

(** The lease that a guard of the worker operations accepted is current. *)
Lemma lease_currentI (lease : JobLease.t) st s' j :
  SystemExecutionState.execution_epoch st = current_epoch d →
  ExecutionDb.jobs (exec s') = ExecutionDb.jobs (Db.execution d) →
  only_job (exec s') (JobLease.run_id lease) (JobLease.job_id lease) j →
  SystemExecutionState.execution_epoch st = JobLease.execution_epoch lease →
  holds_lease lease j = true → lease_current d lease.
Proof.
  intros He Hjobs (Hj & Hr & _) Hx Hh. unfold holds_lease in Hh. breflect.
  constructor; [congruence|]. exists j. rewrite <- Hjobs. by split_and!.
Qed.

Ltac wp_guard := apply wp_bind, wp_raise_if; [done|]; intros ?.

Lemma wp_fence_current lease expected_ target ty :
  wp (_fence_attempt lease expected_ target ty) (λ _, True) (λ _ _, lease_current d lease) env s.
Proof using Hd.
  unfold _fence_attempt, lease_lost. apply wp_bind, wp_state_read. intros st s' Hs' He Hj.
  apply wp_bind, wp_gets. destruct (by_id _ _ _); [|by apply wp_raise].
  apply wp_bind. eapply (wp__locked_lease_lineage _ _ (λ _ _, I)); [done|]. intros r j Hr Honly.
  wp_read as w _. destruct w; [|by apply wp_raise].
  apply wp_bind. eapply wp_deref; [exact Hr|]. apply wp_bind. eapply wp_deref; [apply Honly|].
  wp_read as t _. apply wp_bind. eapply wp__active_attempt; [done..|]. intros [k|] Hatt; cycle 1.
  { apply wp_bind, wp_ret, wp_bind, wp_durable_now. by apply wp_raise. }
  destruct Hatt as [a Ha]. apply wp_bind, wp_bind. eapply wp_deref; [apply Ha|].
  apply wp_ret, wp_bind, wp_durable_now.
  destruct (fence_allowed _ _ _ _ _ _ _ _) eqn:Hok; [|by apply wp_raise].
  apply wp_certain. unfold fence_allowed in Hok. breflect. by eapply lease_currentI.
Qed.

Lemma wp_heartbeat_current lease n :
  wp (heartbeat lease n) (λ _, True) (λ _ _, lease_current d lease) env s.
Proof using Hd.
  unfold heartbeat. wp_guard. apply wp_bind, wp_state_read. intros st s' Hs' He Hj.
  apply wp_bind. eapply (wp__locked_lease_lineage _ _ (λ _ _, I)); [done|]. intros r j Hr Honly.
  apply wp_bind, wp_durable_now, wp_bind. eapply wp_deref; [exact Hr|]. apply wp_bind.
  eapply wp_deref; [apply Honly|]. wp_guard. wp_guard. apply wp_certain. breflect. by eapply lease_currentI.
Qed.

Lemma wp_complete_current lease status code :
  wp (complete_lease lease status code) (λ _, True) (λ _ _, lease_current d lease) env s.
Proof using Hd.
  unfold complete_lease. wp_guard. wp_guard. apply wp_bind, wp_state_read. intros st s' Hs' He Hj.
  apply wp_bind. eapply (wp__locked_lease_lineage _ _ (λ _ _, I)); [done|]. intros r j Hr Honly.
  apply wp_bind, wp_durable_now, wp_bind. eapply wp_deref; [exact Hr|]. apply wp_bind.
  eapply wp_deref; [apply Honly|]. wp_guard. wp_guard. apply wp_certain. breflect. by eapply lease_currentI.
Qed.

Lemma wp_bind_certain {A B} (m : M A) (k : A → M B) (P : Prop) s0 :
  wp m (λ _, True) (λ _ _, P) env s0 → wp (m ≫= k) (λ _, True) (λ _ _, P) env s0.
Proof. intros Hm. apply wp_bind. eapply wp_conseq; [exact Hm|]. intros a s' HP. by apply wp_certain. Qed.
End worker.

Section powerless.
Context `{Externals}.

(** The operations of a worker on a lease it was granted. *)
Inductive worker_operation (l : JobLease.t) : operation → Prop :=
| worker_session : worker_operation l (FenceSession l)
| worker_begin n : worker_operation l (BeginSession l n)
| worker_dispatch : worker_operation l (FenceDispatch l)
| worker_heartbeat n : worker_operation l (Heartbeat l n)
| worker_complete status code : worker_operation l (CompleteLease l status code)
| worker_success self result : worker_operation l (CompleteInvocationSuccess self l result).

(** C8. A superseded lease is powerless: when the job's row no longer names the
    lease (another worker claimed the job under a later epoch, the run ended, or
    a restore began a new execution epoch), every operation of the worker fails
    and leaves the database exactly as it was. *)
Theorem superseded_lease_powerless l o env d :
  reachable d → worker_operation l o → ¬ lease_current d l →
  is_ok (transaction (perform o) env d).1 = false ∧ step_db o env d = d.
Proof.
  intros Hd Ho Hl. apply reachable_inv in Hd.
  assert (wp (perform o) (λ _, True) (λ _ _, lease_current d l) env (mkSession d d false 0 0)) as Hwp.
  { destruct Ho; cbn [perform]; unfold discard; apply wp_bind_certain.
    - exact (wp_fence_current env d Hd l _ _ _).
    - apply wp_bind_certain. exact (wp_heartbeat_current env d Hd l n).
    - exact (wp_fence_current env d Hd l _ _ _).
    - exact (wp_heartbeat_current env d Hd l n).
    - exact (wp_complete_current env d Hd l status code).
    - unfold complete_invocation_success. apply wp_bind, wp_raise_if; [done|]. intros _.
      apply wp_bind_certain. exact (wp_complete_current env d Hd l _ _). }
  apply transaction_raises. eapply wp_conseq; [exact Hwp|]. by intros _ _ ?%Hl.
Qed.
End powerless.

(** ** The theorems on the scenario *)

Lemma claim_job_grants_witness :
  ∃ d', transaction (claim_job Scenario.self "worker" (seconds 30)) (Scenario.env 1) Scenario.admitted
          = (Ok (Some Scenario.lease, []), d')
    ∧ granted Scenario.admitted d' (Scenario.env 1) "worker" (seconds 30) Scenario.lease.
Proof.
  assert ((transaction (claim_job Scenario.self "worker" (seconds 30)) (Scenario.env 1)
             Scenario.admitted).1 = Ok (Some Scenario.lease, [])) as H1 by (vm_compute; reflexivity).
  destruct (transaction (claim_job Scenario.self "worker" (seconds 30)) (Scenario.env 1)
              Scenario.admitted) as [x d'] eqn:Ht. cbn in H1. subst x.
  exists d'. split; [reflexivity|]. exact (claim_job_grants _ _ _ _ _ _ _ d' admitted_reachable Ht).
Defined.

Lemma lease_epoch_monotone_witness :
  ∃ j j', ExecutionDb.jobs (Db.execution Scenario.admitted) !! Scenario.job = Some j
    ∧ ExecutionDb.jobs (Db.execution (step_db Scenario.claim (Scenario.env 1) Scenario.admitted))
        !! Scenario.job = Some j'
    ∧ Job.lease_epoch j ≤ Job.lease_epoch j'.
Proof.
  destruct (ExecutionDb.jobs (Db.execution Scenario.admitted) !! Scenario.job) as [j|] eqn:Hj;
    [|vm_compute in Hj; discriminate Hj].
  destruct (ExecutionDb.jobs (Db.execution (step_db Scenario.claim (Scenario.env 1) Scenario.admitted))
              !! Scenario.job) as [j'|] eqn:Hj'; [|vm_compute in Hj'; discriminate Hj'].
  exists j, j'. split_and!; [reflexivity..|].
  exact (proj1 (lease_epoch_monotone _ _ _ _ j j' Hj Hj')).
Defined.

(** The lease expires, another worker claims the job, and the first worker
    tries to dispatch. *)
Lemma superseded_lease_powerless_witness :
  let reclaimed := step_db (ClaimJob Scenario.self "second" (seconds 30)) (Scenario.env 50) Scenario.claimed in
  step_db (FenceSession Scenario.lease) (Scenario.env 51) reclaimed = reclaimed.
Proof.
  intros reclaimed.
  refine (proj2 (superseded_lease_powerless Scenario.lease (FenceSession Scenario.lease) (Scenario.env 51)
    reclaimed (reachable_step _ _ _ claimed_reachable) (worker_session _) _)).
  intros [_ (j & Hj & _ & _ & _ & Hl)].
  assert (Job.lease_epoch <$> ExecutionDb.jobs (Db.execution reclaimed) !! JobLease.job_id Scenario.lease
          = Some 2) as H2 by (vm_compute; reflexivity).
  rewrite Hj in H2. injection H2 as H2. rewrite Hl in H2. discriminate H2.
Defined.
