(* ===== verification/MaintenanceSpec.v ===== *)
(** Restore quarantine: what entering and clearing it do, that nothing is
    admitted, claimed or dispatched in between, and that reconciliation ends
    every run that was active, so that the quarantine can be cleared. *)
From S2P Require Import Prelude Types Json PyStr Store Session Registry Identity Ledger Lease Maintenance Admission Hoare LedgerInv.
From S2P Require Import LedgerStep LedgerWp LeaseWp MaintenanceWp AdmissionWp Frame System Scenario Safety FenceSpec.
Local Open Scope Z_scope.

(** An operation that cannot fail commits what it did. *)
Lemma transaction_total {A} (m : M A) env d (Q : A → Db.t → Prop) :
  wp m (λ _, False) (λ a s, sess_inv ∅ s ∧ Q a (work s)) env (mkSession d d false 0 0) →
  ∃ a d', transaction m env d = (Ok a, d') ∧ Q a d'.
Proof.
  intros Hwp.
  assert (wp (a ← m; flush;; mret a) (λ _, False) (λ a s, Q a (work s)) env (mkSession d d false 0 0)) as Hwp'.
  { apply wp_bind. eapply wp_conseq; [exact Hwp|]. cbn. intros a s [Hs HQ]. apply wp_bind.
    eapply wp_flush_inv; [exact Hs|]. intros _. by apply wp_ret. }
  unfold wp in Hwp'. unfold transaction.
  destruct ((a ← m; flush;; mret a) env (mkSession d d false 0 0)) as [[a s]|e]; [|done].
  by exists a, (work s).
Qed.

Definition with_state (d : ExecutionDb.t) (st : SystemExecutionState.t) : ExecutionDb.t :=
  d <| ExecutionDb.system_execution_state := Some st |>.

Lemma quarantined_state d :
  quarantined d = true → ∃ st, ExecutionDb.system_execution_state (Db.execution d) = Some st
    ∧ SystemExecutionState.dispatch_quarantined st = true.
Proof. unfold quarantined. destruct (ExecutionDb.system_execution_state _) as [st|]; [|done]. by exists st. Qed.

(** The runs that are still active. *)
Definition active_runs (d : ExecutionDb.t) : gset uuid :=
  dom (filter (λ kr, RunStatus.active (Run.status kr.2) = true) (ExecutionDb.runs d)).

Lemma elem_of_active_runs d run :
  run ∈ active_runs d ↔ ∃ r, ExecutionDb.runs d !! run = Some r ∧ RunStatus.active (Run.status r) = true.
Proof.
  unfold active_runs. rewrite elem_of_dom. split.
  - intros [r [Hr Ha]%map_lookup_filter_Some]. by exists r.
  - intros (r & Hr & Ha). exists r. by apply map_lookup_filter_Some.
Qed.

(** ** Entering and clearing *)

Section enter.
Context `{Externals} (self : ExecutionService.t).

(** C15. Entering quarantine succeeds with system authority: the execution epoch
    advances by one, dispatch is quarantined, and no other execution row
    changes.  Without the authority it raises and changes nothing. *)
Theorem enter_restore_quarantine_spec env d :
  db_inv d →
  if ExecutionService.has_system_authority self then
    ∃ d', transaction (enter_restore_quarantine self) env d = (Ok (current_epoch d + 1), d')
      ∧ Db.execution d' = with_state (Db.execution d)
                            (SystemExecutionState.mk (current_epoch d + 1) true (clock env 0))
  else transaction (enter_restore_quarantine self) env d = (Err PermissionError, d).
Proof.
  intros Hd. destruct (ExecutionService.has_system_authority self) eqn:Ha; cycle 1.
  { unfold transaction, enter_restore_quarantine, _require_system_authority. by rewrite Ha. }
  destruct (transaction_total (enter_restore_quarantine self) env d (λ n d', n = current_epoch d + 1
    ∧ Db.execution d' = with_state (Db.execution d) (SystemExecutionState.mk (current_epoch d + 1) true (clock env 0))))
    as (n & d' & Ht & -> & Hd'); [|by exists d'].
  unfold enter_restore_quarantine, _require_system_authority. rewrite Ha.
  apply wp_bind, wp_ret, wp_bind, wp_durable_now, wp_bind. set (s1 := mkSession _ _ _ _ _).
  assert (sess_inv ∅ (s1 <| ticks := S (ticks s1) |>)) as Hs1 by (eapply sess_inv_eq; [by apply (sess_init d 0 0)|done..]).
  eapply wp__execution_state_clean; [exact Hs1|done|]. intros st s2 Hs2 _ Hst Hx Hor.
  assert (SystemExecutionState.execution_epoch st = current_epoch d) as Hep.
  { unfold current_epoch. cbn in Hor. by destruct Hor as [->|(-> & -> & _)]. }
  pose proof (state_epoch s2 st Hs2 Hst) as Hpos. apply wp_bind.
  eapply wp_update_execution_state; [exact Hs2|exact Hst|unfold SystemExecutionState.checks; cbn; lia|].
  intros s3 Hs3 _ Hx3. apply wp_bind. eapply wp_flush_inv; [exact Hs3|]. intros Hs4. apply wp_ret.
  split; [done|]. split; [congruence|]. subst s3. cbn. rewrite Hx, Hep. done.
Qed.

Lemma no_active_rows d :
  is_some (head (where_rows (ExecutionDb.runs d) (λ r, RunStatus.active (Run.status r)))) = false
  ↔ active_runs d = ∅.
Proof.
  destruct (where_rows _ _) as [|[k r] l] eqn:Hl; cbn; split; try done.
  - intros _. apply leibniz_equiv, elem_of_equiv_empty. intros run (r & Hr & Ha)%elem_of_active_runs.
    eapply (not_elem_of_nil (run, r)). rewrite <- Hl.
    by apply (elem_of_where_rows _ (λ r, RunStatus.active (Run.status r))).
  - intros He. exfalso. apply (not_elem_of_empty (C := gset uuid) k). rewrite <- He.
    apply elem_of_active_runs. exists r.
    apply (elem_of_where_rows _ (λ r, RunStatus.active (Run.status r))). rewrite Hl. by left.
Qed.

Lemma clear_sound env d :
  db_inv d → wp (clear_restore_quarantine self) (λ _, True)
    (λ _ _, ExecutionService.has_system_authority self = true ∧ quarantined d = true
            ∧ active_runs (Db.execution d) = ∅) env (mkSession d d false 0 0).
Proof.
  intros Hd. unfold clear_restore_quarantine, _require_system_authority.
  apply wp_bind, wp_raise_if; [done|]. intros Ha. apply wp_bind.
  eapply wp__execution_state_clean; [by apply sess_init|done|]. intros st s Hs Hfw Hst Hx Hor.
  apply state_read in Hor as [_ Hq]. apply wp_bind, wp_gets, wp_bind, wp_raise_if; [done|].
  intros Hg. apply wp_certain. unfold flushed_execution in Hg. rewrite Hfw, Hx in Hg.
  apply orb_false_iff in Hg as [Hg1 Hg2%no_active_rows]. apply negb_false_iff in Ha, Hg1.
  split_and!; [done| |done]. etrans; [|exact Hg1]. by symmetry.
Qed.

Lemma clear_complete env d :
  db_inv d → ExecutionService.has_system_authority self = true → quarantined d = true →
  active_runs (Db.execution d) = ∅ →
  wp (clear_restore_quarantine self) (λ _, False) (λ n s, sess_inv ∅ s ∧ n = current_epoch d
      ∧ Db.execution (work s) = with_state (Db.execution d)
          (SystemExecutionState.mk (current_epoch d) false (clock env 0))) env (mkSession d d false 0 0).
Proof.
  intros Hd Ha Hq0 Hact. unfold clear_restore_quarantine, _require_system_authority. rewrite Ha.
  apply wp_bind, wp_ret, wp_bind.
  destruct (quarantined_state d Hq0) as (st & Hst & Hq).
  apply (wp__execution_state_some _ _ _ st); [done..|].
  set (s := mkSession d d false 0 0). assert (sess_inv ∅ s) as Hs by by apply sess_init.
  assert (SystemExecutionState.execution_epoch st = current_epoch d) as Hep by (unfold current_epoch; by rewrite Hst).
  pose proof (state_epoch s st Hs Hst) as Hpos.
  apply wp_bind, wp_gets, wp_bind. cbn [flushed_execution]. unfold flushed_execution. cbn [flushed s].
  rewrite Hq, (proj2 (no_active_rows _) Hact). apply wp_ret, wp_bind.
  eapply wp_update_execution_state; [exact Hs|exact Hst|unfold SystemExecutionState.checks; cbn; lia|].
  intros s2 Hs2 Hst2 Hx2. apply wp_bind, wp_durable_now, wp_bind.
  eapply (wp_update_execution_state _ _ (s2 <| ticks := _ |>));
    [by eapply sess_inv_eq|exact Hst2|unfold SystemExecutionState.checks; cbn; lia|].
  intros s3 Hs3 _ Hx3. apply wp_bind. eapply wp_flush_inv; [exact Hs3|]. intros Hs4. apply wp_ret.
  split_and!; [done..|]. subst s3 s2. cbn. unfold with_state. by rewrite <- Hep.
Qed.

Lemma clear_succeeds env d :
  db_inv d → ExecutionService.has_system_authority self = true ∧ quarantined d = true
    ∧ active_runs (Db.execution d) = ∅ →
  is_ok (transaction (clear_restore_quarantine self) env d).1 = true.
Proof.
  intros Hd (Ha & Hq & Hact). destruct (transaction_total (clear_restore_quarantine self) env d
    (λ _ _, True)) as (n & d' & -> & _); [|done].
  eapply wp_conseq; [by apply clear_complete|]. by intros n s [Hs _].
Qed.

(** C12. Clearing quarantine succeeds exactly with system authority, in
    quarantine, and when no run is active; it returns the execution epoch and
    lifts the quarantine, and changes no other execution row. *)
Theorem clear_restore_quarantine_spec env d :
  db_inv d →
  (is_ok (transaction (clear_restore_quarantine self) env d).1 = true
   ↔ ExecutionService.has_system_authority self = true ∧ quarantined d = true
     ∧ active_runs (Db.execution d) = ∅)
  ∧ ∀ n d', transaction (clear_restore_quarantine self) env d = (Ok n, d') →
      n = current_epoch d
      ∧ Db.execution d' = with_state (Db.execution d)
                            (SystemExecutionState.mk (current_epoch d) false (clock env 0)).
Proof.
  intros Hd. split; [split|].
  - intros Hok. eapply transaction_ok_post; [|exact Hok]. by apply clear_sound.
  - by apply clear_succeeds.
  - intros n d' Ht. assert (is_ok (transaction (clear_restore_quarantine self) env d).1 = true) as Hok by by rewrite Ht.
    pose proof (transaction_ok_post _ env d _ (clear_sound env d Hd) Hok) as (Ha & Hq & Hact).
    destruct (transaction_total (clear_restore_quarantine self) env d (λ n d', n = current_epoch d
      ∧ Db.execution d' = with_state (Db.execution d)
          (SystemExecutionState.mk (current_epoch d) false (clock env 0)))) as (n' & d'' & Ht' & HQ);
      [by apply clear_complete|]. rewrite Ht in Ht'. by injection Ht' as <- <-.
Qed.
End enter.

(** What holds of the session that is committed holds of the database. *)
Lemma transaction_committed {A} (m : M A) env d (P : Db.t → Prop) :
  P d → wp m (λ _, True) (λ _ s, conflict s = false → P (work s)) env (mkSession d d false 0 0) →
  P (transaction m env d).2.
Proof.
  intros Hd. unfold transaction, wp, mbind, M_bind. destruct (m env _) as [[a s]|]; [|done].
  unfold flush. intros HP. destruct (conflict s); [done|].
  destruct (listeners_accept _ _); cbn; [|done]. destruct (schema_checks _); cbn; [by apply HP|done].
Qed.

(** ** Nothing starts during quarantine *)

(** The tables in which work is recorded. *)
Definition work_same (d d' : ExecutionDb.t) : Prop :=
  ExecutionDb.runs d' = ExecutionDb.runs d ∧ ExecutionDb.jobs d' = ExecutionDb.jobs d
  ∧ ExecutionDb.run_attempts d' = ExecutionDb.run_attempts d
  ∧ ExecutionDb.run_events d' = ExecutionDb.run_events d.

#[global] Instance work_same_preorder : PreOrder work_same.
Proof.
  split; [done|]. intros d1 d2 d3 (E1 & E2 & E3 & E4) (F1 & F2 & F3 & F4). split_and!; congruence.
Qed.

Lemma keeps_wp R {A} (m : M A) env s :
  Keeps R m → wp m (λ _, True) (λ _ s', conflict s' = false → R (exec s) (exec s')) env s.
Proof.
  intros Hm. unfold wp. destruct (m env s) as [[a s']|e] eqn:E; [|done]. by apply (Hm _ _ _ _ E).
Qed.

Section stopped.
Context `{Externals} (self : ExecutionService.t).

#[local] Instance work_same_add_nonce d n : Keeps work_same (add_nonce d n).
Proof. unfold add_nonce. apply keeps_bind; [apply _..|]. intros _. by apply keeps_put_execution. Qed.
#[local] Instance work_same_replay c i r q cl n :
  Keeps work_same (_replay_existing_run self c i r q cl n).
Proof. unfold _replay_existing_run, idempotency_conflict. solve_keeps. Qed.

Lemma keeps_fail R {A} e (k : unit → M A) : Keeps R (raise_if true e ≫= k).
Proof. by intros env s a s'. Qed.

Lemma work_same_admit_new c v cl st n d nd rk q dl now o :
  SystemExecutionState.dispatch_quarantined st = true →
  Keeps work_same (admit_new self c v cl st n d nd rk q dl now o).
Proof.
  intros Hq. destruct st as [epoch b at_]. cbn in Hq. subst b. unfold admit_new.
  repeat first [apply keeps_fail | keeps_step].
Qed.

(** [create_run] after it has read a quarantined execution state. *)
Lemma wp_create_run_quarantined c v a t k dl o env d :
  quarantined d = true →
  wp (create_run self c v a t k dl o) (λ _, True)
    (λ _ s', conflict s' = false → work_same (Db.execution d) (exec s')) env (mkSession d d false 0 0).
Proof.
  intros (st & Hst & Hq)%quarantined_state. unfold create_run. apply wp_bind.
  apply (wp__execution_state_some _ _ _ st); [done..|].
  match goal with |- wp ?m _ _ _ _ => assert (Keeps work_same m) as Hm end.
  { solve_keeps. apply keeps_nested; [apply _|]. intros s0.
    do 5 (apply keeps_from_bind; [apply keeps_from_keeps; [apply _|]; solve_keeps|intros ?]).
    lazymatch goal with |- KeepsFrom _ _ (match ?o with _ => _ end) => destruct o as [[id r]|] end.
    - apply keeps_from_bind; [apply _|]. intros _. apply keeps_from_keeps; [apply _|]. solve_keeps.
    - apply keeps_from_keeps; [apply _|]. apply keeps_bind; [apply _..|]. intros _.
      by apply work_same_admit_new. }
  by apply (keeps_wp work_same _ env (mkSession d d false 0 0)).
Qed.

End stopped.

Section theorem.
Context `{Externals}.

(** The operations that admit, claim or dispatch work, or keep a lease alive. *)
Definition starts_work (o : operation) : bool :=
  match o with
  | CreateRun _ _ _ _ _ _ _ _ | ClaimJob _ _ _ | FenceSession _ | BeginSession _ _
  | FenceDispatch _ | Heartbeat _ _ => true
  | _ => false
  end.

Lemma wp_heartbeat_quarantined l n env d st :
  db_inv d → ExecutionDb.system_execution_state (Db.execution d) = Some st →
  SystemExecutionState.dispatch_quarantined st = true →
  wp (heartbeat l n) (λ _, True) (λ _ _, False) env (mkSession d d false 0 0).
Proof.
  intros Hd Hst Hqs. unfold heartbeat. apply wp_bind, wp_raise_if; [done|]. intros _. apply wp_bind.
  apply (wp__execution_state_some _ _ _ st); [done..|]. apply wp_bind.
  eapply (wp__locked_lease_lineage _ _ (λ _ _, I)); [by apply sess_init|]. intros r j Hr Hj.
  apply wp_bind, wp_durable_now, wp_bind. eapply wp_deref; [exact Hr|]. apply wp_bind.
  eapply wp_deref; [apply Hj|]. rewrite Hqs. by apply wp_bind, wp_raise_if.
Qed.

(** C9. In quarantine nothing starts: no admission, claim, fence or heartbeat
    changes a run, a job, an attempt or an event. *)
Theorem quarantine_stops_work op env d :
  reachable d → quarantined d = true → starts_work op = true →
  work_same (Db.execution d) (Db.execution (step_db op env d)).
Proof.
  intros Hd Hq Hop. apply reachable_inv in Hd. destruct (quarantined_state d Hq) as (st & Hst & Hqs).
  assert (is_Some (ExecutionDb.system_execution_state (Db.execution d))) as His by by exists st.
  assert (∀ {A} (m : M A), wp m (λ _, True) (λ _ _, False) env (mkSession d d false 0 0) →
            work_same (Db.execution d) (Db.execution (transaction (discard m) env d).2)) as Hfail.
  { intros A m Hm. destruct (transaction_raises (discard m) env d) as [_ ->]; [|done].
    unfold discard. by apply wp_bind_certain. }
  unfold step_db. destruct op; try done; cbn [perform].
  - apply (transaction_committed _ env d (λ d', work_same (Db.execution d) (Db.execution d'))); [done|].
    unfold discard. apply wp_bind. eapply wp_conseq; [by apply wp_create_run_quarantined|].
    intros a s' Hs'. by apply wp_ret.
  - apply Hfail. unfold claim_job. apply wp_bind, wp_raise_if; [done|]. intros _. apply wp_bind, wp_durable_now, wp_bind.
    apply (wp__execution_state_some _ _ _ st); [done..|]. rewrite Hqs. by apply wp_bind, wp_raise_if.
  - apply Hfail. eapply wp_conseq; [exact (fence_sound d env lease RunStatus.PREPARING _ _ Hd eq_refl His)|].
    intros _ _ [(st' & Hst' & Hq' & _)]. congruence.
  - apply Hfail. apply wp_bind_certain. by eapply wp_heartbeat_quarantined.
  - apply Hfail. eapply wp_conseq; [exact (fence_sound d env lease RunStatus.SESSION_FENCED _ _ Hd eq_refl His)|].
    intros _ _ [(st' & Hst' & Hq' & _)]. congruence.
  - apply Hfail. by eapply wp_heartbeat_quarantined.
Qed.

(** ** Reconciliation makes progress *)

Definition no_locks (env : Env) : Prop := ∀ run, row_locked env run = false.

Lemma filter_id_all {A} (P : A → Prop) `{∀ x, Decision (P x)} (l : list A) : (∀ x, P x) → filter P l = l.
Proof. intros HP. induction l as [|x l IH]; [done|]. rewrite filter_cons_True by done. by rewrite IH. Qed.

Lemma selected_unlocked P column n env d :
  no_locks env → 0 ≤ n →
  len (selected P column n env d) = Z.min n (len (where_rows (ExecutionDb.runs d) P)).
Proof.
  intros Hl Hn. unfold selected, len. rewrite length_take.
  rewrite filter_id_all by (intros; apply Hl).
  rewrite length_fmap. unfold order_by. rewrite merge_sort_Permutation. lia.
Qed.

Lemma active_runs_where d :
  active_runs d = list_to_set (fst <$> where_rows (ExecutionDb.runs d) (λ r, RunStatus.active (Run.status r))).
Proof.
  apply leibniz_equiv. intros run. rewrite elem_of_active_runs, elem_of_list_to_set, list_elem_of_fmap. split.
  - intros (r & Hr & Ha). exists (run, r). split; [done|].
    by apply (elem_of_where_rows _ (λ r, RunStatus.active (Run.status r))).
  - intros ([k r] & -> & Hk). exists r.
    by apply (elem_of_where_rows _ (λ r, RunStatus.active (Run.status r))) in Hk.
Qed.

Lemma active_runs_size d :
  Z.of_nat (size (active_runs d)) = len (where_rows (ExecutionDb.runs d) (λ r, RunStatus.active (Run.status r))).
Proof.
  rewrite active_runs_where, size_list_to_set by apply NoDup_where_rows. unfold len. by rewrite length_fmap.
Qed.

Lemma active_runs_reconciled env n d d0 d' :
  ExecutionDb.runs d0 = ExecutionDb.runs d → runs_rewritten ended (reconciled_batch env n d) d0 d' →
  active_runs d' = active_runs d ∖ list_to_set (reconciled_batch env n d).
Proof.
  intros Hd0 [D Rest _]. apply leibniz_equiv. intros run.
  rewrite elem_of_difference, elem_of_list_to_set, !elem_of_active_runs.
  destruct (decide (run ∈ reconciled_batch env n d)) as [Hin|Hin].
  - destruct (D run Hin) as (r & r' & _ & Hr' & Ht). split; [|by intros [_ []]].
    intros (r'' & Hr'' & Ha). rewrite Hr' in Hr''. injection Hr'' as <-.
    rewrite RunStatus.active_not_terminal in Ha. unfold ended in Ht. by rewrite Ht in Ha.
  - rewrite Rest, Hd0 by done. naive_solver.
Qed.

Lemma transaction_discard {A} (m : M A) env d :
  (transaction (discard m) env d).2 = (transaction m env d).2.
Proof.
  unfold transaction, discard, mbind, M_bind. destruct (m env _) as [[a s]|]; [|done]. cbn.
  by destruct (flush env s) as [[[] s']|].
Qed.

Lemma reconcile_progress self n env d :
  db_inv d → ExecutionService.has_system_authority self = true → 1 ≤ n ≤ 1000 →
  quarantined d = true → no_locks env →
  ∃ k d', transaction (reconcile_restore_quarantine self n) env d = (Ok k, d')
    ∧ k = Z.min n (Z.of_nat (size (active_runs (Db.execution d))))
    ∧ Z.of_nat (size (active_runs (Db.execution d'))) = Z.of_nat (size (active_runs (Db.execution d))) - k
    ∧ quarantined d' = true ∧ db_inv d'.
Proof.
  intros Hd Ha Hn Hq Hl. set (s := mkSession d d false 0 0).
  assert (sess_inv ∅ s) as Hs by by apply sess_init.
  apply (transaction_total _ env d (λ k d', k = _ ∧ _ = _ ∧ _ ∧ db_inv d')).
  eapply wp_conseq.
  - apply (wp_reconcile_restore_quarantine (λ _, False) env self s n Hs eq_refl).
    + by rewrite Ha.
    + unfold batch_rejected. intros [?|?]%orb_true_iff; lia.
    + intros Hq'. change (quarantined d = false) in Hq'. congruence.
  - intros k s' (Hs' & -> & Hrw & Hq'). split; [done|]. change (exec s) with (Db.execution d) in *.
    assert (len (reconciled_batch env n (Db.execution d))
            = Z.min n (Z.of_nat (size (active_runs (Db.execution d))))) as Hlen.
    { rewrite active_runs_size. apply selected_unlocked; [done|lia]. }
    split; [done|]. split; [|split; [by rewrite Hq'|by eapply sess_db_inv]].
    apply active_runs_reconciled in Hrw; [|done].
    rewrite Hrw, size_difference.
    + rewrite size_list_to_set by apply NoDup_selected. fold (len (reconciled_batch env n (Db.execution d))).
      rewrite Nat2Z.inj_sub; [done|]. unfold len in Hlen. lia.
    + intros run Hrun%elem_of_list_to_set. apply elem_of_selected in Hrun as (r & Hr & Hact & _).
      apply elem_of_active_runs. by exists r.
Qed.

(** Reconciliation in one transaction after the other. *)
Definition reconcile_all self (n : Z) (envs : list Env) (d : Db.t) : Db.t :=
  foldl (λ d env, step_db (ReconcileRestoreQuarantine self n) env d) d envs.

Lemma reconcile_all_empties self n envs d :
  db_inv d → ExecutionService.has_system_authority self = true → 1 ≤ n ≤ 1000 →
  quarantined d = true → (∀ env, env ∈ envs → no_locks env) →
  Z.of_nat (size (active_runs (Db.execution d))) ≤ n * len envs →
  let d' := reconcile_all self n envs d in
  db_inv d' ∧ quarantined d' = true ∧ active_runs (Db.execution d') = ∅.
Proof.
  intros Hd Ha Hn Hq Henvs Hlen. revert d Hd Hq Hlen. induction envs as [|env envs IH]; intros d Hd Hq Hlen.
  - cbn in *. split_and!; [done..|]. apply leibniz_equiv, size_empty_iff. unfold len in Hlen. cbn in Hlen. lia.
  - cbn. assert (step_db (ReconcileRestoreQuarantine self n) env d
                 = (transaction (reconcile_restore_quarantine self n) env d).2) as -> by apply transaction_discard.
    destruct (reconcile_progress self n env d) as (k & d1 & -> & -> & Hsz & Hq1 & Hd1); try done.
    { apply Henvs. by left. }
    apply IH; [|done..|]. { intros env' Henv'. apply Henvs. by right. }
    cbn. rewrite Hsz. unfold len in *. cbn [length] in Hlen. nia.
Qed.

(** C9. Restore recovery completes: once in quarantine, enough batches of
    reconciliation (as many as cover the active runs) end every active run,
    and clearing the quarantine then succeeds. *)
Theorem restore_completes self n envs env d :
  reachable d → ExecutionService.has_system_authority self = true → 1 ≤ n ≤ 1000 →
  quarantined d = true → (∀ env, env ∈ envs → no_locks env) →
  Z.of_nat (size (active_runs (Db.execution d))) ≤ n * len envs →
  is_ok (transaction (clear_restore_quarantine self) env (reconcile_all self n envs d)).1 = true.
Proof.
  intros Hd%reachable_inv Ha Hn Hq Henvs Hlen.
  destruct (reconcile_all_empties self n envs d) as (Hd' & Hq' & Hact); [done..|].
  by apply clear_succeeds.
Qed.
End theorem.

(** ** The theorems on the scenario *)

Module Restore.
Definition quarantined_db : Db.t :=
  step_db (EnterRestoreQuarantine Scenario.self) (Scenario.env 10) Scenario.claimed.
Lemma quarantined_reachable : reachable quarantined_db.
Proof. apply reachable_step, claimed_reachable. Qed.
End Restore.

Lemma enter_restore_quarantine_spec_witness :
  ∃ d', transaction (enter_restore_quarantine Scenario.self) (Scenario.env 10) Scenario.claimed = (Ok 2, d').
Proof.
  destruct (enter_restore_quarantine_spec Scenario.self (Scenario.env 10) Scenario.claimed
    (reachable_inv _ claimed_reachable)) as (d' & Ht & _).
  assert (current_epoch Scenario.claimed = 1) as Hep by (vm_compute; reflexivity).
  rewrite Hep in Ht. exists d'. exact Ht.
Defined.

Lemma clear_restore_quarantine_spec_witness :
  is_ok (transaction (clear_restore_quarantine Scenario.self) (Scenario.env 11) Restore.quarantined_db).1 = false.
Proof.
  apply not_true_is_false. intros Hok.
  apply (clear_restore_quarantine_spec Scenario.self (Scenario.env 11) Restore.quarantined_db
    (reachable_inv _ Restore.quarantined_reachable)) in Hok as (_ & _ & Hact).
  assert (Scenario.run ∈ active_runs (Db.execution Restore.quarantined_db)) as Hin.
  { apply elem_of_active_runs. scenario_run Restore.quarantined_db r Hr. exists r. split; [reflexivity|].
    assert ((λ r, RunStatus.active (Run.status r))
              <$> ExecutionDb.runs (Db.execution Restore.quarantined_db) !! Scenario.run = Some true) as Hs
      by (vm_compute; reflexivity).
    rewrite Hr in Hs. by injection Hs. }
  rewrite Hact in Hin. by apply not_elem_of_empty in Hin.
Defined.

Lemma quarantine_stops_work_witness :
  work_same (Db.execution Restore.quarantined_db)
    (Db.execution (step_db (FenceSession Scenario.lease) (Scenario.env 12) Restore.quarantined_db)).
Proof.
  apply (quarantine_stops_work (FenceSession Scenario.lease) (Scenario.env 12) Restore.quarantined_db
    Restore.quarantined_reachable); vm_compute; reflexivity.
Defined.

Lemma restore_completes_witness :
  is_ok (transaction (clear_restore_quarantine Scenario.self) (Scenario.env 14)
    (reconcile_all Scenario.self 1 [Scenario.env 13] Restore.quarantined_db)).1 = true.
Proof.
  apply (restore_completes Scenario.self 1 [Scenario.env 13] (Scenario.env 14) Restore.quarantined_db
    Restore.quarantined_reachable).
  - reflexivity.
  - lia.
  - vm_compute. reflexivity.
  - intros env Henv. apply list_elem_of_singleton in Henv. rewrite Henv. intros run. reflexivity.
  - vm_compute. discriminate.
Defined.

(** * Retention: arguments are erased when they expire and the run has ended by
    then, and the metadata of a run is deleted, completely, only when the run
    ended long enough ago. *)

(** A batch that is not full found every unlocked row that was due. *)
Lemma selected_all P column n env d run r :
  no_locks env → 0 ≤ n → len (selected P column n env d) < n →
  ExecutionDb.runs d !! run = Some r → P r = true → run ∈ selected P column n env d.
Proof.
  intros Hl Hn Hlt Hr HP. rewrite selected_unlocked in Hlt by done. unfold selected.
  rewrite filter_id_all by (intros; apply Hl).
  rewrite take_ge.
  - apply list_elem_of_fmap. exists (run, r). split; [done|]. by apply elem_of_order_by, elem_of_where_rows.
  - rewrite length_fmap. unfold order_by. rewrite merge_sort_Permutation. unfold len in Hlt. lia.
Qed.

Lemma batch_accepted n : 1 ≤ n ≤ 1000 → batch_rejected n = false.
Proof. unfold batch_rejected. intros Hn. apply orb_false_iff. lia. Qed.

(** ** Content *)

Lemma selected_due P column n env d run r :
  ExecutionDb.runs d !! run = Some r → run ∈ selected P column n env d → P r = true.
Proof. intros Hr (r' & Hr' & HP & _)%elem_of_selected. congruence. Qed.

(** C15. Expiring retained content succeeds on every batch size in bounds: it
    erases the arguments of the runs it selects, each of which was due and has
    ended afterwards, and touches no other run; and when no row is locked and
    the batch is not full, no run keeps arguments past their expiry. *)
Theorem expire_retained_content_spec n env d :
  db_inv d → 1 ≤ n ≤ 1000 →
  ∃ k d', transaction (expire_retained_content n) env d = (Ok k, d')
    ∧ (∀ run r, ExecutionDb.runs (Db.execution d) !! run = Some r →
         ∃ r', ExecutionDb.runs (Db.execution d') !! run = Some r'
           ∧ (r' = r ∨ content_due (clock env 0) r = true ∧ erased r r'))
    ∧ (no_locks env → k < n → ∀ run r, ExecutionDb.runs (Db.execution d') !! run = Some r →
         content_due (clock env 0) r = false).
Proof.
  intros Hd Hn. set (s := mkSession d d false 0 0). assert (sess_inv ∅ s) as Hs by by apply sess_init.
  pose proof (wp_expire_retained_content (λ _, False) env s n Hs) as Hwp.
  rewrite batch_accepted in Hwp by done. specialize (Hwp (λ H, diff_false_true H)).
  destruct (transaction_total (expire_retained_content n) env d (λ k d',
    k = len (expired_batch env n (clock env 0) (Db.execution d))
    ∧ runs_rewritten erased (expired_batch env n (clock env 0) (Db.execution d)) (Db.execution d) (Db.execution d')))
    as (k & d' & Ht & -> & [D Rest _]); [by eapply wp_conseq|].
  exists (len (expired_batch env n (clock env 0) (Db.execution d))), d'. split; [done|].
  set (l := expired_batch env n (clock env 0) (Db.execution d)) in *. split.
  - intros run r Hr. destruct (decide (run ∈ l)) as [Hin|Hin].
    + destruct (D run Hin) as (r0 & r' & Hr0 & Hr' & He). rewrite Hr in Hr0. injection Hr0 as <-.
      exists r'. split; [done|right]. split; [|done]. by eapply selected_due.
    + exists r. rewrite Rest by done. by split; [|left].
  - intros Hl Hk run r Hr. destruct (decide (run ∈ l)) as [Hin|Hin].
    + destruct (D run Hin) as (r0 & r' & _ & Hr' & He & _). rewrite Hr in Hr'. injection Hr' as ->.
      unfold content_due. by rewrite He.
    + rewrite Rest in Hr by done. apply not_true_is_false. intros Hdue. apply Hin.
      eapply selected_all; try done. lia.
Qed.

(** ** Metadata *)

Lemma filter_nil_id {K R} `{Countable K} (f : K * R → uuid) (m : gmap K R) :
  filter (λ kr, f kr ∉ ([] : list uuid)) m = m.
Proof. apply map_filter_id. intros. apply not_elem_of_nil. Qed.

Lemma cascade_nil d : cascade [] d = d.
Proof.
  unfold cascade, keep. destruct d. cbn.
  rewrite (filter_nil_id fst), (filter_nil_id (λ kr, RunResult.run_id kr.2)),
    (filter_nil_id (λ kr, Job.run_id kr.2)), (filter_nil_id (λ kr, RunAttempt.run_id kr.2)),
    (filter_nil_id (λ kr, ConfirmationNonce.run_id kr.2)),
    (filter_nil_id (λ kr, IdempotencyRecord.resource_id kr.2)).
  assert (filter (λ e, RunEvent.run_id e ∉ []) run_events = run_events) as ->; [|done].
  apply filter_id_all. intros e. apply not_elem_of_nil.
Qed.

(** Nothing in the database belongs to a run. *)
Record no_trace (run : uuid) (d : ExecutionDb.t) : Prop := {
  nt_jobs : ∀ k j, ExecutionDb.jobs d !! k = Some j → Job.run_id j ≠ run;
  nt_attempts : ∀ k a, ExecutionDb.run_attempts d !! k = Some a → RunAttempt.run_id a ≠ run;
  nt_events : ∀ e, e ∈ ExecutionDb.run_events d → RunEvent.run_id e ≠ run;
  nt_results : ∀ k r, ExecutionDb.run_results d !! k = Some r → RunResult.run_id r ≠ run;
  nt_nonces : ∀ k n, ExecutionDb.confirmation_nonces d !! k = Some n → ConfirmationNonce.run_id n ≠ run;
  nt_records : ∀ k r, ExecutionDb.idempotency_records d !! k = Some r →
    IdempotencyRecord.resource_id r ≠ run }.

Lemma cascade_no_trace ids d run : run ∈ ids → no_trace run (cascade ids d).
Proof.
  intros Hrun. constructor; cbn; try (intros k x [_ Hx]%keep_lookup; congruence).
  - intros e [He _]%list_elem_of_filter. congruence.
  - intros k n [_ Hn]%map_lookup_filter_Some. cbn in Hn. congruence.
Qed.

Section metadata.
Context (self : ExecutionService.t).

Definition metadata_due (now : instant) (r : Run.t) : bool :=
  match Run.terminal_at r with
  | Some at_ => at_ <=? now - days (ExecutionLimits.run_retention_days (ExecutionService.limits self))
  | None => false
  end.

Definition deleted_batch (n : Z) (env : Env) (d : ExecutionDb.t) : list uuid :=
  selected (metadata_due (clock env 0)) (λ r, default 0 (Run.terminal_at r)) n env d.

Lemma delete_metadata_exact n env d :
  db_inv d → 1 ≤ n ≤ 1000 →
  ∃ d', transaction (delete_expired_run_metadata self n) env d
          = (Ok (len (deleted_batch n env (Db.execution d))), d')
    ∧ Db.execution d' = cascade (deleted_batch n env (Db.execution d)) (Db.execution d).
Proof.
  intros Hd Hn. destruct (transaction_total (delete_expired_run_metadata self n) env d (λ k d',
    k = len (deleted_batch n env (Db.execution d))
    ∧ Db.execution d' = cascade (deleted_batch n env (Db.execution d)) (Db.execution d)))
    as (k & d' & Ht & -> & Hd'); [|by exists d'].
  unfold delete_expired_run_metadata. rewrite batch_accepted by done. apply wp_bind, wp_ret, wp_bind, wp_durable_now.
  wp_read as ids [= <-]. fold (deleted_batch n env (Db.execution d)).
  change (take _ _) with (deleted_batch n env (Db.execution d)).
  assert (sess_inv ∅ (mkSession d d false 1 0)) as Hs by by apply sess_init.
  apply wp_bind. destruct (deleted_batch n env (Db.execution d)) as [|x l] eqn:Hl.
  - apply wp_ret, wp_ret. split; [exact Hs|]. split; [done|]. cbn. symmetry. apply cascade_nil.
  - eapply (wp_execute_delete _ _ _ (cascade (x :: l))); [done|done|exact Hd|by apply cascade_inv, Hd|].
    intros s' Hs' Hx. apply wp_ret. by split_and!.
Qed.

(** C12. Deleting expired metadata removes a run only when it ended at least the
    retention period ago, removes everything that belongs to it (job, attempts,
    events, result, nonces, idempotency records), keeps the rows of all other
    runs, and when no row is locked and the batch is not full leaves no run that
    was due. *)
Theorem delete_expired_run_metadata_spec n env d :
  db_inv d → 1 ≤ n ≤ 1000 →
  ∃ k d', transaction (delete_expired_run_metadata self n) env d = (Ok k, d')
    ∧ (∀ run r, ExecutionDb.runs (Db.execution d) !! run = Some r →
         ExecutionDb.runs (Db.execution d') !! run = Some r ∧ same run (Db.execution d) (Db.execution d')
         ∨ metadata_due (clock env 0) r = true ∧ ExecutionDb.runs (Db.execution d') !! run = None
           ∧ no_trace run (Db.execution d'))
    ∧ (no_locks env → k < n → ∀ run r, ExecutionDb.runs (Db.execution d') !! run = Some r →
         metadata_due (clock env 0) r = false).
Proof.
  intros Hd Hn. destruct (delete_metadata_exact n env d Hd Hn) as (d' & Ht & Hd').
  eexists _, d'. split; [exact Ht|]. rewrite Hd'. set (l := deleted_batch n env (Db.execution d)). split.
  - intros run r Hr. destruct (decide (run ∈ l)) as [Hin|Hin]; [right|left].
    + split; [by eapply selected_due|]. split; [|by apply cascade_no_trace].
      apply map_lookup_filter_None. right. intros x _ Hx. by apply Hx.
    + split; [|by apply cascade_same]. by apply map_lookup_filter_Some.
  - intros Hl Hk run r [Hr Hin]%map_lookup_filter_Some. apply not_true_is_false. intros Hdue. apply Hin.
    eapply selected_all; try done. lia.
Qed.
End metadata.

(** ** The theorems on the scenario

    A day is far beyond the retention of the arguments in the scenario. *)

Lemma expire_retained_content_spec_witness :
  ∃ k d', transaction (expire_retained_content 10) (Scenario.env 99999999) Scenario.completed = (Ok k, d')
    ∧ ∀ run r, ExecutionDb.runs (Db.execution d') !! run = Some r →
        content_due (clock (Scenario.env 99999999) 0) r = false.
Proof.
  destruct (expire_retained_content_spec 10 (Scenario.env 99999999) Scenario.completed
    (reachable_inv _ completed_reachable) ltac:(lia)) as (k & d' & Ht & _ & Hall).
  exists k, d'. split; [exact Ht|].
  assert ((transaction (expire_retained_content 10) (Scenario.env 99999999) Scenario.completed).1 = Ok 1) as H1
    by (vm_compute; reflexivity).
  rewrite Ht in H1. cbn in H1. injection H1 as Hk. apply Hall; [intros run; reflexivity|lia].
Defined.

Lemma delete_expired_run_metadata_spec_witness :
  ∃ k d', transaction (delete_expired_run_metadata Scenario.self 10) (Scenario.env 99999999) Scenario.completed
            = (Ok k, d')
    ∧ no_trace Scenario.run (Db.execution d').
Proof.
  destruct (delete_expired_run_metadata_spec Scenario.self 10 (Scenario.env 99999999) Scenario.completed
    (reachable_inv _ completed_reachable) ltac:(lia)) as (k & d' & Ht & Hrows & Hall).
  exists k, d'. split; [exact Ht|].
  assert ((transaction (delete_expired_run_metadata Scenario.self 10) (Scenario.env 99999999)
             Scenario.completed).1 = Ok 1) as H1 by (vm_compute; reflexivity).
  rewrite Ht in H1. cbn in H1. injection H1 as Hk.
  scenario_run Scenario.completed r Hr.
  destruct (Hrows Scenario.run r Hr) as [[Hr' _]|(_ & _ & Hn)]; [exfalso|exact Hn].
  assert ((metadata_due Scenario.self (clock (Scenario.env 99999999) 0)
           <$> ExecutionDb.runs (Db.execution Scenario.completed) !! Scenario.run) = Some true) as Hdue
    by (vm_compute; reflexivity).
  rewrite Hr in Hdue.
  change (Some (metadata_due Scenario.self (clock (Scenario.env 99999999) 0) r) = Some true) in Hdue.
  rewrite (Hall (λ run, eq_refl) ltac:(lia) Scenario.run r Hr') in Hdue. discriminate Hdue.
Defined.
