(* ===== verification/Composition.v ===== *)
(** The registry and the execution services together: neither writes the other's
    tables, so the theorems of each hold in histories that interleave both, and a
    change of an epoch in the registry revokes the runs pinned to it for good. *)
From S2P Require Import Prelude Types Json PyStr Secrets Screening Store Session Registry Identity Endpoint Connection.
From S2P Require Import Capabilities Discovery Ledger Lease Maintenance Admission LedgerInv Hoare LedgerStep.
From S2P Require Import LedgerWp LeaseWp Frame Triple RegistryWp RegistrySafety System FenceSpec.
Local Open Scope Z_scope.

(** ** The execution services leave the registry alone *)

(** The registry is [d], in both views. *)
Definition quiet (d : RegistryDb.t) (s : Session) : Prop := reg_flushed s = d ∧ reg_work s = d.

#[global] Instance quiet_inv d : RegInv (quiet d).
Proof.
  split.
  - intros s s' Hw Hf _. unfold quiet. by rewrite Hw, Hf.
  - intros s _ [Hf Hw]. done.
Qed.

#[global] Instance quiet_put_execution d f : Preserves (quiet d) (put_execution f).
Proof. by intros env s a s' Hs [= <- <-]. Qed.
#[global] Instance quiet_try_flush d : Preserves (quiet d) try_flush.
Proof.
  intros env s a s' Hs. unfold try_flush, flush. destruct (conflict s); [by intros [= <- <-]|].
  destruct (listeners_accept _ _); cbn; [|done]. destruct (schema_checks _); cbn; intros [= <- <-]; [|done].
  by destruct Hs.
Qed.
#[global] Instance quiet_map_rows d {A B} (l : list A) (body : A → M B) :
  (∀ x, Preserves (quiet d) (body x)) → Preserves (quiet d) (map_rows l body).
Proof.
  intros Hb. induction l as [|x l IH]; cbn; [apply _|].
  apply preserves_bind; [apply Hb|intros b]. apply preserves_bind; [done|intros ?; apply _].
Qed.
#[global] Instance quiet_fetch_capability d id P : Preserves (quiet d) (fetch_capability id P).
Proof.
  intros env s a s' [Hf Hw]. unfold fetch_capability, gets, mbind, M_bind. cbn. unfold flushed_registry.
  unfold reg_flushed in Hf. rewrite Hf. destruct (RegistryDb.capabilities d !! id) as [c|] eqn:Hc; [|by intros [= <- <-]].
  destruct (P c); cbn; intros [= <- <-]; [|done]. split; [done|]. unfold reg_work in *. cbn. rewrite Hw.
  destruct d as [ncs vs cs cvs bs es ps sn sc js re rv rc]. cbn in *.
  transitivity (RegistryDb.mk ncs vs (<[id := c]> cs) cvs bs es ps sn sc js re rv rc); [done|]. by rewrite insert_id.
Qed.
#[global] Instance quiet_fetch_connection d id P : Preserves (quiet d) (fetch_connection id P).
Proof.
  intros env s a s' [Hf Hw]. unfold fetch_connection, gets, mbind, M_bind. cbn. unfold flushed_registry.
  unfold reg_flushed in Hf. rewrite Hf. destruct (RegistryDb.server_connections d !! id) as [c|] eqn:Hc; [|by intros [= <- <-]].
  destruct (P c); cbn; intros [= <- <-]; [|done]. split; [done|]. unfold reg_work in *. cbn. rewrite Hw.
  destruct d as [ncs vs cs cvs bs es ps sn sc js re rv rc]. cbn in *.
  transitivity (RegistryDb.mk (<[id := c]> ncs) vs cs cvs bs es ps sn sc js re rv rc); [done|]. by rewrite insert_id.
Qed.
Lemma quiet_nested d {A} (k : Session → M A) :
  (∀ s0, quiet d s0 → Preserves (quiet d) (k s0)) → Preserves (quiet d) (begin_nested ≫= k).
Proof.
  intros Hk env s a s' Hs. unfold begin_nested, gets, mbind, M_bind.
  destruct (flush env s) as [[u s1]|] eqn:E; [|done]. cbn.
  assert (quiet d s1) as Hs1 by (by refine (post_preserves _ _ _ _ _ _ _ Hs E)). by apply Hk.
Qed.
Lemma quiet_rollback d s0 : quiet d s0 → Preserves (quiet d) (rollback_to s0).
Proof. intros Hs0. by intros env s a s' _ [= <- <-]. Qed.

(** Decompose a program, unfolding the operations it calls. *)
Ltac head_of m := lazymatch m with ?f _ => head_of f | _ => m end.
Ltac quiet_step :=
  lazymatch goal with
  | |- ∀ _, _ => intros
  | |- Preserves _ (let _ := _ in _) => cbv zeta
  | |- Preserves _ (begin_nested ≫= _) => apply quiet_nested; intros ? ?
  | |- Preserves _ (rollback_to _) => by apply quiet_rollback
  | |- Preserves _ (for_each _ _) => apply preserves_for_each
  | |- Preserves _ (map_rows _ _) => apply quiet_map_rows
  | |- Preserves _ (_ ≫= _) => apply preserves_bind; [|intros ?]
  | |- Preserves _ (match ?x with _ => _ end) => destruct x
  | |- Preserves _ (λ _ _, Ok (_, _)) => by intros ? ? ? ? ? [= <- <-]
  | |- Preserves _ ?m => first [solve [apply _] | let f := head_of m in unfold f]
  end.
Ltac solve_quiet := repeat quiet_step.

Section quiet.
Context `{Externals} (d : RegistryDb.t).
Abbreviation I := (quiet d).

Lemma quiet_perform o : Preserves I (perform o).
Proof. destruct o; cbn [perform]; solve_quiet. Qed.
End quiet.

(** ** The registry services leave the execution tables alone *)

Section apart.
Context `{Urls} `{Patterns} (R : ExecutionDb.t → ExecutionDb.t → Prop) `{!PreOrder R}.

Ltac apart_keeps :=
  lazymatch goal with
  | |- ∀ _, _ => intros
  | |- Keeps _ (let _ := _ in _) => cbv zeta
  | |- Keeps _ (for_each _ _) => apply keeps_for_each; [done|]
  | |- Keeps _ (_ ≫= _) => apply keeps_bind; [done|..]
  | |- Keeps _ (match ?x with _ => _ end) => destruct x
  | |- Keeps _ ?m => first [solve [apply _] | let f := head_of m in unfold f]
  end.

#[global] Instance keeps_perform_registry context o correlation : Keeps R (perform_registry context o correlation).
Proof using PreOrder0. destruct o; cbn [perform_registry]; repeat apart_keeps. Qed.
End apart.

(** ** One system *)

Section system.
Context `{Urls} `{Patterns} `{Externals}.

(** A step of the whole program: a transaction of the execution services, of the
    registry services in some workspace, or one that writes neither's tables. *)
Inductive system_step (d d' : Db.t) : Prop :=
| execution_step o env : d' = step_db o env d → system_step d d'
| registry_service_step w : registry_step w d d' → system_step d d'
| identity_step : Db.execution d' = Db.execution d → Db.registry d' = Db.registry d →
    schema_checks d' = true → system_step d d'.
Definition system_history : Db.t → Db.t → Prop := rtc system_step.

Lemma execution_keeps_registry o env d : Db.registry (step_db o env d) = Db.registry d.
Proof.
  unfold step_db. destruct (transaction (perform o) env d) as [[u|e] d'] eqn:E; cbn.
  - apply commit_ok in E as (s & E & _ & ->).
    by refine (proj2 (quiet_perform (Db.registry d) o _ _ _ _ _ E)).
  - revert E. unfold transaction. case_match; [by case_match|]. by intros [= _ ->].
Qed.

Lemma registry_keeps_execution w d d' :
  registry_step w d d' → schema_checks d = true →
  Db.execution d' = Db.execution d ∧ schema_checks d' = true.
Proof.
  intros (context & o & correlation & env & _ & ->) Hd. split; [|by apply transaction_checks].
  symmetry. apply (transaction_keeps eq), _.
Qed.

Lemma reachable_system_step d d' : system_step d d' → reachable d → reachable d'.
Proof.
  intros [o env ->|w Hs|He Hr Hc] Hd; [by apply reachable_step| |by eapply reachable_other].
  apply registry_keeps_execution in Hs as [He Hc]; [by eapply reachable_other|].
  by apply db_inv_schema, reachable_inv.
Qed.
Lemma reachable_system d d' : system_history d d' → reachable d → reachable d'.
Proof. induction 1; eauto using reachable_system_step. Qed.

(** The registry advances through every step. *)
Lemma system_step_capability d d' k c :
  system_step d d' → capabilities d !! k = Some c →
  ∃ c', capabilities d' !! k = Some c' ∧ capability_advances c c'.
Proof.
  intros [o env ->|w Hs|_ Hr _] Hc.
  - exists c. unfold capabilities in *. by rewrite execution_keeps_registry.
  - apply (history_capability d d' k c); [|done]. apply rtc_once. by exists w.
  - exists c. unfold capabilities in *. by rewrite Hr.
Qed.
Lemma system_step_connection d d' k c :
  system_step d d' → server_connections d !! k = Some c →
  ∃ c', server_connections d' !! k = Some c' ∧ connection_advances c c'.
Proof.
  intros [o env ->|w Hs|_ Hr _] Hc.
  - exists c. unfold server_connections in *. by rewrite execution_keeps_registry.
  - apply (history_connection d d' k c); [|done]. apply rtc_once. by exists w.
  - exists c. unfold server_connections in *. by rewrite Hr.
Qed.
Lemma system_capability d d' k c :
  system_history d d' → capabilities d !! k = Some c →
  ∃ c', capabilities d' !! k = Some c' ∧ Capability.status_epoch c ≤ Capability.status_epoch c'.
Proof.
  intros Hh. induction Hh as [d|d d1 d' Hs _ IH] in c |- *; [by exists c|]. intros Hc.
  destruct (system_step_capability _ _ _ _ Hs Hc) as (c1 & Hc1 & [? ? ? ? He _]).
  destruct (IH c1 Hc1) as (c' & ? & ?). exists c'. split; [done|lia].
Qed.
Lemma system_connection d d' k c :
  system_history d d' → server_connections d !! k = Some c →
  ∃ c', server_connections d' !! k = Some c' ∧ ServerConnection.control_epoch c ≤ ServerConnection.control_epoch c'.
Proof.
  intros Hh. induction Hh as [d|d d1 d' Hs _ IH] in c |- *; [by exists c|]. intros Hc.
  destruct (system_step_connection _ _ _ _ Hs Hc) as (c1 & Hc1 & [? ? ? He ? _ _]).
  destruct (IH c1 Hc1) as (c' & ? & ?). exists c'. split; [done|lia].
Qed.

(** ** Revocation *)

(** The operations that start a new epoch of what [r] is pinned to. *)
Definition revoking (o : registry_operation) (r : Run.t) : Prop :=
  match o with
  | EnableCapability c _ | DisableCapability c _ => c = Run.capability_id r
  | AppendVersion _ c _ _ _ | DisableConnection c | EnableConnection c => c = Run.connection_id r
  | _ => False
  end.

(** [r] is pinned to epochs that [d] has reached. *)
Definition pinned_within (d : Db.t) (r : Run.t) : Prop :=
  (∃ c, capabilities d !! Run.capability_id r = Some c ∧ Run.capability_status_epoch r ≤ Capability.status_epoch c)
  ∧ (∃ n, server_connections d !! Run.connection_id r = Some n
          ∧ Run.connection_control_epoch r ≤ ServerConnection.control_epoch n).

(** [r] is pinned to an epoch that [d] has left. *)
Definition outdated (d : Db.t) (r : Run.t) : Prop :=
  (∃ c, capabilities d !! Run.capability_id r = Some c ∧ Run.capability_status_epoch r < Capability.status_epoch c)
  ∨ (∃ n, server_connections d !! Run.connection_id r = Some n
          ∧ Run.connection_control_epoch r < ServerConnection.control_epoch n).

Lemma outdated_history d d' r : system_history d d' → outdated d r → outdated d' r.
Proof.
  intros Hh [(c & Hc & He)|(c & Hc & He)].
  - destruct (system_capability _ _ _ _ Hh Hc) as (c' & Hc' & ?). left. exists c'. split; [done|lia].
  - destruct (system_connection _ _ _ _ Hh Hc) as (c' & Hc' & ?). right. exists c'. split; [done|lia].
Qed.

Lemma outdated_not_pinned d r : outdated d r → ¬ pinned_target d r.
Proof.
  intros Ho [_ _ (c & Hc & _ & _ & _ & _ & Hce) (n & sn & Hn & _ & _ & _ & _ & Hne & _) _].
  destruct Ho as [(c' & Hc' & ?)|(n' & Hn' & ?)]; simplify_eq; lia.
Qed.

(** *** What a decision does to its capability *)

Lemma post_locked_capability context id d {B} (k : Capability.t → M B) Q :
  (∀ c, capabilities d !! id = Some c → Post (capability_held id c) (k c) Q) →
  Post (λ s, flushed s = d) (_locked_capability context id ≫= k) Q.
Proof.
  intros Hk env s b s' <- E. revert E.
  unfold _locked_capability, fetch_capability, gets, mbind, M_bind. cbn.
  destruct (RegistryDb.capabilities (flushed_registry s) !! id) as [c|] eqn:Hc; [|done].
  destruct (eqv _ _); cbn; [|done]. intros E. eapply Hk; [exact Hc| |exact E].
  intros _. unfold reg_work. cbn. split; [done|apply lookup_insert_eq].
Qed.

(** The capability [id] of [d] is in its next status epoch. *)
Definition next_status (d : Db.t) (id : uuid) (s : Session) : Prop := ∃ c c',
  capabilities d !! id = Some c ∧ row_is RegistryDb.capabilities id c' s
  ∧ Capability.status_epoch c' = Capability.status_epoch c + 1.

Lemma next_status_post d id c f {A} (k : unit → M A) :
  capabilities d !! id = Some c → Capability.status_epoch (f c) = Capability.status_epoch c + 1 →
  (∀ u, Preserves (row_is RegistryDb.capabilities id (f c)) (k u)) →
  Post (capability_held id c) (update_capability id f ≫= k) (next_status d id).
Proof.
  intros Hc Hf Hk. eapply post_weaken.
  - eapply (post_then _ (row_is RegistryDb.capabilities id (f c))); [|intros u; by apply post_preserves].
    intros env s u s' Hs [= <- <-] Hcf. unfold reg_work. cbn. rewrite lookup_alter_eq.
    destruct (Hs Hcf) as [_ Hw]. unfold reg_work in Hw. by rewrite Hw.
  - intros s Hs. by exists c, (f c).
Qed.

Lemma decision_post context id o correlation d :
  (∃ v, o = EnableCapability id v ∨ o = DisableCapability id v) →
  Post (λ s, flushed s = d) (perform_registry context o correlation) (next_status d id).
Proof.
  assert (∀ {A} (m : M A), Post (λ s, flushed s = d) m (next_status d id) →
    Post (λ s, flushed s = d) (m ;; mret tt) (next_status d id)) as Hret.
  { intros A m Hm. eapply post_then; [exact Hm|]. intros a. by intros env s u s' Hs [= <- <-]. }
  intros (v & [-> | ->]); cbn [perform_registry]; apply Hret; unfold enable_capability, disable_capability, _append_status_event;
    (apply post_bind; [apply unflushed_start, _|intros m]); apply post_locked_capability; intros c Hc; cbv zeta;
    repeat (apply post_bind; [solve [untouched]|intros ?]);
    (apply next_status_post; [done|done|intros ?; untouched]).
Qed.

(** A committed operation that revokes a run outdates its pins. *)
Lemma revoking_outdates context o correlation env d d1 r :
  transaction (perform_registry context o correlation) env d = (Ok tt, d1) →
  revoking o r → pinned_within d r → outdated d1 r.
Proof.
  intros (s & E & Hc & ->)%commit_ok Ho ((c & Hcap & Hce) & (n & Hconn & Hne)).
  assert ((∃ v, o = EnableCapability (Run.capability_id r) v ∨ o = DisableCapability (Run.capability_id r) v)
    ∨ changes_control (Run.connection_id r) o) as [Hd|Hd].
  { destruct o; cbn in Ho; try done; subst; naive_solver. }
  - destruct (decision_post context _ o correlation d Hd env (mkSession d d false 0 0) tt s eq_refl E) as (c0 & c1 & Hc0 & Hc1 & He).
    left. exists c1. rewrite Hcap in Hc0. injection Hc0 as <-. split; [by apply Hc1|lia].
  - destruct (control_change_post context _ o correlation d Hd env (mkSession d d false 0 0) tt s eq_refl E) as (n0 & n1 & Hn0 & Hn1 & He).
    right. exists n1. rewrite Hconn in Hn0. injection Hn0 as <-. split; [by apply Hn1|lia].
Qed.

Lemma fence_refused d env lease expected target ty :
  db_inv d → RunAttempt.active expected = true →
  is_Some (ExecutionDb.system_execution_state (Db.execution d)) →
  (∀ now, ¬ fence_permitted d lease expected now) →
  is_ok (transaction (_fence_attempt lease expected target ty) env d).1 = false.
Proof.
  intros Hd Ha Hst Hno. apply not_true_iff_false. intros Hok. apply (Hno (clock env 0)).
  eapply transaction_ok_post; [|exact Hok]. by apply fence_sound.
Qed.

(** C10. Revocation is final.  When a committed operation enables or disables a
    capability, or changes, disables or enables its connection, no run admitted
    before can be prepared or dispatched any more: whatever transactions of both
    services follow, even ones that enable the same version again, both fences
    refuse every lease of a run that is pinned to the epochs of before. *)
Theorem revocation_is_final context o correlation env d d1 d2 lease r env' :
  reachable d → transaction (perform_registry context o correlation) env d = (Ok tt, d1) →
  system_history d1 d2 →
  ExecutionDb.runs (Db.execution d2) !! JobLease.run_id lease = Some r → revoking o r → pinned_within d r →
  is_Some (ExecutionDb.system_execution_state (Db.execution d2)) →
  is_ok (transaction (fence_session lease) env' d2).1 = false
  ∧ is_ok (transaction (fence_dispatch lease) env' d2).1 = false.
Proof.
  intros Hd Hop Hh Hr Ho Hp Hst.
  assert (outdated d2 r) as Hout by (by eapply outdated_history, revoking_outdates).
  assert (reachable d2) as Hd2.
  { eapply reachable_system; [exact Hh|]. eapply reachable_system_step; [|exact Hd].
    eapply (registry_service_step _ _ (WorkspaceContext.workspace_id context)).
    exists context, o, correlation, env. by rewrite Hop. }
  assert (∀ expected now, ¬ fence_permitted d2 lease expected now) as Hno.
  { intros expected now [_ _ _ (r' & Hr' & _ & _ & _ & Hpt) _]. simplify_eq. by eapply outdated_not_pinned. }
  pose proof (reachable_inv d2 Hd2) as Hi. unfold fence_session, fence_dispatch. split.
  - exact (fence_refused d2 env' lease RunStatus.PREPARING _ _ Hi eq_refl Hst (Hno _)).
  - exact (fence_refused d2 env' lease RunStatus.SESSION_FENCED _ _ Hi eq_refl Hst (Hno _)).
Qed.
End system.
