(* ===== verification/RegistryScenario.v ===== *)
(** A concrete workspace on which the registry theorems are instantiated: a
    connection is created, refreshed and promoted, its tool is enabled, and a
    lease of it is taken over by another worker. *)
From S2P Require Import Prelude Types Json PyStr Secrets Store Session Registry Identity Screening Endpoint Connection Capabilities Discovery.
From S2P Require Import Lease RegistrySafety RefreshInv Review System Scenario Composition.
From stdpp Require Import strings.
Local Open Scope Z_scope.

Module RegistryScenario.

#[global] Instance urls : Urls := {
  urlsplit := λ _, Some (SplitResult.mk "https" (Some "tools.example"%string) None None None "/mcp" "" "");
  ip_address := λ _, None;
  idna_encode := λ s, Some s;
  inet_aton := λ _, false;
  unquote_strict := λ s, Some s }.
#[global] Instance patterns : Patterns := {
  re2_search := λ _, None; Screening.unquote := λ s, s; float_repr := λ _, "0.0"%string }.

Definition service : ConnectionService.t := ConnectionService.mk "production" false.
Definition endpoint : string := "https://tools.example/mcp".
Definition admin : WorkspaceContext.t := Scenario.context.
Definition digest : string := Scenario.digest64.

Definition schema : Json.t := Json.Dict [(Json.KStr "type", Json.Str "object")].
Definition echo : ToolDefinition.t :=
  ToolDefinition.mk "echo" "echo" "Echo" None schema None digest true.
Definition found : DiscoveryResult.t :=
  DiscoveryResult.mk QUALIFIED_PROTOCOL_REVISION [echo] (Json.Dict []) 2 digest.

Definition empty : Db.t := Db.mk Scenario.identity (Db.registry Db.empty) (Db.execution Db.empty).

(** The [n]-th transaction. *)
Definition run (n : Z) (o : registry_operation) (d : Db.t) : result exn unit * Db.t :=
  transaction (perform_registry admin o None) (Scenario.env n) d.

Definition connection : uuid := 1000%positive.
Definition version : uuid := 1001%positive.
Definition created : Db.t := (run 0 (CreateConnection service "tools" endpoint None "v1") empty).2.
Definition job : uuid := 2000%positive.
Definition enqueued : Db.t := (run 1 (EnqueueRefresh connection) created).2.
Definition claimed : Db.t := (run 2 (ClaimRefresh job "worker" (seconds 10)) enqueued).2.
Definition lease : RefreshLease.t := RefreshLease.mk job Scenario.admin "worker" 1 connection version 0 1.
Definition published : Db.t := (run 3 (PublishSuccess lease found) claimed).2.
Definition capability : uuid := 4002%positive.
Definition capability_version : uuid := 4003%positive.
Definition enabled : Db.t := (run 4 (EnableCapability capability capability_version) published).2.

(** The lease runs out, and another worker takes the job over. *)
Definition reclaimed : Db.t := (run 20 (ClaimRefresh job "other" (seconds 10)) claimed).2.
Definition second_lease : RefreshLease.t :=
  RefreshLease.mk job Scenario.admin "other" 2 connection version 0 1.
(** An administrator changes the endpoint while the lease is held. *)
Definition appended : Db.t := (run 3 (AppendVersion service connection endpoint None "v2") claimed).2.
End RegistryScenario.

(** * The registry theorems on the concrete workspace of RegistryScenario.v. *)

Import RegistryScenario.
Local Open Scope Z_scope.

Lemma run_step n o d : registry_step Scenario.workspace d (run n o d).2.
Proof. by exists admin, o, None, (Scenario.env n). Qed.

Lemma run_history n o d d' : registry_history d' d → registry_history d' (run n o d).2.
Proof. intros Hh. eapply rtc_r; [exact Hh|]. exists Scenario.workspace. apply run_step. Qed.

Lemma reclaimed_history : registry_history empty reclaimed.
Proof. do 4 apply run_history. apply rtc_refl. Qed.

Lemma epochs_are_fences_witness :
  registry_history published enabled
  ∧ is_Some (capability_versions published !! capability_version)
  ∧ ∀ k v, capability_versions published !! k = Some v → capability_versions enabled !! k = Some v.
Proof.
  split_and!; [apply run_history, rtc_refl|vm_compute; by eexists|].
  apply (epochs_are_fences published enabled). apply run_history, rtc_refl.
Defined.

Lemma workspaces_isolated_witness :
  registry_step Scenario.workspace created enqueued
  ∧ same_elsewhere Scenario.workspace ServerConnection.workspace_id
      (server_connections created) (server_connections enqueued).
Proof.
  split; [apply run_step|]. apply (workspaces_isolated Scenario.workspace created enqueued), run_step.
Defined.

Lemma spent_lease_powerless_witness :
  spent reclaimed lease
  ∧ ∃ e, transaction (perform_registry admin (PublishSuccess lease found) None) (Scenario.env 21) reclaimed
         = (Err e, reclaimed).
Proof.
  assert (spent reclaimed lease) as Hs.
  { left. eexists. split; [vm_compute; reflexivity|]. right. vm_compute. reflexivity. }
  split; [exact Hs|].
  apply (spent_lease_powerless reclaimed reclaimed lease admin (PublishSuccess lease found) None (Scenario.env 21));
    [exact Hs|apply rtc_refl|reflexivity].
Defined.

Lemma publication_spends_lease_witness :
  (transaction (publish_success admin lease found) (Scenario.env 3) claimed).1 = Ok 4001%positive
  ∧ spent (transaction (publish_success admin lease found) (Scenario.env 3) claimed).2 lease.
Proof.
  split; [vm_compute; reflexivity|].
  apply (publication_spends_lease admin lease (Scenario.env 3) claimed). left. exists found, 4001%positive.
  assert ((transaction (publish_success admin lease found) (Scenario.env 3) claimed).1 = Ok 4001%positive) as <-
    by (vm_compute; reflexivity). by destruct (transaction _ _ _).
Defined.

Lemma superseded_leases_spent_witness :
  (run 20 (ClaimRefresh job "other" (seconds 10)) claimed).1 = Ok tt
  ∧ spent (transaction (claim admin job "other" (seconds 10)) (Scenario.env 20) claimed).2 lease.
Proof.
  split; [vm_compute; reflexivity|].
  apply (proj1 (superseded_leases_spent admin (Scenario.env 20) claimed
    (transaction (claim admin job "other" (seconds 10)) (Scenario.env 20) claimed).2) job "other"%string (seconds 10)
    second_lease lease); [|reflexivity|reflexivity].
  assert ((transaction (claim admin job "other" (seconds 10)) (Scenario.env 20) claimed).1 = Ok second_lease) as <-
    by (vm_compute; reflexivity). by destruct (transaction _ _ _).
Defined.

Lemma one_outstanding_refresh_witness :
  is_Some (discovery_refresh_jobs reclaimed !! job) ∧ refresh_inv (Db.registry reclaimed).
Proof.
  split; [vm_compute; by eexists|].
  apply (one_outstanding_refresh empty reclaimed); [reflexivity|apply reclaimed_history].
Defined.

Lemma run_ok n o d :
  (run n o d).1 = Ok tt → transaction (perform_registry admin o None) (Scenario.env n) d = (Ok tt, (run n o d).2).
Proof. unfold run. by destruct (transaction _ _ _) as [r ?]; cbn; intros ->. Qed.

Lemma enabled_ok : (run 4 (EnableCapability capability capability_version) published).1 = Ok tt.
Proof. vm_compute. reflexivity. Qed.

Lemma only_review_enables_witness :
  ∃ c', capabilities enabled !! capability = Some c'
    ∧ (Capability.enabled_version_id c' = capabilities published !! capability ≫= Capability.enabled_version_id
       ∨ ∃ version, EnableCapability capability capability_version = EnableCapability capability version
           ∧ Capability.enabled_version_id c' = Some version ∧ reviewable admin capability version published).
Proof.
  eexists. split; [vm_compute; reflexivity|].
  refine (only_review_enables admin _ None (Scenario.env 4) published _ capability _ (run_ok 4 _ _ enabled_ok) _).
  vm_compute. reflexivity.
Defined.

Lemma registry_authorized_witness : current_member admin [Role.ADMIN; Role.OPERATOR] published.
Proof. exact (registry_authorized admin _ None (Scenario.env 4) published _ (run_ok 4 _ _ enabled_ok)). Defined.

(** The capability of an admitted and leased run is disabled, and enabled again. *)
Definition disabled : Db.t := (run 10 (DisableCapability Scenario.capability Scenario.capability_version) Scenario.claimed).2.
Definition enabled_again : Db.t := (run 11 (EnableCapability Scenario.capability Scenario.capability_version) disabled).2.

Lemma revocation_is_final_witness :
  (run 11 (EnableCapability Scenario.capability Scenario.capability_version) disabled).1 = Ok tt
  ∧ is_ok (transaction (fence_session Scenario.lease) (Scenario.env 12) Scenario.claimed).1 = true
  ∧ is_ok (transaction (fence_session Scenario.lease) (Scenario.env 12) enabled_again).1 = false.
Proof.
  split_and!; [vm_compute; reflexivity|vm_compute; reflexivity|].
  destruct (ExecutionDb.runs (Db.execution enabled_again) !! JobLease.run_id Scenario.lease) as [r|] eqn:Hr;
    [|vm_compute in Hr; discriminate].
  assert ((run 10 (DisableCapability Scenario.capability Scenario.capability_version) Scenario.claimed).1 = Ok tt) as Hok
    by (vm_compute; reflexivity).
  refine (proj1 (revocation_is_final admin _ None (Scenario.env 10) Scenario.claimed _ enabled_again Scenario.lease r
    (Scenario.env 12) claimed_reachable (run_ok 10 _ _ Hok) _ Hr _ _ _)).
  - apply rtc_once. eapply (registry_service_step _ _ Scenario.workspace). apply run_step.
  - vm_compute in Hr. injection Hr as <-. reflexivity.
  - vm_compute in Hr. injection Hr as <-. split; (eexists; split; [vm_compute; reflexivity|vm_compute; discriminate]).
  - vm_compute. by eexists.
Defined.

Lemma validate_configuration_safe_witness :
  ∃ parsed host, urlsplit endpoint = Some parsed
    ∧ normalize_endpoint_host (SplitResult.hostname parsed) = Ok host
    ∧ endpoint_safe service endpoint false parsed host.
Proof. refine (proj2 (proj1 (validate_configuration_safe service endpoint "v1" false) _)). vm_compute. reflexivity. Defined.
