(* ===== verification/Matcher.v ===== *)
(** [_IncrementalByteMatcher] of mcp_adapter/policy.py: a Knuth-Morris-Pratt
    automaton over chunks of a response, and its correctness. *)
From S2P Require Import Prelude PyStr.
From Stdlib Require Import Ascii.
Local Open Scope nat_scope.

Abbreviation bytes := (list ascii).

(** ** The code *)

(** [while matched and byte != pattern[matched]: matched = prefix[matched - 1]];
    the fuel is the first value of [matched], which each round decreases. *)
Fixpoint fall_back (fuel : nat) (pattern : bytes) (prefix : list nat) (byte : ascii) (matched : nat) : nat :=
  match fuel with
  | O => matched
  | S fuel =>
      if negb (matched =? 0) && negb (eqv (pattern !! matched) (Some byte))
      then fall_back fuel pattern prefix byte (default 0 (prefix !! (matched - 1)))
      else matched
  end.

(** The rest of the body of both loops. *)
Definition advance (pattern : bytes) (prefix : list nat) (matched : nat) (byte : ascii) : nat :=
  let matched := fall_back matched pattern prefix byte matched in
  if eqv (pattern !! matched) (Some byte) then S matched else matched.

Module Matcher.

(** [_prefix_table] *)
Definition extend_table (pattern : bytes) (entry : list nat * nat) (index : nat) : list nat * nat :=
  let '(prefix, matched) := entry in
  match pattern !! index with
  | Some byte => let matched := advance pattern prefix matched byte in (<[index := matched]> prefix, matched)
  | None => (prefix, matched)
  end.
Definition _prefix_table (pattern : bytes) : list nat :=
  (fold_left (extend_table pattern) (seq 1 (length pattern - 1)) (replicate (length pattern) 0, 0)).1.

Record t := mk { patterns : list bytes; prefixes : list (list nat); states : list nat }.

(** [__init__] *)
Definition init (values : list bytes) : t :=
  let patterns := List.filter (λ p, negb (match p with [] => true | _ => false end)) values in
  mk patterns (_prefix_table <$> patterns) (replicate (length patterns) 0).

(** The inner loop of [feed]: [true] when a pattern is complete, which returns at
    once, without storing the state of that pattern. *)
Fixpoint feed_byte (byte : ascii) (patterns : list bytes) (prefixes : list (list nat)) (states : list nat)
    : bool * list nat :=
  match patterns, prefixes, states with
  | pattern :: patterns, prefix :: prefixes, matched :: states =>
      let matched' := advance pattern prefix matched byte in
      if matched' =? length pattern then (true, matched :: states)
      else let '(found, states) := feed_byte byte patterns prefixes states in (found, matched' :: states)
  | _, _, _ => (false, states)
  end.

(** [feed] *)
Fixpoint feed (self : t) (value : bytes) : bool * t :=
  match value with
  | [] => (false, self)
  | byte :: value =>
      let '(found, states') := feed_byte byte (patterns self) (prefixes self) (states self) in
      let self := mk (patterns self) (prefixes self) states' in
      if found then (true, self) else feed self value
  end.

(** Feeding a sequence of chunks: did any of them complete a pattern? *)
Fixpoint feed_all (self : t) (chunks : list bytes) : bool * t :=
  match chunks with
  | [] => (false, self)
  | chunk :: chunks =>
      let '(found, self) := feed self chunk in
      if found then (true, self) else feed_all self chunks
  end.
End Matcher.

(** ** Borders *)

(** [pattern] occurs in [text]. *)
Definition occurs (pattern text : bytes) : Prop := ∃ before after, text = before ++ pattern ++ after.

(** The first [k] bytes of the pattern end the text. *)
Definition border (pattern : bytes) (k : nat) (text : bytes) : Prop :=
  k ≤ length pattern ∧ take k pattern `suffix_of` text.

(** [k] is the longest border among those below [bound]. *)
Definition longest (pattern : bytes) (bound k : nat) (text : bytes) : Prop :=
  k < bound ∧ border pattern k text ∧ ∀ j, j < bound → border pattern j text → j ≤ k.

Lemma suffix_nested {A} (x y t : list A) :
  x `suffix_of` t → y `suffix_of` t → length x ≤ length y → x `suffix_of` y.
Proof.
  intros [a Ha] [b Hb] Hl. subst t. apply app_eq_inv in Hb as [(k & -> & ->)|(k & -> & ->)].
  - by exists k.
  - assert (k = []) as ->; [|by exists []]. destruct k; [done|]. rewrite length_app in Hl. cbn in Hl. lia.
Qed.

Section pattern.
Context (p : bytes).
Implicit Types (t : bytes) (b : ascii) (j k m : nat).

Lemma border_zero t : border p 0 t.
Proof. split; [lia|]. apply suffix_nil. Qed.

Lemma border_nested j k t : j ≤ k → border p j t → border p k t → border p j (take k p).
Proof.
  intros Hjk [Hj Hj'] [Hk Hk']. split; [done|]. eapply suffix_nested; [done..|]. rewrite !length_take. lia.
Qed.

Lemma border_trans j k t : border p j (take k p) → border p k t → border p j t.
Proof. intros [Hj Hj'] [Hk Hk']. split; [done|]. by etrans. Qed.

Lemma border_snoc k t b : border p (S k) (t ++ [b]) ↔ border p k t ∧ p !! k = Some b.
Proof.
  split.
  - intros [Hk Hs]. assert (is_Some (p !! k)) as [c Hc] by (apply lookup_lt_is_Some; lia).
    rewrite (take_S_r _ _ c Hc) in Hs. apply suffix_snoc_inv_1 in Hs as Hb. apply suffix_snoc_inv_2 in Hs.
    subst c. split; [split; [lia|done]|done].
  - intros [[Hk Hs] Hb]. pose proof (lookup_lt_Some _ _ _ Hb). split; [lia|].
    rewrite (take_S_r _ _ b Hb). destruct Hs as [a ->]. exists a. by rewrite (assoc_L app).
Qed.

Lemma border_full t : border p (length p) t ↔ p `suffix_of` t.
Proof. unfold border. rewrite firstn_all. naive_solver. Qed.

(** ** The failure table *)

Definition table_ok (prefix : list nat) (n : nat) : Prop :=
  ∀ j, j < n → ∃ m, prefix !! j = Some m ∧ longest p (S j) m (take (S j) p).

Lemma fall_back_spec prefix n t b fuel m :
  table_ok prefix n → m ≤ n → m ≤ fuel → border p m t →
  (∀ k, k < length p → border p k t → p !! k = Some b → k ≤ m) →
  let r := fall_back fuel p prefix b m in
  r ≤ m ∧ border p r t ∧ (r = 0 ∨ p !! r = Some b)
  ∧ (∀ k, k < length p → border p k t → p !! k = Some b → k ≤ r).
Proof.
  intros Ht. revert m. induction fuel as [|fuel IH]; intros m Hn Hf Hm Hmax; cbn.
  - assert (m = 0) as -> by lia. split_and!; [lia|done|by left|done].
  - destruct (Nat.eqb_spec m 0) as [->|Hm0]; cbn; [split_and!; [lia|done|by left|done]|].
    destruct (eqv (p !! m) (Some b)) eqn:Hb; cbn; [apply eqv_eq in Hb; split_and!; [lia|done|by right|done]|].
    apply eqv_false in Hb. destruct (Ht (m - 1)) as (m' & Hm' & Hlt & Hbo & Hlong); [lia|].
    replace (S (m - 1)) with m in * by lia. rewrite Hm'. cbn.
    assert (border p m' t) as Hbm' by (by eapply border_trans).
    destruct (IH m') as (H1 & H2 & H3 & H4); [lia|lia|done| |].
    + intros k Hk Hkb Hkc. assert (k ≠ m) by congruence. specialize (Hmax k Hk Hkb Hkc).
      apply Hlong; [lia|]. eapply border_nested; [|done..]. lia.
    + split_and!; [lia|done..].
Qed.

(** One byte of the automaton. *)
Lemma advance_spec prefix n t b m :
  table_ok prefix n → m ≤ n → longest p (length p) m t →
  longest p (S (length p)) (advance p prefix m b) (t ++ [b]) ∧ advance p prefix m b ≤ S m.
Proof.
  intros Ht Hn (Hm & Hbo & Hmax). unfold advance.
  destruct (fall_back_spec prefix n t b m m Ht Hn (le_n _) Hbo) as (H1 & H2 & H3 & H4).
  { intros k Hk Hkb _. by apply Hmax. }
  set (r := fall_back m p prefix b m) in *.
  destruct (eqv (p !! r) (Some b)) eqn:Hb.
  - apply eqv_eq in Hb. pose proof (lookup_lt_Some _ _ _ Hb). split; [|lia].
    split_and!; [lia|by apply border_snoc|].
    intros [|k] Hk Hkb; [lia|]. apply border_snoc in Hkb as [Hkb Hkc]. apply le_n_S, H4; [|done..]. lia.
  - apply eqv_false in Hb. destruct H3 as [H3|H3]; [|done]. split; [|lia].
    rewrite H3 in *. split_and!; [lia|apply border_zero|].
    intros [|k] Hk Hkb; [lia|]. apply border_snoc in Hkb as [Hkb Hkc].
    assert (k ≤ 0) by (apply H4; [lia|done..]). assert (k = 0) as -> by lia. done.
Qed.

(** A border of a prefix without its first byte is a proper border of the prefix. *)
Lemma border_tail i j : 1 ≤ i ≤ length p → border p j (drop 1 (take i p)) ↔ j < i ∧ border p j (take i p).
Proof.
  intros Hi. assert (drop 1 (take i p) `suffix_of` take i p) as Hd by (exists (take 1 (take i p)); by rewrite take_drop).
  split.
  - intros [Hj Hs]. split; [|split; [done|by etrans]]. apply suffix_length in Hs.
    rewrite length_drop, !length_take in Hs. lia.
  - intros [Hji [Hj Hs]]. split; [done|]. eapply suffix_nested; [done..|]. rewrite length_drop, !length_take. lia.
Qed.

Lemma longest_tail B i m :
  1 ≤ i ≤ length p → i ≤ B → longest p B m (drop 1 (take i p)) ↔ longest p i m (take i p).
Proof.
  intros Hi HB. unfold longest. rewrite (border_tail i m Hi). split.
  - intros (_ & [Hm Hb] & Hmax). split_and!; [done..|]. intros j Hj Hbj. apply Hmax; [lia|]. by apply border_tail.
  - intros (Hm & Hb & Hmax). split_and!; [lia|done..|]. intros j _ Hbj. apply border_tail in Hbj as [? ?]; [|done]. by apply Hmax.
Qed.

(** The entries below [i] are right, and [matched] is the last of them. *)
Definition table_inv (i : nat) (entry : list nat * nat) : Prop :=
  length entry.1 = length p ∧ table_ok entry.1 i ∧ longest p i entry.2 (take i p).

Lemma extend_table_inv i entry :
  1 ≤ i → i < length p → table_inv i entry → table_inv (S i) (Matcher.extend_table p entry i).
Proof.
  destruct entry as [prefix m]. intros Hi Hip (Hlen & Hok & Hm). unfold Matcher.extend_table. cbn in *.
  destruct (lookup_lt_is_Some_2 p i Hip) as [b Hb]. rewrite Hb.
  destruct (advance_spec prefix i (drop 1 (take i p)) b m) as [Hadv _]; [done|destruct Hm; lia|by apply longest_tail; [lia..|]|].
  assert (drop 1 (take i p) ++ [b] = drop 1 (take (S i) p)) as Heq.
  { rewrite (take_S_r _ _ b Hb), drop_app_le; [done|]. rewrite length_take. lia. }
  rewrite Heq in Hadv. apply longest_tail in Hadv; [|lia..].
  split_and!; cbn; [by rewrite length_insert| |done].
  intros j Hj. destruct (decide (j = i)) as [->|Hne].
  - exists (advance p prefix m b). split; [|done]. apply list_lookup_insert_eq. lia.
  - destruct (Hok j) as (x & Hx & Hl); [lia|]. exists x. by rewrite list_lookup_insert_ne.
Qed.

Lemma prefix_table_ok : p ≠ [] → table_ok (Matcher._prefix_table p) (length p).
Proof.
  intros Hp. unfold Matcher._prefix_table.
  assert (∀ n i entry, 1 ≤ i → i + n = length p → table_inv i entry →
    table_inv (length p) (fold_left (Matcher.extend_table p) (seq i n) entry)) as Hfold.
  { intros n. induction n as [|n IH]; intros i entry Hi Hn He; cbn; [by replace (length p) with i by lia|].
    apply IH; [lia..|]. apply extend_table_inv; [lia..|done]. }
  apply (Hfold (length p - 1) 1); [lia|destruct p; [done|cbn; lia]|].
  assert (length p ≠ 0) by (by destruct p).
  split_and!; cbn; [by rewrite length_replicate| |].
  - intros j Hj. assert (j = 0) as -> by lia. exists 0. split; [by apply lookup_replicate_2; lia|].
    split_and!; [lia|apply border_zero|]. intros k Hk _. lia.
  - split_and!; [lia|apply border_zero|]. intros k Hk _. lia.
Qed.

(** The state of the automaton after a text in which the pattern does not occur. *)
Definition tracks (t : bytes) (m : nat) : Prop := longest p (length p) m t.

Lemma tracks_start : p ≠ [] → tracks [] 0.
Proof.
  intros Hp. split_and!; [destruct p; [done|cbn; lia]|apply border_zero|].
  intros j Hj [_ Hs]. apply suffix_nil_inv in Hs. apply (f_equal length) in Hs. rewrite length_take in Hs. cbn in Hs. lia.
Qed.

Lemma occurs_snoc t b : p ≠ [] → occurs p (t ++ [b]) ↔ occurs p t ∨ p `suffix_of` (t ++ [b]).
Proof.
  intros Hp. split.
  - intros (x & y & Heq). destruct y as [|c y' _] using rev_ind.
    + right. exists x. by rewrite Heq, app_nil_r.
    + left. exists x, y'. rewrite !(assoc_L app) in Heq. apply app_inj_tail in Heq as [-> _]. by rewrite (assoc_L app).
  - intros [(x & y & ->)|[x Heq]].
    + exists x, (y ++ [b]). by rewrite !(assoc_L app).
    + exists x, []. by rewrite app_nil_r.
Qed.

Lemma advance_tracks t m b :
  p ≠ [] → tracks t m →
  let m' := advance p (Matcher._prefix_table p) m b in
  (m' = length p ↔ p `suffix_of` (t ++ [b])) ∧ (m' ≠ length p → tracks (t ++ [b]) m').
Proof.
  intros Hp Ht. destruct (advance_spec (Matcher._prefix_table p) (length p) t b m) as [(Hlt & Hb & Hmax) _];
    [by apply prefix_table_ok|destruct Ht; lia|done|].
  split.
  - rewrite <- border_full. split; [by intros <-|]. intros Hf.
    assert (length p ≤ advance p (Matcher._prefix_table p) m b) by (apply Hmax; [lia|done]). lia.
  - intros Hne. split_and!; [lia|done|]. intros j Hj Hbj. apply Hmax; [lia|done].
Qed.
End pattern.

(** ** The matcher *)

Module MatcherSpec.

(** The states after a text without any of the patterns. *)
Definition inv (self : Matcher.t) (t : bytes) : Prop :=
  Matcher.prefixes self = Matcher._prefix_table <$> Matcher.patterns self
  ∧ Forall (λ p, p ≠ []) (Matcher.patterns self)
  ∧ Forall2 (λ p m, tracks p t m) (Matcher.patterns self) (Matcher.states self).

Lemma feed_byte_spec b t ps ms :
  Forall (λ p, p ≠ []) ps → Forall2 (λ p m, tracks p t m) ps ms →
  let '(found, ms') := Matcher.feed_byte b ps (Matcher._prefix_table <$> ps) ms in
  (found = true ↔ Exists (λ p, p `suffix_of` (t ++ [b])) ps)
  ∧ (found = false → Forall2 (λ p m, tracks p (t ++ [b]) m) ps ms').
Proof.
  intros Hne. induction 1 as [|p m ps ms Hpm Hrest IH]; cbn.
  - split; [|done]. rewrite Exists_nil. done.
  - apply Forall_cons in Hne as [Hp Hne]. specialize (IH Hne).
    destruct (advance_tracks p t m b Hp Hpm) as [Hfull Hnext].
    destruct (Nat.eqb_spec (advance p (Matcher._prefix_table p) m b) (length p)) as [He|He].
    + split; [|done]. split; [|done]. intros _. apply Exists_cons. left. by apply Hfull.
    + destruct (Matcher.feed_byte b ps _ ms) as [found ms']. destruct IH as [IH1 IH2]. split.
      * rewrite Exists_cons, IH1. split; [by right|]. intros [Hs|Hs]; [|done]. by apply Hfull in Hs.
      * intros Hf. constructor; [by apply Hnext|by apply IH2].
Qed.

Lemma feed_spec value self t :
  inv self t → ¬ Exists (λ p, occurs p t) (Matcher.patterns self) →
  let '(found, self') := Matcher.feed self value in
  Matcher.patterns self' = Matcher.patterns self
  ∧ (found = true ↔ Exists (λ p, occurs p (t ++ value)) (Matcher.patterns self))
  ∧ (found = false → inv self' (t ++ value)).
Proof.
  revert self t. induction value as [|b value IH]; intros self t Hinv Hno; cbn.
  - rewrite app_nil_r. split_and!; done.
  - destruct Hinv as (Htab & Hne & Htr). rewrite Htab.
    pose proof (feed_byte_spec b t _ _ Hne Htr) as Hb.
    destruct (Matcher.feed_byte b (Matcher.patterns self) _ (Matcher.states self)) as [found ms'] eqn:E.
    destruct Hb as [Hb1 Hb2]. destruct found; cbn.
    + split_and!; [done| |done]. split; [intros _|done]. apply Exists_exists.
      apply proj1 in Hb1. specialize (Hb1 eq_refl). apply Exists_exists in Hb1 as (p & Hp & [x Hx]).
      exists p. split; [done|]. exists x, value. replace (t ++ b :: value) with ((t ++ [b]) ++ value) by (by rewrite <- (assoc_L app)).
      rewrite Hx. by rewrite <- (assoc_L app).
    + set (self1 := Matcher.mk _ _ ms'). specialize (IH self1 (t ++ [b])).
      rewrite <- (assoc_L app) in IH. apply IH; [split_and!; [done|done|by apply Hb2]|].
      intros (p & Hp & Ho)%Exists_exists.
      apply occurs_snoc in Ho as [Ho|Ho]; [| |by eapply Forall_forall in Hne].
      * apply Hno, Exists_exists. by exists p.
      * assert (false = true) by (apply Hb1, Exists_exists; by exists p). done.
Qed.

Lemma feed_all_spec chunks self t :
  inv self t → ¬ Exists (λ p, occurs p t) (Matcher.patterns self) →
  (Matcher.feed_all self chunks).1 = true ↔ Exists (λ p, occurs p (t ++ concat chunks)) (Matcher.patterns self).
Proof.
  revert self t. induction chunks as [|chunk chunks IH]; intros self t Hinv Hno; cbn.
  - rewrite app_nil_r. done.
  - pose proof (feed_spec chunk self t Hinv Hno) as Hf.
    destruct (Matcher.feed self chunk) as [found self1]. destruct Hf as (Hp & Hf & Hinv1).
    destruct found; cbn.
    + split; [intros _|done]. apply proj1 in Hf. specialize (Hf eq_refl).
      eapply Exists_impl; [exact Hf|]. intros p (x & y & Heq). exists x, (y ++ concat chunks).
      by rewrite (assoc_L app), Heq, !(assoc_L app).
    + rewrite (IH self1 (t ++ chunk)); [|by apply Hinv1|].
      * by rewrite Hp, <- (assoc_L app).
      * rewrite Hp. intros Hex. assert (false = true) by (by apply Hf). done.
Qed.

Lemma init_inv values : inv (Matcher.init values) [] ∧ ¬ Exists (λ p, occurs p []) (Matcher.patterns (Matcher.init values)).
Proof.
  assert (Forall (λ p, p ≠ []) (Matcher.patterns (Matcher.init values))) as Hne.
  { apply Forall_forall. intros p Hp. cbn in Hp. apply list_elem_of_In, filter_In in Hp as [_ Hp]. by destruct p. }
  split; [split_and!; [done|done|]|].
  - cbn in *. induction Hne as [|p ps Hp Hne IH]; constructor; [by apply tracks_start|exact IH].
  - intros (p & Hp & (x & y & Heq))%Exists_exists. eapply Forall_forall in Hne; [|exact Hp].
    destruct x, p; done.
Qed.

Lemma patterns_spec values p : p ∈ Matcher.patterns (Matcher.init values) ↔ p ∈ values ∧ p ≠ [].
Proof.
  cbn. rewrite list_elem_of_In, filter_In, <- list_elem_of_In. split; intros [? ?]; (split; [done|]); by destruct p.
Qed.

Lemma feed_all_found values chunks p :
  p ∈ values → p ≠ [] → occurs p (concat chunks) → (Matcher.feed_all (Matcher.init values) chunks).1 = true.
Proof.
  intros Hin Hne Ho. destruct (init_inv values) as [Hinv Hno]. apply (feed_all_spec chunks _ [] Hinv Hno), Exists_exists.
  exists p. by rewrite patterns_spec.
Qed.

(** C22. The incremental matcher is exact: fed with any chunks of a text, it
    reports a match exactly when one of its non-empty patterns occurs in the
    text, wherever the chunks are cut. *)
Theorem incremental_match_exact values chunks :
  (Matcher.feed_all (Matcher.init values) chunks).1 = true
  ↔ ∃ p, p ∈ values ∧ p ≠ [] ∧ occurs p (concat chunks).
Proof.
  split; [|intros (p & Hin & Hne & Ho); by eapply feed_all_found].
  destruct (init_inv values) as [Hinv Hno]. intros (p & Hp & Ho)%(feed_all_spec chunks _ [] Hinv Hno)%Exists_exists.
  apply patterns_spec in Hp as [Hp Hne]. by exists p.
Qed.
End MatcherSpec.

(** * [_IncrementalJsonEscapeDecoder] of mcp_adapter/policy.py: the decoding of
    ASCII JSON escapes over chunks, which no cut and no choice of escapes defeats. *)

Local Open Scope Z_scope.

Definition byte_of (n : Z) : ascii := Ascii.ascii_of_N (Z.to_N n).
Definition backslash : ascii := byte_of 92.
Definition letter_u : ascii := byte_of 117.

(** ** The code *)

(** [_SHORT_ESCAPES] *)
Definition short_escape (c : ascii) : option ascii :=
  let n := ord c in
  if n =? 34 then Some (byte_of 34) else if n =? 92 then Some (byte_of 92)
  else if n =? 47 then Some (byte_of 47) else if n =? 98 then Some (byte_of 8)
  else if n =? 102 then Some (byte_of 12) else if n =? 110 then Some (byte_of 10)
  else if n =? 114 then Some (byte_of 13) else if n =? 116 then Some (byte_of 9)
  else None.

Definition hex_value (c : ascii) : option Z :=
  let n := ord c in
  if (48 <=? n) && (n <=? 57) then Some (n - 48)
  else if (65 <=? n) && (n <=? 70) then Some (n - 55)
  else if (97 <=? n) && (n <=? 102) then Some (n - 87)
  else None.

(** [int(b, 16)] of two bytes: white space around a digit, or a sign before it,
    is accepted; [None] is a [ValueError]. *)
Definition ascii_space (c : ascii) : bool := let n := ord c in (9 <=? n) && (n <=? 13) || (n =? 32).
Definition int_base16 (a b : ascii) : option Z :=
  match hex_value a, hex_value b with
  | Some x, Some y => Some (16 * x + y)
  | None, Some y =>
      if ascii_space a || (ord a =? 43) then Some y else if ord a =? 45 then Some (- y) else None
  | Some x, None => if ascii_space b then Some x else None
  | None, None => None
  end.

(** What a complete six-byte escape adds to the output. *)
Definition unicode_escape (escape : bytes) : bytes :=
  match escape with
  | [_; _; z1; z2; a; b] =>
      let character := default 256 (int_base16 a b) in
      if (ord z1 =? 48) && (ord z2 =? 48) && (0 <=? character) && (character <=? 127)
      then [byte_of character] else escape
  | _ => escape
  end.

Module Decoder.

(** One byte: the output, and the new [_pending]. *)
Definition step (pending : bytes) (byte : ascii) : bytes * bytes :=
  match pending with
  | [] => if eqv byte backslash then ([], [byte]) else ([byte], [])
  | _ =>
      let pending := pending ++ [byte] in
      match pending with
      | [_; escaped] =>
          match short_escape escaped with
          | Some c => ([c], [])
          | None => if negb (eqv escaped letter_u) then (pending, []) else ([], pending)
          end
      | [_; _; _; _; _; _] => (unicode_escape pending, [])
      | _ => ([], pending)
      end
  end.

(** [feed] *)
Fixpoint feed (pending : bytes) (value : bytes) : bytes * bytes :=
  match value with
  | [] => ([], pending)
  | byte :: value =>
      let '(out, pending) := step pending byte in
      let '(decoded, pending) := feed pending value in
      (out ++ decoded, pending)
  end.

(** [finish] returns the bytes that are pending. *)
Definition finish (pending : bytes) : bytes := pending.

(** The output for a sequence of chunks, chunk by chunk, and what is pending. *)
Fixpoint feed_all (pending : bytes) (chunks : list bytes) : list bytes * bytes :=
  match chunks with
  | [] => ([], pending)
  | chunk :: chunks =>
      let '(decoded, pending) := feed pending chunk in
      let '(rest, pending) := feed_all pending chunks in
      (decoded :: rest, pending)
  end.
End Decoder.

(** ** Chunks *)

Lemma decoder_app pending a b :
  Decoder.feed pending (a ++ b)
  = let '(x, pending') := Decoder.feed pending a in
    let '(y, pending'') := Decoder.feed pending' b in (x ++ y, pending'').
Proof.
  revert pending. induction a as [|c a IH]; intros pending; cbn.
  - by destruct (Decoder.feed pending b).
  - destruct (Decoder.step pending c) as [out pending1]. rewrite IH.
    destruct (Decoder.feed pending1 a) as [x pending2], (Decoder.feed pending2 b) as [y pending3].
    by rewrite (assoc_L app).
Qed.

(** The cuts between chunks do not matter. *)
Lemma decoder_chunks pending chunks :
  let '(outs, rest) := Decoder.feed_all pending chunks in
  Decoder.feed pending (concat chunks) = (concat outs, rest).
Proof.
  revert pending. induction chunks as [|chunk chunks IH]; intros pending; cbn; [done|].
  rewrite decoder_app. destruct (Decoder.feed pending chunk) as [x pending1].
  specialize (IH pending1). destruct (Decoder.feed_all pending1 chunks) as [outs rest]. cbn. by rewrite IH.
Qed.

(** ** Escaped texts *)

Definition hex_digit_of (n : Z) (c : ascii) : Prop := hex_value c = Some n.

(** The ways to write an ASCII character in a JSON string. *)
Inductive written (c : ascii) : bytes → Prop :=
| as_itself : c ≠ backslash → written c [c]
| as_short e : short_escape e = Some c → written c [backslash; e]
| as_unicode a b : ord c ≤ 127 → hex_digit_of (ord c / 16) a → hex_digit_of (ord c mod 16) b →
    written c [backslash; letter_u; byte_of 48; byte_of 48; a; b].

Inductive spells : bytes → bytes → Prop :=
| spells_nil : spells [] []
| spells_cons c w text writing : written c w → spells text writing → spells (c :: text) (w ++ writing).

Lemma byte_of_ord c : byte_of (ord c) = c.
Proof. unfold byte_of, ord. rewrite N2Z.id. apply ascii_N_embedding. Qed.

Lemma written_decodes c w : written c w → Decoder.feed [] w = ([c], []).
Proof.
  intros [Hc|e He|a b Hc Ha Hb]; cbn [Decoder.feed].
  - unfold Decoder.step. by rewrite (proj2 (eqv_false c backslash) Hc).
  - unfold Decoder.step at 1. rewrite eqv_refl. unfold Decoder.step. cbn [app]. by rewrite He.
  - unfold Decoder.step at 1. rewrite eqv_refl. cbn [Decoder.step app]. 
    replace (short_escape letter_u) with (@None ascii) by done. rewrite eqv_refl. cbn [negb Decoder.step app].
    unfold unicode_escape, int_base16, hex_digit_of in *. rewrite Ha, Hb.
    replace (16 * (ord c / 16) + ord c mod 16) with (ord c) by (pose proof (Z.div_mod (ord c) 16); lia).
    assert (0 ≤ ord c) by (unfold ord; lia).
    cbn [default]. change (ord (byte_of 48)) with 48. cbn.
    rewrite (proj2 (Z.leb_le 0 (ord c))), (proj2 (Z.leb_le (ord c) 127)) by done. cbn. by rewrite byte_of_ord.
Qed.

Lemma spells_decodes text writing : spells text writing → Decoder.feed [] writing = (text, []).
Proof.
  induction 1 as [|c w text writing Hw _ IH]; [done|]. rewrite decoder_app, (written_decodes c w Hw), IH. done.
Qed.

(** C23. No escaping hides a forbidden value: if a body writes it out anywhere
    outside an unfinished escape, each character as itself, as a short escape or as
    a \u00XX escape, the matcher that reads the decoded chunks reports it, wherever
    the chunks are cut. *)
Theorem escapes_hide_nothing values value writing before after chunks :
  value ∈ values → value ≠ [] → spells value writing → (Decoder.feed [] before).2 = [] →
  concat chunks = before ++ writing ++ after →
  let '(outs, rest) := Decoder.feed_all [] chunks in
  (Matcher.feed_all (Matcher.init values) (outs ++ [Decoder.finish rest])).1 = true.
Proof.
  intros Hin Hne Hsp Hb Hc. pose proof (decoder_chunks [] chunks) as Hd.
  destruct (Decoder.feed_all [] chunks) as [outs rest]. rewrite Hc, decoder_app in Hd.
  destruct (Decoder.feed [] before) as [x pending]. cbn in Hb. subst pending.
  rewrite decoder_app, (spells_decodes _ _ Hsp) in Hd. destruct (Decoder.feed [] after) as [z rest'].
  injection Hd as Hd _. apply (MatcherSpec.feed_all_found _ _ value); [done..|].
  rewrite concat_app, <- Hd. exists x, (z ++ concat [Decoder.finish rest]). by rewrite <- !(assoc_L app).
Qed.

Lemma escapes_hide_nothing_witness :
  let letter n := byte_of n in
  let writing := [letter 107; backslash; letter_u; letter 48; letter 48; letter 54; letter 53; letter 121] in
  let '(outs, rest) := Decoder.feed_all [] [[letter 34; letter 107; backslash]; [letter_u; letter 48; letter 48; letter 54];
                                            [letter 53; letter 121; letter 34]] in
  (Matcher.feed_all (Matcher.init [[letter 107; letter 101; letter 121]]) (outs ++ [Decoder.finish rest])).1 = true.
Proof.
  refine (escapes_hide_nothing [[byte_of 107; byte_of 101; byte_of 121]] [byte_of 107; byte_of 101; byte_of 121]
    [byte_of 107; backslash; letter_u; byte_of 48; byte_of 48; byte_of 54; byte_of 53; byte_of 121]
    [byte_of 34] [byte_of 34] [[byte_of 34; byte_of 107; backslash]; [letter_u; byte_of 48; byte_of 48; byte_of 54];
      [byte_of 53; byte_of 121; byte_of 34]] _ _ _ _ _).
  - by left.
  - done.
  - apply (spells_cons _ [byte_of 107]); [by apply as_itself|].
    apply (spells_cons _ [backslash; letter_u; byte_of 48; byte_of 48; byte_of 54; byte_of 53]); [by apply as_unicode|].
    apply (spells_cons _ [byte_of 121]); [by apply as_itself|]. constructor.
  - reflexivity.
  - reflexivity.
Defined.
