(* ===== verification/Policy.v ===== *)
(** The MCP transport policy: mcp_adapter/policy.py.  Endpoint validation and the
    pinned network backend, the byte budget, the screening of response bodies as
    they stream, and of the response as a whole. *)
From S2P Require Import Prelude Types Json PyStr Secrets Screening Endpoint Matcher.
From stdpp Require Import strings pretty.
From Stdlib Require Import Ascii.
Local Open Scope Z_scope.

(** ** What the policy calls *)

(** The flags of a parsed [ipaddress] address that the policy reads. *)
Module Address.
Record t := mk {
  is_global : bool; is_multicast : bool; is_loopback : bool; is_link_local : bool;
  is_private : bool; is_reserved : bool; is_unspecified : bool }.
End Address.

(** What [JSONDecoder.raw_decode] with [_reject_duplicate_members] does: a value and
    the index after it, [_DuplicateJsonMember], [RecursionError], or a
    [JSONDecodeError] at a position. *)
Module Decoded.
Inductive t := Value (v : Json.t) (index : nat) | Duplicate | TooDeep | Malformed (pos : nat).
End Decoded.

(** The JSON parser, the text codecs and the address parser of the standard library. *)
Class Transport := {
  transport_patterns :: Patterns;
  transport_urls :: Urls;
  loads_text : string → Decoded.t;              (* [json.loads] with the hook *)
  raw_decode : string → nat → Decoded.t;
  loads_string : string → option Json.t;        (* [None]: [JSONDecodeError] *)
  loads_bytes : bytes → option Json.t;          (* [None]: [JSONDecodeError], [UnicodeError] *)
  decode_ignore : bytes → string;               (* [decode("utf-8", errors="ignore")] *)
  decode_strict : bytes → option string;
  encode_utf8 : string → bytes;
  parse_address : string → option Address.t }.

(** [TransportLimits]; a limit in seconds is a float. *)
Module TransportLimits.
Record t := mk {
  response_bytes : Z; connect_seconds : PyFloat.t; read_seconds : PyFloat.t; total_seconds : PyFloat.t }.
(** [__post_init__] raises [ValueError] unless this holds; a nan fails [isfinite]. *)
Definition positive (f : PyFloat.t) : bool := match f with PyFloat.Finite m => 0 <? m | _ => false end.
Definition valid (self : t) : bool :=
  (1 <=? response_bytes self) && positive (connect_seconds self) && positive (read_seconds self)
  && positive (total_seconds self).
End TransportLimits.

(** ** Endpoints *)

Module EndpointResolution.
Record t := mk { host : string; port : Z; addresses : list string }.
End EndpointResolution.

Inductive policy_error := EndpointPolicyError | EndpointResolutionError | ResponseLimitExceeded | Fault (f : failure).

Section endpoint.
Context `{Transport} (environment : string) (allow_loopback_http : bool).
(** The resolver: [None] when it raises. *)
Context (resolver : string → Z → option (list string)).

Definition forbidden_address (a : Address.t) : bool :=
  negb (Address.is_global a) || Address.is_multicast a || Address.is_loopback a || Address.is_link_local a
  || Address.is_private a || Address.is_reserved a || Address.is_unspecified a.

Definition string_le (a b : string) : Prop := string_ltb b a = false.
#[global] Instance string_le_dec a b : Decision (string_le a b).
Proof. unfold string_le. apply _. Defined.

(** The shape of an endpoint that is rejected before it is resolved. *)
Definition shape_rejected (parsed : SplitResult.t) (port : Z) : bool :=
  match SplitResult.hostname parsed with None => true | Some h => falsy h end
  || is_some (SplitResult.username parsed) || is_some (SplitResult.password parsed)
  || negb (falsy (SplitResult.query parsed)) || negb (falsy (SplitResult.fragment parsed))
  || negb (bool_decide (SplitResult.scheme parsed ∈ ["http"; "https"]%string))
  || (port =? 0).

(** The decision on the addresses of a host. *)
Definition accept_addresses (scheme host : string) (port : Z) (addresses : list string)
    : result policy_error EndpointResolution.t :=
  match mapM parse_address addresses with
  | None => Err EndpointPolicyError
  | Some parsed_addresses =>
      let resolution := EndpointResolution.mk host port (merge_sort string_le addresses) in
      let local_fixture :=
        eqv scheme "http"%string && bool_decide (environment ∈ ["local"; "test"]%string)
        && allow_loopback_http && forallb Address.is_loopback parsed_addresses in
      if local_fixture then Ok resolution
      else if negb (eqv scheme "https"%string) || existsb forbidden_address parsed_addresses
      then Err EndpointPolicyError
      else Ok resolution
  end.

(** [EndpointPolicy.validate] *)
Definition validate (endpoint : string) : result policy_error EndpointResolution.t :=
  match urlsplit endpoint with
  | None => Err EndpointPolicyError
  | Some parsed =>
      let port := match SplitResult.port parsed with
                  | Some p => p
                  | None => if eqv (SplitResult.scheme parsed) "https"%string then 443 else 80
                  end in
      if shape_rejected parsed port then Err EndpointPolicyError else
      match normalize_endpoint_host (SplitResult.hostname parsed) with
      | Err _ => Err EndpointPolicyError
      | Ok normalized =>
          let host := NormalizedEndpointHost.value normalized in
          match decode_safe_url_path (SplitResult.path parsed) with
          | Err _ => Err EndpointPolicyError
          | Ok decoded_path =>
              let canonical_endpoint :=
                (SplitResult.scheme parsed +:+ "://" +:+ host +:+ ":" +:+ pretty port +:+ decoded_path)%string in
              if contains_obvious_secret canonical_endpoint || contains_sensitive_hostname host
                 || contains_sensitive_url_path decoded_path
              then Err EndpointPolicyError else
              match resolver host port with
              | None => Err EndpointResolutionError
              | Some [] => Err EndpointPolicyError
              | Some addresses => accept_addresses (SplitResult.scheme parsed) host port addresses
              end
          end
      end
  end.
End endpoint.

(** ** [PinnedNetworkBackend] *)

(** What the inner backend does with a connection attempt. *)
Inductive attempt (S : Type) : Type :=
| Connected (stream : S)
| ConnectFailed          (* [ConnectError] or [ConnectTimeout] *)
| OtherError.
Arguments Connected {S} stream.
Arguments ConnectFailed {S}.
Arguments OtherError {S}.

Inductive connect_error := TargetChanged | NoAddress | LastConnectError | BackendError.

(** The loop of [connect_tcp] over the approved addresses; the second component
    lists the addresses that were tried. *)
Fixpoint try_addresses {S} (inner : string → Z → attempt S) (port : Z) (failed : bool) (addresses : list string)
    : result connect_error S * list string :=
  match addresses with
  | [] => (Err (if failed then LastConnectError else NoAddress), [])
  | address :: addresses =>
      match inner address port with
      | Connected stream => (Ok stream, [address])
      | OtherError => (Err BackendError, [address])
      | ConnectFailed =>
          let '(r, tried) := try_addresses inner port true addresses in (r, address :: tried)
      end
  end.

(** [connect_tcp] *)
Definition connect_tcp {S} (resolution : EndpointResolution.t) (inner : string → Z → attempt S) (host : string)
    (port : Z) : result connect_error S * list string :=
  if negb (eqv (removesuffix (lower host) ".") (EndpointResolution.host resolution))
     || negb (port =? EndpointResolution.port resolution)
  then (Err TargetChanged, [])
  else try_addresses inner port false (EndpointResolution.addresses resolution).

(** ** [RawByteBudget] *)

(** [consume]: the new [remaining], which is stored before the check. *)
Definition consume (remaining size : Z) : Z * result policy_error unit :=
  let remaining := remaining - size in
  (remaining, if remaining <? 0 then Err ResponseLimitExceeded else Ok tt).

(** ** Screening of JSON text *)

(** [_JSON_MEMBER_NAME] *)
Fixpoint upto (n : nat) (r : re) : re := match n with O => Eps | S n => opt (r · upto n r)%re end.
Definition quote : re := Chr (λ c, ord c =? 34).
Definition string_item : re :=
  (Chr (λ c, (ord c =? 92)%Z) · Chr (λ c, negb (ord c =? 10)%Z)
   ∥ Chr (λ c, negb (ord c =? 34) && negb (ord c =? 92))%Z)%re.
Definition _JSON_MEMBER_NAME : re :=
  (quote · (string_item · upto 127 string_item) · quote · Star (Chr isspace) · Chr (λ c, (ord c =? 58)%Z))%re.

(** [match.group().rsplit(":", 1)[0].rstrip()] of a match, which ends in a colon. *)
Definition encoded_key (group : list ascii) : string :=
  of_chars (rev (lstrip (rev (take (length group - 1) group)))).

(** [value.find(c, start)] for a one-character text, and the first of two. *)
Fixpoint find_from (n : Z) (start : nat) (l : list ascii) : option nat :=
  match l with
  | [] => None
  | c :: l =>
      match start with
      | O => if ord c =? n then Some O else S <$> find_from n O l
      | S start => S <$> find_from n start l
      end
  end.
Definition min_option (a b : option nat) : option nat :=
  match a, b with Some x, Some y => Some (Nat.min x y) | Some x, None => Some x | None, o => o end.

Fixpoint skip_spaces (index : nat) (l : list ascii) : nat :=
  match l with
  | c :: l => if isspace c then skip_spaces (S index) l else index
  | [] => index
  end.

Section screening.
Context `{Transport}.

(** [_contains_sensitive_member_name] *)
Definition probe_value : Json.t := Json.Str "AbCdEfGhIjKlMnOpQrStUvWx".
Fixpoint any_member_sensitive (groups : list (list ascii)) : result failure bool :=
  match groups with
  | [] => Ok false
  | g :: groups =>
      match loads_string (encoded_key g) with
      | Some (Json.Str key) =>
          match contains_sensitive_json (Json.Dict [(Json.KStr key, probe_value)]) with
          | Ok true => Ok true
          | Ok false => any_member_sensitive groups
          | Err e => Err e
          end
      | _ => any_member_sensitive groups
      end
  end.
Definition _contains_sensitive_member_name (value : string) : result failure bool :=
  any_member_sensitive ((finditer (whole _JSON_MEMBER_NAME) (chars value)).*2).

(** Where the search resumes after a malformed document. *)
Definition next_document (value : string) (index pos : nat) : option nat :=
  let start := Nat.max (index + 1) (pos + 1) in
  min_option (find_from 123 start (chars value)) (find_from 91 start (chars value)).

(** The [while True] loop of [_contains_sensitive_json_text]. *)
Fixpoint documents (fuel : nat) (value : string) (index : nat) : result failure bool :=
  match fuel with
  | O => Err OutOfFuel
  | S fuel =>
      let index := skip_spaces index (drop index (chars value)) in
      if (index =? String.length value)%nat then Ok false else
      match raw_decode value index with
      | Decoded.Value parsed index =>
          match contains_sensitive_json parsed with
          | Ok true => Ok true
          | Ok false => documents fuel value index
          | Err e => Err e
          end
      | Decoded.Duplicate => Ok true
      | Decoded.TooDeep => Ok true
      | Decoded.Malformed pos =>
          match _contains_sensitive_member_name value with
          | Ok true => Ok true
          | Ok false =>
              match next_document value index pos with
              | None => Ok false
              | Some index => documents fuel value index
              end
          | Err e => Err e
          end
      end
  end.

(** [_contains_sensitive_json_text] *)
Definition _contains_sensitive_json_text (value : string) : result failure bool :=
  let search := documents (S (String.length value)) value 0 in
  match loads_text ("{" +:+ value +:+ "}")%string with
  | Decoded.Duplicate => Ok true
  | Decoded.Malformed _ | Decoded.TooDeep => search
  | Decoded.Value member _ =>
      match contains_sensitive_json member with
      | Ok true => Ok true
      | Ok false => search
      | Err e => Err e
      end
  end.

(** [_contains_sensitive_json_document] *)
Definition _contains_sensitive_json_document (value : bytes) : result failure bool :=
  _contains_sensitive_json_text (decode_ignore value).

(** *** Server-sent events *)

(** [str.splitlines()] on characters below 256 *)
Definition line_break (c : ascii) : bool :=
  let n := ord c in (10 <=? n) && (n <=? 13) || (28 <=? n) && (n <=? 30) || (n =? 133).
Fixpoint split_lines (current : list ascii) (after_cr : bool) (l : list ascii) : list (list ascii) :=
  match l with
  | [] => match current with [] => [] | _ => [rev current] end
  | c :: l =>
      if after_cr && (ord c =? 10) then split_lines [] false l
      else if line_break c then rev current :: split_lines [] (ord c =? 13) l
      else split_lines (c :: current) false l
  end.
Definition splitlines (s : string) : list (list ascii) := split_lines [] false (chars s).

(** [line.partition(":")[2].lstrip()] *)
Fixpoint after_colon (l : list ascii) : list ascii :=
  match l with [] => [] | c :: l => if ord c =? 58 then l else after_colon l end.
Definition field_value (line : list ascii) : list ascii := lstrip (after_colon line).
Definition has_colon (line : list ascii) : bool := existsb (λ c, ord c =? 58) line.
Definition is_data (line : list ascii) : bool := bool_decide (take 5 line = chars "data:").
Definition join_newline (lines : list (list ascii)) : list ascii :=
  concat (imap (λ i l, if (i =? 0)%nat then l else Ascii.ascii_of_nat 10 :: l) lines).

Fixpoint any_text (texts : list (list ascii)) : result failure bool :=
  match texts with
  | [] => Ok false
  | t :: texts =>
      match _contains_sensitive_json_text (of_chars t) with
      | Ok true => Ok true
      | Ok false => any_text texts
      | Err e => Err e
      end
  end.

(** [_contains_sensitive_sse_event] *)
Definition _contains_sensitive_sse_event (event : bytes) : result failure bool :=
  match decode_strict event with
  | None => Ok false
  | Some text =>
      if contains_obvious_secret text then Ok true else
      let lines := splitlines text in
      let fields := List.filter has_colon lines in
      let data_lines := field_value <$> List.filter is_data lines in
      any_text (lines ++ (field_value <$> fields)
                ++ ((λ line, chars "{" ++ line ++ chars "}") <$> fields)
                ++ match data_lines with [] => [] | _ => [join_newline data_lines] end)
  end.

(** ** JSON-RPC responses *)

(** [type(a) is type(b) and a == b]; a nan equals nothing. *)
Definition same_id (a b : Json.t) : bool :=
  match a, b with
  | Json.Float PyFloat.NaN, _ => false
  | _, _ => eqv a b
  end.

(** [payload.get(key)] on an object; the parser keeps the last of equal names, so
    each name occurs once. *)
Definition _jsonrpc_response (value : bytes) (expected_id : Json.t) : option (bool * bool) :=
  match loads_bytes value with
  | None => None
  | Some (Json.Dict payload) =>
      match json_lookup "jsonrpc" payload, json_lookup "id" payload,
            json_lookup "result" payload, json_lookup "error" payload with
      | Some (Json.Str "2.0"), Some id, result, error =>
          if is_none result && is_none error then Some (false, false)
          else let matching := same_id id expected_id in
               Some (matching, matching && match error with Some (Json.Dict _) => true | _ => false end)
      | _, _, _, _ => Some (false, false)
      end
  | Some _ => Some (false, false)
  end.

(** [_sse_jsonrpc_response] *)
Definition _sse_jsonrpc_response (event : bytes) (expected_id : Json.t) : bool * bool :=
  let lines := splitlines (decode_ignore event) in
  let data := join_newline (field_value <$> List.filter is_data lines) in
  default (false, false) (_jsonrpc_response (encode_utf8 (of_chars data)) expected_id).
End screening.
