(* ===== verification/Stream.v ===== *)
(** Bounded and screened response streaming: [LimitedByteStream] and
    [LimitedTransport.handle_async_request] of mcp_adapter/policy.py. *)
From S2P Require Import Prelude Types Json PyStr Secrets Screening Endpoint Matcher Policy.
From stdpp Require Import strings.
From Stdlib Require Import Ascii.
Local Open Scope Z_scope.

(** ** Event boundaries: [_SSE_EVENT_BOUNDARY_BYTES] *)

(** One of CR LF, CR not before LF, LF not after CR, at the head of [l]; [prev] is
    the byte before. *)
Definition newline_at (prev : option ascii) (l : bytes) : option nat :=
  match l with
  | [] => None
  | c :: l =>
      if ord c =? 13 then match l with d :: _ => if ord d =? 10 then Some 2%nat else Some 1%nat | [] => Some 1%nat end
      else if ord c =? 10 then match prev with
                               | Some p => if ord p =? 13 then None else Some 1%nat
                               | None => Some 1%nat
                               end
      else None
  end.

(** Two of them. *)
Definition boundary_at (prev : option ascii) (l : bytes) : option nat :=
  n ← newline_at prev l;
  m ← newline_at (l !! (n - 1)%nat) (drop n l);
  Some (n + m)%nat.

(** The first boundary, as start and end; [i] counts the bytes passed. *)
Fixpoint find_boundary (prev : option ascii) (i : nat) (l : bytes) : option (nat * nat) :=
  match boundary_at prev l with
  | Some n => Some (i, i + n)%nat
  | None => match l with [] => None | c :: l => find_boundary (Some c) (S i) l end
  end.

(** [search(buffer, from)]: the lookbehind sees the byte before [from]. *)
Definition search_boundary (buffer : bytes) (from : nat) : option (nat * nat) :=
  find_boundary (match from with O => None | S n => buffer !! n end) from (drop from buffer).

(** [window[-256:]] *)
Definition last_bytes (n : nat) (l : bytes) : bytes := drop (length l - n) l.

Module LimitedByteStream.
Record t := mk {
  (* of the transport *)
  remaining : Z; sensitive_response_detected : bool; tool_call_response_completed : bool;
  tool_call_failure_completed : bool;
  (* of the stream *)
  response_marked : bool; pending_sensitive_response : bool; forbidden_matcher : Matcher.t;
  decoded_forbidden_matcher : Matcher.t; escape_decoder : bytes; generic_tail : bytes;
  structured_buffer : bytes; sse_scan_from : nat }.
#[global] Instance eta : Eta t := λ r, mk
  (remaining r) (sensitive_response_detected r) (tool_call_response_completed r) (tool_call_failure_completed r)
  (response_marked r) (pending_sensitive_response r) (forbidden_matcher r) (decoded_forbidden_matcher r)
  (escape_decoder r) (generic_tail r) (structured_buffer r) (sse_scan_from r).

(** [__init__] with the state of the transport *)
Definition init (remaining : Z) (forbidden_values : list bytes) : t :=
  mk remaining false false false false false (Matcher.init forbidden_values) (Matcher.init forbidden_values)
    [] [] [] 0.
End LimitedByteStream.
Import LimitedByteStream(remaining, sensitive_response_detected, tool_call_response_completed,
  tool_call_failure_completed, response_marked, pending_sensitive_response, forbidden_matcher,
  decoded_forbidden_matcher, escape_decoder, generic_tail, structured_buffer, sse_scan_from).

Section stream.
Context `{Transport}.
(** Parameters of the stream: does it buffer one JSON document, whose response is
    expected, and do the marks reach the transport ([tools/call])? *)
Context (buffer_json_document tool_call : bool) (expected_response_id : Json.t) (status_code : Z).
Implicit Types (self : LimitedByteStream.t) (chunk : bytes).

Abbreviation outcome := (LimitedByteStream.t * result policy_error unit)%type (only parsing).

(** [_reject_sensitive_body] *)
Definition _reject_sensitive_body self : outcome :=
  (self <| sensitive_response_detected := true |>, Err EndpointPolicyError).

(** [_mark_complete_once] and the tool failure mark *)
Definition _mark_complete_once self : LimitedByteStream.t :=
  if response_marked self then self
  else let self := self <| response_marked := true |> in
       if tool_call then self <| tool_call_response_completed := true |> else self.
Definition mark_tool_failure self : LimitedByteStream.t :=
  if tool_call then self <| tool_call_failure_completed := true |> else self.

Definition mark_response self (response : bool * bool) : LimitedByteStream.t :=
  if response.1 then
    let self := _mark_complete_once self in if response.2 then mark_tool_failure self else self
  else self.

(** The [while] loop of [_screen_completed_sse_events]. *)
Fixpoint screen_events (fuel : nat) self (consumed : nat) : LimitedByteStream.t * result policy_error nat :=
  match fuel with
  | O => (self, Err (Fault OutOfFuel))
  | S fuel =>
      match search_boundary (structured_buffer self) (sse_scan_from self) with
      | None => (self, Ok consumed)
      | Some (start, stop) =>
          let event := take (start - consumed) (drop consumed (structured_buffer self)) in
          let self := self <| sse_scan_from := stop |> in
          let self := mark_response self (_sse_jsonrpc_response event expected_response_id) in
          if pending_sensitive_response self then
            let '(self, _) := _reject_sensitive_body self in (self, Err EndpointPolicyError)
          else match _contains_sensitive_sse_event event with
               | Err f => (self, Err (Fault f))
               | Ok true => let '(self, _) := _reject_sensitive_body self in (self, Err EndpointPolicyError)
               | Ok false => screen_events fuel self stop
               end
      end
  end.

(** [_screen_completed_sse_events]: every boundary is at least two bytes long. *)
Definition _screen_completed_sse_events self : outcome :=
  match screen_events (S (length (structured_buffer self))) self 0 with
  | (self, Err e) => (self, Err e)
  | (self, Ok consumed) =>
      let self := self <| structured_buffer := drop consumed (structured_buffer self) |> in
      (self <| sse_scan_from := (length (structured_buffer self) - 3)%nat |>, Ok tt)
  end.

(** The three detectors of the loop body, short-circuiting. *)
Definition detect self chunk (decoded_chunk generic_window : bytes) : bool * LimitedByteStream.t :=
  let '(found, m) := Matcher.feed (forbidden_matcher self) chunk in
  let self := self <| forbidden_matcher := m |> in
  if found then (true, self) else
  let '(found, m) := Matcher.feed (decoded_forbidden_matcher self) decoded_chunk in
  let self := self <| decoded_forbidden_matcher := m |> in
  if found then (true, self) else (contains_obvious_secret (decode_ignore generic_window), self).

Definition flag_sensitive self : LimitedByteStream.t :=
  self <| sensitive_response_detected := true |> <| pending_sensitive_response := true |>.

(** One round of [__aiter__]; the last component is what it yields. *)
Definition feed self chunk : LimitedByteStream.t * result policy_error (list bytes) :=
  let '(rest, budget) := consume (remaining self) (len chunk) in
  let self := self <| remaining := rest |> in
  match budget with
  | Err e => (self, Err e)
  | Ok _ =>
      let '(decoded_chunk, pending) := Decoder.feed (escape_decoder self) chunk in
      let generic_window := generic_tail self ++ decoded_chunk in
      let self := self <| escape_decoder := pending |> <| generic_tail := last_bytes 256 generic_window |>
                       <| structured_buffer := structured_buffer self ++ chunk |> in
      let '(self, screened) :=
        if buffer_json_document then (self, Ok tt) else _screen_completed_sse_events self in
      match screened with
      | Err e => (self, Err e)
      | Ok _ =>
          let '(found, self) := detect self chunk decoded_chunk generic_window in
          let self := if found then flag_sensitive self else self in
          (self, Ok (if buffer_json_document then [] else [chunk]))
      end
  end.

(** The end of [__aiter__]. *)
Definition finish self : LimitedByteStream.t * result policy_error (list bytes) :=
  let decoded_tail := Decoder.finish (escape_decoder self) in
  let self := self <| escape_decoder := [] |> in
  let '(found, m) := Matcher.feed (decoded_forbidden_matcher self) decoded_tail in
  let self := self <| decoded_forbidden_matcher := m |> in
  let found := found || contains_obvious_secret (decode_ignore (generic_tail self ++ decoded_tail)) in
  let self := if found then flag_sensitive self else self in
  let reject self := (let '(self, _) := _reject_sensitive_body self in
                      (self, Err EndpointPolicyError) : LimitedByteStream.t * result policy_error (list bytes)) in
  let body := structured_buffer self in
  if buffer_json_document then
    let response := _jsonrpc_response body expected_response_id in
    let malformed_success := is_none response && ((status_code =? 200) || (status_code =? 204)) in
    let client_rejection := (400 <=? status_code) && (status_code <? 500) in
    let is_response := match response with Some (r, _) => r | None => false end in
    let is_error := match response with Some (_, e) => e | None => false end in
    let self :=
      if client_rejection || malformed_success || is_response then
        let self := _mark_complete_once self in
        if client_rejection || is_error then mark_tool_failure self else self
      else self in
    if pending_sensitive_response self then reject self
    else match _contains_sensitive_json_document body with
         | Err f => (self, Err (Fault f))
         | Ok true => reject self
         | Ok false => (self, Ok (match body with [] => [] | _ => [body] end))
         end
  else if pending_sensitive_response self then reject self
  else match body with
       | [] => (self, Ok [])
       | _ => match _contains_sensitive_sse_event body with
              | Err f => (self, Err (Fault f))
              | Ok true => reject self
              | Ok false => (self, Ok [])
              end
       end.

(** The whole iteration: what was yielded before it ended, and how it ended. *)
Fixpoint iterate self (chunks : list bytes) : list bytes * LimitedByteStream.t * result policy_error unit :=
  match chunks with
  | [] =>
      match finish self with
      | (self, Ok out) => (out, self, Ok tt)
      | (self, Err e) => ([], self, Err e)
      end
  | chunk :: chunks =>
      match feed self chunk with
      | (self, Err e) => ([], self, Err e)
      | (self, Ok out) => let '(outs, self, r) := iterate self chunks in (out ++ outs, self, r)
      end
  end.

(** [aclose]: what is still buffered is screened once more. *)
Definition aclose self : outcome :=
  let buffered := structured_buffer self in
  match (if buffer_json_document then _contains_sensitive_json_document buffered
         else _contains_sensitive_sse_event buffered) with
  | Err f => (self, Err (Fault f))
  | Ok true => _reject_sensitive_body self
  | Ok false => (self, Ok tt)
  end.
End stream.

(** ** [LimitedTransport.handle_async_request] *)

(** The response of the inner transport; [headers] are the multi items, and
    [content_encoding] and the like are looked up by the header library. *)
Module Response.
Record t := mk {
  status_code : Z; headers : list (string * string); reason_phrase : string;
  content_encoding : option string; content_length : option string; content_type : option string;
  body : list bytes }.
End Response.

(** The marks of the transport, and its budget. *)
Module LimitedTransport.
Record t := mk {
  budget : Z; sensitive_detected : bool; response_completed : bool; failure_completed : bool;
  forbidden_response_values : list string }.
#[global] Instance eta : Eta t := λ r, mk (budget r) (sensitive_detected r) (response_completed r)
  (failure_completed r) (forbidden_response_values r).
End LimitedTransport.
Import LimitedTransport(budget, sensitive_detected, response_completed, failure_completed, forbidden_response_values).

(** [p in s] *)
Definition contained (p s : string) : bool := search (exact_chars (chars p)) (chars s).

Section transport.
Context `{Transport}.
(** [int(s)]: [None] is a [ValueError]. *)
Context (int_of_text : string → option Z).

Definition any_result (l : list (result failure bool)) : result failure bool :=
  fold_right (λ r acc, match r with Ok true => Ok true | Ok false => acc | Err f => Err f end) (Ok false) l.

(** The second [any] over the headers. *)
Definition text_rejected (s : string) : bool := contains_obvious_secret s || contains_sensitive_url s.
Definition header_checks (h : string * string) : result failure bool :=
  any_result [Ok (contains_obvious_secret h.1); Ok (contains_obvious_secret h.2);
              Ok (contains_sensitive_url h.1); Ok (contains_sensitive_url h.2);
              _contains_sensitive_json_text h.1; _contains_sensitive_json_text h.2].
Definition headers_sensitive (forbidden : list string) (headers : list (string * string)) : result failure bool :=
  any_result (Ok (existsb (λ h, existsb (λ f, contained f h.1 || contained f h.2) forbidden) headers)
              :: (header_checks <$> headers)).
Definition reason_sensitive (forbidden : list string) (reason : string) : result failure bool :=
  any_result [Ok (contains_obvious_secret reason); Ok (existsb (λ f, contained f reason) forbidden);
              _contains_sensitive_json_text reason].

(** [response.headers.get("content-type", "").partition(";")[0].strip().lower()] *)
Definition media_type (content_type : option string) : string :=
  lower (strip (match split_on 59 (default "" content_type) with s :: _ => s | [] => "" end)).

(** Checks on the head of a response, in order; [Ok] gives the media type. *)
Definition screen_head (self : LimitedTransport.t) (response : Response.t)
    : LimitedTransport.t * result policy_error string :=
  let forbidden := forbidden_response_values self in
  let marked := self <| sensitive_detected := true |> in
  if negb (eqv (lower (default "identity" (Response.content_encoding response))) "identity"%string)
  then (self, Err ResponseLimitExceeded) else
  match headers_sensitive forbidden (Response.headers response) with
  | Err f => (self, Err (Fault f))
  | Ok true => (marked, Err EndpointPolicyError)
  | Ok false =>
      match reason_sensitive forbidden (Response.reason_phrase response) with
      | Err f => (self, Err (Fault f))
      | Ok true => (marked, Err EndpointPolicyError)
      | Ok false =>
          match Response.content_length response with
          | None => (self, Ok (media_type (Response.content_type response)))
          | Some declared =>
              match int_of_text declared with
              | None => (self, Err EndpointPolicyError)
              | Some declared_size =>
                  if (declared_size <? 0) || (budget self <? declared_size)
                  then (self, Err ResponseLimitExceeded)
                  else (self, Ok (media_type (Response.content_type response)))
              end
          end
      end
  end.

(** [_request_envelope] *)
Definition _request_envelope (content : bytes) : option string * Json.t :=
  match loads_bytes content with
  | Some (Json.Dict payload) =>
      (match json_lookup "method" payload with Some (Json.Str m) => Some m | _ => None end,
       default Json.Null (json_lookup "id" payload))
  | _ => (None, Json.Null)
  end.

(** [except Exception: await aclose(); raise] around the reading of a buffered body *)
Definition closed_on_error (stream : LimitedByteStream.t) (r : result policy_error unit)
    : LimitedByteStream.t * result policy_error unit :=
  match r with
  | Ok _ => (stream, r)
  | Err _ => match aclose true stream with (stream, Ok _) => (stream, r) | (stream, Err e) => (stream, Err e) end
  end.

(** [handle_async_request], followed by reading the response to its end: the
    chunks the reader receives.  [content] is the body of the request. *)
Definition handle_async_request (self : LimitedTransport.t) (content : bytes)
    (response : Response.t) : list bytes * LimitedTransport.t * result policy_error unit :=
  let '(method, request_id) := _request_envelope content in
  let status_code := Response.status_code response in
  let is_tool_call := eqv method (Some "tools/call"%string) in
  let self :=
    if is_tool_call && (400 <=? status_code) && (status_code <? 500)
    then self <| response_completed := true |> <| failure_completed := true |> else self in
  match screen_head self response with
  | (self, Err e) => ([], self, Err e)
  | (self, Ok media) =>
      let buffer_json_document := negb (eqv media "text/event-stream"%string) || negb (status_code =? 200) in
      let stream := LimitedByteStream.init (budget self) (encode_utf8 <$> forbidden_response_values self) in
      let '(out, stream, r) := iterate buffer_json_document is_tool_call request_id status_code stream
                                 (Response.body response) in
      let '(stream, r) := if buffer_json_document then closed_on_error stream r else (stream, r) in
      let self := self <| budget := remaining stream |>
        <| sensitive_detected := sensitive_detected self || sensitive_response_detected stream |>
        <| response_completed := response_completed self || tool_call_response_completed stream |>
        <| failure_completed := failure_completed self || tool_call_failure_completed stream |> in
      (out, self, r)
  end.
End transport.
