(* ===== verification/StreamSpec.v ===== *)
(** What the screened stream guarantees: a body that is read to its end contains
    no forbidden value, fits the budget and was passed on unchanged. *)
From S2P Require Import Prelude Types Json PyStr Secrets Screening Endpoint Matcher Policy Stream.
From stdpp Require Import strings.
From Stdlib Require Import Ascii.

Import LimitedByteStream(remaining, sensitive_response_detected, tool_call_response_completed,
  tool_call_failure_completed, response_marked, pending_sensitive_response, forbidden_matcher,
  decoded_forbidden_matcher, escape_decoder, generic_tail, structured_buffer, sse_scan_from).
Local Open Scope Z_scope.

(** The text a reader sees after decoding the ASCII escapes of a body. *)
Definition unescaped (body : bytes) : bytes :=
  let '(decoded, pending) := Decoder.feed [] body in decoded ++ pending.

(** No forbidden value occurs, as it is or escaped. *)
Definition free_of (values : list bytes) (body : bytes) : Prop :=
  ∀ p, p ∈ values → p ≠ [] → ¬ occurs p body ∧ ¬ occurs p (unescaped body).

Section stream.
Context `{Transport} (json tool_call : bool) (expected : Json.t) (status : Z).
Implicit Types (self : LimitedByteStream.t) (chunk seen : bytes).

(** What the detectors look at. *)
Record same_detectors self self' : Prop := {
  sd_remaining : remaining self' = remaining self;
  sd_pending : pending_sensitive_response self' = pending_sensitive_response self;
  sd_forbidden : forbidden_matcher self' = forbidden_matcher self;
  sd_decoded : decoded_forbidden_matcher self' = decoded_forbidden_matcher self;
  sd_escape : escape_decoder self' = escape_decoder self }.
#[local] Instance same_detectors_preorder : PreOrder same_detectors.
Proof. split; [by intros s|]. intros s1 s2 s3 [] []. constructor; congruence. Qed.

Lemma mark_response_same self r :
  same_detectors self (mark_response tool_call self r)
  ∧ structured_buffer (mark_response tool_call self r) = structured_buffer self
  ∧ sse_scan_from (mark_response tool_call self r) = sse_scan_from self.
Proof.
  unfold mark_response, _mark_complete_once, mark_tool_failure. by repeat case_match.
Qed.

Lemma screen_events_same fuel self consumed self' n :
  screen_events tool_call expected fuel self consumed = (self', Ok n) →
  same_detectors self self' ∧ structured_buffer self' = structured_buffer self.
Proof.
  revert self consumed. induction fuel as [|fuel IH]; intros self consumed; cbn [screen_events]; [done|].
  destruct (search_boundary _ _) as [[start stop]|]; [|by intros [= <- <-]]. cbv zeta.
  set (self0 := self <| sse_scan_from := stop |>).
  set (r := _sse_jsonrpc_response _ _). destruct (mark_response_same self0 r) as (Hd & Hb & _).
  destruct (pending_sensitive_response _); [by intros [=]|].
  destruct (_contains_sensitive_sse_event _) as [[|]|]; [by intros [=]| |by intros [=]].
  intros [Hs Hbuf]%IH. split; [|by rewrite Hbuf, Hb].
  transitivity self0; [done|]. by transitivity (mark_response tool_call self0 r).
Qed.

Lemma screen_completed_same self self' :
  _screen_completed_sse_events tool_call expected self = (self', Ok tt) → same_detectors self self'.
Proof.
  unfold _screen_completed_sse_events.
  destruct (screen_events _ _ _ _ _) as [self1 [n|e]] eqn:E; [|by intros [=]].
  apply screen_events_same in E as [Hs _]. intros [= <-]. by etrans.
Qed.

(** *** The invariant of the detectors *)

Record tracked (values : list bytes) self seen : Prop := {
  tr_escape : escape_decoder self = (Decoder.feed [] seen).2;
  tr_clean : pending_sensitive_response self = false →
    Matcher.patterns (forbidden_matcher self) = Matcher.patterns (Matcher.init values)
    ∧ Matcher.patterns (decoded_forbidden_matcher self) = Matcher.patterns (Matcher.init values)
    ∧ MatcherSpec.inv (forbidden_matcher self) seen
    ∧ MatcherSpec.inv (decoded_forbidden_matcher self) (Decoder.feed [] seen).1
    ∧ ¬ Exists (λ p, occurs p seen) (Matcher.patterns (Matcher.init values))
    ∧ ¬ Exists (λ p, occurs p (Decoder.feed [] seen).1) (Matcher.patterns (Matcher.init values)) }.

Lemma tracked_init values rem : tracked values (LimitedByteStream.init rem values) [].
Proof.
  destruct (MatcherSpec.init_inv values) as [Hi Hn]. constructor; [done|]. intros _. by split_and!.
Qed.

(** The detectors, fed with a chunk and its decoding. *)
Lemma detect_tracked values self seen chunk window found self' :
  let decoded := Decoder.feed (escape_decoder self) chunk in
  tracked values self seen → detect (self <| escape_decoder := decoded.2 |>) chunk decoded.1 window = (found, self') →
  remaining self' = remaining self ∧ structured_buffer self' = structured_buffer self
  ∧ pending_sensitive_response self' = pending_sensitive_response self
  ∧ tracked values (if found then flag_sensitive self' else self') (seen ++ chunk).
Proof.
  intros decoded [He Hc] Hd.
  assert (Decoder.feed [] (seen ++ chunk) = ((Decoder.feed [] seen).1 ++ decoded.1, decoded.2)) as Hfeed.
  { rewrite decoder_app. unfold decoded. rewrite He. destruct (Decoder.feed [] seen) as [x p]. cbn.
    by destruct (Decoder.feed p chunk). }
  unfold detect in Hd. cbn in Hd.
  destruct (Matcher.feed (forbidden_matcher self) chunk) as [f1 m1] eqn:E1.
  destruct f1; [injection Hd as <- <-; split_and!; try done; constructor; [by rewrite Hfeed|done]|].
  destruct (Matcher.feed (decoded_forbidden_matcher self) decoded.1) as [f2 m2] eqn:E2.
  destruct f2; [injection Hd as <- <-; split_and!; try done; constructor; [by rewrite Hfeed|done]|].
  injection Hd as <- <-. split_and!; [done..|].
  destruct (contains_obvious_secret _); [constructor; [by rewrite Hfeed|done]|].
  constructor; [by rewrite Hfeed|]. cbn. intros Hp. destruct (Hc Hp) as (P1 & P2 & I1 & I2 & N1 & N2).
  rewrite Hfeed. cbn.
  pose proof (MatcherSpec.feed_spec chunk _ _ I1) as F1. rewrite E1, P1 in F1. destruct (F1 N1) as (Q1 & R1 & S1).
  pose proof (MatcherSpec.feed_spec decoded.1 _ _ I2) as F2. rewrite E2, P2 in F2. destruct (F2 N2) as (Q2 & R2 & S2).
  split_and!; [done|done|by apply S1|by apply S2| |].
  - intros Hex. by apply R1 in Hex.
  - intros Hex. by apply R2 in Hex.
Qed.

(** One chunk. *)
Lemma feed_tracked values self seen chunk self' out :
  tracked values self seen → (json = true → structured_buffer self = seen) →
  feed json tool_call expected self chunk = (self', Ok out) →
  tracked values self' (seen ++ chunk) ∧ (json = true → structured_buffer self' = seen ++ chunk)
  ∧ remaining self' = remaining self - len chunk ∧ 0 ≤ remaining self'
  ∧ out = (if json then [] else [chunk]).
Proof.
  intros Ht Hb. unfold feed, consume. destruct (remaining self - len chunk <? 0) eqn:Hrem; [done|].
  cbn [escape_decoder generic_tail structured_buffer set_field].
  destruct (Decoder.feed (escape_decoder self) chunk) as [decoded pending] eqn:Hfeed. cbv zeta.
  set (window := generic_tail self ++ decoded).
  match goal with |- context [if json then (?s0, Ok tt) else _] => set (self0 := s0) end.
  destruct (if json then (self0, Ok tt) else _screen_completed_sse_events tool_call expected self0)
    as [self1 [[]|e]] eqn:Hscreen; [|done].
  assert (same_detectors self0 self1 ∧ (json = true → structured_buffer self1 = structured_buffer self0)) as [Hsame Hbuf].
  { destruct json; [injection Hscreen as <-; by split; [split|]|]. split; [by apply screen_completed_same|done]. }
  destruct (detect self1 chunk decoded window) as [found self2] eqn:Hd.
  assert (tracked values (self1 <| escape_decoder := escape_decoder self |>) seen) as Ht1.
  { destruct Ht as [He Hc], Hsame as [S1 S2 S3 S4 S5]. constructor; [done|]. cbn.
    rewrite S2, S3, S4. exact Hc. }
  eapply (detect_tracked _ _ _ chunk window found self2) in Ht1 as (D1 & D2 & D3 & D4).
  2:{ cbn. rewrite Hfeed. cbn. destruct Hsame as [S1 S2 S3 S4 S5].
      replace (self1 <| escape_decoder := escape_decoder self |> <| escape_decoder := pending |>) with self1; [done|].
      destruct self1. cbn in *. unfold self0 in S5. cbn in S5. by rewrite S5. }
  intros [= <- <-]. cbn in D1, D2. destruct Hsame as [S1 _ _ _ _].
  split_and!; [done| | | |done].
  - intros Hj. destruct found; cbn; rewrite D2, Hbuf by done; unfold self0; cbn; by rewrite Hb.
  - destruct found; cbn; by rewrite D1, S1.
  - destruct found; cbn; rewrite D1, S1; cbn; lia.
Qed.

(** The end of the body. *)
Lemma clean_free values self seen m :
  tracked values self seen → pending_sensitive_response self = false →
  Matcher.feed (decoded_forbidden_matcher self) (escape_decoder self) = (false, m) → free_of values seen.
Proof.
  intros [He Hc] Hp Hf p Hp1 Hp2. destruct (Hc Hp) as (P1 & P2 & I1 & I2 & N1 & N2).
  assert (p ∈ Matcher.patterns (Matcher.init values)) as Hin.
  { by apply MatcherSpec.patterns_spec. }
  pose proof (MatcherSpec.feed_spec (escape_decoder self) _ _ I2) as F. rewrite Hf, P2 in F.
  destruct (F N2) as (_ & R & _). split.
  - intros Ho. apply N1, Exists_exists. by exists p.
  - intros Ho. assert (false = true); [|done]. apply R, Exists_exists. exists p. split; [done|].
    unfold unescaped in Ho. rewrite He. by destruct (Decoder.feed [] seen).
Qed.

Lemma finish_tracked values self seen self' out :
  tracked values self seen → (json = true → structured_buffer self = seen) →
  finish json tool_call expected status self = (self', Ok out) →
  free_of values seen ∧ remaining self' = remaining self ∧ concat out = (if json then seen else [])
  ∧ (json = true → _contains_sensitive_json_document seen = Ok false).
Proof.
  intros Ht Hb. unfold finish, Decoder.finish. cbv zeta.
  change (decoded_forbidden_matcher (self <| escape_decoder := [] |>)) with (decoded_forbidden_matcher self).
  destruct (Matcher.feed (decoded_forbidden_matcher self) (escape_decoder self)) as [found m] eqn:Hf.
  change (generic_tail (self <| escape_decoder := [] |> <| decoded_forbidden_matcher := m |>)) with (generic_tail self).
  set (secret := contains_obvious_secret _). set (self0 := if found || secret then _ else _).
  assert (structured_buffer self0 = structured_buffer self ∧ remaining self0 = remaining self
    ∧ (pending_sensitive_response self0 = false → found = false ∧ pending_sensitive_response self = false)) as (B0 & R0 & P0).
  { unfold self0. destruct found, secret; cbn; split_and!; try done. }
  assert (pending_sensitive_response self0 = false → free_of values seen) as Hfree.
  { intros [-> Hp]%P0. by eapply clean_free. }
  clearbody self0. destruct json.
  - specialize (Hb eq_refl). set (self1 := if _ || _ || _ then _ else self0).
    assert (structured_buffer self1 = structured_buffer self0 ∧ remaining self1 = remaining self0
      ∧ pending_sensitive_response self1 = pending_sensitive_response self0) as (B1 & R1 & P1).
    { unfold self1, mark_tool_failure, _mark_complete_once. by repeat case_match. }
    rewrite P1. destruct (pending_sensitive_response self0); [done|]. rewrite B0, Hb.
    destruct (_contains_sensitive_json_document seen) as [[|]|]; [done| |done]. intros [= <- <-].
    split_and!; [by apply Hfree|congruence| |done]. destruct seen; cbn; [done|]. by rewrite app_nil_r.
  - destruct (pending_sensitive_response self0); [done|]. rewrite B0.
    destruct (structured_buffer self); [|destruct (_contains_sensitive_sse_event _) as [[|]|]; [done| |done]];
      intros [= <- <-]; (split_and!; [by apply Hfree|done..]).
Qed.

Lemma iterate_tracked values chunks self seen outs self' :
  tracked values self seen → (json = true → structured_buffer self = seen) →
  iterate json tool_call expected status self chunks = (outs, self', Ok tt) →
  free_of values (seen ++ concat chunks)
  ∧ concat outs = (if json then seen ++ concat chunks else concat chunks)
  ∧ remaining self' = remaining self - len (concat chunks)
  ∧ (chunks ≠ [] → 0 ≤ remaining self')
  ∧ (json = true → _contains_sensitive_json_document (seen ++ concat chunks) = Ok false).
Proof.
  revert self seen outs. induction chunks as [|chunk chunks IH]; intros self seen outs Ht Hb; cbn [iterate concat].
  - destruct (finish _ _ _ _ self) as [self1 [out|e]] eqn:Hf; [|done]. intros [= <- <-].
    destruct (finish_tracked _ _ _ _ _ Ht Hb Hf) as (F1 & F2 & F3 & F4). rewrite app_nil_r.
    split_and!; [done|by rewrite F3; destruct json|unfold len; cbn; lia|done|done].
  - destruct (feed _ _ _ self chunk) as [self1 [out|e]] eqn:Hf; [|done].
    destruct (feed_tracked _ _ _ _ _ _ Ht Hb Hf) as (T1 & B1 & R1 & N1 & ->).
    destruct (iterate _ _ _ _ self1 chunks) as [[outs1 self2] r] eqn:Hi. intros [= <- <- ->].
    destruct (IH _ _ _ T1 B1 Hi) as (I1 & I2 & I3 & I4 & I5). rewrite (assoc_L app).
    assert (remaining self2 = remaining self - len (chunk ++ concat chunks)) as Hrem.
    { rewrite I3, R1. unfold len. rewrite length_app. lia. }
    split_and!; [done| |done| |done].
    + rewrite concat_app, I2. by destruct json; cbn; rewrite ?app_nil_r.
    + intros _. destruct chunks; [|by apply I4]. cbn in I3. unfold len in I3. cbn in I3. lia.
Qed.

(** How a stream can fail. *)
Lemma screen_events_rejects fuel self consumed self' :
  screen_events tool_call expected fuel self consumed = (self', Err EndpointPolicyError) →
  sensitive_response_detected self' = true.
Proof.
  revert self consumed. induction fuel as [|fuel IH]; intros self consumed; cbn [screen_events]; [done|].
  destruct (search_boundary _ _) as [[start stop]|]; [|done]. cbv zeta.
  destruct (pending_sensitive_response _); [by intros [= <-]|].
  destruct (_contains_sensitive_sse_event _) as [[|]|]; [by intros [= <-]| |done]. apply IH.
Qed.

Lemma feed_rejects self chunk self' :
  feed json tool_call expected self chunk = (self', Err EndpointPolicyError) → sensitive_response_detected self' = true.
Proof.
  unfold feed, consume. destruct (_ <? 0); [done|]. destruct (Decoder.feed _ _) as [decoded pending]. cbv zeta.
  destruct json.
  - by destruct (detect _ _ _ _).
  - unfold _screen_completed_sse_events. destruct (screen_events _ _ _ _ _) as [self1 [n|e]] eqn:E.
    + by destruct (detect _ _ _ _).
    + intros [= <- ->]. by eapply screen_events_rejects.
Qed.

Lemma finish_rejects self self' :
  finish json tool_call expected status self = (self', Err EndpointPolicyError) → sensitive_response_detected self' = true.
Proof.
  unfold finish. destruct (Matcher.feed _ _) as [found m]. cbv zeta. destruct json;
    (destruct (pending_sensitive_response _); [by intros [= <-]|]).
  - destruct (_contains_sensitive_json_document _) as [[|]|]; [by intros [= <-]|done..].
  - destruct (structured_buffer _); [done|]. destruct (_contains_sensitive_sse_event _) as [[|]|]; [by intros [= <-]|done..].
Qed.

Lemma feed_out self chunk self' out :
  feed json tool_call expected self chunk = (self', Ok out) → out = (if json then [] else [chunk]).
Proof.
  unfold feed, consume. destruct (_ <? 0); [done|]. destruct (Decoder.feed _ _) as [decoded pending]. cbv zeta.
  destruct (if json then _ else _) as [self1 [[]|e]]; [|done]. destruct (detect _ _ _ _). by intros [= _ <-].
Qed.

Lemma iterate_fails chunks self outs self' e :
  iterate json tool_call expected status self chunks = (outs, self', Err e) →
  (json = true → outs = []) ∧ concat outs `prefix_of` concat chunks
  ∧ (e = EndpointPolicyError → sensitive_response_detected self' = true).
Proof.
  revert self outs. induction chunks as [|chunk chunks IH]; intros self outs; cbn [iterate].
  - destruct (finish _ _ _ _ self) as [self1 [out|e1]] eqn:Hf; [done|]. intros [= <- <- ->].
    split_and!; [done|done|]. intros ->. by eapply finish_rejects.
  - destruct (feed _ _ _ self chunk) as [self1 [out|e1]] eqn:Hf.
    + destruct (iterate _ _ _ _ self1 chunks) as [[outs1 self2] r] eqn:Hi. intros [= <- <- ->].
      destruct (IH _ _ Hi) as (I1 & I2 & I3). rewrite (feed_out _ _ _ _ Hf). cbn. destruct json; cbn.
      * split_and!; [done| |done]. rewrite I1 by done. apply prefix_nil.
      * split_and!; [done| |done]. by apply prefix_app.
    + intros [= <- <- ->]. split_and!; [done|apply prefix_nil|]. intros ->. by eapply feed_rejects.
Qed.
End stream.

(** A body that is read to its end was passed on unchanged, fits the budget and
    contains no forbidden value; a JSON body has passed the document screening. *)
Lemma iterate_clean `{Transport} json tool_call expected status rem values chunks outs self :
  iterate json tool_call expected status (LimitedByteStream.init rem values) chunks = (outs, self, Ok tt) →
  concat outs = concat chunks
  ∧ remaining self = rem - len (concat chunks) ∧ (chunks ≠ [] → len (concat chunks) ≤ rem)
  ∧ free_of values (concat chunks)
  ∧ (json = true → _contains_sensitive_json_document (concat chunks) = Ok false).
Proof.
  intros Hi. destruct (iterate_tracked json tool_call expected status values chunks _ [] outs self
    (tracked_init values rem) (λ _, eq_refl) Hi) as (I1 & I2 & I3 & I4 & I5). cbn in *.
  split_and!; [by destruct json|done| |done|done]. intros Hne. specialize (I4 Hne). lia.
Qed.

(** * The search for event boundaries: its bounds, and that resuming it three bytes
    before the end of the buffer finds what a search from the start finds. *)

Import LimitedByteStream(remaining, sensitive_response_detected, tool_call_response_completed,
  tool_call_failure_completed, response_marked, pending_sensitive_response, forbidden_matcher,
  decoded_forbidden_matcher, escape_decoder, generic_tail, structured_buffer, sse_scan_from).
Local Open Scope nat_scope.

(** ** Bounds *)

Lemma newline_at_bounds prev l n : newline_at prev l = Some n → 1 ≤ n ≤ length l.
Proof. unfold newline_at. intros Hn. repeat case_match; simplify_eq; cbn; lia. Qed.

Lemma boundary_at_bounds prev l n : boundary_at prev l = Some n → 2 ≤ n ≤ length l.
Proof.
  unfold boundary_at. intros (m & Hm & (k & Hk & [= <-])%bind_Some)%bind_Some.
  apply newline_at_bounds in Hm, Hk. rewrite length_drop in Hk. lia.
Qed.

Lemma find_boundary_bounds prev i l start stop :
  find_boundary prev i l = Some (start, stop) → i ≤ start ∧ start + 2 ≤ stop ≤ i + length l.
Proof.
  revert prev i. induction l as [|c l IH]; intros prev i; cbn [find_boundary].
  - by destruct (boundary_at prev []) eqn:Hb.
  - destruct (boundary_at prev (c :: l)) as [n|] eqn:Hb.
    + intros [= <- <-]. apply boundary_at_bounds in Hb. lia.
    + intros Hf%IH. cbn. lia.
Qed.

Lemma search_boundary_bounds buffer from start stop :
  search_boundary buffer from = Some (start, stop) → from ≤ start ∧ start + 2 ≤ stop ≤ length buffer.
Proof.
  unfold search_boundary. intros Hf. pose proof (find_boundary_bounds _ _ _ _ _ Hf) as Hb.
  rewrite length_drop in Hb. destruct (decide (from ≤ length buffer)); [lia|].
  by rewrite drop_ge in Hf by lia.
Qed.

(** ** Locality *)

(** The byte before a position, as the lookbehind sees it. *)
Definition before (buffer : bytes) (i : nat) : option ascii := match i with O => None | S n => buffer !! n end.

(** A boundary at [i] of a buffer. *)
Definition boundary (buffer : bytes) (i : nat) : option nat := boundary_at (before buffer i) (drop i buffer).

(** Four bytes decide whether a boundary starts. *)
Lemma boundary_at_app prev l e : 4 ≤ length l → boundary_at prev (l ++ e) = boundary_at prev l.
Proof.
  destruct l as [|a [|b [|c [|d l]]]]; cbn [length]; try lia. intros _.
  unfold boundary_at. cbn. repeat (case_match; cbn; try done).
Qed.

Lemma boundary_app buffer e i : i + 4 ≤ length buffer → boundary (buffer ++ e) i = boundary buffer i.
Proof.
  intros Hi. unfold boundary. rewrite drop_app_le by lia. rewrite boundary_at_app by (rewrite length_drop; lia).
  f_equal. destruct i; [done|]. cbn. apply lookup_app_l. lia.
Qed.

(** [search_boundary] returns the first boundary from its start. *)
Lemma search_boundary_step buffer i :
  search_boundary buffer i =
    match boundary buffer i with
    | Some n => Some (i, i + n)
    | None => if decide (i < length buffer) then search_boundary buffer (S i) else None
    end.
Proof.
  unfold search_boundary, boundary, before. destruct (decide (i < length buffer)) as [Hi|Hi].
  - destruct (lookup_lt_is_Some_2 buffer i Hi) as [c Hc]. rewrite (drop_S buffer c i Hc). cbn [find_boundary].
    by rewrite Hc.
  - by rewrite drop_ge by lia.
Qed.

Lemma search_boundary_skip buffer i j :
  i ≤ j ≤ length buffer → (∀ k, i ≤ k < j → boundary buffer k = None) → search_boundary buffer i = search_boundary buffer j.
Proof.
  intros [Hij Hj]. induction Hij as [|j Hij IH]; intros Hk; [done|].
  rewrite IH by (try lia; intros; apply Hk; lia). rewrite (search_boundary_step buffer j), (Hk j) by lia.
  by rewrite decide_True by lia.
Qed.

Lemma search_boundary_none buffer i k : search_boundary buffer i = None → i ≤ k → boundary buffer k = None.
Proof.
  intros Hs Hk. assert (search_boundary buffer k = None) as Hn.
  { induction Hk as [|k Hk IH]; [done|]. rewrite search_boundary_step in IH.
    destruct (boundary buffer k); [done|]. destruct (decide (k < length buffer)); [done|].
    unfold search_boundary. by rewrite drop_ge by lia. }
  rewrite search_boundary_step in Hn. by destruct (boundary buffer k).
Qed.

(** A match is not cut out of a CR LF pair: after it, the lookbehind is idle. *)
Lemma newline_at_after prev l n :
  newline_at prev l = Some n → newline_at (l !! (n - 1)) (drop n l) = newline_at None (drop n l).
Proof.
  destruct l as [|c l]; [done|]. unfold newline_at at 1. destruct (ord c =? 13)%Z eqn:Hc.
  - destruct l as [|d l]; [by intros [= <-]|]. destruct (ord d =? 10)%Z eqn:Hd; intros [= <-]; cbn [drop lookup];
      cbn; [|by rewrite Hc, Hd].
    rewrite drop_0. destruct l as [|b l]; [done|]. apply Z.eqb_eq in Hd. cbn. by rewrite Hd.
  - destruct (ord c =? 10)%Z eqn:Hd; [|done]. intros Hn. assert (n = 1) as -> by (by repeat case_match; simplify_eq).
    cbn [Nat.sub drop]. rewrite drop_0. apply Z.eqb_eq in Hd. destruct l as [|b l]; [done|]. cbn. by rewrite Hd.
Qed.

Lemma boundary_at_after prev l n :
  boundary_at prev l = Some n → boundary_at (l !! (n - 1)) (drop n l) = boundary_at None (drop n l).
Proof.
  unfold boundary_at at 1. intros (m & Hm & (k & Hk & [= <-])%bind_Some)%bind_Some.
  pose proof (newline_at_bounds _ _ _ Hk) as Hb. apply newline_at_after in Hk.
  rewrite lookup_drop, drop_drop in Hk. replace (m + (k - 1)) with (m + k - 1) in Hk by lia.
  unfold boundary_at. by rewrite Hk.
Qed.

Lemma search_boundary_found buffer from start stop :
  search_boundary buffer from = Some (start, stop) → boundary buffer start = Some (stop - start) ∧ start < stop.
Proof.
  intros Hs. pose proof (search_boundary_bounds _ _ _ _ Hs) as Hb. split; [|lia].
  remember (start - from) as d eqn:Hd. revert from Hs Hb Hd.
  induction d as [|d IH]; intros from Hs Hb Hd; rewrite search_boundary_step in Hs;
    destruct (boundary buffer from) as [n|] eqn:Hn; simplify_eq.
  - rewrite Hn. f_equal. lia.
  - destruct (decide _); [|done]. apply search_boundary_bounds in Hs as [? ?]. lia.
  - exfalso. lia.
  - destruct (decide _); [|done]. pose proof (search_boundary_bounds _ _ _ _ Hs). eapply IH; [done|lia..].
Qed.

(** What follows a match can be searched as a buffer of its own. *)
Lemma boundary_drop buffer start stop k :
  boundary buffer start = Some (stop - start) → start < stop → boundary (drop stop buffer) k = boundary buffer (stop + k).
Proof.
  intros Hb Hlt. unfold boundary. rewrite drop_drop. destruct k as [|k].
  - rewrite Nat.add_0_r. symmetry. unfold boundary in Hb. apply boundary_at_after in Hb.
    rewrite lookup_drop, drop_drop in Hb. replace (start + (stop - start - 1)) with (stop - 1) in Hb by lia.
    replace (start + (stop - start)) with stop in Hb by lia. destruct stop as [|stop]; [lia|].
    cbn [before]. replace (S stop - 1) with stop in Hb by lia. done.
  - replace (before buffer (stop + S k)) with (before (drop stop buffer) (S k)); [done|].
    rewrite Nat.add_succ_r. cbn. by rewrite lookup_drop.
Qed.

(** ** The screened stream *)

(** No boundary, whatever follows, starts before the place the search resumes at. *)
Definition resumable (buffer : bytes) (from : nat) : Prop :=
  from ≤ length buffer ∧ ∀ k e, k < from → boundary (buffer ++ e) k = None.

Lemma resume buffer from e : resumable buffer from → search_boundary (buffer ++ e) 0 = search_boundary (buffer ++ e) from.
Proof.
  intros [Hl Hr]. apply search_boundary_skip; [rewrite length_app; lia|]. intros k Hk. apply Hr. lia.
Qed.

Lemma resumable_back buffer : (∀ k, boundary buffer k = None) → resumable buffer (length buffer - 3).
Proof. intros Hb. split; [lia|]. intros k e Hk. by rewrite boundary_app by lia. Qed.

Section stream.
Context `{Transport} (json tool_call : bool) (expected : Json.t) (status : Z).
Implicit Types (self : LimitedByteStream.t) (chunk : bytes).

(** What is found from the resumption point on leaves a resumable rest. *)
Definition scanned (buffer : bytes) (from consumed : nat) : Prop :=
  consumed = 0 ∧ resumable buffer from
  ∨ from = consumed ∧ ∃ start, start < consumed ∧ boundary buffer start = Some (consumed - start).

Lemma scanned_end buffer from consumed :
  scanned buffer from consumed → search_boundary buffer from = None →
  resumable (drop consumed buffer) (length (drop consumed buffer) - 3).
Proof.
  intros Hs Hn. apply resumable_back. intros k. destruct Hs as [[-> [_ Hr]]|[-> (start & Hlt & Hb)]].
  - rewrite drop_0. destruct (decide (k < from)) as [Hk|Hk].
    + specialize (Hr k [] Hk). by rewrite app_nil_r in Hr.
    + eapply search_boundary_none; [done|lia].
  - rewrite (boundary_drop buffer start) by done. eapply search_boundary_none; [done|lia].
Qed.

Lemma screen_events_scanned fuel self consumed self' n :
  scanned (structured_buffer self) (sse_scan_from self) consumed →
  screen_events tool_call expected fuel self consumed = (self', Ok n) →
  resumable (drop n (structured_buffer self)) (length (drop n (structured_buffer self)) - 3).
Proof.
  revert self consumed. induction fuel as [|fuel IH]; intros self consumed Hs; cbn [screen_events]; [done|].
  destruct (search_boundary _ _) as [[start stop]|] eqn:Hb; [|intros [= <- <-]; by eapply scanned_end]. cbv zeta.
  set (self0 := self <| sse_scan_from := stop |>). set (r := _sse_jsonrpc_response _ _).
  destruct (mark_response_same tool_call self0 r) as (_ & Hbuf & Hfrom).
  destruct (pending_sensitive_response _); [done|].
  destruct (_contains_sensitive_sse_event _) as [[|]|]; [done| |done].
  intros Hi. apply IH in Hi; [by rewrite Hbuf in Hi|]. rewrite Hbuf, Hfrom.
  apply search_boundary_found in Hb as [Hb Hlt]. right. split; [done|]. by exists start.
Qed.

(** The loop over the events of a buffer ends. *)
Lemma screen_events_total fuel self consumed :
  (∀ event, _contains_sensitive_sse_event event ≠ Err OutOfFuel) →
  length (structured_buffer self) < fuel + sse_scan_from self → 0 < fuel →
  (screen_events tool_call expected fuel self consumed).2 ≠ Err (Fault OutOfFuel).
Proof.
  intros He. revert self consumed. induction fuel as [|fuel IH]; intros self consumed Hf Hpos; [lia|]. cbn [screen_events].
  destruct (search_boundary _ _) as [[start stop]|] eqn:Hb; [|done]. cbv zeta.
  set (self0 := self <| sse_scan_from := stop |>). set (r := _sse_jsonrpc_response _ _).
  destruct (mark_response_same tool_call self0 r) as (_ & Hbuf & Hfrom).
  destruct (pending_sensitive_response _); [done|].
  destruct (_contains_sensitive_sse_event _) as [[|]|] eqn:Hev; [done| |by intros [= ->]; eapply He].
  apply search_boundary_bounds in Hb. apply IH; rewrite ?Hbuf, ?Hfrom; cbn; lia.
Qed.

(** The same round with the search started over: [sse_scan_from] is not kept. *)
Definition forget self : LimitedByteStream.t := self <| sse_scan_from := 0 |>.
Definition rescan_feed self chunk : LimitedByteStream.t * result policy_error (list bytes) :=
  let '(self, r) := feed json tool_call expected self chunk in (forget self, r).
Fixpoint rescan self (chunks : list bytes) : list bytes * LimitedByteStream.t * result policy_error unit :=
  match chunks with
  | [] =>
      match finish json tool_call expected status self with
      | (self, Ok out) => (out, self, Ok tt)
      | (self, Err e) => ([], self, Err e)
      end
  | chunk :: chunks =>
      match rescan_feed self chunk with
      | (self, Err e) => ([], self, Err e)
      | (self, Ok out) => let '(outs, self, r) := rescan self chunks in (out ++ outs, self, r)
      end
  end.

Lemma screen_events_forget fuel self consumed :
  search_boundary (structured_buffer self) 0 = search_boundary (structured_buffer self) (sse_scan_from self) →
  let '(self1, r) := screen_events tool_call expected fuel self consumed in
  let '(self2, r') := screen_events tool_call expected fuel (forget self) consumed in
  r' = r ∧ forget self2 = forget self1 ∧ structured_buffer self2 = structured_buffer self1.
Proof.
  intros Hs. destruct fuel as [|fuel]; [done|]. cbn [screen_events].
  change (structured_buffer (forget self)) with (structured_buffer self).
  change (sse_scan_from (forget self)) with 0. rewrite Hs. clear Hs.
  destruct (search_boundary (structured_buffer self) (sse_scan_from self)) as [[start stop]|]; [|done]. cbv zeta.
  change (forget self <| sse_scan_from := stop |>) with (self <| sse_scan_from := stop |>).
  destruct (pending_sensitive_response _); [done|].
  destruct (_contains_sensitive_sse_event _) as [[|]|]; [done| |done]. by destruct (screen_events _ _ _ _ _).
Qed.

Lemma screen_completed_forget self :
  search_boundary (structured_buffer self) 0 = search_boundary (structured_buffer self) (sse_scan_from self) →
  let '(self1, r) := _screen_completed_sse_events tool_call expected self in
  let '(self2, r') := _screen_completed_sse_events tool_call expected (forget self) in
  r' = r ∧ forget self2 = forget self1.
Proof.
  intros Hs. unfold _screen_completed_sse_events. pose proof (screen_events_forget (S (length (structured_buffer self))) self 0 Hs) as Hf.
  change (structured_buffer (forget self)) with (structured_buffer self).
  destruct (screen_events _ _ _ self _) as [self1 r1], (screen_events _ _ _ (forget self) _) as [self2 r2].
  destruct Hf as (-> & Hf & Hb). destruct r1; [|done]. split; [done|]. destruct self1, self2. cbn in *.
  unfold forget in *. cbn in *. by simplify_eq/=.
Qed.

(** The detectors do not look at the resumption point. *)
Lemma detect_forget self chunk decoded window :
  detect (forget self) chunk decoded window
  = let '(found, self') := detect self chunk decoded window in (found, forget self').
Proof.
  unfold detect, forget. destruct self. cbn. destruct (Matcher.feed _ _) as [[|] ?]; [done|]. cbn.
  by destruct (Matcher.feed _ _) as [[|] ?].
Qed.

Lemma flag_forget (b : bool) self :
  (if b then flag_sensitive (forget self) else forget self) = forget (if b then flag_sensitive self else self).
Proof. by destruct b. Qed.

Lemma mark_forget (b c : bool) self :
  (if b then
     let self := _mark_complete_once tool_call (forget self) in if c then mark_tool_failure tool_call self else self
   else forget self)
  = forget (if b then
              let self := _mark_complete_once tool_call self in if c then mark_tool_failure tool_call self else self
            else self).
Proof.
  destruct b, c; unfold _mark_complete_once, mark_tool_failure; cbn; try done; by destruct (response_marked self), tool_call.
Qed.

Lemma finish_forget self :
  finish json tool_call expected status (forget self)
  = let '(self', r) := finish json tool_call expected status self in (forget self', r).
Proof.
  unfold finish. change (Decoder.finish (escape_decoder (forget self))) with (Decoder.finish (escape_decoder self)). cbv zeta.
  change (decoded_forbidden_matcher (forget self <| escape_decoder := [] |>))
    with (decoded_forbidden_matcher (self <| escape_decoder := [] |>)).
  destruct (Matcher.feed _ _) as [found m].
  set (self0 := self <| escape_decoder := [] |> <| decoded_forbidden_matcher := m |>).
  change (forget self <| escape_decoder := [] |> <| decoded_forbidden_matcher := m |>) with (forget self0).
  change (generic_tail (forget self0)) with (generic_tail self0). rewrite flag_forget.
  set (self1 := if found || _ then _ else self0).
  change (structured_buffer (forget self1)) with (structured_buffer self1). rewrite mark_forget.
  destruct json.
  - set (self2 := if _ || _ || _ then _ else self1).
    change (pending_sensitive_response (forget self2)) with (pending_sensitive_response self2).
    destruct (pending_sensitive_response self2); [done|]. by destruct (_contains_sensitive_json_document _) as [[|]|].
  - change (pending_sensitive_response (forget self1)) with (pending_sensitive_response self1).
    destruct (pending_sensitive_response self1); [done|]. destruct (structured_buffer self1); [done|].
    by destruct (_contains_sensitive_sse_event _) as [[|]|].
Qed.

Lemma detect_buffer self chunk decoded window found self' :
  detect self chunk decoded window = (found, self') →
  structured_buffer self' = structured_buffer self ∧ sse_scan_from self' = sse_scan_from self.
Proof.
  unfold detect. destruct (Matcher.feed _ _) as [[|] ?]; [by intros [= <- <-]|]. cbn.
  by destruct (Matcher.feed _ _) as [[|] ?]; intros [= <- <-].
Qed.

Lemma screen_completed_resumable self self' :
  resumable (structured_buffer self) (sse_scan_from self) →
  _screen_completed_sse_events tool_call expected self = (self', Ok tt) →
  resumable (structured_buffer self') (sse_scan_from self').
Proof.
  intros Hr. unfold _screen_completed_sse_events. destruct (screen_events _ _ _ _ _) as [self1 [n|e]] eqn:He; [|done].
  intros [= <-]. cbn. destruct (screen_events_same _ _ _ _ _ _ _ He) as [_ ->].
  eapply screen_events_scanned; [|done]. by left.
Qed.

Lemma resumable_app buffer from e : resumable buffer from → resumable (buffer ++ e) from.
Proof.
  intros [Hl Hr]. split; [rewrite length_app; lia|]. intros k e' Hk. rewrite <- (assoc_L app). by apply Hr.
Qed.

Lemma feed_forget self chunk :
  resumable (structured_buffer self) (sse_scan_from self) →
  let '(self1, r) := feed json tool_call expected self chunk in
  let '(self2, r') := feed json tool_call expected (forget self) chunk in
  r' = r ∧ forget self2 = forget self1
  ∧ (is_ok r = true → resumable (structured_buffer self1) (sse_scan_from self1)).
Proof.
  intros Hr. unfold feed. change (remaining (forget self)) with (remaining self).
  destruct (consume (remaining self) (len chunk)) as [rest [[]|e]]; [|done].
  change (escape_decoder (forget self <| remaining := rest |>)) with (escape_decoder (self <| remaining := rest |>)).
  destruct (Decoder.feed _ chunk) as [decoded pending]. cbv zeta.
  change (generic_tail (forget self <| remaining := rest |>)) with (generic_tail (self <| remaining := rest |>)).
  set (window := generic_tail _ ++ decoded).
  match goal with |- context [if json then (?s, Ok tt) else _screen_completed_sse_events tool_call expected ?s] =>
    set (self0 := s) end.
  match goal with |- context [if json then (?s, Ok tt) else _] => lazymatch s with self0 => fail | _ => change s with (forget self0) end end.
  assert (resumable (structured_buffer self0) (sse_scan_from self0)) as Hr0 by (by apply resumable_app).
  assert (let '(self1, r) := if json then (self0, Ok tt) else _screen_completed_sse_events tool_call expected self0 in
          let '(self2, r') := if json then (forget self0, Ok tt)
                              else _screen_completed_sse_events tool_call expected (forget self0) in
          r' = r ∧ forget self2 = forget self1
          ∧ (is_ok r = true → resumable (structured_buffer self1) (sse_scan_from self1))) as Hs.
  { destruct json; [done|]. pose proof (screen_completed_resumable self0) as Hres.
    pose proof (screen_completed_forget self0) as Hf.
    destruct (_screen_completed_sse_events _ _ self0) as [self1 r1].
    destruct (_screen_completed_sse_events _ _ (forget self0)) as [self2 r2].
    destruct Hf as [-> Hf]. { rewrite <- (app_nil_r (structured_buffer self0)). by apply resume. }
    split_and!; [done..|]. destruct r1 as [[]|]; [|done]. intros _. by apply Hres. }
  destruct (if json then (self0, Ok tt) else _) as [self1 r1].
  destruct (if json then (forget self0, Ok tt) else _) as [self2 r2].
  destruct Hs as (-> & Hf & Hres). destruct r1 as [[]|e]; [|done].
  pose proof (detect_forget self1 chunk decoded window) as H1. pose proof (detect_forget self2 chunk decoded window) as H2.
  rewrite Hf, H1 in H2. destruct (detect self1 _ _ _) as [f1 s1] eqn:E1, (detect self2 _ _ _) as [f2 s2].
  apply pair_equal_spec in H2 as [<- H2]. split_and!; [done| |].
  - rewrite <- !flag_forget. by rewrite H2.
  - intros _. apply detect_buffer in E1 as [B1 B2]. destruct f1; cbn; rewrite B1, B2; by apply Hres.
Qed.

Lemma rescan_iterate self chunks :
  resumable (structured_buffer self) (sse_scan_from self) →
  rescan (forget self) chunks
  = let '(outs, self', r) := iterate json tool_call expected status self chunks in (outs, forget self', r).
Proof.
  revert self. induction chunks as [|chunk chunks IH]; intros self Hr; cbn [rescan iterate].
  - rewrite finish_forget. by destruct (finish _ _ _ _ self) as [self' [|]].
  - pose proof (feed_forget self chunk Hr) as Hf. unfold rescan_feed.
    destruct (feed _ _ _ self chunk) as [self1 r1], (feed _ _ _ (forget self) chunk) as [self2 r2].
    destruct Hf as (-> & Hf & Hres). rewrite Hf. destruct r1 as [out|e]; [|done].
    rewrite IH by (by apply Hres). by destruct (iterate _ _ _ _ self1 chunks) as [[??]?].
Qed.
End stream.

(** C29. Resuming the search for event boundaries is exact: a stream whose search
    starts over at the beginning of the buffer for every chunk yields the same
    bytes, marks the same responses and ends in the same way as the stream of the
    code, which resumes three bytes before the end. *)
Theorem resumed_scan_is_exact `{Transport} json tool_call expected status rem values chunks :
  rescan json tool_call expected status (LimitedByteStream.init rem values) chunks
  = let '(outs, self, r) := iterate json tool_call expected status (LimitedByteStream.init rem values) chunks in
    (outs, forget self, r).
Proof.
  apply (rescan_iterate json tool_call expected status (LimitedByteStream.init rem values)).
  split; cbn; [lia|]. intros k e Hk. lia.
Qed.
