(* ===== verification/ResponseSpec.v ===== *)
(** What the transport policy guarantees of endpoints and connections, and that its
    loops end. *)
From S2P Require Import Prelude Types Json PyStr Secrets Screening ScreeningSpec Endpoint Matcher Policy Stream StreamSpec.
From stdpp Require Import strings sorting.
From Stdlib Require Import Ascii.
From stdpp Require Import strings.

Import LimitedByteStream(remaining, sensitive_response_detected, tool_call_response_completed,
  tool_call_failure_completed, response_marked, pending_sensitive_response, forbidden_matcher,
  decoded_forbidden_matcher, escape_decoder, generic_tail, structured_buffer, sse_scan_from).
Local Open Scope Z_scope.

(** ** Connections *)

Section connections.
Context `{Transport}.

(** An address the policy lets a worker connect to for an endpoint. *)
Definition approved (environment : string) (allow_loopback_http : bool) (scheme address : string) : Prop :=
  ∃ a, parse_address address = Some a ∧
  (scheme = "https"%string ∧ forbidden_address a = false
   ∨ scheme = "http"%string ∧ environment ∈ ["local"; "test"]%string ∧ allow_loopback_http = true
     ∧ Address.is_loopback a = true).

Lemma accept_addresses_approved environment allow scheme host port addresses resolution :
  accept_addresses environment allow scheme host port addresses = Ok resolution →
  EndpointResolution.host resolution = host ∧ EndpointResolution.port resolution = port
  ∧ EndpointResolution.addresses resolution ≡ₚ addresses
  ∧ Forall (approved environment allow scheme) addresses.
Proof.
  unfold accept_addresses. destruct (mapM parse_address addresses) as [parsed|] eqn:Hm; [|done].
  apply mapM_Some in Hm.
  assert (∀ P, Forall P parsed → Forall (λ x, ∃ a, parse_address x = Some a ∧ P a) addresses) as Hall.
  { intros P HP. induction Hm; inversion HP; subst; constructor; eauto. }
  case_match eqn:Hl.
  - intros [= <-]. cbn. rewrite !andb_true_iff in Hl. destruct Hl as [[[Hs%eqv_eq He%bool_decide_eq_true] Ha] Hf].
    split_and!; [done..|apply merge_sort_Permutation|].
    eapply Forall_impl; [apply (Hall (λ a, Address.is_loopback a = true)), Forall_forall|].
    { intros a Hin. rewrite forallb_forall in Hf. by apply Hf, list_elem_of_In. }
    intros x (a & Hx & Hlo). exists a. split; [done|]. right. by split_and!.
  - case_match eqn:Hr; [done|]. intros [= <-]. cbn. apply orb_false_iff in Hr as [Hs%negb_false_iff%eqv_eq Hf].
    split_and!; [done..|apply merge_sort_Permutation|].
    eapply Forall_impl; [apply (Hall (λ a, forbidden_address a = false)), Forall_forall|].
    + intros a Hin. destruct (forbidden_address a) eqn:Hfa; [|done].
      rewrite <- Hf. symmetry. apply existsb_exists. exists a. by rewrite <- list_elem_of_In.
    + intros x (a & Hx & Hfa). exists a. split; [done|]. by left.
Qed.

Lemma try_addresses_spec {S} (inner : string → Z → attempt S) port failed addresses r tried :
  try_addresses inner port failed addresses = (r, tried) →
  tried `prefix_of` addresses
  ∧ (∀ s, r = Ok s → ∃ a, last tried = Some a ∧ inner a port = Connected s).
Proof.
  revert failed r tried. induction addresses as [|a l IH]; intros failed r tried; cbn [try_addresses].
  - intros [= <- <-]. split; [done|]. by destruct failed.
  - destruct (inner a port) as [s| |] eqn:Hi.
    + intros [= <- <-]. split; [by apply prefix_cons, prefix_nil|]. intros s' [= <-]. by exists a.
    + destruct (try_addresses inner port true l) as [r1 t1] eqn:Ht. intros [= <- <-].
      destruct (IH _ _ _ Ht) as [Hp Hs]. split; [by apply prefix_cons|]. intros s Hr.
      destruct (Hs s Hr) as (b & Hb & Hbs). exists b. split; [|done]. destruct t1; [done|]. by cbn in *.
    + intros [= <- <-]. split; [by apply prefix_cons, prefix_nil|done].
Qed.
End connections.

(** C21. A connection goes only where the policy looked: every address tried for an
    endpoint that was validated was resolved for its canonical host during the
    validation, is a public address reached over HTTPS or the loopback fixture of a
    local environment, and is tried only for that host and port: a later DNS answer
    or redirect cannot change the target. *)
Theorem connections_are_approved `{Transport} environment allow resolver endpoint resolution {S}
    (inner : string → Z → attempt S) host port r tried :
  validate environment allow resolver endpoint = Ok resolution →
  connect_tcp resolution inner host port = (r, tried) →
  (∃ parsed addresses, urlsplit endpoint = Some parsed
     ∧ resolver (EndpointResolution.host resolution) (EndpointResolution.port resolution) = Some addresses
     ∧ ∀ a, a ∈ tried → a ∈ addresses ∧ approved environment allow (SplitResult.scheme parsed) a)
  ∧ (tried ≠ [] → removesuffix (lower host) "." = EndpointResolution.host resolution
                  ∧ port = EndpointResolution.port resolution)
  ∧ (∀ s, r = Ok s → ∃ a, last tried = Some a ∧ inner a port = Connected s).
Proof.
  intros Hv Hc. unfold validate in Hv. destruct (urlsplit endpoint) as [parsed|]; [|done]. cbv zeta in Hv.
  destruct (shape_rejected _ _); [done|]. destruct (normalize_endpoint_host _) as [normalized|]; [|done].
  destruct (decode_safe_url_path _) as [path|]; [|done]. destruct (_ || _ || _); [done|].
  destruct (resolver _ _) as [addresses|] eqn:Hr; [|done]. 
  assert (accept_addresses environment allow (SplitResult.scheme parsed) (NormalizedEndpointHost.value normalized)
    (match SplitResult.port parsed with Some p => p | None => if eqv (SplitResult.scheme parsed) "https"%string then 443 else 80 end)
    addresses = Ok resolution) as Ha by (by destruct addresses).
  apply accept_addresses_approved in Ha as (H1 & H2 & H3 & H4).
  unfold connect_tcp in Hc. destruct (_ || _) eqn:Ht in Hc.
  - injection Hc as <- <-. split_and!; [|done|done]. exists parsed, addresses. rewrite H1, H2. split_and!; [done..|].
    intros a Hin. by apply not_elem_of_nil in Hin.
  - apply orb_false_iff in Ht as [Hh%negb_false_iff%eqv_eq Hp%negb_false_iff%Z.eqb_eq]. apply try_addresses_spec in Hc as [Hpre Hs].
    split_and!; [|done|done]. exists parsed, addresses. rewrite H1, H2. split_and!; [done..|].
    intros a Hin. assert (a ∈ addresses) as Hia.
    { rewrite <- H3. destruct Hpre as [k ->]. apply elem_of_app. by left. }
    split; [done|]. rewrite Forall_forall in H4. by apply H4.
Qed.

(** ** Termination *)

Lemma contains_sensitive_json_total `{Patterns} v : contains_sensitive_json v ≠ Err OutOfFuel.
Proof. apply contains_obvious_secret_in_json_total. Qed.

Lemma skip_spaces_bounds index l : (index ≤ skip_spaces index l ≤ index + length l)%nat.
Proof. revert index. induction l as [|c l IH]; intros i; cbn; [lia|]. destruct (isspace c); [specialize (IH (S i))|]; lia. Qed.

Lemma find_from_bounds n start l i : find_from n start l = Some i → (start ≤ i < length l)%nat.
Proof.
  revert start i. induction l as [|c l IH]; intros start i; cbn; [done|]. destruct start as [|start].
  - destruct (ord c =? n); [intros [= <-]; lia|]. intros (j & Hj & ->)%fmap_Some. apply IH in Hj. lia.
  - intros (j & Hj & ->)%fmap_Some. apply IH in Hj. lia.
Qed.

Lemma next_document_bounds value index pos i :
  next_document value index pos = Some i → (index < i < length (chars value))%nat.
Proof.
  unfold next_document, min_option. intros Hi.
  destruct (find_from 123 _ _) as [a|] eqn:Ha, (find_from 91 _ _) as [b|] eqn:Hb; simplify_eq;
    repeat match goal with H : find_from _ _ _ = Some _ |- _ => apply find_from_bounds in H end; lia.
Qed.

Lemma length_chars s : length (chars s) = String.length s.
Proof. unfold chars. induction s; cbn; congruence. Qed.

Section termination.
Context `{Transport}.
(** A decoded value ends after its first character and within the text. *)
Context (Hdecode : ∀ v i x j, raw_decode v i = Decoded.Value x j → (i < j ≤ String.length v)%nat).

Lemma any_member_sensitive_total groups : any_member_sensitive groups ≠ Err OutOfFuel.
Proof.
  induction groups as [|g groups IH]; cbn [any_member_sensitive]; [done|].
  destruct (loads_string _) as [[]|]; try done.
  pose proof (contains_sensitive_json_total (Json.Dict [(Json.KStr s, probe_value)])) as Hc.
  by destruct (contains_sensitive_json _) as [[]|].
Qed.

Lemma documents_total fuel value index :
  (index ≤ String.length value)%nat → (String.length value - index < fuel)%nat →
  documents fuel value index ≠ Err OutOfFuel.
Proof.
  revert index. induction fuel as [|fuel IH]; intros index Hi Hf; [lia|]. cbn [documents].
  pose proof (skip_spaces_bounds index (drop index (chars value))) as Hs.
  rewrite length_drop, length_chars in Hs. set (i := skip_spaces _ _) in *.
  destruct (i =? String.length value)%nat eqn:Hend; [done|]. apply Nat.eqb_neq in Hend.
  destruct (raw_decode value i) as [x j| | |pos] eqn:Hr; [|done..|].
  - apply Hdecode in Hr. pose proof (contains_sensitive_json_total x) as Hc.
    destruct (contains_sensitive_json x) as [[|]|]; [done| |by intros [= ->]]. apply IH; lia.
  - unfold _contains_sensitive_member_name.
    pose proof (any_member_sensitive_total (finditer (whole _JSON_MEMBER_NAME) (chars value)).*2) as Hm.
    destruct (any_member_sensitive _) as [[|]|]; [done| |by intros [= ->]].
    destruct (next_document value i pos) as [k|] eqn:Hn; [|done]. apply next_document_bounds in Hn.
    rewrite length_chars in Hn. apply IH; lia.
Qed.

Lemma contains_sensitive_json_text_total value : _contains_sensitive_json_text value ≠ Err OutOfFuel.
Proof.
  unfold _contains_sensitive_json_text.
  pose proof (documents_total (S (String.length value)) value 0 ltac:(lia) ltac:(lia)) as Hd.
  destruct (loads_text _) as [x j| | |]; try done. pose proof (contains_sensitive_json_total x) as Hc.
  destruct (contains_sensitive_json x) as [[|]|]; [done|done|congruence].
Qed.

Lemma contains_sensitive_sse_event_total event : _contains_sensitive_sse_event event ≠ Err OutOfFuel.
Proof.
  unfold _contains_sensitive_sse_event. destruct (decode_strict event); [|done].
  destruct (contains_obvious_secret _); [done|]. cbv zeta. generalize (splitlines s). intros lines.
  match goal with |- any_text ?l ≠ _ => generalize l end. intros texts.
  induction texts as [|t texts IH]; cbn [any_text]; [done|].
  pose proof (contains_sensitive_json_text_total (of_chars t)).
  by destruct (_contains_sensitive_json_text _) as [[|]|].
Qed.

(** *** A stream and a whole request *)

Lemma screen_completed_total tool_call expected self :
  (_screen_completed_sse_events tool_call expected self).2 ≠ Err (Fault OutOfFuel).
Proof.
  unfold _screen_completed_sse_events.
  pose proof (screen_events_total tool_call expected (S (length (structured_buffer self))) self 0
    contains_sensitive_sse_event_total ltac:(lia) ltac:(lia)) as Ht.
  destruct (screen_events _ _ _ _ _) as [? [|]]; cbn in *; congruence.
Qed.

Lemma iterate_total json tool_call expected status self chunks :
  (iterate json tool_call expected status self chunks).2 ≠ Err (Fault OutOfFuel).
Proof.
  revert self. induction chunks as [|chunk chunks IH]; intros self; cbn [iterate].
  - unfold finish. destruct (Matcher.feed _ _) as [found m]. cbv zeta. destruct json.
    + destruct (pending_sensitive_response _); [done|].
      match goal with |- context [_contains_sensitive_json_document ?b] =>
        pose proof (contains_sensitive_json_text_total (decode_ignore b)) as Ht; change (_contains_sensitive_json_document b)
          with (_contains_sensitive_json_text (decode_ignore b)) end.
      destruct (_contains_sensitive_json_text _) as [[|]|]; cbn in *; congruence.
    + destruct (pending_sensitive_response _); [done|]. destruct (structured_buffer _) as [|b body]; [done|].
      pose proof (contains_sensitive_sse_event_total (b :: body)) as Ht.
      destruct (_contains_sensitive_sse_event _) as [[|]|]; cbn in *; congruence.
  - unfold feed, consume. destruct (_ <? 0); [done|]. destruct (Decoder.feed _ _) as [decoded pending]. cbv zeta.
    match goal with |- context [_screen_completed_sse_events tool_call expected ?s] =>
      pose proof (screen_completed_total tool_call expected s) as Ht;
      assert ((if json then (s, Ok tt) else _screen_completed_sse_events tool_call expected s).2
        ≠ Err (Fault OutOfFuel)) as Hs by (by destruct json) end.
    destruct (if json then _ else _) as [self1 [[]|e]]; [|cbn in *; congruence].
    destruct (detect _ _ _ _) as [found self2]. specialize (IH (if found then flag_sensitive self2 else self2)).
    by destruct (iterate _ _ _ _ _ chunks) as [[??]?].
Qed.

Lemma closed_on_error_total stream r :
  r ≠ Err (Fault OutOfFuel) → (closed_on_error stream r).2 ≠ Err (Fault OutOfFuel).
Proof.
  intros Hr. unfold closed_on_error, aclose, _contains_sensitive_json_document. destruct r as [|e]; [done|].
  pose proof (contains_sensitive_json_text_total (decode_ignore (structured_buffer stream))) as Ht.
  destruct (_contains_sensitive_json_text _) as [[|]|]; cbn; congruence.
Qed.

Lemma any_result_total (l : list (result failure bool)) :
  Forall (λ r, r ≠ Err OutOfFuel) l → any_result l ≠ Err OutOfFuel.
Proof. induction 1 as [|[[|]|] l Hr Hl IH]; cbn; first [exact IH|congruence]. Qed.

Lemma screen_head_total int_of_text self response :
  (screen_head int_of_text self response).2 ≠ Err (Fault OutOfFuel).
Proof.
  unfold screen_head. cbv zeta. case_match; [done|].
  assert (headers_sensitive (LimitedTransport.forbidden_response_values self) (Response.headers response) ≠ Err OutOfFuel) as Hh.
  { apply any_result_total. constructor; [done|]. apply Forall_fmap, Forall_forall. intros h _. unfold header_checks.
    apply any_result_total. repeat constructor; first [done|apply contains_sensitive_json_text_total]. }
  destruct (headers_sensitive _ _) as [[|]|]; [done| |cbn; congruence].
  assert (reason_sensitive (LimitedTransport.forbidden_response_values self) (Response.reason_phrase response) ≠ Err OutOfFuel) as Hr.
  { apply any_result_total. repeat constructor; first [done|apply contains_sensitive_json_text_total]. }
  destruct (reason_sensitive _ _) as [[|]|]; [done| |cbn; congruence].
  by repeat case_match.
Qed.
End termination.

(** C26. Screening a response ends: on every request, every response head and every
    sequence of body chunks the transport reaches a verdict, none of its loops runs
    out of the fuel the definitions give them (the length of the text for JSON
    documents, of the buffer for events, the number of nodes of a value), as long as
    the JSON parser consumes at least one character of the text per document. *)
Theorem response_screening_ends `{Transport} int_of_text self content response :
  (∀ v i x j, raw_decode v i = Decoded.Value x j → (i < j ≤ String.length v)%nat) →
  (handle_async_request int_of_text self content response).2 ≠ Err (Fault OutOfFuel).
Proof.
  intros Hd. unfold handle_async_request. destruct (_request_envelope content) as [method request_id]. cbv zeta.
  match goal with |- context [screen_head int_of_text ?s response] =>
    pose proof (screen_head_total Hd int_of_text s response) as Hh end.
  destruct (screen_head _ _ _) as [self1 [media|e]]; [|cbn in *; congruence].
  match goal with |- context [iterate ?a ?b ?c ?d ?s ?l] => pose proof (iterate_total Hd a b c d s l) as Hi end.
  destruct (iterate _ _ _ _ _ _) as [[outs stream] r]. destruct (_ || _); [|done].
  pose proof (closed_on_error_total Hd stream r Hi) as Hc. by destruct (closed_on_error stream r).
Qed.

(** * What a caller of [LimitedTransport.handle_async_request] gets: an accepted
    response is clean from head to body, a rejected one leaks nothing. *)

Import LimitedByteStream(remaining, sensitive_response_detected, tool_call_response_completed,
  tool_call_failure_completed).
Import LimitedTransport(budget, sensitive_detected, response_completed, failure_completed, forbidden_response_values).
Local Open Scope Z_scope.

(** ** [p in s] *)

Lemma plain_exact l : plain (exact_chars l) = true.
Proof. by induction l. Qed.

Lemma exact_matches l b : ∃ b', matches (exact_chars l) (b, l) (b', []).
Proof.
  revert b. induction l as [|c l IH]; intros b; cbn; [eexists; constructor|].
  destruct (IH false) as [b' Hm]. exists b'. eapply m_seq; [|done]. constructor. apply eqv_refl.
Qed.

Lemma occurs_contained p s : occurs (chars p) (chars s) → contained p s = true.
Proof.
  intros (x & y & Heq). unfold contained. rewrite Heq. apply search_embed; [apply plain_exact|].
  apply search_spec. left. destruct (exact_matches (chars p) true) as [b Hm]. by eexists.
Qed.

Lemma not_contained p s : contained p s = false → ¬ occurs (chars p) (chars s).
Proof. intros Hc Ho%occurs_contained. congruence. Qed.

Lemma any_result_false (l : list (result failure bool)) : any_result l = Ok false → Forall (λ r, r = Ok false) l.
Proof. induction l as [|[[|]|] l IH]; cbn; try done. constructor; [done|by apply IH]. Qed.

Section head.
Context `{Transport} (int_of_text : string → option Z).
Implicit Types (self : LimitedTransport.t) (response : Response.t).

(** No forbidden value in the head, no credential in its fields. *)
Definition clean_head (forbidden : list string) response : Prop :=
  (∀ h f, h ∈ Response.headers response → f ∈ forbidden →
     ¬ occurs (chars f) (chars h.1) ∧ ¬ occurs (chars f) (chars h.2))
  ∧ (∀ f, f ∈ forbidden → ¬ occurs (chars f) (chars (Response.reason_phrase response)))
  ∧ (∀ s, s ∈ Response.reason_phrase response :: ((Response.headers response).*1 ++ (Response.headers response).*2) →
     contains_obvious_secret s = false ∧ _contains_sensitive_json_text s = Ok false).

Lemma headers_clean forbidden headers :
  headers_sensitive forbidden headers = Ok false →
  (∀ h f, h ∈ headers → f ∈ forbidden → ¬ occurs (chars f) (chars h.1) ∧ ¬ occurs (chars f) (chars h.2))
  ∧ (∀ s, s ∈ headers.*1 ++ headers.*2 → contains_obvious_secret s = false ∧ _contains_sensitive_json_text s = Ok false).
Proof.
  intros Hh%any_result_false. apply Forall_cons in Hh as [[= Hf] Hc]. split.
  - intros h f Hh Hin. destruct (contained f h.1 || contained f h.2) eqn:E.
    + assert (true = false); [|done]. rewrite <- Hf. symmetry. apply existsb_exists. exists h.
      rewrite <- list_elem_of_In. split; [done|]. apply existsb_exists. exists f. by rewrite <- list_elem_of_In.
    + apply orb_false_iff in E as [E1 E2]. by split; apply not_contained.
  - intros s Hs. assert (∃ h, h ∈ headers ∧ (s = h.1 ∨ s = h.2)) as (h & Hh & Heq).
    { apply elem_of_app in Hs as [Hs|Hs]; apply list_elem_of_fmap in Hs as (h & -> & ?); exists h; auto. }
    rewrite Forall_fmap, Forall_forall in Hc. specialize (Hc h Hh). unfold compose, header_checks in Hc.
    apply any_result_false in Hc. rewrite !Forall_cons in Hc.
    destruct Hc as ([= H1] & [= H2] & _ & _ & H3 & H4 & _). destruct Heq as [->| ->]; done.
Qed.

Lemma reason_clean forbidden reason :
  reason_sensitive forbidden reason = Ok false →
  (∀ f, f ∈ forbidden → ¬ occurs (chars f) (chars reason))
  ∧ contains_obvious_secret reason = false ∧ _contains_sensitive_json_text reason = Ok false.
Proof.
  intros Hr%any_result_false. rewrite !Forall_cons in Hr. destruct Hr as ([= H1] & [= H2] & H3 & _).
  split_and!; [|done..]. intros f Hf. apply not_contained. destruct (contained f reason) eqn:E; [|done].
  rewrite <- H2. symmetry. apply existsb_exists. exists f. by rewrite <- list_elem_of_In.
Qed.

Lemma screen_head_ok self response self' media :
  screen_head int_of_text self response = (self', Ok media) →
  self' = self ∧ clean_head (forbidden_response_values self) response
  ∧ lower (default "identity" (Response.content_encoding response)) = "identity"%string
  ∧ media = media_type (Response.content_type response)
  ∧ (∀ text, Response.content_length response = Some text → ∃ n, int_of_text text = Some n ∧ 0 ≤ n ≤ budget self).
Proof.
  unfold screen_head. cbv zeta. destruct (negb _) eqn:He; [done|]. apply negb_false_iff, eqv_eq in He.
  destruct (headers_sensitive _ _) as [[|]|] eqn:Hh; [done| |done].
  destruct (reason_sensitive _ _) as [[|]|] eqn:Hr; [done| |done].
  apply headers_clean in Hh as [Hh1 Hh2]. apply reason_clean in Hr as (Hr1 & Hr2 & Hr3).
  assert (clean_head (forbidden_response_values self) response) as Hc.
  { split_and!; [done|done|]. intros s [->|Hs]%elem_of_cons; [done|]. by apply Hh2. }
  destruct (Response.content_length response) as [text|]; [|by intros [= <- <-]; split_and!].
  destruct (int_of_text text) as [n|] eqn:Hn; [|done]. destruct (_ || _) eqn:Hb; [done|]. breflect.
  intros [= <- <-]. split_and!; [done..|]. intros ? [= <-]. exists n. split; [done|]. lia.
Qed.
End head.

(** The value behind a raised error. *)
Definition malformed_length (int_of_text : string → option Z) (response : Response.t) : Prop :=
  ∃ text, Response.content_length response = Some text ∧ int_of_text text = None.

Lemma screen_head_rejects `{Transport} int_of_text self response self' :
  screen_head int_of_text self response = (self', Err EndpointPolicyError) →
  sensitive_detected self' = true ∨ malformed_length int_of_text response.
Proof.
  unfold screen_head. cbv zeta. destruct (negb _); [done|].
  destruct (headers_sensitive _ _) as [[|]|]; [by intros [= <-]; left| |done].
  destruct (reason_sensitive _ _) as [[|]|]; [by intros [= <-]; left| |done].
  destruct (Response.content_length response) as [text|] eqn:Ht; [|done].
  destruct (int_of_text text) eqn:Hn; [by destruct (_ || _)|]. intros _. right. by exists text.
Qed.

(** A response that is read as one document, not as an event stream. *)
Definition is_document (response : Response.t) : Prop :=
  media_type (Response.content_type response) ≠ "text/event-stream"%string ∨ Response.status_code response ≠ 200.

Lemma is_document_buffered response :
  is_document response →
  negb (eqv (media_type (Response.content_type response)) "text/event-stream"%string)
  || negb (Response.status_code response =? 200) = true.
Proof.
  intros [Hm%eqv_false|Hs%Z.eqb_neq]; [by rewrite Hm|]. rewrite Hs. apply orb_true_r.
Qed.

Lemma closed_on_error_ok `{Transport} stream stream' r :
  closed_on_error stream r = (stream', Ok tt) → stream' = stream ∧ r = Ok tt.
Proof.
  unfold closed_on_error. destruct r as [[]|e]; [by intros [= <-]|]. by destruct (aclose true stream) as [? [|]].
Qed.

Lemma closed_on_error_rejects `{Transport} stream stream' r e :
  closed_on_error stream r = (stream', Err e) →
  (r = Err EndpointPolicyError → sensitive_response_detected stream = true) → is_ok r = false
  ∧ (e = EndpointPolicyError → sensitive_response_detected stream' = true).
Proof.
  unfold closed_on_error. intros Hc Hr. destruct r as [[]|e']; [done|]. split; [done|]. intros ->.
  unfold aclose in Hc. destruct (_contains_sensitive_json_document _) as [[|]|]; [|..].
  - by injection Hc as <-.
  - injection Hc as <- ->. by apply Hr.
  - done.
Qed.

(** C19. A response the transport accepts is clean from head to body: no header, no
    reason phrase and no byte sequence of the body carries a value the caller
    forbade, in the body not even behind JSON escapes and wherever the network cut
    it; no part of the head holds a recognisable credential; a JSON body has passed
    the document screening; the content is not encoded, the declared length and the
    body fit the byte budget, which is charged with what was read; and the reader
    gets the body unchanged. *)
Theorem accepted_response_is_clean `{Transport} int_of_text self content response out self' :
  handle_async_request int_of_text self content response = (out, self', Ok tt) →
  concat out = concat (Response.body response)
  ∧ clean_head (forbidden_response_values self) response
  ∧ free_of (encode_utf8 <$> forbidden_response_values self) (concat (Response.body response))
  ∧ (is_document response →
     _contains_sensitive_json_document (concat (Response.body response)) = Ok false)
  ∧ lower (default "identity" (Response.content_encoding response)) = "identity"%string
  ∧ (∀ text, Response.content_length response = Some text → ∃ n, int_of_text text = Some n ∧ 0 ≤ n ≤ budget self)
  ∧ budget self' = budget self - len (concat (Response.body response))
  ∧ (Response.body response ≠ [] → 0 ≤ budget self').
Proof.
  unfold handle_async_request. destruct (_request_envelope content) as [method request_id]. cbv zeta.
  set (self0 := if _ && _ && _ then _ else self).
  assert (budget self0 = budget self ∧ forbidden_response_values self0 = forbidden_response_values self) as [B0 F0].
  { unfold self0. by destruct (_ && _). }
  clearbody self0. destruct (screen_head int_of_text self0 response) as [self1 [media|e]] eqn:Hh; [|done].
  apply screen_head_ok in Hh as (-> & Hc & He & -> & Hl). rewrite F0 in Hc. rewrite B0 in Hl. rewrite B0, F0.
  set (json := negb _ || negb _). destruct (iterate _ _ _ _ _ _) as [[outs stream] r] eqn:Hi.
  destruct (if json then closed_on_error stream r else (stream, r)) as [stream' r'] eqn:Hc'. intros [= <- <- ->].
  assert (stream' = stream ∧ r = Ok tt) as [-> ->].
  { destruct json; [by apply closed_on_error_ok|by injection Hc' as <- ->]. }
  apply iterate_clean in Hi as (I1 & I2 & I3 & I4 & I5). cbn. split_and!; try done.
  - intros Hm. by apply I5, is_document_buffered.
  - intros Hne. specialize (I3 Hne). lia.
Qed.

(** C20. A rejected response leaks nothing it must not: of a body that is not an
    event stream the reader gets nothing, of an event stream a prefix; and a
    rejection for sensitive content, which is every policy rejection but that of an
    unreadable length, is recorded on the transport. *)
Theorem rejected_response_is_withheld `{Transport} int_of_text self content response out self' e :
  handle_async_request int_of_text self content response = (out, self', Err e) →
  (is_document response → out = [])
  ∧ concat out `prefix_of` concat (Response.body response)
  ∧ (e = EndpointPolicyError → sensitive_detected self' = true ∨ malformed_length int_of_text response).
Proof.
  unfold handle_async_request. destruct (_request_envelope content) as [method request_id]. cbv zeta.
  set (self0 := if _ && _ && _ then _ else self). clearbody self0.
  destruct (screen_head int_of_text self0 response) as [self1 [media|e1]] eqn:Hh.
  - apply screen_head_ok in Hh as (-> & _ & _ & -> & _).
    set (json := negb _ || negb _). destruct (iterate _ _ _ _ _ _) as [[outs stream] r] eqn:Hi.
    destruct (if json then closed_on_error stream r else (stream, r)) as [stream' r'] eqn:Hc. intros [= <- <- ->].
    assert (∃ e', r = Err e') as [e' ->].
    { destruct r as [[]|e']; [|by exists e']. by destruct json. }
    apply iterate_fails in Hi as (I1 & I2 & I3). split_and!; [|done|].
    + intros Hm. by apply I1, is_document_buffered.
    + intros ->. left. cbn. assert (sensitive_response_detected stream' = true) as ->; [|apply orb_true_r].
      destruct json; [|injection Hc as <- ->; by apply I3]. apply closed_on_error_rejects in Hc as [_ Hc]; [by apply Hc|].
      intros [= ->]. by apply I3.
  - intros [= <- <- ->]. split_and!; [done|apply prefix_nil|]. intros ->. by eapply screen_head_rejects.
Qed.
