(* ===== verification/TransportScenario.v ===== *)
(** A concrete transport on which the theorems of the policy are instantiated: a
    parser that knows one document, one public and one private address. *)
From S2P Require Import Prelude Types Json PyStr Secrets Screening Endpoint Matcher.
From S2P Require Import Policy Stream StreamSpec ResponseSpec.
From stdpp Require Import strings.
From Stdlib Require Import Ascii.
Local Open Scope Z_scope.

Module TransportScenario.
(** [{'jsonrpc':'2.0','id':1,'result':{}}] with its quotes. *)
Definition q (s : string) : string := String (byte_of 34) (s +:+ String (byte_of 34) "").
Definition document : string :=
  ("{" +:+ q "jsonrpc" +:+ ":" +:+ q "2.0" +:+ "," +:+ q "id" +:+ ":1," +:+ q "result" +:+ ":{}}")%string.
Definition parsed : Json.t :=
  Json.Dict [(Json.KStr "jsonrpc", Json.Str "2.0"); (Json.KStr "id", Json.Int 1); (Json.KStr "result", Json.Dict [])].
Definition request : string := ("{" +:+ q "method" +:+ ":" +:+ q "tools/call" +:+ "," +:+ q "id" +:+ ":1}")%string.
Definition parsed_request : Json.t :=
  Json.Dict [(Json.KStr "method", Json.Str "tools/call"); (Json.KStr "id", Json.Int 1)].

Definition public : Address.t := Address.mk true false false false false false false.
Definition private : Address.t := Address.mk false false false false true false false.

#[global] Instance concrete : Transport := {
  transport_patterns := {| re2_search := λ _, None; Screening.unquote := λ s, s; float_repr := λ _, "0.0"%string |};
  transport_urls := {|
    urlsplit := λ _, Some (SplitResult.mk "https" (Some "tools.example"%string) None None None "/mcp" "" "");
    ip_address := λ _, None; idna_encode := λ s, Some s; inet_aton := λ _, false; unquote_strict := λ s, Some s |};
  loads_text := λ _, Decoded.Malformed 0;
  raw_decode := λ s i, if eqv s document && (i =? 0)%nat then Decoded.Value parsed (String.length document)
                       else Decoded.Malformed i;
  loads_string := λ _, None;
  loads_bytes := λ b, if bool_decide (b = chars document) then Some parsed
                      else if bool_decide (b = chars request) then Some parsed_request else None;
  decode_ignore := of_chars;
  decode_strict := λ b, Some (of_chars b);
  encode_utf8 := chars;
  parse_address := λ s, if eqv s "93.184.216.34"%string then Some public
                        else if eqv s "10.0.0.1"%string then Some private else None }.

Definition int_of_text (s : string) : option Z := if eqv s "36"%string then Some 36 else None.

(** The body arrives in two chunks; the caller forbids one value. *)
Definition transport : LimitedTransport.t := LimitedTransport.mk 1000 false false false ["hunter"%string].
Definition response (content_type : option string) (body : list bytes) : Response.t :=
  Response.mk 200 [("server", "tools")%string] "OK" None None content_type body.
Definition good : Response.t :=
  response (Some "application/json"%string) [take 10 (chars document); drop 10 (chars document)].
(** An event that spells the forbidden value with an escape. *)
Definition leaking : Response.t :=
  response (Some "text/event-stream"%string)
    [chars ("data: h" +:+ String (byte_of 92) "u0075nt"); chars ("er" +:+ String (byte_of 10) (String (byte_of 10) ""))].

Definition resolver (host : string) (port : Z) : option (list string) := Some ["93.184.216.34"%string].
Definition resolution : EndpointResolution.t := EndpointResolution.mk "tools.example" 443 ["93.184.216.34"%string].
Definition network (address : string) (port : Z) : attempt unit := Connected tt.
End TransportScenario.
Import TransportScenario.

Lemma accepted_response_is_clean_witness :
  let '(out, self', r) := handle_async_request int_of_text transport (chars request) good in
  r = Ok tt ∧ concat out = chars document ∧ LimitedTransport.response_completed self' = true
  ∧ ¬ occurs (chars "hunter") (concat out).
Proof.
  destruct (handle_async_request int_of_text transport (chars request) good) as [[out self'] r] eqn:E.
  pose proof E as E'. vm_compute in E'. injection E' as Hout Hself <-.
  destruct (accepted_response_is_clean int_of_text transport (chars request) good out self' E)
    as (H1 & _ & H3 & _). rewrite H1. split_and!.
  - reflexivity.
  - reflexivity.
  - rewrite <- Hself. reflexivity.
  - apply (H3 (chars "hunter")); [by left|done].
Defined.

Lemma rejected_response_is_withheld_witness :
  let '(out, self', r) := handle_async_request int_of_text transport (chars request) leaking in
  r = Err EndpointPolicyError ∧ concat out `prefix_of` concat (Response.body leaking)
  ∧ LimitedTransport.sensitive_detected self' = true.
Proof.
  destruct (handle_async_request int_of_text transport (chars request) leaking) as [[out self'] r] eqn:E.
  pose proof E as E'. vm_compute in E'. injection E' as Hout Hself <-.
  destruct (rejected_response_is_withheld int_of_text transport (chars request) leaking out self' _ E)
    as (_ & H2 & _). split_and!; [done|done|]. rewrite <- Hself. reflexivity.
Defined.

Lemma response_screening_ends_witness :
  (handle_async_request int_of_text transport (chars request) good).2 ≠ Err (Fault OutOfFuel).
Proof.
  apply (response_screening_ends int_of_text transport (chars request) good). intros v i x j. cbn.
  destruct (eqv v document && (i =? 0)%nat) eqn:E; [|done]. intros [= <- <-].
  apply andb_true_iff in E as [->%eqv_eq ->%Nat.eqb_eq]. vm_compute. lia.
Defined.

Lemma connections_are_approved_witness :
  connect_tcp resolution network "Tools.Example." 443 = (Ok tt, ["93.184.216.34"%string])
  ∧ ∃ addresses, resolver "tools.example" 443 = Some addresses ∧ "93.184.216.34"%string ∈ addresses.
Proof.
  assert (validate "production" false resolver "https://tools.example/mcp" = Ok resolution) as Hv by (vm_compute; reflexivity).
  assert (connect_tcp resolution network "Tools.Example." 443 = (Ok tt, ["93.184.216.34"%string])) as Hc
    by (vm_compute; reflexivity).
  split; [exact Hc|].
  destruct (connections_are_approved "production" false resolver "https://tools.example/mcp" resolution network
    "Tools.Example." 443 (Ok tt) ["93.184.216.34"%string] Hv Hc) as ((parsed & addresses & _ & H1 & H2) & _).
  exists addresses. split; [exact H1|]. by apply H2; left.
Defined.
