(* ===== verification/Effects.v ===== *)
(** The effects of the invocation worker: the exceptions it distinguishes, its
    database transactions, and its session with an MCP server.

    The answer to an effect comes from the environment, which may interleave other
    transactions before it and may fail any effect.  The MCP SDK, its connection and
    its task groups are known only through the answers they may give ([performs]). *)
From S2P Require Import Prelude Programs Types Json Screening Store Session Registry Identity Ledger Lease Admission Matcher Policy.
From stdpp Require Import strings.
Local Open Scope Z_scope.

(** ** Exceptions *)

Module InvocationFailureCode.
Inductive t :=
| PREPARATION_FAILED | SESSION_INITIALIZATION_FAILED | TOOL_CALL_FAILED
| UNSUPPORTED_RESULT_CONTENT | SENSITIVE_RESULT | INVALID_UPSTREAM_OUTPUT.
#[global] Instance eq_dec : EqDecision t.
Proof. solve_decision. Defined.
End InvocationFailureCode.

(** [InvocationError] and its subclasses [InvocationIndeterminate] and
    [InvocationFenceRejected]. *)
Module InvocationError.
Inductive kind := Plain | Indeterminate | FenceRejected.
Record t := mk { class : kind; code : InvocationFailureCode.t; dispatched : bool }.
End InvocationError.

Inductive discovery_kind := DiscoveryError | ProtocolMismatch | CredentialError | SensitiveResponseError.

Module Raised.
Inductive t :=
| Invocation (e : InvocationError.t)
| Discovery (k : discovery_kind)
| Mcp                            (* [McpError] *)
| Database (e : exn)             (* raised in a transaction *)
| Policy (e : policy_error)
| SecretProviderError
| KeyError
| ValueError
| TimeoutError
| HttpError
| Error                          (* any other [Exception] *)
| Cancelled                      (* [CancelledError], no [Exception] *)
| Group (errors : list t).       (* [BaseExceptionGroup] *)
End Raised.

(** Is it caught by [except Exception]?  A group is an [ExceptionGroup] when all
    its members are. *)
Fixpoint is_exception (error : Raised.t) : bool :=
  match error with
  | Raised.Cancelled => false
  | Raised.Group errors => forallb is_exception errors
  | _ => true
  end.

(** [_find_exception]; [kind] is the [isinstance] test and extracts the instance. *)
Fixpoint _find_exception {A} (kind : Raised.t → option A) (error : Raised.t) : option A :=
  match kind error with
  | Some found => Some found
  | None =>
      match error with
      | Raised.Group errors =>
          (fix go errors :=
             match errors with
             | [] => None
             | child :: errors =>
                 match _find_exception kind child with Some found => Some found | None => go errors end
             end) errors
      | _ => None
      end
  end.
Definition invocation_error (error : Raised.t) : option InvocationError.t :=
  match error with Raised.Invocation e => Some e | _ => None end.
Definition mcp_error (error : Raised.t) : option unit :=
  match error with Raised.Mcp => Some () | _ => None end.
Definition discovery_error (error : Raised.t) : option discovery_kind :=
  match error with Raised.Discovery k => Some k | _ => None end.
Definition protocol_mismatch (error : Raised.t) : option discovery_kind :=
  match error with Raised.Discovery ProtocolMismatch => Some ProtocolMismatch | _ => None end.

(** ** Data *)

Module SecretReference.
Record t := mk { provider : string; external_reference : string; version : string }.
End SecretReference.

(** [_InvocationTarget] *)
Module InvocationTarget.
Record t := mk {
  endpoint : string; policy_version : string; tool_name : string; arguments : Json.t;
  output_schema : option Json.t; secret_reference : option SecretReference.t }.
End InvocationTarget.

(** The tool result of the SDK: the text of a [TextContent] block, [None] for a
    block of another type. *)
Module CallToolResult.
Record t := mk { isError : bool; content : list (option string); structuredContent : option Json.t }.
End CallToolResult.

(** The marks of the transport ([LimitedTransport]). *)
Module Marks.
Record t := mk {
  sensitive_response_detected : bool; tool_call_response_completed : bool; tool_call_failure_completed : bool }.
End Marks.

(** ** Effects *)

Inductive effect : Type :=
(* transactions *)
| ClaimTx (self : ExecutionService.t) (worker_id : string) (lease_duration : Z)
| LoadTarget (lease : JobLease.t)
| FenceSessionTx (lease : JobLease.t) (lease_duration : option Z)
| FenceDispatchTx (lease : JobLease.t)
| HeartbeatTx (lease : JobLease.t) (lease_duration : Z)
| CompleteTx (lease : JobLease.t) (status : RunStatus.t) (code : RunFailureCode.t)
| SuccessTx (self : ExecutionService.t) (lease : JobLease.t) (result : AcceptedToolResult.t)
(* the secret provider *)
| RetrieveSecret (reference : SecretReference.t)
(* the endpoint policy, and one session with the server *)
| ValidateEndpoint (endpoint : string)
| OpenSession (endpoint : string) (credential : option string) (forbidden_response_values : list string)
| Initialize
| Initialized
| CallTool (tool_name : string) (arguments : Json.t)
| CloseSession (pending : option Raised.t)
| ReadMarks
| LeaveTimeout                    (* has [asyncio.timeout] expired? *)
| ValidateSchema (value schema : Json.t).

Definition answer (e : effect) : Type :=
  match e with
  | ClaimTx _ _ _ => result Raised.t (option JobLease.t)
  | LoadTarget _ => result Raised.t InvocationTarget.t
  | FenceSessionTx _ _ | FenceDispatchTx _ => result Raised.t ()
  | HeartbeatTx _ _ => result Raised.t JobLease.t
  | CompleteTx _ _ _ | SuccessTx _ _ _ => result Raised.t RunStatus.t
  | RetrieveSecret _ => result Raised.t bytes
  | ValidateEndpoint _ | OpenSession _ _ _ | Initialized => result Raised.t ()
  | Initialize => result Raised.t string
  | CallTool _ _ => result Raised.t CallToolResult.t
  | CloseSession _ => option Raised.t
  | ReadMarks => Marks.t
  | LeaveTimeout => bool
  | ValidateSchema _ _ => result Raised.t SchemaValidationResult.t
  end.

Abbreviation proc := (Programs.proc answer).
Abbreviation trigger := (Programs.trigger answer).
Abbreviation occurrence := (Programs.occurrence answer).
Abbreviation wpp_trigger := (Programs.wpp_trigger (answer := answer)) (only parsing).

(** ** Transactions *)

Section transactions.
Context `{Externals}.

(** [InvocationRunner._load_target]: reads only. *)
Definition secret_reference_of (binding : SecretBinding.t) : SecretReference.t :=
  SecretReference.mk (SecretBinding.provider binding) (SecretBinding.external_reference binding)
    (SecretBinding.version binding).

Definition _load_target (lease : JobLease.t) : M InvocationTarget.t :=
  let workspace_id := JobLease.workspace_id lease in
  run ← fetch (λ d, ExecutionDb.runs (Db.execution d)) (JobLease.run_id lease)
          (λ r, eqv (Run.workspace_id r) workspace_id && is_some (Run.arguments r));
  match run with
  | None => raise ValueError
  | Some run =>
      match Run.arguments run with
      | None => raise ValueError
      | Some arguments =>
          version ← fetch capability_versions (Run.capability_version_id run)
                      (λ v, eqv (CapabilityVersion.workspace_id v) workspace_id);
          binding ← fetch mcp_tool_bindings (Run.capability_version_id run)
                      (λ b, eqv (McpToolBinding.connection_version_id b) (Run.connection_version_id run)
                            && eqv (McpToolBinding.workspace_id b) workspace_id);
          connection ← fetch (λ d, RegistryDb.server_connection_versions (Db.registry d))
                         (Run.connection_version_id run)
                         (λ c, eqv (ServerConnectionVersion.workspace_id c) workspace_id);
          match version, binding, connection with
          | Some version, Some binding, Some connection =>
              let target := InvocationTarget.mk (ServerConnectionVersion.endpoint_url connection)
                (ServerConnectionVersion.policy_version connection) (McpToolBinding.tool_name binding)
                arguments (CapabilityVersion.output_schema version) in
              match ServerConnectionVersion.secret_binding_id connection with
              | None => mret (target None)
              | Some secret_id =>
                  secret ← fetch (λ d, IdentityDb.secret_bindings (Db.identity d)) secret_id
                             (λ s, eqv (SecretBinding.workspace_id s) workspace_id);
                  match secret with
                  | None => raise Session.SecretProviderError
                  | Some secret => mret (target (Some (secret_reference_of secret)))
                  end
              end
          | _, _, _ => raise ValueError
          end
      end
  end.

(** The status of a run, read in the transaction that returned it. *)
Definition status_of (run : uuid) : M RunStatus.t := r ← run_of run; mret (Run.status r).

(** ** What may answer an effect *)

(** A transaction that the connection, or a cancellation, interrupts: the worker
    does not learn whether it was committed. *)
Definition interruption (e : Raised.t) : Prop := e = Raised.Cancelled ∨ e = Raised.Error.

Definition raised {A} (r : result exn A) : result Raised.t A :=
  match r with Ok a => Ok a | Err e => Err (Raised.Database e) end.

Definition transacts {A} (m : M A) (x : result Raised.t A) (env : Env) (d d' : Db.t) : Prop :=
  x = raised (transaction m env d).1 ∧ d' = (transaction m env d).2
  ∨ ∃ e, x = Err e ∧ interruption e ∧ (d' = d ∨ d' = (transaction m env d).2).

(** The SDK, the network and the secret provider know nothing of the exceptions of
    this module. *)
Definition foreign (e : Raised.t) : Prop := _find_exception invocation_error e = None.
Definition foreign_result {A} (x : result Raised.t A) : Prop := match x with Ok _ => True | Err e => foreign e end.

(** Leaving the contexts of a session may lose or wrap the pending exception, or
    raise another one; it invents none of this module. *)
Definition left_with (pending x : option Raised.t) : Prop :=
  ∀ i, (x ≫= _find_exception invocation_error) = Some i → (pending ≫= _find_exception invocation_error) = Some i.

(** [performs e x env d d']: [x] may answer [e] in the database [d], which becomes [d']. *)
Definition performs (e : effect) : answer e → Env → Db.t → Db.t → Prop :=
  match e with
  | ClaimTx self w n => transacts (claimed ← claim_job self w n; mret claimed.1)
  | LoadTarget lease => λ x env d d', d' = d ∧ ∃ d0, transacts (_load_target lease) x env d d0
  | FenceSessionTx lease None => transacts (fence_session lease ;; mret ())
  | FenceSessionTx lease (Some n) => transacts ((heartbeat lease n ;; fence_session lease) ;; mret ())
  | FenceDispatchTx lease => transacts (fence_dispatch lease ;; mret ())
  | HeartbeatTx lease n => transacts (heartbeat lease n)
  | CompleteTx lease status code => transacts (run ← complete_lease lease status (Some code); status_of run)
  | SuccessTx self lease result => transacts (run ← complete_invocation_success self lease result; status_of run)
  | RetrieveSecret _ => λ x _ d d', d' = d ∧ foreign_result x
  | ValidateEndpoint _ | OpenSession _ _ _ | Initialized => λ x _ d d', d' = d ∧ foreign_result x
  | Initialize => λ x _ d d', d' = d ∧ foreign_result x
  | CallTool _ _ => λ x _ d d', d' = d ∧ foreign_result x
  | CloseSession pending => λ x _ d d', d' = d ∧ left_with pending x
  | ReadMarks | LeaveTimeout => λ _ _ d d', d' = d
  | ValidateSchema value schema => λ x _ d d', d' = d ∧ (x = Ok (validate_schema_arguments value schema) ∨ x = Err Raised.Cancelled)
  end.

(** The answers an effect may get, in any database at any time. *)
#[global] Instance effect_environment : Environment answer := λ e x, ∃ env d d', performs e x env d d'.
End transactions.
