(* ===== verification/Client.v ===== *)
(** One tool invocation over MCP: [McpClientAdapter.invoke], [_invoke] and
    [_normalize_invocation_result] of mcp_adapter/client.py. *)
From S2P Require Import Prelude Types Json PyStr Secrets Screening Endpoint Matcher.
From S2P Require Import Store Session Registry Ledger Lease Admission Policy Stream Programs Effects.
From stdpp Require Import strings.
From Stdlib Require Import Ascii.
Local Open Scope Z_scope.

(** ** Credentials *)

(** [bytes(bearer_token).decode("ascii")] *)
Definition decode_ascii (token : bytes) : option string :=
  if forallb (λ c, ord c <? 128) token then Some (of_chars token) else None.

(** [_credential_entropy_bits(credential) < 64], compared exactly. *)
Definition weak_credential (credential : string) : bool := negb (entropy_at_least (chars credential) 128).

Definition credential_rejected (credential : string) : bool :=
  (slen credential <? 16) || (4096 <? slen credential)
  || existsb (λ c, negb ((33 <=? ord c) && (ord c <=? 126))) (chars credential)
  || weak_credential credential.

(** The credential checks of [discover] and [invoke]: [None] when they raise. *)
Definition prepare_credential (endpoint : string) (bearer_token : option bytes) : option (option string) :=
  match bearer_token with
  | None => Some None
  | Some token =>
      if negb (startswith (lower endpoint) "https://") then None else
      match decode_ascii token with
      | None => None
      | Some credential => if credential_rejected credential then None else Some (Some credential)
      end
  end.

(** [json.dumps(credential)[1:-1]] of printable ASCII text *)
Definition json_escaped (s : string) : string :=
  of_chars (concat ((λ c, if (ord c =? 34) || (ord c =? 92) then [byte_of 92; c] else [c]) <$> chars s)).

Definition forbidden_values (credential : option string) : list string :=
  match credential with Some c => [c; json_escaped c] | None => [] end.

(** ** The adapter *)

Module InvocationResult.
Record t := mk { payload : Json.t; canonical_digest : string; byte_count : Z }.
End InvocationResult.

Module McpClientAdapter.
Record t := mk {
  limits : TransportLimits.t; max_pages : Z; max_tools : Z; max_result_bytes : Z;
  schema_validation_timeout_seconds : PyFloat.t; schema_validation_memory_bytes : Z }.
(** [__init__] raises [ValueError] unless this holds. *)
Definition valid (self : t) : bool :=
  negb ((max_pages self <? 1) || (max_tools self <? 1) || (max_result_bytes self <? 1)
        || negb (PyFloat.in_open_closed (schema_validation_timeout_seconds self) (seconds 5))
        || negb (PyFloat.isfinite (schema_validation_timeout_seconds self))
        || negb ((64 * 1024 * 1024 <=? schema_validation_memory_bytes self)
                 && (schema_validation_memory_bytes self <=? 256 * 1024 * 1024))).
End McpClientAdapter.

(** ** Screening of results *)

Section client.
Context `{Externals} `{Urls}.

(** The inner loop of [_contains_decoded_credential]: the text and up to three
    percent-decodings of it. *)
Fixpoint decoded_contains (rounds : nat) (credential decoded : string) : bool :=
  match rounds with
  | O => false
  | S rounds =>
      contained credential decoded
      || match unquote_strict decoded with
         | None => false
         | Some next_decoded =>
             if eqv next_decoded decoded then false else decoded_contains rounds credential next_decoded
         end
  end.

(** The strings of a value, keys included. *)
Fixpoint all_strings (value : Json.t) : list string :=
  match value with
  | Json.Str s => [s]
  | Json.List items => concat (map all_strings items)
  | Json.Dict items =>
      concat (map (λ m, (match m.1 with Json.KStr k => [k] | Json.KOther => [] end) ++ all_strings m.2) items)
  | _ => []
  end.

(** [_contains_decoded_credential]: the order of the work list does not matter for
    an [any]. *)
Definition _contains_decoded_credential (value : Json.t) (credential : string) : bool :=
  existsb (decoded_contains 4 credential) (all_strings value).

Definition invocation_failed (class : InvocationError.kind) (code : InvocationFailureCode.t) (dispatched : bool)
    : Raised.t := Raised.Invocation (InvocationError.mk class code dispatched).
Definition rejected_result {A} (code : InvocationFailureCode.t) : proc (result Raised.t A) :=
  mret (Err (invocation_failed InvocationError.Plain code true)).

(** The text blocks of a result; [None]: a block of another type. *)
Definition text_block (block : option string) : option Json.t :=
  (λ text, Json.Dict [(Json.KStr "type", Json.Str "text"); (Json.KStr "text", Json.Str text)]) <$> block.
Definition result_payload (content : list Json.t) (structured : option Json.t) : Json.t :=
  Json.Dict ((Json.KStr "content", Json.List content)
             :: match structured with Some s => [(Json.KStr "structuredContent", s)] | None => [] end).

(** [_normalize_invocation_result] *)
Definition _normalize_invocation_result (self : McpClientAdapter.t) (r : CallToolResult.t)
    (output_schema : option Json.t) (credential_text : option string) : proc (result Raised.t InvocationResult.t) :=
  if CallToolResult.isError r then rejected_result InvocationFailureCode.TOOL_CALL_FAILED else
  match mapM text_block (CallToolResult.content r) with
  | None => rejected_result InvocationFailureCode.UNSUPPORTED_RESULT_CONTENT
  | Some content =>
      let structured := CallToolResult.structuredContent r in
      if match structured with None | Some (Json.Dict _) => false | Some _ => true end
      then rejected_result InvocationFailureCode.INVALID_UPSTREAM_OUTPUT else
      let payload := result_payload content structured in
      match Metadata.validate_bounded_json payload, json_dumps payload with
      | Ok _, Some canonical =>
          if McpClientAdapter.max_result_bytes self <? slen canonical
          then rejected_result InvocationFailureCode.INVALID_UPSTREAM_OUTPUT else
          match contains_sensitive_json payload with
          | Err _ => mret (Err Raised.Error)
          | Ok sensitive =>
              if sensitive || match credential_text with
                              | Some credential => _contains_decoded_credential payload credential
                              | None => false
                              end
              then rejected_result InvocationFailureCode.SENSITIVE_RESULT else
              let accepted := mret (Ok (InvocationResult.mk payload (sha256_hex canonical) (slen canonical))) in
              match output_schema with
              | None => accepted
              | Some schema =>
                  match structured with
                  | None => rejected_result InvocationFailureCode.INVALID_UPSTREAM_OUTPUT
                  | Some value =>
                      validation <-? trigger (ValidateSchema value schema);
                      if eqv validation SchemaValidationResult.VALID then accepted
                      else rejected_result InvocationFailureCode.INVALID_UPSTREAM_OUTPUT
                  end
              end
          end
      | _, _ => rejected_result InvocationFailureCode.INVALID_UPSTREAM_OUTPUT
      end
  end.

(** ** The session *)

(** What the body of the session contexts leaves: was the dispatch fence passed,
    what was received, and the pending exception. *)
Record session_outcome := {
  so_dispatched : bool; so_received : option CallToolResult.t; so_pending : option Raised.t }.
Definition session_failed (e : Raised.t) : proc session_outcome := mret (Build_session_outcome false None (Some e)).

Definition session_body (tool_name : string) (arguments : Json.t) (before_dispatch : proc (result Raised.t ()))
    : proc session_outcome :=
  initialized ← trigger Initialize;
  match initialized with
  | Err e => session_failed e
  | Ok protocol_version =>
      if negb (eqv protocol_version QUALIFIED_PROTOCOL_REVISION)
      then session_failed (invocation_failed InvocationError.Plain InvocationFailureCode.SESSION_INITIALIZATION_FAILED false)
      else
        notified ← trigger Initialized;
        match notified with
        | Err e => session_failed e
        | Ok _ =>
            fenced ← before_dispatch;
            match fenced with
            | Err e => session_failed e
            | Ok _ =>
                called ← trigger (CallTool tool_name arguments);
                mret (match called with
                      | Ok received => Build_session_outcome true (Some received) None
                      | Err e => Build_session_outcome true None (Some e)
                      end)
            end
        end
  end.

(** [_invoke], and the [dispatched] variable of its caller. *)
Definition _invoke (endpoint tool_name : string) (arguments : Json.t) (credential : option string)
    (before_dispatch : proc (result Raised.t ())) : proc (bool * result Raised.t CallToolResult.t) :=
  opened ← trigger (OpenSession endpoint credential (forbidden_values credential));
  match opened with
  | Err e => mret (false, Err e)
  | Ok _ =>
      outcome ← session_body tool_name arguments before_dispatch;
      left_with ← trigger (CloseSession (so_pending outcome));
      mret (so_dispatched outcome,
            match left_with, so_received outcome with
            | Some Raised.Cancelled, Some received => Ok received
            | Some e, Some received => if is_exception e then Ok received else Err e
            | Some e, None => Err e
            | None, Some received => Ok received
            | None, None => Err (invocation_failed InvocationError.Indeterminate InvocationFailureCode.TOOL_CALL_FAILED true)
            end)
  end.

(** ** [invoke] *)

(** The variables of [invoke] when its outer handlers run: is there a transport? *)
Record invocation_state := { is_transport : bool; is_dispatched : bool; is_received : bool }.

(** The [except] clauses around the attempt. *)
Definition failure_marks (st : invocation_state) (marks : Marks.t) (exc : Raised.t) : Raised.t :=
  let dispatched := is_dispatched st in
  let completed := is_transport st && Marks.tool_call_response_completed marks in
  let failed := is_transport st && Marks.tool_call_failure_completed marks in
  if is_transport st && Marks.sensitive_response_detected marks then
    if dispatched && negb (is_received st) && negb completed
    then invocation_failed InvocationError.Indeterminate InvocationFailureCode.SENSITIVE_RESULT true
    else invocation_failed InvocationError.Plain InvocationFailureCode.SENSITIVE_RESULT dispatched
  else match _find_exception invocation_error exc with
  | Some nested => Raised.Invocation nested
  | None =>
      if dispatched && completed && failed
      then invocation_failed InvocationError.Plain InvocationFailureCode.TOOL_CALL_FAILED true
      else if dispatched && completed && is_some (_find_exception mcp_error exc)
      then invocation_failed InvocationError.Plain InvocationFailureCode.INVALID_UPSTREAM_OUTPUT true
      else if dispatched then
        if is_received st || completed
        then invocation_failed InvocationError.Plain InvocationFailureCode.INVALID_UPSTREAM_OUTPUT true
        else invocation_failed InvocationError.Indeterminate InvocationFailureCode.TOOL_CALL_FAILED true
      else invocation_failed InvocationError.Plain InvocationFailureCode.SESSION_INITIALIZATION_FAILED false
  end.

Definition classify_failure {A} (st : invocation_state) (exc : Raised.t) : proc (result Raised.t A) :=
  match exc with
  | Raised.Invocation _ => mret (Err exc)
  | _ =>
      if negb (is_exception exc) then mret (Err exc) else
      marks ← trigger ReadMarks;
      mret (Err (failure_marks st marks exc))
  end.

(** The block under [asyncio.timeout]. *)
Definition attempt_invocation (self : McpClientAdapter.t) (endpoint tool_name : string) (arguments : Json.t)
    (output_schema : option Json.t) (credential : option string) (before_dispatch : proc (result Raised.t ()))
    : proc (invocation_state * result Raised.t InvocationResult.t) :=
  resolution ← trigger (ValidateEndpoint endpoint);
  match resolution with
  | Err e => mret (Build_invocation_state false false false, Err e)
  | Ok _ =>
      '(dispatched, result) ← _invoke endpoint tool_name arguments credential before_dispatch;
      match result with
      | Err e => mret (Build_invocation_state true dispatched false, Err e)
      | Ok received =>
          let st := Build_invocation_state true dispatched true in
          marks ← trigger ReadMarks;
          if Marks.sensitive_response_detected marks
          then mret (st, Err (invocation_failed InvocationError.Plain InvocationFailureCode.SENSITIVE_RESULT dispatched))
          else
            normalized ← _normalize_invocation_result self received output_schema credential;
            mret (st, match normalized with
                      | Err (Raised.Invocation _) => normalized
                      | Err e => if is_exception e
                                 then Err (invocation_failed InvocationError.Plain InvocationFailureCode.INVALID_UPSTREAM_OUTPUT true)
                                 else Err e
                      | Ok _ => normalized
                      end)
      end
  end.

Definition invoke (self : McpClientAdapter.t) (endpoint tool_name : string) (arguments : Json.t)
    (output_schema : option Json.t) (bearer_token : option bytes)
    (before_session before_dispatch : proc (result Raised.t ())) : proc (result Raised.t InvocationResult.t) :=
  match prepare_credential endpoint bearer_token with
  | None => mret (Err (invocation_failed InvocationError.Plain InvocationFailureCode.PREPARATION_FAILED false))
  | Some credential =>
      contacted ← before_session;
      match contacted with
      | Err e => classify_failure (Build_invocation_state false false false) e
      | Ok _ =>
          '(st, result) ← attempt_invocation self endpoint tool_name arguments output_schema credential before_dispatch;
          match result with
          | Ok _ => mret result
          | Err Raised.Cancelled =>
              expired ← trigger LeaveTimeout;
              if expired : bool then classify_failure st Raised.TimeoutError else mret result
          | Err e => classify_failure st e
          end
      end
  end.
End client.
