(* ===== verification/Runner.v ===== *)
(** The invocation worker: [InvocationRunner] of execution/runner.py and the
    adapter factory of worker/main.py, as programs over the effects. *)
From S2P Require Import Prelude Types Json PyStr Screening Store Session Registry Ledger Lease Admission.
From S2P Require Import Matcher Endpoint Policy Stream Programs Effects Client.
From stdpp Require Import strings.
Local Open Scope Z_scope.

Module InvocationRunner.
(** The execution service and the process settings the runner is built from. *)
Record t := mk { service : ExecutionService.t; transport_limits : TransportLimits.t }.
End InvocationRunner.

Section runner.
Context `{Externals} `{Urls}.
Implicit Types (self : InvocationRunner.t) (lease : JobLease.t) (lease_duration : option Z).

(** [adapter_factory] of [build_execution_runtime], with the transport limits of
    [_invocation_transport_limits]. *)
Definition _INVOCATION_PROTOCOL_OVERHEAD_BYTES : Z := 65536.
Definition _MAX_JSON_ESCAPE_EXPANSION : Z := 6.
Definition _invocation_transport_limits (limits : ExecutionLimits.t) : TransportLimits.t :=
  TransportLimits.mk (ExecutionLimits.max_result_bytes limits * _MAX_JSON_ESCAPE_EXPANSION
                      + _INVOCATION_PROTOCOL_OVERHEAD_BYTES)
    (PyFloat.Finite (seconds 3)) (PyFloat.Finite (seconds 5)) (PyFloat.Finite (seconds 10)).
Definition adapter_factory (limits : ExecutionLimits.t) (policy_version : string)
    : result Raised.t McpClientAdapter.t :=
  if negb (eqv policy_version "v1"%string) then Err Raised.KeyError else
  let adapter := McpClientAdapter.mk (_invocation_transport_limits limits) 16 512
    (ExecutionLimits.max_result_bytes limits) (ExecutionLimits.schema_validation_timeout_seconds limits)
    (ExecutionLimits.schema_validation_memory_bytes limits) in
  if TransportLimits.valid (McpClientAdapter.limits adapter) && McpClientAdapter.valid adapter
  then Ok adapter else Err Raised.ValueError.

(** [_fence_session], [_fence_dispatch]: an [ExecutionError] rejects the fence. *)
Definition fence_rejected (code : InvocationFailureCode.t) (r : result Raised.t ()) : result Raised.t () :=
  match r with
  | Err (Raised.Database (ExecutionError _)) => Err (invocation_failed InvocationError.FenceRejected code false)
  | _ => r
  end.
Definition _fence_session lease lease_duration : proc (result Raised.t ()) :=
  r ← trigger (FenceSessionTx lease lease_duration);
  mret (fence_rejected InvocationFailureCode.SESSION_INITIALIZATION_FAILED r).
Definition _fence_dispatch lease : proc (result Raised.t ()) :=
  r ← trigger (FenceDispatchTx lease);
  mret (fence_rejected InvocationFailureCode.TOOL_CALL_FAILED r).

(** [_renew_lease] *)
Definition _renew_lease lease lease_duration : proc (result Raised.t JobLease.t) :=
  match lease_duration with
  | None => mret (Ok lease)
  | Some n => trigger (HeartbeatTx lease n)
  end.

(** [_complete_failure] *)
Definition _complete_failure lease (status : RunStatus.t) (code : RunFailureCode.t) lease_duration
    : proc (result Raised.t (option RunStatus.t)) :=
  r ← (lease <-? _renew_lease lease lease_duration;
       trigger (CompleteTx lease status code));
  mret match r with
       | Ok status => Ok (Some status)
       | Err (Raised.Database (ExecutionError _)) => Ok None
       | Err e => Err e
       end.

(** The attempt in the first [try] of [run]. *)
Definition invoke_target self lease lease_duration : proc (result Raised.t InvocationResult.t) :=
  target <-? trigger (LoadTarget lease);
  adapter <-? mret (adapter_factory (ExecutionService.limits (InvocationRunner.service self))
                      (InvocationTarget.policy_version target));
  credential <-? match InvocationTarget.secret_reference target with
                 | None => mret (Ok None)
                 | Some reference => r ← trigger (RetrieveSecret reference);
                                     mret match r with Ok secret => Ok (Some secret) | Err e => Err e end
                 end;
  invoke adapter (InvocationTarget.endpoint target) (InvocationTarget.tool_name target)
    (InvocationTarget.arguments target) (InvocationTarget.output_schema target) credential
    (_fence_session lease lease_duration) (_fence_dispatch lease).

(** The code of a definite failure. *)
Definition run_failure_code (error : InvocationError.t) : RunFailureCode.t :=
  match InvocationError.code error with
  | InvocationFailureCode.PREPARATION_FAILED => RunFailureCode.PREPARATION_FAILED
  | code =>
      if negb (InvocationError.dispatched error)
         || eqv code InvocationFailureCode.SESSION_INITIALIZATION_FAILED
      then RunFailureCode.SESSION_INITIALIZATION_FAILED
      else match code with
           | InvocationFailureCode.TOOL_CALL_FAILED => RunFailureCode.TOOL_CALL_FAILED
           | InvocationFailureCode.UNSUPPORTED_RESULT_CONTENT => RunFailureCode.UNSUPPORTED_TOOL_RESULT
           | InvocationFailureCode.SENSITIVE_RESULT => RunFailureCode.SENSITIVE_TOOL_RESULT
           | _ => RunFailureCode.INVALID_TOOL_RESULT
           end
  end.

(** The outcome an exception is recorded as; [None]: the fence was rejected, nothing
    is recorded; an exception that no clause names is raised. *)
Definition recorded_outcome (error : Raised.t) : result Raised.t (option (RunStatus.t * RunFailureCode.t)) :=
  match error with
  | Raised.Invocation e =>
      Ok (match InvocationError.class e with
          | InvocationError.FenceRejected => None
          | InvocationError.Indeterminate => Some (RunStatus.INDETERMINATE, RunFailureCode.UPSTREAM_OUTCOME_UNKNOWN)
          | InvocationError.Plain => Some (RunStatus.FAILED, run_failure_code e)
          end)
  | Raised.KeyError | Raised.ValueError | Raised.SecretProviderError
  | Raised.Database Session.ValueError | Raised.Database Session.SecretProviderError =>
      Ok (Some (RunStatus.FAILED, RunFailureCode.PREPARATION_FAILED))
  | _ => Err error
  end.

(** [complete_invocation_success] and its handlers. *)
Definition complete_success self lease lease_duration (result : InvocationResult.t)
    : proc (Prelude.result Raised.t (option RunStatus.t)) :=
  let accepted := AcceptedToolResult.mk (InvocationResult.payload result)
    (InvocationResult.canonical_digest result) (InvocationResult.byte_count result) in
  let refused lease (e : Raised.t) :=
    match e with
    | Raised.Database (ExecutionError ExecutionFailureCode.INVALID_ARGUMENTS) =>
        _complete_failure lease RunStatus.FAILED RunFailureCode.INVALID_TOOL_RESULT lease_duration
    | Raised.Database (ExecutionError _) => mret (Ok None)
    | _ => mret (Err e)
    end in
  renewed ← _renew_lease lease lease_duration;
  match renewed with
  | Err e => refused lease e
  | Ok lease =>
      completed ← trigger (SuccessTx (InvocationRunner.service self) lease accepted);
      match completed with
      | Err e => refused lease e
      | Ok status => mret (Ok (Some status))
      end
  end.

(** [run] *)
Definition run self lease lease_duration : proc (result Raised.t (option RunStatus.t)) :=
  invoked ← invoke_target self lease lease_duration;
  match invoked with
  | Ok result => complete_success self lease lease_duration result
  | Err error =>
      match recorded_outcome error with
      | Ok None => mret (Ok None)
      | Ok (Some (status, code)) => _complete_failure lease status code lease_duration
      | Err e => mret (Err e)
      end
  end.

(** [claim_and_run] *)
Definition claim_and_run self (worker_id : string) (lease_duration : Z) : proc (result Raised.t bool) :=
  claimed <-? trigger (ClaimTx (InvocationRunner.service self) worker_id lease_duration);
  match claimed with
  | None => mret (Ok false)
  | Some lease => _ <-? run self lease (Some lease_duration); mret (Ok true)
  end.
End runner.
