(* ===== verification/RunnerSpec.v ===== *)
(** What the invocation worker records is warranted: a proof over every trace of
    [InvocationRunner.run]. *)
From S2P Require Import Prelude Types Json PyStr Screening Store Session Registry Ledger Lease Admission.
From S2P Require Import Matcher Endpoint Policy Stream ResponseSpec Programs Effects Client Runner.
From stdpp Require Import strings.
Local Open Scope Z_scope.

(** What a trace has established. *)
Module Evidence.
Record t := mk {
  fenced : bool;                            (* the dispatch fence is passed and not used *)
  calls : nat;                              (* calls of the tool *)
  target : option InvocationTarget.t;       (* the target that was loaded *)
  answered : option CallToolResult.t;       (* the result the call returned *)
  marks : option Marks.t;                   (* the marks of the transport, as last read *)
  swallowed : bool;                         (* a context of the session swallowed an exception *)
  secret : option bytes }.                  (* the credential in use *)
#[global] Instance eta : Eta t := λ r,
  mk (fenced r) (calls r) (target r) (answered r) (marks r) (swallowed r) (secret r).
Definition none : t := mk false 0 None None None false None.
Definition received (g : t) : bool := is_some (answered g).
Definition completed (g : t) : bool :=
  match marks g with Some m => Marks.tool_call_response_completed m | None => false end.
End Evidence.
Import Evidence(fenced, calls, target, answered, marks, swallowed, received, completed, secret).

Definition observe (e : effect) : answer e → Evidence.t → Evidence.t :=
  match e with
  | LoadTarget _ => λ x g, match x with Ok target => g <| Evidence.target := Some target |> | Err _ => g end
  | FenceDispatchTx _ => λ x g, g <| fenced := is_ok x |>
  | CallTool _ _ => λ x g,
      g <| fenced := false |> <| calls := S (calls g) |> <| answered := match x with Ok r => Some r | Err _ => None end |>
  | CloseSession pending => λ x g, g <| swallowed := is_some pending && negb (is_some x) |>
  | ReadMarks => λ x g, g <| marks := Some x |>
  | RetrieveSecret _ => λ x g, match x with Ok s => g <| secret := Some s |> | Err _ => g end
  | _ => λ _ g, g
  end.

(** The answer of the server is known: the call returned, or the transport saw a
    complete response to it. *)
Definition definite (g : Evidence.t) : Prop := received g = true ∨ completed g = true.

Section runner.
Context `{Externals} `{Urls} (self : InvocationRunner.t) (lease : JobLease.t).
Implicit Types g : Evidence.t.
Abbreviation service := (InvocationRunner.service self).

(** The text a number of percent-decodings make of a text. *)
Fixpoint decodings (n : nat) (text : string) : option string :=
  match n with O => Some text | S n => unquote_strict text ≫= decodings n end.

(** No string of the result carries the credential, as it is or behind up to three
    percent-decodings. *)
Definition free_of_credential (payload : Json.t) (g : Evidence.t) : Prop :=
  ∀ s n text decoded, secret g = Some s → (n < 4)%nat → text ∈ all_strings payload → decodings n text = Some decoded →
    ¬ occurs s (chars decoded).

(** The payload is what the tool returned as a success: text blocks, in their order,
    and an object of structured content, which the output schema of the target, if
    there is one, requires and accepts. *)
Definition returned (payload : Json.t) (g : Evidence.t) : Prop :=
  ∃ target r blocks, Evidence.target g = Some target ∧ answered g = Some r ∧ CallToolResult.isError r = false
    ∧ CallToolResult.content r = Some <$> blocks
    ∧ payload = result_payload
        ((λ text, Json.Dict [(Json.KStr "type", Json.Str "text"); (Json.KStr "text", Json.Str text)]) <$> blocks)
        (CallToolResult.structuredContent r)
    ∧ (∀ value, CallToolResult.structuredContent r = Some value → ∃ members, value = Json.Dict members)
    ∧ (∀ schema, InvocationTarget.output_schema target = Some schema →
         ∃ value, CallToolResult.structuredContent r = Some value
           ∧ validate_schema_arguments value schema = SchemaValidationResult.VALID).

(** The transport found nothing forbidden in the responses of the session. *)
Definition unmarked (g : Evidence.t) : Prop :=
  ∃ m, marks g = Some m ∧ Marks.sensitive_response_detected m = false.

(** Why an answer that is known is recorded as a failure of this kind. *)
Definition refused (code : InvocationFailureCode.t) (g : Evidence.t) : Prop :=
  match code with
  | InvocationFailureCode.TOOL_CALL_FAILED =>
      (∃ r, answered g = Some r ∧ CallToolResult.isError r = true)
      ∨ (∃ m, marks g = Some m ∧ Marks.tool_call_failure_completed m = true)
  | InvocationFailureCode.UNSUPPORTED_RESULT_CONTENT =>
      ∃ r, answered g = Some r ∧ CallToolResult.isError r = false ∧ None ∈ CallToolResult.content r
  | InvocationFailureCode.SENSITIVE_RESULT =>
      (∃ m, marks g = Some m ∧ Marks.sensitive_response_detected m = true)
      ∨ (∃ r content, answered g = Some r ∧ CallToolResult.isError r = false
           ∧ mapM text_block (CallToolResult.content r) = Some content
           ∧ let payload := result_payload content (CallToolResult.structuredContent r) in
             contains_sensitive_json payload = Ok true
             ∨ ∃ s, secret g = Some s ∧ _contains_decoded_credential payload (of_chars s) = true)
  | InvocationFailureCode.INVALID_UPSTREAM_OUTPUT => True
  | InvocationFailureCode.PREPARATION_FAILED | InvocationFailureCode.SESSION_INITIALIZATION_FAILED => False
  end.
Definition run_refused (code : RunFailureCode.t) (g : Evidence.t) : Prop :=
  match code with
  | RunFailureCode.TOOL_CALL_FAILED => refused InvocationFailureCode.TOOL_CALL_FAILED g
  | RunFailureCode.UNSUPPORTED_TOOL_RESULT => refused InvocationFailureCode.UNSUPPORTED_RESULT_CONTENT g
  | RunFailureCode.SENSITIVE_TOOL_RESULT => refused InvocationFailureCode.SENSITIVE_RESULT g
  | RunFailureCode.INVALID_TOOL_RESULT => True
  | _ => False
  end.

(** The tool was called and its answer is not known, or the call may have been lost
    in a context that swallowed the exception of the session. *)
Definition unknown (g : Evidence.t) : Prop := ¬ definite g ∧ (calls g = 1%nat ∨ swallowed g = true).

(** What the effects of a run need. *)
Definition warranted (e : effect) (g : Evidence.t) : Prop :=
  match e with
  | FenceDispatchTx l => l = lease
  | CallTool _ _ => fenced g = true ∧ calls g = 0%nat
  | SuccessTx service' _ result =>
      service' = service ∧ calls g = 1%nat ∧ returned (AcceptedToolResult.payload result) g ∧ unmarked g
      ∧ result_accepted service result = true
      ∧ free_of_credential (AcceptedToolResult.payload result) g
  | CompleteTx _ status code =>
      status = RunStatus.INDETERMINATE ∧ code = RunFailureCode.UPSTREAM_OUTCOME_UNKNOWN ∧ unknown g
      ∨ status = RunStatus.FAILED
        ∧ (calls g = 0%nat ∧ code ∈ [RunFailureCode.PREPARATION_FAILED; RunFailureCode.SESSION_INITIALIZATION_FAILED]
           ∨ calls g = 1%nat ∧ definite g ∧ run_refused code g)
  | _ => True
  end.

Abbreviation wp := (wpp warranted observe).

(** An error that [invoke] may raise. *)
Definition error_warranted (i : InvocationError.t) (g : Evidence.t) : Prop :=
  match InvocationError.class i with
  | InvocationError.Plain =>
      if InvocationError.dispatched i then calls g = 1%nat ∧ definite g ∧ refused (InvocationError.code i) g
      else calls g = 0%nat ∧ InvocationError.code i ∈
             [InvocationFailureCode.PREPARATION_FAILED; InvocationFailureCode.SESSION_INITIALIZATION_FAILED;
              InvocationFailureCode.SENSITIVE_RESULT]
  | InvocationError.Indeterminate => unknown g
  | InvocationError.FenceRejected => True
  end.
Definition raised_warranted (e : Raised.t) (g : Evidence.t) : Prop :=
  match e with Raised.Invocation i => error_warranted i g | _ => is_exception e = false end.

(** *** Results *)

Lemma decodings_fixed k text decoded : unquote_strict text = Some text → decodings k text = Some decoded → decoded = text.
Proof. intros Hu. induction k as [|k IH]; cbn; [by intros [= ->]|]. by rewrite Hu. Qed.

Lemma decoded_contains_clean n k credential text decoded :
  decoded_contains n credential text = false → (k < n)%nat → decodings k text = Some decoded →
  ¬ occurs (chars credential) (chars decoded).
Proof.
  revert k text. induction n as [|n IH]; intros k text; [lia|]. cbn [decoded_contains]. intros [Hc Hn]%orb_false_iff Hk Hd.
  apply not_contained in Hc. destruct k as [|k]; cbn [decodings] in Hd; [by injection Hd as <-|].
  apply bind_Some in Hd as (next & Hu & Hd). rewrite Hu in Hn. destruct (eqv next text) eqn:E.
  - apply eqv_true in E as ->. by rewrite (decodings_fixed _ _ _ Hu Hd).
  - apply (IH k next); [done|lia|done].
Qed.

Lemma contains_decoded_clean payload credential text k decoded :
  _contains_decoded_credential payload credential = false → text ∈ all_strings payload →
  (k < 4)%nat → decodings k text = Some decoded → ¬ occurs (chars credential) (chars decoded).
Proof.
  intros Hc Hin. apply decoded_contains_clean. destruct (decoded_contains 4 credential text) eqn:E; [|done].
  rewrite <- Hc. symmetry. apply existsb_exists. exists text. by rewrite <- list_elem_of_In.
Qed.

Lemma text_blocks content blocks : mapM text_block content = Some blocks →
  ∃ texts, content = Some <$> texts
    ∧ blocks = (λ text, Json.Dict [(Json.KStr "type", Json.Str "text"); (Json.KStr "text", Json.Str text)]) <$> texts.
Proof.
  intros Hm%mapM_Some. induction Hm as [|block b content blocks Hb _ (texts & -> & ->)]; [by exists []|].
  apply fmap_Some in Hb as (text & -> & ->). by exists (text :: texts).
Qed.
Lemma no_text_blocks content : mapM text_block content = None → None ∈ content.
Proof. intros (block & Hb & Hn)%mapM_None%Exists_exists. by destruct block. Qed.

Lemma json_dumps_dict members s : json_dumps (Json.Dict members) = Some s → falsy s = false.
Proof.
  unfold json_dumps. cbn [sort_keys]. intros Hs. apply fmap_Some in Hs as (l & Hl & ->). cbn [dumps] in Hl.
  apply bind_Some in Hl as (ms & _ & [= <-]). by apply eqv_false.
Qed.

Definition result_warranted (r : InvocationResult.t) (g : Evidence.t) : Prop :=
  result_accepted service (AcceptedToolResult.mk (InvocationResult.payload r) (InvocationResult.canonical_digest r)
                             (InvocationResult.byte_count r)) = true
  ∧ returned (InvocationResult.payload r) g ∧ unmarked g
  ∧ free_of_credential (InvocationResult.payload r) g.

Definition after_call (r : CallToolResult.t) (g : Evidence.t) : Prop := calls g = 1%nat ∧ answered g = Some r.
Lemma after_call_definite r g : after_call r g → definite g.
Proof. intros [_ Ha]. left. unfold received. by rewrite Ha. Qed.

Definition normal_post (received : CallToolResult.t) (r : Prelude.result Raised.t InvocationResult.t) (g : Evidence.t) : Prop :=
  after_call received g ∧
  match r with
  | Ok r => result_warranted r g
  | Err (Raised.Invocation i) =>
      InvocationError.class i = InvocationError.Plain ∧ InvocationError.dispatched i = true ∧ refused (InvocationError.code i) g
  | Err Raised.Error | Err Raised.Cancelled => True
  | Err _ => False
  end.

Lemma wp_normalize adapter r t credential g :
  McpClientAdapter.max_result_bytes adapter = ExecutionLimits.max_result_bytes (ExecutionService.limits service) →
  after_call r g → target g = Some t → unmarked g → secret g = chars <$> credential →
  wp (_normalize_invocation_result adapter r (InvocationTarget.output_schema t) credential) (normal_post r) g.
Proof.
  intros Hmax Hg Ht Hum Hsec. unfold _normalize_invocation_result.
  assert (∀ code, refused code g → wp (rejected_result code : proc (result Raised.t InvocationResult.t)) (normal_post r) g) as Hrej by done.
  assert (wp (rejected_result InvocationFailureCode.INVALID_UPSTREAM_OUTPUT : proc (result Raised.t InvocationResult.t)) (normal_post r) g)
    as Hinv by by apply Hrej.
  pose proof (proj2 Hg) as Ha.
  destruct (CallToolResult.isError r) eqn:He; [apply Hrej; left; by exists r|].
  destruct (mapM text_block _) as [content|] eqn:Hc; [|apply Hrej; exists r; split_and!; by try apply no_text_blocks].
  destruct (text_blocks _ _ Hc) as (texts & Hcontent & Hblocks). cbv zeta.
  destruct (match CallToolResult.structuredContent r with None | Some (Json.Dict _) => false | Some _ => true end) eqn:Hobj; [done|].
  set (payload := result_payload content (CallToolResult.structuredContent r)).
  destruct (Metadata.validate_bounded_json payload) eqn:Hb; [|done].
  destruct (json_dumps payload) as [canonical|] eqn:Hd; [|done].
  destruct (McpClientAdapter.max_result_bytes adapter <? slen canonical) eqn:Hlen; [done|].
  destruct (contains_sensitive_json payload) as [sensitive|] eqn:Hs; [|by apply wpp_ret].
  destruct (sensitive || _) eqn:Hclean.
  { apply Hrej. right. exists r, content. split_and!; [done..|]. cbv zeta. fold payload. apply orb_true_iff in Hclean as [->|Hcl]; [by left|].
    right. destruct credential as [c|]; [|done]. exists (chars c). by rewrite of_chars_chars. }
  apply orb_false_iff in Hclean as [-> Hcred]. cbv zeta.
  assert ((∀ schema, InvocationTarget.output_schema t = Some schema → ∃ value, CallToolResult.structuredContent r = Some value
             ∧ validate_schema_arguments value schema = SchemaValidationResult.VALID) →
    result_warranted (InvocationResult.mk payload (sha256_hex canonical) (slen canonical)) g) as Hok.
  { intros Hschema. split_and!; [| |done|].
    - unfold result_accepted.
      cbn [InvocationResult.payload InvocationResult.canonical_digest InvocationResult.byte_count AcceptedToolResult.payload
           AcceptedToolResult.canonical_digest AcceptedToolResult.byte_count].
      rewrite Hb, Hd, Hs, eqv_refl, Z.eqb_refl, (json_dumps_dict _ _ Hd). unfold limits. by rewrite <- Hmax, Hlen.
    - exists t, r, texts. split_and!; try done.
      { by rewrite <- Hblocks. }
      intros value Hv. rewrite Hv in Hobj. destruct value; naive_solver.
    - intros s k text decoded Hs' Hk Hin Hdec. rewrite Hsec in Hs'. apply fmap_Some in Hs' as (c & -> & ->).
      by eapply contains_decoded_clean. }
  destruct (InvocationTarget.output_schema t) as [schema|]; [|by apply wpp_ret; split; [|apply Hok]].
  destruct (CallToolResult.structuredContent r) as [value|] eqn:Hv; [|done].
  apply wpp_attempt, wpp_trigger; [done|]. intros x (? & ? & ? & _ & [->| ->]); cbn [observe]; [|by split].
  destruct (eqv _ SchemaValidationResult.VALID) eqn:E; [|done]. pose proof (eqv_eq _ _ E) as Hvalid.
  apply wpp_ret. split; [done|]. apply Hok. intros ? [= <-]. by exists value.
Qed.
(** *** The session *)

Abbreviation pending_error o := (so_pending o ≫= _find_exception invocation_error) (only parsing).

Definition untouched (g g' : Evidence.t) : Prop := secret g' = secret g ∧ target g' = target g ∧ marks g' = marks g.

(** The session has not called the tool, and the marks were not read. *)
Definition untried (g : Evidence.t) : Prop := calls g = 0%nat ∧ answered g = None ∧ marks g = None.

(** What is pending before the call: no unknown outcome. *)
Definition early (i : InvocationError.t) (g : Evidence.t) : Prop :=
  InvocationError.class i ≠ InvocationError.Indeterminate ∧ error_warranted i g.

(** A session has called the tool, or not; errors of this module are pending only
    in the second case. *)
Definition session_post (g0 : Evidence.t) (o : session_outcome) (g : Evidence.t) : Prop :=
  untouched g0 g ∧ answered g = so_received o ∧ (so_received o = None → is_some (so_pending o) = true) ∧
  if so_dispatched o
  then calls g = 1%nat ∧ pending_error o = None
  else calls g = 0%nat ∧ so_received o = None ∧ ∀ i, pending_error o = Some i → early i g.

Lemma find_invocation_other e :
  match e with Raised.Invocation _ | Raised.Group _ => False | _ => True end → _find_exception invocation_error e = None.
Proof. by destruct e. Qed.

Lemma possible_call name arguments x : possible (CallTool name arguments) x → foreign_result x.
Proof. by intros (env & d & d' & _ & Hf). Qed.

(** A fence, as [invoke] sees it. *)
Lemma fence_error code x i :
  (∀ e, x = Err e → ∃ exn, e = Raised.Database exn ∨ interruption e) →
  (fence_rejected code x = Err i → match i with
     | Raised.Invocation e => InvocationError.class e = InvocationError.FenceRejected
     | Raised.Group _ => False | _ => True end).
Proof.
  intros Hx Hi. destruct x as [[]|e]; [done|]. destruct (Hx e eq_refl) as (exn & [->|[->| ->]]).
  - by destruct exn; cbn in Hi; simplify_eq.
  - by injection Hi as <-.
  - by injection Hi as <-.
Qed.

Lemma transacts_raises {A} (m : M A) x env d d' :
  transacts m x env d d' → ∀ e, x = Err e → ∃ exn, e = Raised.Database exn ∨ interruption e.
Proof.
  intros [[-> _]|(e' & -> & Hi & _)] e.
  - unfold raised. destruct (transaction m env d).1 as [a|exn]; [done|]. intros [= <-]. exists exn. by left.
  - intros [= <-]. exists ValueError. by right.
Qed.

Lemma wp_fence_dispatch_step Q g :
  (∀ r g', g' = g <| fenced := is_ok r |> →
     match r with
     | Err (Raised.Invocation e) => InvocationError.class e = InvocationError.FenceRejected
     | Err (Raised.Group _) => False | _ => True end → Q r g') →
  wp (_fence_dispatch lease) Q g.
Proof.
  intros HQ. apply wpp_bind, wpp_trigger; [done|]. intros x (env & d & d' & Hx). apply wpp_ret. cbn [observe].
  pose proof (transacts_raises _ _ _ _ _ Hx) as Hr. pose proof (λ i, fence_error InvocationFailureCode.TOOL_CALL_FAILED x i Hr) as Hf.
  apply HQ.
  - f_equal. destruct x as [[]|e]; [done|]. by destruct e as [| | |[]| | | | | | | | |].
  - destruct (fence_rejected _ x) as [|i]; [done|]. specialize (Hf i eq_refl). by destruct i.
Qed.

Lemma wp_fence_session_step n Q g :
  (∀ r, match r with
        | Err (Raised.Invocation e) => InvocationError.class e = InvocationError.FenceRejected
        | Err (Raised.Group _) => False | _ => True end → Q r g) →
  wp (_fence_session lease n) Q g.
Proof.
  intros HQ. apply wpp_bind, wpp_trigger; [done|]. intros x (env & d & d' & Hx). apply wpp_ret. cbn [observe].
  assert (∀ e, x = Err e → ∃ exn, e = Raised.Database exn ∨ interruption e) as Hr.
  { destruct n; by eapply transacts_raises. }
  pose proof (λ i, fence_error InvocationFailureCode.SESSION_INITIALIZATION_FAILED x i Hr) as Hf.
  apply HQ. destruct (fence_rejected _ x) as [|i]; [done|]. specialize (Hf i eq_refl). by destruct i.
Qed.

Lemma wp_session_body name arguments g :
  untried g → wp (session_body name arguments (_fence_dispatch lease)) (session_post g) g.
Proof.
  intros (Hg & Hr & Hm).
  assert (∀ e g', untouched g g' → calls g' = 0%nat → answered g' = None →
    (∀ i, _find_exception invocation_error e = Some i → early i g') →
    wp (session_failed e) (session_post g) g') as Hfail by done.
  assert (∀ {A} (x : Prelude.result Raised.t A) e, foreign_result x → x = Err e → _find_exception invocation_error e = None) as Hforeign.
  { intros A x e Hx ->. exact Hx. }
  apply wpp_bind, wpp_trigger; [done|]. intros x (env & d & d' & _ & Hx). cbn [observe].
  destruct x as [version|e]; [|apply Hfail; try done; rewrite (Hforeign _ _ e Hx eq_refl); done].
  destruct (negb _).
  { apply Hfail; try done. intros i [= <-]. split; [done|]. split; [done|]. apply list_elem_of_further, list_elem_of_here. }
  apply wpp_bind, wpp_trigger; [done|]. clear Hx. intros x (? & ? & ? & _ & Hx). cbn [observe].
  destruct x as [[]|e]; [|apply Hfail; try done; rewrite (Hforeign _ _ e Hx eq_refl); done].
  apply wpp_bind, wp_fence_dispatch_step. intros r g' -> Hcls. destruct r as [[]|e].
  - apply wpp_bind, wpp_trigger; [done|]. clear Hx. intros x Hx%possible_call. cbn [observe]. apply wpp_ret.
    destruct x as [received|e]; (split; [done|]); cbn; split_and!; by rewrite ?Hg.
  - apply Hfail; try done. intros i Hi. destruct e; try done. injection Hi as <-. unfold early, error_warranted. by rewrite Hcls.
Qed.
(** *** [invoke] *)

(** The variables of [invoke] agree with what happened. *)
Definition consistent (st : invocation_state) (g : Evidence.t) : Prop :=
  (if is_dispatched st then calls g = 1%nat ∧ is_transport st = true else calls g = 0%nat)
  ∧ (is_received st = true → received g = true).

(** The exception of a call that is caught comes from a call without an answer, or
    from what was done with the answer. *)
Definition caught (e : Raised.t) : Prop := is_exception e = true ∨ e = Raised.Cancelled.
Definition accounted (st : invocation_state) (g : Evidence.t) : Prop := is_received st = false → answered g = None.

(** What is known of an exception before it is classified: errors of this module
    that are wrapped come from before the call. *)
Definition unclassified (e : Raised.t) (g : Evidence.t) : Prop :=
  match e with
  | Raised.Invocation i => error_warranted i g
  | _ => ∀ i, _find_exception invocation_error e = Some i → calls g = 0%nat ∧ early i g
  end.

Lemma failure_marks_warranted st m exc g :
  consistent st g → accounted st g → marks g = Some m →
  (∀ i, _find_exception invocation_error exc = Some i → error_warranted i g) →
  ∃ i, failure_marks st m exc = Raised.Invocation i ∧ error_warranted i g.
Proof.
  intros [Hd Hr] Ha Hm Hi. unfold failure_marks.
  assert (completed g = Marks.tool_call_response_completed m) as Hc by (unfold completed; by rewrite Hm). rewrite <- Hc.
  destruct st as [tr d r]. unfold accounted in Ha. cbn [is_transport is_dispatched is_received] in *.
  assert (∀ code, d = true → r = false → tr && completed g = false →
    ∃ i, invocation_failed InvocationError.Indeterminate code true = Raised.Invocation i ∧ error_warranted i g) as Hk.
  { intros code -> Hr0 Hcg. eexists. split; [done|]. destruct Hd as [Hd ->]. cbn [andb] in Hcg. split; [|by left].
    intros [Hx|Hx]; [|congruence]. unfold received in Hx. by rewrite (Ha Hr0) in Hx. }
  assert (∀ code, d = true → definite g → refused code g →
    ∃ i, invocation_failed InvocationError.Plain code true = Raised.Invocation i ∧ error_warranted i g) as Hdef.
  { intros code -> Hdef. eexists. split; [done|]. split; [apply Hd|done]. }
  assert (∀ code, d = false → code ∈ [InvocationFailureCode.PREPARATION_FAILED; InvocationFailureCode.SESSION_INITIALIZATION_FAILED;
          InvocationFailureCode.SENSITIVE_RESULT] →
     ∃ i, invocation_failed InvocationError.Plain code false = Raised.Invocation i ∧ error_warranted i g) as Hun.
  { intros code -> Hcode. eexists. by split. }
  assert (tr && completed g = true → definite g) as Hcomp by (intros [_ Hb]%andb_true_iff; by right).
  destruct (tr && Marks.sensitive_response_detected m) eqn:Hs.
  - assert (refused InvocationFailureCode.SENSITIVE_RESULT g) as Href.
    { left. exists m. split; [done|]. by apply andb_true_iff in Hs as [_ Hs]. }
    destruct d; [|apply Hun; [done|]; set_solver]. destruct r; [by apply Hdef; [|left; apply Hr|]|].
    destruct (tr && completed g) eqn:Hcg; [by apply Hdef; [|apply Hcomp|]|by apply Hk].
  - destruct (_find_exception invocation_error exc) as [i|]; [exists i; split; [done|]; by apply Hi|].
    destruct d; [|apply Hun; [done|]; set_solver]. cbn [andb].
    destruct (tr && completed g) eqn:Hcg; cbn [andb orb].
    + rewrite orb_true_r. destruct (tr && Marks.tool_call_failure_completed m) eqn:Hf.
      * apply Hdef; [done|by apply Hcomp|]. right. exists m. split; [done|]. by apply andb_true_iff in Hf as [_ Hf].
      * destruct (is_some _); by apply Hdef; [|apply Hcomp|].
    + rewrite orb_false_r. destruct r; [by apply Hdef; [|left; apply Hr|]|by apply Hk].
Qed.

Lemma error_warranted_marks i g m : calls g = 0%nat → early i g → error_warranted i (g <| marks := Some m |>).
Proof.
  intros Hg [Hc Hi]. unfold error_warranted in *. destruct (InvocationError.class i); [|done..].
  destruct (InvocationError.dispatched i); [|done]. destruct Hi. congruence.
Qed.

Lemma wp_classify {A} st e g :
  consistent st g → (is_exception e = true → accounted st g) → unclassified e g →
  wp (classify_failure st e : proc (Prelude.result Raised.t A))
     (λ r g', match r with Ok _ => False | Err e => raised_warranted e g' end) g.
Proof.
  intros Hst Hacc He. unfold classify_failure.
  assert ((∀ i, _find_exception invocation_error e = Some i → calls g = 0%nat ∧ early i g) →
    wp (if negb (is_exception e) then mret (Err e)
        else (marks ← trigger ReadMarks; mret (Err (failure_marks st marks e))) : proc (Prelude.result Raised.t A))
       (λ r g', match r with Ok _ => False | Err e => raised_warranted e g' end) g) as Hmain.
  { intros Hi. destruct (is_exception e) eqn:Hx; cbn [negb].
    - apply wpp_bind, wpp_trigger; [done|]. intros m _. apply wpp_ret. cbn [observe].
      edestruct (failure_marks_warranted st m e (g <| marks := Some m |>)) as (i & -> & Hw); [done|by apply Hacc|done| |done].
      intros i Hf. destruct (Hi i Hf). by apply error_warranted_marks.
    - apply wpp_ret. unfold raised_warranted. by destruct e. }
  destruct e; try (by apply Hmain). by apply wpp_ret.
Qed.

Definition invoke_post (g0 : Evidence.t) (o : bool * Prelude.result Raised.t CallToolResult.t) (g : Evidence.t) : Prop :=
  untouched g0 g
  ∧ calls g = (if o.1 then 1 else 0)%nat
  ∧ match o.2 with
    | Ok r => o.1 = true ∧ answered g = Some r
    | Err e => unclassified e g ∧ (caught e → answered g = None)
    end.

Lemma unclassified_foreign e g : foreign e → unclassified e g.
Proof. unfold foreign. intros He. destruct e; cbn [unclassified]; try (intros i Hi; congruence). by cbn in He. Qed.

Lemma unclassified_early e g :
  calls g = 0%nat → (∀ i, _find_exception invocation_error e = Some i → early i g) → unclassified e g.
Proof. intros Hg He. destruct e; cbn [unclassified]; try (intros i Hi; split; [done|by apply He]). by apply He. Qed.

Lemma wp__invoke endpoint name arguments credential g :
  untried g → wp (_invoke endpoint name arguments credential (_fence_dispatch lease)) (invoke_post g) g.
Proof.
  intros Hg. apply wpp_bind, wpp_trigger; [done|]. intros x (? & ? & ? & _ & Hx). cbn [observe].
  destruct x as [[]|e].
  2:{ apply wpp_ret. split; [done|]. split; [apply Hg|]. split; [by apply unclassified_foreign|]. intros _. apply Hg. }
  apply wpp_bind. eapply wpp_mono; [|by apply wp_session_body]. clear Hx. intros o g' (Hu & Ha & Hp & Ho).
  apply wpp_bind, wpp_trigger; [done|]. intros x (? & ? & ? & _ & Hx). cbn [observe]. apply wpp_ret.
  split; [done|]. cbn [fst snd]. set (g2 := g' <| swallowed := _ |>).
  assert (answered g2 = so_received o) as Ha2 by done.
  assert (so_received o = None → x = None → unknown g2) as Hunk.
  { intros Hn ->. specialize (Hp Hn). unfold unknown, definite, received, completed. rewrite Ha2, Hn.
    destruct Hu as (_ & _ & Hm). change (marks g2) with (marks g'). rewrite Hm. destruct Hg as (_ & _ & ->).
    split; [by intros [?|?]|]. right. unfold g2. cbn. by rewrite Hp. }
  destruct (so_dispatched o).
  - destruct Ho as (H1 & H3). split; [done|]. unfold left_with in Hx. rewrite H3 in Hx.
    assert (∀ e, x = Some e → foreign e) as Hf.
    { intros e ->. unfold foreign. destruct (_find_exception invocation_error e) eqn:E; [|done]. by specialize (Hx _ E). }
    destruct x as [e|], (so_received o) as [r|] eqn:Er.
    + specialize (Hf e eq_refl). destruct (is_exception e) eqn:Hex.
      * destruct e; done.
      * destruct e; try done. split; [by apply unclassified_foreign|]. intros [Hc|Hc]; [congruence|done].
    + specialize (Hf e eq_refl). destruct e; (split; [by apply unclassified_foreign|done]).
    + done.
    + split; [|done]. by apply Hunk.
  - destruct Ho as (H1 & H2 & H4). split; [done|]. rewrite H2 in *. destruct x as [e|].
    + assert (∀ i, _find_exception invocation_error e = Some i → early i g2) as Hearly.
      { intros i Hi. destruct (H4 i (Hx i Hi)) as [Hc He]. split; [done|]. unfold error_warranted in *.
        by destruct (InvocationError.class i). }
      destruct e; (split; [by apply unclassified_early|done]).
    + split; [|done]. by apply Hunk.
Qed.

Definition attempt_post (o : invocation_state * Prelude.result Raised.t InvocationResult.t) (g : Evidence.t) : Prop :=
  consistent o.1 g
  ∧ match o.2 with
    | Ok r => calls g = 1%nat ∧ definite g ∧ result_warranted r g
    | Err e => unclassified e g ∧ (caught e → accounted o.1 g)
    end.

Lemma wp_attempt_invocation adapter endpoint name arguments t credential g :
  McpClientAdapter.max_result_bytes adapter = ExecutionLimits.max_result_bytes (ExecutionService.limits service) →
  untried g → target g = Some t → secret g = chars <$> credential →
  wp (attempt_invocation adapter endpoint name arguments (InvocationTarget.output_schema t) credential (_fence_dispatch lease))
     attempt_post g.
Proof.
  intros Hmax Hg Ht Hsec. apply wpp_bind, wpp_trigger; [done|]. intros x (? & ? & ? & _ & Hx). cbn [observe].
  destruct x as [[]|e].
  2:{ apply wpp_ret. split; [by split; [apply Hg|]|]. split; [by apply unclassified_foreign|]. intros _ _. apply Hg. }
  apply wpp_bind. eapply wpp_mono; [|by apply wp__invoke]. intros [dispatched r] g' ((Hs & Hta & _) & Hd & Hp). cbn [fst snd] in *.
  destruct r as [received|e].
  - destruct Hp as [-> Hp]. assert (after_call received g') as Hcall by by split.
    apply wpp_bind, wpp_trigger; [done|]. intros m _. cbn [observe]. set (g1 := g' <| marks := Some m |>).
    assert (after_call received g1) as Hcall1 by done. pose proof (after_call_definite _ _ Hcall1) as Hdef.
    assert (∀ g2, after_call received g2 → consistent (Build_invocation_state true true true) g2) as Hcons.
    { intros g2 [H1 H2]. split; [done|]. intros _. unfold Evidence.received. by rewrite H2. }
    destruct (Marks.sensitive_response_detected m) eqn:Hm.
    + apply wpp_ret. split; [by apply Hcons|]. split; [|done]. split; [apply Hcall1|]. split; [done|]. left. by exists m.
    + apply wpp_bind. eapply wpp_mono; [|apply (wp_normalize _ _ t _ g1 Hmax Hcall1)].
      2:{ by rewrite <- Ht, <- Hta. } 2:{ by exists m. } 2:{ by rewrite <- Hsec, <- Hs. }
      intros r g2 [G1 Hr2]. pose proof (after_call_definite _ _ G1) as Hdef2. apply wpp_ret. split; [by apply Hcons|]. cbn [fst snd].
      assert (∀ i, InvocationError.class i = InvocationError.Plain ∧ InvocationError.dispatched i = true
                   ∧ refused (InvocationError.code i) g2 → error_warranted i g2) as Hi.
      { intros i (Hi1 & Hi2 & Hi3). unfold error_warranted. rewrite Hi1, Hi2. split; [apply G1|done]. }
      destruct r as [r|e]; [by split; [apply G1|]|].
      destruct e; try done; (split; [|done]); by apply Hi.
  - destruct Hp as [Hp Hc]. apply wpp_ret. split; [by destruct dispatched|]. split; [done|]. intros Hcaught _. by apply Hc.
Qed.

Lemma wp_invoke adapter endpoint name arguments t bearer n g :
  McpClientAdapter.max_result_bytes adapter = ExecutionLimits.max_result_bytes (ExecutionService.limits service) →
  untried g → target g = Some t → secret g = bearer →
  wp (invoke adapter endpoint name arguments (InvocationTarget.output_schema t) bearer (_fence_session lease n) (_fence_dispatch lease))
     (λ r g, match r with Ok r => calls g = 1%nat ∧ definite g ∧ result_warranted r g | Err e => raised_warranted e g end) g.
Proof.
  intros Hmax Hg Ht Hsec. unfold invoke.
  destruct (prepare_credential endpoint bearer) as [credential|] eqn:Hp.
  2:{ apply wpp_ret. split; [apply Hg|]. cbn. set_solver. }
  assert (secret g = chars <$> credential) as Hcred.
  { rewrite Hsec. destruct bearer as [token|]; [|by injection Hp as <-]. cbn in Hp. destruct (negb _); [done|]. unfold decode_ascii in Hp.
    destruct (forallb _ _); [|done]. destruct (credential_rejected _); simplify_eq. cbn. by rewrite chars_of_chars. }
  assert (∀ st e g', consistent st g' → (is_exception e = true → accounted st g') → unclassified e g' →
    wp (classify_failure st e)
      (λ r g, match r with Ok r => calls g = 1%nat ∧ definite g ∧ result_warranted r g | Err e => raised_warranted e g end) g') as Hcl.
  { intros st e g' Hst Hacc He. eapply wpp_mono; [|by apply (wp_classify (A:=InvocationResult.t) st)]. by intros [r|e'] g2. }
  apply wpp_bind, wp_fence_session_step. intros r Hcls. destruct r as [[]|e].
  - apply wpp_bind. eapply wpp_mono; [|by apply wp_attempt_invocation]. intros [st r] g' [Hst Hp']. cbn [fst snd] in *.
    destruct r as [r|e]; [by apply wpp_ret|]. destruct Hp' as [Hu Hacc].
    destruct e; try (apply Hcl; [done|intros Hx; apply Hacc; by left|done]).
    apply wpp_bind, wpp_trigger; [done|]. intros expired _. cbn [observe]. destruct expired; [|by apply wpp_ret].
    apply Hcl; [done| |done]. intros _. apply Hacc. by right.
  - apply Hcl; [by split; [apply Hg|]|intros _ _; apply Hg|]. destruct e; try done. cbn. unfold error_warranted. by rewrite Hcls.
Qed.
(** *** [run] *)

Lemma wp_complete_failure lease' status code n g :
  (∀ l, warranted (CompleteTx l status code) g) →
  wp (_complete_failure lease' status code n) (λ _ _, True) g.
Proof.
  intros Hw. apply wpp_bind. unfold _renew_lease.
  assert (∀ l, wp (trigger (CompleteTx l status code))
                 (λ r g', wp (mret match r with Ok s => Ok (Some s) | Err (Raised.Database (ExecutionError _)) => Ok None
                              | Err e => Err e end) (λ _ _, True) g') g) as Hc.
  { intros l. apply wpp_trigger; [apply Hw|]. by intros x _. }
  apply wpp_attempt. destruct n as [n|]; [|apply wpp_ret, Hc].
  apply wpp_trigger; [done|]. intros x _. destruct x as [l|e]; [apply Hc|done].
Qed.

Definition invoked (r : Prelude.result Raised.t InvocationResult.t) (g : Evidence.t) : Prop :=
  match r with
  | Ok r => calls g = 1%nat ∧ definite g ∧ result_warranted r g
  | Err (Raised.Invocation i) => error_warranted i g
  | Err e => is_exception e = false ∨ calls g = 0%nat
  end.

Lemma wp_invoke_target n : wp (invoke_target self lease n) invoked Evidence.none.
Proof.
  apply wpp_attempt, wpp_trigger; [done|]. intros target (env & d & d' & _ & d0 & Ht). cbn [observe].
  destruct target as [target|e].
  2:{ destruct (transacts_raises _ _ _ _ _ Ht e eq_refl) as (exn & [->|[->| ->]]); cbn; auto. }
  set (g0 := Evidence.none <| Evidence.target := Some target |>).
  apply wpp_attempt. unfold adapter_factory. destruct (negb _); [apply wpp_ret; by right|]. cbv zeta.
  destruct (_ && _); [|apply wpp_ret; by right]. apply wpp_ret, wpp_attempt.
  assert (∀ adapter credential g, McpClientAdapter.max_result_bytes adapter = ExecutionLimits.max_result_bytes (ExecutionService.limits service) →
    untried g → Evidence.target g = Some target → secret g = credential →
    wp (invoke adapter (InvocationTarget.endpoint target) (InvocationTarget.tool_name target)
          (InvocationTarget.arguments target) (InvocationTarget.output_schema target) credential
          (_fence_session lease n) (_fence_dispatch lease)) invoked g) as Hinv.
  { intros. eapply wpp_mono; [|by apply wp_invoke]. intros [r|e] g'; [done|]. destruct e; cbn; auto. }
  destruct (InvocationTarget.secret_reference target) as [reference|]; [|by apply wpp_ret, Hinv].
  apply wpp_bind, wpp_trigger; [done|]. intros x (? & ? & ? & _ & Hx). cbn [observe]. apply wpp_ret.
  destruct x as [secret|e]; [by apply Hinv|]. destruct e; cbn; auto. by cbn in Hx.
Qed.

Lemma warranted_error i l g :
  error_warranted i g → InvocationError.class i = InvocationError.Plain →
  warranted (CompleteTx l RunStatus.FAILED (run_failure_code i)) g.
Proof.
  unfold error_warranted. intros Hi Hc. rewrite Hc in Hi. right. split; [done|]. unfold run_failure_code.
  destruct (InvocationError.dispatched i).
  - right. destruct Hi as (H1 & H2 & H3). split; [done|]. split; [done|]. by destruct (InvocationError.code i).
  - destruct Hi as [H1 H2]. left. split; [done|]. destruct (InvocationError.code i); set_solver.
Qed.

Lemma wp_complete_success n r g :
  calls g = 1%nat → definite g → result_warranted r g → wp (complete_success self lease n r) (λ _ _, True) g.
Proof.
  intros H1 H2 (H3 & H4 & H5 & H6). apply wpp_bind.
  assert (∀ l, wp (_complete_failure l RunStatus.FAILED RunFailureCode.INVALID_TOOL_RESULT n) (λ _ _, True) g) as Hf.
  { intros l. apply wp_complete_failure. intros l'. right. split; [done|]. by right. }
  assert (∀ l, wp (completed ← trigger (SuccessTx service l (AcceptedToolResult.mk (InvocationResult.payload r)
      (InvocationResult.canonical_digest r) (InvocationResult.byte_count r)));
      match completed with
      | Err (Raised.Database (ExecutionError ExecutionFailureCode.INVALID_ARGUMENTS)) =>
          _complete_failure l RunStatus.FAILED RunFailureCode.INVALID_TOOL_RESULT n
      | Err (Raised.Database (ExecutionError _)) => mret (Ok None)
      | Err e => mret (Err e)
      | Ok status => mret (Ok (Some status))
      end) (λ _ _, True) g) as Hs.
  { intros l. apply wpp_bind, wpp_trigger; [done|]. intros x _. cbn [observe].
    destruct x as [status|e]; [done|]. destruct e as [| | |[]| | | | | | | | |]; try done; destruct code; try done; apply Hf. }
  unfold _renew_lease. destruct n as [n|]; [|apply wpp_ret, Hs].
  apply wpp_trigger; [done|]. intros x _. cbn [observe]. destruct x as [l|e]; [apply Hs|].
  destruct e as [| | |[]| | | | | | | | |]; try done; destruct code; try done; apply Hf.
Qed.

Lemma wp_run n : wp (run self lease n) (λ _ _, True) Evidence.none.
Proof.
  apply wpp_bind. eapply wpp_mono; [|apply wp_invoke_target]. intros [r|e] g.
  - intros (H1 & H2 & H3). by apply wp_complete_success.
  - intros He.
    assert (calls g = 0%nat → wp (_complete_failure lease RunStatus.FAILED RunFailureCode.PREPARATION_FAILED n) (λ _ _, True) g) as Hprep.
    { intros Hg. apply wp_complete_failure. intros l. right. split; [done|]. left. split; [done|set_solver]. }
    destruct e as [i| | |exn| | | | | | | | |]; cbn [recorded_outcome]; try done;
      try (by destruct He as [?|?]; [done|apply Hprep]).
    + destruct (InvocationError.class i) eqn:Hc; [..|done].
      * apply wp_complete_failure. intros l. by apply warranted_error.
      * apply wp_complete_failure. intros l. left. split; [done|]. split; [done|]. cbn in He. unfold error_warranted in He. by rewrite Hc in He.
    + destruct exn; try done; by destruct He as [?|?]; [done|apply Hprep].
Qed.
End runner.

(** The evidence in a trace. *)
Definition evidence (t : list occurrence) : Evidence.t := summary observe t Evidence.none.

(** C2. What the worker does is warranted by what it has seen.  On every trace of a
    run, whatever the server, the network, the SDK, the database connection and
    other workers do: the tool is called at most once, right after a dispatch fence
    of this lease; success is recorded only when the call returned a result that is no
    error, the recorded payload is that result, the output schema of the loaded target
    is met, the execution service accepts it, no response was found to be sensitive and
    the credential does not occur in it; a failure is recorded only when the tool was not
    called, or when the answer of the server is known and is one its code names; and an
    outcome is recorded as indeterminate only when the answer is not known, the tool
    having been called or its session having swallowed an exception. *)
Theorem outcomes_are_warranted `{Externals} `{Urls} self lease lease_duration t1 e x t2 :
  leaves (run self lease lease_duration) (t1 ++ occurred e x :: t2) →
  warranted self lease e (evidence t1).
Proof. by apply wpp_leaves with (Q := λ _ _, True), wp_run. Qed.
