(* ===== verification/Workers.v ===== *)
(** Any number of invocation workers on one database, with crashes, lost
    connections and every other operation of the services interleaved: the tool of
    a run is called at most once. *)
From S2P Require Import Prelude Programs Types Json Store Session Registry Identity Screening Endpoint Ledger Lease Maintenance Admission.
From S2P Require Import Hoare LedgerInv LedgerStep LedgerWp LeaseWp MaintenanceWp AdmissionWp Frame System Scenario Safety FenceSpec Matcher.
From S2P Require Import Policy Stream Effects Client Runner RunnerSpec.
From stdpp Require Import strings.
Local Open Scope Z_scope.

(** ** Transactions of workers are steps of the services *)

Section transactions.
Context `{Externals}.

(** A continuation that reads only. *)
Definition reads_only {A} (m : M A) : Prop :=
  ∀ env s, match m env s with Ok (_, s') => s' = s | Err _ => True end.

Lemma transaction_reads {A B} (m : M A) (k : A → M B) env d :
  (∀ a, reads_only (k a)) →
  (transaction (m ≫= k) env d).2 = d ∨ (transaction (m ≫= k) env d).2 = (transaction (discard m) env d).2.
Proof.
  intros Hk. unfold transaction, discard, mbind, M_bind. destruct (m env _) as [[a s]|e]; [|by left].
  specialize (Hk a env s). destruct (k a env s) as [[b s']|e]; [|by left]. subst s'. right. cbn.
  by destruct (flush env s) as [[? ?]|].
Qed.

Lemma status_of_reads run : reads_only (status_of run).
Proof.
  intros env s. unfold status_of, mbind, M_bind. destruct (run_of run env s) as [[r s']|] eqn:E; [|done].
  unfold run_of, deref in E. cbn. by repeat case_match; simplify_eq.
Qed.

(** A transaction of a worker leaves the database as it was or takes a step of the
    services. *)
Lemma performs_step e x env d d' : performs e x env d d' → d' = d ∨ ∃ o, d' = step_db o env d.
Proof.
  assert (∀ {A} (m : M A) (x : result Raised.t A) o, transacts m x env d d' →
    (transaction m env d).2 = d ∨ (transaction m env d).2 = step_db o env d → d' = d ∨ ∃ o, d' = step_db o env d) as Hstep.
  { intros A m y o Ht Ho. assert (d' = d ∨ d' = (transaction m env d).2) as [->| ->].
    { destruct Ht as [[_ ->]|(e' & _ & _ & [->| ->])]; auto. }
    - by left.
    - destruct Ho as [->|Ho]; eauto. }
  assert (∀ {A B} (m : M A) (k : A → M B) (x : result Raised.t B) o, transacts (m ≫= k) x env d d' →
    (∀ a, reads_only (k a)) → perform o = discard m → d' = d ∨ ∃ o, d' = step_db o env d) as Hread.
  { intros A B m k y o Ht Hk Ho. eapply Hstep; [exact Ht|]. unfold step_db. rewrite Ho. by apply transaction_reads. }
  destruct e; cbn [performs]; intros Hx; try (by left; apply Hx); try (by left).
  - eapply (Hread _ _ _ _ _ (ClaimJob self worker_id lease_duration)); [exact Hx|done|done].
  - destruct lease_duration as [n|].
    + by eapply (Hread _ _ _ _ _ (BeginSession lease n)); [exact Hx| |].
    + by eapply (Hread _ _ _ _ _ (FenceSession lease)); [exact Hx| |].
  - by eapply (Hread _ _ _ _ _ (FenceDispatch lease)); [exact Hx| |].
  - eapply (Hstep _ _ _ (Heartbeat lease lease_duration)); [exact Hx|]. right. unfold step_db. cbn [perform].
    unfold transaction, discard, mbind, M_bind. destruct (heartbeat lease lease_duration env _) as [[a s]|]; [|done].
    cbn. by destruct (flush env s) as [[? ?]|].
  - eapply (Hread _ _ _ _ _ (CompleteLease lease status (Some code))); [exact Hx|apply status_of_reads|done].
  - eapply (Hread _ _ _ _ _ (CompleteInvocationSuccess self lease result)); [exact Hx|apply status_of_reads|done].
Qed.

Lemma transaction_ok_work {A} (m : M A) env d (P : Db.t → Prop) :
  is_ok (transaction m env d).1 = true →
  wp m (λ _, True) (λ _ s', P (work s')) env (mkSession d d false 0 0) → P (transaction m env d).2.
Proof.
  unfold transaction, wp, mbind, M_bind. destruct (m env _) as [[a s]|]; [|done].
  unfold flush. intros Hok HP. destruct (conflict s); [done|].
  destruct (listeners_accept _ _); cbn in *; [|done]. by destruct (schema_checks _).
Qed.

Definition dispatch_fenced (run : uuid) (d : Db.t) : Prop :=
  ∃ r, ExecutionDb.runs (Db.execution d) !! run = Some r ∧ Run.status r = RunStatus.DISPATCH_FENCED.

(** A dispatch fence that a worker sees granted: the run had no dispatch event and
    has one. *)
Lemma fence_granted lease env d d' :
  reachable d → performs (FenceDispatchTx lease) (Ok ()) env d d' →
  ∃ r r', ExecutionDb.runs (Db.execution d) !! JobLease.run_id lease = Some r
    ∧ ExecutionDb.runs (Db.execution d') !! JobLease.run_id lease = Some r'
    ∧ dispatches (history (JobLease.run_id lease) (Db.execution d)) = 0%nat
    ∧ dispatches (history (JobLease.run_id lease) (Db.execution d')) = 1%nat.
Proof.
  intros Hd Hx. destruct Hx as [[Hx Hd']|(e & Hx & _)]; [|done].
  set (m := fence_dispatch lease ;; mret ()) in *.
  assert (is_ok (transaction m env d).1 = true) as Hok by (by destruct (transaction m env d).1).
  assert (reachable d') as Hr' by (rewrite Hd'; apply (reachable_step d env (FenceDispatch lease) Hd)).
  pose proof (reachable_inv d Hd) as Hinv.
  assert (dispatch_fenced (JobLease.run_id lease) d'
          ∧ ∃ r, ExecutionDb.runs (Db.execution d) !! JobLease.run_id lease = Some r ∧ Run.status r = RunStatus.SESSION_FENCED)
    as [(r' & Hrun' & Hst') (r & Hrun & Hstat)].
  { rewrite Hd'. refine (transaction_ok_work m env d (λ d', dispatch_fenced _ d' ∧ _) Hok _).
    apply wp_bind. eapply wp_conseq.
    { exact (wp__fence_attempt_status (λ _, True) env (λ _ _, I) _ lease RunStatus.SESSION_FENCED RunStatus.DISPATCH_FENCED RunEventType.DISPATCH_FENCED (sess_init d 0 0 Hinv) eq_refl eq_refl step_dispatch). }
    intros a s' [_ Hs']. apply wp_ret. exact Hs'. }
  exists r, r'. split_and!; [done|done| |].
  - destruct (reachable_run d _ r Hd Hrun) as [_ [Hpath _ _]]. destruct (dispatches_path _ _ Hpath) as (_ & Hpre & _).
    apply Hpre. by rewrite Hstat.
  - destruct (reachable_run d' _ r' Hr' Hrun') as [_ [Hpath _ _]]. destruct (dispatches_path _ _ Hpath) as (_ & _ & _ & Hone).
    by apply Hone.
Qed.
End transactions.

(** ** The system *)

Module Worker.
(** A worker in [run]: the lease it was given and what is left of the program. *)
Record t := mk { lease : JobLease.t; program : proc (result Raised.t (option RunStatus.t)) }.
#[global] Instance eta : Eta t := λ r, mk (lease r) (program r).
End Worker.

Module Fleet.
Record t := mk {
  db : Db.t;
  retired : gset uuid;           (* the runs that were deleted *)
  workers : list Worker.t;
  calls : list uuid }.           (* the runs whose tool was called, a run once per call *)
Definition initial : t := mk Db.empty ∅ [] [].
End Fleet.

Section system.
Context `{Externals} `{Urls}.

Definition runs (d : Db.t) : gmap uuid Run.t := ExecutionDb.runs (Db.execution d).

(** Identifiers are never drawn twice: the key of a new run is not that of a
    deleted one. *)
Definition fresh (retired : gset uuid) (d d' : Db.t) : Prop :=
  ∀ run, run ∈ retired → runs d !! run = None → runs d' !! run = None.
Definition retire (retired : gset uuid) (d d' : Db.t) : gset uuid := retired ∪ (dom (runs d) ∖ dom (runs d')).

Definition call_of (lease : JobLease.t) (e : effect) : list uuid :=
  match e with CallTool _ _ => [JobLease.run_id lease] | _ => [] end.

Inductive fleet_step : Fleet.t → Fleet.t → Prop :=
(* an operation of the execution services by anyone *)
| step_operation o env c :
    fresh (Fleet.retired c) (Fleet.db c) (step_db o env (Fleet.db c)) →
    fleet_step c (Fleet.mk (step_db o env (Fleet.db c))
              (retire (Fleet.retired c) (Fleet.db c) (step_db o env (Fleet.db c))) (Fleet.workers c) (Fleet.calls c))
(* a transaction of the identity and registry services *)
| step_other d' c :
    Db.execution d' = Db.execution (Fleet.db c) → schema_checks d' = true →
    fleet_step c (Fleet.mk d' (Fleet.retired c) (Fleet.workers c) (Fleet.calls c))
(* a worker starts on a lease: the one it claimed, or any other *)
| step_launch self lease n c :
    fleet_step c (Fleet.mk (Fleet.db c) (Fleet.retired c) (Worker.mk lease (run self lease n) :: Fleet.workers c)
              (Fleet.calls c))
(* one effect of a worker *)
| step_worker before lease e k x env d' after c :
    Fleet.workers c = before ++ Worker.mk lease (Vis e k) :: after →
    performs e x env (Fleet.db c) d' → fresh (Fleet.retired c) (Fleet.db c) d' →
    fleet_step c (Fleet.mk d' (retire (Fleet.retired c) (Fleet.db c) d') (before ++ Worker.mk lease (k x) :: after)
              (call_of lease e ++ Fleet.calls c))
(* a worker ends or is killed *)
| step_exit before w after c :
    Fleet.workers c = before ++ w :: after →
    fleet_step c (Fleet.mk (Fleet.db c) (Fleet.retired c) (before ++ after) (Fleet.calls c)).

Inductive running : Fleet.t → Prop :=
| running_initial : running Fleet.initial
| running_step c c' : running c → fleet_step c c' → running c'.

(** *** The invariant *)

(** A program calls a tool only right after a dispatch fence it saw granted. *)
Definition armed_next (e : effect) : answer e → bool → bool :=
  match e with
  | FenceDispatchTx _ => λ x _, is_ok x
  | CallTool _ _ => λ _ _, false
  | _ => λ _ armed, armed
  end.
Definition armed_needs (lease : JobLease.t) (e : effect) (armed : bool) : Prop :=
  match e with
  | FenceDispatchTx l => l = lease
  | CallTool _ _ => armed = true
  | _ => True
  end.
Abbreviation disciplined lease armed p := (wpp (armed_needs lease) armed_next p (λ _ _, True) armed).

Lemma run_disciplined self lease n : disciplined lease false (run self lease n).
Proof.
  assert (∀ {A} (p : proc A) g, wpp (warranted self lease) observe p (λ _ _, True) g → disciplined lease (Evidence.fenced g) p) as Hw.
  { intros A p. induction p as [a|e k IH]; intros g; cbn; [done|]. intros [Hn Hk]. split.
    - destruct e; try done. by apply Hn.
    - intros x Hx. specialize (IH x _ (Hk x Hx)). destruct e; try exact IH; cbn in IH |- *; by destruct x. }
  apply (Hw _ _ Evidence.none), wp_run.
Qed.

(** The calls a run may still see or has seen. *)
Definition quota (d : Db.t) (retired : gset uuid) (run : uuid) : nat :=
  match runs d !! run with
  | Some _ => dispatches (history run (Db.execution d))
  | None => if decide (run ∈ retired) then 1 else 0
  end.

Definition count (run : uuid) (l : list uuid) : nat := length (filter (λ r, r = run) l).
(** The workers that hold an unused grant for a run. *)
Definition grants (run : uuid) (ws : list Worker.t) (flags : list bool) : nat :=
  count run (concat (zip_with (λ w (armed : bool), if armed then [JobLease.run_id (Worker.lease w)] else []) ws flags)).

Record invariant (c : Fleet.t) : Prop := {
  inv_reachable : reachable (Fleet.db c);
  inv_retired : ∀ run, run ∈ Fleet.retired c → runs (Fleet.db c) !! run = None;
  inv_workers : ∃ flags,
    Forall2 (λ w armed, disciplined (Worker.lease w) armed (Worker.program w)) (Fleet.workers c) flags
    ∧ ∀ run, (count run (Fleet.calls c) + grants run (Fleet.workers c) flags
              ≤ quota (Fleet.db c) (Fleet.retired c) run)%nat }.

Lemma count_app run l l' : count run (l ++ l') = (count run l + count run l')%nat.
Proof. unfold count. by rewrite filter_app, length_app. Qed.

Lemma grants_app run ws ws' fs fs' :
  length ws = length fs → grants run (ws ++ ws') (fs ++ fs') = (grants run ws fs + grants run ws' fs')%nat.
Proof. intros Hl. unfold grants. by rewrite zip_with_app, concat_app, count_app. Qed.

Lemma grants_cons run w ws (f : bool) fs :
  grants run (w :: ws) (f :: fs)
  = ((if f then count run [JobLease.run_id (Worker.lease w)] else 0) + grants run ws fs)%nat.
Proof. unfold grants. cbn [zip_with concat]. rewrite count_app. by destruct f. Qed.

Lemma quota_step d d' retired run :
  reachable d → (d' = d ∨ ∃ o env, d' = step_db o env d) → (∀ run, run ∈ retired → runs d !! run = None) →
  fresh retired d d' → (quota d retired run ≤ quota d' (retire retired d d') run)%nat.
Proof.
  intros Hd Hstep Hret Hfresh. unfold quota, retire.
  destruct (runs d !! run) as [r|] eqn:Hr.
  - destruct (runs d' !! run) as [r'|] eqn:Hr'.
    + destruct Hstep as [->|(o & env & ->)]; [done|].
      destruct (step_survives o env d run r r' Hr Hr') as [Hp _]. apply history_prefix in Hp as [k ->].
      unfold dispatches. rewrite List.filter_app, length_app. lia.
    + rewrite decide_True; [by eapply reachable_dispatches|].
      apply elem_of_union_r, elem_of_difference. rewrite elem_of_dom, not_elem_of_dom. split; [by eexists|done].
  - destruct (decide (run ∈ retired)) as [Hin|]; [|lia]. rewrite (Hfresh run Hin Hr).
    rewrite decide_True by set_solver. lia.
Qed.

Lemma retired_step d d' retired :
  (∀ run, run ∈ retired → runs d !! run = None) → fresh retired d d' →
  ∀ run, run ∈ retire retired d d' → runs d' !! run = None.
Proof.
  intros Hret Hfresh run. unfold retire. intros [Hin|[_ Hin]%elem_of_difference]%elem_of_union; [|by apply not_elem_of_dom].
  by apply Hfresh; [|apply Hret].
Qed.

Lemma step_or_same_reachable d d' : reachable d → (d' = d ∨ ∃ o env, d' = step_db o env d) → reachable d'.
Proof. intros Hd [->|(o & env & ->)]; [done|by constructor]. Qed.
(** A step of a worker that is not a call. *)
Lemma invariant_db c d' ws' flags' :
  invariant c → (d' = Fleet.db c ∨ ∃ o env, d' = step_db o env (Fleet.db c)) → fresh (Fleet.retired c) (Fleet.db c) d' →
  Forall2 (λ w armed, disciplined (Worker.lease w) armed (Worker.program w)) ws' flags' →
  (∀ run, count run (Fleet.calls c) + grants run ws' flags' ≤ quota d' (retire (Fleet.retired c) (Fleet.db c) d') run)%nat →
  invariant (Fleet.mk d' (retire (Fleet.retired c) (Fleet.db c) d') ws' (Fleet.calls c)).
Proof.
  intros [Hr Hret _] Hd Hf Hw Hq. constructor; cbn.
  - by eapply step_or_same_reachable.
  - by apply retired_step.
  - by exists flags'.
Qed.

Lemma Forall2_middle {A B} (P : A → B → Prop) l1 x l2 k :
  Forall2 P (l1 ++ x :: l2) k → ∃ k1 y k2, k = k1 ++ y :: k2 ∧ Forall2 P l1 k1 ∧ P x y ∧ Forall2 P l2 k2.
Proof.
  intros (k1 & k2 & H1 & H2 & ->)%Forall2_app_inv_l. apply Forall2_cons_inv_l in H2 as (y & k2' & Hy & H2 & ->). eauto 10.
Qed.

Lemma count_singleton run run' : count run [run'] = if decide (run' = run) then 1%nat else 0%nat.
Proof. unfold count. rewrite filter_cons, filter_nil. by destruct (decide _). Qed.

Lemma invariant_worker before lease e k x env d' after c :
  invariant c → Fleet.workers c = before ++ Worker.mk lease (Vis e k) :: after →
  performs e x env (Fleet.db c) d' → fresh (Fleet.retired c) (Fleet.db c) d' →
  invariant (Fleet.mk d' (retire (Fleet.retired c) (Fleet.db c) d') (before ++ Worker.mk lease (k x) :: after)
               (call_of lease e ++ Fleet.calls c)).
Proof.
  intros Hinv Hws Hx Hf. pose proof Hinv as [Hr Hret (flags & Hw & Hq)]. rewrite Hws in Hw, Hq.
  apply Forall2_middle in Hw as (f1 & armed & f2 & -> & H1 & [Hn Hk] & H2). specialize (Hk x). cbn [Worker.lease] in *.
  assert (possible e x) as Hp by (by exists env, (Fleet.db c), d'). specialize (Hk Hp).
  pose proof (performs_step e x env (Fleet.db c) d' Hx) as Hd.
  assert (d' = Fleet.db c ∨ ∃ o env, d' = step_db o env (Fleet.db c)) as Hd' by (destruct Hd as [->|[o ->]]; eauto).
  assert (∀ run, quota (Fleet.db c) (Fleet.retired c) run ≤ quota d' (retire (Fleet.retired c) (Fleet.db c) d') run)%nat as Hmono
    by (intros run; by apply quota_step).
  assert (∀ armed', disciplined lease armed' (k x) →
    Forall2 (λ w armed, disciplined (Worker.lease w) armed (Worker.program w)) (before ++ Worker.mk lease (k x) :: after) (f1 ++ armed' :: f2)) as Hall
    by (intros; by apply Forall2_app; [|constructor]).
  assert (length before = length f1) as Hlen by (by eapply Forall2_length).
  assert (∀ armed', disciplined lease armed' (k x) → call_of lease e = [] →
    (∀ run, (if armed' then count run [JobLease.run_id lease] else 0) ≤ (if armed then count run [JobLease.run_id lease] else 0))%nat →
    invariant (Fleet.mk d' (retire (Fleet.retired c) (Fleet.db c) d') (before ++ Worker.mk lease (k x) :: after)
               (call_of lease e ++ Fleet.calls c))) as Hsame.
  { intros armed' Ha -> Hle. eapply invariant_db; [done..|by apply Hall|]. intros run. specialize (Hq run). specialize (Hmono run).
    specialize (Hle run). rewrite grants_app, grants_cons in Hq |- * by done. cbn [Worker.lease] in *. lia. }
  destruct e as [| | |l| | | | | | | | |name arguments| | | | ]; try (apply (Hsame armed); [exact Hk|done|done]).
  - (* the dispatch fence *)
    cbn in Hn, Hk. subst l. destruct x as [[]|ex]; cbn in Hk; [|by apply (Hsame false); [| |intros run; destruct armed; lia]].
    destruct (fence_granted lease env (Fleet.db c) d' Hr Hx) as (r & r' & Hrun & Hrun' & Hz & Ho).
    eapply invariant_db; [done..|by apply Hall|]. intros run. specialize (Hq run). specialize (Hmono run).
    rewrite grants_app, grants_cons in Hq |- * by done. cbn [Worker.lease] in *. rewrite count_singleton.
    destruct (decide (JobLease.run_id lease = run)) as [<-|]; [|destruct armed; lia].
    unfold quota in Hq |- *. unfold runs in *. rewrite Hrun, Hz in Hq. rewrite Hrun', Ho. destruct armed; lia.
  - (* the call *)
    cbn in Hn, Hk. subst armed. destruct Hx as [-> _]. constructor; cbn [Fleet.db Fleet.retired Fleet.workers Fleet.calls].
    + done.
    + by apply retired_step.
    + exists (f1 ++ false :: f2). split; [by apply Hall|]. intros run. specialize (Hq run). specialize (Hmono run).
      rewrite grants_app, grants_cons in Hq |- * by done. cbn [Worker.lease call_of] in *. rewrite count_app. lia.
Qed.

Lemma running_invariant c : running c → invariant c.
Proof.
  induction 1 as [|c c' _ Hinv Hstep].
  - constructor; cbn; [constructor|set_solver|]. exists []. split; [constructor|]. intros run. cbn. lia.
  - destruct Hstep as [o env c Hf|d' c He Hs|self lease n c|before lease e k x env d' after c Hws Hx Hf|before w after c Hws].
    + pose proof Hinv as [Hr Hret (flags & Hw & Hq)]. eapply invariant_db; [done|by eauto|done|exact Hw|].
      intros run. etrans; [apply Hq|]. apply quota_step; eauto.
    + destruct Hinv as [Hr Hret (flags & Hw & Hq)]. constructor; cbn [Fleet.db Fleet.retired Fleet.workers Fleet.calls].
      * by eapply reachable_other.
      * unfold runs. by rewrite He.
      * exists flags. split; [done|]. intros run. unfold quota, runs. rewrite He. apply Hq.
    + destruct Hinv as [Hr Hret (flags & Hw & Hq)]. constructor; cbn [Fleet.db Fleet.retired Fleet.workers Fleet.calls]; [done..|]. exists (false :: flags).
      split; [constructor; [apply run_disciplined|done]|]. intros run. rewrite grants_cons. apply Hq.
    + by eapply invariant_worker.
    + destruct Hinv as [Hr Hret (flags & Hw & Hq)]. constructor; cbn [Fleet.db Fleet.retired Fleet.workers Fleet.calls]; [done..|]. rewrite Hws in Hw, Hq.
      apply Forall2_middle in Hw as (f1 & y & f2 & -> & H1 & Hy & H2). exists (f1 ++ f2). split; [by apply Forall2_app|].
      intros run. specialize (Hq run). rewrite grants_app in Hq |- * by (by eapply Forall2_length).
      rewrite grants_cons in Hq. lia.
Qed.
End system.

(** C1. At most one call per run, whatever happens: with any number of workers on
    any leases, current, expired or copied, with crashes, connections lost before or
    after a commit, cancellations, restores and deletions in between, the tool of a
    run is called at most once, and a run whose tool was called has its dispatch on
    record for as long as it is kept. *)
Theorem tool_called_at_most_once `{Externals} `{Urls} c run :
  running c →
  (count run (Fleet.calls c) ≤ 1)%nat
  ∧ (run ∈ Fleet.calls c → ∀ r, ExecutionDb.runs (Db.execution (Fleet.db c)) !! run = Some r →
       dispatches (history run (Db.execution (Fleet.db c))) = 1%nat).
Proof.
  intros [Hr _ (flags & _ & Hq)]%running_invariant. specialize (Hq run).
  assert (∀ r, ExecutionDb.runs (Db.execution (Fleet.db c)) !! run = Some r → (dispatches (history run (Db.execution (Fleet.db c))) ≤ 1)%nat) as Hone.
  { intros r Hrun. by eapply reachable_dispatches. }
  unfold quota, runs in Hq. destruct (ExecutionDb.runs (Db.execution (Fleet.db c)) !! run) as [r|] eqn:Hrun.
  - specialize (Hone r eq_refl). split; [lia|]. intros Hin r' _.
    assert (0 < count run (Fleet.calls c))%nat; [|lia]. unfold count.
    assert (run ∈ filter (λ r, r = run) (Fleet.calls c)) as Hf by (by apply list_elem_of_filter).
    destruct (filter _ _); [by apply not_elem_of_nil in Hf|cbn; lia].
  - split; [destruct (decide _); lia|done].
Qed.

(** * A worker on the scenario's run, effect by effect up to the call of its tool. *)

Module WorkersScenario.
#[global] Instance urls : Urls := {
  urlsplit := λ _, None; ip_address := λ _, None; idna_encode := λ s, Some s; inet_aton := λ _, false;
  unquote_strict := λ s, Some s }.
Definition runner : InvocationRunner.t :=
  InvocationRunner.mk Scenario.self (_invocation_transport_limits ExecutionLimits.default).
Definition target : InvocationTarget.t :=
  InvocationTarget.mk "https://tools.example/mcp" "v1" "echo" (Json.Dict []) None None.
End WorkersScenario.
Import WorkersScenario.

(** The steps before the worker starts. *)
Lemma claimed_running : running (Fleet.mk Scenario.claimed ∅ [] []).
Proof.
  assert (∀ o n d, (∀ run, run ∈ (∅ : gset uuid) → runs d !! run = None → runs (step_db o (Scenario.env n) d) !! run = None)) as Hf
    by set_solver.
  assert (running (Fleet.mk Scenario.installed ∅ [] [])) as H1.
  { eapply running_step; [constructor|]. exact (step_other Scenario.installed Fleet.initial eq_refl ltac:(vm_compute; reflexivity)). }
  assert (running (Fleet.mk Scenario.admitted ∅ [] [])) as H2.
  { eapply running_step; [exact H1|].
    pose proof (step_operation Scenario.create (Scenario.env 0) (Fleet.mk Scenario.installed ∅ [] []) (Hf _ _ _)) as Hs.
    cbn [Fleet.db Fleet.retired Fleet.workers Fleet.calls] in Hs. fold Scenario.admitted in Hs.
    replace (retire ∅ Scenario.installed Scenario.admitted) with (∅ : gset uuid) in Hs; [exact Hs|]. vm_compute. reflexivity. }
  eapply running_step; [exact H2|].
  pose proof (step_operation Scenario.claim (Scenario.env 1) (Fleet.mk Scenario.admitted ∅ [] []) (Hf _ _ _)) as Hs.
  cbn [Fleet.db Fleet.retired Fleet.workers Fleet.calls] in Hs. fold Scenario.claimed in Hs.
  replace (retire ∅ Scenario.admitted Scenario.claimed) with (∅ : gset uuid) in Hs; [exact Hs|]. vm_compute. reflexivity.
Qed.

Definition alone (d : Db.t) (p : proc (result Raised.t (option RunStatus.t))) (calls : list uuid) : Fleet.t :=
  Fleet.mk d ∅ [Worker.mk Scenario.lease p] calls.

Lemma alone_step d e k x env d' calls :
  running (alone d (Vis e k) calls) → performs e x env d d' → retire ∅ d d' = ∅ →
  running (alone d' (k x) (call_of Scenario.lease e ++ calls)).
Proof.
  intros Hc Hx Hr. eapply running_step; [exact Hc|].
  pose proof (step_worker [] Scenario.lease e k x env d' [] (alone d (Vis e k) calls) eq_refl Hx) as Hs.
  cbn [alone Fleet.db Fleet.retired Fleet.workers Fleet.calls app] in Hs. rewrite Hr in Hs. apply Hs. set_solver.
Qed.

(** The effects of the run up to the call, and the database after each. *)
Lemma load_possible : performs (LoadTarget Scenario.lease) (Ok target) (Scenario.env 2) Scenario.claimed Scenario.claimed.
Proof. split; [done|]. exists Scenario.claimed. left. split; vm_compute; reflexivity. Qed.
Lemma session_possible :
  performs (FenceSessionTx Scenario.lease None) (Ok ()) (Scenario.env 2) Scenario.claimed Scenario.prepared.
Proof. left. split; vm_compute; reflexivity. Qed.
Lemma dispatch_possible :
  performs (FenceDispatchTx Scenario.lease) (Ok ()) (Scenario.env 3) Scenario.prepared Scenario.dispatched.
Proof. left. split; vm_compute; reflexivity. Qed.

Lemma called_running : ∃ p, running (alone Scenario.dispatched p [Scenario.run]).
Proof.
  assert (running (alone Scenario.claimed (run runner Scenario.lease None) [])) as H.
  { eapply running_step; [exact claimed_running|]. exact (step_launch runner Scenario.lease None (Fleet.mk Scenario.claimed ∅ [] [])). }
  assert (∀ d, retire ∅ d d = ∅) as Hsame by (intros d; unfold retire; set_solver).
  eapply (alone_step _ (LoadTarget Scenario.lease) _ (Ok target)) in H; [|exact load_possible|apply Hsame].
  eapply (alone_step _ (FenceSessionTx Scenario.lease None) _ (Ok ())) in H; [|exact session_possible|vm_compute; reflexivity].
  eapply (alone_step _ (ValidateEndpoint _) _ (Ok ()) (Scenario.env 2) Scenario.prepared) in H; [|by split|apply Hsame].
  eapply (alone_step _ (OpenSession _ _ _) _ (Ok ()) (Scenario.env 2) Scenario.prepared) in H; [|by split|apply Hsame].
  eapply (alone_step _ Initialize _ (Ok QUALIFIED_PROTOCOL_REVISION) (Scenario.env 2) Scenario.prepared) in H; [|by split|apply Hsame].
  eapply (alone_step _ Initialized _ (Ok ()) (Scenario.env 2) Scenario.prepared) in H; [|by split|apply Hsame].
  eapply (alone_step _ (FenceDispatchTx Scenario.lease) _ (Ok ())) in H; [|exact dispatch_possible|vm_compute; reflexivity].
  eapply (alone_step _ (CallTool _ _) _ (Ok (CallToolResult.mk false [] None)) (Scenario.env 3) Scenario.dispatched) in H;
    [|by split|apply Hsame].
  eexists. exact H.
Qed.

Lemma tool_called_at_most_once_witness :
  ∃ c, running c ∧ Scenario.run ∈ Fleet.calls c ∧ (count Scenario.run (Fleet.calls c) ≤ 1)%nat
    ∧ dispatches (history Scenario.run (Db.execution (Fleet.db c))) = 1%nat.
Proof.
  destruct called_running as [p Hc]. exists (alone Scenario.dispatched p [Scenario.run]).
  destruct (tool_called_at_most_once _ Scenario.run Hc) as [H1 H2].
  split_and!; [exact Hc|by left|exact H1|].
  scenario_run Scenario.dispatched r Hr. exact (H2 ltac:(by left) r Hr).
Defined.

Definition before_call : list occurrence :=
  [occurred (LoadTarget Scenario.lease) (Ok target);
   occurred (FenceSessionTx Scenario.lease None) (Ok ());
   occurred (ValidateEndpoint "https://tools.example/mcp") (Ok ());
   occurred (OpenSession "https://tools.example/mcp" None []) (Ok ());
   occurred Initialize (Ok QUALIFIED_PROTOCOL_REVISION);
   occurred Initialized (Ok ());
   occurred (FenceDispatchTx Scenario.lease) (Ok ())].
Definition result : CallToolResult.t := CallToolResult.mk false [Some "hello"%string] None.
Definition payload : Json.t :=
  result_payload [Json.Dict [(Json.KStr "type", Json.Str "text"); (Json.KStr "text", Json.Str "hello")]] None.
Definition accepted : AcceptedToolResult.t :=
  AcceptedToolResult.mk payload (sha256_hex "") (match json_dumps payload with Some s => slen s | None => 0 end).

(** The rest of the run, up to the record of its result. *)
Definition after_call : list occurrence :=
  [occurred (CallTool "echo" (Json.Dict [])) (Ok result);
   occurred (CloseSession None) None;
   occurred ReadMarks (Marks.mk false true false)].

Ltac leaves_effect tac := right; eexists _, _; split; [reflexivity|]; split; [tac|].

Lemma outcomes_are_warranted_witness :
  warranted runner Scenario.lease (SuccessTx Scenario.self Scenario.lease accepted) (evidence (before_call ++ after_call)).
Proof.
  apply (outcomes_are_warranted runner Scenario.lease None (before_call ++ after_call)
           (SuccessTx Scenario.self Scenario.lease accepted) (Err Raised.Cancelled) []).
  assert (∀ e (x : answer e), performs e x (Scenario.env 2) Db.empty Db.empty → possible e x) as Hp by (intros; by eexists _, _, _).
  leaves_effect ltac:(by eexists _, _, _; apply load_possible).
  leaves_effect ltac:(by eexists _, _, _; apply session_possible).
  leaves_effect ltac:(by apply Hp).
  leaves_effect ltac:(by apply Hp).
  leaves_effect ltac:(by apply Hp).
  leaves_effect ltac:(by apply Hp).
  leaves_effect ltac:(by eexists _, _, _; apply dispatch_possible).
  leaves_effect ltac:(by apply Hp).
  leaves_effect ltac:(by apply Hp).
  leaves_effect ltac:(by apply Hp).
  assert (∀ x, x = Err Raised.Cancelled → possible (SuccessTx Scenario.self Scenario.lease accepted) x) as Hs.
  { intros x ->. exists (Scenario.env 4), Scenario.dispatched, Scenario.dispatched. right. exists Raised.Cancelled. split_and!; [done|by left|by left]. }
  leaves_effect ltac:(by apply Hs). reflexivity.
Defined.
