(* ===== verification/Listing.v ===== *)
(** Discovery over MCP: the pagination and normalization of
    [McpClientAdapter._discover] and the schema support check of
    mcp_adapter/client.py. *)
From S2P Require Import Prelude Types Json PyStr Secrets Store Session Registry Screening Endpoint Capabilities Discovery Ledger.
From S2P Require Import Lease Admission Matcher Policy Stream Effects Client.
From stdpp Require Import strings.
From Stdlib Require Import Ascii.
Local Open Scope Z_scope.

(** What the check calls: [Draft202012Validator.check_schema], [re2.compile] and the
    [contents] of the resolver of a schema; [None] is [Unresolvable]. *)
Class Validators := {
  check_schema : Json.t → bool;
  re2_compile : string → bool;
  lookup_reference : Json.t → string → option Json.t }.

(** ** [_schema_is_supported] *)

(** A work list entry: value, depth, is it a schema, and which root it is below (the
    input schema is 0). *)
Module Entry.
Record t := mk { value : Json.t; depth : Z; schema_position : bool; root : nat }.
End Entry.

(** How a visit goes on: with new entries, references found and clock readings made. *)
Inductive visit_outcome (A : Type) : Type :=
| Continue (a : A) (ticks : nat)
| Unsupported
| Crashed      (* a [TypeError] *)
| NoFuel.
Arguments Continue {A} a ticks.
Arguments Unsupported {A}.
Arguments Crashed {A}.
Arguments NoFuel {A}.

Definition outcome_bind {A B} (m : visit_outcome A) (f : A → nat → visit_outcome B) : visit_outcome B :=
  match m with Continue a n => f a n | Unsupported => Unsupported | Crashed => Crashed | NoFuel => NoFuel end.

Definition reference_keys : list string := ["$ref"; "$dynamicRef"; "$recursiveRef"]%string.
Definition named_keys : list string :=
  ["$defs"; "definitions"; "properties"; "patternProperties"; "dependentSchemas"]%string.
Definition list_keys : list string := ["allOf"; "anyOf"; "oneOf"; "prefixItems"]%string.
Definition schema_keys : list string :=
  ["additionalProperties"; "contains"; "contentSchema"; "else"; "if"; "items"; "not"; "propertyNames"; "then";
   "unevaluatedItems"; "unevaluatedProperties"]%string.
Definition draft_2020_12 : string := "https://json-schema.org/draft/2020-12/schema".
Definition member (key : string) (keys : list string) : bool := bool_decide (key ∈ keys).
Definition is_string (v : Json.t) : bool := match v with Json.Str _ => true | _ => false end.
Definition string_test (f : string → bool) (v : Json.t) : bool := match v with Json.Str s => f s | _ => false end.

Section support.
Context `{Validators}.
(** Has the deadline passed at the [n]-th reading of the clock? *)
Context (expired : nat → bool).

Definition before_deadline {A} (ticks : nat) (k : nat → visit_outcome A) : visit_outcome A :=
  if expired ticks then Unsupported else k (S ticks).

(** The pattern keys of [patternProperties]. *)
Fixpoint patterns_supported (members : list (Json.key * Json.t)) : visit_outcome () :=
  match members with
  | [] => Continue () 0
  | (Json.KOther, _) :: _ => Crashed
  | (Json.KStr pattern, _) :: members =>
      if 512 <? slen pattern then Unsupported
      else if negb (re2_compile pattern) then Unsupported
      else patterns_supported members
  end.

(** The entries a member pushes. *)
Definition member_entries (e : Entry.t) (key : string) (child : Json.t) : list Entry.t :=
  let depth := Entry.depth e in
  let push n position v := Entry.mk v (depth + n) position (Entry.root e) in
  let position := Entry.schema_position e in
  match position && member key named_keys, child with
  | true, Json.Dict items => push 2 true <$> items.*2
  | _, _ =>
      match position && member key list_keys, child with
      | true, Json.List items => push 1 true <$> items
      | _, _ => [push 1 (position && member key schema_keys) child]
      end
  end.

(** One round of the loop over the members of an object. *)
Definition visit_member (e : Entry.t) (m : Json.key * Json.t) (ticks : nat)
    : visit_outcome (list Entry.t * list (nat * Json.t)) :=
  before_deadline ticks (λ ticks,
    match m with
    | (Json.KOther, _) => Unsupported
    | (Json.KStr key, child) =>
        let position := Entry.schema_position e in
        let is_pattern := position && eqv key "pattern"%string in
        let is_reference := position && member key reference_keys in
        if 8192 <? slen key then Unsupported
        else if is_pattern && negb (string_test (λ s, slen s <=? 512) child) then Unsupported
        else if is_pattern && string_test (λ s, negb (re2_compile s)) child then Unsupported
        else
          outcome_bind
            (match position && eqv key "patternProperties"%string, child with
             | true, Json.Dict members => patterns_supported members
             | _, _ => Continue () 0
             end) (λ _ _,
          if position && eqv key "$id"%string then Unsupported
          else if position && eqv key "$schema"%string && negb (eqv child (Json.Str draft_2020_12)) then Unsupported
          else if is_reference && negb (string_test (λ s, startswith s "#") child) then Unsupported
          else Continue (member_entries e key child,
                         if is_reference then [(Entry.root e, child)] else []) ticks)
    end).

Fixpoint visit_members (e : Entry.t) (members : list (Json.key * Json.t)) (ticks : nat)
    : visit_outcome (list Entry.t * list (nat * Json.t)) :=
  match members with
  | [] => Continue ([], []) ticks
  | m :: members =>
      outcome_bind (visit_member e m ticks) (λ a ticks,
      outcome_bind (visit_members e members ticks) (λ b ticks,
      Continue (a.1 ++ b.1, a.2 ++ b.2) ticks))
  end.

(** One round of the [while stack] loop; [nodes] counts this one. *)
Definition visit_entry (e : Entry.t) (nodes : Z) (ticks : nat) : visit_outcome (list Entry.t * list (nat * Json.t)) :=
  before_deadline ticks (λ ticks,
    if (32 <? Entry.depth e) || (4096 <? nodes) then Unsupported else
    match Entry.value e with
    | Json.Dict members =>
        if 1024 <? len members then Unsupported else visit_members e members ticks
    | Json.List items =>
        if 1024 <? len items then Unsupported
        else Continue ((λ v, Entry.mk v (Entry.depth e + 1) false (Entry.root e)) <$> items, []) ticks
    | Json.Str s => if 8192 <? slen s then Unsupported else Continue ([], []) ticks
    | Json.Other => Unsupported
    | _ => Continue ([], []) ticks
    end).

(** The loop; the head of the list is the top of the stack. *)
Fixpoint support_loop (fuel : nat) (stack : list Entry.t) (nodes : Z) (references : list (nat * Json.t)) (ticks : nat)
    : visit_outcome (list (nat * Json.t)) :=
  match stack with
  | [] => Continue references ticks
  | e :: stack =>
      match fuel with
      | O => NoFuel
      | S fuel =>
          outcome_bind (visit_entry e (nodes + 1) ticks) (λ found ticks,
            support_loop fuel (rev_append found.1 stack) (nodes + 1) (references ++ found.2) ticks)
      end
  end.
Definition support_fuel : nat := 4097.

(** The loop over the references of one schema. *)
Fixpoint references_resolve (index : nat) (schema : Json.t) (references : list (nat * Json.t)) (ticks : nat)
    : visit_outcome () :=
  match references with
  | [] => Continue () ticks
  | (root, reference) :: references =>
      before_deadline ticks (λ ticks,
        if (root =? index)%nat then
          match reference with
          | Json.Str s =>
              match lookup_reference schema s with
              | Some contents => if is_dict_or_bool contents then references_resolve index schema references ticks
                                 else Unsupported
              | None => Unsupported
              end
          | _ => Crashed
          end
        else references_resolve index schema references ticks)
  end.

(** [_schema_is_supported] *)
Definition _schema_is_supported (input_schema : Json.t) (output_schema : option Json.t) : visit_outcome () :=
  let stack := match output_schema with Some o => [Entry.mk o 1 true 1] | None => [] end ++ [Entry.mk input_schema 1 true 0] in
  outcome_bind (support_loop support_fuel stack 0 [] 0) (λ references ticks,
  before_deadline ticks (λ ticks,
    if negb (check_schema input_schema) then Unsupported
    else if match output_schema with Some o => negb (check_schema o) | None => false end then Unsupported
    else outcome_bind (references_resolve 0 input_schema references ticks) (λ _ ticks,
         match output_schema with
         | None => Continue () ticks
         | Some o => references_resolve 1 o references ticks
         end))).
End support.

(** * The schema support check ends within its fuel, and every place of a supported
    schema is one the check may let pass. *)

Section spec.
Context `{Validators}.
Implicit Types (e : Entry.t) (members : list (Json.key * Json.t)) (references : list (nat * Json.t)).

(** ** The places of a schema *)

(** [below e e']: the value of [e'] is a member of that of [e]; where [e] is a schema,
    so is [e'] if the keyword says so, and a table of named schemas is stepped over. *)
Inductive below (e e' : Entry.t) : Prop :=
| below_member members key child :
    Entry.value e = Json.Dict members → (Json.KStr key, child) ∈ members → e' ∈ member_entries e key child → below e e'
| below_item items v :
    Entry.value e = Json.List items → v ∈ items → e' = Entry.mk v (Entry.depth e + 1) false (Entry.root e) → below e e'.

Definition small_pattern (pattern : string) : Prop := slen pattern ≤ 512 ∧ re2_compile pattern = true.

(** The keywords of a schema that the check restricts. *)
Record keyword_ok (key : string) (child : Json.t) : Prop := {
  kw_pattern : key = "pattern"%string → ∃ s, child = Json.Str s ∧ small_pattern s;
  kw_patterns : ∀ members, key = "patternProperties"%string → child = Json.Dict members →
    ∀ k v, (k, v) ∈ members → ∃ s, k = Json.KStr s ∧ small_pattern s;
  kw_id : key ≠ "$id"%string;
  kw_schema : key = "$schema"%string → child = Json.Str draft_2020_12;
  kw_reference : key ∈ reference_keys → ∃ s, child = Json.Str s ∧ startswith s "#" = true }.

Definition place_ok e : Prop :=
  Entry.depth e ≤ 32
  ∧ match Entry.value e with
    | Json.Dict members =>
        len members ≤ 1024
        ∧ ∀ k child, (k, child) ∈ members →
            ∃ key, k = Json.KStr key ∧ slen key ≤ 8192 ∧ (Entry.schema_position e = true → keyword_ok key child)
    | Json.List items => len items ≤ 1024
    | Json.Str s => slen s ≤ 8192
    | Json.Other => False
    | _ => True
    end.

(** The references at a place. *)
Definition refers e (reference : Json.t) : Prop :=
  Entry.schema_position e = true
  ∧ ∃ members key, Entry.value e = Json.Dict members ∧ (Json.KStr key, reference) ∈ members ∧ key ∈ reference_keys.

Definition resolves (schema reference : Json.t) : Prop :=
  ∃ s contents, reference = Json.Str s ∧ lookup_reference schema s = Some contents ∧ is_dict_or_bool contents = true.

(** ** One visit *)

Lemma outcome_bind_ok {A B} (m : visit_outcome A) (f : A → nat → visit_outcome B) b n :
  outcome_bind m f = Continue b n → ∃ a k, m = Continue a k ∧ f a k = Continue b n.
Proof. destruct m; naive_solver. Qed.

Section visit.
Context (expired : nat → bool).

Lemma before_deadline_ok {A} ticks (k : nat → visit_outcome A) a n :
  before_deadline expired ticks k = Continue a n → k (S ticks) = Continue a n.
Proof. unfold before_deadline. by destruct (expired ticks). Qed.

Lemma patterns_supported_ok members n :
  patterns_supported members = Continue () n → ∀ k v, (k, v) ∈ members → ∃ s, k = Json.KStr s ∧ small_pattern s.
Proof.
  induction members as [|[[s|] v] members IH]; cbn; [by intros _ k v ?%elem_of_nil| |done].
  destruct (512 <? slen s) eqn:Hl; [done|]. destruct (re2_compile s) eqn:Hc; [|done]. cbn.
  intros Hr k v' [[= -> ->]|Hin]%elem_of_cons; [|by eapply IH]. exists s. split; [done|]. split; [by apply Z.ltb_ge|done].
Qed.

Lemma visit_member_ok e k child ticks found n :
  visit_member expired e (k, child) ticks = Continue found n →
  ∃ key, k = Json.KStr key ∧ slen key ≤ 8192 ∧ (Entry.schema_position e = true → keyword_ok key child)
    ∧ found.1 = member_entries e key child
    ∧ (Entry.schema_position e = true → key ∈ reference_keys → (Entry.root e, child) ∈ found.2).
Proof.
  intros Hv%before_deadline_ok. destruct k as [key|]; [|done]. exists key. split; [done|].
  destruct (8192 <? slen key) eqn:Hlen; [done|]. apply Z.ltb_ge in Hlen. split; [done|].
  cbv zeta in Hv. destruct (Entry.schema_position e) eqn:Hpos; cbn [andb] in Hv.
  2: { injection Hv as <- <-. done. }
  destruct (eqv key "pattern"%string && negb (string_test (λ s, slen s <=? 512) child)) eqn:P1; [done|].
  destruct (eqv key "pattern"%string && string_test (λ s, negb (re2_compile s)) child) eqn:P2; [done|].
  apply outcome_bind_ok in Hv as ([] & m & Hp & Hv).
  destruct (eqv key "$id"%string) eqn:Hid; [done|]. destruct (eqv key "$schema"%string && negb (eqv child _)) eqn:Hs; [done|].
  destruct (member key reference_keys && negb (string_test (λ s, startswith s "#") child)) eqn:Hr; [done|].
  injection Hv as <- <-. cbn [fst snd]. split; [intros _|split; [done|]].
  - split.
    + intros ->. cbn in P1, P2. destruct child; try done. exists s. apply negb_false_iff, Z.leb_le in P1.
      by apply negb_false_iff in P2.
    + intros members -> ->. by eapply patterns_supported_ok.
    + intros ->. done.
    + intros ->. cbn in Hs. by apply negb_false_iff, eqv_eq in Hs.
    + intros Hk. unfold member in Hr. rewrite (bool_decide_eq_true_2 _ Hk) in Hr. destruct child; try done. exists s. split; [done|].
      by apply negb_false_iff in Hr.
  - intros _ Hk. unfold member. rewrite (bool_decide_eq_true_2 _ Hk). by apply list_elem_of_singleton.
Qed.

Lemma visit_members_ok e members ticks found n :
  visit_members expired e members ticks = Continue found n →
  ∀ k child, (k, child) ∈ members →
    ∃ key, k = Json.KStr key ∧ slen key ≤ 8192 ∧ (Entry.schema_position e = true → keyword_ok key child)
      ∧ (∀ e', e' ∈ member_entries e key child → e' ∈ found.1)
      ∧ (Entry.schema_position e = true → key ∈ reference_keys → (Entry.root e, child) ∈ found.2).
Proof.
  revert ticks found n. induction members as [|[k0 child0] members IH]; intros ticks found n; cbn [visit_members];
    [by intros _ k child ?%elem_of_nil|].
  intros (a & m1 & Ha & (b & m2 & Hb & [= <- <-])%outcome_bind_ok)%outcome_bind_ok k child. cbn [fst snd].
  intros [[= -> ->]|Hin]%elem_of_cons.
  - apply visit_member_ok in Ha as (key & -> & ? & ? & -> & Hr). exists key. split_and!; [done..| |].
    + intros e' ?. by apply elem_of_app; left.
    + intros ??. apply elem_of_app. left. by apply Hr.
  - destruct (IH _ _ _ Hb k child Hin) as (key & ? & ? & ? & He & Hr). exists key. split_and!; [done..| |].
    + intros e' ?. apply elem_of_app. right. by apply He.
    + intros ??. apply elem_of_app. right. by apply Hr.
Qed.

(** A visit accepts the place, finds everything below it and every reference at it. *)
Lemma visit_entry_ok e nodes ticks found n :
  visit_entry expired e nodes ticks = Continue found n →
  nodes ≤ 4096 ∧ place_ok e ∧ (∀ e', below e e' → e' ∈ found.1) ∧ (∀ r, refers e r → (Entry.root e, r) ∈ found.2).
Proof.
  intros Hv%before_deadline_ok. destruct (_ || _) eqn:Hb in Hv; [done|].
  apply orb_false_iff in Hb as [Hd%Z.ltb_ge Hn%Z.ltb_ge]. split; [done|]. unfold place_ok.
  destruct (Entry.value e) as [| | | |str|items|members|] eqn:Hval; try done.
  all: try (injection Hv as <- <-; split; [done|]; split; [intros e' [? ? ? E|? ? E]; congruence|
    intros r (_ & ? & ? & E & _); congruence]).
  - destruct (8192 <? slen str) eqn:Hl; [done|]. apply Z.ltb_ge in Hl. injection Hv as <- <-.
    split; [done|]. split; [intros e' [? ? ? E|? ? E]; congruence|intros r (_ & ? & ? & E & _); congruence].
  - destruct (1024 <? len items) eqn:Hl; [done|]. apply Z.ltb_ge in Hl. injection Hv as <- <-. split; [done|].
    split; [|intros r (_ & ? & ? & E & _); congruence]. intros e' [? ? ? E|items' v E Hin ->]; [congruence|].
    rewrite Hval in E. injection E as <-. cbn [fst]. apply list_elem_of_fmap. by exists v.
  - destruct (1024 <? len members) eqn:Hl; [done|]. apply Z.ltb_ge in Hl. pose proof (visit_members_ok _ _ _ _ _ Hv) as Hm.
    split; [split; [done|]; split; [done|]; intros k child Hin; destruct (Hm k child Hin) as (key & ? & ? & ? & _); by exists key|].
    split.
    + intros e' [members' key child E Hin He|? ? E]; [|congruence]. rewrite Hval in E. injection E as <-.
      destruct (Hm _ _ Hin) as (key' & [= <-] & _ & _ & Hall & _). by apply Hall.
    + intros r (Hpos & members' & key & E & Hin & Hk). rewrite Hval in E. injection E as <-.
      destruct (Hm _ _ Hin) as (key' & [= <-] & _ & _ & _ & Hr). by apply Hr.
Qed.

(** *** Visits need no fuel *)

Definition answers {A} (m : visit_outcome A) : Prop := m ≠ NoFuel.

Lemma before_deadline_answers {A} ticks (k : nat → visit_outcome A) :
  answers (k (S ticks)) → answers (before_deadline expired ticks k).
Proof. unfold before_deadline. by destruct (expired ticks). Qed.

Lemma outcome_bind_answers {A B} (m : visit_outcome A) (f : A → nat → visit_outcome B) :
  answers m → (∀ a n, m = Continue a n → answers (f a n)) → answers (outcome_bind m f).
Proof. intros Hm Hf. destruct m; try done. by apply Hf. Qed.

Lemma patterns_supported_answers members : answers (patterns_supported members).
Proof. induction members as [|[[s|] v] members IH]; cbn; repeat case_match; done. Qed.

Lemma visit_members_answers e members ticks : answers (visit_members expired e members ticks).
Proof.
  revert ticks. induction members as [|[k child] members IH]; intros ticks; cbn [visit_members]; [done|].
  apply outcome_bind_answers; [|intros; by apply outcome_bind_answers]. apply before_deadline_answers. destruct k as [key|]; [|done].
  cbv zeta. repeat case_match; try done.
  all: apply outcome_bind_answers; [try apply patterns_supported_answers; done|intros; repeat case_match; done].
Qed.

Lemma visit_entry_answers e nodes ticks : answers (visit_entry expired e nodes ticks).
Proof. apply before_deadline_answers. repeat case_match; try done. apply visit_members_answers. Qed.

(** ** The loop *)

Lemma support_loop_answers fuel stack nodes references ticks :
  0 < Z.of_nat fuel → Z.of_nat fuel + nodes = 4097 → answers (support_loop expired fuel stack nodes references ticks).
Proof.
  revert stack nodes references ticks. induction fuel as [|fuel IH]; intros [|e stack] nodes references ticks Hf Hn; try done.
  cbn [support_loop]. apply outcome_bind_answers; [apply visit_entry_answers|]. intros found n (Hle & _)%visit_entry_ok.
  apply IH; lia.
Qed.

Definition accepted references e : Prop := place_ok e ∧ ∀ r, refers e r → (Entry.root e, r) ∈ references.

Lemma support_loop_ok fuel stack nodes references ticks references' n :
  support_loop expired fuel stack nodes references ticks = Continue references' n →
  references ⊆ references' ∧ ∀ e0 e, e0 ∈ stack → rtc below e0 e → accepted references' e.
Proof.
  revert stack nodes references ticks. induction fuel as [|fuel IH]; intros [|e stack] nodes references ticks; cbn [support_loop];
    try done; [intros [= <- <-]; split; [done|by intros e0 e ?%elem_of_nil]..|].
  intros (found & m & (_ & Hok & Hbelow & Hrefs)%visit_entry_ok & [Hsub Hall]%IH)%outcome_bind_ok. split; [set_solver|].
  rewrite rev_append_rev in Hall. intros e0 e' [->|Hin]%elem_of_cons Hreach; [|apply (Hall e0); [set_solver|done]].
  destruct Hreach as [e|e e1 e' Hstep Hreach].
  - split; [done|]. intros r Hr. apply Hsub, elem_of_app. right. by apply Hrefs.
  - apply (Hall e1); [|done]. apply elem_of_app. left. apply list_elem_of_In, in_rev. rewrite rev_involutive.
    by apply list_elem_of_In, Hbelow.
Qed.

Lemma references_resolve_ok index schema references ticks n :
  references_resolve expired index schema references ticks = Continue () n →
  ∀ r, (index, r) ∈ references → resolves schema r.
Proof.
  revert ticks. induction references as [|[root r0] references IH]; intros ticks; [by intros _ r ?%elem_of_nil|].
  cbn [references_resolve]. intros Hr%before_deadline_ok r. destruct (root =? index)%nat eqn:E.
  - destruct r0 as [| | | |s| | |]; try done. destruct (lookup_reference schema s) as [contents|] eqn:Hl; [|done].
    destruct (is_dict_or_bool contents) eqn:Hd; [|done]. intros [[= _ ->]|Hin]%elem_of_cons; [by exists s, contents|by eapply IH].
  - intros [[= <- ->]|Hin]%elem_of_cons; [by rewrite Nat.eqb_refl in E|by eapply IH].
Qed.

Lemma references_resolve_answers index schema references ticks : answers (references_resolve expired index schema references ticks).
Proof.
  revert ticks. induction references as [|[root r0] references IH]; intros ticks; [done|]. cbn [references_resolve].
  apply before_deadline_answers. repeat case_match; done.
Qed.
End visit.

Lemma below_root e e' : rtc below e e' → Entry.root e' = Entry.root e.
Proof.
  induction 1 as [|e e1 e' Hstep _ IH]; [done|]. rewrite IH. destruct Hstep as [members key child _ _ Hin|items v _ _ ->]; [|done].
  unfold member_entries in Hin. repeat case_match;
    try (apply list_elem_of_fmap in Hin as (v & -> & _); done); apply list_elem_of_singleton in Hin as ->; done.
Qed.

(** C36. The schema support check ends, and what it lets pass is safe to validate
    against.  Whenever the deadline strikes: the check gives an answer; and if it calls
    the schemas supported, then both were accepted by the metaschema, and every place
    that can be reached in them is within the depth, length and width limits, no schema
    among them has an [$id] or names another dialect, each of its patterns compiles and
    is short, and each of its references is local and resolves to a schema. *)
Theorem supported_schemas_are_safe expired input_schema output_schema :
  answers (_schema_is_supported expired input_schema output_schema)
  ∧ ∀ ticks, _schema_is_supported expired input_schema output_schema = Continue () ticks →
      ∀ index schema, (index, schema) ∈ (0%nat, input_schema) :: (pair 1%nat <$> option_list output_schema) →
        check_schema schema = true
        ∧ ∀ e, rtc below (Entry.mk schema 1 true index) e →
            place_ok e ∧ ∀ r, refers e r → resolves schema r.
Proof.
  unfold _schema_is_supported. cbv zeta. split.
  - apply outcome_bind_answers; [by apply support_loop_answers|]. intros references n _. apply before_deadline_answers.
    destruct (negb (check_schema input_schema)); [done|].
    destruct (match output_schema with Some o => negb (check_schema o) | None => false end); [done|].
    apply outcome_bind_answers; [apply references_resolve_answers|]. intros _ m _.
    destruct output_schema; [apply references_resolve_answers|done].
  - intros ticks (references & n & [_ Hall]%support_loop_ok & Hr%before_deadline_ok)%outcome_bind_ok index schema Hin.
    destruct (check_schema input_schema) eqn:Hc; [|done]. cbn [negb] in Hr.
    destruct (match output_schema with Some o => negb (check_schema o) | None => false end) eqn:Ho; [done|].
    apply outcome_bind_ok in Hr as ([] & m & Hr0 & Hr1).
    pose proof (references_resolve_ok _ _ _ _ _ _ Hr0) as Hinput.
    assert (check_schema schema = true ∧ (∀ r, (index, r) ∈ references → resolves schema r)
      ∧ Entry.mk schema 1 true index ∈ match output_schema with Some o => [Entry.mk o 1 true 1] | None => [] end
          ++ [Entry.mk input_schema 1 true 0]) as (H1 & H2 & H3).
    { apply elem_of_cons in Hin as [[= -> ->]|Hin].
      - split_and!; [done|done|]. apply elem_of_app. right. by apply list_elem_of_singleton.
      - destruct output_schema as [o|]; [|by apply elem_of_nil in Hin]. apply list_elem_of_singleton in Hin as [= -> ->].
        pose proof (references_resolve_ok _ _ _ _ _ _ Hr1). split_and!; [by apply negb_false_iff|done|]. apply elem_of_app. left.
        by apply list_elem_of_singleton. }
    split; [exact H1|]. intros e He. destruct (Hall _ _ H3 He) as [Hok Hrefs]. split; [done|].
    intros r Hrf%Hrefs. apply H2. by rewrite (below_root _ _ He) in Hrf.
Qed.
End spec.
