(* ===== verification/Permits.v ===== *)
(** The permits of the scanner processes of registry/official.py: a counting
    semaphore shared by the event loops of a process, with a queue of waiters, hand
    over to the first live waiter, and cancellation at every suspension.

    A step is one critical section of the module's lock, or what an event loop does
    to a suspended coroutine between two of them. *)
From S2P Require Import Prelude.
Local Open Scope Z_scope.

Definition _SCANNER_PROCESS_LIMIT : Z := 4.

(** Where the coroutine that called [_acquire_scanner_process_permit] stands. *)
Inductive phase :=
| Waiting     (* suspended in [await waiter.future] *)
| Releasing   (* its handler, or [_run_scanner], is about to release *)
| Holding     (* [permit_acquired] *)
| Done.
#[global] Instance phase_eq_dec : EqDecision phase.
Proof. solve_decision. Defined.

(** [_ScannerProcessWaiter], with the phase of its coroutine. *)
Module Waiter.
Record t := mk { loop : nat; granted : bool; cancelled : bool; at_ : phase }.
#[global] Instance eta : Eta t := λ r, mk (loop r) (granted r) (cancelled r) (at_ r).
End Waiter.

(** The globals of the module, the waiters that were created, and the closed loops. *)
Module Permits.
Record t := mk {
  available : Z;                  (* _SCANNER_PROCESS_AVAILABLE *)
  waiters : list nat;             (* _SCANNER_PROCESS_WAITERS *)
  created : gmap nat Waiter.t;
  closed : gset nat }.
#[global] Instance eta : Eta t := λ r, mk (available r) (waiters r) (created r) (closed r).
Definition initial : t := mk _SCANNER_PROCESS_LIMIT [] ∅ ∅.
End Permits.

Section permits.
Implicit Types (s : Permits.t) (t l : nat).

Definition set_waiter t (f : Waiter.t → Waiter.t) s : Permits.t :=
  s <| Permits.created := alter f t (Permits.created s) |>.
Definition enter (p : phase) t s : Permits.t := set_waiter t (λ w, w <| Waiter.at_ := p |>) s.

(** The critical section of [_acquire_scanner_process_permit]. *)
Definition acquire t l s : Permits.t :=
  if 0 <? Permits.available s
  then s <| Permits.available := Permits.available s - 1 |>
         <| Permits.created := <[t := Waiter.mk l false false Holding]> (Permits.created s) |>
  else s <| Permits.waiters := Permits.waiters s ++ [t] |>
         <| Permits.created := <[t := Waiter.mk l false false Waiting]> (Permits.created s) |>.

(** The handler of [await waiter.future]. *)
Definition interrupt t s : Permits.t :=
  match Permits.created s !! t with
  | Some w =>
      if Waiter.granted w then enter Releasing t s
      else enter Done t (set_waiter t (λ w, w <| Waiter.cancelled := true |>) s)
  | None => s
  end.

(** The loop of [_release_scanner_process_permit]: the waiters that are left, and
    whether one was granted the permit.  [call_soon_threadsafe] raises when the loop
    of the waiter is closed. *)
Fixpoint grant_next (closed : gset nat) (waiters : list nat) (created : gmap nat Waiter.t)
    : list nat * gmap nat Waiter.t * bool :=
  match waiters with
  | [] => ([], created, false)
  | t :: waiters =>
      match created !! t with
      | None => grant_next closed waiters created
      | Some w =>
          if Waiter.cancelled w then grant_next closed waiters created
          else
            let created := <[t := w <| Waiter.granted := true |>]> created in
            if decide (Waiter.loop w ∈ closed)
            then grant_next closed waiters (alter (λ w, w <| Waiter.cancelled := true |>) t created)
            else (waiters, created, true)
      end
  end.

(** [_release_scanner_process_permit]; [None] is the [RuntimeError]. *)
Definition _release_scanner_process_permit s : option Permits.t :=
  let '(waiters, created, granted) := grant_next (Permits.closed s) (Permits.waiters s) (Permits.created s) in
  let s := s <| Permits.waiters := waiters |> <| Permits.created := created |> in
  if granted then Some s
  else if _SCANNER_PROCESS_LIMIT <=? Permits.available s then None
  else Some (s <| Permits.available := Permits.available s + 1 |>).

Definition stands t (p : phase) s : Prop := ∃ w, Permits.created s !! t = Some w ∧ Waiter.at_ w = p.

Inductive step : Permits.t → Permits.t → Prop :=
| step_acquire t l s :
    Permits.created s !! t = None → l ∉ Permits.closed s → step s (acquire t l s)
(* the callback set the future's result and the loop resumes the coroutine *)
| step_resume t w s :
    Permits.created s !! t = Some w → Waiter.at_ w = Waiting → Waiter.granted w = true →
    Waiter.loop w ∉ Permits.closed s → step s (enter Holding t s)
(* cancellation, or the end of a coroutine that is never resumed *)
| step_interrupt t s : stands t Waiting s → step s (interrupt t s)
(* the [finally] of [_run_scanner] *)
| step_finally t s : stands t Holding s → step s (enter Releasing t s)
| step_release t s s' :
    stands t Releasing s → _release_scanner_process_permit s = Some s' → step s (enter Done t s').

(** Reachable states, where loops are closed as [may_close] allows. *)
Inductive reachable (may_close : Permits.t → nat → Prop) : Permits.t → Prop :=
| reachable_initial : reachable may_close Permits.initial
| reachable_step s s' : reachable may_close s → step s s' → reachable may_close s'
| reachable_close s l :
    reachable may_close s → may_close s l →
    reachable may_close (s <| Permits.closed := {[l]} ∪ Permits.closed s |>).

(** How [asyncio.run] closes its loop: its tasks are cancelled and have ended. *)
Definition orderly s l : Prop :=
  ∀ t w, Permits.created s !! t = Some w → Waiter.at_ w = Waiting → Waiter.loop w ≠ l.

(** The coroutines that have a permit: granted ones too. *)
Definition has_permit (w : Waiter.t) : bool :=
  match Waiter.at_ w with Holding | Releasing => true | Waiting => Waiter.granted w | Done => false end.
Definition holders (created : gmap nat Waiter.t) : Z :=
  Z.of_nat (size (filter (λ kw, has_permit kw.2 = true) created)).
End permits.

(** * The semaphore of the scanner processes: permits are conserved, no waiter is
    forgotten, and what goes wrong when a loop is closed under its waiters. *)

Implicit Types (s : Permits.t) (t l : nat) (w : Waiter.t) (created : gmap nat Waiter.t).

(** ** Counting *)

Definition b2z (b : bool) : Z := if b then 1 else 0.

Lemma holders_fresh created t w :
  created !! t = None → holders (<[t := w]> created) = holders created + b2z (has_permit w).
Proof.
  intros Ht. unfold holders. rewrite map_filter_insert. destruct (decide _) as [Hw|Hw]; cbn in Hw.
  - rewrite Hw, map_size_insert_None; [cbn; lia|]. apply map_lookup_filter_None. auto.
  - destruct (has_permit w); [done|]. rewrite delete_id by done. cbn. lia.
Qed.

Lemma holders_insert created t w :
  holders (<[t := w]> created)
  = holders created + b2z (has_permit w) - b2z (from_option has_permit false (created !! t)).
Proof.
  destruct (created !! t) as [v|] eqn:Ht; [|rewrite holders_fresh by done; cbn; lia].
  rewrite <- (insert_delete_eq created t w), holders_fresh by apply lookup_delete_eq. cbn.
  assert (holders created = holders (delete t created) + b2z (has_permit v)) as ->; [|lia].
  rewrite <- (holders_fresh _ t) by apply lookup_delete_eq. by rewrite insert_delete_id.
Qed.

Lemma alter_known {A} (f : A → A) (m : gmap nat A) t a : m !! t = Some a → alter f t m = <[t := f a]> m.
Proof.
  intros Hw. apply map_eq. intros i. rewrite lookup_alter, lookup_insert.
  destruct (decide (t = i)) as [<-|]; [by rewrite Hw|done].
Qed.

Lemma holders_alter created t f w :
  created !! t = Some w → holders (alter f t created) = holders created + b2z (has_permit (f w)) - b2z (has_permit w).
Proof.
  intros Ht. rewrite (alter_known f created t w) by done. rewrite holders_insert, Ht. cbn. lia.
Qed.

(** ** The invariant *)

Record inv s : Prop := {
  inv_available : 0 ≤ Permits.available s;
  inv_count : Permits.available s + holders (Permits.created s) = _SCANNER_PROCESS_LIMIT;
  inv_nodup : NoDup (Permits.waiters s);
  inv_queue : ∀ t, t ∈ Permits.waiters s → ∃ w, Permits.created s !! t = Some w ∧ Waiter.granted w = false
    ∧ (Waiter.cancelled w = false → Waiter.at_ w = Waiting);
  inv_waiting : ∀ t w, Permits.created s !! t = Some w → Waiter.at_ w = Waiting →
    Waiter.cancelled w = false ∧ Waiter.loop w ∉ Permits.closed s
    ∧ (Waiter.granted w = false → t ∈ Permits.waiters s);
  inv_idle : 0 < Permits.available s → ∀ t w, Permits.created s !! t = Some w → t ∈ Permits.waiters s →
    Waiter.cancelled w = true }.

Lemma grant_next_spec closed waiters created :
  (∀ t, t ∈ waiters → ∃ w, created !! t = Some w ∧ (Waiter.cancelled w = false → Waiter.loop w ∉ closed)) →
  match grant_next closed waiters created with
  | (waiters', created', true) => ∃ before t w, waiters = before ++ t :: waiters' ∧ created !! t = Some w
      ∧ Waiter.cancelled w = false ∧ created' = <[t := w <| Waiter.granted := true |>]> created
      ∧ ∀ t' w', t' ∈ before → created !! t' = Some w' → Waiter.cancelled w' = true
  | (waiters', created', false) => waiters' = [] ∧ created' = created
      ∧ ∀ t' w', t' ∈ waiters → created !! t' = Some w' → Waiter.cancelled w' = true
  end.
Proof.
  induction waiters as [|t waiters IH]; intros Hq; cbn; [split_and!; try done; by intros ? ? ?%elem_of_nil|].
  destruct (Hq t) as (w & Hw & Hl); [by left|]. rewrite Hw. destruct (Waiter.cancelled w) eqn:Hc.
  - specialize (IH (λ t' Ht', Hq t' (list_elem_of_further _ _ _ Ht'))).
    destruct (grant_next closed waiters created) as [[ws' cr'] [|]].
    + destruct IH as (before & t0 & w0 & -> & H1 & H2 & H3 & H4). exists (t :: before), t0, w0. split_and!; try done.
      intros t' w' [->|Ht']%elem_of_cons Hw'; [congruence|eauto].
    + destruct IH as (-> & -> & H). split_and!; try done. intros t' w' [->|Ht']%elem_of_cons Hw'; [congruence|eauto].
  - rewrite decide_False by auto. exists [], t, w. split_and!; try done. by intros ? ? ?%elem_of_nil.
Qed.

(** A waiter that changes as an insertion. *)
Lemma enter_insert p t w s :
  Permits.created s !! t = Some w →
  enter p t s = s <| Permits.created := <[t := w <| Waiter.at_ := p |>]> (Permits.created s) |>.
Proof. intros Hw. unfold enter, set_waiter. by rewrite (alter_known _ _ t w). Qed.

Lemma lookup_insert_cases {A} (m : gmap nat A) i j x y :
  <[i := x]> m !! j = Some y → i = j ∧ x = y ∨ i ≠ j ∧ m !! j = Some y.
Proof. rewrite lookup_insert_Some. naive_solver. Qed.

(** A coroutine that is no longer, or not yet, in the queue may move on. *)
Lemma inv_move p t w s :
  inv s → Permits.created s !! t = Some w → (Waiter.granted w = true ∨ Waiter.at_ w ≠ Waiting) → p ≠ Waiting →
  has_permit (w <| Waiter.at_ := p |>) = has_permit w → inv (enter p t s).
Proof.
  intros [H1 H2 H3 H4 H5 H6] Hw Ht Hp Hh. rewrite (enter_insert p t w s Hw). constructor; cbn.
  - done.
  - rewrite holders_insert, Hw. cbn [from_option]. rewrite Hh. lia.
  - done.
  - intros t' Ht'. destruct (H4 t' Ht') as (w' & Hw' & Hg & Hc). destruct (decide (t = t')) as [->|Hne].
    + rewrite Hw in Hw'. injection Hw' as <-. rewrite lookup_insert_eq. eexists. split_and!; [done|done|]. cbn.
      intros Hc'. destruct Ht as [Ht|Ht]; [congruence|]. by destruct Ht; apply Hc.
    + rewrite lookup_insert_ne by done. eauto.
  - intros t' w' [[_ <-]|[Hne Hw']]%lookup_insert_cases; cbn; [done|eauto].
  - intros Ha t' w' [(<- & <-)|[Hne Hw']]%lookup_insert_cases Hin; cbn; eauto.
Qed.

Lemma inv_acquire t l s :
  inv s → Permits.created s !! t = None → l ∉ Permits.closed s → inv (acquire t l s).
Proof.
  intros [H1 H2 H3 H4 H5 H6] Hn Hl. unfold acquire.
  assert (t ∉ Permits.waiters s) as Ht.
  { intros Hin. destruct (H4 t Hin) as (w & Hw & _). congruence. }
  destruct (0 <? Permits.available s) eqn:Ha.
  - apply Z.ltb_lt in Ha. constructor; cbn; [lia|rewrite holders_fresh by done; cbn; lia|done|..].
    + intros t' Ht'. rewrite lookup_insert_ne by congruence. auto.
    + intros t' w' [[_ <-]|[Hne Hw']]%lookup_insert_cases; cbn; [done|eauto].
    + intros _ t' w' [(<- & _)|[Hne Hw']]%lookup_insert_cases Hin; [done|eauto].
  - apply Z.ltb_ge in Ha. constructor; cbn; [lia|rewrite holders_fresh by done; cbn; lia|..].
    + apply NoDup_app. split_and!; [done| |apply NoDup_singleton]. intros x Hx ->%list_elem_of_singleton. done.
    + intros t' [Ht'| ->%list_elem_of_singleton]%elem_of_app.
      * rewrite lookup_insert_ne by congruence. auto.
      * rewrite lookup_insert_eq. by eexists.
    + intros t' w' [(<- & <-)|[Hne Hw']]%lookup_insert_cases; cbn.
      * intros _. split_and!; [done|done|]. intros _. apply elem_of_app. right. by apply list_elem_of_singleton.
      * intros Hat. destruct (H5 t' w' Hw' Hat) as (Hc & Hlo & Hin). split_and!; [done|done|]. intros Hg.
        apply elem_of_app. auto.
    + lia.
Qed.

Lemma inv_interrupt t s : inv s → stands t Waiting s → inv (interrupt t s).
Proof.
  intros Hs (w & Hw & Hat). unfold interrupt. rewrite Hw. destruct (Waiter.granted w) eqn:Hg.
  - apply (inv_move Releasing t w s Hs Hw (or_introl Hg)); [done|]. unfold has_permit. cbn. by rewrite Hat, Hg.
  - destruct Hs as [H1 H2 H3 H4 H5 H6]. rewrite (enter_insert Done t (w <| Waiter.cancelled := true |>)).
    2: { unfold set_waiter. cbn. by rewrite (alter_known _ _ t _ Hw), lookup_insert_eq. }
    unfold set_waiter. cbn. rewrite (alter_known _ _ t _ Hw), insert_insert_eq. constructor; cbn; [done|..].
    + rewrite holders_insert, Hw. unfold has_permit at 1 2. cbn. rewrite Hat, Hg. cbn. lia.
    + done.
    + intros t' Ht'. destruct (decide (t = t')) as [<-|Hne].
      * rewrite lookup_insert_eq. eexists. by split_and!.
      * rewrite lookup_insert_ne by done. auto.
    + intros t' w' [[_ <-]|[Hne Hw']]%lookup_insert_cases; cbn; [done|eauto].
    + intros Ha t' w' [(<- & <-)|[Hne Hw']]%lookup_insert_cases Hin; cbn; eauto.
Qed.

(** The permit of [t] goes to the first live waiter, or back. *)
Lemma inv_release t s s' : inv s → stands t Releasing s → _release_scanner_process_permit s = Some s' → inv (enter Done t s').
Proof.
  intros [H1 H2 H3 H4 H5 H6] (w & Hw & Hat) Hr. unfold _release_scanner_process_permit in Hr.
  pose proof (grant_next_spec (Permits.closed s) (Permits.waiters s) (Permits.created s)) as Hg.
  destruct (grant_next _ _ _) as [[ws cr] granted].
  assert (∀ t', t' ∈ Permits.waiters s → ∃ w', Permits.created s !! t' = Some w'
    ∧ (Waiter.cancelled w' = false → Waiter.loop w' ∉ Permits.closed s)) as Hq.
  { intros t' Ht'. destruct (H4 t' Ht') as (w' & Hw' & _ & Hc). exists w'. split; [done|]. intros Hc'.
    by apply (H5 t' w' Hw' (Hc Hc')). }
  specialize (Hg Hq). assert (has_permit w = true) as Hp by (unfold has_permit; by rewrite Hat). destruct granted.
  - injection Hr as <-. destruct Hg as (before & t0 & w0 & Hws & Hw0 & Hc0 & -> & Hbef). rewrite Hws in *.
    destruct (H4 t0) as (w0' & Hw0' & Hg0 & Hat0); [apply elem_of_app; right; by left|].
    rewrite Hw0 in Hw0'. injection Hw0' as <-. specialize (Hat0 Hc0).
    assert (t0 ≠ t) as Hne by congruence.
    assert (NoDup (t0 :: ws) ∧ ∀ x, x ∈ before → x ∉ t0 :: ws) as [Hnd Hdis].
    { apply NoDup_app in H3 as (_ & Hd & Hn). auto. }
    apply NoDup_cons in Hnd as [Hn0 Hnd].
    rewrite (enter_insert Done t w); [|cbn; by rewrite lookup_insert_ne]. constructor; cbn; [done|..].
    + rewrite holders_insert, lookup_insert_ne by done. rewrite holders_insert, Hw, Hw0. cbn [from_option]. rewrite Hp.
      assert (has_permit w0 = false ∧ has_permit (w0 <| Waiter.granted := true |>) = true) as [-> ->]
        by (unfold has_permit; cbn; by rewrite Hat0).
      assert (has_permit (w <| Waiter.at_ := Done |>) = false) as -> by done. cbn. lia.
    + done.
    + intros t' Ht'. assert (t' ≠ t0) by congruence. destruct (H4 t') as (w' & Hw' & Hg' & Hc'); [set_solver|].
      destruct (decide (t = t')) as [<-|].
      * rewrite lookup_insert_eq. rewrite Hw in Hw'. injection Hw' as <-. eexists. split_and!; [done|done|]. cbn. intros Hc.
        specialize (Hc' Hc). congruence.
      * rewrite !lookup_insert_ne by done. eauto.
    + intros t' w' [(_ & <-)|[Hne' [(<- & <-)|[Hne'' Hw']]%lookup_insert_cases]]%lookup_insert_cases; cbn; [done|..].
      * intros _. destruct (H5 t0 w0 Hw0 Hat0) as (_ & Hl & _). by split_and!.
      * intros Hat'. destruct (H5 t' w' Hw' Hat') as (Hc' & Hl & Hin). split_and!; [done..|]. intros Hg'. specialize (Hin Hg').
        apply elem_of_app in Hin as [Hin|[->|Hin]%elem_of_cons]; [|done|done]. exfalso.
        by rewrite (Hbef t' w' Hin Hw') in Hc'.
    + intros Ha t' w' Hl' Hin. exfalso. assert (Waiter.cancelled w0 = true); [|congruence].
      apply (H6 Ha t0 w0 Hw0), elem_of_app. right. by left.
  - destruct Hg as (-> & -> & Hall). cbn in Hr.
    destruct (_SCANNER_PROCESS_LIMIT <=? Permits.available s) eqn:Hlim; [done|].
    injection Hr as <-. apply Z.leb_gt in Hlim. rewrite (enter_insert Done t w); [|exact Hw]. constructor; cbn; [lia|..].
    + rewrite holders_insert, Hw. cbn [from_option]. rewrite Hp.
      assert (has_permit (w <| Waiter.at_ := Done |>) = false) as -> by done. cbn. lia.
    + constructor.
    + by intros ? ?%elem_of_nil.
    + intros t' w' [(_ & <-)|[Hne Hw']]%lookup_insert_cases; cbn; [done|]. intros Hat'.
      destruct (H5 t' w' Hw' Hat') as (Hc' & Hl & Hin). split_and!; [done..|]. intros Hg'. specialize (Hin Hg').
      by rewrite (Hall t' w' Hin Hw') in Hc'.
    + by intros _ ? ? _ ?%elem_of_nil.
Qed.

Lemma inv_close l s : inv s → orderly s l → inv (s <| Permits.closed := {[l]} ∪ Permits.closed s |>).
Proof.
  intros [H1 H2 H3 H4 H5 H6] Ho. constructor; cbn; try done. intros t w Hw Hat.
  destruct (H5 t w Hw Hat) as (Hc & Hl & Hin). split_and!; [done| |done].
  intros [Heq%elem_of_singleton|?]%elem_of_union; [|done]. by apply (Ho t w Hw Hat).
Qed.

Lemma inv_initial : inv Permits.initial.
Proof.
  constructor; cbn; try (by intros *; rewrite lookup_empty); try done.
  - constructor.
  - by intros ? ?%elem_of_nil.
Qed.

Lemma permits_inv s : reachable orderly s → inv s.
Proof.
  induction 1 as [|s s' _ IH Hstep|s l _ IH Ho]; [apply inv_initial| |by apply inv_close].
  destruct Hstep as [t l s Hn Hl|t w s Hw Hat Hg Hl|t s Ht|t s (w & Hw & Hat)|t s s' Ht Hr].
  - by apply inv_acquire.
  - apply (inv_move Holding t w s IH Hw); [by left|done|]. unfold has_permit. cbn. by rewrite Hat, Hg.
  - by apply inv_interrupt.
  - apply (inv_move Releasing t w s IH Hw); [right; by rewrite Hat|done|]. unfold has_permit. cbn. by rewrite Hat.
  - by eapply inv_release.
Qed.

(** The scans that run now. *)
Definition scanning s : Z :=
  Z.of_nat (size (filter (λ kw, eqv (Waiter.at_ kw.2) Holding = true) (Permits.created s))).

Lemma scanning_holders s : scanning s ≤ holders (Permits.created s).
Proof.
  unfold scanning, holders. apply inj_le, map_subseteq_size, map_filter_subseteq_ext. intros t w _ Hw%eqv_eq.
  unfold has_permit. by rewrite Hw.
Qed.

Lemma releasing_held t s : inv s → stands t Releasing s → Permits.available s < _SCANNER_PROCESS_LIMIT.
Proof.
  intros Hs (w & Hw & Hat). pose proof (inv_count _ Hs) as Hc.
  pose proof (holders_insert (Permits.created s) t (w <| Waiter.at_ := Done |>)) as Hh. rewrite Hw in Hh. cbn [from_option] in Hh.
  assert (has_permit w = true) as Hp by (unfold has_permit; by rewrite Hat). rewrite Hp in Hh.
  assert (has_permit (w <| Waiter.at_ := Done |>) = false) as Hd by done. rewrite Hd in Hh. cbn [b2z] in Hh.
  assert (0 ≤ holders (<[t:=w <| Waiter.at_ := Done |>]> (Permits.created s))) by (unfold holders; lia). lia.
Qed.

Lemma release_total t s : inv s → stands t Releasing s → ∃ s', _release_scanner_process_permit s = Some s'.
Proof.
  intros Hs Ht. pose proof (releasing_held t s Hs Ht). unfold _release_scanner_process_permit.
  destruct (grant_next _ _ _) as [[ws cr] [|]]; [by eexists|]. cbn. rewrite (proj2 (Z.leb_gt _ _)) by done. by eexists.
Qed.

Lemma grant_next_first closed created before t after w :
  (∀ t', t' ∈ before → ∃ w', created !! t' = Some w' ∧ Waiter.cancelled w' = true) →
  created !! t = Some w → Waiter.cancelled w = false → Waiter.loop w ∉ closed →
  grant_next closed (before ++ t :: after) created = (after, <[t := w <| Waiter.granted := true |>]> created, true).
Proof.
  intros Hb Hw Hc Hl. induction before as [|t' before IH]; cbn.
  - rewrite Hw, Hc. by rewrite decide_False.
  - destruct (Hb t') as (w' & -> & ->); [by left|]. apply IH. intros t'' Ht. apply Hb. by right.
Qed.

(** C26. The permits of the scanner processes are conserved.  Whatever the order in
    which coroutines of any number of event loops acquire, are cancelled, are resumed
    and release, provided that a loop is closed only when none of its coroutines waits for
    a permit, as [asyncio.run] closes it (without that condition the statement is false:
    [closed_loop_releases_twice] below): the free permits and those in use or on their way
    to a waiter are four, so at most four scanners run; no release raises; a free permit means that nobody waits for one;
    and a permit that is released goes to the waiter that has waited longest. *)
Theorem permits_conserved s :
  reachable orderly s →
  0 ≤ Permits.available s ∧ Permits.available s + holders (Permits.created s) = _SCANNER_PROCESS_LIMIT
  ∧ scanning s ≤ _SCANNER_PROCESS_LIMIT
  ∧ (0 < Permits.available s → ∀ t w, Permits.created s !! t = Some w → Waiter.at_ w = Waiting → Waiter.granted w = true)
  ∧ ∀ t, stands t Releasing s → ∃ s', _release_scanner_process_permit s = Some s'
      ∧ ∀ before t' after w, Permits.waiters s = before ++ t' :: after → Permits.created s !! t' = Some w →
          Waiter.at_ w = Waiting → (∀ t'', t'' ∈ before → ¬ stands t'' Waiting s) →
          Permits.waiters s' = after ∧ Permits.created s' !! t' = Some (w <| Waiter.granted := true |>).
Proof.
  intros Hs%permits_inv. pose proof Hs as [H1 H2 _ H4 H5 H6]. pose proof (scanning_holders s).
  split_and!; [done|done|lia| |].
  - intros Ha t w Hw Hat. destruct (H5 t w Hw Hat) as (Hc & _ & Hin). destruct (Waiter.granted w) eqn:Hg; [done|].
    by rewrite (H6 Ha t w Hw (Hin eq_refl)) in Hc.
  - intros t Ht. destruct (release_total t s Hs Ht) as [s' Hr]. exists s'. split; [done|].
    intros before t' after w Hq Hw Hat Hb. destruct (H5 t' w Hw Hat) as (Hc & Hl & _).
    unfold _release_scanner_process_permit in Hr. rewrite Hq, (grant_next_first _ _ before t' after w) in Hr; [|try done..].
    + injection Hr as <-. cbn. by rewrite lookup_insert_eq.
    + intros t'' Ht''. destruct (H4 t'') as (w'' & Hw'' & _ & Hc''); [rewrite Hq; apply elem_of_app; by left|].
      exists w''. split; [done|]. destruct (Waiter.cancelled w''); [done|]. destruct (Hb t'' Ht''). exists w''. auto.
Qed.

(** ** Runs *)

(** What happens next, and the state after it. *)
Inductive event := Acquire (t l : nat) | Resume (t : nat) | Interrupt (t : nat) | Finally (t : nat) | Release (t : nat) | Close (l : nat).

Definition phase_is t (p : phase) s : bool :=
  match Permits.created s !! t with Some w => eqv (Waiter.at_ w) p | None => false end.

Definition next (e : event) s : option Permits.t :=
  match e with
  | Acquire t l =>
      if is_none (Permits.created s !! t) && negb (bool_decide (l ∈ Permits.closed s)) then Some (acquire t l s) else None
  | Resume t =>
      match Permits.created s !! t with
      | Some w => if eqv (Waiter.at_ w) Waiting && Waiter.granted w && negb (bool_decide (Waiter.loop w ∈ Permits.closed s))
                  then Some (enter Holding t s) else None
      | None => None
      end
  | Interrupt t => if phase_is t Waiting s then Some (interrupt t s) else None
  | Finally t => if phase_is t Holding s then Some (enter Releasing t s) else None
  | Release t => if phase_is t Releasing s then enter Done t <$> _release_scanner_process_permit s else None
  | Close l => Some (s <| Permits.closed := {[l]} ∪ Permits.closed s |>)
  end.
Definition after (events : list event) : option Permits.t := foldl (λ o e, o ≫= next e) (Some Permits.initial) events.

Lemma phase_is_stands t p s : phase_is t p s = true → stands t p s.
Proof. unfold phase_is, stands. destruct (_ !! t) as [w|]; [|done]. intros Hw%eqv_eq. eauto. Qed.

Lemma next_step e s s' :
  next e s = Some s' → step s s' ∨ ∃ l, e = Close l ∧ s' = s <| Permits.closed := {[l]} ∪ Permits.closed s |>.
Proof.
  destruct e as [t l|t|t|t|t|l]; cbn [next]; intros Hn.
  - destruct (is_none _) eqn:Hf; [|done]. destruct (bool_decide _) eqn:Hl; [done|]. injection Hn as <-. left.
    apply step_acquire; [by destruct (_ !! t)|by apply bool_decide_eq_false in Hl].
  - destruct (_ !! t) as [w|] eqn:Hw; [|done]. destruct (eqv _ _) eqn:Hat; [|done]. destruct (Waiter.granted w) eqn:Hg; [|done].
    destruct (bool_decide _) eqn:Hl; [done|]. injection Hn as <-. left. apply (step_resume t w); [done|by apply eqv_eq|done|].
    by apply bool_decide_eq_false in Hl.
  - destruct (phase_is _ _ _) eqn:Ht; [|done]. injection Hn as <-. left. by apply step_interrupt, phase_is_stands.
  - destruct (phase_is _ _ _) eqn:Ht; [|done]. injection Hn as <-. left. by apply step_finally, phase_is_stands.
  - destruct (phase_is _ _ _) eqn:Ht; [|done]. apply fmap_Some in Hn as (s1 & Hr & ->). left.
    eapply step_release; [by apply phase_is_stands|done].
  - injection Hn as <-. right. by exists l.
Qed.

Lemma after_reachable (may_close : Permits.t → nat → Prop) events s :
  (∀ l s, Close l ∈ events → may_close s l) → after events = Some s → reachable may_close s.
Proof.
  revert s. induction events as [|e events IH] using rev_ind; intros s Hm Hs.
  - injection Hs as <-. constructor.
  - unfold after in Hs. rewrite foldl_snoc in Hs. apply bind_Some in Hs as (s0 & Hs0 & Hn).
    assert (reachable may_close s0) as Hr.
    { apply IH; [|done]. intros l s1 Hl. apply Hm, elem_of_app. by left. }
    destruct (next_step e s0 s Hn) as [Hstep|(l & -> & ->)]; [by eapply reachable_step|].
    apply reachable_close; [done|]. apply Hm, elem_of_app. right. by left.
Qed.

(** Four scans, two coroutines that wait, one of which is cancelled; one permit
    released. *)
Definition busy : list event :=
  [Acquire 0 0; Acquire 1 0; Acquire 2 0; Acquire 3 0; Acquire 4 0; Acquire 5 0; Interrupt 4; Finally 0].

Definition busy_state : Permits.t := default Permits.initial (after busy).

Lemma busy_reachable : reachable orderly busy_state.
Proof.
  apply (after_reachable _ busy); [|by vm_compute]. intros l s' Hl. exfalso. unfold busy in Hl.
  repeat (apply elem_of_cons in Hl as [Hl|Hl]; [done|]). by apply elem_of_nil in Hl.
Qed.

Lemma permits_conserved_witness :
  scanning busy_state = 3 ∧ Permits.available busy_state + holders (Permits.created busy_state) = 4
  ∧ ∃ s', _release_scanner_process_permit busy_state = Some s' ∧ Permits.waiters s' = [].
Proof.
  destruct (permits_conserved busy_state busy_reachable) as (_ & Hc & _ & _ & Hrel).
  split; [vm_compute; reflexivity|]. split; [exact Hc|].
  assert (stands 0 Releasing busy_state) as Ht by (apply phase_is_stands; vm_compute; reflexivity).
  destruct (Hrel 0%nat Ht) as (s' & Hs' & Hfirst). exists s'. split; [exact Hs'|].
  apply (Hfirst [4%nat] 5%nat [] (Waiter.mk 0 false false Waiting)); [vm_compute; reflexivity..|].
  intros t ->%list_elem_of_singleton (w & Hw & Hat). vm_compute in Hw. injection Hw as <-. discriminate Hat.
Defined.

(** A loop that is closed while one of its coroutines waits: the handler of
    [RuntimeError] marks the waiter as cancelled but leaves it granted, the permit
    goes to the next waiter, and the end of the coroutine releases it again. *)
Definition abrupt : list event :=
  [Acquire 0 0; Acquire 1 0; Acquire 2 0; Acquire 3 0; Acquire 4 1; Acquire 5 0; Close 1; Finally 0; Release 0; Resume 5;
   Interrupt 4; Release 4; Acquire 6 0].

(** C33. A loop that is closed under a coroutine that waits for a permit lets a fifth
    scanner run: the permit that cannot be delivered is passed on, and released once
    more when the coroutine of the closed loop ends. *)
Theorem closed_loop_releases_twice :
  ∃ s, reachable (λ _ _, True) s ∧ scanning s = _SCANNER_PROCESS_LIMIT + 1.
Proof.
  exists (default Permits.initial (after abrupt)). split; [|vm_compute; reflexivity].
  by apply (after_reachable _ abrupt); [|vm_compute].
Qed.
