(* ===== verification/Official.v ===== *)
(** The client of the public registry: [OfficialRegistryAdapter] of
    registry/official.py, from the bytes of a page to normalized items. *)
From S2P Require Import Prelude Types Json PyStr Secrets Screening Store Session Registry Endpoint Admission Matcher Policy Effects Client.
From stdpp Require Import strings.
From Stdlib Require Import Ascii.
Local Open Scope Z_scope.

Module OfficialRegistryFailureCode.
Inductive t :=
| INVALID_QUERY | UNSAFE_QUERY | SCANNER_FAILED | TIMEOUT | UPSTREAM_UNAVAILABLE | RESPONSE_LIMIT
| INVALID_RESPONSE | UNSAFE_METADATA | CACHE_MISS | PERSISTENCE_FAILURE.
#[global] Instance eq_dec : EqDecision t.
Proof. solve_decision. Defined.
End OfficialRegistryFailureCode.
Import OfficialRegistryFailureCode(INVALID_QUERY, UNSAFE_QUERY, SCANNER_FAILED, TIMEOUT, UPSTREAM_UNAVAILABLE,
  RESPONSE_LIMIT, INVALID_RESPONSE, UNSAFE_METADATA, CACHE_MISS, PERSISTENCE_FAILURE).

(** [OfficialRegistryLimits] *)
Module OfficialRegistryLimits.
Record t := mk {
  max_query_characters : Z; max_pages : Z; max_items : Z; max_response_bytes : Z;
  max_workspace_cache_rows : Z; max_workspace_cache_bytes : Z; max_cursor_characters : Z;
  total_timeout_seconds : PyFloat.t; cache_ttl : Z }.
Definition hour : Z := seconds 3600.
Definition default : t := mk 256 5 100 262144 100 4194304 1024 (PyFloat.Finite (seconds 5)) hour.
(** [__post_init__] raises [ValueError] unless this holds. *)
Definition valid (r : t) : bool :=
  (0 <? max_query_characters r) && (0 <? max_pages r) && (0 <? max_items r) && (0 <? max_response_bytes r)
  && (0 <? max_workspace_cache_rows r) && (max_response_bytes r <=? max_workspace_cache_bytes r)
  && (0 <? max_cursor_characters r) && TransportLimits.positive (total_timeout_seconds r)
  && (0 <? cache_ttl r) && (cache_ttl r <=? hour).
End OfficialRegistryLimits.

(** [OfficialRegistryItem] *)
Module OfficialRegistryItem.
Record t := mk {
  external_id : string; source_version : string; name : string; description : option string;
  advertised_urls : list string; provenance_digest : string; normalized_metadata : Json.t }.
Definition identity (i : t) : string * string := (external_id i, source_version i).
End OfficialRegistryItem.

(** ** Failures, and the world of the adapter *)

Inductive failure_kind :=
| Failed (e : exn)
| OfficialRegistryError (code : OfficialRegistryFailureCode.t)
| Expired.                                      (* [TimeoutError] of [asyncio.timeout] *)

(** How a scanner process ends when it is not stopped: with the value of the
    scanner, or not at all. *)
Inductive scan_answer := Scanned | ScanExpired | ScannerLost | ScanInterrupted.

(** A response of the fixed origin: its head, and its body in chunks. *)
Inductive http_error := HttpTimeout | HttpDecoding | HttpOther | ClockExpired.
Module Response.
Record t := mk {
  is_redirect : bool; status_code : Z; content_type : option string; content_encoding : option string;
  content_length : option string; chunks : list bytes; ended_by : option http_error }.
End Response.
Module Request.
Record t := mk { search : string; version : string; limit : Z; cursor : option string }.
End Request.

(** What surrounds an operation: the database, the clock of the process, the
    scanner processes, the origin, and the fate of the cleanups after a rollback. *)
Module World.
Record t := mk {
  database : Env;
  now : nat → Datetime.t;
  scan : nat → scan_answer;
  http : nat → Request.t → result http_error Response.t;
  others : Db.t → Db.t;        (* what other transactions commit before the workspace is locked *)
  cleanup : nat → bool }.
End World.

(** The state of an operation: its session, what the database holds without it, and
    the callbacks registered with [register_after_rollback], which a failure keeps. *)
Module Operation.
Record t := mk {
  session : Session; committed : Db.t; callbacks : list (uuid * uuid);
  readings : nat; scans : nat; requests : nat }.
#[global] Instance eta : Eta t := λ r,
  mk (session r) (committed r) (callbacks r) (readings r) (scans r) (requests r).
Definition begin (d : Db.t) : t := mk (mkSession d d false 0 0) d [] 0 0 0.
End Operation.

Definition O (A : Type) : Type := World.t → Operation.t → result failure_kind A * Operation.t.
#[global] Instance O_ret : MRet O := λ A a _ s, (Ok a, s).
#[global] Instance O_bind : MBind O := λ A B k m w s,
  match m w s with (Ok a, s') => k a w s' | (Err e, s') => (Err e, s') end.

Definition throw {A} (e : failure_kind) : O A := λ _ s, (Err e, s).
Definition fail {A} (code : OfficialRegistryFailureCode.t) : O A := throw (OfficialRegistryError code).
Definition fail_if (b : bool) (code : OfficialRegistryFailureCode.t) : O () := if b then fail code else mret ().
(** An operation of the session. *)
Definition database {A} (m : M A) : O A := λ w s,
  match m (World.database w) (Operation.session s) with
  | Ok (a, session) => (Ok a, s <| Operation.session := session |>)
  | Err e => (Err (Failed e), s)
  end.
Definition catch {A} (m : O A) (handler : failure_kind → O A) : O A := λ w s,
  match m w s with (Ok a, s') => (Ok a, s') | (Err e, s') => handler e w s' end.

(** [async with asyncio.timeout(...)] whose [TimeoutError] becomes [TIMEOUT]. *)
Definition with_timeout {A} (m : O A) : O A :=
  catch m (λ e, match e with Expired => fail TIMEOUT | _ => throw e end).

Section adapter.
Context `{Externals} `{Urls}.

(** ** JSON *)

(** [_reject_duplicate_members] and [_parse_finite_float], on the raw tree that
    [json.loads] reads: [None] when a hook raises. *)
Fixpoint hooks_accept (v : Json.t) : bool :=
  match v with
  | Json.Float f => PyFloat.isfinite f
  | Json.List items => forallb hooks_accept items
  | Json.Dict members => bool_decide (NoDup members.*1) && forallb (λ m, hooks_accept m.2) members
  | _ => true
  end.

(** [json.loads(body.decode("utf-8"))] without hooks; [None] when it raises. *)
Context (loads_raw : bytes → option Json.t).
Definition _decode_registry_json (body : bytes) : option Json.t :=
  v ← loads_raw body; if hooks_accept v then Some v else None.

(** [_canonical_json], [_digest] *)
Definition _canonical_json (v : Json.t) : option string := json_dumps v.
Definition _digest (v : Json.t) : option string := sha256_hex <$> _canonical_json v.
Definition _is_bounded_json (v : Json.t) : bool := is_ok (Metadata.validate_bounded_json v).

(** [json.loads(_canonical_json(v))]: the members of objects are in order. *)
Definition normalized (v : Json.t) : option Json.t := _ ← _canonical_json v; Some (sort_keys v).

(** ** Screening *)

(** [_decoded]; [None] when it raises. *)
Fixpoint decoded_rounds (rounds : nat) (value : string) : option string :=
  match rounds with
  | 0%nat => None
  | S rounds =>
      match unquote_strict value with
      | None => None
      | Some next_value => if eqv next_value value then Some value else decoded_rounds rounds next_value
      end
  end.
Definition _decoded (value : string) : option string := decoded_rounds 8 value.

(** [_decoded_metadata] *)
Fixpoint _decoded_metadata (value : Json.t) : option Json.t :=
  match value with
  | Json.Dict members =>
      decoded ← mapM (λ m : Json.key * Json.t,
        match m.1 with
        | Json.KStr key => key ← _decoded key; (λ child, (Json.KStr key, child)) <$> _decoded_metadata m.2
        | Json.KOther => None
        end) members;
      if bool_decide (NoDup (decoded.*1)) then Some (Json.Dict decoded) else None
  | Json.List items => Json.List <$> mapM _decoded_metadata items
  | Json.Str s => Json.Str <$> _decoded s
  | _ => Some value
  end.

(** [_default_metadata_scanner]; [None] when it raises. *)
Definition _default_metadata_scanner (value : Json.t) : option bool :=
  decoded ← _decoded_metadata value;
  match contains_sensitive_json decoded with
  | Err _ => None
  | Ok true => Some true
  | Ok false => Some (existsb (λ s, contains_obvious_secret s || contains_sensitive_url s) (all_strings decoded))
  end.

(** [_run_scanner] *)
Definition _run_scanner (value : Json.t) (timeout_code : OfficialRegistryFailureCode.t) : O bool := λ w s,
  let s' := s <| Operation.scans := S (Operation.scans s) |> in
  match World.scan w (Operation.scans s) with
  | ScanExpired => fail timeout_code w s'
  | ScannerLost => fail SCANNER_FAILED w s'
  | ScanInterrupted => throw Expired w s'
  | Scanned =>
      match _default_metadata_scanner value with
      | Some found => (Ok found, s')
      | None => fail SCANNER_FAILED w s'
      end
  end.

(** ** Items *)

Definition invalid_response {A} : result OfficialRegistryFailureCode.t A := Err INVALID_RESPONSE.
(** [value.get(key)] *)
Definition get (key : string) (members : list (Json.key * Json.t)) : option Json.t :=
  match json_lookup key members with Some Json.Null | None => None | Some v => Some v end.

(** [_required_string] *)
Definition _required_string (value : option Json.t) (maximum : Z) : result OfficialRegistryFailureCode.t string :=
  match value with
  | Some (Json.Str s) => if falsy (strip s) || (maximum <? slen s) || has_nul s then invalid_response else Ok (strip s)
  | _ => invalid_response
  end.

(** A value that is [None] is skipped. *)
Definition optional_string (value : option Json.t) (maximum : Z)
    : result OfficialRegistryFailureCode.t (option string) :=
  match value with None => Ok None | Some _ => Some <$> _required_string value maximum end.

Fixpoint remote_urls (remotes : list Json.t) : result OfficialRegistryFailureCode.t (list string) :=
  match remotes with
  | [] => Ok []
  | Json.Dict remote :: remotes =>
      url ← optional_string (get "url" remote) 2048;
      urls ← remote_urls remotes;
      Ok (option_list url ++ urls)
  | _ => invalid_response
  end.

(** [_advertised_urls]; [server.get("remotes", [])] is [None] for a null member. *)
Definition _advertised_urls (server : list (Json.key * Json.t)) : result OfficialRegistryFailureCode.t (list string) :=
  website ← optional_string (get "websiteUrl" server) 2048;
  match json_lookup "remotes" server with
  | None => Ok (option_list website)
  | Some (Json.List remotes) => urls ← remote_urls remotes; Ok (option_list website ++ urls)
  | Some _ => invalid_response
  end.

(** [_canonical_json] raises [INVALID_RESPONSE]. *)
Definition canonical {A} (o : option A) : result OfficialRegistryFailureCode.t A :=
  match o with Some a => Ok a | None => invalid_response end.

(** One round of the loop of [_normalize_items], without the test for duplicates. *)
Definition normalize_item (value : Json.t) : result OfficialRegistryFailureCode.t OfficialRegistryItem.t :=
  match value with
  | Json.Dict members =>
      match json_lookup "server" members with
      | Some (Json.Dict server) =>
          external_id ← _required_string (get "name" server) 256;
          source_version ← _required_string (get "version" server) 128;
          let title := match json_lookup "title" server with Some title => title | None => Json.Str external_id end in
          name ← _required_string (Some title) 256;
          description ← optional_string (get "description" server) 2048;
          advertised_urls ← _advertised_urls server;
          normalized_metadata ← canonical (normalized value);
          provenance_digest ← canonical (_digest normalized_metadata);
          Ok (OfficialRegistryItem.mk external_id source_version name description advertised_urls
                provenance_digest normalized_metadata)
      | _ => invalid_response
      end
  | _ => invalid_response
  end.

(** [_normalize_items]; [identities] are those of the items before. *)
Fixpoint normalize_from (identities : list (string * string)) (values : list Json.t)
    : result OfficialRegistryFailureCode.t (list OfficialRegistryItem.t) :=
  match values with
  | [] => Ok []
  | value :: values =>
      item ← normalize_item value;
      if bool_decide (OfficialRegistryItem.identity item ∈ identities) then invalid_response
      else items ← normalize_from (OfficialRegistryItem.identity item :: identities) values; Ok (item :: items)
  end.
Definition _normalize_items (values : list Json.t) := normalize_from [] values.

Definition checked {A} (r : result OfficialRegistryFailureCode.t A) : O A :=
  match r with Ok a => mret a | Err code => fail code end.

Context (limits : OfficialRegistryLimits.t).

(** ** Queries and pages *)

Definition control_character (c : ascii) : bool := (ord c <? 32) || (ord c =? 127).

(** [_screen_query] *)
Definition _screen_query (query : string) : O string :=
  fail_if (falsy (strip query) || (OfficialRegistryLimits.max_query_characters limits <? slen query)
           || existsb control_character (chars query)) INVALID_QUERY ;;
  unsafe ← _run_scanner (Json.Str (strip query)) SCANNER_FAILED;
  fail_if unsafe UNSAFE_QUERY ;;
  mret (strip query).

(** [_screen] *)
Definition _screen (value : Json.t) : O () :=
  unsafe ← _run_scanner value TIMEOUT;
  fail_if unsafe UNSAFE_METADATA.

Definition page_cursor (metadata : list (Json.key * Json.t)) : result OfficialRegistryFailureCode.t (option string) :=
  match get "nextCursor" metadata with
  | None => Ok None
  | Some (Json.Str cursor) =>
      if falsy cursor || (OfficialRegistryLimits.max_cursor_characters limits <? slen cursor)
         || existsb control_character (chars cursor)
      then invalid_response else Ok (Some cursor)
  | Some _ => invalid_response
  end.

Definition known_member (key : Json.key) : bool :=
  eqv key (Json.KStr "servers") || eqv key (Json.KStr "metadata").

(** The checks of [_parse_page] on a decoded page: its servers and the cursor. *)
Definition page_parts (payload : Json.t) : result OfficialRegistryFailureCode.t (list Json.t * option string) :=
  match payload with
  | Json.Dict members =>
      if negb (forallb known_member members.*1) then invalid_response else
      match json_lookup "servers" members, json_lookup "metadata" members with
      | Some (Json.List servers), Some (Json.Dict metadata) =>
          match json_lookup "count" metadata with
          | Some (Json.Int count) =>
              if negb (count =? len servers) then invalid_response
              else cursor ← page_cursor metadata; Ok (servers, cursor)
          | _ => invalid_response
          end
      | _, _ => invalid_response
      end
  | _ => invalid_response
  end.

(** [_parse_page] *)
Definition _parse_page (body : bytes) : O (list OfficialRegistryItem.t * option string) :=
  payload ← match _decode_registry_json body with Some v => mret v | None => fail INVALID_RESPONSE end;
  fail_if (negb (_is_bounded_json payload)) RESPONSE_LIMIT ;;
  _screen payload ;;
  '(servers, cursor) ← checked (page_parts payload);
  items ← checked (_normalize_items servers);
  mret (items, cursor).

(** [parse_cached_items] *)
Definition parse_cached_items (values : list Json.t) : O (list OfficialRegistryItem.t) :=
  fail_if (OfficialRegistryLimits.max_items limits <? len values) INVALID_RESPONSE ;;
  fail_if (negb (_is_bounded_json (Json.List values))) RESPONSE_LIMIT ;;
  _screen (Json.List values) ;;
  checked (_normalize_items values).

(** ** Search *)

(** The checks of a response before its body is read; [total] bytes were read. *)
Definition header (value : option string) (default : string) : string := lower (strip (match value with Some v => v | None => default end)).
Definition media_type (content_type : option string) : string :=
  match content_type with Some v => match split_on 59 v with part :: _ => lower (strip part) | [] => "" end | None => "" end.
Definition check_head (r : Response.t) (total : Z) : result OfficialRegistryFailureCode.t () :=
  if Response.is_redirect r then Err UPSTREAM_UNAVAILABLE
  else if negb (Response.status_code r =? 200) then Err UPSTREAM_UNAVAILABLE
  else if negb (eqv (media_type (Response.content_type r)) "application/json"%string) then invalid_response
  else if negb (eqv (header (Response.content_encoding r) "identity") "identity"%string) then invalid_response
  else match Response.content_length r with
       | None => Ok tt
       | Some declared =>
           match py_int (Json.Str declared) with
           | None => invalid_response
           | Some n =>
               if (n <? 0) || (OfficialRegistryLimits.max_response_bytes limits <? total + n)
               then Err RESPONSE_LIMIT else Ok tt
           end
       end.

(** The body, chunk by chunk; every page of a search counts against one budget. *)
Fixpoint read_body (chunks : list bytes) (total : Z) : result OfficialRegistryFailureCode.t (bytes * Z) :=
  match chunks with
  | [] => Ok ([], total)
  | chunk :: chunks =>
      let total := total + len chunk in
      if OfficialRegistryLimits.max_response_bytes limits <? total then Err RESPONSE_LIMIT
      else '(body, total) ← read_body chunks total; Ok (chunk ++ body, total)
  end.

(** The exceptions of the client, as [_search_with_client] reports them. *)
Definition http_failure (e : http_error) : OfficialRegistryFailureCode.t :=
  match e with
  | HttpTimeout | ClockExpired => TIMEOUT
  | HttpDecoding => INVALID_RESPONSE
  | HttpOther => UPSTREAM_UNAVAILABLE
  end.

Definition send (request : Request.t) : O Response.t := λ w s,
  let s' := s <| Operation.requests := S (Operation.requests s) |> in
  match World.http w (Operation.requests s) request with
  | Ok response => (Ok response, s')
  | Err e => fail (http_failure e) w s'
  end.

(** One page: the request, its response, the body. *)
Definition fetch_page (query : string) (cursor : option string) (total : Z) : O (bytes * Z) :=
  response ← send (Request.mk query "latest" (Z.min 100 (OfficialRegistryLimits.max_items limits)) cursor);
  checked (check_head response total) ;;
  read ← checked (read_body (Response.chunks response) total);
  match Response.ended_by response with
  | Some e => fail (http_failure e)
  | None => mret read
  end.

(** The loop of [_search_with_client] over the pages that are left. *)
Fixpoint search_pages (pages : nat) (query : string) (items : list OfficialRegistryItem.t)
    (cursor : option string) (seen_cursors : list string) (total : Z) : O (list OfficialRegistryItem.t) :=
  match pages with
  | 0%nat => fail RESPONSE_LIMIT
  | S pages =>
      '(body, total) ← fetch_page query cursor total;
      '(page, cursor) ← _parse_page body;
      fail_if (OfficialRegistryLimits.max_items limits <? len items + len page) RESPONSE_LIMIT ;;
      fail_if (existsb (λ i, bool_decide (OfficialRegistryItem.identity i ∈ OfficialRegistryItem.identity <$> items)) page)
        INVALID_RESPONSE ;;
      let items := items ++ page in
      match cursor with
      | None => mret items
      | Some c =>
          fail_if (bool_decide (c ∈ seen_cursors)) INVALID_RESPONSE ;;
          search_pages pages query items cursor (c :: seen_cursors) total
      end
  end.

(** [_search_with_client], and [_search_screened] around it. *)
Definition _search_screened (query : string) : O (list OfficialRegistryItem.t) :=
  with_timeout (search_pages (Z.to_nat (OfficialRegistryLimits.max_pages limits)) query [] None [] 0).

(** [OfficialRegistryAdapter.search] *)
Definition search (query : string) : O (list OfficialRegistryItem.t) :=
  with_timeout (normalized_query ← _screen_query query; _search_screened normalized_query).
End adapter.
