(* ===== verification/Catalog.v ===== *)
(** The cache and the imports of the public registry: [OfficialRegistryService] of
    registry/official.py. *)
From S2P Require Import Prelude Types Json PyStr Secrets Screening Store Session Registry Identity Endpoint Admission Matcher Official.
From stdpp Require Import strings.
Local Open Scope Z_scope.
Import OfficialRegistryFailureCode(INVALID_QUERY, UNSAFE_QUERY, SCANNER_FAILED, TIMEOUT, UPSTREAM_UNAVAILABLE,
  RESPONSE_LIMIT, INVALID_RESPONSE, UNSAFE_METADATA, CACHE_MISS, PERSISTENCE_FAILURE).

Definition OFFICIAL_REGISTRY_PROVIDER : string := "official".
Definition OFFICIAL_REGISTRY_SERVERS_URL : string := "https://registry.modelcontextprotocol.io/v0.1/servers".

Definition registry_search_cache (d : Db.t) := RegistryDb.registry_search_cache (Db.registry d).
Definition registry_entries (d : Db.t) := RegistryDb.registry_entries (Db.registry d).
Definition registry_entry_versions (d : Db.t) := RegistryDb.registry_entry_versions (Db.registry d).

(** ** Access to the tables *)

Definition set_cache (f : gmap uuid RegistrySearchCache.t → gmap uuid RegistrySearchCache.t) (d : Db.t) : Db.t :=
  d <| Db.registry := Db.registry d <| RegistryDb.registry_search_cache := f (registry_search_cache d) |> |>.

(** A [DELETE] statement on the cache is executed at once. *)
Definition delete_cache_where (P : RegistrySearchCache.t → bool) : M unit :=
  modify (λ s, s <| flushed := set_cache (filter (λ kr, P kr.2 = false)) (flushed s) |>
                 <| work := set_cache (filter (λ kr, P kr.2 = false)) (work s) |>).

(** [session.delete(cache)] *)
Definition delete_cache_row (id : uuid) : M unit :=
  modify (λ s, s <| work := set_cache (delete id) (work s) |>).

Definition add_cache (c : RegistrySearchCache.t) : M unit :=
  flag_conflict (λ s, is_some (registry_search_cache (work s) !! RegistrySearchCache.id c)) ;;
  modify (λ s, s <| work := set_cache (<[RegistrySearchCache.id c := c]>) (work s) |>).

(** [order_by(fetched_at.desc(), id.desc()).limit(1)] *)
Definition latest (rows : list (uuid * RegistrySearchCache.t)) : option RegistrySearchCache.t :=
  snd <$> last (order_by RegistrySearchCache.fetched_at rows).

Definition add_entry (e : RegistryEntry.t) : M unit :=
  flag_conflict (λ s, clashes (registry_entries (work s)) (RegistryEntry.id e)
    (λ e', eqv (RegistryEntry.workspace_id e') (RegistryEntry.workspace_id e)
           && eqv (RegistryEntry.source e') (RegistryEntry.source e)
           && is_some (RegistryEntry.external_id e)
           && eqv (RegistryEntry.external_id e') (RegistryEntry.external_id e))) ;;
  put_registry (λ d, d <| RegistryDb.registry_entries := <[RegistryEntry.id e := e]> (RegistryDb.registry_entries d) |>).

Definition add_entry_version (v : RegistryEntryVersion.t) : M unit :=
  flag_conflict (λ s, clashes (registry_entry_versions (work s)) (RegistryEntryVersion.id v)
    (λ v', eqv (RegistryEntryVersion.registry_entry_id v') (RegistryEntryVersion.registry_entry_id v)
           && (RegistryEntryVersion.sequence v' =? RegistryEntryVersion.sequence v))) ;;
  put_registry (λ d, d <| RegistryDb.registry_entry_versions :=
    <[RegistryEntryVersion.id v := v]> (RegistryDb.registry_entry_versions d) |>).

Definition update_entry (id : uuid) (f : RegistryEntry.t → RegistryEntry.t) : M unit :=
  put_registry (λ d, d <| RegistryDb.registry_entries := alter f id (RegistryDb.registry_entries d) |>).

(** [_purge_expired_workspace_cache] with all its bounds. *)
Definition cache_expired (limits : OfficialRegistryLimits.t) (workspace_id : uuid) (now : instant)
    (c : RegistrySearchCache.t) : bool :=
  eqv (RegistrySearchCache.workspace_id c) workspace_id
  && ((RegistrySearchCache.expires_at c <=? now)
      || (RegistrySearchCache.fetched_at c <=? now - OfficialRegistryLimits.cache_ttl limits)
      || (OfficialRegistryLimits.max_response_bytes limits <? RegistrySearchCache.byte_count c)
      || (OfficialRegistryLimits.max_items limits <? RegistrySearchCache.result_count c)).

(** [purge_expired_registry_cache] *)
Definition _CACHE_CLEANUP_BATCH_SIZE : Z := 500.
Definition purge_expired_registry_cache (now : Datetime.t) (batch_size : Z) : M unit :=
  raise_if (Datetime.naive now) ValueError ;;
  raise_if ((batch_size <=? 0) || (_CACHE_CLEANUP_BATCH_SIZE <? batch_size)) ValueError ;;
  expired_ids ← (λ env s, Ok (take (Z.to_nat batch_size)
    (filter (λ id, row_locked env id = false)
      (fst <$> order_by RegistrySearchCache.expires_at
         (where_rows (registry_search_cache (flushed s))
            (λ c, RegistrySearchCache.expires_at c <=? Datetime.utc now)))), s));
  delete_cache_where (λ c, bool_decide (RegistrySearchCache.id c ∈ expired_ids)).

(** The row of a search result or of a lookup. *)
Module SearchResult.
Record t := mk {
  cache_id : uuid; items : list OfficialRegistryItem.t; response_digest : string;
  fetched_at : instant; expires_at : instant; from_cache : bool }.
End SearchResult.

(** [_result] *)
Definition _result (c : RegistrySearchCache.t) (items : list OfficialRegistryItem.t) (from_cache : bool) : SearchResult.t :=
  SearchResult.mk (RegistrySearchCache.id c) items (RegistrySearchCache.response_digest c)
    (RegistrySearchCache.fetched_at c) (RegistrySearchCache.expires_at c) from_cache.

(** [_utc_now] *)
Definition _utc_now : O instant := λ w s,
  let now := World.now w (Operation.readings s) in
  let s' := s <| Operation.readings := S (Operation.readings s) |> in
  if Datetime.naive now then (Err (Failed ValueError), s') else (Ok (Datetime.utc now), s').

(** [require_current_role(..., serialize_workspace=True)]: the statements that
    follow see what was committed before the workspace was locked. *)
Definition lock_workspace (context : WorkspaceContext.t) : O () := λ w s,
  let d := World.others w (Operation.committed s) in
  let session := Operation.session s in
  database (require_current_role context [Role.ADMIN; Role.OPERATOR] true ;; mret ()) w
    (s <| Operation.committed := d |>
       <| Operation.session := session <| flushed := d |> <| work := d |> |>).

(** [_purge_rejected_cache] *)
Definition _purge_rejected_cache (context : WorkspaceContext.t) (c : RegistrySearchCache.t) : O () :=
  (λ _ s, (Ok (), s <| Operation.callbacks := Operation.callbacks s
             ++ [(RegistrySearchCache.id c, WorkspaceContext.workspace_id context)] |>)) ;;
  database (delete_cache_row (RegistrySearchCache.id c) ;; flush).

(** [_flush_registry_payload] *)
Definition _flush_registry_payload : O () :=
  flushed ← database try_flush;
  fail_if (negb flushed) PERSISTENCE_FAILURE.

Section service.
Context `{Externals} `{Urls} (loads_raw : bytes → option Json.t) (limits : OfficialRegistryLimits.t).
Implicit Types (context : WorkspaceContext.t) (c : RegistrySearchCache.t).

Definition ttl : Z := OfficialRegistryLimits.cache_ttl limits.

(** The rows a read may use, by the flushed columns. *)
Definition cache_usable context (now : instant) c : bool :=
  eqv (RegistrySearchCache.workspace_id c) (WorkspaceContext.workspace_id context)
  && eqv (RegistrySearchCache.provider c) OFFICIAL_REGISTRY_PROVIDER
  && (now <? RegistrySearchCache.expires_at c) && (now - ttl <? RegistrySearchCache.fetched_at c)
  && (RegistrySearchCache.byte_count c <=? OfficialRegistryLimits.max_response_bytes limits).

(** The row still is what was stored: [None] when [_canonical_json] raises. *)
Definition cache_intact c : option bool :=
  canonical_bytes ← _canonical_json (Json.List (RegistrySearchCache.normalized_results c));
  digest ← _digest (Json.List (RegistrySearchCache.normalized_results c));
  Some ((slen canonical_bytes =? RegistrySearchCache.byte_count c)
        && eqv digest (RegistrySearchCache.response_digest c)).

Definition cache_fresh c (now : instant) : bool :=
  (now <? RegistrySearchCache.expires_at c) && (now - ttl <? RegistrySearchCache.fetched_at c).

(** [_require_fresh_cache] *)
Definition _require_fresh_cache c : O () :=
  validated_at ← _utc_now;
  fail_if (negb (cache_fresh c validated_at)) CACHE_MISS.

(** The [try] of [_read_cache]: the items, and whether the row is valid. *)
Definition validate_cache c : O (option (list OfficialRegistryItem.t)) :=
  catch
    (items ← parse_cached_items limits (RegistrySearchCache.normalized_results c);
     validated_at ← _utc_now;
     if negb (len items =? RegistrySearchCache.result_count c) then mret None
     else match cache_intact c with
          | None => fail INVALID_RESPONSE
          | Some intact => mret (if intact && cache_fresh c validated_at then Some items else None)
          end)
    (λ e, match e with OfficialRegistryError _ => mret None | _ => throw e end).

(** [_read_cache]: a result, or a row that was rejected. *)
Definition _read_cache context (query_digest : string) (now : instant)
    : O (option SearchResult.t * option RegistrySearchCache.t) :=
  found ← database (gets (λ s, latest (where_rows (registry_search_cache (flushed s)) (λ c,
    cache_usable context now c && eqv (RegistrySearchCache.query_digest c) query_digest))));
  match found with
  | None => mret (None, None)
  | Some c =>
      valid ← validate_cache c;
      mret match valid with
           | Some items => (Some (_result c items true), None)
           | None => (None, Some c)
           end
  end.

(** [select(func.count(id), func.sum(byte_count)).where(workspace)] *)
Definition workspace_rows (workspace_id : uuid) (d : Db.t) : list (uuid * RegistrySearchCache.t) :=
  where_rows (registry_search_cache d) (λ c, eqv (RegistrySearchCache.workspace_id c) workspace_id).
Definition cache_bytes (rows : list (uuid * RegistrySearchCache.t)) : Z :=
  Zsum (map (λ kr, RegistrySearchCache.byte_count kr.2) rows).

(** What follows the last read of the cache in [_search_authorized]. *)
Definition store_results context (query_digest : string) (items : list OfficialRegistryItem.t)
    (normalized_results : list Json.t) (byte_count : Z) (fetched_at : instant) : O SearchResult.t :=
  usage ← database (gets (λ s, workspace_rows (WorkspaceContext.workspace_id context) (flushed s)));
  fail_if ((OfficialRegistryLimits.max_workspace_cache_rows limits <=? len usage)
           || (OfficialRegistryLimits.max_workspace_cache_bytes limits <? cache_bytes usage + byte_count)) RESPONSE_LIMIT ;;
  response_digest ← checked (canonical (_digest (Json.List normalized_results)));
  id ← database uuid4;
  let c := RegistrySearchCache.mk id (WorkspaceContext.workspace_id context) OFFICIAL_REGISTRY_PROVIDER query_digest
    response_digest normalized_results (len items) byte_count fetched_at (fetched_at + ttl) in
  database (add_cache c) ;;
  _flush_registry_payload ;;
  mret (_result c items false).

(** [_search_authorized] from its request on; [locked]: is the workspace locked? *)
Definition search_origin context (normalized_query query_digest : string) (locked : bool) : O SearchResult.t :=
  items ← _search_screened loads_raw limits normalized_query;
  normalized_results ← checked (canonical (normalized (Json.List (OfficialRegistryItem.normalized_metadata <$> items))));
  normalized_bytes ← checked (canonical (_canonical_json normalized_results));
  fail_if ((OfficialRegistryLimits.max_response_bytes limits <? slen normalized_bytes)
           || negb (_is_bounded_json normalized_results)) RESPONSE_LIMIT ;;
  (if locked then mret () else lock_workspace context) ;;
  fetched_at ← _utc_now;
  database (delete_cache_where (cache_expired limits (WorkspaceContext.workspace_id context) fetched_at)) ;;
  '(cached, rejected) ← _read_cache context query_digest fetched_at;
  match cached with
  | Some result => mret result
  | None =>
      match rejected with Some c => _purge_rejected_cache context c | None => mret () end ;;
      store_results context query_digest items (Json.children normalized_results) (slen normalized_bytes) fetched_at
  end.

(** [_search_authorized] *)
Definition _search_authorized context (query : string) : O SearchResult.t :=
  normalized_query ← _screen_query limits query;
  let query_digest := sha256_hex normalized_query in
  now ← _utc_now;
  '(cached, rejected) ← _read_cache context query_digest now;
  match cached, rejected with
  | Some result, _ => mret result
  | None, None => search_origin context normalized_query query_digest false
  | None, Some _ =>
      lock_workspace context ;;
      now ← _utc_now;
      '(cached, rejected) ← _read_cache context query_digest now;
      match cached with
      | Some result => mret result
      | None =>
          match rejected with Some c => _purge_rejected_cache context c | None => mret () end ;;
          search_origin context normalized_query query_digest true
      end
  end.

(** [search] *)
Definition service_search context (query : string) : O SearchResult.t :=
  with_timeout
    (database (require_current_role context [Role.ADMIN; Role.OPERATOR] false ;; mret ()) ;;
     _search_authorized context query).

(** ** Imports *)

(** The entry of an item, and the version of an entry with a digest: their keys. *)
Definition select_entry context (external_id : string) : O (option uuid) :=
  database (gets (λ s, fst <$> head (where_rows (registry_entries (flushed s)) (λ e,
    eqv (RegistryEntry.workspace_id e) (WorkspaceContext.workspace_id context)
    && eqv (RegistryEntry.source e) RegistrySource.OFFICIAL
    && eqv (RegistryEntry.external_id e) (Some external_id))))).
Definition select_version (entry_id : uuid) (provenance_digest : string) : O (option uuid) :=
  database (gets (λ s, fst <$> head (where_rows (registry_entry_versions (flushed s)) (λ v,
    eqv (RegistryEntryVersion.registry_entry_id v) entry_id
    && eqv (RegistryEntryVersion.provenance_digest v) provenance_digest)))).
Definition latest_sequence (entry_id : uuid) : O Z :=
  database (gets (λ s, max_or_zero ((RegistryEntryVersion.sequence ∘ snd) <$> where_rows (registry_entry_versions (flushed s))
    (λ v, eqv (RegistryEntryVersion.registry_entry_id v) entry_id)))).

(** The new version of an entry, which may be new too. *)
Definition add_import context (item : OfficialRegistryItem.t) (entry_id : uuid) (entry_is_new : bool) (sequence : Z)
    (correlation_id : option uuid) : O uuid :=
  (if entry_is_new
   then database (add_entry (RegistryEntry.mk entry_id (WorkspaceContext.workspace_id context) RegistrySource.OFFICIAL
                               (Some (OfficialRegistryItem.external_id item)) None))
   else mret ()) ;;
  version_id ← database uuid4;
  database (add_entry_version (RegistryEntryVersion.mk version_id (WorkspaceContext.workspace_id context)
    entry_id sequence (OfficialRegistryItem.name item) (OfficialRegistryItem.description item)
    (OfficialRegistryItem.provenance_digest item) (Some (OfficialRegistryItem.source_version item))
    (Some OFFICIAL_REGISTRY_SERVERS_URL) (Some (OfficialRegistryItem.normalized_metadata item))
    (Some (WorkspaceContext.actor_user_id context)))) ;;
  _flush_registry_payload ;;
  database (update_entry entry_id (λ e, e <| RegistryEntry.current_version_id := Some version_id |>) ;;
            audit context AuditAction.REGISTRY_ENTRY_IMPORTED ResourceType.REGISTRY_ENTRY entry_id correlation_id ;;
            flush) ;;
  mret version_id.

(** From the item on. *)
Definition import_item context c (item : OfficialRegistryItem.t) (correlation_id : option uuid) : O uuid :=
  found ← select_entry context (OfficialRegistryItem.external_id item);
  entry_id ← match found with Some entry_id => mret entry_id | None => database uuid4 end;
  existing ← select_version entry_id (OfficialRegistryItem.provenance_digest item);
  match existing with
  | Some version_id => _require_fresh_cache c ;; mret version_id
  | None =>
      sequence ← match found with None => mret 1 | Some _ => latest ← latest_sequence entry_id; mret (latest + 1) end;
      _require_fresh_cache c ;;
      add_import context item entry_id (is_none found) sequence correlation_id
  end.

Definition provenance_digest_rejected (digest : string) : bool :=
  negb (slen digest =? 64)
  || existsb (λ ch, let n := ord ch in negb ((48 <=? n) && (n <=? 57) || (97 <=? n) && (n <=? 102))) (chars digest).

(** [_import_cached_authorized] *)
Definition _import_cached_authorized context (cache_id : uuid) (provenance_digest : string) (correlation_id : option uuid)
    : O uuid :=
  lock_workspace context ;;
  fail_if (provenance_digest_rejected provenance_digest) CACHE_MISS ;;
  now ← _utc_now;
  database (delete_cache_where (cache_expired limits (WorkspaceContext.workspace_id context) now)) ;;
  found ← database (gets (λ s, match registry_search_cache (flushed s) !! cache_id with
                               | Some c => if cache_usable context now c then Some c else None
                               | None => None
                               end));
  match found with
  | None => fail CACHE_MISS
  | Some c =>
      intact ← checked (canonical (cache_intact c));
      fail_if (negb intact) CACHE_MISS ;;
      items ← catch (parse_cached_items limits (RegistrySearchCache.normalized_results c))
        (λ e, match e with
              | OfficialRegistryError _ => _purge_rejected_cache context c ;; throw e
              | _ => throw e
              end);
      _require_fresh_cache c ;;
      match List.find (λ i, eqv (OfficialRegistryItem.provenance_digest i) provenance_digest) items with
      | None => fail CACHE_MISS
      | Some item => import_item context c item correlation_id
      end
  end.

(** [import_cached] *)
Definition import_cached context (cache_id : uuid) (provenance_digest : string) (correlation_id : option uuid) : O uuid :=
  with_timeout (_import_cached_authorized context cache_id provenance_digest correlation_id).
End service.

(** [transaction(session_factory)] around an operation: commit, or roll back and run
    the callbacks, each in a transaction of its own that may fail. *)
Fixpoint run_callbacks (callbacks : list (uuid * uuid)) (cleanup : nat → bool) (n : nat) (d : Db.t) : Db.t :=
  match callbacks with
  | [] => d
  | (cache_id, workspace_id) :: callbacks =>
      run_callbacks callbacks cleanup (S n)
        (if cleanup n
         then set_cache (filter (λ kr, negb (eqv kr.1 cache_id
                && eqv (RegistrySearchCache.workspace_id kr.2) workspace_id) = true)) d
         else d)
  end.

Definition official_transaction {A} (m : O A) (w : World.t) (d : Db.t) : result failure_kind A * Db.t :=
  match (a ← m; database flush ;; mret a) w (Operation.begin d) with
  | (Ok a, s) => (Ok a, work (Operation.session s))
  | (Err e, s) => (Err e, run_callbacks (Operation.callbacks s) (World.cleanup w) 0 (Operation.committed s))
  end.
