(* ===== verification/CatalogSpec.v ===== *)
(** The cache of registry searches stays within its bounds, whatever the origin
    sends and other transactions do; imports are pinned to what was screened. *)
From S2P Require Import Prelude Types Json PyStr Secrets Screening Store Session Registry Identity Endpoint Admission Matcher Effects Client Official Catalog.
From stdpp Require Import strings.
Local Open Scope Z_scope.

(** ** Reasoning about operations *)

(** [ends m w s Q]: [m], from [s], ends in a state and with an outcome in [Q]. *)
Definition ends {A} (m : O A) (w : World.t) (s : Operation.t) (Q : result failure_kind A → Operation.t → Prop) : Prop :=
  Q (m w s).1 (m w s).2.

Section ends.
Implicit Types (w : World.t) (s : Operation.t).

Lemma ends_mono {A} (m : O A) w s (Q Q' : result failure_kind A → Operation.t → Prop) :
  ends m w s Q → (∀ r s', Q r s' → Q' r s') → ends m w s Q'.
Proof. unfold ends. auto. Qed.

Lemma ends_bind {A B} (m : O A) (k : A → O B) w s Q :
  ends m w s (λ r s', match r with Ok a => ends (k a) w s' Q | Err e => Q (Err e) s' end) → ends (m ≫= k) w s Q.
Proof. unfold ends, mbind, O_bind. by destruct (m w s) as [[a|e] s']. Qed.

Lemma ends_ret {A} (a : A) w s (Q : result failure_kind A → Operation.t → Prop) : Q (Ok a) s → ends (mret a) w s Q.
Proof. done. Qed.

Lemma ends_throw {A} e w s (Q : result failure_kind A → Operation.t → Prop) : Q (Err e) s → ends (throw e) w s Q.
Proof. done. Qed.

Lemma ends_fail_if b code w s (Q : result failure_kind () → Operation.t → Prop) :
  (b = false → Q (Ok ()) s) → Q (Err (OfficialRegistryError code)) s → ends (fail_if b code) w s Q.
Proof. destruct b; [done|]. intros HQ _. by apply HQ. Qed.

Lemma ends_checked {A} (r : result OfficialRegistryFailureCode.t A) w s (Q : result failure_kind A → Operation.t → Prop) :
  (∀ a, r = Ok a → Q (Ok a) s) → (∀ code, Q (Err (OfficialRegistryError code)) s) → ends (checked r) w s Q.
Proof. destruct r; cbn; [intros HQ _; by apply HQ|intros _ HQ; apply HQ]. Qed.

Lemma ends_catch {A} (m : O A) handler w s (Q : result failure_kind A → Operation.t → Prop) :
  ends m w s (λ r s', match r with Ok a => Q (Ok a) s' | Err e => ends (handler e) w s' Q end) → ends (catch m handler) w s Q.
Proof. unfold ends, catch. by destruct (m w s) as [[a|e] s']. Qed.

Lemma ends_with_timeout {A} (m : O A) w s (Q : result failure_kind A → Operation.t → Prop) :
  ends m w s (λ r s', match r with Ok a => Q (Ok a) s' | Err _ => ∀ e, Q (Err e) s' end) → ends (with_timeout m) w s Q.
Proof.
  intros Hm. apply ends_catch. eapply ends_mono; [exact Hm|]. intros [a|e] s'; [done|]. intros HQ.
  destruct e; apply HQ.
Qed.

Lemma ends_utc_now w s (Q : result failure_kind instant → Operation.t → Prop) :
  (∀ r, Q r (s <| Operation.readings := S (Operation.readings s) |>)) → ends _utc_now w s Q.
Proof. intros HQ. unfold ends, _utc_now. destruct (Datetime.naive _); apply HQ. Qed.
End ends.

(** An invariant of the state that no effect of the adapter touches. *)
Definition session_only (I : Operation.t → Prop) : Prop :=
  ∀ s s', Operation.session s' = Operation.session s → Operation.committed s' = Operation.committed s → I s → I s'.

(** Operations that leave the session alone. *)
Class Outside {A} (m : O A) : Prop := outside : ∀ w s,
  Operation.session (m w s).2 = Operation.session s ∧ Operation.committed (m w s).2 = Operation.committed s.

Section outside.
#[global] Instance outside_ret {A} (a : A) : Outside (mret a).
Proof. by intros w s. Qed.
#[global] Instance outside_throw {A} e : Outside (throw e : O A).
Proof. by intros w s. Qed.
#[global] Instance outside_fail {A} code : Outside (fail code : O A).
Proof. by intros w s. Qed.
#[global] Instance outside_bind {A B} (m : O A) (k : A → O B) : Outside m → (∀ a, Outside (k a)) → Outside (m ≫= k).
Proof.
  intros Hm Hk w s. unfold mbind, O_bind. pose proof (Hm w s) as [H1 H2]. destruct (m w s) as [[a|e] s'] eqn:E; [|done].
  cbn in H1, H2. destruct (Hk a w s') as [H3 H4]. by rewrite H3, H4.
Qed.
#[global] Instance outside_fail_if b code : Outside (fail_if b code).
Proof. unfold fail_if. destruct b; apply _. Qed.
#[global] Instance outside_checked {A} (r : result OfficialRegistryFailureCode.t A) : Outside (checked r).
Proof. destruct r; apply _. Qed.
#[global] Instance outside_catch {A} (m : O A) h : Outside m → (∀ e, Outside (h e)) → Outside (catch m h).
Proof.
  intros Hm Hk w s. unfold catch. pose proof (Hm w s) as [H1 H2]. destruct (m w s) as [[a|e] s'] eqn:E; [done|].
  cbn in H1, H2. destruct (Hk e w s') as [H3 H4]. by rewrite H3, H4.
Qed.
#[global] Instance outside_with_timeout {A} (m : O A) : Outside m → Outside (with_timeout m).
Proof. intros Hm. unfold with_timeout. apply outside_catch; [done|]. intros []; apply _. Qed.
#[global] Instance outside_utc_now : Outside _utc_now.
Proof. intros w s. unfold _utc_now. by destruct (Datetime.naive _). Qed.
#[global] Instance outside_if {A} (b : bool) (m m' : O A) : Outside m → Outside m' → Outside (if b then m else m').
Proof. by destruct b. Qed.

Context `{Externals} `{Urls} (loads_raw : bytes → option Json.t) (limits : OfficialRegistryLimits.t).
#[global] Instance outside_run_scanner v code : Outside (_run_scanner v code).
Proof.
  intros w s. unfold _run_scanner. destruct (World.scan _ _); try done. by destruct (_default_metadata_scanner v).
Qed.
#[global] Instance outside_send r : Outside (send r).
Proof. intros w s. unfold send. by destruct (World.http _ _ _). Qed.
#[global] Instance outside_screen_query q : Outside (_screen_query limits q).
Proof. unfold _screen_query. apply _. Qed.
#[global] Instance outside_parse_cached values : Outside (parse_cached_items limits values).
Proof. unfold parse_cached_items, _screen. apply _. Qed.
#[global] Instance outside_parse_page body : Outside (_parse_page loads_raw limits body).
Proof.
  unfold _parse_page, _screen. apply outside_bind; [by destruct (_decode_registry_json _ _); apply _|]. intros v.
  apply outside_bind; [apply _|intros _]. apply outside_bind; [apply _|intros _].
  apply outside_bind; [apply _|]. intros [servers cursor]. apply _.
Qed.
#[global] Instance outside_fetch_page q c t : Outside (fetch_page limits q c t).
Proof.
  unfold fetch_page. apply outside_bind; [apply _|]. intros r. apply outside_bind; [apply _|intros _].
  apply outside_bind; [apply _|]. intros read. destruct (Response.ended_by r); apply _.
Qed.
#[global] Instance outside_search_pages n q items cursor seen t : Outside (search_pages loads_raw limits n q items cursor seen t).
Proof.
  revert items cursor seen t. induction n as [|n IH]; intros; cbn [search_pages]; [apply _|].
  apply outside_bind; [apply _|]. intros [body t']. apply outside_bind; [apply _|]. intros [page c].
  apply outside_bind; [apply _|intros _]. apply outside_bind; [apply _|intros _]. destruct c as [c|]; [|apply _].
  apply outside_bind; [apply _|intros _]. apply IH.
Qed.
#[global] Instance outside_search_screened q : Outside (_search_screened loads_raw limits q).
Proof. unfold _search_screened. apply _. Qed.
#[global] Instance outside_validate c : Outside (validate_cache limits c).
Proof.
  unfold validate_cache. apply outside_catch; [|by intros []; apply _]. apply outside_bind; [apply _|]. intros items.
  apply outside_bind; [apply _|]. intros now. destruct (negb _); [apply _|]. destruct (cache_intact c); apply _.
Qed.
#[global] Instance outside_require_fresh c : Outside (_require_fresh_cache limits c).
Proof. unfold _require_fresh_cache. apply _. Qed.
End outside.

Lemma ends_outside {A} (m : O A) w s (I : Operation.t → Prop) (Q : result failure_kind A → Operation.t → Prop) :
  Outside m → session_only I → I s → (∀ r s', I s' → Q r s') → ends m w s Q.
Proof. intros Hm HI Hs HQ. destruct (Hm w s) as [H1 H2]. apply HQ. by apply (HI s). Qed.

(** Transactional code that leaves the cache alone. *)
Class CacheApart {A} (m : M A) : Prop := cache_apart : ∀ env t a t', m env t = Ok (a, t') →
  registry_search_cache (work t') = registry_search_cache (work t)
  ∧ (registry_search_cache (flushed t') = registry_search_cache (flushed t)
     ∨ registry_search_cache (flushed t') = registry_search_cache (work t)).

Section apart.
#[global] Instance apart_ret {A} (a : A) : CacheApart (mret a).
Proof. intros env t x t' [= <- <-]. auto. Qed.
#[global] Instance apart_raise {A} e : CacheApart (raise e : M A).
Proof. done. Qed.
#[global] Instance apart_gets {A} (f : Session → A) : CacheApart (gets f).
Proof. intros env t x t' [= <- <-]. auto. Qed.
#[global] Instance apart_uuid4 : CacheApart uuid4.
Proof. intros env t x t' [= <- <-]. auto. Qed.
#[global] Instance apart_raise_if b e : CacheApart (raise_if b e).
Proof. unfold raise_if. destruct b; apply _. Qed.
#[global] Instance apart_bind {A B} (m : M A) (k : A → M B) : CacheApart m → (∀ a, CacheApart (k a)) → CacheApart (m ≫= k).
Proof.
  intros Hm Hk env t b t'. unfold mbind, M_bind. destruct (m env t) as [[a t1]|] eqn:E; [|done]. intros E'.
  destruct (Hm _ _ _ _ E) as [H1 H2]. destruct (Hk a _ _ _ _ E') as [H3 H4]. rewrite H3, H1. split; [done|].
  destruct H4 as [->| ->]; [done|]. rewrite H1. auto.
Qed.
#[global] Instance apart_flag b : CacheApart (flag_conflict b).
Proof. intros env t x t' [= <- <-]. auto. Qed.
#[global] Instance apart_identity f : CacheApart (put_identity f).
Proof. intros env t x t' [= <- <-]. auto. Qed.
#[global] Instance apart_flush : CacheApart flush.
Proof.
  intros env t x t'. unfold flush. destruct (conflict t); [done|]. destruct (listeners_accept _ _); cbn; [|done].
  destruct (schema_checks _); cbn; [|done]. intros [= <- <-]. cbn. auto.
Qed.
#[global] Instance apart_try_flush : CacheApart try_flush.
Proof.
  intros env t x t'. unfold try_flush. destruct (flush env t) as [[[] t1]|e] eqn:E.
  - intros [= <- <-]. by eapply apart_flush.
  - destruct e; try done. intros [= <- <-]. auto.
Qed.
#[global] Instance apart_role context roles b : CacheApart (require_current_role context roles b).
Proof.
  unfold require_current_role, require_role, select_workspace, select_membership, populate_membership.
  apply apart_bind; [apply _|intros _]. apply apart_bind; [destruct b; apply _|intros _].
  apply apart_bind; [apply _|]. intros [m|]; apply _.
Qed.
#[global] Instance apart_audit context a r i c : CacheApart (audit context a r i c).
Proof. unfold audit, add_audit_event. apply apart_bind; [destruct c; apply _|]. intros x. apply _. Qed.
#[global] Instance apart_entry e : CacheApart (add_entry e).
Proof. unfold add_entry. apply apart_bind; [apply _|]. intros [] env t x t' [= <- <-]. auto. Qed.
#[global] Instance apart_entry_version v : CacheApart (add_entry_version v).
Proof. unfold add_entry_version. apply apart_bind; [apply _|]. intros [] env t x t' [= <- <-]. auto. Qed.
#[global] Instance apart_update_entry i f : CacheApart (update_entry i f).
Proof. intros env t x t' [= <- <-]. auto. Qed.
End apart.

(** ** The bounds of the cache *)

Section bounds.
Context `{Externals} `{Urls} (loads_raw : bytes → option Json.t) (limits : OfficialRegistryLimits.t).
Implicit Types (w : World.t) (s : Operation.t) (d : Db.t) (c : RegistrySearchCache.t).

(** Every workspace has no more rows and bytes than it may. *)
Definition within (d : Db.t) : Prop :=
  (∀ id c, registry_search_cache d !! id = Some c → 0 ≤ RegistrySearchCache.byte_count c)
  ∧ ∀ workspace_id,
      len (workspace_rows workspace_id d) ≤ OfficialRegistryLimits.max_workspace_cache_rows limits
      ∧ cache_bytes (workspace_rows workspace_id d) ≤ OfficialRegistryLimits.max_workspace_cache_bytes limits.

Lemma cache_bytes_submseteq l l' :
  l ⊆+ l' → (∀ kr, kr ∈ l' → 0 ≤ RegistrySearchCache.byte_count kr.2) → cache_bytes l ≤ cache_bytes l'.
Proof.
  unfold cache_bytes. induction 1 as [|x l l' Hl IH|x y l|x l l' Hl IH|l1 l2 l3 H1 IH1 H2 IH2]; cbn; intros Hp.
  - done.
  - assert (∀ kr, kr ∈ l' → 0 ≤ RegistrySearchCache.byte_count kr.2) as Hp' by (intros; apply Hp; by right).
    specialize (IH Hp'). lia.
  - lia.
  - assert (∀ kr, kr ∈ l' → 0 ≤ RegistrySearchCache.byte_count kr.2) as Hp' by (intros; apply Hp; by right).
    specialize (IH Hp'). specialize (Hp x (list_elem_of_here _ _)). lia.
  - etrans; [apply IH1|by apply IH2]. intros kr Hkr. apply Hp. by eapply elem_of_submseteq.
Qed.

Lemma workspace_rows_submseteq ws d d' :
  registry_search_cache d' ⊆ registry_search_cache d → workspace_rows ws d' ⊆+ workspace_rows ws d.
Proof.
  intros Hs. unfold workspace_rows, where_rows. apply (map_to_list_submseteq _ _) in Hs.
  induction Hs as [|x l l' Hl IH|x y l|x l l' Hl IH|l1 l2 l3 H1 IH1 H2 IH2]; [done|..].
  - rewrite !filter_cons. by destruct (decide _); [apply submseteq_skip|].
  - rewrite !filter_cons. destruct (decide _), (decide _); try done. apply submseteq_swap.
  - rewrite filter_cons. by destruct (decide _); [apply submseteq_cons|].
  - by etrans.
Qed.

Lemma workspace_rows_In ws d kr : kr ∈ workspace_rows ws d → registry_search_cache d !! kr.1 = Some kr.2.
Proof. intros [_ Hkr]%list_elem_of_filter. destruct kr. by apply elem_of_map_to_list in Hkr. Qed.

Lemma within_subseteq d d' :
  within d → registry_search_cache d' ⊆ registry_search_cache d → within d'.
Proof.
  intros [Hp Hb] Hs. split.
  - intros id c Hc. eapply Hp. by eapply lookup_weaken.
  - intros ws. pose proof (workspace_rows_submseteq ws d d' Hs) as Hr. destruct (Hb ws) as [H1 H2]. split.
    + unfold len in *. apply submseteq_length in Hr. lia.
    + etrans; [|exact H2]. apply cache_bytes_submseteq; [done|]. intros kr Hkr%workspace_rows_In. by eapply Hp.
Qed.

Lemma within_set d f : within d → f (registry_search_cache d) ⊆ registry_search_cache d → within (set_cache f d).
Proof. intros Hd Hf. by eapply within_subseteq. Qed.

Lemma within_insert d id c :
  within d → registry_search_cache d !! id = None → 0 ≤ RegistrySearchCache.byte_count c →
  len (workspace_rows (RegistrySearchCache.workspace_id c) d) < OfficialRegistryLimits.max_workspace_cache_rows limits →
  cache_bytes (workspace_rows (RegistrySearchCache.workspace_id c) d) + RegistrySearchCache.byte_count c
    ≤ OfficialRegistryLimits.max_workspace_cache_bytes limits →
  within (set_cache (<[id := c]>) d).
Proof.
  intros [Hp Hb] Hn Hc Hr Hy. split.
  - intros id' c'. change (registry_search_cache (set_cache (<[id:=c]>) d)) with (<[id:=c]> (registry_search_cache d)).
    intros [(_ & <-)|(_ & Hc')]%lookup_insert_Some; [done|by eapply Hp].
  - intros ws. destruct (Hb ws) as [H1 H2].
    assert (workspace_rows ws (set_cache (<[id:=c]>) d) ≡ₚ
      (if eqv (RegistrySearchCache.workspace_id c) ws then [(id, c)] else []) ++ workspace_rows ws d) as Hperm.
    { unfold workspace_rows, where_rows. change (registry_search_cache (set_cache _ d)) with (<[id:=c]> (registry_search_cache d)).
      rewrite map_to_list_insert by done. rewrite filter_cons. cbn. destruct (eqv _ ws); [by rewrite decide_True|by rewrite decide_False]. }
    split.
    + unfold len in *. rewrite Hperm. destruct (eqv _ ws) eqn:Hws; cbn; [apply eqv_eq in Hws as <-|]; cbn; lia.
    + assert (∀ l l', l ≡ₚ l' → cache_bytes l = cache_bytes l') as Hcb.
      { unfold cache_bytes. induction 1; cbn; lia. }
      rewrite (Hcb _ _ Hperm). destruct (eqv _ ws) eqn:Hws; [apply eqv_eq in Hws as <-; unfold cache_bytes in *; cbn; lia|done].
Qed.

(** The cache of the database and of its objects agree, and are within bounds. *)
Definition settled (s : Operation.t) : Prop :=
  registry_search_cache (flushed (Operation.session s)) = registry_search_cache (work (Operation.session s))
  ∧ within (work (Operation.session s)) ∧ within (Operation.committed s).

Lemma settled_session : session_only settled.
Proof. intros s s' H1 H2. unfold settled. by rewrite H1, H2. Qed.

Lemma within_cache d d' : registry_search_cache d' = registry_search_cache d → within d → within d'.
Proof. intros He Hd. eapply within_subseteq; [exact Hd|]. by rewrite He. Qed.

Lemma ends_apart {A} (m : M A) w s (Q : result failure_kind A → Operation.t → Prop) :
  CacheApart m → settled s → (∀ a s', settled s' → Q (Ok a) s') → (∀ e s', settled s' → Q (Err e) s') → ends (database m) w s Q.
Proof.
  intros Hm Hs HQ HE. unfold ends, database. destruct (m _ _) as [[a session]|e] eqn:E; [|by apply HE].
  apply HQ. destruct (Hm _ _ _ _ E) as [H1 H2]. destruct Hs as (Hf & Hw & Hc). split_and!; cbn.
  - destruct H2 as [->| ->]; by rewrite H1.
  - by eapply within_cache.
  - done.
Qed.

(** Any outcome keeps the cache settled. *)
Definition keeps {A} (m : O A) : Prop := ∀ w s, (∀ d, within d → within (World.others w d)) → settled s →
  ends m w s (λ _, settled).

Lemma keeps_then {A B} (m : O A) (k : A → O B) : keeps m → (∀ a, keeps (k a)) → keeps (m ≫= k).
Proof.
  intros Hm Hk w s Ho Hs. apply ends_bind. eapply ends_mono; [by apply Hm|]. cbn. intros [a|e] s' Hs'; [by apply Hk|done].
Qed.
Lemma keeps_outside {A} (m : O A) : Outside m → keeps m.
Proof. intros Hm w s _ Hs. eapply ends_outside; [done|apply settled_session|done|]. by intros r s'. Qed.
Lemma keeps_apart {A} (m : M A) : CacheApart m → keeps (database m).
Proof. intros Hm w s _ Hs. by apply ends_apart. Qed.
Lemma keeps_catch {A} (m : O A) h : keeps m → (∀ e, keeps (h e)) → keeps (catch m h).
Proof.
  intros Hm Hk w s Ho Hs. apply ends_catch. eapply ends_mono; [by apply Hm|]. cbn. intros [a|e] s' Hs'; [done|by apply Hk].
Qed.
Lemma keeps_with_timeout {A} (m : O A) : keeps m → keeps (with_timeout m).
Proof. intros Hm. apply keeps_catch; [done|]. intros []; apply keeps_outside, _. Qed.

Lemma keeps_lock context : keeps (lock_workspace context).
Proof.
  intros w s Ho (Hf & Hw & Hc). refine (ends_apart _ w _ (λ _, settled) _ _ _ _); [|done|done].
  split_and!; cbn; [done|by apply Ho..].
Qed.

(** A reading before a statement. *)
Lemma keeps_reading {A B} (m : M A) (k : A → M B) :
  (∀ env t a t', m env t = Ok (a, t') → t' = t) → (∀ a, keeps (database (k a))) → keeps (database (m ≫= k)).
Proof.
  intros Hm Hk w s Ho Hs. unfold ends, database. cbn [mbind]. unfold mbind, M_bind.
  destruct (m _ _) as [[a t]|e] eqn:E; [|done]. apply Hm in E as ->. exact (Hk a w s Ho Hs).
Qed.

(** A statement that removes rows from both views. *)
Lemma keeps_delete P : keeps (database (delete_cache_where P)).
Proof.
  intros w s Ho (Hf & Hw & Hc). unfold ends, database. cbn. split_and!; cbn; [|apply within_set; [done|]|done].
  - change (filter (λ kr, P kr.2 = false) (registry_search_cache (flushed (Operation.session s)))
            = filter (λ kr, P kr.2 = false) (registry_search_cache (work (Operation.session s)))). by rewrite Hf.
  - apply map_filter_subseteq.
Qed.

(** A failure only has to leave the committed database within bounds. *)
Definition within_after {A} (r : result failure_kind A) (s : Operation.t) : Prop :=
  match r with Ok _ => settled s | Err _ => within (Operation.committed s) end.
Definition bounds {A} (m : O A) : Prop := ∀ w s, (∀ d, within d → within (World.others w d)) → settled s →
  ends m w s within_after.

Lemma bounds_keeps {A} (m : O A) : keeps m → bounds m.
Proof.
  intros Hm w s Ho Hs. eapply ends_mono; [by apply Hm|]. cbn. intros [a|e] s' Hs'; [done|apply Hs'].
Qed.
Lemma bounds_bind {A B} (m : O A) (k : A → O B) : bounds m → (∀ a, bounds (k a)) → bounds (m ≫= k).
Proof.
  intros Hm Hk w s Ho Hs. apply ends_bind. eapply ends_mono; [by apply Hm|]. cbn. intros [a|e] s' Hs'; [by apply Hk|done].
Qed.
Lemma bounds_with_timeout {A} (m : O A) : bounds m → bounds (with_timeout m).
Proof.
  intros Hm w s Ho Hs. apply ends_with_timeout. eapply ends_mono; [by apply Hm|]. cbn. by intros [a|e] s' Hs'.
Qed.

Lemma bounds_purge context c : bounds (_purge_rejected_cache context c).
Proof.
  intros w s Ho (Hf & Hw & Hc). unfold _purge_rejected_cache. apply ends_bind. cbn. unfold ends, database.
  cbn -[flush]. unfold mbind, M_bind. cbn -[flush].
  set (t := (_ <| work := _ |>)). destruct (flush _ t) as [x|e] eqn:Hx; [|exact Hc].
  apply flush_ok in Hx as [-> _]. cbn. split_and!; cbn; [done| |done].
  apply within_set; [done|]. apply delete_subseteq.
Qed.

Lemma ends_gets {A} (f : Session → A) w s (Q : result failure_kind A → Operation.t → Prop) :
  Q (Ok (f (Operation.session s))) s → ends (database (gets f)) w s Q.
Proof. intros HQ. unfold ends. cbn. replace (s <| Operation.session := Operation.session s |>) with s by (by destruct s). exact HQ. Qed.

(** A new row, for which there is room. *)
Lemma bounds_add_cache {A} c (r : A) w s :
  settled s → 0 ≤ RegistrySearchCache.byte_count c →
  len (workspace_rows (RegistrySearchCache.workspace_id c) (work (Operation.session s)))
    < OfficialRegistryLimits.max_workspace_cache_rows limits →
  cache_bytes (workspace_rows (RegistrySearchCache.workspace_id c) (work (Operation.session s))) + RegistrySearchCache.byte_count c
    ≤ OfficialRegistryLimits.max_workspace_cache_bytes limits →
  ends (database (add_cache c) ;; _flush_registry_payload ;; mret r) w s within_after.
Proof.
  intros (Hf & Hw & Hc) Hb Hr Hy. apply ends_bind. unfold ends at 1, database. cbn. apply ends_bind, ends_bind.
  unfold ends at 1, database, try_flush. cbn -[flush].
  match goal with |- context [flush _ ?t0] => set (t := t0) end.
  destruct (flush _ t) as [[[] t']|e] eqn:Hx.
  - apply flush_ok in Hx as [[= ->] Hcf]. split_and!; cbn; [done| |done].
    apply within_insert; try done. subst t. cbn in Hcf. apply orb_false_iff in Hcf as [_ Hcf].
    cbn. by destruct (registry_search_cache (work (Operation.session s)) !! _).
  - by destruct e.
Qed.

Lemma bounds_store context query_digest items results n fetched_at :
  0 ≤ n → bounds (store_results limits context query_digest items results n fetched_at).
Proof.
  intros Hn w s Ho Hs. unfold store_results. apply ends_bind, ends_gets. apply ends_bind, ends_fail_if; [|apply Hs].
  intros [Hr%Z.leb_gt Hy%Z.ltb_ge]%orb_false_iff. apply ends_bind, ends_checked; [|intros; apply Hs]. intros digest _.
  apply ends_bind. unfold ends at 1. cbn [database uuid4 fst snd]. cbv zeta.
  destruct Hs as (Hf & Hw & Hc).
  assert (∀ ws, workspace_rows ws (flushed (Operation.session s)) = workspace_rows ws (work (Operation.session s))) as Hws.
  { intros ws. unfold workspace_rows. by rewrite Hf. }
  rewrite Hws in Hr, Hy. by apply bounds_add_cache.
Qed.

Lemma json_children_canonical v b : _canonical_json v = Some b → 0 ≤ slen b.
Proof. intros _. unfold slen. lia. Qed.

Lemma bounds_read_cache context q now : bounds (_read_cache limits context q now).
Proof.
  apply bounds_keeps. unfold _read_cache. apply keeps_then; [apply keeps_apart, _|]. intros [c|]; [|apply keeps_outside, _].
  apply keeps_then; [apply keeps_outside, _|]. intros valid. apply keeps_outside. by destruct valid; apply _.
Qed.

Lemma bounds_search_origin context nq qd locked : bounds (search_origin loads_raw limits context nq qd locked).
Proof.
  unfold search_origin. apply bounds_bind; [apply bounds_keeps, keeps_outside, _|]. intros items.
  apply bounds_bind; [apply bounds_keeps, keeps_outside, _|]. intros results.
  apply bounds_bind; [apply bounds_keeps, keeps_outside, _|]. intros b.
  apply bounds_bind; [apply bounds_keeps, keeps_outside, _|intros _].
  apply bounds_bind; [destruct locked; [apply bounds_keeps, keeps_outside, _|apply bounds_keeps, keeps_lock]|intros _].
  apply bounds_bind; [apply bounds_keeps, keeps_outside, _|]. intros fetched_at.
  apply bounds_bind; [apply bounds_keeps, keeps_delete|intros _].
  apply bounds_bind; [apply bounds_read_cache|]. intros [[result|] rejected]; [apply bounds_keeps, keeps_outside, _|].
  apply bounds_bind; [destruct rejected; [apply bounds_purge|apply bounds_keeps, keeps_outside, _]|intros _].
  apply bounds_store. unfold slen. lia.
Qed.

Lemma bounds_search context query : bounds (service_search loads_raw limits context query).
Proof.
  unfold service_search. apply bounds_with_timeout. apply bounds_bind; [apply bounds_keeps, keeps_apart, _|intros _].
  unfold _search_authorized. apply bounds_bind; [apply bounds_keeps, keeps_outside, _|]. intros nq.
  apply bounds_bind; [apply bounds_keeps, keeps_outside, _|]. intros now.
  apply bounds_bind; [apply bounds_read_cache|]. intros [[result|] [rejected|]]; try (apply bounds_keeps, keeps_outside, _);
    [|apply bounds_search_origin].
  apply bounds_bind; [apply bounds_keeps, keeps_lock|intros _]. apply bounds_bind; [apply bounds_keeps, keeps_outside, _|]. intros now'.
  apply bounds_bind; [apply bounds_read_cache|]. intros [[result|] rejected']; [apply bounds_keeps, keeps_outside, _|].
  apply bounds_bind; [destruct rejected'; [apply bounds_purge|apply bounds_keeps, keeps_outside, _]|intros _].
  apply bounds_search_origin.
Qed.

Lemma keeps_import_item context c item correlation : keeps (import_item limits context c item correlation).
Proof.
  unfold import_item, select_entry, select_version, latest_sequence. apply keeps_then; [apply keeps_apart, _|]. intros found.
  apply keeps_then; [destruct found; [apply keeps_outside, _|apply keeps_apart, _]|].
  intros entry. apply keeps_then; [apply keeps_apart, _|]. intros [v|].
  - apply keeps_then; [apply keeps_outside, _|intros; apply keeps_outside, _].
  - apply keeps_then; [destruct found; [apply keeps_then; [apply keeps_apart, _|intros; apply keeps_outside, _]|apply keeps_outside, _]|].
    intros sequence. apply keeps_then; [apply keeps_outside, _|intros _]. unfold add_import, _flush_registry_payload.
    apply keeps_then; [destruct (is_none found); [apply keeps_apart, _|apply keeps_outside, _]|intros _].
    repeat (apply keeps_then; [apply keeps_apart, _|intros ?]).
    apply keeps_then; [apply keeps_then; [apply keeps_apart, _|intros; apply keeps_outside, _]|intros _].
    apply keeps_then; [apply keeps_apart, _|intros; apply keeps_outside, _].
Qed.

Lemma bounds_catch {A} (m : O A) h : keeps m → (∀ e, bounds (h e)) → bounds (catch m h).
Proof.
  intros Hm Hk w s Ho Hs. apply ends_catch. eapply ends_mono; [by apply Hm|]. cbn. intros [a|e] s' Hs'; [done|by apply Hk].
Qed.

Lemma bounds_import context id digest correlation : bounds (import_cached limits context id digest correlation).
Proof.
  unfold import_cached, _import_cached_authorized. apply bounds_with_timeout.
  apply bounds_bind; [apply bounds_keeps, keeps_lock|intros _]. apply bounds_bind; [apply bounds_keeps, keeps_outside, _|intros _].
  apply bounds_bind; [apply bounds_keeps, keeps_outside, _|]. intros now. apply bounds_bind; [apply bounds_keeps, keeps_delete|intros _].
  apply bounds_bind; [apply bounds_keeps, keeps_apart, _|]. intros [c|]; [|apply bounds_keeps, keeps_outside, _].
  apply bounds_bind; [apply bounds_keeps, keeps_outside, _|]. intros intact.
  apply bounds_bind; [apply bounds_keeps, keeps_outside, _|intros _]. apply bounds_bind.
  - apply bounds_catch; [apply keeps_outside, _|]. intros e.
    destruct e; try (apply bounds_keeps, keeps_outside, _). apply bounds_bind; [apply bounds_purge|].
    intros _. apply bounds_keeps, keeps_outside, _.
  - intros items. apply bounds_bind; [apply bounds_keeps, keeps_outside, _|intros _].
    destruct (List.find _ items); [apply bounds_keeps, keeps_import_item|apply bounds_keeps, keeps_outside, _].
Qed.

Lemma run_callbacks_within callbacks cleanup n d : within d → within (run_callbacks callbacks cleanup n d).
Proof.
  revert n d. induction callbacks as [|[id ws] callbacks IH]; intros n d Hd; cbn; [done|]. apply IH.
  destruct (cleanup n); [|done]. apply within_set; [done|]. apply map_filter_subseteq.
Qed.

Lemma transaction_within {A} (m : O A) w d :
  bounds m → (∀ d, within d → within (World.others w d)) → within d → within (official_transaction m w d).2.
Proof.
  intros Hm Ho Hd. unfold official_transaction.
  assert (bounds (a ← m; database flush ;; mret a)) as Hb.
  { apply bounds_bind; [done|]. intros a. apply bounds_keeps, keeps_then; [apply keeps_apart, _|intros; apply keeps_outside, _]. }
  assert (settled (Operation.begin d)) as Hs by done. specialize (Hb w _ Ho Hs). unfold ends in Hb.
  destruct ((a ← m; database flush ;; mret a) w (Operation.begin d)) as [[a|e] s]; cbn in *; [apply Hb|].
  by apply run_callbacks_within.
Qed.
End bounds.

(** Everything that writes the cache. *)
Inductive catalog_operation :=
| Search (context : WorkspaceContext.t) (query : string)
| Import (context : WorkspaceContext.t) (cache_id : uuid) (provenance_digest : string) (correlation_id : option uuid)
| PurgeExpired (now : Datetime.t) (batch_size : Z).

Section catalog.
Context `{Externals} `{Urls} (loads_raw : bytes → option Json.t) (limits : OfficialRegistryLimits.t).

Definition perform_catalog (o : catalog_operation) : O () :=
  match o with
  | Search context query => service_search loads_raw limits context query ;; mret ()
  | Import context id digest correlation => import_cached limits context id digest correlation ;; mret ()
  | PurgeExpired now n => database (purge_expired_registry_cache now n)
  end.

(** The databases that operations lead to, interleaved with one another. *)
Inductive catalog_history : Db.t → Db.t → Prop :=
| history_start d : catalog_history d d
| history_next d d' o w : catalog_history d d' →
    (∀ d, catalog_history d (World.others w d)) → catalog_history d (official_transaction (perform_catalog o) w d').2
| history_other d d' d'' : catalog_history d d' → registry_search_cache d'' = registry_search_cache d' → catalog_history d d''.
End catalog.

(** C24. The cache of registry searches stays within its bounds.  From a database in
    which every workspace has at most the rows and bytes it may, no sequence of
    searches, imports and cleanups leads out of the bounds, whatever the origin and
    the scanners answer, wherever operations fail, and whatever other operations
    commit while one waits for the origin or the workspace lock. *)
Theorem cache_stays_within_bounds `{Externals} `{Urls} loads_raw limits d d' :
  catalog_history loads_raw limits d d' → within limits d → within limits d'.
Proof.
  induction 1 as [d|d d' o w _ IH _ Ho|d d' d'' _ IH He]; intros Hd; [done| |by eapply within_cache; [|apply IH]].
  apply transaction_within; [|exact Ho|by apply IH]. destruct o; cbn.
  - apply bounds_bind; [apply bounds_search|intros; apply bounds_keeps, keeps_outside, _].
  - apply bounds_bind; [apply bounds_import|intros; apply bounds_keeps, keeps_outside, _].
  - apply bounds_keeps. unfold purge_expired_registry_cache.
    apply keeps_reading; [intros env t a t'; unfold raise_if; destruct (Datetime.naive now); by intros [= <-]|intros _].
    apply keeps_reading; [intros env t a t'; unfold raise_if; destruct (_ || _); by intros [= <-]|intros _].
    apply keeps_reading; [by intros env t a t' [= _ <-]|intros ids]. apply keeps_delete.
Qed.
