(* ===== verification/CatalogSafety.v ===== *)
(** What a registry search returns, and what an import records: items of documents
    that passed the screening, under the digest of their own metadata. *)
From S2P Require Import Prelude Types Json PyStr Secrets Store Session Registry Identity Screening Endpoint Admission Scenario RegistryScenario.
From S2P Require Import Matcher Effects Client Official Catalog CatalogSpec.
From stdpp Require Import strings.
Local Open Scope Z_scope.

(** ** Results *)

(** What a successful operation returns. *)
Definition gives {A} (m : O A) (P : A → Prop) : Prop := ∀ w s a s', m w s = (Ok a, s') → P a.

Section gives.
Lemma gives_ret {A} (a : A) (P : A → Prop) : P a → gives (mret a) P.
Proof. by intros HP w s b s' [= <- _]. Qed.
Lemma gives_bind {A B} (m : O A) (k : A → O B) P Q : gives m P → (∀ a, P a → gives (k a) Q) → gives (m ≫= k) Q.
Proof.
  intros Hm Hk w s b s'. unfold mbind, O_bind. destruct (m w s) as [[a|e] s1] eqn:E; [|done].
  intros E'. eapply Hk; [by eapply Hm|done].
Qed.
Lemma gives_true {A} (m : O A) : gives m (λ _, True).
Proof. done. Qed.
Lemma gives_fail_if b code : gives (fail_if b code) (λ _, b = false).
Proof. intros w s a s'. by destruct b. Qed.
Lemma gives_checked {A} (r : result OfficialRegistryFailureCode.t A) : gives (checked r) (λ a, r = Ok a).
Proof. intros w s a s'. destruct r; [by intros [= <- _]|done]. Qed.
Lemma gives_throw {A} e (P : A → Prop) : gives (throw e) P.
Proof. done. Qed.
Lemma gives_catch {A} (m : O A) h P : gives m P → (∀ e, gives (h e) P) → gives (catch m h) P.
Proof.
  intros Hm Hk w s a s'. unfold catch. destruct (m w s) as [[b|e] s1] eqn:E; [intros [= <- _]; by eapply Hm|].
  intros E'. by eapply Hk.
Qed.
Lemma gives_with_timeout {A} (m : O A) P : gives m P → gives (with_timeout m) P.
Proof. intros Hm. apply gives_catch; [done|]. by intros []. Qed.
Lemma gives_mono {A} (m : O A) (P Q : A → Prop) : gives m P → (∀ a, P a → Q a) → gives m Q.
Proof. intros Hm HPQ w s a s' E. eapply HPQ, Hm, E. Qed.
End gives.

Section items.
Context `{Externals} `{Urls} (loads_raw : bytes → option Json.t) (limits : OfficialRegistryLimits.t).
Implicit Types (item : OfficialRegistryItem.t) (items : list OfficialRegistryItem.t).

(** The documents whose [servers] or elements are items. *)
Definition lists_values (document : Json.t) (values : list Json.t) : Prop :=
  document = Json.List values
  ∨ ∃ members, document = Json.Dict members ∧ json_lookup "servers" members = Some (Json.List values).

(** An item that was screened: its document is bounded and no scanner objects to it. *)
Definition screened item : Prop :=
  ∃ document values value, lists_values document values ∧ value ∈ values ∧ normalize_item value = Ok item
    ∧ _is_bounded_json document = true ∧ _default_metadata_scanner document = Some false.

Lemma normalize_from_ok identities values items :
  normalize_from identities values = Ok items →
  Forall2 (λ value item, normalize_item value = Ok item) values items
  ∧ NoDup (OfficialRegistryItem.identity <$> items)
  ∧ ∀ i, i ∈ OfficialRegistryItem.identity <$> items → i ∉ identities.
Proof.
  revert identities items. induction values as [|value values IH]; intros identities items; cbn.
  - intros [= <-]. split_and!; [constructor|constructor|]. by intros i ?%elem_of_nil.
  - intros (item & Hi & Hr)%result_bind_ok. destruct (bool_decide _) eqn:Hd; [done|]. apply bool_decide_eq_false in Hd.
    apply result_bind_ok in Hr as (rest & Hrest & [= <-]). destruct (IH _ _ Hrest) as (H1 & H2 & H3). split_and!.
    + by constructor.
    + cbn. constructor; [|done]. intros Hin. by apply (H3 _ Hin), list_elem_of_here.
    + cbn. intros i [->|Hin]%elem_of_cons; [done|]. intros Hin'. apply (H3 i Hin). by right.
Qed.

Lemma gives_run_scanner v code : gives (_run_scanner v code) (λ found, _default_metadata_scanner v = Some found).
Proof.
  intros w s a s'. unfold _run_scanner. destruct (World.scan _ _); try done.
  destruct (_default_metadata_scanner v); [by intros [= <- _]|done].
Qed.
Lemma gives_screen v : gives (_screen v) (λ _, _default_metadata_scanner v = Some false).
Proof.
  eapply gives_bind; [apply gives_run_scanner|]. intros found Hf. eapply gives_mono; [apply gives_fail_if|].
  cbn. intros _ ->. exact Hf.
Qed.

(** Items from one document. *)
Definition from_document items : Prop := Forall screened items ∧ NoDup (OfficialRegistryItem.identity <$> items).

Lemma from_values document values items :
  lists_values document values → _normalize_items values = Ok items → _is_bounded_json document = true →
  _default_metadata_scanner document = Some false → from_document items ∧ len items = len values.
Proof.
  intros Hv Hi Hb Hs. destruct (normalize_from_ok _ _ _ Hi) as (H1 & H2 & _). split; [split; [|done]|].
  - apply Forall_forall. intros item [k Hk]%list_elem_of_lookup. destruct (Forall2_lookup_r _ _ _ _ _ H1 Hk) as (value & Hval & Hn).
    exists document, values, value. split_and!; try done. by eapply list_elem_of_lookup_2.
  - unfold len. by rewrite (Forall2_length _ _ _ H1).
Qed.

Lemma gives_parse_cached values :
  gives (parse_cached_items limits values) (λ items, from_document items ∧ len items ≤ OfficialRegistryLimits.max_items limits).
Proof.
  eapply gives_bind; [apply gives_fail_if|]. intros _ Hl%Z.ltb_ge. eapply gives_bind; [apply gives_fail_if|].
  intros _ Hb%negb_false_iff. eapply gives_bind; [apply gives_screen|]. intros [] Hs. cbn in Hs.
  eapply gives_mono; [apply gives_checked|]. intros items Hi.
  destruct (from_values (Json.List values) values items) as [H1 H2]; [by left|done..|]. split; [done|lia].
Qed.

Lemma page_parts_lists payload servers cursor : page_parts limits payload = Ok (servers, cursor) → lists_values payload servers.
Proof.
  unfold page_parts. destruct payload as [| | | | | |members|]; try done. destruct (negb _); [done|].
  destruct (json_lookup "servers" members) as [[| | | | |l| |]|] eqn:Hl; try done.
  destruct (json_lookup "metadata" members) as [[| | | | | |metadata|]|]; try done.
  destruct (json_lookup "count" metadata) as [[]|]; try done. destruct (negb _); [done|].
  intros (c & _ & [= <- _])%result_bind_ok. right. eauto.
Qed.

Lemma gives_parse_page body : gives (_parse_page loads_raw limits body) (λ p, from_document p.1).
Proof.
  eapply gives_bind; [apply gives_true|]. intros payload _. eapply gives_bind; [apply gives_fail_if|]. intros _ Hb%negb_false_iff.
  eapply gives_bind; [apply gives_screen|]. intros [] Hs. cbn in Hs. eapply gives_bind; [apply gives_checked|].
  intros [servers cursor] Hp. eapply gives_bind; [apply gives_checked|]. intros items Hi. apply gives_ret. cbn.
  eapply from_values; [by eapply page_parts_lists|done..].
Qed.

Lemma gives_search_pages n q items cursor seen total :
  from_document items →
  gives (search_pages loads_raw limits n q items cursor seen total)
    (λ items, from_document items ∧ len items ≤ OfficialRegistryLimits.max_items limits).
Proof.
  revert items cursor seen total. induction n as [|n IH]; intros items cursor seen total Hitems; cbn [search_pages]; [done|].
  eapply gives_bind; [apply gives_true|]. intros [body total'] _. eapply gives_bind; [apply gives_parse_page|].
  intros [page cursor'] [Hp1 Hp2]. eapply gives_bind; [apply gives_fail_if|]. intros _ Hl%Z.ltb_ge.
  eapply gives_bind; [apply gives_fail_if|]. intros [] Hd. cbn in Hd. destruct Hitems as [Hi1 Hi2].
  assert (from_document (items ++ page)) as Happ.
  { split; [by apply Forall_app|]. rewrite fmap_app. apply NoDup_app. split_and!; [done| |done].
    intros i Hi (item & -> & Hin)%list_elem_of_fmap. rewrite <- not_true_iff_false in Hd. apply Hd.
    apply existsb_exists. exists item. split; [by apply list_elem_of_In|by apply bool_decide_eq_true]. }
  destruct cursor' as [c|].
  - eapply gives_bind; [apply gives_true|]. intros _ _. by apply IH.
  - apply gives_ret. split; [done|]. unfold len in *. rewrite length_app. lia.
Qed.

Lemma gives_search_screened q :
  gives (_search_screened loads_raw limits q) (λ items, from_document items ∧ len items ≤ OfficialRegistryLimits.max_items limits).
Proof. apply gives_with_timeout, gives_search_pages. split; constructor. Qed.

Definition good_result (r : SearchResult.t) : Prop :=
  from_document (SearchResult.items r) ∧ len (SearchResult.items r) ≤ OfficialRegistryLimits.max_items limits.

Lemma gives_read_cache context q now :
  gives (_read_cache limits context q now) (λ p, match p.1 with Some r => good_result r | None => True end).
Proof.
  eapply gives_bind; [apply gives_true|]. intros [c|] _; [|by apply gives_ret].
  eapply (gives_bind _ _ (λ o, match o with Some items => from_document items ∧ len items ≤ OfficialRegistryLimits.max_items limits | None => True end)).
  - apply gives_catch; [|by intros []; apply gives_ret || done]. eapply gives_bind; [apply gives_parse_cached|]. intros items Hi.
    eapply gives_bind; [apply gives_true|]. intros now' _. destruct (negb _); [by apply gives_ret|].
    destruct (cache_intact c) as [intact|]; [|done]. apply gives_ret. by destruct (intact && _).
  - intros [items|] Hi; by apply gives_ret.
Qed.

Lemma gives_search_origin context nq qd locked : gives (search_origin loads_raw limits context nq qd locked) good_result.
Proof.
  eapply gives_bind; [apply gives_search_screened|]. intros items Hi. do 5 (eapply gives_bind; [apply gives_true|]; intros ? _).
  eapply gives_bind; [apply gives_true|]. intros ? _.
  eapply gives_bind; [apply gives_read_cache|]. intros [[r|] rejected] Hr; [by apply gives_ret|].
  eapply gives_bind; [apply gives_true|]. intros _ _. unfold store_results. do 6 (eapply gives_bind; [apply gives_true|]; intros ? _).
  by apply gives_ret.
Qed.
Lemma gives_service_search context query : gives (service_search loads_raw limits context query) good_result.
Proof.
  apply gives_with_timeout. eapply gives_bind; [apply gives_true|]. intros _ _. unfold _search_authorized.
  eapply gives_bind; [apply gives_true|]. intros nq _. eapply gives_bind; [apply gives_true|]. intros now _.
  eapply gives_bind; [apply gives_read_cache|]. intros [[r|] [rejected|]] Hr; try (by apply gives_ret); [|apply gives_search_origin].
  do 2 (eapply gives_bind; [apply gives_true|]; intros ? _).
  eapply gives_bind; [apply gives_read_cache|]. intros [[r|] rejected'] Hr'; [by apply gives_ret|].
  eapply gives_bind; [apply gives_true|]. intros _ _. apply gives_search_origin.
Qed.

(** ** Imports *)

Lemma obind_ok {A B} (m : O A) (k : A → O B) w s b s' :
  (m ≫= k) w s = (Ok b, s') → ∃ a s1, m w s = (Ok a, s1) ∧ k a w s1 = (Ok b, s').
Proof. unfold mbind, O_bind. destruct (m w s) as [[a|e] s1]; [eauto|done]. Qed.

Lemma database_ok {A} (m : M A) w s a s' :
  database m w s = (Ok a, s') →
  ∃ t, m (World.database w) (Operation.session s) = Ok (a, t) ∧ s' = s <| Operation.session := t |>.
Proof. unfold database. destruct (m _ _) as [[b t]|]; [|done]. intros [= <- <-]. eauto. Qed.

(** Tables of the catalog and the audit log, as the session sees them. *)
Definition catalog_is (d : Db.t) (t : Session) : Prop :=
  registry_entries (flushed t) = registry_entries d ∧ registry_entries (work t) = registry_entries d
  ∧ registry_entry_versions (flushed t) = registry_entry_versions d ∧ registry_entry_versions (work t) = registry_entry_versions d
  ∧ IdentityDb.audit_events (Db.identity (work t)) = IdentityDb.audit_events (Db.identity d).

Definition member_allowed (context : WorkspaceContext.t) (d : Db.t) : Prop :=
  ∃ m, IdentityDb.workspace_memberships (Db.identity d) !! (WorkspaceContext.workspace_id context, WorkspaceContext.actor_user_id context) = Some m
  ∧ WorkspaceMembership.role m ∈ [Role.ADMIN; Role.OPERATOR].

Lemma lock_ok context w s s' :
  lock_workspace context w s = (Ok (), s') →
  let d := World.others w (Operation.committed s) in
  catalog_is d (Operation.session s') ∧ member_allowed context d
  ∧ registry_search_cache (flushed (Operation.session s')) = registry_search_cache d.
Proof.
  unfold lock_workspace. intros (t & Ht & ->)%database_ok. cbn in Ht |- *. apply bind_ok in Ht as (m & t1 & Ht & [= ->]).
  unfold require_current_role, require_role in Ht. apply bind_ok in Ht as (? & t2 & H1 & Ht).
  apply raise_if_ok in H1 as [_ ->].
  apply bind_ok in Ht as (? & t3 & H3 & Ht). apply bind_ok in H3 as (ws & t4 & [= <- <-] & H3).
  apply raise_if_ok in H3 as [_ ->].
  apply bind_ok in Ht as (mem & t5 & [= <- <-] & Ht). unfold flushed_identity in Ht. cbn in Ht.
  destruct (_ !! _) as [mem|] eqn:Hm; [|done]. apply bind_ok in Ht as (? & t6 & [= <- <-] & Ht).
  apply bind_ok in Ht as (? & t7 & H7 & [= <- <-]). apply raise_if_ok in H7 as [Hr%negb_false_iff%bool_decide_eq_true ->].
  split; [by split_and!|]. split; [by exists mem|done].
Qed.

Lemma outside_ok {A} (m : O A) w s a s' :
  Outside m → m w s = (Ok a, s') → Operation.session s' = Operation.session s ∧ Operation.committed s' = Operation.committed s.
Proof. intros Hm E. pose proof (Hm w s) as Ho. by rewrite E in Ho. Qed.

Lemma max_or_zero_ge l x : x ∈ l → x ≤ max_or_zero l.
Proof. unfold max_or_zero. induction 1; cbn in *; lia. Qed.

Lemma head_where {R} (table : gmap uuid R) P k :
  fst <$> head (where_rows table P) = Some k → ∃ r, table !! k = Some r ∧ P r = true.
Proof.
  unfold where_rows. destruct (filter _ _) as [|[k' r] l] eqn:E; [done|]. intros [= <-]. exists r.
  assert ((k', r) ∈ filter (λ kr, P kr.2 = true) (map_to_list table)) as Hin by (rewrite E; by left).
  apply list_elem_of_filter in Hin as [HP Hin]. by apply elem_of_map_to_list in Hin.
Qed.

Lemma head_where_none {R} (table : gmap uuid R) P k r :
  fst <$> head (where_rows table P) = None → table !! k = Some r → P r = false.
Proof.
  unfold where_rows. intros Hn Hk. destruct (P r) eqn:HP; [|done]. exfalso.
  assert ((k, r) ∈ filter (λ kr, P kr.2 = true) (map_to_list table)) as Hin
    by (apply list_elem_of_filter; split; [done|by apply elem_of_map_to_list]).
  destruct (filter _ _); [by apply not_elem_of_nil in Hin|done].
Qed.

(** An import of an item as a version that is new. *)
Record imported context item (d d' : Db.t) (v : uuid) (ver : RegistryEntryVersion.t) : Prop := {
  im_fresh : registry_entry_versions d !! v = None;
  im_versions : registry_entry_versions d' = <[v := ver]> (registry_entry_versions d);
  im_workspace : RegistryEntryVersion.workspace_id ver = WorkspaceContext.workspace_id context;
  im_by : RegistryEntryVersion.imported_by_user_id ver = Some (WorkspaceContext.actor_user_id context);
  im_metadata : RegistryEntryVersion.normalized_metadata ver = Some (OfficialRegistryItem.normalized_metadata item);
  im_name : RegistryEntryVersion.name ver = OfficialRegistryItem.name item;
  im_sequence : ∀ k v', registry_entry_versions d !! k = Some v' →
    RegistryEntryVersion.registry_entry_id v' = RegistryEntryVersion.registry_entry_id ver →
    RegistryEntryVersion.sequence v' < RegistryEntryVersion.sequence ver;
  im_entry : ∃ e, registry_entries d' !! RegistryEntryVersion.registry_entry_id ver = Some e
    ∧ RegistryEntry.current_version_id e = Some v
    ∧ RegistryEntry.workspace_id e = WorkspaceContext.workspace_id context
    ∧ RegistryEntry.source e = RegistrySource.OFFICIAL
    ∧ RegistryEntry.external_id e = Some (OfficialRegistryItem.external_id item);
  im_others : ∀ k, k ≠ RegistryEntryVersion.registry_entry_id ver → registry_entries d' !! k = registry_entries d !! k;
  im_audit : ∃ event, IdentityDb.audit_events (Db.identity d') = IdentityDb.audit_events (Db.identity d) ++ [event]
    ∧ AuditEvent.action event = AuditAction.REGISTRY_ENTRY_IMPORTED
    ∧ AuditEvent.resource_id event = RegistryEntryVersion.registry_entry_id ver
    ∧ AuditEvent.actor_user_id event = WorkspaceContext.actor_user_id context }.

(** The version was there: nothing changes. *)
Definition known context item (d d' : Db.t) (v : uuid) (ver : RegistryEntryVersion.t) : Prop :=
  registry_entry_versions d !! v = Some ver ∧ registry_entry_versions d' = registry_entry_versions d
  ∧ registry_entries d' = registry_entries d ∧ IdentityDb.audit_events (Db.identity d') = IdentityDb.audit_events (Db.identity d)
  ∧ (∃ e, registry_entries d !! RegistryEntryVersion.registry_entry_id ver = Some e
       ∧ RegistryEntry.workspace_id e = WorkspaceContext.workspace_id context
       ∧ RegistryEntry.external_id e = Some (OfficialRegistryItem.external_id item)).

Lemma try_flush_ok env t b t' : try_flush env t = Ok (b, t') → b = true → t' = t <| flushed := work t |> ∧ conflict t = false.
Proof.
  unfold try_flush. destruct (flush env t) as [[[] t1]|e] eqn:E.
  - apply flush_ok in E as [[= ->] Hc]. by intros [= <- <-].
  - destruct e; try done. intros [= <- <-]. done.
Qed.

Lemma audit_ok context a r i c env t x t' :
  audit context a r i c env t = Ok (x, t') →
  Db.registry (work t') = Db.registry (work t) ∧ flushed t' = flushed t ∧ ∃ event,
    IdentityDb.audit_events (Db.identity (work t')) = IdentityDb.audit_events (Db.identity (work t)) ++ [event]
    ∧ AuditEvent.action event = a ∧ AuditEvent.resource_id event = i
    ∧ AuditEvent.actor_user_id event = WorkspaceContext.actor_user_id context.
Proof.
  unfold audit. intros (corr & t1 & H1 & H2)%bind_ok. apply bind_ok in H2 as (id & t2 & [= <- <-] & [= <- <-]).
  assert (work t1 = work t ∧ flushed t1 = flushed t) as [Hw Hf] by (destruct c; by injection H1 as _ <-).
  cbn. rewrite Hw, Hf. split; [done|]. split; [done|]. by eexists.
Qed.

(** What the writes of an import amount to. *)
Definition new_entry context item (entry_id : uuid) : RegistryEntry.t :=
  RegistryEntry.mk entry_id (WorkspaceContext.workspace_id context) RegistrySource.OFFICIAL
    (Some (OfficialRegistryItem.external_id item)) None.

Lemma imported_of context item (d d1 d' : Db.t) (v : uuid) (ver : RegistryEntryVersion.t) (entry_is_new : bool) :
  let entry_id := RegistryEntryVersion.registry_entry_id ver in
  registry_entries d1 = (if entry_is_new then <[entry_id := new_entry context item entry_id]> (registry_entries d) else registry_entries d) →
  registry_entry_versions d1 = registry_entry_versions d →
  IdentityDb.audit_events (Db.identity d1) = IdentityDb.audit_events (Db.identity d) →
  clashes (registry_entry_versions d1) v (λ v', eqv (RegistryEntryVersion.registry_entry_id v') entry_id
    && (RegistryEntryVersion.sequence v' =? RegistryEntryVersion.sequence ver)) = false →
  registry_entry_versions d' = <[v := ver]> (registry_entry_versions d1) →
  registry_entries d' = alter (λ e : RegistryEntry.t, e <| RegistryEntry.current_version_id := Some v |>) entry_id (registry_entries d1) →
  (∃ event, IdentityDb.audit_events (Db.identity d') = IdentityDb.audit_events (Db.identity d1) ++ [event]
    ∧ AuditEvent.action event = AuditAction.REGISTRY_ENTRY_IMPORTED ∧ AuditEvent.resource_id event = entry_id
    ∧ AuditEvent.actor_user_id event = WorkspaceContext.actor_user_id context) →
  (entry_is_new = false → ∃ e, registry_entries d !! entry_id = Some e
     ∧ RegistryEntry.workspace_id e = WorkspaceContext.workspace_id context ∧ RegistryEntry.source e = RegistrySource.OFFICIAL
     ∧ RegistryEntry.external_id e = Some (OfficialRegistryItem.external_id item)) →
  RegistryEntryVersion.workspace_id ver = WorkspaceContext.workspace_id context →
  RegistryEntryVersion.imported_by_user_id ver = Some (WorkspaceContext.actor_user_id context) →
  RegistryEntryVersion.normalized_metadata ver = Some (OfficialRegistryItem.normalized_metadata item) →
  RegistryEntryVersion.name ver = OfficialRegistryItem.name item →
  (∀ k v', registry_entry_versions d !! k = Some v' → RegistryEntryVersion.registry_entry_id v' = entry_id →
     RegistryEntryVersion.sequence v' < RegistryEntryVersion.sequence ver) →
  imported context item d d' v ver.
Proof.
  intros entry_id He Hv Ha Hc Hv' He' (event & Hev & Hact & Hres & Hby) Hentry Hws Hb Hm Hn Hs. constructor; try done.
  - unfold clashes in Hc. apply orb_false_iff in Hc as [Hc _]. rewrite Hv in Hc. by destruct (_ !! _).
  - by rewrite Hv', Hv.
  - rewrite He', He, lookup_alter. rewrite decide_True by done. destruct entry_is_new.
    + rewrite lookup_insert_eq. by eexists.
    + destruct (Hentry eq_refl) as (e & -> & ? & ? & ?). by eexists.
  - intros k Hk. rewrite He', He, lookup_alter_ne by done. destruct entry_is_new; [by rewrite lookup_insert_ne|done].
  - exists event. by rewrite Hev, Ha.
Qed.

(** The new version: from the lookups to the last flush. *)
Lemma add_import_ok context item entry_id entry_is_new sequence correlation w s v s' d :
  catalog_is d (Operation.session s) →
  (∀ k v', registry_entry_versions d !! k = Some v' → RegistryEntryVersion.registry_entry_id v' = entry_id →
     RegistryEntryVersion.sequence v' < sequence) →
  (entry_is_new = false → ∃ e, registry_entries d !! entry_id = Some e
     ∧ RegistryEntry.workspace_id e = WorkspaceContext.workspace_id context ∧ RegistryEntry.source e = RegistrySource.OFFICIAL
     ∧ RegistryEntry.external_id e = Some (OfficialRegistryItem.external_id item)) →
  add_import context item entry_id entry_is_new sequence correlation w s = (Ok v, s') →
  ∃ ver, imported context item d (work (Operation.session s')) v ver
    ∧ RegistryEntryVersion.provenance_digest ver = OfficialRegistryItem.provenance_digest item.
Proof.
  intros (Hef & Hew & Hvf & Hvw & Ha) Hseq Hentry. unfold add_import. set (e0 := RegistryEntry.mk _ _ _ _ _).
  intros (? & s1 & H1 & H2)%obind_ok.
  assert (registry_entries (work (Operation.session s1)) = (if entry_is_new then <[entry_id := e0]> (registry_entries d) else registry_entries d)
    ∧ registry_entry_versions (work (Operation.session s1)) = registry_entry_versions d
    ∧ IdentityDb.audit_events (Db.identity (work (Operation.session s1))) = IdentityDb.audit_events (Db.identity d)) as (He1 & Hv1 & Ha1).
  { destruct entry_is_new.
    - apply database_ok in H1 as (t & Ht & ->). injection Ht as _ <-. split_and!; [|exact Hvw|exact Ha].
      change (<[entry_id := e0]> (registry_entries (work (Operation.session s))) = <[entry_id := e0]> (registry_entries d)).
      by rewrite Hew.
    - injection H1 as _ <-. auto. }
  clear H1. apply obind_ok in H2 as (v' & s2 & H1 & H2). apply database_ok in H1 as (t & [= <- <-] & ->).
  set (v' := uuid4_source _ _) in *. set (ver := RegistryEntryVersion.mk _ _ _ _ _ _ _ _ _ _ _) in H2.
  apply obind_ok in H2 as (? & s3 & H1 & H2). apply database_ok in H1 as (t & Ht & ->). injection Ht as _ <-.
  apply obind_ok in H2 as (? & s4 & H1 & H2). unfold _flush_registry_payload in H1. apply obind_ok in H1 as (b & s5 & H1 & H3).
  apply database_ok in H1 as (t & Ht & ->). cbn in H3. destruct b; [|done]. injection H3 as _ <-.
  apply try_flush_ok in Ht as [-> Hc]; [|done]. cbn in Hc. apply orb_false_iff in Hc as [_ Hc].
  apply obind_ok in H2 as (? & s6 & H1 & [= <- <-]). apply database_ok in H1 as (t & Ht & ->).
  apply bind_ok in Ht as (? & t1 & Hup & Ht). injection Hup as _ <-. apply bind_ok in Ht as (? & t2 & Haud & Ht).
  apply audit_ok in Haud as (Hreg & _ & event & Haud & Hact & Hres & Hactor).
  apply flush_ok in Ht as [Ht _]. injection Ht as _ ->. cbn in Hreg, Haud. exists ver. split; [|done].
  match goal with |- imported _ _ _ ?d' _ _ => change d' with (work t2) end.
  apply (imported_of context item d (work (Operation.session s1)) (work t2) v' ver entry_is_new); try done.
  - unfold registry_entry_versions. by rewrite Hreg.
  - unfold registry_entries. by rewrite Hreg.
  - by exists event.
Qed.

Lemma gets_ok {A} (f : Session → A) w s a s' :
  database (gets f) w s = (Ok a, s') → a = f (Operation.session s) ∧ s' = s.
Proof. intros (t & [= <- <-] & ->)%database_ok. split; [done|]. by destruct s. Qed.

Lemma catalog_is_session d s s' : Operation.session s' = Operation.session s → catalog_is d (Operation.session s) → catalog_is d (Operation.session s').
Proof. by intros ->. Qed.

Definition entry_of context item (d : Db.t) (entry_id : uuid) : Prop :=
  ∃ e, registry_entries d !! entry_id = Some e
     ∧ RegistryEntry.workspace_id e = WorkspaceContext.workspace_id context ∧ RegistryEntry.source e = RegistrySource.OFFICIAL
     ∧ RegistryEntry.external_id e = Some (OfficialRegistryItem.external_id item).

(** The foreign key of the versions, and identifiers that are drawn fresh. *)
Definition versions_have_entries (d : Db.t) : Prop := ∀ k v, registry_entry_versions d !! k = Some v →
  is_Some (registry_entries d !! RegistryEntryVersion.registry_entry_id v).
Definition drawn_fresh w (d : Db.t) : Prop := ∀ n, registry_entries d !! uuid4_source (World.database w) n = None.

Lemma import_item_ok context c item correlation w s v s' d :
  versions_have_entries d → drawn_fresh w d →
  catalog_is d (Operation.session s) → import_item limits context c item correlation w s = (Ok v, s') →
  ∃ ver, RegistryEntryVersion.provenance_digest ver = OfficialRegistryItem.provenance_digest item
    ∧ (imported context item d (work (Operation.session s')) v ver ∨ known context item d (work (Operation.session s')) v ver).
Proof.
  intros Hfk Hfresh Hd. unfold import_item. intros (found & s1 & H1 & H2)%obind_ok. apply (gets_ok _ w) in H1 as [Hfound ->].
  pose proof Hd as (Hef & _). rewrite Hef in Hfound.
  apply obind_ok in H2 as (entry_id & s2 & H1 & H2).
  assert (catalog_is d (Operation.session s2) ∧ (found = None → registry_entries d !! entry_id = None)
    ∧ (is_none found = false → entry_of context item d entry_id)) as (Hd2 & Hnew & Hold).
  { destruct found as [k|].
    - injection H1 as <- <-. split_and!; [done|done|]. intros _. symmetry in Hfound. apply head_where in Hfound as (e & He & HP). breflect.
      exists e. by split_and!.
    - apply database_ok in H1 as (t & Ht & ->). injection Ht as <- <-. by split_and!. }
  clear H1. apply obind_ok in H2 as (existing & s3 & H1 & H2). apply (gets_ok _ w) in H1 as [-> ->].
  pose proof Hd2 as (_ & Hew2 & Hvf2 & Hvw2 & Ha2). rewrite Hvf2 in H2.
  destruct (fst <$> head (where_rows (registry_entry_versions d) _)) as [k|] eqn:Hk.
  - apply head_where in Hk as (ver & Hver & HP). apply andb_true_iff in HP as [HP1%eqv_eq HP2%eqv_eq].
    apply obind_ok in H2 as ([] & s4 & H1 & [= <- <-]). apply outside_ok in H1 as [Hs _]; [|apply _].
    exists ver. split; [done|]. right. rewrite Hs. split_and!; try done. rewrite HP1.
    destruct found as [k'|]; [destruct (Hold eq_refl) as (e & ? & ? & _ & ?); by exists e|].
    destruct (Hfk k ver Hver) as [e He]. rewrite HP1, Hnew in He; done.
  - clear Hk. apply obind_ok in H2 as (sequence & s4 & H1 & H2). apply obind_ok in H2 as ([] & s5 & H3 & H2).
    apply outside_ok in H3 as [Hs5 _]; [|apply _].
    assert (Operation.session s4 = Operation.session s2 ∧ ∀ k v', registry_entry_versions d !! k = Some v' →
      RegistryEntryVersion.registry_entry_id v' = entry_id → RegistryEntryVersion.sequence v' < sequence) as [Hs4 Hseq].
    { destruct found as [k'|].
      - apply obind_ok in H1 as (latest & s6 & H1 & [= <- <-]). apply (gets_ok _ w) in H1 as [-> ->]. split; [done|].
        intros k v' Hv' He. rewrite Hvf2. assert (∀ l x, x ∈ l → x < max_or_zero l + 1) as Hmax.
        { intros l x Hx%max_or_zero_ge. lia. }
        apply Hmax, list_elem_of_fmap. exists (k, v'). split; [done|]. apply list_elem_of_filter.
        split; [by apply eqv_true|by apply elem_of_map_to_list].
      - injection H1 as <- <-. split; [done|]. intros k v' Hv' He. destruct (Hfk k v' Hv') as [e Hee].
        rewrite He, Hnew in Hee; done. }
    apply (add_import_ok _ _ _ _ _ _ _ _ _ _ d) in H2 as (ver & Himp & Hdig); [by exists ver; auto| |exact Hseq|exact Hold].
    by rewrite Hs5, Hs4.
Qed.

Lemma catch_rethrown {A} (m : O A) h w s a s' :
  (∀ e s1, ∃ e' s2, h e w s1 = (Err e', s2)) → catch m h w s = (Ok a, s') → m w s = (Ok a, s').
Proof. intros Hh. unfold catch. destruct (m w s) as [[b|e] s1]; [done|]. destruct (Hh e s1) as (? & ? & ->). done. Qed.

Lemma require_fresh_ok c w s x s' :
  _require_fresh_cache limits c w s = (Ok x, s') →
  Operation.session s' = Operation.session s ∧ ∃ n, cache_fresh limits c (Datetime.utc (World.now w n)) = true.
Proof.
  intros E. split; [by apply outside_ok in E as [? _]; [|apply _]|]. apply obind_ok in E as (now & s1 & H1 & H2).
  unfold _utc_now in H1. destruct (Datetime.naive _); [done|]. injection H1 as <- _.
  unfold fail_if in H2. destruct (cache_fresh limits c _) eqn:Hf; [by eexists|done].
Qed.

Lemma normalized_digest value item :
  normalize_item value = Ok item →
  _digest (OfficialRegistryItem.normalized_metadata item) = Some (OfficialRegistryItem.provenance_digest item).
Proof.
  unfold normalize_item. destruct value as [| | | | | |members|]; try done.
  destruct (json_lookup _ _) as [[]|]; try done. do 7 (cbv zeta; intros (? & ? & Hr)%result_bind_ok; revert Hr).
  intros [= <-]. lazymatch goal with H : canonical (_digest ?v) = Ok ?x |- _ => change (_digest v = Some x); revert H end.
  unfold canonical. destruct (_digest _) as [dg|]; [by intros [= ->]|discriminate].
Qed.

Lemma parse_cached_ok values w s items s' :
  parse_cached_items limits values w s = (Ok items, s') →
  Operation.session s' = Operation.session s ∧ _default_metadata_scanner (Json.List values) = Some false
  ∧ Forall2 (λ value item, normalize_item value = Ok item) values items.
Proof.
  intros E. split; [by apply outside_ok in E as [? _]; [|apply _]|].
  assert (gives (parse_cached_items limits values) (λ items, _default_metadata_scanner (Json.List values) = Some false
    ∧ Forall2 (λ value item, normalize_item value = Ok item) values items)) as Hg; [|by eapply Hg].
  do 2 (eapply gives_bind; [apply gives_true|]; intros ? _). eapply gives_bind; [apply gives_screen|]. intros [] Hs. cbn in Hs.
  eapply gives_mono; [apply gives_checked|]. intros items' Hi. split; [done|]. exact (proj1 (normalize_from_ok _ _ _ Hi)).
Qed.

Lemma delete_cache_ok P w s x s' d :
  database (delete_cache_where P) w s = (Ok x, s') → catalog_is d (Operation.session s) →
  registry_search_cache (flushed (Operation.session s)) = registry_search_cache d →
  catalog_is d (Operation.session s')
  ∧ registry_search_cache (flushed (Operation.session s')) = filter (λ kr, P kr.2 = false) (registry_search_cache d).
Proof.
  intros (t & [= _ <-] & ->)%database_ok Hd Hc. split; [exact Hd|].
  change (filter (λ kr, P kr.2 = false) (registry_search_cache (flushed (Operation.session s)))
    = filter (λ kr, P kr.2 = false) (registry_search_cache d)). by rewrite Hc.
Qed.

(** What is known of the cache row and the item once an import has found them. *)
Definition pinned context (cache_id : uuid) (digest : string) w (d : Db.t) c item : Prop :=
  registry_search_cache d !! cache_id = Some c
  ∧ RegistrySearchCache.workspace_id c = WorkspaceContext.workspace_id context
  ∧ cache_intact c = Some true ∧ (∃ n, cache_fresh limits c (Datetime.utc (World.now w n)) = true)
  ∧ _default_metadata_scanner (Json.List (RegistrySearchCache.normalized_results c)) = Some false
  ∧ (∃ value, value ∈ RegistrySearchCache.normalized_results c ∧ normalize_item value = Ok item)
  ∧ OfficialRegistryItem.provenance_digest item = digest
  ∧ _digest (OfficialRegistryItem.normalized_metadata item) = Some digest.

Lemma import_authorized_ok context cache_id digest correlation w s v s' :
  let d := World.others w (Operation.committed s) in
  _import_cached_authorized limits context cache_id digest correlation w s = (Ok v, s') →
  member_allowed context d ∧ ∃ c item s1, pinned context cache_id digest w d c item
    ∧ catalog_is d (Operation.session s1) ∧ import_item limits context c item correlation w s1 = (Ok v, s').
Proof.
  intros d. unfold _import_cached_authorized. intros ([] & s1 & H1 & H2)%obind_ok.
  apply lock_ok in H1 as (Hd1 & Hm & Hc1). fold d in Hd1, Hm, Hc1. split; [exact Hm|].
  apply obind_ok in H2 as ([] & s2 & H1 & H2). apply outside_ok in H1 as [Hs2 _]; [|apply _].
  apply obind_ok in H2 as (now & s3 & H1 & H2). apply outside_ok in H1 as [Hs3 _]; [|apply _].
  rewrite <- Hs2, <- Hs3 in Hd1, Hc1. apply obind_ok in H2 as (? & s4 & H1 & H2).
  apply (delete_cache_ok _ _ _ _ _ _ H1 Hd1) in Hc1 as [Hd4 Hc4].
  apply obind_ok in H2 as (found & s5 & H5 & H2). apply (gets_ok _ w) in H5 as [Hfound ->]. rewrite Hc4 in Hfound.
  destruct found as [c|]; [|done]. destruct (filter _ _ !! cache_id) as [c'|] eqn:Hl; [|done].
  destruct (cache_usable _ _ _ _) eqn:Hu; [|done]. injection Hfound as <-. apply map_lookup_filter_Some in Hl as [Hl _].
  apply obind_ok in H2 as (intact & s5 & H5 & H2). apply obind_ok in H2 as ([] & s6 & H6 & H2).
  assert (cache_intact c = Some true ∧ s6 = s4) as [Hi ->].
  { destruct (cache_intact c) as [i|]; [|done]. injection H5 as <- <-. destruct i; [by injection H6 as <-|done]. }
  apply obind_ok in H2 as (items & s7 & H7 & H2). apply catch_rethrown in H7; [|].
  2: { intros [e|code|] s0; [by eexists _, _| |by eexists _, _].
       unfold mbind, O_bind. destruct (_purge_rejected_cache _ _ _ _) as [[]]; by eexists _, _. }
  apply parse_cached_ok in H7 as (Hs7 & Hscan & Hitems).
  apply obind_ok in H2 as ([] & s8 & H8 & H2). apply require_fresh_ok in H8 as [Hs8 Hfresh].
  destruct (List.find _ items) as [item|] eqn:Hitem; [|done]. apply List.find_some in Hitem as [Hin Hdig%eqv_eq].
  apply list_elem_of_In, list_elem_of_lookup in Hin as [k Hk].
  destruct (Forall2_lookup_r _ _ _ _ _ Hitems Hk) as (value & Hval & Hn). exists c, item, s8. split; [|split].
  - split_and!; try done.
    + unfold cache_usable in Hu. by breflect.
    + exists value. split; [by eapply list_elem_of_lookup_2|done].
    + rewrite <- Hdig. by eapply normalized_digest.
  - by rewrite Hs8, Hs7.
  - exact H2.
Qed.

Lemma official_ok {A} (m : O A) w d (a : A) d' :
  official_transaction m w d = (Ok a, d') → ∃ s, m w (Operation.begin d) = (Ok a, s) ∧ d' = work (Operation.session s).
Proof.
  unfold official_transaction. case_match eqn:E; case_match; [|done]. intros [= -> <-].
  apply obind_ok in E as (v' & s1 & H1' & H2). apply obind_ok in H2 as (? & s2 & H2 & [= -> <-]).
  apply database_ok in H2 as (t & Ht & ->). apply flush_ok in Ht as [[= Ht] _]. subst t. by exists s1.
Qed.

(** C31. What a search shows was screened.  Every item of the result of a search that
    commits, cached or fetched, comes from one document, a page of the origin or the
    elements of a cache row, that was within the bounds of metadata and that the scanner
    of secrets, run on its decoded strings, did not object to; the item is one of the
    elements of that document, and its digest is the digest of its own canonical
    metadata; no two items are the same version of the same server, and there are at
    most as many as the limits allow. *)
Theorem search_results_are_screened context query w d r d' :
  official_transaction (service_search loads_raw limits context query) w d = (Ok r, d') →
  Forall (λ item, screened item
    ∧ _digest (OfficialRegistryItem.normalized_metadata item) = Some (OfficialRegistryItem.provenance_digest item))
    (SearchResult.items r)
  ∧ NoDup (OfficialRegistryItem.identity <$> SearchResult.items r)
  ∧ len (SearchResult.items r) ≤ OfficialRegistryLimits.max_items limits.
Proof.
  intros (s & E & _)%official_ok. apply gives_service_search in E as [[Hs Hd] Hl]. split_and!; [|done..].
  eapply Forall_impl; [exact Hs|]. intros item Hi. split; [done|].
  destruct Hi as (document & values & value & _ & _ & Hn & _). by eapply normalized_digest.
Qed.

(** C25. An import is pinned to what was screened.  When an import of an item of a
    cached search commits, the cache row was there when the workspace was locked, was of
    that workspace, intact under its own digest and byte count, and fresh at a reading
    of the clock during the import; the scanner did not object to its elements; the item
    is one of these elements, its digest is the one that was asked for, and that is the
    digest of its metadata; the actor may import; and the version that is returned has
    that digest, and either was there, and then the tables and the audit log are
    unchanged, or is the new current version of the entry of the item, numbered above the
    others of that entry, with one audit event, and no other entry or version changed. *)
Theorem import_is_pinned context cache_id digest correlation w d v d' :
  let d1 := World.others w d in
  versions_have_entries d1 → drawn_fresh w d1 →
  official_transaction (import_cached limits context cache_id digest correlation) w d = (Ok v, d') →
  ∃ c item ver,
    pinned context cache_id digest w d1 c item ∧ member_allowed context d1
    ∧ RegistryEntryVersion.provenance_digest ver = digest
    ∧ (imported context item d1 d' v ver ∨ known context item d1 d' v ver).
Proof.
  intros d1 Hfk Hfresh (s1 & H1 & ->)%official_ok.
  unfold import_cached, with_timeout in H1. apply catch_rethrown in H1; [|by intros [] ?; eexists _, _].
  apply import_authorized_ok in H1 as (Hm & c & item & s3 & Hp & Hd & Hi).
  apply (import_item_ok _ _ _ _ _ _ _ _ d1 Hfk Hfresh Hd) in Hi as (ver & Hv & Hor). exists c, item, ver.
  split_and!; [exact Hp|exact Hm| |exact Hor]. rewrite Hv. by destruct Hp as (_ & _ & _ & _ & _ & _ & ? & _).
Qed.
End items.

(** * A concrete origin with one server: it is searched for, the result is read from
    the cache, and the server is imported. *)

Module CatalogScenario.

Definition str (s : string) : Json.t := Json.Str s.
Definition member (k : string) (v : Json.t) : Json.key * Json.t := (Json.KStr k, v).
Definition server : Json.t := Json.Dict
  [member "server" (Json.Dict [member "name" (str "io.example/echo"); member "version" (str "1.0.0");
     member "remotes" (Json.List [Json.Dict [member "url" (str "https://tools.example/mcp")]])])].
Definition page : Json.t := Json.Dict
  [member "servers" (Json.List [server]); member "metadata" (Json.Dict [member "count" (Json.Int 1)])].
Definition loads_raw (_ : bytes) : option Json.t := Some page.

Definition limits : OfficialRegistryLimits.t := OfficialRegistryLimits.default.
Definition response : Response.t := Response.mk false 200 (Some "application/json"%string) None None [[]] None.

(** The [n]-th operation, at second [100 + n]. *)
Definition world (n : Z) : World.t :=
  World.mk (Scenario.env n) (λ k, Datetime.mk (seconds (100 + n) + Z.of_nat k) (Some 0)) (λ _, Scanned)
    (λ _ _, Ok response) (λ d, d) (λ _, true).

Definition look (n : Z) (d : Db.t) : result failure_kind SearchResult.t * Db.t :=
  official_transaction (service_search loads_raw limits Scenario.context "echo") (world n) d.
Definition take_up (n : Z) (id : uuid) (d : Db.t) : result failure_kind uuid * Db.t :=
  official_transaction (import_cached limits Scenario.context id Scenario.digest64 None) (world n) d.

Definition cached : Db.t := (look 0 Scenario.installed).2.
Definition imported : Db.t := (take_up 2 1000%positive cached).2.
End CatalogScenario.

Example searches : ∃ r r',
  (CatalogScenario.look 0 Scenario.installed).1 = Ok r ∧ SearchResult.from_cache r = false
  ∧ (CatalogScenario.look 1 CatalogScenario.cached).1 = Ok r' ∧ SearchResult.from_cache r' = true
  ∧ SearchResult.items r' = SearchResult.items r ∧ length (SearchResult.items r) = 1%nat.
Proof. eexists _, _. split; [by vm_compute|]. split; [done|]. split; [by vm_compute|done]. Qed.

Lemma search_results_are_screened_witness : ∃ r d',
  official_transaction (service_search CatalogScenario.loads_raw CatalogScenario.limits Scenario.context "echo")
    (CatalogScenario.world 1) CatalogScenario.cached = (Ok r, d')
  ∧ length (SearchResult.items r) = 1%nat ∧ NoDup (OfficialRegistryItem.identity <$> SearchResult.items r).
Proof.
  eexists _, _. split; [by vm_compute|]. split; [done|].
  eapply (search_results_are_screened CatalogScenario.loads_raw CatalogScenario.limits Scenario.context "echo"
    (CatalogScenario.world 1) CatalogScenario.cached). by vm_compute.
Defined.

Lemma no_versions d : registry_entry_versions d = ∅ → versions_have_entries d.
Proof. intros He k v. by rewrite He, lookup_empty. Qed.
Lemma no_entries w d : registry_entries d = ∅ → drawn_fresh w d.
Proof. intros He n. by rewrite He, lookup_empty. Qed.

Lemma import_is_pinned_witness : ∃ c item ver,
  pinned CatalogScenario.limits Scenario.context 1000%positive Scenario.digest64 (CatalogScenario.world 2)
    CatalogScenario.cached c item
  ∧ (imported Scenario.context item CatalogScenario.cached CatalogScenario.imported 3001%positive ver
     ∨ known Scenario.context item CatalogScenario.cached CatalogScenario.imported 3001%positive ver).
Proof.
  destruct (import_is_pinned CatalogScenario.limits Scenario.context 1000%positive Scenario.digest64 None
    (CatalogScenario.world 2) CatalogScenario.cached 3001%positive CatalogScenario.imported)
    as (c & item & ver & Hp & _ & _ & Hv);
    [..|exists c, item, ver; split; [exact Hp|exact Hv]].
  - apply no_versions. by vm_compute.
  - apply no_entries. by vm_compute.
  - by vm_compute.
Defined.

Lemma cache_stays_within_bounds_witness :
  registry_search_cache CatalogScenario.cached ≠ ∅ ∧ within CatalogScenario.limits CatalogScenario.cached.
Proof.
  split; [by vm_compute|]. apply (cache_stays_within_bounds CatalogScenario.loads_raw CatalogScenario.limits Scenario.installed).
  - assert (CatalogScenario.cached = (official_transaction (perform_catalog CatalogScenario.loads_raw CatalogScenario.limits
      (Search Scenario.context "echo")) (CatalogScenario.world 0) Scenario.installed).2) as -> by by vm_compute.
    apply history_next; [constructor|]. intros d. constructor.
  - split; [by intros id c Hc|]. intros ws. split; by vm_compute.
Defined.
