(* ===== verification/Failures.v ===== *)
(** Exceptions as objects: what [classify_discovery_failure] of registry/runner.py
    reads off the graph of an exception, its group members and its causes, and how
    the discovery client builds such graphs.

    An exception is the root of a finite graph of objects.  A group is made of
    exceptions that exist, but [raise e from exc] may close a cycle: the client raises
    an exception it has found in a group from that group. *)
From S2P Require Import Prelude Types Session Effects.
Local Open Scope Z_scope.

(** The classes the callers tell apart. *)
Module ErrorClass.
Inductive t :=
| Discovery (k : discovery_kind)
| EndpointPolicyError | EndpointResolutionError | ResponseLimitExceeded
| TimeoutError
| HttpTimeout | HttpStatus (status_code : Z) | HttpError     (* [httpx.HTTPError] and below *)
| SecretProviderError | AuthorizationDenied | InvalidConnectionTransition
| KeyError | ValueError
| Error                          (* any other [Exception] *)
| Cancelled                      (* [CancelledError], no [Exception] *)
| ExceptionGroup | BaseExceptionGroup.

(** [isinstance(error, Exception)] *)
Definition is_exception (c : t) : bool := match c with Cancelled | BaseExceptionGroup => false | _ => true end.
Definition is_discovery (c : t) : bool := match c with Discovery _ => true | _ => false end.
Definition is_protocol_mismatch (c : t) : bool := match c with Discovery ProtocolMismatch => true | _ => false end.
Definition is_credential (c : t) : bool := match c with Discovery CredentialError => true | _ => false end.
Definition is_sensitive (c : t) : bool := match c with Discovery SensitiveResponseError => true | _ => false end.
Definition is_resolution (c : t) : bool := match c with EndpointResolutionError => true | _ => false end.
Definition is_policy (c : t) : bool := match c with EndpointPolicyError => true | _ => false end.
Definition is_limit (c : t) : bool := match c with ResponseLimitExceeded => true | _ => false end.
Definition is_timeout (c : t) : bool := match c with TimeoutError | HttpTimeout => true | _ => false end.
Definition is_unauthorized (c : t) : bool :=
  match c with HttpStatus code => (code =? 401) || (code =? 403) | _ => false end.
Definition is_secret (c : t) : bool := match c with SecretProviderError => true | _ => false end.
Definition is_http (c : t) : bool := match c with HttpTimeout | HttpStatus _ | HttpError => true | _ => false end.
(** [(AuthorizationDenied, InvalidConnectionTransition)] *)
Definition is_refusal (c : t) : bool := match c with AuthorizationDenied | InvalidConnectionTransition => true | _ => false end.

(** What a transaction raises. *)
Definition of_exn (e : exn) : t :=
  match e with
  | Session.AuthorizationDenied => AuthorizationDenied
  | Session.InvalidConnectionTransition => InvalidConnectionTransition
  | Session.SecretProviderError => SecretProviderError
  | Session.ValueError | ImmutableUpdate | MetadataValidationError _ => ValueError
  | _ => Error
  end.
End ErrorClass.

(** An object: its class, the members of a group, and [__cause__]. *)
Module Object_.
Record t := mk { class : ErrorClass.t; exceptions : list nat; cause : option nat }.
#[global] Instance eta : Eta t := λ r, mk (class r) (exceptions r) (cause r).
End Object_.

Module Exc.
Record t := mk { objects : gmap nat Object_.t; root : nat }.
Definition class_of (e : t) (x : nat) : ErrorClass.t :=
  match objects e !! x with Some o => Object_.class o | None => ErrorClass.Error end.
Definition class (e : t) : ErrorClass.t := class_of e (root e).

(** An exception that is raised by itself. *)
Definition plain (c : ErrorClass.t) : t := mk {[0%nat := Object_.mk c [] None]} 0.

(** [raise c() from error] *)
Definition new_identity (e : t) : nat := S (list_max (map_to_list (objects e)).*1).
Definition raise_from (c : ErrorClass.t) (e : t) : t :=
  mk (<[new_identity e := Object_.mk c [] (Some (root e))]> (objects e)) (new_identity e).

(** [raise found from error], where [found] is an object of [error]. *)
Definition reraise_from (found : nat) (e : t) : t :=
  mk (alter (λ o, o <| Object_.cause := Some (root e) |>) found (objects e)) found.

(** Where [_flatten] goes from an object. *)
Definition successors (o : Object_.t) : list nat := Object_.exceptions o ++ option_list (Object_.cause o).

(** The members of groups exist and are older than their group; causes exist. *)
Definition well_formed (e : t) : Prop :=
  is_Some (objects e !! root e)
  ∧ ∀ x o, objects e !! x = Some o →
      (∀ y, y ∈ Object_.exceptions o → (y < x)%nat ∧ is_Some (objects e !! y))
      ∧ (∀ y, Object_.cause o = Some y → is_Some (objects e !! y)).
End Exc.

(** [_find_exception]: the recursion is along the members of groups, which are older. *)
Fixpoint find_first (find : nat → option nat) (children : list nat) : option nat :=
  match children with
  | [] => None
  | child :: children => match find child with Some found => Some found | None => find_first find children end
  end.
Fixpoint find_from (kind : ErrorClass.t → bool) (objects : gmap nat Object_.t) (fuel x : nat) : option nat :=
  match fuel with
  | O => None
  | S fuel =>
      match objects !! x with
      | None => None
      | Some o =>
          if kind (Object_.class o) then Some x
          else find_first (find_from kind objects fuel) (Object_.exceptions o)
      end
  end.
Definition find_exception (kind : ErrorClass.t → bool) (e : Exc.t) : option nat :=
  find_from kind (Exc.objects e) (S (Exc.root e)) (Exc.root e).

(** [_flatten]: the objects it returns, in order, and [seen]. *)
Fixpoint extend_all (flatten : nat → gset nat → option (list nat * gset nat)) (children : list nat)
    (flattened : list nat) (seen : gset nat) : option (list nat * gset nat) :=
  match children with
  | [] => Some (flattened, seen)
  | child :: children =>
      '(l, seen) ← flatten child seen;
      extend_all flatten children (flattened ++ l) seen
  end.
Fixpoint _flatten (fuel : nat) (objects : gmap nat Object_.t) (x : nat) (seen : gset nat)
    : option (list nat * gset nat) :=
  match fuel with
  | O => None
  | S fuel =>
      if decide (x ∈ seen) then Some ([], seen) else
      match objects !! x with
      | None => None
      | Some o => extend_all (_flatten fuel objects) (Exc.successors o) [x] ({[x]} ∪ seen)
      end
  end.
Definition flatten_fuel (e : Exc.t) : nat := S (S (size (Exc.objects e))).

(** [classify_discovery_failure]: the tests in their order. *)
Definition rules : list ((ErrorClass.t → bool) * DiscoveryFailureCode.t) :=
  [(ErrorClass.is_protocol_mismatch, DiscoveryFailureCode.PROTOCOL_MISMATCH);
   (ErrorClass.is_credential, DiscoveryFailureCode.AUTHENTICATION_FAILED);
   (ErrorClass.is_sensitive, DiscoveryFailureCode.INVALID_METADATA);
   (ErrorClass.is_resolution, DiscoveryFailureCode.TRANSPORT_FAILED);
   (ErrorClass.is_policy, DiscoveryFailureCode.ENDPOINT_REJECTED);
   (ErrorClass.is_limit, DiscoveryFailureCode.RESPONSE_LIMIT);
   (ErrorClass.is_timeout, DiscoveryFailureCode.TIMEOUT);
   (ErrorClass.is_unauthorized, DiscoveryFailureCode.AUTHENTICATION_FAILED);
   (ErrorClass.is_secret, DiscoveryFailureCode.AUTHENTICATION_FAILED);
   (ErrorClass.is_http, DiscoveryFailureCode.TRANSPORT_FAILED);
   (ErrorClass.is_discovery, DiscoveryFailureCode.INVALID_METADATA)].
Fixpoint first_rule (rules : list ((ErrorClass.t → bool) * DiscoveryFailureCode.t)) (classes : list ErrorClass.t)
    : DiscoveryFailureCode.t :=
  match rules with
  | [] => DiscoveryFailureCode.TRANSPORT_FAILED
  | (kind, code) :: rules => if existsb kind classes then code else first_rule rules classes
  end.
Definition classify_discovery_failure (e : Exc.t) : option DiscoveryFailureCode.t :=
  '(errors, _) ← _flatten (flatten_fuel e) (Exc.objects e) (Exc.root e) ∅;
  Some (first_rule rules (Exc.class_of e <$> errors)).

(** * The graphs of exceptions are walked completely: [_flatten] terminates on every
    graph, cyclic ones too, and returns each object that can be reached once. *)

Section graph.
Context (objects : gmap nat Object_.t).

Definition edge (x y : nat) : Prop := ∃ o, objects !! x = Some o ∧ y ∈ Exc.successors o.
Definition closed_graph : Prop := ∀ x y, edge x y → is_Some (objects !! y).

(** What a walk from [x] leaves: [l] was found, [seen'] is what is known. *)
Record walked (roots : nat → Prop) (seen : gset nat) (l : list nat) (seen' : gset nat) : Prop := {
  wk_seen : seen' = list_to_set l ∪ seen;
  wk_nodup : NoDup l;
  wk_new : ∀ y, y ∈ l → y ∉ seen;
  wk_known : ∀ y, y ∈ l → is_Some (objects !! y);
  wk_reached : ∀ y, y ∈ l → ∃ x, roots x ∧ rtc edge x y;
  wk_roots : ∀ x, roots x → x ∈ seen';
  wk_closed : ∀ y z, y ∈ l → edge y z → z ∈ seen' }.

(** How many objects are not seen yet. *)
Definition unseen (seen : gset nat) : nat := size (dom objects ∖ seen).

Lemma unseen_mono seen seen' : seen ⊆ seen' → (unseen seen' ≤ unseen seen)%nat.
Proof. intros Hs. unfold unseen. apply subseteq_size. set_solver. Qed.
Lemma unseen_lt x seen : is_Some (objects !! x) → x ∉ seen → (unseen ({[x]} ∪ seen) < unseen seen)%nat.
Proof.
  intros Hx Hs. unfold unseen. apply subset_size. split; [set_solver|]. intros Hsub.
  assert (x ∈ dom objects ∖ ({[x]} ∪ seen)) as Hin; [|set_solver]. apply Hsub, elem_of_difference.
  split; [by apply elem_of_dom|done].
Qed.

(** The loop over the successors, after [walked] a part of them. *)
Lemma walk_successors fuel (flatten : nat → gset nat → option (list nat * gset nat)) children seen0 roots flattened seen :
  (∀ x s, is_Some (objects !! x) → (unseen s < fuel)%nat → ∃ l s', flatten x s = Some (l, s') ∧ walked (eq x) s l s') →
  (∀ y, y ∈ children → is_Some (objects !! y)) → (unseen seen < fuel)%nat →
  seen = list_to_set flattened ∪ seen0 → NoDup flattened → (∀ y, y ∈ flattened → y ∉ seen0) →
  (∀ y, y ∈ flattened → is_Some (objects !! y)) →
  (∀ y, y ∈ flattened → ∃ x, roots x ∧ rtc edge x y) → (∀ y, y ∈ children → ∃ x, roots x ∧ rtc edge x y) →
  ∃ l seen',
    extend_all flatten children flattened seen = Some (flattened ++ l, seen')
    ∧ seen' = list_to_set (flattened ++ l) ∪ seen0 ∧ NoDup (flattened ++ l)
    ∧ (∀ y, y ∈ l → y ∉ seen0 ∧ is_Some (objects !! y) ∧ (∃ x, roots x ∧ rtc edge x y) ∧ ∀ z, edge y z → z ∈ seen')
    ∧ (∀ y, y ∈ children → y ∈ seen').
Proof.
  intros Hf. revert flattened seen. induction children as [|child children IH]; intros flattened seen Hc Hfuel Hseen Hnd Hnew Hk Hr Hcr.
  - exists [], seen. rewrite app_nil_r. split_and!; try done; by intros y ?%elem_of_nil.
  - destruct (Hf child seen) as (l1 & s1 & E1 & W1); [apply Hc; by left|done|]. destruct W1 as [S1 N1 D1 K1 R1 T1 C1].
    cbn. rewrite E1. cbn. destruct (IH (flattened ++ l1) s1) as (l2 & s2 & E2 & S2 & N2 & P2 & Q2).
    + intros y Hy. apply Hc. by right.
    + eapply Nat.le_lt_trans; [|exact Hfuel]. apply unseen_mono. set_solver.
    + rewrite S1, Hseen, list_to_set_app_L. set_solver.
    + apply NoDup_app. split_and!; [done| |done]. intros y Hy Hy1. specialize (D1 y Hy1). set_solver.
    + intros y [Hy|Hy]%elem_of_app; [by apply Hnew|]. specialize (D1 y Hy). set_solver.
    + intros y [Hy|Hy]%elem_of_app; auto.
    + intros y [Hy|Hy]%elem_of_app; [by apply Hr|]. destruct (R1 y Hy) as (x & <- & Hxy).
      destruct (Hcr child) as (x & Hx & Hxc); [by left|]. exists x. split; [done|]. by etrans.
    + intros y Hy. apply Hcr. by right.
    + rewrite <- app_assoc in E2, S2, N2. exists (l1 ++ l2), s2. split_and!; try done.
      * intros y [Hy|Hy]%elem_of_app; [|by apply P2]. split_and!.
        -- specialize (D1 y Hy). set_solver.
        -- by apply K1.
        -- destruct (R1 y Hy) as (x & <- & Hxy). destruct (Hcr child) as (x & Hx & Hxc); [by left|]. exists x. split; [done|]. by etrans.
        -- intros z Hz. specialize (C1 y z Hy Hz). rewrite S2, !list_to_set_app_L. rewrite S1, Hseen in C1. set_solver.
      * intros y [->|Hy]%elem_of_cons; [|by apply Q2]. specialize (T1 child eq_refl). rewrite S2, !list_to_set_app_L.
        rewrite S1, Hseen in T1. set_solver.
Qed.

Lemma flatten_walks fuel x seen :
  closed_graph → is_Some (objects !! x) → (unseen seen < fuel)%nat →
  ∃ l seen', _flatten fuel objects x seen = Some (l, seen') ∧ walked (eq x) seen l seen'.
Proof.
  intros Hcl. revert x seen. induction fuel as [|fuel IH]; intros x seen Hx Hfuel; [lia|]. cbn [_flatten].
  destruct (decide (x ∈ seen)) as [Hin|Hnin].
  - exists [], seen. split; [done|]. split; [set_solver|constructor|by intros y ?%elem_of_nil..| |by intros y z ?%elem_of_nil].
    by intros y <-.
  - destruct Hx as [o Ho]. rewrite Ho. pose proof (unseen_lt x seen (mk_is_Some _ _ Ho) Hnin).
    destruct (walk_successors fuel (_flatten fuel objects) (Exc.successors o) seen (eq x) [x] ({[x]} ∪ seen)) as (l & s' & E & S & N & P & Q).
    + intros y s Hy Hs. by apply IH.
    + intros y Hy. eapply Hcl. by exists o.
    + lia.
    + set_solver.
    + apply NoDup_singleton.
    + by intros y ->%list_elem_of_singleton.
    + by intros y ->%list_elem_of_singleton.
    + intros y ->%list_elem_of_singleton. by exists x.
    + intros y Hy. exists x. split; [done|]. apply rtc_once. by exists o.
    + exists ([x] ++ l), s'. split; [exact E|]. split; [done|done|..].
      * intros y [->%list_elem_of_singleton|Hy]%elem_of_app; [done|by apply P].
      * intros y [->%list_elem_of_singleton|Hy]%elem_of_app; [by eexists|by apply P].
      * intros y [->%list_elem_of_singleton|Hy]%elem_of_app; [by exists x|by apply P].
      * intros y <-. rewrite S. set_solver.
      * intros y z [->%list_elem_of_singleton|Hy]%elem_of_app Hz; [|by eapply P].
        destruct Hz as (o' & Ho' & Hz). rewrite Ho in Ho'. injection Ho' as <-. by apply Q.
Qed.
End graph.

(** ** Well-formed exceptions *)

Lemma well_formed_closed e : Exc.well_formed e → closed_graph (Exc.objects e).
Proof.
  intros [_ Hwf] x y (o & Ho & [Hy|Hy]%elem_of_app); destruct (Hwf x o Ho) as [Hm Hc]; [by apply Hm|].
  destruct (Object_.cause o) as [c|] eqn:E; cbn in Hy; [|by apply elem_of_nil in Hy].
  apply list_elem_of_singleton in Hy as ->. by apply Hc.
Qed.

Lemma well_formed_plain c : Exc.well_formed (Exc.plain c).
Proof.
  split; [by eexists; apply lookup_singleton_eq|]. intros x o Ho.
  cbn in Ho. apply lookup_singleton_Some in Ho as [<- <-]. split; [by intros y ?%elem_of_nil|done].
Qed.

Lemma new_identity_fresh e : Exc.objects e !! Exc.new_identity e = None.
Proof.
  apply eq_None_not_Some. intros [o Ho]. unfold Exc.new_identity in Ho.
  set (ids := (map_to_list (Exc.objects e)).*1) in Ho.
  assert (S (list_max ids) ∈ ids) as Hin.
  { apply list_elem_of_fmap. exists (S (list_max ids), o). split; [done|]. by apply elem_of_map_to_list. }
  pose proof (proj1 (list_max_le ids (list_max ids)) (Nat.le_refl _)) as Hall.
  rewrite Forall_forall in Hall. specialize (Hall _ Hin). lia.
Qed.

Lemma well_formed_raise_from c e : Exc.well_formed e → Exc.well_formed (Exc.raise_from c e).
Proof.
  intros [[r Hr] Hwf]. pose proof (new_identity_fresh e) as Hf. unfold Exc.raise_from.
  assert (∀ y, is_Some (Exc.objects e !! y) → is_Some (<[Exc.new_identity e := Object_.mk c [] (Some (Exc.root e))]> (Exc.objects e) !! y)) as Hs.
  { intros y Hy. apply lookup_insert_is_Some'. by right. }
  split; [by eexists; apply lookup_insert_eq|]. intros x o. cbn [Exc.objects].
  intros [(<- & <-)|(Hne & Ho)]%lookup_insert_Some.
  - split; [by intros y ?%elem_of_nil|]. intros y [= <-]. apply Hs. by exists r.
  - destruct (Hwf x o Ho) as [Hm Hc]. split; [|by intros y Hy; apply Hs, Hc]. intros y Hy. destruct (Hm y Hy). auto.
Qed.

Lemma well_formed_reraise found e :
  Exc.well_formed e → is_Some (Exc.objects e !! found) → Exc.well_formed (Exc.reraise_from found e).
Proof.
  intros [Hr Hwf] Hfound. unfold Exc.reraise_from.
  assert (∀ y, is_Some (Exc.objects e !! y) ↔ is_Some (alter (λ o, o <| Object_.cause := Some (Exc.root e) |>) found (Exc.objects e) !! y)) as Hs.
  { intros y. rewrite lookup_alter_is_Some. done. }
  split; [by apply Hs|]. intros x o. cbn [Exc.objects].
  intros [(-> & o' & Ho & ->)|(Hne & Ho)]%lookup_alter_Some; destruct (Hwf _ _ Ho) as [Hm Hc].
  - split; [|intros y [= <-]; by apply Hs]. intros y Hy. destruct (Hm y Hy). split; [done|by apply Hs].
  - split; [|intros y Hy; by apply Hs, Hc]. intros y Hy. destruct (Hm y Hy). split; [done|by apply Hs].
Qed.

(** ** Members of groups *)

Definition member_edge (objects : gmap nat Object_.t) (x y : nat) : Prop :=
  ∃ o, objects !! x = Some o ∧ y ∈ Object_.exceptions o.

(** [_find_exception] returns a member of the group of the kind, if there is one. *)
Lemma find_from_spec kind e fuel x :
  Exc.well_formed e → is_Some (Exc.objects e !! x) → (x < fuel)%nat →
  match find_from kind (Exc.objects e) fuel x with
  | Some y => rtc (member_edge (Exc.objects e)) x y ∧ is_Some (Exc.objects e !! y) ∧ kind (Exc.class_of e y) = true
  | None => ∀ y, rtc (member_edge (Exc.objects e)) x y → kind (Exc.class_of e y) = false
  end.
Proof.
  intros [_ Hwf]. revert x. induction fuel as [|fuel IH]; intros x [o Ho] Hx; [lia|]. cbn [find_from]. rewrite Ho.
  unfold Exc.class_of in *. destruct (kind (Object_.class o)) eqn:Hkind.
  { split; [done|]. split; [by exists o|]. by rewrite Ho. }
  destruct (Hwf x o Ho) as [Hm _].
  assert (∀ y, rtc (member_edge (Exc.objects e)) x y → y = x ∨ ∃ z, z ∈ Object_.exceptions o ∧ rtc (member_edge (Exc.objects e)) z y) as Hinv.
  { intros y [<-|(z & (o' & Ho' & Hz) & Hzy)]%rtc_inv; [by left|]. rewrite Ho in Ho'. injection Ho' as <-. eauto. }
  assert (∀ children, children ⊆ Object_.exceptions o →
    match find_first (find_from kind (Exc.objects e) fuel) children with
    | Some y => rtc (member_edge (Exc.objects e)) x y ∧ is_Some (Exc.objects e !! y)
        ∧ kind match Exc.objects e !! y with Some o => Object_.class o | None => ErrorClass.Error end = true
    | None => ∀ z y, z ∈ children → rtc (member_edge (Exc.objects e)) z y →
        kind match Exc.objects e !! y with Some o => Object_.class o | None => ErrorClass.Error end = false
    end) as Hgo.
  { induction children as [|z children IHc]; intros Hsub; [by intros z y ?%elem_of_nil|].
    destruct (Hm z (Hsub z (list_elem_of_here _ _))) as [Hlt Hz]. specialize (IH z Hz ltac:(lia)).
    cbn [find_first]. destruct (find_from kind (Exc.objects e) fuel z) as [y|].
    - destruct IH as (H1 & H2 & H3). split_and!; [|done|done]. eapply rtc_l; [|exact H1]. exists o. split; [done|]. apply Hsub. by left.
    - specialize (IHc ltac:(set_solver)). destruct (find_first _ children) as [y|]; [done|].
      intros z' y [->|Hz']%elem_of_cons; [apply IH|by apply IHc]. }
  specialize (Hgo _ (reflexivity _)). destruct (find_first _ (Object_.exceptions o)) as [y|]; [done|].
  intros y [->|(z & Hz & Hzy)]%Hinv; [by rewrite Ho|by eapply Hgo].
Qed.

Lemma find_exception_spec kind e :
  Exc.well_formed e →
  match find_exception kind e with
  | Some y => rtc (member_edge (Exc.objects e)) (Exc.root e) y ∧ is_Some (Exc.objects e !! y) ∧ kind (Exc.class_of e y) = true
  | None => ∀ y, rtc (member_edge (Exc.objects e)) (Exc.root e) y → kind (Exc.class_of e y) = false
  end.
Proof. intros He. apply find_from_spec; [done|apply He|]. lia. Qed.

(** ** Classification *)

Definition involves (e : Exc.t) (kind : ErrorClass.t → bool) : Prop :=
  ∃ x, rtc (edge (Exc.objects e)) (Exc.root e) x ∧ kind (Exc.class_of e x) = true.

Lemma first_rule_spec rules classes :
  let code := first_rule rules classes in
  (∃ before kind after, rules = before ++ (kind, code) :: after ∧ existsb kind classes = true
     ∧ ∀ k c, (k, c) ∈ before → existsb k classes = false)
  ∨ code = DiscoveryFailureCode.TRANSPORT_FAILED ∧ ∀ k c, (k, c) ∈ rules → existsb k classes = false.
Proof.
  induction rules as [|[kind code] rules IH]; cbn; [right; split; [done|by intros k c ?%elem_of_nil]|].
  destruct (existsb kind classes) eqn:E.
  - left. exists [], kind, rules. split_and!; [done|done|]. by intros k c ?%elem_of_nil.
  - destruct IH as [(before & k & after & Heq & Hk & Hb)|[Hc Hn]].
    + left. exists ((kind, code) :: before), k, after. split; [cbn; f_equal; exact Heq|]. split; [done|].
      intros k' c [[= -> ->]|Hin]%elem_of_cons; [done|by eapply Hb].
    + right. split; [done|]. intros k c [[= -> ->]|Hin]%elem_of_cons; [done|by eapply Hn].
Qed.

(** The code that the objects of an exception call for: that of the first test, in their
    order, that an object passes which can be reached. *)
Definition calls_for (e : Exc.t) (code : DiscoveryFailureCode.t) : Prop :=
  (∃ before kind after, rules = before ++ (kind, code) :: after ∧ involves e kind
     ∧ ∀ k c, (k, c) ∈ before → ¬ involves e k)
  ∨ code = DiscoveryFailureCode.TRANSPORT_FAILED ∧ ∀ k c, (k, c) ∈ rules → ¬ involves e k.

Lemma classification_decides e : Exc.well_formed e → ∃ code, classify_discovery_failure e = Some code ∧ calls_for e code.
Proof.
  intros He. pose proof (well_formed_closed e He) as Hcl. destruct He as [Hroot _].
  destruct (flatten_walks (Exc.objects e) (flatten_fuel e) (Exc.root e) ∅ Hcl Hroot) as (l & seen & E & W).
  { unfold unseen, flatten_fuel. rewrite <- size_dom. pose proof (subseteq_size (dom (Exc.objects e) ∖ ∅) (dom (Exc.objects e)) ltac:(set_solver)). lia. }
  destruct W as [Hseen _ _ _ Hr Ht Hc].
  assert (∀ kind, existsb kind (Exc.class_of e <$> l) = true ↔ involves e kind) as Hinv.
  { intros kind. rewrite existsb_exists. split.
    - intros (c & Hin & Hk). apply list_elem_of_In, list_elem_of_fmap in Hin as (x & -> & Hx).
      destruct (Hr x Hx) as (? & <- & Hx'). by exists x.
    - intros (x & Hx & Hk). exists (Exc.class_of e x). split; [|done]. apply list_elem_of_In, list_elem_of_fmap. exists x. split; [done|].
      assert (∀ y, rtc (edge (Exc.objects e)) (Exc.root e) y → y ∈ l) as Hall; [|by apply Hall].
      apply rtc_ind_r; [|intros y z _ Hyz Hy; specialize (Hc y z Hy Hyz); set_solver]. specialize (Ht _ eq_refl). set_solver. }
  exists (first_rule rules (Exc.class_of e <$> l)). split; [unfold classify_discovery_failure; by rewrite E|].
  destruct (first_rule_spec rules (Exc.class_of e <$> l)) as [(before & kind & after & Hru & Hk & Hb)|[Hcode Hn]].
  - left. exists before, kind, after. split; [done|]. split; [by apply Hinv|]. intros k c Hin Hi%Hinv. by rewrite (Hb k c Hin) in Hi.
  - right. split; [done|]. intros k c Hin Hi%Hinv. by rewrite (Hn k c Hin) in Hi.
Qed.

(** C29. The failure code of a discovery is exact.  Whatever exception a discovery
    fails with, the cyclic ones included that arise when an exception found in a group
    is raised from that group: the classification ends, and its code is that of the
    first test, in the order of the tests, that some object passes that can be reached
    over members of groups and causes; [TRANSPORT_FAILED] if none does. *)
Theorem classification_exact e :
  Exc.well_formed e →
  ∃ code, classify_discovery_failure e = Some code
  ∧ ((∃ before kind after, rules = before ++ (kind, code) :: after ∧ involves e kind
       ∧ ∀ k c, (k, c) ∈ before → ¬ involves e k)
     ∨ code = DiscoveryFailureCode.TRANSPORT_FAILED ∧ ∀ k c, (k, c) ∈ rules → ¬ involves e k).
Proof. apply classification_decides. Qed.
