(* ===== verification/Refresh.v ===== *)
(** Discovery over MCP: [McpClientAdapter.discover] of mcp_adapter/client.py and the
    worker that runs it, [DiscoveryRunner] of registry/runner.py.

    The MCP SDK is known as programs over the transport: each request it makes goes
    through [LimitedTransport], which calls [before_request] first. *)
From S2P Require Import Prelude Programs Types Json PyStr Secrets Screening Endpoint Matcher.
From S2P Require Import Store Session Registry Identity Capabilities Discovery Ledger Lease Admission Policy Stream Effects Client Failures Listing.
From stdpp Require Import strings.
Local Open Scope Z_scope.

(** ** Data *)

(** [types.Tool] of the SDK, with its [model_dump]. *)
Module Tool.
Record t := mk {
  name : string; title : option string; description : option string;
  inputSchema : Json.t; outputSchema : option Json.t; dump : Json.t }.
End Tool.

(** [types.ListToolsResult] *)
Module Page.
Record t := mk { tools : list Tool.t; nextCursor : option string }.
End Page.

(** An HTTP request of the SDK, and what is read of its response. *)
Module HttpRequest.
Record t := mk { method : string; content : string }.
End HttpRequest.

Definition raises (c : ErrorClass.t) : Exc.t := Exc.plain c.
Definition discovery_failed (k : discovery_kind) : Exc.t := raises (ErrorClass.Discovery k).

(** ** The SDK *)

Definition http_answer (_ : HttpRequest.t) : Type := result Exc.t string.
Abbreviation sdk := (Programs.proc http_answer).

(** A session: entering its contexts, its requests, and leaving the contexts with the
    exception that is pending, which they may replace but do not swallow. *)
Module Sdk.
Record t := mk {
  enter : sdk (result Exc.t ());
  initialize : sdk (result Exc.t string);
  initialized : sdk (result Exc.t ());
  list_tools : nat → option string → sdk (result Exc.t Page.t);
  leave : option Exc.t → sdk (option Exc.t) }.
End Sdk.

(** ** Effects *)

Inductive refresh_effect : Type :=
| LoadTargetTx (context : WorkspaceContext.t) (lease : RefreshLease.t)
| ContactTx (context : WorkspaceContext.t) (lease : RefreshLease.t)
| PublishTx (context : WorkspaceContext.t) (lease : RefreshLease.t) (found : DiscoveryResult.t)
| FailureTx (context : WorkspaceContext.t) (lease : RefreshLease.t) (code : DiscoveryFailureCode.t)
| Retrieve (reference : SecretReference.t)
| Resolve (endpoint : string)
| OpenTransport (credential : option string) (forbidden_response_values : list string)
| Send (request : HttpRequest.t)
| SchemaSupport (input_schema : Json.t) (output_schema : option Json.t)
| ReadSensitive                   (* [transport.sensitive_response_detected] *)
| LeaveTotal.                     (* has [asyncio.timeout] expired? *)

Definition target : Type := string * string * option SecretReference.t.
Definition refresh_answer (e : refresh_effect) : Type :=
  match e with
  | LoadTargetTx _ _ => result Exc.t target
  | ContactTx _ _ | Resolve _ | OpenTransport _ _ => result Exc.t ()
  | FailureTx _ _ _ => result Exc.t ()
  | PublishTx _ _ _ => result Exc.t uuid
  | Retrieve _ => result Exc.t bytes
  | Send _ => result Exc.t string
  | SchemaSupport _ _ => result Exc.t bool
  | ReadSensitive | LeaveTotal => bool
  end.
Abbreviation refresh := (Programs.proc refresh_answer).
Abbreviation act := (Programs.trigger refresh_answer).

(** The requests of an SDK program, each after [before_request]: what it raises is
    raised into the SDK. *)
Fixpoint requests {A} (before_request : refresh (result Exc.t ())) (p : sdk A) : refresh A :=
  match p with
  | Ret a => Ret a
  | Vis request k =>
      contacted ← before_request;
      match contacted with
      | Err e => requests before_request (k (Err e))
      | Ok _ => response ← act (Send request); requests before_request (k response)
      end
  end.

(** ** Normalization *)

Section client.
Context `{Externals} `{Urls} `{Validators}.

Definition invalid_metadata : Exc.t := Exc.raise_from (ErrorClass.Discovery DiscoveryError) (raises ErrorClass.ValueError).

(** [_normalize_tool] *)
Definition _normalize_tool (tool : Tool.t) : result Exc.t Json.t :=
  match Tool.dump tool with Json.Dict _ => Ok (Tool.dump tool) | _ => Err (discovery_failed DiscoveryError) end.

(** [_canonical_json] *)
Definition _canonical_json (value : Json.t) : result Exc.t string :=
  match json_dumps value with Some encoded => Ok encoded | None => Err invalid_metadata end.

(** [tool.title or tool.name] *)
Definition display_name (tool : Tool.t) : string :=
  match Tool.title tool with Some title => if falsy title then Tool.name tool else title | None => Tool.name tool end.

(** The [try] around the two validations. *)
Definition validated (r : result exn unit) : result Exc.t () :=
  match r with
  | Ok _ => Ok ()
  | Err (MetadataValidationError _) => Err invalid_metadata
  | Err e => Err (raises (ErrorClass.of_exn e))
  end.

(** One round of the loop over the tools, up to the support check: the normalized
    tool and its digest. *)
Definition check_tool (identities : list string) (tool : Tool.t) : result Exc.t (Json.t * string) :=
  normalized ← _normalize_tool tool;
  if bool_decide (Tool.name tool ∈ identities) then Err (discovery_failed DiscoveryError) else
  encoded ← _canonical_json normalized;
  _ ← validated (validate_capability_scalars (Tool.name tool) (Tool.name tool) (display_name tool)
                   (Tool.description tool) QUALIFIED_PROTOCOL_REVISION);
  _ ← validated (validate_schema_payload (Tool.inputSchema tool) (Tool.outputSchema tool));
  Ok (normalized, sha256_hex encoded).

Definition definition_of (tool : Tool.t) (metadata_digest : string) (schema_supported : bool) : ToolDefinition.t :=
  ToolDefinition.mk (Tool.name tool) (Tool.name tool) (display_name tool) (Tool.description tool)
    (Tool.inputSchema tool) (Tool.outputSchema tool) metadata_digest schema_supported.

(** The loop: the normalized tools and their definitions. *)
Fixpoint define_tools (identities : list string) (tools : list Tool.t)
    : refresh (result Exc.t (list (Json.t * ToolDefinition.t))) :=
  match tools with
  | [] => mret (Ok [])
  | tool :: tools =>
      checked <-? mret (check_tool identities tool);
      schema_supported <-? act (SchemaSupport (Tool.inputSchema tool) (Tool.outputSchema tool));
      rest <-? define_tools (Tool.name tool :: identities) tools;
      mret (Ok ((checked.1, definition_of tool checked.2 schema_supported) :: rest))
  end.

(** ** Screening *)

(** [_contains_sensitive_embedded_url] *)
Definition _contains_sensitive_embedded_url (value : Json.t) : bool := existsb contains_sensitive_url (all_strings value).

Definition schema_member (key : Json.key) : bool :=
  eqv key (Json.KStr "inputSchema") || eqv key (Json.KStr "outputSchema").

(** [any(contains_sensitive_schema(tool[key]) for key in (...) if key in tool)] *)
Definition present (tool : list (Json.key * Json.t)) : list Json.t :=
  option_list (json_lookup "inputSchema" tool) ++ option_list (json_lookup "outputSchema" tool).

(** [_contains_sensitive_tool]; the failures are exceptions of the screening. *)
Definition _contains_sensitive_tool (tool : Json.t) : result Screening.failure bool :=
  let members := match tool with Json.Dict members => members | _ => [] end in
  ordinary ← contains_sensitive_json (Json.Dict (filter (λ m, schema_member m.1 = false) members));
  if (ordinary : bool) then Ok true
  else if _contains_sensitive_embedded_url tool then Ok true
  else any_sensitive (present members).

Fixpoint any_sensitive_tool (tools : list Json.t) : result Screening.failure bool :=
  match tools with
  | [] => Ok false
  | tool :: tools => found ← _contains_sensitive_tool tool; if (found : bool) then Ok true else any_sensitive_tool tools
  end.

(** [contains_obvious_secret(text) or any(...) or ...] *)
Definition canonical_text (value : Json.t) : string := default EmptyString (of_chars <$> dumps (sort_keys value)).
Definition discovery_sensitive (payload : Json.t) (tools : list Json.t) (credential : option string) : result Screening.failure bool :=
  if contains_obvious_secret (canonical_text payload) then Ok true
  else
    found ← any_sensitive_tool tools;
    Ok (found || match credential with
                 | Some credential => _contains_decoded_credential payload credential
                 | None => false
                 end).

Definition discovery_payload (tools : list Json.t) : Json.t :=
  Json.Dict [(Json.KStr "protocolRevision", Json.Str QUALIFIED_PROTOCOL_REVISION); (Json.KStr "tools", Json.List tools)].

(** What [_discover] does with the definitions. *)
Definition finish_discovery (self : McpClientAdapter.t) (credential : option string) (found : list (Json.t * ToolDefinition.t))
    : result Exc.t DiscoveryResult.t :=
  let payload := discovery_payload found.*1 in
  match Metadata.validate_bounded_json payload with
  | Err _ => Err invalid_metadata
  | Ok _ =>
      canonical ← _canonical_json payload;
      if TransportLimits.response_bytes (McpClientAdapter.limits self) <? slen canonical
      then Err (discovery_failed DiscoveryError)
      else match discovery_sensitive payload found.*1 credential with
           | Err _ => Err (raises ErrorClass.ValueError)
           | Ok true => Err (discovery_failed DiscoveryError)
           | Ok false =>
               Ok (DiscoveryResult.mk QUALIFIED_PROTOCOL_REVISION found.*2 payload (slen canonical) (sha256_hex canonical))
           end
  end.

(** ** The session *)

Section session.
Context (self : McpClientAdapter.t) (session : Sdk.t) (before_request : refresh (result Exc.t ())).

(** The loop over the pages; [page] counts those that were read. *)
Fixpoint list_pages (pages page : nat) (raw_tools : list Tool.t) (cursor : option string) (seen_cursors : list string)
    : refresh (result Exc.t (list Tool.t)) :=
  match pages with
  | O => mret (Err (discovery_failed DiscoveryError))
  | S pages =>
      listed <-? requests before_request (Sdk.list_tools session page cursor);
      let raw_tools : list Tool.t := raw_tools ++ Page.tools listed in
      if McpClientAdapter.max_tools self <? len raw_tools then mret (Err (discovery_failed DiscoveryError))
      else match Page.nextCursor listed with
           | None => mret (Ok raw_tools)
           | Some c =>
               if bool_decide (c ∈ seen_cursors) then mret (Err (discovery_failed DiscoveryError))
               else list_pages pages (S page) raw_tools (Some c) (c :: seen_cursors)
           end
  end.

(** The body of the session. *)
Definition session_tools : refresh (result Exc.t (list Tool.t)) :=
  protocol_version <-? requests before_request (Sdk.initialize session);
  if negb (eqv protocol_version QUALIFIED_PROTOCOL_REVISION) then mret (Err (discovery_failed ProtocolMismatch))
  else
    _ <-? requests before_request (Sdk.initialized session);
    list_pages (Z.to_nat (McpClientAdapter.max_pages self)) 0 [] None [].

(** The contexts around it. *)
Definition session_contexts : refresh (result Exc.t (list Tool.t)) :=
  _ <-? requests before_request (Sdk.enter session);
  listed ← session_tools;
  left ← requests before_request (Sdk.leave session match listed with Ok _ => None | Err e => Some e end);
  mret match left with Some e => Err e | None => listed end.

(** [_discover] *)
Definition _discover (credential : option string) : refresh (result Exc.t DiscoveryResult.t) :=
  raw_tools <-? session_contexts;
  found <-? define_tools [] raw_tools;
  mret (finish_discovery self credential found).

(** ** [discover] *)

(** The checks of the credential. *)
Definition discovery_credential (endpoint : string) (bearer_token : option bytes) : result Exc.t (option string) :=
  match bearer_token with
  | None => Ok None
  | Some token =>
      if negb (startswith (lower endpoint) "https://") then Err (discovery_failed CredentialError) else
      match decode_ascii token with
      | None => Err (Exc.raise_from (ErrorClass.Discovery CredentialError) (raises ErrorClass.ValueError))
      | Some credential =>
          if credential_rejected credential then Err (discovery_failed CredentialError) else Ok (Some credential)
      end
  end.

(** The block under [asyncio.timeout], and whether there is a transport. *)
Definition attempt_discovery (endpoint : string) (credential : option string)
    : refresh (bool * result Exc.t DiscoveryResult.t) :=
  resolution ← act (Resolve endpoint);
  match resolution with
  | Err e => mret (false, Err e)
  | Ok _ =>
      opened ← act (OpenTransport credential (forbidden_values credential));
      match opened with
      | Err e => mret (false, Err e)
      | Ok _ =>
          discovered ← _discover credential;
          match discovered with
          | Err e => mret (true, Err e)
          | Ok found =>
              sensitive ← act ReadSensitive;
              mret (true, if sensitive : bool then Err (discovery_failed SensitiveResponseError) else Ok found)
          end
      end
  end.

(** The [except] clauses. *)
Definition classify_exception (transport : bool) (exc : Exc.t) : refresh (result Exc.t DiscoveryResult.t) :=
  let raised_here :=
    match find_exception ErrorClass.is_protocol_mismatch exc with
    | Some mismatch => Exc.reraise_from mismatch exc
    | None =>
        match find_exception ErrorClass.is_discovery exc with
        | Some discovery_error => Exc.reraise_from discovery_error exc
        | None => Exc.raise_from (ErrorClass.Discovery DiscoveryError) exc
        end
    end in
  if ErrorClass.is_discovery (Exc.class exc) || negb (ErrorClass.is_exception (Exc.class exc)) then mret (Err exc)
  else if transport then
    sensitive ← act ReadSensitive;
    mret (Err (if sensitive : bool then Exc.raise_from (ErrorClass.Discovery SensitiveResponseError) exc else raised_here))
  else mret (Err raised_here).

(** [discover] *)
Definition discover (endpoint : string) (bearer_token : option bytes) : refresh (result Exc.t DiscoveryResult.t) :=
  credential <-? mret (discovery_credential endpoint bearer_token);
  '(transport, discovered) ← attempt_discovery endpoint credential;
  match discovered with
  | Ok found => mret (Ok found)
  | Err exc =>
      match Exc.class exc with
      | ErrorClass.Cancelled =>
          expired ← act LeaveTotal;
          if expired : bool then classify_exception transport (Exc.raise_from ErrorClass.TimeoutError exc)
          else mret (Err exc)
      | _ => classify_exception transport exc
      end
  end.
End session.

(** ** [DiscoveryRunner] *)

Section runner.
(** The adapters of the policy versions: the factory may raise. *)
Context (adapter_factory : string → result Exc.t McpClientAdapter.t) (session : Sdk.t).
Implicit Types (context : WorkspaceContext.t) (lease : RefreshLease.t).

(** [_validate_for_contact] *)
Definition _validate_for_contact context lease : refresh (result Exc.t ()) := act (ContactTx context lease).

(** [except (KeyError, ValueError) as exc] *)
Definition pinned_adapter (policy_version : string) : result Exc.t McpClientAdapter.t :=
  match adapter_factory policy_version with
  | Ok adapter => Ok adapter
  | Err e => Err (match Exc.class e with
                  | ErrorClass.KeyError | ErrorClass.ValueError => Exc.raise_from ErrorClass.EndpointPolicyError e
                  | _ => e
                  end)
  end.

(** The first [try]. *)
Definition discover_target context lease : refresh (result Exc.t DiscoveryResult.t) :=
  loaded <-? act (LoadTargetTx context lease);
  let '(endpoint, policy_version, secret_reference) := loaded in
  _ <-? act (ContactTx context lease);
  adapter <-? mret (pinned_adapter policy_version);
  credential <-? match secret_reference with
                 | None => mret (Ok None)
                 | Some reference => r ← act (Retrieve reference);
                                     mret match r with Ok secret => Ok (Some secret) | Err e => Err e end
                 end;
  discover adapter session (_validate_for_contact context lease) endpoint credential.

(** The exceptions that are failures of the discovery. *)
Definition is_failure (c : ErrorClass.t) : bool :=
  ErrorClass.is_discovery c || ErrorClass.is_policy c || ErrorClass.is_resolution c || ErrorClass.is_limit c
  || ErrorClass.is_secret c || match c with ErrorClass.TimeoutError => true | _ => false end || ErrorClass.is_http c.

(** A refusal of a publication ends the run. *)
Definition unless_refused {A} (r : result Exc.t A) : result Exc.t (option A) :=
  match r with
  | Ok a => Ok (Some a)
  | Err e => if ErrorClass.is_refusal (Exc.class e) then Ok None else Err e
  end.

(** [run] *)
Definition run context lease : refresh (result Exc.t (option uuid)) :=
  discovered ← discover_target context lease;
  match discovered with
  | Ok found => r ← act (PublishTx context lease found); mret (unless_refused r)
  | Err error =>
      if ErrorClass.is_refusal (Exc.class error) then mret (Ok None)
      else if is_failure (Exc.class error) then
        match classify_discovery_failure error with
        | None => mret (Err error)
        | Some code =>
            r ← act (FailureTx context lease code);
            mret match unless_refused r with Ok _ => Ok None | Err e => Err e end
        end
      else mret (Err error)
  end.
End runner.
End client.

(** ** What may answer the effects *)

Section environment.
Context `{Externals} `{Urls} `{Validators}.

(** [DiscoveryRunner._load_target] *)
Definition _load_target (context : WorkspaceContext.t) (lease : RefreshLease.t) : M target :=
  let workspace_id := WorkspaceContext.workspace_id context in
  require_current_role context [Role.ADMIN; Role.OPERATOR] false ;;
  version ← fetch (λ d, RegistryDb.server_connection_versions (Db.registry d)) (RefreshLease.connection_version_id lease)
    (λ v, eqv (ServerConnectionVersion.connection_id v) (RefreshLease.connection_id lease)
          && eqv (ServerConnectionVersion.workspace_id v) workspace_id);
  match version with
  | None => raise AuthorizationDenied
  | Some version =>
      let found := (ServerConnectionVersion.endpoint_url version, ServerConnectionVersion.policy_version version) in
      match ServerConnectionVersion.secret_binding_id version with
      | None => mret (found, None)
      | Some secret_id =>
          binding ← fetch (λ d, IdentityDb.secret_bindings (Db.identity d)) secret_id
            (λ b, eqv (SecretBinding.workspace_id b) workspace_id);
          match binding with
          | None => raise Session.SecretProviderError
          | Some binding => mret (found, Some (secret_reference_of binding))
          end
      end
  end.

(** A transaction, or one that the connection or a cancellation interrupts. *)
Definition attempts {A} (m : M A) (x : result Exc.t A) (env : Env) (d d' : Db.t) : Prop :=
  match (transaction m env d).1 with
  | Ok a => x = Ok a
  | Err e => x = Err (raises (ErrorClass.of_exn e))
  end ∧ d' = (transaction m env d).2
  ∨ ∃ e, x = Err e ∧ (e = raises ErrorClass.Cancelled ∨ e = raises ErrorClass.Error)
      ∧ (d' = d ∨ d' = (transaction m env d).2).

Definition sound {A} (x : result Exc.t A) : Prop := match x with Ok _ => True | Err e => Exc.well_formed e end.

(** [_schema_support_with_deadline]: the check may be cut short, and then the answer is
    that the schemas are not supported. *)
Definition supports (input_schema : Json.t) (output_schema : option Json.t) (x : result Exc.t bool) : Prop :=
  match x with
  | Ok true => ∃ expired ticks, _schema_is_supported expired input_schema output_schema = Continue () ticks
  | Ok false => True
  | Err e => e = raises ErrorClass.Cancelled
             ∨ e = raises ErrorClass.Error ∧ ∃ expired, _schema_is_supported expired input_schema output_schema = Crashed
  end.

Definition refresh_performs (e : refresh_effect) : refresh_answer e → Env → Db.t → Db.t → Prop :=
  match e with
  | LoadTargetTx context lease => λ x env d d', d' = d ∧ ∃ d0, attempts (_load_target context lease) x env d d0
  | ContactTx context lease => attempts (validate_for_contact context lease)
  | PublishTx context lease found => attempts (publish_success context lease found)
  | FailureTx context lease code => attempts (publish_failure context lease code)
  | Retrieve _ => λ x _ d d', d' = d ∧ sound x
  | Resolve _ | OpenTransport _ _ => λ x _ d d', d' = d ∧ sound x
  | Send _ => λ x _ d d', d' = d ∧ sound x
  | SchemaSupport input_schema output_schema => λ x _ d d', d' = d ∧ supports input_schema output_schema x
  | ReadSensitive | LeaveTotal => λ _ _ d d', d' = d
  end.

#[global] Instance refresh_environment : Environment refresh_answer := λ e x, ∃ env d d', refresh_performs e x env d d'.

(** An SDK program that raises well-formed exceptions when its requests do. *)
Fixpoint sdk_sound {A} (good : A → Prop) (p : sdk A) : Prop :=
  match p with
  | Ret a => good a
  | Vis _ k => ∀ x, sound x → sdk_sound good (k x)
  end.
Record sound_session (s : Sdk.t) : Prop := {
  sound_enter : sdk_sound sound (Sdk.enter s);
  sound_initialize : sdk_sound sound (Sdk.initialize s);
  sound_initialized : sdk_sound sound (Sdk.initialized s);
  sound_list_tools : ∀ n cursor, sdk_sound sound (Sdk.list_tools s n cursor);
  sound_leave : ∀ pending, (∀ e, pending = Some e → Exc.well_formed e) →
    sdk_sound (λ o, match o with Some e => Exc.well_formed e | None => True end) (Sdk.leave s pending) }.
End environment.
