(* ===== verification/RefreshSpec.v ===== *)
(** What a refresh run does: it contacts the server only under its lease, publishes
    only discoveries that were screened, and settles its job at most once. *)
From S2P Require Import Prelude Programs Types Json PyStr Secrets Store Session Registry Identity Screening ScreeningSpec Endpoint Capabilities.
From S2P Require Import Discovery Ledger Lease Admission Matcher Policy Stream Effects Client Listing Failures Refresh.
From stdpp Require Import strings.
Local Open Scope Z_scope.

(** What a trace says: is the job settled, did the last effect permit a contact, which
    secret was retrieved, and which snapshot was published. *)
Module Evidence.
Record t := mk { settled : bool; may_send : bool; secret : option bytes; published : option uuid }.
Definition start : t := mk false false None None.
End Evidence.

Section refresh.
Context `{Externals} `{Urls} `{Validators}.
Context (adapter_factory : string → result Exc.t McpClientAdapter.t) (session : Sdk.t).
Context (context : WorkspaceContext.t) (lease : RefreshLease.t).

(** ** Discoveries that may be published *)

(** A tool, as the server described it, in which the screens find nothing: neither in its
    ordinary members, nor in a URL in any of its texts, nor in its schemas. *)
Definition tool_screened (tool : Json.t) : Prop :=
  ∃ members, tool = Json.Dict members
    ∧ contains_sensitive_json (Json.Dict (filter (λ m, m.1 ≠ Json.KStr "inputSchema" ∧ m.1 ≠ Json.KStr "outputSchema") members)) = Ok false
    ∧ (∀ text, text ∈ all_strings tool → contains_sensitive_url text = false)
    ∧ ∀ key schema, key ∈ ["inputSchema"; "outputSchema"]%string → json_lookup key members = Some schema →
        contains_sensitive_schema schema = Ok false.

(** A definition stands for the tool that the server described. *)
Definition stands_for (normalized : Json.t) (tool : ToolDefinition.t) : Prop :=
  ∃ encoded, json_dumps normalized = Some encoded ∧ ToolDefinition.metadata_digest tool = sha256_hex encoded.

Record publishable (self : McpClientAdapter.t) (credential : option string) (found : DiscoveryResult.t) : Prop := {
  pb_revision : DiscoveryResult.protocol_revision found = QUALIFIED_PROTOCOL_REVISION;
  pb_accepted : Forall (λ tool, _validate_metadata tool QUALIFIED_PROTOCOL_REVISION = Ok ()) (DiscoveryResult.tools found);
  pb_identities : NoDup (ToolDefinition.identity <$> DiscoveryResult.tools found);
  pb_count : len (DiscoveryResult.tools found) ≤ McpClientAdapter.max_tools self;
  pb_bounded : Metadata.validate_bounded_json (DiscoveryResult.normalized_payload found) = Ok ();
  pb_size : DiscoveryResult.canonical_length found ≤ TransportLimits.response_bytes (McpClientAdapter.limits self);
  pb_canonical : ∃ canonical, json_dumps (DiscoveryResult.normalized_payload found) = Some canonical
    ∧ DiscoveryResult.canonical_length found = slen canonical
    ∧ DiscoveryResult.canonical_digest found = sha256_hex canonical;
  pb_screened : ∃ tools, DiscoveryResult.normalized_payload found = discovery_payload tools
    ∧ Forall2 stands_for tools (DiscoveryResult.tools found) ∧ Forall tool_screened tools;
  pb_clean : contains_obvious_secret (canonical_text (DiscoveryResult.normalized_payload found)) = false;
  pb_credential : ∀ c, credential = Some c → _contains_decoded_credential (DiscoveryResult.normalized_payload found) c = false;
  pb_supported : Forall (λ tool, ToolDefinition.schema_supported tool = true →
    ∃ expired ticks, _schema_is_supported expired (ToolDefinition.input_schema tool) (ToolDefinition.output_schema tool)
      = Continue () ticks) (DiscoveryResult.tools found) }.

(** The tools of a discovery, before the payload is screened. *)
Record defined (self : McpClientAdapter.t) (tools : list Tool.t) (identities : list string)
    (found : list (Json.t * ToolDefinition.t)) : Prop := {
  df_accepted : Forall (λ tool, _validate_metadata tool QUALIFIED_PROTOCOL_REVISION = Ok ()) found.*2;
  df_identities : NoDup (ToolDefinition.identity <$> found.*2);
  df_new : ∀ i, i ∈ ToolDefinition.identity <$> found.*2 → i ∉ identities;
  df_length : length found = length tools;
  df_stands : Forall2 stands_for found.*1 found.*2;
  df_dict : Forall (λ tool, ∃ members, tool = Json.Dict members) found.*1;
  df_supported : Forall (λ tool, ToolDefinition.schema_supported tool = true →
    ∃ expired ticks, _schema_is_supported expired (ToolDefinition.input_schema tool) (ToolDefinition.output_schema tool)
      = Continue () ticks) found.*2 }.

Lemma qualified_revision : protocol_revision_match QUALIFIED_PROTOCOL_REVISION = true.
Proof. by vm_compute. Qed.

Lemma check_tool_ok identities tool normalized digest supported :
  (∀ s, digest_match (sha256_hex s) = true) →
  check_tool identities tool = Ok (normalized, digest) →
  _validate_metadata (definition_of tool digest supported) QUALIFIED_PROTOCOL_REVISION = Ok () ∧ Tool.name tool ∉ identities
  ∧ stands_for normalized (definition_of tool digest supported) ∧ ∃ members, normalized = Json.Dict members.
Proof.
  intros Hdigest. unfold check_tool. intros (n & Hnorm & Hr)%result_bind_ok. destruct (bool_decide _) eqn:Hd; [done|].
  apply bool_decide_eq_false in Hd. apply result_bind_ok in Hr as (encoded & Henc & Hr).
  apply result_bind_ok in Hr as ([] & Hs & Hr). apply result_bind_ok in Hr as ([] & Hp & [= <- <-]).
  split; [|split; [done|split]].
  2:{ exists encoded. split; [|done]. unfold Refresh._canonical_json in Henc. destruct (json_dumps n); [|done]. by injection Henc as ->. }
  2:{ unfold _normalize_tool in Hnorm. destruct (Tool.dump tool); try done. injection Hnorm as <-. by eexists. }
  unfold _validate_metadata. rewrite qualified_revision. cbn [definition_of ToolDefinition.metadata_digest].
  rewrite Hdigest. cbn [negb definition_of ToolDefinition.identity ToolDefinition.name ToolDefinition.display_name
    ToolDefinition.description ToolDefinition.input_schema ToolDefinition.output_schema].
  unfold validated in Hs, Hp. destruct (validate_capability_scalars _ _ _ _ _) as [[]|[]]; try done.
  by destruct (validate_schema_payload _ _) as [[]|[]].
Qed.

Lemma any_sensitive_tool_ok tools : any_sensitive_tool tools = Ok false → Forall (λ tool, _contains_sensitive_tool tool = Ok false) tools.
Proof.
  induction tools as [|tool tools IH]; cbn; [constructor|]. intros (b & Hb & Hr)%result_bind_ok. destruct b; [done|]. constructor; auto.
Qed.

Lemma screened_tool members : _contains_sensitive_tool (Json.Dict members) = Ok false → tool_screened (Json.Dict members).
Proof.
  unfold _contains_sensitive_tool. intros (b & Hb & Hr)%result_bind_ok. destruct b; [done|].
  destruct (_contains_sensitive_embedded_url _) eqn:Hu; [done|]. exists members. split_and!; [done| | |].
  - rewrite <- Hb. do 2 f_equal. apply list_filter_iff. intros m. unfold schema_member. rewrite orb_false_iff, !eqv_false. done.
  - intros text Hin. destruct (contains_sensitive_url text) eqn:E; [|done]. rewrite <- Hu. symmetry. apply existsb_exists. exists text.
    by rewrite <- list_elem_of_In.
  - apply any_sensitive_ok in Hr. unfold present in Hr. rewrite Forall_app in Hr. destruct Hr as [H1' H2'].
    intros key schema Hkey Hl. rewrite !elem_of_cons in Hkey. destruct Hkey as [->|[->|?%elem_of_nil]]; [| |done];
      rewrite Hl in *; [by inversion H1'|by inversion H2'].
Qed.

Lemma finish_discovery_ok self credential tools found r :
  defined self tools [] found → len tools ≤ McpClientAdapter.max_tools self →
  finish_discovery self credential found = Ok r → publishable self credential r.
Proof.
  intros [D1 D2 _ D4 D6 D7 D5] Hlen. unfold finish_discovery. set (payload := discovery_payload found.*1).
  destruct (Metadata.validate_bounded_json payload) as [[]|] eqn:Hb; [|done].
  intros (canonical & Hc & Hr)%result_bind_ok. destruct (_ <? slen canonical) eqn:Hl; [done|]. apply Z.ltb_ge in Hl.
  destruct (discovery_sensitive payload found.*1 credential) as [[]|] eqn:Hs; try done. injection Hr as <-.
  unfold discovery_sensitive in Hs. destruct (contains_obvious_secret (canonical_text payload)) eqn:Ho; [done|].
  apply result_bind_ok in Hs as (any & Hany & [= Hs]). apply orb_false_iff in Hs as [-> Hs].
  unfold Refresh._canonical_json in Hc. split; try done.
  - change (len found.*2 ≤ McpClientAdapter.max_tools self). unfold len in *. by rewrite length_fmap, D4.
  - exists canonical. split_and!; [|done|done]. change (json_dumps payload = Some canonical).
    destruct (json_dumps payload); [|done]. by injection Hc as ->.
  - exists found.*1. split_and!; [done|exact D6|]. apply any_sensitive_tool_ok in Hany. rewrite Forall_forall in *.
    intros tool Hin. destruct (D7 tool Hin) as [members ->]. apply screened_tool. by apply Hany.
  - by intros c ->.
Qed.

(** ** Evidence *)

Definition settles (e : refresh_effect) : bool := match e with PublishTx _ _ _ | FailureTx _ _ _ => true | _ => false end.

Definition observe (e : refresh_effect) : refresh_answer e → Evidence.t → Evidence.t :=
  match e with
  | ContactTx _ _ => λ x g, Evidence.mk (Evidence.settled g) (is_ok x) (Evidence.secret g) (Evidence.published g)
  | Retrieve _ => λ x g, Evidence.mk (Evidence.settled g) false (match x with Ok s => Some s | Err _ => None end) (Evidence.published g)
  | PublishTx _ _ _ => λ x g, Evidence.mk true false (Evidence.secret g) (match x with Ok id => Some id | Err _ => None end)
  | FailureTx _ _ _ => λ _ g, Evidence.mk true false (Evidence.secret g) (Evidence.published g)
  | _ => λ _ g, Evidence.mk (Evidence.settled g) false (Evidence.secret g) (Evidence.published g)
  end.

(** The credential of a secret. *)
Definition credential_of (secret : option bytes) : option string := secret ≫= decode_ascii.

Definition justified (e : refresh_effect) (g : Evidence.t) : Prop :=
  Evidence.settled g = false
  ∧ match e with
    | LoadTargetTx c l | ContactTx c l => c = context ∧ l = lease
    | Send _ => Evidence.may_send g = true
    | PublishTx c l found => c = context ∧ l = lease
        ∧ ∃ policy_version adapter, adapter_factory policy_version = Ok adapter
            ∧ publishable adapter (credential_of (Evidence.secret g)) found
    | FailureTx c l code => c = context ∧ l = lease
    | _ => True
    end.

(** The discovery itself settles nothing. *)
Definition quiet (e : refresh_effect) (g : Evidence.t) : Prop := settles e = false ∧ justified e g.

Abbreviation wp := (wpp quiet observe).
Abbreviation wp_act := (Programs.wpp_trigger (answer := refresh_answer)) (only parsing).

(** A step that settles nothing and forgets no secret. *)
Definition kept (g g' : Evidence.t) : Prop :=
  Evidence.settled g' = false ∧ Evidence.secret g' = Evidence.secret g ∧ Evidence.published g' = Evidence.published g.

Lemma kept_trans g1 g2 g3 : kept g1 g2 → kept g2 g3 → kept g1 g3.
Proof. intros (? & ? & ?) (? & ? & ?). split_and!; congruence. Qed.

Lemma wp_requests {A} (good : A → Prop) (p : sdk A) g :
  sdk_sound good p → Evidence.settled g = false →
  wp (requests (_validate_for_contact context lease) p) (λ a g', good a ∧ kept g g') g.
Proof.
  revert g. induction p as [a|request k IH]; intros g Hp Hg; cbn [requests]; [by apply wpp_ret|].
  apply wpp_bind. apply wp_act; [by split|]. intros x (env & d & d' & Hx). cbn [observe].
  assert (sound x) as Hs.
  { destruct x as [[]|e]; [done|]. destruct Hx as [[Hx _]|(e' & [= <-] & [-> | ->] & _)]; [|apply well_formed_plain..].
    destruct (transaction _ _ _).1; [done|]. injection Hx as ->. apply well_formed_plain. }
  destruct x as [[]|e].
  - apply wpp_bind, wp_act; [by split|]. intros response (? & ? & ? & _ & Hr). cbn [observe].
    eapply wpp_mono; [|by apply IH; [apply Hp|]]. by intros a g' [? ?].
  - eapply wpp_mono; [|by apply IH; [apply Hp|]]. by intros a g' [? ?].
Qed.

Lemma wp_list_pages self pages page raw cursor seen g :
  sound_session session → Evidence.settled g = false →
  wp (list_pages self session (_validate_for_contact context lease) pages page raw cursor seen)
    (λ r g', sound r ∧ (∀ tools, r = Ok tools → len tools ≤ McpClientAdapter.max_tools self) ∧ kept g g') g.
Proof.
  intros Hs. revert page raw cursor seen g. induction pages as [|pages IH]; intros page raw cursor seen g Hg; cbn [list_pages].
  { apply wpp_ret. split_and!; [apply well_formed_plain|done|done]. }
  apply wpp_attempt. eapply wpp_mono; [|by apply wp_requests; [apply Hs|]]. cbn beta. intros [listed|e] g' [Hok Hk]; [|done].
  destruct (_ <? _) eqn:Hlen; [apply wpp_ret; split_and!; [apply well_formed_plain|done|exact Hk]|]. apply Z.ltb_ge in Hlen.
  destruct (Page.nextCursor listed) as [c|]; [|apply wpp_ret; split_and!; [done| |exact Hk]; by intros ? [= <-]].
  destruct (bool_decide _); [apply wpp_ret; split_and!; [apply well_formed_plain|done|exact Hk]|].
  eapply wpp_mono; [|apply IH, Hk]. intros r g2 (H1' & H2 & H3). split_and!; [done|done|]. by eapply kept_trans.
Qed.

Lemma wp_session_contexts self g :
  sound_session session → Evidence.settled g = false →
  wp (session_contexts self session (_validate_for_contact context lease))
    (λ r g', sound r ∧ (∀ tools, r = Ok tools → len tools ≤ McpClientAdapter.max_tools self) ∧ kept g g') g.
Proof.
  intros Hs Hg. apply wpp_attempt. eapply wpp_mono; [|by apply wp_requests; [apply Hs|]]. cbn beta.
  intros [[]|e] g1 [Hok Hk1]; [|done].
  assert (wp (session_tools self session (_validate_for_contact context lease))
    (λ r g', sound r ∧ (∀ tools, r = Ok tools → len tools ≤ McpClientAdapter.max_tools self) ∧ kept g1 g') g1) as Htools.
  { apply wpp_attempt. eapply wpp_mono; [|by apply wp_requests; [apply Hs|apply Hk1]]. cbn beta.
    intros [version|e] g2 [Hv Hk2]; [|done]. destruct (negb _); [apply wpp_ret; split_and!; [apply well_formed_plain|done|exact Hk2]|].
    apply wpp_attempt. eapply wpp_mono; [|by apply wp_requests; [apply Hs|apply Hk2]]. cbn beta.
    intros [[]|e] g3 [Hi Hk3]; [|split_and!; [done|done|by eapply kept_trans]].
    eapply wpp_mono; [|by apply wp_list_pages; [|apply Hk3]]. intros r g4 (? & ? & ?). split_and!; [done|done|].
    eapply kept_trans; [done|]. by eapply kept_trans. }
  apply wpp_bind. eapply wpp_mono; [|exact Htools]. intros listed g2 (Hl & Hlen & Hk2).
  apply wpp_bind. eapply wpp_mono; [|apply wp_requests; [apply Hs|apply Hk2]].
  - cbn beta. intros left g3 [Hleft Hk3]. apply wpp_ret. destruct left as [e|].
    + split_and!; [exact Hleft|done|]. eapply kept_trans; [done|]. by eapply kept_trans.
    + split_and!; [done|done|]. eapply kept_trans; [done|]. by eapply kept_trans.
  - destruct listed as [tools|e]; [done|]. intros e' [= <-]. exact Hl.
Qed.

Lemma sound_invalid_metadata : Exc.well_formed invalid_metadata.
Proof. apply well_formed_raise_from, well_formed_plain. Qed.

Lemma sound_bind {A B} (m : result Exc.t A) (f : A → result Exc.t B) : sound m → (∀ a, sound (f a)) → sound (m ≫= f).
Proof. intros Hm Hf. destruct m as [a|e]; [apply Hf|exact Hm]. Qed.

Lemma sound_canonical value : sound (Refresh._canonical_json value).
Proof. unfold Refresh._canonical_json. destruct (json_dumps value); [done|apply sound_invalid_metadata]. Qed.
Lemma sound_validated r : sound (validated r).
Proof. destruct r as [|[]]; try apply well_formed_plain; [done|apply sound_invalid_metadata]. Qed.

Lemma sound_check_tool identities tool : sound (check_tool identities tool).
Proof.
  unfold check_tool. apply sound_bind; [unfold _normalize_tool; destruct (Tool.dump tool); try apply well_formed_plain; done|].
  intros normalized. destruct (bool_decide _); [apply well_formed_plain|]. apply sound_bind; [apply sound_canonical|]. intros encoded.
  apply sound_bind; [apply sound_validated|]. intros _. apply sound_bind; [apply sound_validated|done].
Qed.

Lemma sound_finish self credential found : sound (finish_discovery self credential found).
Proof.
  unfold finish_discovery. destruct (Metadata.validate_bounded_json _); [|apply sound_invalid_metadata].
  apply sound_bind; [apply sound_canonical|]. intros canonical. destruct (_ <? slen canonical); [apply well_formed_plain|].
  destruct (discovery_sensitive _ _ _) as [[]|]; [apply well_formed_plain|done|apply well_formed_plain].
Qed.

Lemma wp_define_tools self identities tools g :
  (∀ s, digest_match (sha256_hex s) = true) → Evidence.settled g = false →
  wp (define_tools identities tools)
    (λ r g', sound r ∧ (∀ found, r = Ok found → defined self tools identities found) ∧ kept g g') g.
Proof.
  intros Hdigest. revert identities g. induction tools as [|tool tools IH]; intros identities g Hg; cbn [define_tools].
  { apply wpp_ret. split_and!; [done| |done]. intros found [= <-]. split; try done; try constructor. by intros i ?%elem_of_nil. }
  apply wpp_attempt, wpp_ret. pose proof (sound_check_tool identities tool) as Hsound.
  destruct (check_tool identities tool) as [[normalized digest]|e] eqn:Hc; [|by split_and!].
  apply wpp_attempt, wp_act; [by split|]. intros x (env & d & d' & _ & Hx). cbn [observe].
  destruct x as [supported|e]; [|split_and!; [|done|done]].
  2: { destruct Hx as [-> |[-> _]]; apply well_formed_plain. }
  apply wpp_attempt. eapply wpp_mono; [|by apply IH]. cbn beta. intros [rest|e] g' (Hr & Hd & Hk); [|by split_and!].
  apply wpp_ret. split_and!; [done| |exact Hk]. intros found [= <-]. destruct (Hd rest eq_refl) as [D1 D2 D3 D4 D6 D7 D5].
  destruct (check_tool_ok identities tool normalized digest supported Hdigest Hc) as (Hv & Hn & Hst & Hdict). split.
  - by constructor.
  - cbn. constructor; [|done]. intros Hin. specialize (D3 _ Hin). set_solver.
  - cbn. intros i [->|Hin]%elem_of_cons; [done|]. specialize (D3 _ Hin). set_solver.
  - cbn. by f_equal.
  - cbn. by constructor.
  - cbn. by constructor.
  - constructor; [|done]. cbn. intros ->. exact Hx.
Qed.

Lemma wp__discover self credential g :
  (∀ s, digest_match (sha256_hex s) = true) → sound_session session → Evidence.settled g = false →
  wp (_discover self session (_validate_for_contact context lease) credential)
    (λ r g', sound r ∧ (∀ found, r = Ok found → publishable self credential found) ∧ kept g g') g.
Proof.
  intros Hdigest Hs Hg. apply wpp_attempt. eapply wpp_mono; [|by apply wp_session_contexts]. cbn beta.
  intros [tools|e] g1 (Ht & Hlen & Hk1); [|by split_and!].
  apply wpp_attempt. eapply wpp_mono; [|by apply (wp_define_tools self); [|apply Hk1]]. cbn beta.
  intros [found|e] g2 (Hf & Hd & Hk2); [|split_and!; [done|done|by eapply kept_trans]].
  apply wpp_ret. split_and!; [apply sound_finish| |by eapply kept_trans].
  intros r Hr. eapply finish_discovery_ok; [by apply Hd|by apply Hlen|done].
Qed.

(** What [discover] leaves: a result that may be published, or a well-formed exception. *)
Definition discovered self credential (g : Evidence.t) (r : result Exc.t DiscoveryResult.t) (g' : Evidence.t) : Prop :=
  sound r ∧ (∀ found, r = Ok found → publishable self credential found) ∧ kept g g'.

Lemma discovered_trans self credential g g' r g2 : kept g g' → discovered self credential g' r g2 → discovered self credential g r g2.
Proof. intros Hk (? & ? & ?). split_and!; [done|done|by eapply kept_trans]. Qed.

Lemma wp_attempt_discovery self endpoint credential g :
  (∀ s, digest_match (sha256_hex s) = true) → sound_session session → Evidence.settled g = false →
  wp (attempt_discovery self session (_validate_for_contact context lease) endpoint credential)
    (λ r, discovered self credential g r.2) g.
Proof.
  intros Hdigest Hs Hg. apply wpp_bind, wp_act; [by split|]. intros x (? & ? & ? & _ & Hx). cbn [observe].
  destruct x as [[]|e]; [|by apply wpp_ret; split_and!].
  apply wpp_bind, wp_act; [by split|]. clear Hx. intros x (? & ? & ? & _ & Hx). cbn [observe].
  destruct x as [[]|e]; [|by apply wpp_ret; split_and!].
  apply wpp_bind. eapply wpp_mono; [|by apply wp__discover]. intros [found|e] g1 (Hf & Hp & Hk); [|by apply wpp_ret; split_and!].
  apply wpp_bind, wp_act; [by split; [done|split; [apply Hk|done]]|]. intros sensitive _. cbn [observe]. apply wpp_ret.
  destruct sensitive; split_and!; try done; [apply well_formed_plain|apply Hk..].
Qed.

Lemma wp_classify_exception self credential transport exc g :
  Exc.well_formed exc → Evidence.settled g = false →
  wp (classify_exception transport exc) (discovered self credential g) g.
Proof.
  intros He Hg. unfold classify_exception. destruct (_ || _); [by apply wpp_ret; split_and!|]. cbv zeta.
  set (raised_here := match find_exception _ exc with Some _ => _ | None => _ end).
  assert (Exc.well_formed raised_here) as Hraised.
  { unfold raised_here. pose proof (find_exception_spec ErrorClass.is_protocol_mismatch exc He) as H1'.
    destruct (find_exception ErrorClass.is_protocol_mismatch exc); [by apply well_formed_reraise; [|apply H1']|].
    pose proof (find_exception_spec ErrorClass.is_discovery exc He) as H2'.
    destruct (find_exception ErrorClass.is_discovery exc); [by apply well_formed_reraise; [|apply H2']|by apply well_formed_raise_from]. }
  destruct transport; [|by apply wpp_ret; split_and!].
  apply wpp_bind, wp_act; [by split|]. intros sensitive _. cbn [observe]. apply wpp_ret.
  destruct sensitive; split_and!; try done. by apply well_formed_raise_from.
Qed.

Lemma wp_discover self endpoint secret g :
  (∀ s, digest_match (sha256_hex s) = true) → sound_session session → Evidence.settled g = false →
  wp (discover self session (_validate_for_contact context lease) endpoint secret)
    (discovered self (credential_of secret) g) g.
Proof.
  intros Hdigest Hs Hg. apply wpp_attempt, wpp_ret.
  assert (match discovery_credential endpoint secret with Ok c => c = credential_of secret | Err e => Exc.well_formed e end) as Hc.
  { unfold discovery_credential, credential_of. destruct secret as [token|]; [cbn|done].
    destruct (negb _); [apply well_formed_plain|]. destruct (decode_ascii token) as [c|]; [|apply well_formed_raise_from, well_formed_plain].
    destruct (credential_rejected c); [apply well_formed_plain|done]. }
  destruct (discovery_credential endpoint secret) as [credential|e]; [subst credential|by split_and!].
  apply wpp_bind. eapply wpp_mono; [|by apply wp_attempt_discovery]. intros [transport [found|exc]] g1 (Hf & Hp & Hk); cbn [fst snd] in *;
    [by apply wpp_ret; split_and!|].
  assert (∀ exc, Exc.well_formed exc → wp (classify_exception transport exc) (discovered self (credential_of secret) g) g1) as Hcl.
  { intros exc' He. eapply wpp_mono; [|by apply wp_classify_exception; [|apply Hk]]. intros r g2. by apply discovered_trans. }
  destruct (Exc.class exc); try by apply Hcl.
  apply wpp_bind, wp_act; [by split; [done|split; [apply Hk|done]]|]. intros expired _. cbn [observe]. destruct expired.
  - eapply wpp_mono; [|apply wp_classify_exception; [by apply well_formed_raise_from|apply Hk]]. intros r g2. by apply discovered_trans.
  - apply wpp_ret. split_and!; [done|done|apply Hk..].
Qed.

Lemma sound_attempts {A} (m : M A) x env d d' : attempts m x env d d' → sound x.
Proof.
  intros [[Hx _]|(e & -> & [-> | ->] & _)]; [|apply well_formed_plain..].
  destruct (transaction m env d).1; subst x; [done|apply well_formed_plain].
Qed.

(** The first [try] of [run]: as [discover], with the adapter of a policy version and
    the secret that was retrieved. *)
Lemma wp_discover_target :
  (∀ s, digest_match (sha256_hex s) = true) → sound_session session →
  (∀ v, sound (adapter_factory v)) →
  wp (discover_target adapter_factory session context lease)
    (λ r g, sound r ∧ (∀ found, r = Ok found → ∃ v adapter, adapter_factory v = Ok adapter
       ∧ publishable adapter (credential_of (Evidence.secret g)) found)
     ∧ Evidence.settled g = false ∧ Evidence.published g = None) Evidence.start.
Proof.
  intros Hdigest Hs Hfactory. apply wpp_attempt, wp_act; [by split|].
  intros x (env & d & d' & _ & d0 & Hx%sound_attempts). cbn [observe]. destruct x as [[[endpoint version] reference]|e]; [|by split_and!].
  apply wpp_attempt, wp_act; [by split|]. clear Hx. intros x (? & ? & ? & Hx%sound_attempts). cbn [observe].
  destruct x as [[]|e]; [|by split_and!]. apply wpp_attempt, wpp_ret. unfold pinned_adapter.
  pose proof (Hfactory version) as Hf. destruct (adapter_factory version) as [adapter|e] eqn:Ha.
  2: { split_and!; try done. destruct (Exc.class e); try done; by apply well_formed_raise_from. }
  assert (∀ g secret, Evidence.settled g = false → Evidence.published g = None → secret = Evidence.secret g →
    wp (discover adapter session (_validate_for_contact context lease) endpoint secret)
    (λ r g, sound r ∧ (∀ found, r = Ok found → ∃ v adapter, adapter_factory v = Ok adapter
       ∧ publishable adapter (credential_of (Evidence.secret g)) found)
     ∧ Evidence.settled g = false ∧ Evidence.published g = None) g) as Hd.
  { intros g secret Hg Hp ->. eapply wpp_mono; [|by apply wp_discover]. intros r g' (? & Hr & Hk1 & Hk2 & Hk3).
    split_and!; [done| |done|by rewrite Hk3]. intros found Hfound. exists version, adapter. split; [done|]. rewrite Hk2. by apply Hr. }
  apply wpp_attempt. destruct reference as [reference|]; [|by apply wpp_ret, Hd].
  apply wpp_bind, wp_act; [by split|]. clear Hx. intros x (? & ? & ? & _ & Hx). cbn [observe]. apply wpp_ret.
  destruct x as [secret|e]; [by apply Hd|by split_and!].
Qed.

(** [run] *)
Lemma wp_refresh_run :
  (∀ s, digest_match (sha256_hex s) = true) → sound_session session → (∀ v, sound (adapter_factory v)) →
  wpp justified observe (Refresh.run adapter_factory session context lease)
    (λ r g, ∀ id, r = Ok (Some id) → Evidence.published g = Some id) Evidence.start.
Proof.
  intros Hdigest Hs Hfactory. apply wpp_bind. eapply wpp_mono; [|apply (wpp_weaken quiet); [by intros e g [_ He]|by apply wp_discover_target]].
  intros [found|e] g (He & Hf & Hg & Hp).
  - apply wpp_bind, wp_act; [split; [done|]; split_and!; [done|done|by apply Hf]|]. intros x _. cbn [observe]. apply wpp_ret.
    intros id. destruct x as [i|e]; cbn; [by intros [= <-]|]. by destruct (ErrorClass.is_refusal _).
  - destruct (ErrorClass.is_refusal _); [by apply wpp_ret|]. destruct (is_failure _) eqn:Hfail; [|by apply wpp_ret].
    destruct (classification_decides e He) as (code & Hcode & _). rewrite Hcode.
    apply wpp_bind, wp_act; [by split|]. intros x _. cbn [observe]. apply wpp_ret.
    intros id. destruct (unless_refused x); done.
Qed.

(** What a trace of [run] settles is what its discovery left. *)
Definition settled_by (e : refresh_effect) (t : list (Programs.occurrence refresh_answer)) : Prop :=
  match e with
  | PublishTx _ _ found => returns (discover_target adapter_factory session context lease) t (Ok found)
  | FailureTx _ _ code => ∃ error, returns (discover_target adapter_factory session context lease) t (Err error)
      ∧ ErrorClass.is_refusal (Exc.class error) = false ∧ is_failure (Exc.class error) = true ∧ calls_for error code
  | _ => True
  end.

Lemma run_settles t1 e x t2 :
  (∀ s, digest_match (sha256_hex s) = true) → sound_session session → (∀ v, sound (adapter_factory v)) →
  leaves (Refresh.run adapter_factory session context lease) (t1 ++ occurred e x :: t2) → settles e = true → settled_by e t1.
Proof.
  intros Hdigest Hs Hfactory Hl He. pose proof (wp_discover_target Hdigest Hs Hfactory) as Hw.
  assert (∀ t2', ¬ leaves (discover_target adapter_factory session context lease) (t1 ++ occurred e x :: t2')) as Hquiet.
  { intros t2' Hl'. destruct (wpp_leaves _ _ _ _ _ _ _ _ _ Hw Hl') as [Hq _]. congruence. }
  apply leaves_bind in Hl as [Hl|(ta & tb & r & Ht & Hr & Hl)]; [by apply Hquiet in Hl|].
  assert (∃ tc, t1 = ta ++ tc ∧ tb = tc ++ occurred e x :: t2) as (tc & -> & ->).
  { apply app_eq_app in Ht as [l [[-> ->]|[-> Htb]]]; [by eexists|]. destruct l as [|o l]; [exists []; rewrite !app_nil_r; by split|].
    injection Htb as <- ->. apply returns_leaves in Hr. by apply Hquiet in Hr. }
  pose proof (wpp_returns _ _ _ _ _ _ _ Hw Hr) as (Hsound & _).
  assert (∀ {A} (p : refresh A) e' k, p = Vis e' k → (∀ x, ∃ a, k x = Ret a) → leaves p (tc ++ occurred e x :: t2) → tc = [] ∧ e = e') as Hone.
  { intros A p e' k -> Hk [Hnil|(y & t' & Heq & _ & Ht')]; [by destruct tc|]. destruct tc as [|o tc].
    - apply (f_equal head) in Heq. cbn in Heq. by injection Heq as ->.
    - injection Heq as _ <-. destruct (Hk y) as [a Ha]. rewrite Ha in Ht'. by destruct tc. }
  destruct r as [found|error].
  - eapply Hone in Hl as [-> ->]; [|reflexivity|intros y; eexists; reflexivity]. by rewrite app_nil_r.
  - destruct (ErrorClass.is_refusal (Exc.class error)) eqn:Hrefusal; [by destruct tc|].
    destruct (is_failure (Exc.class error)) eqn:Hfail; [|by destruct tc].
    destruct (classification_decides error Hsound) as (code & Hcode & Hcalls). rewrite Hcode in Hl.
    eapply Hone in Hl as [-> ->]; [|reflexivity|intros y; eexists; reflexivity]. rewrite app_nil_r. by exists error.
Qed.
End refresh.

(** * The promises of a refresh run to the server it contacts and to the registry. *)

(** ** Leave to contact *)

(** The actor may refresh, the job is leased by the lease and the lease has not
    expired, and the connection stands as when the job was made. *)
Record may_contact (env : Env) (context : WorkspaceContext.t) (lease : RefreshLease.t) (d : Db.t) : Prop := {
  mc_role : ∃ m, IdentityDb.workspace_memberships (Db.identity d)
      !! (WorkspaceContext.workspace_id context, WorkspaceContext.actor_user_id context) = Some m
    ∧ WorkspaceMembership.role m ∈ [Role.ADMIN; Role.OPERATOR];
  mc_job : ∃ n job, discovery_refresh_jobs d !! RefreshLease.job_id lease = Some job
    ∧ lease_current context lease job = true ∧ unexpired (clock env n) job = true;
  mc_connection : ∃ c, server_connections d !! RefreshLease.connection_id lease = Some c
    ∧ ServerConnection.workspace_id c = WorkspaceContext.workspace_id context
    ∧ eligible (RefreshLease.connection_version_id lease) (RefreshLease.control_epoch lease) (RefreshLease.generation lease) c = true }.

Lemma current_role_ok context roles b env s m s' :
  require_current_role context roles b env s = Ok (m, s') →
  (∃ m, IdentityDb.workspace_memberships (Db.identity (flushed s))
      !! (WorkspaceContext.workspace_id context, WorkspaceContext.actor_user_id context) = Some m
    ∧ WorkspaceMembership.role m ∈ roles)
  ∧ flushed s' = flushed s.
Proof.
  unfold require_current_role, require_role. intros (? & s1 & [_ ->]%raise_if_ok & H1)%bind_ok.
  apply bind_ok in H1 as (? & s2 & H2 & H1).
  assert (s2 = s) as ->.
  { destruct b; [|by injection H2 as _ ->]. apply bind_ok in H2 as (ws & s3 & [= <- <-] & [_ ->]%raise_if_ok). done. }
  apply bind_ok in H1 as (mem & s3 & [= <- <-] & H1). unfold flushed_identity in H1. destruct (_ !! _) as [mem|] eqn:Hm; [|done].
  apply bind_ok in H1 as (? & s4 & [= <- <-] & H1). apply bind_ok in H1 as (? & s5 & [Hr ->]%raise_if_ok & [= <- <-]).
  apply negb_false_iff, bool_decide_eq_true in Hr. split; [by exists mem|done].
Qed.

Lemma validate_for_contact_ok context lease env d x d' :
  transaction (validate_for_contact context lease) env d = (Ok x, d') → may_contact env context lease d.
Proof.
  intros (s & Hs & _ & _)%commit_ok. unfold validate_for_contact in Hs.
  apply bind_ok in Hs as (m & s1 & H1 & Hs). apply current_role_ok in H1 as [Hrole Hf1].
  apply bind_ok in Hs as (job & s2 & H2 & Hs). unfold _locked_job_for_lease in H2.
  apply bind_ok in H2 as (now & s3 & [= <- <-] & H2). apply bind_ok in H2 as (found & s4 & H4 & H2).
  unfold fetch_refresh_job in H4. apply bind_ok in H4 as (row & s5 & [= <- <-] & H4).
  change (discovery_refresh_jobs (flushed (s1 <| ticks := S (ticks s1) |>))) with (discovery_refresh_jobs (flushed s1)) in H4.
  rewrite Hf1 in H4. cbn [flushed] in H4, Hrole. destruct (discovery_refresh_jobs d !! _) as [j|] eqn:Hj; [|by injection H4 as <- <-].
  destruct (lease_current context lease j && _) eqn:Hl; [|by injection H4 as <- <-]. apply andb_true_iff in Hl as [Hl Hu].
  apply bind_ok in H4 as (? & s6 & H6 & [= <- <-]). injection H6 as _ <-. injection H2 as <- <-.
  apply bind_ok in Hs as (c & s7 & H7 & _). unfold lock_lease_connection, _lock_eligible_connection in H7.
  apply bind_ok in H7 as (found & s8 & H8 & H7). unfold fetch_connection in H8. apply bind_ok in H8 as (row & s9 & [= <- <-] & H8).
  destruct (RegistryDb.server_connections _ !! _) as [c'|] eqn:Hc; [|by injection H8 as <- <-].
  destruct (eqv _ _) eqn:Hw; [|by injection H8 as <- <-]. apply bind_ok in H8 as (? & s10 & H10 & [= <- <-]).
  apply bind_ok in H7 as (? & s11 & [He _]%raise_if_ok & _). apply negb_false_iff in He.
  change (server_connections (flushed s1) !! RefreshLease.connection_id lease = Some c') in Hc. rewrite Hf1 in Hc.
  split; [exact Hrole| |].
  - exists (ticks s1), j. split_and!; [exact Hj|exact Hl|exact Hu].
  - exists c'. split_and!; [exact Hc|by apply eqv_eq|done].
Qed.

Section safety.
Context `{Externals} `{Urls} `{Validators}.
Context (adapter_factory : string → result Exc.t McpClientAdapter.t) (session : Sdk.t).
Implicit Types (context : WorkspaceContext.t) (lease : RefreshLease.t) (t : list (Programs.occurrence refresh_answer)).

Definition evidence t : Evidence.t := summary observe t Evidence.start.

Lemma evidence_snoc t o : evidence (t ++ [o]) = observe (projT1 o) (projT2 o) (evidence t).
Proof. unfold evidence, summary. by rewrite fold_left_app. Qed.

Lemma may_send_after t :
  Evidence.may_send (evidence t) = true →
  ∃ t0 context lease, t = t0 ++ [occurred (ContactTx context lease) (Ok ())].
Proof.
  destruct t as [|[e x] t _] using rev_ind; [done|]. rewrite evidence_snoc. cbn.
  destruct e; cbn; try done. destruct x as [[]|]; [|done]. intros _. by eexists t, _, _.
Qed.

Lemma published_in t id :
  Evidence.published (evidence t) = Some id →
  ∃ t1 context lease found t2, t = t1 ++ occurred (PublishTx context lease found) (Ok id) :: t2.
Proof.
  induction t as [|[e x] t IH] using rev_ind; [done|]. rewrite evidence_snoc. cbn.
  assert (Evidence.published (evidence t) = Some id →
    ∃ t1 context lease found t2, t ++ [occurred e x] = t1 ++ occurred (PublishTx context lease found) (Ok id) :: t2) as Hold.
  { intros (t1 & c & l & found & t2 & ->)%IH. exists t1, c, l, found, (t2 ++ [occurred e x]). by rewrite <- app_assoc. }
  destruct e; cbn; try done. destruct x as [i|]; [|done]. intros [= ->]. by eexists t, _, _, _, [].
Qed.

Context (digests : ∀ s, digest_match (sha256_hex s) = true).
Context (sdk_is_sound : sound_session session) (factory_is_sound : ∀ v, sound (adapter_factory v)).

(** C27. A refresh contacts the server only under its lease.  On every trace of a refresh
    run, complete or cut short, whatever the SDK, the server and the database answer:
    the effect before each HTTP request is the transaction that checks the lease, it
    succeeded, and in the database it ran in the actor may refresh, the job is leased by
    this lease, which has not expired, and the connection still has the version and
    the epochs the job was made for. *)
Theorem refresh_contacts_under_lease context lease t1 request x t2 :
  leaves (Refresh.run adapter_factory session context lease) (t1 ++ occurred (Send request) x :: t2) →
  ∃ t0 env d, t1 = t0 ++ [occurred (ContactTx context lease) (Ok ())] ∧ may_contact env context lease d.
Proof.
  intros Hl. pose proof (wp_refresh_run adapter_factory session context lease digests sdk_is_sound factory_is_sound) as Hw.
  destruct (wpp_leaves _ _ _ _ _ _ _ _ _ Hw Hl) as [_ Hsend]. apply may_send_after in Hsend as (t0 & c & l & ->).
  rewrite <- app_assoc in Hl. destruct (wpp_leaves _ _ _ _ _ _ _ _ _ Hw Hl) as (_ & -> & ->).
  destruct (leaves_possible _ _ _ _ Hl) as (env & d & d' & [[Hx _]|(e & [=] & _)]). exists t0, env, d. split; [done|].
  destruct (transaction _ env d) as [[u|e] d1] eqn:E; [|done]. by eapply validate_for_contact_ok.
Qed.

(** C28. A refresh run settles its job at most once, and with a warrant.  On every trace
    of a refresh run the transaction that publishes an outcome is the last effect.  What it
    publishes as a success is what the discovery of the trace returned: found through an
    adapter of a policy version, accepted by the validation of the registry tool by tool,
    with distinct identities within the limits of the adapter, stored under the digests of
    the canonical forms of the tools and of the whole, every tool screened in its ordinary
    members, its URLs and its schemas, without a credential, neither a recognised one nor
    the one that was retrieved, and a schema called supported only if it passed the check.
    What it publishes as a failure is the code that the exception which the discovery of
    the trace raised calls for.  A run that returns a snapshot has published it. *)
Theorem refresh_settles_with_warrant context lease t :
  leaves (Refresh.run adapter_factory session context lease) t →
  (∀ t1 e x t2, t = t1 ++ occurred e x :: t2 → settles e = true →
     t2 = [] ∧ justified adapter_factory context lease e (evidence t1) ∧ settled_by adapter_factory session context lease e t1)
  ∧ ∀ id, returns (Refresh.run adapter_factory session context lease) t (Ok (Some id)) →
      ∃ t1 found, t = t1 ++ [occurred (PublishTx context lease found) (Ok id)].
Proof.
  intros Hl. pose proof (wp_refresh_run adapter_factory session context lease digests sdk_is_sound factory_is_sound) as Hw.
  assert (∀ t1 e x t2, t = t1 ++ occurred e x :: t2 → settles e = true →
     t2 = [] ∧ justified adapter_factory context lease e (evidence t1) ∧ settled_by adapter_factory session context lease e t1) as Hlast.
  { intros t1 e x t2 -> He. split; [|split; [exact (wpp_leaves _ _ _ _ _ _ _ _ _ Hw Hl)|by eapply run_settles]]. destruct t2 as [|[e' x'] t2]; [done|]. exfalso.
    assert (leaves (Refresh.run adapter_factory session context lease) ((t1 ++ [occurred e x]) ++ occurred e' x' :: t2)) as Hl'
      by by rewrite <- app_assoc.
    destruct (wpp_leaves _ _ _ _ _ _ _ _ _ Hw Hl') as [Hs _]. change (Evidence.settled (evidence (t1 ++ [occurred e x])) = false) in Hs.
    rewrite evidence_snoc in Hs. by destruct e. }
  split; [exact Hlast|]. intros id Hr. pose proof (wpp_returns _ _ _ _ _ _ _ Hw Hr id eq_refl) as Hp.
  apply published_in in Hp as (t1 & c & l & found & t2 & ->). destruct (Hlast _ _ _ _ eq_refl eq_refl) as (-> & (_ & -> & -> & _) & _).
  by exists t1, found.
Qed.
End safety.
