(* ===== verification/RefreshScenario.v ===== *)
(** A refresh run on the scenario's connection, effect by effect, and an exception
    graph with a cycle. *)
From S2P Require Import Prelude Programs Types Json PyStr Secrets Screening Endpoint Matcher.
From S2P Require Import Store Session Registry Identity Connection Capabilities Discovery Ledger Lease Admission Policy Stream Effects Client Runner.
From S2P Require Import Failures Listing Refresh RefreshSpec Scenario RegistryScenario.
From stdpp Require Import strings.
Local Open Scope Z_scope.

Module RefreshScenario.
#[export] Instance validators : Validators := {
  check_schema := λ _, true; re2_compile := λ _, true; lookup_reference := λ _ _, None }.

Definition adapter : McpClientAdapter.t :=
  McpClientAdapter.mk (_invocation_transport_limits ExecutionLimits.default) 10 10 1000 (PyFloat.Finite 1000000)
    (64 * 1024 * 1024).
Definition adapter_factory (policy_version : string) : result Exc.t McpClientAdapter.t :=
  if eqv policy_version "v1" then Ok adapter else Err (raises ErrorClass.KeyError).

(** A server with one tool on one page. *)
Definition echo : Tool.t :=
  Tool.mk "echo" (Some "Echo"%string) None RegistryScenario.schema None
    (Json.Dict [(Json.KStr "name", Json.Str "echo"); (Json.KStr "inputSchema", RegistryScenario.schema)]).
Definition post (method : string) : HttpRequest.t := HttpRequest.mk "POST" method.
Definition asks {A} (method : string) (a : A) : sdk (result Exc.t A) :=
  Vis (post method) (λ x, Ret (match x with Ok _ => Ok a | Err e => Err e end)).
Definition session : Sdk.t :=
  Sdk.mk (Ret (Ok ())) (asks "initialize" QUALIFIED_PROTOCOL_REVISION) (asks "notifications/initialized" ())
    (λ _ _, asks "tools/list" (Page.mk [echo] None)) Ret.

Definition run : refresh (result Exc.t (option uuid)) :=
  Refresh.run adapter_factory session RegistryScenario.admin RegistryScenario.lease.

(** What the run discovers, and the transaction that publishes it. *)
Definition found : DiscoveryResult.t :=
  match finish_discovery adapter None [(Tool.dump echo, definition_of echo RegistryScenario.digest true)] with
  | Ok found => found
  | Err _ => RegistryScenario.found
  end.
Definition publication : result exn uuid * Db.t :=
  transaction (publish_success RegistryScenario.admin RegistryScenario.lease found) (Scenario.env 3) RegistryScenario.claimed.
End RefreshScenario.
Import RefreshScenario.

Lemma session_is_sound : sound_session session.
Proof.
  assert (∀ A m (a : A), sdk_sound sound (asks m a)) as Ha by by intros A m a [x|e] Hx.
  split; [done|apply Ha|apply Ha|intros; apply Ha|]. intros [e|] Hp; cbn; [by apply Hp|done].
Qed.

Lemma factory_is_sound v : sound (adapter_factory v).
Proof. unfold adapter_factory. destruct (eqv v "v1"); [done|]. apply well_formed_plain. Qed.

Lemma returns_step {A} e k x t (a : A) :
  possible (Environment := refresh_environment) e x → returns (k x) t a → returns (Vis e k) (occurred e x :: t) a.
Proof. intros Hx Ht. by exists x, t. Qed.

Lemma target_possible : possible (LoadTargetTx RegistryScenario.admin RegistryScenario.lease) (Ok (RegistryScenario.endpoint, "v1"%string, None)).
Proof.
  exists (Scenario.env 3), RegistryScenario.claimed, RegistryScenario.claimed. split; [done|].
  exists RegistryScenario.claimed. left. split; vm_compute; reflexivity.
Qed.

Lemma contact_possible : possible (ContactTx RegistryScenario.admin RegistryScenario.lease) (Ok ()).
Proof. exists (Scenario.env 3), RegistryScenario.claimed, RegistryScenario.claimed. left. split; vm_compute; reflexivity. Qed.

Lemma exchange_possible request : possible (Environment := refresh_environment) (Send request) (Ok ""%string).
Proof. by exists (Scenario.env 3), RegistryScenario.claimed, RegistryScenario.claimed. Qed.

Lemma support_possible :
  possible (Environment := refresh_environment) (SchemaSupport RegistryScenario.schema None) (Ok true).
Proof.
  exists (Scenario.env 3), RegistryScenario.claimed, RegistryScenario.claimed. split; [done|].
  eexists (λ _, false), _. vm_compute. reflexivity.
Qed.

Lemma publish_possible :
  possible (PublishTx RegistryScenario.admin RegistryScenario.lease found) (Ok 4001%positive).
Proof. exists (Scenario.env 3), RegistryScenario.claimed, publication.2. left. split; vm_compute; reflexivity. Qed.

(** The trace of the run, up to the request for the tools, and from there on. *)
Definition admin : WorkspaceContext.t := RegistryScenario.admin.
Definition lease : RefreshLease.t := RegistryScenario.lease.
Definition exchange (method : string) : list (Programs.occurrence refresh_answer) :=
  [occurred (ContactTx admin lease) (Ok ()); occurred (Send (post method)) (Ok ""%string)].
Definition opening : list (Programs.occurrence refresh_answer) :=
  [occurred (LoadTargetTx admin lease) (Ok (RegistryScenario.endpoint, "v1"%string, None)); occurred (ContactTx admin lease) (Ok ());
   occurred (Resolve RegistryScenario.endpoint) (Ok ()); occurred (OpenTransport None []) (Ok ())]
  ++ exchange "initialize" ++ exchange "notifications/initialized".
Definition closing : list (Programs.occurrence refresh_answer) :=
  [occurred (SchemaSupport RegistryScenario.schema None) (Ok true); occurred ReadSensitive false;
   occurred (PublishTx admin lease found) (Ok 4001%positive)].
Definition trace : list (Programs.occurrence refresh_answer) := opening ++ exchange "tools/list" ++ closing.

Lemma run_returns : returns run trace (Ok (Some 4001%positive)).
Proof.
  unfold trace, opening, closing, exchange. cbn [app].
  eapply returns_step; [exact target_possible|].
  eapply returns_step; [exact contact_possible|].
  eapply returns_step; [by exists (Scenario.env 3), RegistryScenario.claimed, RegistryScenario.claimed|].
  eapply returns_step; [by exists (Scenario.env 3), RegistryScenario.claimed, RegistryScenario.claimed|].
  do 3 (eapply returns_step; [exact contact_possible|]; eapply returns_step; [exact (exchange_possible _)|]).
  eapply returns_step; [exact support_possible|].
  eapply returns_step; [by exists (Scenario.env 3), RegistryScenario.claimed, RegistryScenario.claimed|].
  eapply returns_step; [exact publish_possible|].
  split; [done|]. vm_compute. reflexivity.
Qed.

Lemma digests (s : string) : digest_match (sha256_hex s) = true.
Proof. by vm_compute. Qed.

Definition before_listing : list (Programs.occurrence refresh_answer) := opening ++ [occurred (ContactTx admin lease) (Ok ())].

Lemma refresh_contacts_under_lease_witness :
  ∃ t0 env d, before_listing = t0 ++ [occurred (ContactTx admin lease) (Ok ())] ∧ may_contact env admin lease d.
Proof.
  apply (refresh_contacts_under_lease adapter_factory session digests session_is_sound factory_is_sound admin lease
           before_listing (post "tools/list") (Ok ""%string) closing).
  exact (returns_leaves _ _ _ run_returns).
Defined.

Lemma refresh_settles_with_warrant_witness : ∃ t1 f, trace = t1 ++ [occurred (PublishTx admin lease f) (Ok 4001%positive)].
Proof.
  refine (proj2 (refresh_settles_with_warrant adapter_factory session digests session_is_sound factory_is_sound admin lease
                   trace (returns_leaves _ _ _ run_returns)) 4001%positive run_returns).
Defined.

(** A discovery error and an exceeded limit in one group: the client raises the first
    from the group that holds it, so the graph has a cycle. *)
Definition group : Exc.t :=
  Exc.mk {[0%nat := Object_.mk (ErrorClass.Discovery DiscoveryError) [] None;
           1%nat := Object_.mk ErrorClass.ResponseLimitExceeded [] None;
           2%nat := Object_.mk ErrorClass.ExceptionGroup [0%nat; 1%nat] None]} 2.
Definition cyclic : Exc.t := Exc.reraise_from 0 group.

Lemma cyclic_well_formed : Exc.well_formed cyclic.
Proof.
  apply well_formed_reraise; [|by eexists]. split; [by eexists|]. intros x o Ho. cbn in Ho.
  repeat (apply lookup_insert_Some in Ho as [(<- & <-)|[_ Ho]]; [split; [|done]; cbn; intros y Hy;
    repeat (apply elem_of_cons in Hy as [->|Hy]; [split; [lia|by eexists]|]); by apply elem_of_nil in Hy|]).
  apply lookup_singleton_Some in Ho as [<- <-]. split; [|done]. cbn. intros y Hy.
  repeat (apply elem_of_cons in Hy as [->|Hy]; [split; [lia|by eexists]|]). by apply elem_of_nil in Hy.
Qed.

Lemma classification_exact_witness :
  classify_discovery_failure cyclic = Some DiscoveryFailureCode.RESPONSE_LIMIT
  ∧ ∃ code, classify_discovery_failure cyclic = Some code.
Proof.
  split; [vm_compute; reflexivity|].
  exact (match classification_exact cyclic cyclic_well_formed with ex_intro _ code (conj H _) => ex_intro _ code H end).
Defined.

(** A schema with a reference to one of its definitions. *)
Definition named : Json.t :=
  Json.Dict [(Json.KStr "$defs", Json.Dict [(Json.KStr "a", RegistryScenario.schema)]); (Json.KStr "$ref", Json.Str "#/$defs/a")].
#[local] Instance resolving : Validators := {
  check_schema := λ _, true; re2_compile := λ _, true;
  lookup_reference := λ schema reference, if eqv reference "#/$defs/a"%string then Some RegistryScenario.schema else None }.

Lemma supported_schemas_are_safe_witness : resolves named (Json.Str "#/$defs/a").
Proof.
  assert (_schema_is_supported (λ _, false) named None = Continue () 9) as E by (vm_compute; reflexivity).
  refine (proj2 (proj2 (proj2 (supported_schemas_are_safe (λ _, false) named None) 9%nat E 0%nat named _) _ (rtc_refl _ _)) _ _);
    [by left|].
  split; [reflexivity|]. eexists _, _. split; [reflexivity|]. split; [by right; left|by left].
Defined.
