(* ===== verification/Endpoints.v ===== *)
(** The HTTP API (api/contracts.py, api/errors.py, api/main.py): its errors and their
    statuses, the responses, and the endpoints that read.

    An endpoint is a function of the request and the database; authentication, which
    comes before, is in Auth.v, and mutations in Idempotency.v. *)
From S2P Require Import Prelude Types Json PyStr Cursors Store Session Registry Identity Permits Official.
From stdpp Require Import strings sorting.
Local Open Scope Z_scope.

(** ** Errors *)

Inductive api_error :=
| Service (e : exn)
| RegistryFailed (code : OfficialRegistryFailureCode.t)
| AuthenticationError
| InvalidRequest              (* also a [RequestValidationError] *)
| ApiIdempotencyConflict
| ApiIdempotencyHistoryIncomplete
| RuntimeError.
#[global] Instance api_error_eq_dec : EqDecision api_error.
Proof. solve_decision. Defined.

Inductive error_code :=
| authentication_required | access_denied | invalid_request | state_conflict | idempotency_conflict
| idempotency_key_history_incomplete | internal_error | rate_limited | capacity_exceeded
| RegistryCode (code : OfficialRegistryFailureCode.t)
| RunCode (code : ExecutionFailureCode.t).

(** The exception handlers of [create_app], and [response_policy] for what they leave. *)
Definition registry_error (code : OfficialRegistryFailureCode.t) : Z :=
  match code with
  | OfficialRegistryFailureCode.TIMEOUT | OfficialRegistryFailureCode.UPSTREAM_UNAVAILABLE => 503
  | OfficialRegistryFailureCode.PERSISTENCE_FAILURE => 500
  | _ => 422
  end.
Definition execution_error (code : ExecutionFailureCode.t) : Z :=
  match code with
  | ExecutionFailureCode.IDEMPOTENCY_KEY_HISTORY_INCOMPLETE
  | ExecutionFailureCode.CONFIRMATION_KEY_HISTORY_INCOMPLETE => 503
  | ExecutionFailureCode.PERSISTENCE_FAILURE => 500
  | ExecutionFailureCode.ACTIVE_RUN_LIMIT => 429
  | _ => 409
  end.
Definition error_response (e : api_error) : error_code * Z :=
  match e with
  | AuthenticationError => (authentication_required, 401)
  | Service AuthorizationDenied => (access_denied, 403)
  | InvalidRequest => (invalid_request, 422)
  | RegistryFailed code => (RegistryCode code, registry_error code)
  | Service (ExecutionError code) => (RunCode code, execution_error code)
  | Service InvalidConnectionTransition | Service InvalidCapabilityTransition | Service IntegrityError => (state_conflict, 409)
  | ApiIdempotencyConflict => (idempotency_conflict, 409)
  | ApiIdempotencyHistoryIncomplete => (idempotency_key_history_incomplete, 503)
  | Service _ | RuntimeError => (internal_error, 500)
  end.

(** ** Responses *)

(** Columns the database fills in and no service reads: they do not change, so that they
    are functions of the row. *)
Class Defaults := {
  created_at : uuid → instant;                 (* of connections, versions and capabilities *)
  occurred_at : uuid → instant;                (* of audit events *)
  event_id : uuid → Z → uuid }.                (* of the events of a run *)

Module RegistryEntryResponse.
Record t := mk {
  id : uuid; source : RegistrySource.t; external_id : option string; current_version_id : option uuid;
  name : option string; description : option string; created_at : instant }.
End RegistryEntryResponse.

Module ConnectionResponse.
Record t := mk {
  id : uuid; name : string; lifecycle : ConnectionLifecycle.t; pending_version_id : option uuid;
  verified_version_id : option uuid; control_epoch : Z; refresh_generation : Z;
  last_refresh_error_code : option DiscoveryFailureCode.t; last_refresh_at : option instant; created_at : instant }.
End ConnectionResponse.

Module ConnectionVersionResponse.
Record t := mk {
  id : uuid; sequence : Z; endpoint_url : string; secret_binding_id : option uuid; transport : Transport.t;
  policy_version : string; created_at : instant }.
End ConnectionVersionResponse.

Module ConnectionDetailResponse.
Record t := mk {
  connection : ConnectionResponse.t; versions : list ConnectionVersionResponse.t; versions_truncated : bool }.
End ConnectionDetailResponse.

Module CapabilityResponse.
Record t := mk {
  id : uuid; connection_id : uuid; tool_identity : string; pending_version_id : option uuid;
  enabled_version_id : option uuid; status : CapabilityStatus.t; status_epoch : Z; created_at : instant }.
End CapabilityResponse.

Module CapabilityVersionResponse.
Record t := mk {
  id : uuid; capability_id : uuid; connection_version_id : uuid; sequence : Z; display_name : string;
  description : option string; input_schema : Json.t; output_schema : option Json.t; metadata_digest : string;
  schema_supported : bool; created_at : instant }.
End CapabilityVersionResponse.

Module CapabilityDetailResponse.
Record t := mk {
  capability : CapabilityResponse.t; versions : list CapabilityVersionResponse.t; versions_truncated : bool;
  observed_in_current_snapshot : bool; observed_version_id : option uuid }.
End CapabilityDetailResponse.

Module RunSummaryResponse.
Record t := mk {
  id : uuid; correlation_id : uuid; actor_user_id : uuid; capability_id : uuid; capability_version_id : uuid;
  connection_id : uuid; connection_version_id : uuid; status : RunStatus.t; safe_error_code : option RunFailureCode.t;
  cancellation_requested : bool; deadline : instant; created_at : instant; updated_at : instant;
  terminal_at : option instant }.
End RunSummaryResponse.

Module RunResponse.
Record t := mk {
  summary : RunSummaryResponse.t; arguments : option Json.t; result : option Json.t;
  arguments_expires_at : instant; result_expires_at : option instant; server_observed_at : instant }.
End RunResponse.

Module RunEventResponse.
Record t := mk {
  id : uuid; sequence : Z; event_type : RunEventType.t; status : RunStatus.t;
  safe_error_code : option RunFailureCode.t; occurred_at : instant }.
End RunEventResponse.

Module AuditEventResponse.
Record t := mk {
  id : uuid; actor_user_id : uuid; action : AuditAction.t; resource_type : ResourceType.t; resource_id : uuid;
  outcome : AuditOutcome.t; correlation_id : uuid; occurred_at : instant }.
End AuditEventResponse.

(** * The endpoints of api/contracts.py that read: the listings with their filters, the
    details, and the run responses with their retention. *)

Section responses.
Context `{Defaults}.

(** ** Rows as responses *)

Definition _registry_entry (id : uuid) (entry : RegistryEntry.t) (version : option RegistryEntryVersion.t) : RegistryEntryResponse.t :=
  RegistryEntryResponse.mk id (RegistryEntry.source entry) (RegistryEntry.external_id entry)
    (RegistryEntry.current_version_id entry) (RegistryEntryVersion.name <$> version)
    (version ≫= RegistryEntryVersion.description) (created_at id).

Definition _connection (id : uuid) (item : ServerConnection.t) : ConnectionResponse.t :=
  ConnectionResponse.mk id (ServerConnection.name item) (ServerConnection.lifecycle item)
    (ServerConnection.pending_version_id item) (ServerConnection.verified_version_id item)
    (ServerConnection.control_epoch item) (ServerConnection.refresh_generation item)
    (ServerConnection.last_refresh_error_code item) (ServerConnection.last_refresh_at item) (created_at id).

Definition _connection_version (id : uuid) (item : ServerConnectionVersion.t) : ConnectionVersionResponse.t :=
  ConnectionVersionResponse.mk id (ServerConnectionVersion.sequence item) (ServerConnectionVersion.endpoint_url item)
    (ServerConnectionVersion.secret_binding_id item) (ServerConnectionVersion.transport item)
    (ServerConnectionVersion.policy_version item) (created_at id).

Definition _capability (id : uuid) (item : Capability.t) : CapabilityResponse.t :=
  CapabilityResponse.mk id (Capability.connection_id item) (Capability.tool_identity item)
    (Capability.pending_version_id item) (Capability.enabled_version_id item) (Capability.status item)
    (Capability.status_epoch item) (created_at id).

Definition _capability_version (id : uuid) (item : CapabilityVersion.t) (connection_version_id : uuid) : CapabilityVersionResponse.t :=
  CapabilityVersionResponse.mk id (CapabilityVersion.capability_id item) connection_version_id (CapabilityVersion.sequence item)
    (CapabilityVersion.display_name item) (CapabilityVersion.description item) (CapabilityVersion.input_schema item)
    (CapabilityVersion.output_schema item) (CapabilityVersion.metadata_digest item) (CapabilityVersion.schema_supported item)
    (created_at id).

Definition _run_summary (id : uuid) (run : Run.t) : RunSummaryResponse.t :=
  RunSummaryResponse.mk id (Run.correlation_id run) (Run.actor_user_id run) (Run.capability_id run)
    (Run.capability_version_id run) (Run.connection_id run) (Run.connection_version_id run) (Run.status run)
    (Run.safe_error_code run) (Run.cancellation_requested run) (Run.deadline run) (Run.created_at run)
    (Run.updated_at run) (Run.terminal_at run).

(** [_run_response_value]: content past its retention is not shown. *)
Definition _run_response_value (id : uuid) (run : Run.t) (result : option RunResult.t) (current : instant) : RunResponse.t :=
  RunResponse.mk (_run_summary id run)
    (if current <? Run.arguments_expires_at run then Run.arguments run else None)
    (result ≫= λ r, if current <? RunResult.expires_at r then Some (RunResult.payload r) else None)
    (Run.arguments_expires_at run) (RunResult.expires_at <$> result) current.

(** [_run_response] *)
Definition _run_response (now : instant) (d : Db.t) (id : uuid) (run : Run.t) : RunResponse.t :=
  let result := ExecutionDb.run_results (Db.execution d) !! id in
  let of_workspace := match result with
                      | Some r => if eqv (RunResult.workspace_id r) (Run.workspace_id run) then Some r else None
                      | None => None
                      end in
  _run_response_value id run of_workspace now.

Definition run_event_response (item : RunEvent.t) : RunEventResponse.t :=
  RunEventResponse.mk (event_id (RunEvent.run_id item) (RunEvent.sequence item)) (RunEvent.sequence item)
    (RunEvent.event_type item) (RunEvent.status item) (RunEvent.safe_error_code item) (RunEvent.occurred_at item).

Definition audit_event_response (item : AuditEvent.t) : AuditEventResponse.t :=
  AuditEventResponse.mk (AuditEvent.id item) (AuditEvent.actor_user_id item) (AuditEvent.action item)
    (AuditEvent.resource_type item) (AuditEvent.resource_id item) (AuditEvent.outcome item)
    (AuditEvent.correlation_id item) (occurred_at (AuditEvent.id item)).
End responses.

(** ** Listings *)

(** [_require_aware_datetime] *)
Definition _require_aware_datetime (value : Datetime.t) : result api_error instant :=
  if Datetime.naive value then Err InvalidRequest else Ok (Datetime.utc value).

Definition aware (value : option Datetime.t) : result api_error (option instant) :=
  match value with None => Ok None | Some v => Some <$> _require_aware_datetime v end.

(** [start is not None and end is not None and start >= end] *)
Definition empty_range (start stop : option Z) : bool :=
  match start, stop with Some a, Some b => b <=? a | _, _ => false end.

(** [if value is not None: statement.where(column == value)] *)
Definition matches {A} `{EqDecision A} (value : option A) (column : A) : bool :=
  match value with Some v => eqv v column | None => true end.
Definition at_least (bound : option Z) (column : Z) : bool := match bound with Some b => b <=? column | None => true end.
Definition before (bound : option Z) (column : Z) : bool := match bound with Some b => column <? b | None => true end.
Definition at_most (bound : option Z) (column : Z) : bool := match bound with Some b => column <=? b | None => true end.

Module RunFilters.
Record t := mk {
  run_status : option string; active : bool; capability_id : option uuid; actor_id : option uuid;
  created_after : option Datetime.t; created_before : option Datetime.t;
  min_duration_seconds : option Z; max_duration_seconds : option Z }.
Definition any : t := mk None false None None None None None None.
End RunFilters.

Module CapabilityFilters.
Record t := mk { connection_id : option uuid; status : option string; executable : bool }.
Definition any : t := mk None None false.
End CapabilityFilters.

Module AuditFilters.
Record t := mk {
  resource_type : option ResourceType.t; resource_id : option uuid; actor_id : option uuid;
  action : option AuditAction.t; outcome : option AuditOutcome.t;
  occurred_after : option Datetime.t; occurred_before : option Datetime.t }.
Definition any : t := mk None None None None None None None.
End AuditFilters.

Definition newest_first {R} (rows : list (uuid * R)) : list (uuid * R) := order_rows fst newer_id rows.

Section listings.
Context `{Defaults} (context : WorkspaceContext.t).
Definition workspace : uuid := WorkspaceContext.workspace_id context.

Definition entry_rows (d : Db.t) : list (uuid * RegistryEntry.t) :=
  newest_first (where_rows (RegistryDb.registry_entries (Db.registry d)) (λ r, eqv (RegistryEntry.workspace_id r) workspace)).

Definition connection_rows (d : Db.t) : list (uuid * ServerConnection.t) :=
  newest_first (where_rows (server_connections d) (λ r, eqv (ServerConnection.workspace_id r) workspace)).

(** The joins and conditions of [executable]. *)
Definition executable_now (d : Db.t) (r : Capability.t) : bool :=
  match server_connections d !! Capability.connection_id r, Capability.enabled_version_id r ≫= λ v, mcp_tool_bindings d !! v with
  | Some connection, Some binding =>
      eqv (Capability.status r) CapabilityStatus.ENABLED && is_none (Capability.pending_version_id r)
      && eqv (ServerConnection.lifecycle connection) ConnectionLifecycle.ACTIVE
      && is_none (ServerConnection.pending_version_id connection)
      && eqv (ServerConnection.verified_version_id connection) (Some (McpToolBinding.connection_version_id binding))
  | _, _ => false
  end.

Definition capability_rows (f : CapabilityFilters.t) (d : Db.t) : list (uuid * Capability.t) :=
  newest_first (where_rows (RegistryDb.capabilities (Db.registry d)) (λ r,
    eqv (Capability.workspace_id r) workspace
    && (negb (CapabilityFilters.executable f) || executable_now d r)
    && matches (CapabilityFilters.connection_id f) (Capability.connection_id r)
    && matches (CapabilityFilters.status f) (CapabilityStatus.value (Capability.status r)))).

Definition run_key (r : uuid * Run.t) : instant * uuid := (Run.created_at r.2, r.1).

(** [extract(epoch from coalesce(terminal_at, now()))] less that of [created_at], in
    microseconds. *)
Definition duration (now : instant) (r : Run.t) : Z := default now (Run.terminal_at r) - Run.created_at r.

Definition run_rows (f : RunFilters.t) (now : instant) (d : Db.t) : result api_error (list (uuid * Run.t)) :=
  created_after ← aware (RunFilters.created_after f);
  created_before ← aware (RunFilters.created_before f);
  _ ← check_that (negb (empty_range created_after created_before)) InvalidRequest;
  _ ← check_that (negb (match RunFilters.min_duration_seconds f, RunFilters.max_duration_seconds f with
                        | Some a, Some b => b <? a | _, _ => false end)) InvalidRequest;
  Ok (order_rows run_key newer (where_rows (ExecutionDb.runs (Db.execution d)) (λ r,
    eqv (Run.workspace_id r) workspace
    && (negb (RunFilters.active f) || RunStatus.active (Run.status r))
    && matches (RunFilters.run_status f) (RunStatus.value (Run.status r))
    && matches (RunFilters.capability_id f) (Run.capability_id r)
    && matches (RunFilters.actor_id f) (Run.actor_user_id r)
    && at_least created_after (Run.created_at r) && before created_before (Run.created_at r)
    && at_least (seconds <$> RunFilters.min_duration_seconds f) (duration now r)
    && at_most (seconds <$> RunFilters.max_duration_seconds f) (duration now r)))).

(** [_scoped_one] *)
Definition _scoped_one {R} (table : gmap uuid R) (workspace_id : R → uuid) (identifier : uuid) : result api_error R :=
  match table !! identifier with
  | Some r => if eqv (workspace_id r) workspace then Ok r else Err (Service AuthorizationDenied)
  | None => Err (Service AuthorizationDenied)
  end.

Definition event_rows (run_id : uuid) (d : Db.t) : result api_error (list RunEvent.t) :=
  _ ← _scoped_one (ExecutionDb.runs (Db.execution d)) Run.workspace_id run_id;
  Ok (order_rows RunEvent.sequence Z.lt (filter (λ e, RunEvent.workspace_id e = workspace ∧ RunEvent.run_id e = run_id)
        (ExecutionDb.run_events (Db.execution d)))).

Definition audit_key (e : AuditEvent.t) : instant * uuid := (occurred_at (AuditEvent.id e), AuditEvent.id e).

Definition audit_rows (f : AuditFilters.t) (d : Db.t) : result api_error (list AuditEvent.t) :=
  _ ← check_that (bool_decide (WorkspaceContext.role context ∈ [Role.ADMIN; Role.OPERATOR])) (Service AuthorizationDenied);
  occurred_after ← aware (AuditFilters.occurred_after f);
  occurred_before ← aware (AuditFilters.occurred_before f);
  _ ← check_that (negb (empty_range occurred_after occurred_before)) InvalidRequest;
  Ok (order_rows audit_key newer (filter (λ e,
    (eqv (AuditEvent.workspace_id e) workspace
     && matches (AuditFilters.resource_type f) (AuditEvent.resource_type e)
     && matches (AuditFilters.resource_id f) (AuditEvent.resource_id e)
     && matches (AuditFilters.actor_id f) (AuditEvent.actor_user_id e)
     && matches (AuditFilters.action f) (AuditEvent.action e)
     && matches (AuditFilters.outcome f) (AuditEvent.outcome e)
     && at_least occurred_after (occurred_at (AuditEvent.id e))
     && before occurred_before (occurred_at (AuditEvent.id e))) = true) (IdentityDb.audit_events (Db.identity d)))).
End listings.

(** A listing: the rows of its statement, or the error of its guards and filters, their
    order, and the response of a row. *)
Module Statement.
Record t := mk {
  Row : Type; Key : Type; Item : Type;
  codec : CursorCodec Key;
  precedes : Key → Key → Prop;
  precedes_dec : RelDecision precedes;
  precedes_order : StrictOrder precedes;
  key : Row → Key;
  statement : instant → Db.t → result api_error (list Row);
  respond : Db.t → Row → Item }.
End Statement.
#[global] Existing Instances Statement.codec Statement.precedes_dec Statement.precedes_order.

(** [rows[:limit]] and the cursor of the next page. *)
Definition list_page (l : Statement.t) (limit : nat) (now : instant) (cursor : option string) (d : Db.t)
    : result api_error (list (Statement.Item l) * option string) :=
  rows ← Statement.statement l now d;
  match listed (Statement.key l) (Statement.precedes l) limit rows cursor with
  | Some (items, next_cursor) => Ok (Statement.respond l d <$> items, next_cursor)
  | None => Err InvalidRequest
  end.

Section endpoints.
Context `{Defaults} (context : WorkspaceContext.t).

Definition current_version (d : Db.t) (entry : RegistryEntry.t) : option RegistryEntryVersion.t :=
  v ← RegistryEntry.current_version_id entry; RegistryDb.registry_entry_versions (Db.registry d) !! v.

Definition list_registry_entries : Statement.t :=
  Statement.mk (uuid * RegistryEntry.t) uuid RegistryEntryResponse.t _ newer_id _ _ fst
    (λ _ d, Ok (entry_rows context d)) (λ d r, _registry_entry r.1 r.2 (current_version d r.2)).
Definition list_connections : Statement.t :=
  Statement.mk (uuid * ServerConnection.t) uuid ConnectionResponse.t _ newer_id _ _ fst
    (λ _ d, Ok (connection_rows context d)) (λ _ r, _connection r.1 r.2).
Definition list_capabilities (f : CapabilityFilters.t) : Statement.t :=
  Statement.mk (uuid * Capability.t) uuid CapabilityResponse.t _ newer_id _ _ fst
    (λ _ d, Ok (capability_rows context f d)) (λ _ r, _capability r.1 r.2).
Definition list_runs (f : RunFilters.t) : Statement.t :=
  Statement.mk (uuid * Run.t) (instant * uuid) RunSummaryResponse.t _ newer _ _ run_key
    (λ now d, run_rows context f now d) (λ _ r, _run_summary r.1 r.2).
Definition list_run_events (run_id : uuid) : Statement.t :=
  Statement.mk RunEvent.t Z RunEventResponse.t _ Z.lt _ _ RunEvent.sequence
    (λ _ d, event_rows context run_id d) (λ _ e, run_event_response e).
Definition list_audit_events (f : AuditFilters.t) : Statement.t :=
  Statement.mk AuditEvent.t (instant * uuid) AuditEventResponse.t _ newer _ _ audit_key
    (λ _ d, audit_rows context f d) (λ _ e, audit_event_response e).

(** ** Details *)

Definition _DETAIL_VERSION_LIMIT : nat := 100.

(** [ORDER BY sequence DESC] *)
Definition by_sequence {R} (sequence : R → Z) (rows : list R) : list R :=
  order_rows sequence larger rows.

Definition get_connection (connection_id : uuid) (d : Db.t) : result api_error ConnectionDetailResponse.t :=
  connection ← _scoped_one context (server_connections d) ServerConnection.workspace_id connection_id;
  let versions := take (S _DETAIL_VERSION_LIMIT) (by_sequence (λ r, ServerConnectionVersion.sequence r.2)
    (where_rows (RegistryDb.server_connection_versions (Db.registry d))
       (λ v, eqv (ServerConnectionVersion.connection_id v) connection_id))) in
  Ok (ConnectionDetailResponse.mk (_connection connection_id connection)
    ((λ r, _connection_version r.1 r.2) <$> take _DETAIL_VERSION_LIMIT versions)
    (bool_decide (_DETAIL_VERSION_LIMIT < length versions)%nat)).

(** The versions of a capability, each joined with its binding. *)
Definition bound_versions (capability_id : uuid) (P : uuid → bool) (d : Db.t) : list (uuid * CapabilityVersion.t * uuid) :=
  by_sequence (λ r, CapabilityVersion.sequence r.1.2)
    (omap (λ r, binding ← mcp_tool_bindings d !! r.1; Some (r, McpToolBinding.connection_version_id binding))
       (filter (λ r, P r.1 = true)
          (where_rows (RegistryDb.capability_versions (Db.registry d)) (λ v, eqv (CapabilityVersion.capability_id v) capability_id)))).

(** The version of the capability that the current snapshot observed. *)
Definition observed_version (capability_id : uuid) (capability : Capability.t) (d : Db.t) : option uuid :=
  connection ← server_connections d !! Capability.connection_id capability;
  if negb (eqv (ServerConnection.workspace_id connection) (workspace context)) then None else
  snapshot ← ServerConnection.current_snapshot_id connection;
  head (DiscoverySnapshotCapability.capability_version_id <$>
    filter (λ o, DiscoverySnapshotCapability.workspace_id o = workspace context
               ∧ DiscoverySnapshotCapability.connection_id o = Capability.connection_id capability
               ∧ DiscoverySnapshotCapability.snapshot_id o = snapshot
               ∧ CapabilityVersion.capability_id <$>
                   RegistryDb.capability_versions (Db.registry d) !! DiscoverySnapshotCapability.capability_version_id o
                 = Some capability_id)
      (RegistryDb.discovery_snapshot_capabilities (Db.registry d))).

Definition get_capability (capability_id : uuid) (d : Db.t) : result api_error CapabilityDetailResponse.t :=
  capability ← _scoped_one context (RegistryDb.capabilities (Db.registry d)) Capability.workspace_id capability_id;
  let versions := take (S _DETAIL_VERSION_LIMIT) (bound_versions capability_id (λ _, true) d) in
  let visible_versions := take _DETAIL_VERSION_LIMIT versions in
  let visible_ids := (λ r, r.1.1) <$> visible_versions in
  let decision_ids := filter (.∉ visible_ids)
    (option_list (Capability.pending_version_id capability) ++ option_list (Capability.enabled_version_id capability)) in
  let decided := if decide (decision_ids = []) then []
                 else bound_versions capability_id (λ id, bool_decide (id ∈ decision_ids)) d in
  let decision_version_id := or_else (Capability.pending_version_id capability) (Capability.enabled_version_id capability) in
  let observed_version_id := observed_version capability_id capability d in
  Ok (CapabilityDetailResponse.mk (_capability capability_id capability)
    ((λ r, _capability_version r.1.1 r.1.2 r.2) <$> visible_versions ++ decided)
    (bool_decide (_DETAIL_VERSION_LIMIT < length versions)%nat)
    (eqv observed_version_id decision_version_id) observed_version_id).

Definition get_capability_version (capability_version_id : uuid) (d : Db.t) : result api_error CapabilityVersionResponse.t :=
  version ← _scoped_one context (RegistryDb.capability_versions (Db.registry d)) CapabilityVersion.workspace_id capability_version_id;
  match mcp_tool_bindings d !! capability_version_id with
  | Some binding =>
      if eqv (McpToolBinding.workspace_id binding) (workspace context)
      then Ok (_capability_version capability_version_id version (McpToolBinding.connection_version_id binding))
      else Err RuntimeError
  | None => Err RuntimeError
  end.

Definition get_run (now : instant) (run_id : uuid) (d : Db.t) : result api_error RunResponse.t :=
  run ← _scoped_one context (ExecutionDb.runs (Db.execution d)) Run.workspace_id run_id;
  Ok (_run_response now d run_id run).
End endpoints.
