(* ===== verification/EndpointsSpec.v ===== *)
(** What the reading endpoints promise: a client that follows the cursors sees every row
    once, only rows of its workspace, and no content past its retention. *)
From S2P Require Import Prelude Types Json PyStr Store Session Registry Identity Hoare Cursors Permits Official Endpoints.
From stdpp Require Import strings sorting.
Local Open Scope Z_scope.

Section spec.
Context `{Defaults} (context : WorkspaceContext.t).

(** ** The listings of the API *)

Inductive listing :=
| RegistryEntries | Connections | Capabilities (f : CapabilityFilters.t) | Runs (f : RunFilters.t)
| RunEvents (run_id : uuid) | AuditEvents (f : AuditFilters.t).

Definition statement_of (q : listing) : Statement.t :=
  match q with
  | RegistryEntries => list_registry_entries context
  | Connections => list_connections context
  | Capabilities f => list_capabilities context f
  | Runs f => list_runs context f
  | RunEvents run_id => list_run_events context run_id
  | AuditEvents f => list_audit_events context f
  end.

(** The workspace of a row. *)
Definition owner (q : listing) : Statement.Row (statement_of q) → uuid :=
  match q with
  | RegistryEntries => λ r, RegistryEntry.workspace_id r.2
  | Connections => λ r, ServerConnection.workspace_id r.2
  | Capabilities _ => λ r, Capability.workspace_id r.2
  | Runs _ => λ r, Run.workspace_id r.2
  | RunEvents _ => RunEvent.workspace_id
  | AuditEvents _ => AuditEvent.workspace_id
  end.

(** What the schema and the types of the columns guarantee: identifiers of 128 bits,
    instants a [datetime] can hold, small sequence numbers, and unique keys. *)
Record readable (d : Db.t) : Prop := {
  rd_entries : map_Forall (λ id _, valid_uuid id) (RegistryDb.registry_entries (Db.registry d));
  rd_connections : map_Forall (λ id _, valid_uuid id) (server_connections d);
  rd_capabilities : map_Forall (λ id _, valid_uuid id) (RegistryDb.capabilities (Db.registry d));
  rd_runs : map_Forall (λ id r, datetime_min <= Run.created_at r <= datetime_max ∧ valid_uuid id) (ExecutionDb.runs (Db.execution d));
  rd_events : Forall (λ e, 1 <= RunEvent.sequence e < 10 ^ 12) (ExecutionDb.run_events (Db.execution d));
  rd_event_keys : NoDup ((λ e, (RunEvent.run_id e, RunEvent.sequence e)) <$> ExecutionDb.run_events (Db.execution d));
  rd_audit : Forall (λ e, datetime_min <= occurred_at (AuditEvent.id e) <= datetime_max ∧ valid_uuid (AuditEvent.id e))
    (IdentityDb.audit_events (Db.identity d));
  rd_audit_keys : NoDup (AuditEvent.id <$> IdentityDb.audit_events (Db.identity d)) }.

(** ** Statements are ordered *)

Lemma NoDup_fmap_filter {A B} (f : A → B) (P : A → Prop) `{!∀ x, Decision (P x)} (l : list A) :
  NoDup (f <$> l) → NoDup (f <$> filter P l).
Proof.
  induction l as [|x l IH]; [done|]. rewrite fmap_cons. intros [Hx Hl]%NoDup_cons. rewrite filter_cons.
  destruct (decide _); [|by apply IH]. rewrite fmap_cons. apply NoDup_cons. split; [|by apply IH].
  intros (y & Hy & [_ Hin]%list_elem_of_filter)%list_elem_of_fmap. apply Hx. rewrite Hy. by apply list_elem_of_fmap_2.
Qed.

Lemma where_rows_ids {R} (table : gmap uuid R) P : NoDup ((where_rows table P).*1).
Proof. unfold where_rows. apply (NoDup_fmap_filter fst), NoDup_fst_map_to_list. Qed.

Lemma where_rows_in {R} (table : gmap uuid R) P r : r ∈ where_rows table P → table !! r.1 = Some r.2 ∧ P r.2 = true.
Proof. destruct r as [id r]. unfold where_rows. by intros [? Hin%elem_of_map_to_list]%list_elem_of_filter. Qed.

Lemma newest_first_ordered {R} (table : gmap uuid R) P :
  map_Forall (λ id _, valid_uuid id) table → ordered fst newer_id (newest_first (where_rows table P)).
Proof.
  intros Hv. split; [apply (order_rows_ordered _ _ newer_id_trichotomy), where_rows_ids|].
  apply Forall_forall. intros r Hr. unfold newest_first in Hr. rewrite elem_of_order_rows in Hr. apply where_rows_in in Hr as [Hr _].
  by apply (Hv _ _ Hr).
Qed.

Lemma NoDup_key {A B C} (f : A → B) (g : A → C) (l : list A) :
  (∀ x y, x ∈ l → y ∈ l → g x = g y → f x = f y) → NoDup (f <$> l) → NoDup (g <$> l).
Proof.
  induction l as [|x l IH]; intros Hfg; [constructor|]. rewrite !fmap_cons. intros [Hx Hl]%NoDup_cons. apply NoDup_cons.
  split; [|apply IH; [|done]; intros y z ??; apply Hfg; by right]. intros (y & Hy & Hin)%list_elem_of_fmap. apply Hx.
  rewrite (Hfg x y); [by apply list_elem_of_fmap_2|by left|by right|done].
Qed.

Ltac owned := breflect; match goal with H : _ = workspace context |- _ => exact H end.

Lemma newest_first_in {R} (table : gmap uuid R) P Q :
  (∀ r, P r = true → Q r) → Forall (λ r : uuid * R, Q r.2) (newest_first (where_rows table P)).
Proof.
  intros HQ. apply Forall_forall. intros r Hr. unfold newest_first in Hr. rewrite elem_of_order_rows in Hr.
  apply HQ. by apply (where_rows_in _ _ _ Hr).
Qed.

Lemma filtered_ordered {R K} `{CursorCodec K} (key : R → K) (precedes : K → K → Prop) `{!RelDecision precedes} `{!StrictOrder precedes}
    (trichotomy : ∀ a b, precedes a b ∨ a = b ∨ precedes b a) (rows : list R) :
  NoDup (key <$> rows) → (∀ r, r ∈ rows → encodable (key r)) → ordered key precedes (order_rows key precedes rows).
Proof.
  intros Hn He. split; [by apply order_rows_ordered|]. apply Forall_forall. intros r Hr%elem_of_order_rows. by apply He.
Qed.

Lemma check_that_bind {E A} b (e : E) (m : result E A) a : (_ ← check_that b e; m) = Ok a → m = Ok a.
Proof. by destruct b. Qed.

Lemma statement_ordered q now d rows : readable d → Statement.statement (statement_of q) now d = Ok rows →
  ordered (Statement.key (statement_of q)) (Statement.precedes (statement_of q)) rows
  ∧ Forall (λ r, owner q r = WorkspaceContext.workspace_id context) rows.
Proof.
  intros [V1 V2 V3 V4 V5 V6 V7 V8]. destruct q; cbn [statement_of Statement.statement list_registry_entries list_connections
    list_capabilities list_runs list_run_events list_audit_events]; intros Hr.
  - injection Hr as <-. split; [by apply newest_first_ordered|]. apply (newest_first_in _ _ (λ r, RegistryEntry.workspace_id r = _)).
    by intros r ?%eqv_eq.
  - injection Hr as <-. split; [by apply newest_first_ordered|]. apply (newest_first_in _ _ (λ r, ServerConnection.workspace_id r = _)).
    by intros r ?%eqv_eq.
  - injection Hr as <-. split; [by apply newest_first_ordered|]. apply (newest_first_in _ _ (λ r, Capability.workspace_id r = _)).
    intros r Hr. owned.
  - unfold run_rows in Hr. apply result_bind_ok in Hr as (after_ & _ & Hr). apply result_bind_ok in Hr as (before_ & _ & Hr).
    do 2 apply check_that_bind in Hr. injection Hr as <-. split.
    + apply (filtered_ordered _ _ newer_trichotomy).
      * eapply NoDup_key; [|apply where_rows_ids]. by intros x y _ _ [=].
      * intros r [Hr _]%where_rows_in. apply (V4 _ _ Hr).
    + apply Forall_forall. intros r [_ Hr]%elem_of_order_rows%where_rows_in. owned.
  - unfold event_rows in Hr. apply result_bind_ok in Hr as (run & _ & [= <-]). split.
    + apply (filtered_ordered _ _ Z.lt_trichotomy).
      * eapply (NoDup_key (λ e, (RunEvent.run_id e, RunEvent.sequence e))); [|by apply NoDup_fmap_filter].
        intros x y [[_ Hx] _]%list_elem_of_filter [[_ Hy] _]%list_elem_of_filter Hk. cbv beta. rewrite Hx, Hy. f_equal. exact Hk.
      * intros r [_ Hr]%list_elem_of_filter. rewrite Forall_forall in V5. exact (V5 r Hr).
    + apply Forall_forall. by intros r [[? _] _]%elem_of_order_rows%list_elem_of_filter.
  - unfold audit_rows in Hr. apply check_that_bind in Hr. apply result_bind_ok in Hr as (after_ & _ & Hr).
    apply result_bind_ok in Hr as (before_ & _ & Hr). apply check_that_bind in Hr. injection Hr as <-. split.
    + apply (filtered_ordered _ _ newer_trichotomy).
      * apply NoDup_fmap_filter. eapply NoDup_key; [|exact V8]. by intros x y _ _ [=].
      * intros r [_ Hr]%list_elem_of_filter. rewrite Forall_forall in V7. exact (V7 r Hr).
    + apply Forall_forall. intros r [Hr _]%elem_of_order_rows%list_elem_of_filter. owned.
Qed.

(** ** A client that follows the cursors *)

Fixpoint follow (l : Statement.t) (limit : nat) (views : list (instant * Db.t)) (cursor : option string)
    : result api_error (list (list (Statement.Item l)) * bool) :=
  match views with
  | [] => Ok ([], false)
  | (now, d) :: views =>
      '(items, next_cursor) ← list_page l limit now cursor d;
      match next_cursor with
      | None => Ok ([items], true)
      | Some c => '(pages, finished) ← follow l limit views (Some c); Ok (items :: pages, finished)
      end
  end.

(** The tables of the statement in the views. *)
Definition tables_of (l : Statement.t) (views : list (instant * Db.t)) (tables : list (list (Statement.Row l))) : Prop :=
  Forall2 (λ view rows, Statement.statement l view.1 view.2 = Ok rows) views tables.

Definition responses (l : Statement.t) (views : list (instant * Db.t)) (pages : list (list (Statement.Row l)))
    : list (list (Statement.Item l)) :=
  zip_with (λ view rows, Statement.respond l view.2 <$> rows) views pages.

Lemma follow_browse l limit views tables cursor : tables_of l views tables →
  follow l limit views cursor
  = match browse (Statement.key l) (Statement.precedes l) limit tables cursor with
    | Some (pages, finished) => Ok (responses l views pages, finished)
    | None => Err InvalidRequest
    end.
Proof.
  intros Ht. revert cursor. induction Ht as [|[now d] rows views tables Hr _ IH]; intros cursor; [done|]. cbn [follow browse].
  unfold list_page. cbn [fst snd] in Hr. rewrite Hr. cbn [mbind result_mbind result_bind].
  destruct (listed _ _ limit rows cursor) as [[items next]|]; [|done]. cbn [mbind result_mbind result_bind option_bind].
  destruct next as [c|]; [|by destruct views]. rewrite IH. by destruct (browse _ _ _ _ _) as [[pages finished]|].
Qed.

(** C38. Every listing shows each row once.  A client asks for the pages of a listing one
    after the other, each time with the cursor of the page before, while the database
    changes between the requests.  No request is refused; a page has at most [limit] rows;
    all rows are of the workspace of the caller and come in the order of the listing, so
    that none is shown twice, however rows were added and removed; when the last page is
    reached, every row that was there all along has been shown; and on a database that
    does not change the last page is reached after as many pages as the rows need. *)
Theorem listings_show_each_row_once (q : listing) (limit : nat) views tables :
  (0 < limit)%nat → Forall (λ view, readable view.2) views → tables_of (statement_of q) views tables →
  ∃ pages finished,
    follow (statement_of q) limit views None = Ok (responses (statement_of q) views pages, finished)
    ∧ seen (Statement.key (statement_of q)) (Statement.precedes (statement_of q)) limit tables None pages finished
    ∧ Forall (λ r, owner q r = WorkspaceContext.workspace_id context) (concat pages)
    ∧ ∀ view rows n, views = replicate n view → Statement.statement (statement_of q) view.1 view.2 = Ok rows →
        (length rows ≤ n * limit)%nat → (0 < n)%nat → finished = true.
Proof.
  intros Hl Hv Ht. assert (Forall (λ rows, ordered (Statement.key (statement_of q)) (Statement.precedes (statement_of q)) rows
      ∧ Forall (λ r, owner q r = WorkspaceContext.workspace_id context) rows) tables) as Ho.
  { apply Forall_forall. intros rows Hin. apply list_elem_of_lookup in Hin as [i Hi].
    destruct (Forall2_lookup_r _ _ _ _ _ Ht Hi) as (view & Hview & Hr). eapply statement_ordered; [|exact Hr].
    eapply Forall_lookup_1 in Hv; [exact Hv|exact Hview]. }
  destruct (browse_seen (Statement.key (statement_of q)) (Statement.precedes (statement_of q)) limit tables None Hl) as (pages & finished & E & S);
    [eapply Forall_impl; [exact Ho|by intros rows []]|done|]. cbn [fmap option_fmap option_map] in E.
  exists pages, finished. split_and!; [by rewrite (follow_browse _ _ _ _ _ Ht), E|done| |].
  - apply Forall_forall. intros r Hin. apply list_elem_of_In, in_concat in Hin as (items & Hitems & Hr).
    apply list_elem_of_In, list_elem_of_lookup in Hitems as [i Hi]. apply list_elem_of_In in Hr.
    destruct (sn_rows _ _ _ _ _ _ _ S i items r Hi Hr) as (rows & Hrows & Hin).
    eapply Forall_lookup_1 in Ho; [|exact Hrows]. destruct Ho as [_ Ho]. rewrite Forall_forall in Ho. by apply Ho.
  - intros view rows n -> Hr Hn Hpos. assert (tables = replicate n rows) as ->.
    { symmetry. apply replicate_as_elem_of. split; [by rewrite <- (Forall2_length _ _ _ Ht), length_replicate|].
      intros rows' [i Hi]%list_elem_of_lookup. destruct (Forall2_lookup_r _ _ _ _ _ Ht Hi) as (view' & Hview & Hr').
      apply lookup_replicate_1 in Hview as [-> _]. congruence. }
    assert (readable view.2) as Hd by (destruct n; [lia|]; by inversion Hv).
    destruct (statement_ordered q view.1 view.2 rows Hd Hr) as [Hrows _].
    destruct (browse_ends (Statement.key (statement_of q)) (Statement.precedes (statement_of q)) limit rows None n Hl Hrows) as [pages' E'];
      [done|by rewrite filter_all_of|done|]. cbn [fmap option_fmap option_map] in E'. congruence.
Qed.

(** ** Details *)

Lemma scoped_one_ok {R} (table : gmap uuid R) (workspace_id : R → uuid) id r :
  _scoped_one context table workspace_id id = Ok r ↔ table !! id = Some r ∧ workspace_id r = WorkspaceContext.workspace_id context.
Proof.
  unfold _scoped_one. destruct (table !! id) as [r'|]; [|naive_solver]. destruct (eqv _ _) eqn:E; breflect; naive_solver.
Qed.

(** A missing row and one of another workspace look the same. *)
Lemma scoped_one_err {R} (table : gmap uuid R) (workspace_id : R → uuid) id e :
  _scoped_one context table workspace_id id = Err e → e = Service AuthorizationDenied.
Proof. unfold _scoped_one. repeat case_match; congruence. Qed.

(** A version of a capability with its binding. *)
Definition bound (capability_id : uuid) (d : Db.t) (id : uuid) (v : CapabilityVersion.t) (connection_version : uuid) : Prop :=
  RegistryDb.capability_versions (Db.registry d) !! id = Some v ∧ CapabilityVersion.capability_id v = capability_id
  ∧ ∃ binding, mcp_tool_bindings d !! id = Some binding ∧ McpToolBinding.connection_version_id binding = connection_version.

Lemma elem_of_bound_versions capability_id P d id v cv :
  (id, v, cv) ∈ bound_versions capability_id P d ↔ bound capability_id d id v cv ∧ P id = true.
Proof.
  unfold bound_versions, by_sequence. rewrite elem_of_order_rows, list_elem_of_omap. split.
  - intros ([id' v'] & [Hp Hin]%list_elem_of_filter & Hb). apply where_rows_in in Hin as [Hv Hc]. cbn in *.
    destruct (mcp_tool_bindings d !! id') as [b|] eqn:Eb; [|done]. injection Hb as <- <- <-. breflect. split; [|done]. split_and!; [done..|].
    by exists b.
  - intros ((Hv & Hc & b & Eb & <-) & Hp). exists (id, v). split; [|cbn; by rewrite Eb]. apply list_elem_of_filter. split; [done|].
    unfold where_rows. apply list_elem_of_filter. split; [by apply eqv_true|by apply elem_of_map_to_list].
Qed.

Lemma bound_versions_ids capability_id P d : NoDup ((λ r, r.1.1) <$> bound_versions capability_id P d).
Proof.
  unfold bound_versions, by_sequence, order_rows. rewrite merge_sort_Permutation.
  assert (∀ l : list (uuid * CapabilityVersion.t), NoDup (l.*1) →
    NoDup ((λ r, r.1.1) <$> omap (λ r, binding ← mcp_tool_bindings d !! r.1; Some (r, McpToolBinding.connection_version_id binding)) l)) as Hall.
  { induction l as [|r l IH]; [constructor|]. rewrite fmap_cons. intros [Hr Hl]%NoDup_cons. cbn [omap list_omap].
    destruct (mcp_tool_bindings d !! r.1) as [b|]; cbn [mbind option_bind]; [|by apply IH]. rewrite fmap_cons. apply NoDup_cons.
    split; [|by apply IH]. intros (x & Hx & (r' & Hin & Ex)%list_elem_of_omap)%list_elem_of_fmap. apply Hr. cbn in Hx. rewrite Hx.
    destruct (mcp_tool_bindings d !! r'.1); [|done]. injection Ex as <-. by apply list_elem_of_fmap_2. }
  apply Hall, (NoDup_fmap_filter fst), where_rows_ids.
Qed.

(** C47. The detail of a capability shows what is to be decided.  The request is answered
    exactly for a capability of the caller's workspace.  However many versions there are,
    the version that waits for review and the enabled one are in the answer, if they are
    versions of the capability with a binding; every version shown is one, none is shown
    twice, at most 102 are, and if the answer does not say it is truncated, all are. *)
Theorem capability_detail_shows_decisions (capability_id : uuid) (d : Db.t) :
  match get_capability context capability_id d with
  | Err e => e = Service AuthorizationDenied
      ∧ ∀ c, RegistryDb.capabilities (Db.registry d) !! capability_id = Some c → Capability.workspace_id c ≠ WorkspaceContext.workspace_id context
  | Ok r => ∃ c, RegistryDb.capabilities (Db.registry d) !! capability_id = Some c
      ∧ Capability.workspace_id c = WorkspaceContext.workspace_id context
      ∧ CapabilityDetailResponse.capability r = _capability capability_id c
      ∧ (∀ id v cv, bound capability_id d id v cv →
          Capability.pending_version_id c = Some id ∨ Capability.enabled_version_id c = Some id
          ∨ CapabilityDetailResponse.versions_truncated r = false →
          _capability_version id v cv ∈ CapabilityDetailResponse.versions r)
      ∧ (∀ x, x ∈ CapabilityDetailResponse.versions r → ∃ id v cv, bound capability_id d id v cv ∧ x = _capability_version id v cv)
      ∧ NoDup (CapabilityVersionResponse.id <$> CapabilityDetailResponse.versions r)
      ∧ (length (CapabilityDetailResponse.versions r) ≤ 102)%nat
  end.
Proof.
  unfold get_capability. destruct (_scoped_one _ _ _ _) as [c|e] eqn:Hc; cbn [mbind result_mbind result_bind].
  2: { split; [by eapply scoped_one_err|]. intros c Hl Hw.
       assert (_scoped_one context (RegistryDb.capabilities (Db.registry d)) Capability.workspace_id capability_id = Ok c) as E
         by by apply scoped_one_ok. congruence. }
  apply scoped_one_ok in Hc as [Hc Hw]. exists c. split; [done|]. split; [done|]. split; [done|].
  cbn [CapabilityDetailResponse.versions CapabilityDetailResponse.versions_truncated].
  set (all := bound_versions capability_id (λ _, true) d). rewrite take_take, Nat.min_l by lia. set (visible := take _DETAIL_VERSION_LIMIT all).
  set (wanted := option_list _ ++ option_list _). set (decision_ids := filter (.∉ (λ r, r.1.1) <$> visible) wanted).
  set (decided := if decide (decision_ids = []) then [] else bound_versions capability_id (λ id, bool_decide (id ∈ decision_ids)) d).
  assert (∀ id v cv, (id, v, cv) ∈ decided ↔ bound capability_id d id v cv ∧ id ∈ decision_ids) as Hdecided.
  { intros id v cv. unfold decided. destruct (decide (decision_ids = [])) as [->|_]; [set_solver|]. by rewrite elem_of_bound_versions, bool_decide_eq_true. }
  assert (NoDup ((λ r, r.1.1) <$> decided)) as Hdd by (unfold decided; destruct (decide _); [constructor|apply bound_versions_ids]).
  assert (∀ x, x ∈ visible → x ∈ all) as Hvisible by (intros x; apply subseteq_take).
  split_and!.
  - intros id v cv Hb Hwhy. apply list_elem_of_fmap. exists (id, v, cv). split; [done|]. apply elem_of_app.
    assert ((id, v, cv) ∈ all) as Hin by (by apply elem_of_bound_versions).
    destruct (decide (id ∈ (λ r, r.1.1) <$> visible)) as [Hv|Hv].
    + left. apply list_elem_of_fmap in Hv as ([[id' v'] cv'] & Hid & Hv). cbn in Hid. subst id'.
      pose proof (Hvisible _ Hv) as [(Hv1 & _ & b1 & Hb1 & <-) _]%elem_of_bound_versions. destruct Hb as (Hv2 & _ & b2 & Hb2 & <-). congruence.
    + right. apply Hdecided. split; [done|]. apply list_elem_of_filter. split; [done|].
      destruct Hwhy as [Hp|[He|Ht]]; [unfold wanted; rewrite Hp; set_solver|unfold wanted; rewrite He; set_solver|].
      exfalso. apply Hv, list_elem_of_fmap. exists (id, v, cv). split; [done|]. apply bool_decide_eq_false in Ht. rewrite length_take in Ht.
      unfold visible. by rewrite take_ge by lia.
  - intros x ([[id v] cv] & -> & [Hx|Hx]%elem_of_app)%list_elem_of_fmap; exists id, v, cv; (split; [|done]).
    + by apply Hvisible, elem_of_bound_versions in Hx as [? _].
    + by apply Hdecided in Hx as [? _].
  - rewrite <- list_fmap_compose, fmap_app. change (CapabilityVersionResponse.id ∘ _) with (λ r : uuid * CapabilityVersion.t * uuid, r.1.1).
    apply NoDup_app. split_and!; [|intros id Hv (([id' v] & cv) & -> & Hx)%list_elem_of_fmap|done].
    + unfold visible. rewrite fmap_take. eapply sublist_NoDup; [apply bound_versions_ids|apply sublist_take].
    + apply Hdecided in Hx as [_ [Hn _]%list_elem_of_filter]. done.
  - rewrite length_fmap, length_app. assert (length visible ≤ 100)%nat by (unfold visible; rewrite length_take; unfold _DETAIL_VERSION_LIMIT; lia).
    assert (length decided ≤ 2)%nat; [|lia]. rewrite <- (length_fmap (λ r, r.1.1) decided). etrans.
    { apply submseteq_length, (NoDup_submseteq _ wanted Hdd). intros id (([id' v] & cv) & -> & Hx)%list_elem_of_fmap.
      by apply Hdecided in Hx as [_ [_ ?]%list_elem_of_filter]. }
    unfold wanted. rewrite length_app. by destruct (Capability.pending_version_id c), (Capability.enabled_version_id c); cbn; lia.
Qed.
End spec.
