(* ===== verification/IdentitySpec.v ===== *)
(** Workspace authorization: what [require_current_role] asks of the stored rows, and that
    a workspace never loses its last administrator. *)
From S2P Require Import Prelude Types Json PyStr Store Session Identity Ledger Hoare LedgerStep.
Local Open Scope Z_scope.

Definition members_keyed (d : Db.t) : Prop :=
  map_Forall (λ k m, k = (WorkspaceMembership.workspace_id m, WorkspaceMembership.user_id m))
    (IdentityDb.workspace_memberships (Db.identity d)).

(** What [require_current_role] asks of the stored rows. *)
Definition authorized (context : WorkspaceContext.t) (roles : list Role.t) (d : Db.t) : bool :=
  bool_decide (WorkspaceContext.role context ∈ roles)
  && is_some (IdentityDb.workspaces (Db.identity d) !! WorkspaceContext.workspace_id context)
  && match IdentityDb.workspace_memberships (Db.identity d)
             !! (WorkspaceContext.workspace_id context, WorkspaceContext.actor_user_id context) with
     | Some m => bool_decide (WorkspaceMembership.role m ∈ roles)
     | None => false
     end.

Lemma require_current_role_fresh context roles env d c t n : members_keyed d →
  if authorized context roles d
  then ∃ m, require_current_role context roles true env (mkSession d d c t n) = Ok (m, mkSession d d c t n)
  else require_current_role context roles true env (mkSession d d c t n) = Err AuthorizationDenied.
Proof.
  intros Hk. unfold authorized, require_current_role, require_role, select_workspace, select_membership, populate_membership, by_id.
  unfold mbind, M_bind, raise_if, gets, put_identity, modify. cbn.
  destruct (bool_decide _); cbn; [|done]. destruct (IdentityDb.workspaces _ !! _); cbn; [|done].
  unfold flushed_identity. cbn. destruct (IdentityDb.workspace_memberships _ !! _) as [m|] eqn:Hm; cbn; [|done].
  destruct (bool_decide _); cbn; [|done]. exists m. rewrite insert_id; [by destruct d as [[] ? ?]|].
  pose proof (Hk _ _ Hm) as E. cbn in E. by rewrite <- E.
Qed.

Lemma flush_unchanged env d t n : schema_checks d = true →
  flush env (mkSession d d false t n) = Ok ((), mkSession d d false t n).
Proof. intros Hd. unfold flush, listeners_accept. cbn. by rewrite !status_update_ok_refl, Hd. Qed.

(** ** Administrators *)

Definition members (d : Db.t) : gmap (uuid * uuid) WorkspaceMembership.t := IdentityDb.workspace_memberships (Db.identity d).
Definition workspaces (d : Db.t) : gmap uuid Workspace.t := IdentityDb.workspaces (Db.identity d).

Definition administered (w : uuid) (ms : gmap (uuid * uuid) WorkspaceMembership.t) : Prop :=
  ∃ u m, ms !! (w, u) = Some m ∧ WorkspaceMembership.role m = Role.ADMIN.

(** The operations of [IdentityService]. *)
Inductive identity_operation :=
| ResolveUser (principal : Principal.t)
| CreateWorkspace (owner : User.t) (name : string) (correlation_id : option uuid)
| SetMembershipRole (context : WorkspaceContext.t) (user_id : uuid) (role : Role.t) (correlation_id : option uuid).
Definition perform_identity (o : identity_operation) : M unit :=
  match o with
  | ResolveUser principal => _ ← resolve_user principal; mret tt
  | CreateWorkspace owner name correlation_id => _ ← create_workspace owner name correlation_id; mret tt
  | SetMembershipRole context user_id role correlation_id => set_membership_role context user_id role correlation_id
  end.
Definition identity_step (d d' : Db.t) : Prop := ∃ o env r, transaction (perform_identity o) env d = (r, d').

Record administration (d : Db.t) : Prop := {
  adm_keyed : members_keyed d;
  adm_all : ∀ w, is_Some (workspaces d !! w) → administered w (members d) }.

(** The audit trail is not the membership table. *)
Lemma audit_keeps context action t id c env s x s' : audit context action t id c env s = Ok (x, s') →
  members (work s') = members (work s) ∧ workspaces (work s') = workspaces (work s).
Proof.
  unfold audit, add_audit_event. intros E. apply bind_ok in E as (y & s1 & E1 & E). apply bind_ok in E as (z & s2 & [= <- <-] & [= <- <-]).
  destruct c; injection E1 as <- <-; done.
Qed.

Lemma administered_insert w ms k m : ms !! k = None → administered w ms → administered w (<[k := m]> ms).
Proof. intros Hk (u & m' & Hm & Hr). exists u, m'. split; [|done]. rewrite lookup_insert_ne; [done|]. intros ->. congruence. Qed.

(** Another administrator, if there are two. *)
Lemma another_admin w user d : members_keyed d → 1 < len (admins w (Db.identity d)) →
  ∃ u m, u ≠ user ∧ members d !! (w, u) = Some m ∧ WorkspaceMembership.role m = Role.ADMIN.
Proof.
  intros Hk Hlen. unfold admins in Hlen. set (l := filter _ _) in Hlen.
  assert (NoDup l.*1) as Hnd.
  { unfold l. pose proof (NoDup_fst_map_to_list (IdentityDb.workspace_memberships (Db.identity d))) as Hn. revert Hn. clear.
    generalize (map_to_list (IdentityDb.workspace_memberships (Db.identity d))). induction l as [|km l IH]; [done|].
    rewrite fmap_cons. intros [Hx Hl]%NoDup_cons. rewrite filter_cons. destruct (decide _); [|by apply IH]. rewrite fmap_cons. apply NoDup_cons.
    split; [|by apply IH]. intros (y & Hy & [_ Hin]%list_elem_of_filter)%list_elem_of_fmap. apply Hx. rewrite Hy. by apply list_elem_of_fmap_2. }
  assert (∀ km, km ∈ l → ∃ u, km.1 = (w, u) ∧ members d !! (w, u) = Some km.2 ∧ WorkspaceMembership.role km.2 = Role.ADMIN) as Hl.
  { intros [k m] [[Hw Hr] Hin%elem_of_map_to_list]%list_elem_of_filter. cbn in *. pose proof (Hk _ _ Hin) as E. cbn in E.
    exists (WorkspaceMembership.user_id m). rewrite <- Hw, <- E. by split_and!. }
  destruct l as [|a [|b l]]; unfold len in Hlen; cbn in Hlen; [lia..|].
  destruct (Hl a) as (u & Ea & Ma & Ra); [by left|]. destruct (Hl b) as (v & Eb & Mb & Rb); [right; by left|].
  destruct (decide (u = user)) as [->|]; [|by exists u, a.2]. exists v, b.2. split_and!; [|done..]. intros ->.
  cbn in Hnd. apply NoDup_cons in Hnd as [Hnd _]. apply Hnd. rewrite Ea, <- Eb. by left.
Qed.

Lemma populate_same d k m env c t n : members_keyed d → members d !! k = Some m →
  populate_membership m env (mkSession d d c t n) = Ok (tt, mkSession d d c t n).
Proof.
  intros Hk Hm. unfold populate_membership, put_identity, modify. cbn. pose proof (Hk _ _ Hm) as E. cbn in E.
  rewrite insert_id; [by destruct d as [[] ? ?]|]. by rewrite <- E.
Qed.

(** Assigning a role keeps the administrators of every workspace, unless it demotes the last one. *)
Lemma alter_administered ms w user m role w' : ms !! (w, user) = Some m →
  (WorkspaceMembership.role m = Role.ADMIN → role ≠ Role.ADMIN →
     ∃ u m', u ≠ user ∧ ms !! (w, u) = Some m' ∧ WorkspaceMembership.role m' = Role.ADMIN) →
  administered w' ms → administered w' (alter (λ m, m <| WorkspaceMembership.role := role |>) (w, user) ms).
Proof.
  intros Hm Hother (u & mu & Hu & Hr). destruct (decide ((w', u) = (w, user))) as [[= -> ->]|Hne].
  - assert (mu = m) as -> by congruence. destruct (decide (role = Role.ADMIN)) as [->|Hrole].
    + exists user, (m <| WorkspaceMembership.role := Role.ADMIN |>). by rewrite lookup_alter_eq, Hm.
    + destruct (Hother Hr Hrole) as (v & mv & Hv & Hlook & Hadm). exists v, mv. split; [|done]. rewrite lookup_alter_ne; [done|by intros [= <-]].
  - exists u, mu. by rewrite lookup_alter_ne.
Qed.

Lemma set_membership_role_keeps context user role c env d u s :
  administration d → set_membership_role context user role c env (mkSession d d false 0 0) = Ok (u, s) → conflict s = false →
  administration (work s).
Proof.
  intros [Hk Ha] E Hc. unfold set_membership_role in E. set (w := WorkspaceContext.workspace_id context) in *.
  apply bind_ok in E as (m0 & s1 & E1 & E). pose proof (require_current_role_fresh context [Role.ADMIN] env d false 0 0 Hk) as Hr.
  destruct (authorized _ _ _); [destruct Hr as [m1 Hr]|congruence]. rewrite Hr in E1. injection E1 as <- <-. clear Hr.
  apply bind_ok in E as (found & s2 & [= <- <-] & E).
  apply bind_ok in E as (x & s3 & E1 & E). apply bind_ok in E as (y & s4 & [[= _ ->] Hf]%flush_ok & E).
  destruct (audit_keeps _ _ _ _ _ _ _ _ _ E) as [Hm Hw]. change (work (s3 <| flushed := work s3 |>)) with (work s3) in *.
  enough (members_keyed (work s3) ∧ workspaces (work s3) = workspaces d
    ∧ ∀ w', administered w' (members d) → administered w' (members (work s3))) as (K & W & A).
  { split; [unfold members_keyed in *; unfold members in Hm; by rewrite Hm|]. intros w'. rewrite Hw, Hm, W. intros Hs. by apply A, Ha. }
  clear E Hm Hw Hc. cbn in E1. unfold flushed_identity in E1. cbn in E1. fold (members d) in E1.
  destruct (members d !! (w, user)) as [m|] eqn:Hlook.
  - apply bind_ok in E1 as (u1 & s5 & E5 & E1). rewrite (populate_same d (w, user)) in E5 by done. injection E5 as _ <-.
    assert (assign_role w user role env (mkSession d d false 0 0) = Ok (x, s3)
      ∧ (WorkspaceMembership.role m = Role.ADMIN → role ≠ Role.ADMIN → 1 < len (admins w (Db.identity d)))) as [E2 Hadm].
    { destruct (eqv (WorkspaceMembership.role m) Role.ADMIN && negb (eqv role Role.ADMIN)) eqn:Hd.
      - apply bind_ok in E1 as (n & s6 & [= <- <-] & E1). apply bind_ok in E1 as (u2 & s7 & [Hn ->]%raise_if_ok & E1).
        split; [done|]. intros _ _. by apply Z.leb_gt in Hn.
      - split; [done|]. intros Hr Hne. rewrite Hr, eqv_refl in Hd. by apply negb_false_iff, eqv_eq in Hd. }
    injection E2 as _ <-. split_and!; [|done|].
    + intros k m' Hl. change (alter (λ m, m <| WorkspaceMembership.role := role |>) (w, user) (members d) !! k = Some m') in Hl.
      destruct (decide (k = (w, user))) as [->|].
      * rewrite lookup_alter_eq, Hlook in Hl. injection Hl as <-. by apply (Hk _ _ Hlook).
      * rewrite lookup_alter_ne in Hl by done. by apply Hk.
    + intros w' Hw'. eapply alter_administered; [exact Hlook| |done]. intros Hr Hne. by apply another_admin; [|apply Hadm].
  - unfold add_membership in E1. apply bind_ok in E1 as (u1 & s5 & E5 & E1). injection E5 as _ <-. injection E1 as _ <-. split_and!; [|done|].
    + intros k m' Hl. change (<[(w, user) := WorkspaceMembership.mk w user role]> (members d) !! k = Some m') in Hl.
      apply lookup_insert_Some in Hl as [[<- <-]|[_ Hl]]; [done|by apply Hk].
    + intros w' Hw'. by apply administered_insert.
Qed.

Lemma create_workspace_keeps owner name c env d u s :
  administration d → create_workspace owner name c env (mkSession d d false 0 0) = Ok (u, s) → conflict s = false → administration (work s).
Proof.
  intros [Hk Ha] E Hc. unfold create_workspace in E. apply bind_ok in E as (u1 & s1 & [_ ->]%raise_if_ok & E).
  apply bind_ok in E as (id & s2 & E2 & E). injection E2 as <- <-. set (id := uuid4_source env 0) in *.
  apply bind_ok in E as (u3 & s3 & E3 & E). injection E3 as _ <-. apply bind_ok in E as (u4 & s4 & E4 & E). injection E4 as _ <-.
  apply bind_ok in E as (u5 & s5 & [[= _ ->] Hc5]%flush_ok & E). unfold add_membership in E.
  apply bind_ok in E as (u6 & s6 & E6 & E). apply bind_ok in E6 as (u7 & s7 & E7 & E6). injection E7 as _ <-. injection E6 as _ <-.
  apply bind_ok in E as (u8 & s8 & [[= _ ->] Hc8]%flush_ok & E). apply bind_ok in E as (u9 & s9 & E9 & [= _ <-]).
  destruct (audit_keeps _ _ _ _ _ _ _ _ _ E9) as [Hm Hw]. clear E9.
  change (members (work s9) = <[(id, User.id owner) := WorkspaceMembership.mk id (User.id owner) Role.ADMIN]> (members d)) in Hm.
  change (workspaces (work s9) = <[id := Workspace.mk id (strip name)]> (workspaces d)) in Hw.
  change ((conflict (mkSession d d false 0 1) || is_some (workspaces d !! id)) || is_some (members d !! (id, User.id owner)) = false) in Hc8.
  apply orb_false_iff in Hc8 as [_ Hc8]. split.
  - unfold members_keyed. unfold members in Hm. rewrite Hm. by apply map_Forall_insert_2.
  - intros w [x Hx]. rewrite Hw in Hx. rewrite Hm. apply lookup_insert_Some in Hx as [[<- _]|[_ Hx]].
    + exists (User.id owner), (WorkspaceMembership.mk id (User.id owner) Role.ADMIN). by rewrite lookup_insert_eq.
    + apply administered_insert; [|by apply Ha]. by destruct (members d !! _).
Qed.

Lemma resolve_user_keeps principal env d u s :
  administration d → resolve_user principal env (mkSession d d false 0 0) = Ok (u, s) → administration (work s).
Proof.
  intros [Hk Ha] E. unfold resolve_user in E. apply bind_ok in E as (u1 & s1 & [_ ->]%raise_if_ok & E).
  apply bind_ok in E as (found & s2 & [= <- <-] & E). destruct (head _) as [[id user]|]; [by injection E as _ <-|].
  apply bind_ok in E as (id & s3 & E3 & E). injection E3 as <- <-. apply bind_ok in E as (u4 & s4 & E4 & E). injection E4 as _ <-.
  apply bind_ok in E as (u5 & s5 & E5 & E). injection E5 as _ <-. apply bind_ok in E as (u6 & s6 & [[= _ ->] _]%flush_ok & [= _ <-]). by split.
Qed.

(** C36. No workspace ever loses its last administrator: from the empty installation on, however
    users sign in, workspaces are created and roles are changed, and whichever of these fail,
    every workspace has a member who administers it. *)
Theorem workspaces_keep_an_admin d : rtc identity_step Db.empty d →
  ∀ w, is_Some (workspaces d !! w) → administered w (members d).
Proof.
  intros Hsteps. enough (administration d) as []; [done|]. assert (administration Db.empty) as Hinit.
  { split; [by intros k m Hm|]. intros w [x Hx]. done. }
  revert Hinit. induction Hsteps as [|d1 d2 d3 (o & env & r & Hstep) _ IH]; [done|]. intros Hd. apply IH. clear IH.
  destruct r as [x|e].
  - apply commit_ok in Hstep as (s & E & Hc & ->). destruct o as [principal|owner name c|context user role c]; cbn in E.
    + apply bind_ok in E as (u & s1 & E & [= _ <-]). by eapply resolve_user_keeps.
    + apply bind_ok in E as (u & s1 & E & [= _ <-]). by eapply create_workspace_keeps.
    + by eapply set_membership_role_keeps.
  - unfold transaction in Hstep. revert Hstep. case_match; [by case_match|]. by intros [= _ <-].
Qed.

(** A workspace of two administrators: one is demoted, the other one is not. *)
Module IdentityScenario.
Definition env (n : Z) : Env := mkEnv (λ k, Z.of_nat k) (λ k, Z.to_pos (10 * n + 1 + Z.of_nat k)) (λ _, false).
Definition run (n : Z) (o : identity_operation) (d : Db.t) : result exn unit * Db.t := transaction (perform_identity o) (env n) d.
Definition owner : uuid := 1%positive.
Definition other : uuid := 11%positive.
Definition team : uuid := 21%positive.
Definition context : WorkspaceContext.t := WorkspaceContext.mk team owner Role.ADMIN.
Definition signed_in : Db.t := (run 1 (ResolveUser (Principal.mk "issuer" "other" None)) (run 0 (ResolveUser (Principal.mk "issuer" "owner" None)) Db.empty).2).2.
Definition created : Db.t := (run 2 (CreateWorkspace (User.mk owner "issuer" "owner" None) "team" None) signed_in).2.
Definition promoted : Db.t := (run 3 (SetMembershipRole context other Role.ADMIN None) created).2.
Definition demoted : Db.t := (run 4 (SetMembershipRole context other Role.VIEWER None) promoted).2.
End IdentityScenario.

Lemma workspaces_keep_an_admin_witness :
  is_Some (workspaces IdentityScenario.demoted !! IdentityScenario.team)
  ∧ (IdentityScenario.run 5 (SetMembershipRole IdentityScenario.context IdentityScenario.owner Role.VIEWER None) IdentityScenario.demoted).1
    = Err AuthorizationDenied
  ∧ administered IdentityScenario.team (members IdentityScenario.demoted).
Proof.
  assert (is_Some (workspaces IdentityScenario.demoted !! IdentityScenario.team)) as Hw by (vm_compute; by eexists).
  split; [exact Hw|]. split; [vm_compute; reflexivity|].
  apply (workspaces_keep_an_admin IdentityScenario.demoted); [|exact Hw].
  assert (∀ n o d d0, rtc identity_step d0 d → rtc identity_step d0 (IdentityScenario.run n o d).2) as Hrun.
  { intros n o d d0 Hd. eapply rtc_r; [exact Hd|]. exists o, (IdentityScenario.env n), (IdentityScenario.run n o d).1. apply surjective_pairing. }
  do 5 apply Hrun. apply rtc_refl.
Defined.
