(* ===== verification/SecretProvider.v ===== *)
(** Secrets: secrets/provider.py and secrets/service.py.  References name files of a mounted
    directory; values are read from it within a bound and zeroed after use. *)
From S2P Require Import Prelude Types Json PyStr Cursors Store Session Identity Screening Ledger Lease Admission Matcher Policy Programs Effects Hoare LedgerStep IdentitySpec.
From Stdlib Require Import Ascii.
From stdpp Require Import strings.
Local Open Scope Z_scope.

(** ** References and file names *)

Definition alnum_char (c : ascii) : bool := alnum_ascii c.
Definition reference_char (c : ascii) : bool := alnum_ascii c || (ord c =? 46) || (ord c =? 95) || (ord c =? 45).

(** [_REFERENCE.fullmatch(component) is not None] *)
Definition _REFERENCE (component : string) : bool :=
  match chars component with
  | [] => false
  | c :: l => alnum_ascii c && forallb reference_char l && (len l <=? 127)
  end.

Definition _MAX_FILENAME_BYTES : Z := 255.
Definition dot : ascii := chr 46.

(** [encode] *)
Definition encode_component (component : string) : list ascii := rstrip_pads (urlsafe_b64encode (chars component)).

(** [filename_for]; [None] is [SecretProviderError], as everywhere in this file. *)
Definition filename_for (external_reference version : string) : option string :=
  if negb (_REFERENCE external_reference) || negb (_REFERENCE version) then None
  else
    let filename := encode_component external_reference ++ dot :: encode_component version in
    if _MAX_FILENAME_BYTES <? len filename then None else Some (of_chars filename).

(** [validate_secret_reference] *)
Definition validate_secret_reference (reference : SecretReference.t) : option unit :=
  if bool_decide (SecretReference.provider reference ∈ ["fixture"; "mounted_file"]%string)
  then _ ← filename_for (SecretReference.external_reference reference) (SecretReference.version reference); Some tt
  else None.

(** ** Leases *)

(** [SecretLease(value)] *)
Definition lease (value : bytes) : option bytes := match value with [] => None | _ => Some value end.

(** [with lease as buffer: body(buffer)]: [body] may change the buffer, whose length a
    [bytearray] may change too, and may raise; [__exit__] zeroes what it finds. *)
Definition with_lease {X} (value : bytes) (body : bytes → X * bytes) : X * bytes :=
  let '(outcome, buffer) := body value in (outcome, (λ _, chr 0) <$> buffer).

(** ** The mounted directory *)

(** An open file: whether it is a regular one, the size that [fstat] tells, and what [read]
    returns at an offset for a number of bytes; [None] is [OSError]. *)
Module Descriptor.
Record t := mk { regular : bool; st_size : Z; read : Z → Z → option bytes }.
End Descriptor.

(** The directory: [os.open] of the root, and of a file name under it with [O_NOFOLLOW]. *)
Module Directory.
Record t := mk { opens : bool; open_file : string → option Descriptor.t }.
End Directory.

Module MountedFileSecretProvider.
Record t := mk { root : Directory.t; max_bytes : Z }.

(** [__init__]: the bound is positive. *)
Definition init (root : Directory.t) (max_bytes : Z) : option t := if max_bytes <=? 0 then None else Some (mk root max_bytes).
End MountedFileSecretProvider.
Import MountedFileSecretProvider.

Inductive read_outcome := Read (value : bytes) | ReadError | OutOfFuel.

(** [while remaining > 0], at an offset of the file. *)
Fixpoint read_loop (fuel : nat) (descriptor : Descriptor.t) (offset remaining : Z) (chunks : bytes) : read_outcome :=
  if remaining <=? 0 then Read chunks
  else
    match fuel with
    | 0%nat => OutOfFuel
    | S fuel =>
        match Descriptor.read descriptor offset remaining with
        | None => ReadError
        | Some [] => Read chunks
        | Some chunk => read_loop fuel descriptor (offset + len chunk) (remaining - len chunk) (chunks ++ chunk)
        end
    end.

(** The value of an open file. *)
Definition read_secret (self : MountedFileSecretProvider.t) (descriptor : Descriptor.t) : option bytes :=
  if negb (Descriptor.regular descriptor) then None
  else if max_bytes self <? Descriptor.st_size descriptor then None
  else
    match read_loop (S (Z.to_nat (max_bytes self))) descriptor 0 (max_bytes self + 1) [] with
    | Read value => if max_bytes self <? len value then None else lease value
    | ReadError | OutOfFuel => None
    end.

(** [MountedFileSecretProvider.retrieve] *)
Definition retrieve_mounted (self : MountedFileSecretProvider.t) (reference : SecretReference.t) : option bytes :=
  if negb (eqv (SecretReference.provider reference) "mounted_file"%string) then None
  else
    filename ← filename_for (SecretReference.external_reference reference) (SecretReference.version reference);
    if negb (Directory.opens (root self)) then None
    else descriptor ← Directory.open_file (root self) filename; read_secret self descriptor.

(** [FixtureSecretProvider.retrieve] *)
Definition retrieve_fixture (values : gmap (string * string) bytes) (mounted : option MountedFileSecretProvider.t)
    (reference : SecretReference.t) : option bytes :=
  if negb (eqv (SecretReference.provider reference) "fixture"%string) then None
  else
    match values !! (SecretReference.external_reference reference, SecretReference.version reference) with
    | Some value => lease value
    | None =>
        mounted ← mounted;
        retrieve_mounted mounted (SecretReference.mk "mounted_file" (SecretReference.external_reference reference)
                                    (SecretReference.version reference))
    end.

Inductive secret_provider :=
| Mounted (p : MountedFileSecretProvider.t)
| Fixture (values : gmap (string * string) bytes) (mounted : option MountedFileSecretProvider.t).

Definition retrieve (p : secret_provider) (reference : SecretReference.t) : option bytes :=
  match p with
  | Mounted p => retrieve_mounted p reference
  | Fixture values mounted => retrieve_fixture values mounted reference
  end.

(** [build_secret_provider]; [None] is [ValueError]. *)
Definition build_secret_provider (configured environment : string) (fixture_values : gmap (string * string) bytes)
    (secret_mount : MountedFileSecretProvider.t) (fixture_mount : option MountedFileSecretProvider.t) : option secret_provider :=
  if eqv configured "mounted_file"%string then Some (Mounted secret_mount)
  else if negb (bool_decide (environment ∈ ["local"; "test"]%string)) then None
  else Some (Fixture fixture_values fixture_mount).

(** ** [SecretBindingService] *)

Section bindings.
Implicit Types (context : WorkspaceContext.t).

(** The columns of the unique constraint of the table. *)
Definition binding_key (b : SecretBinding.t) : uuid * string * string * string :=
  (SecretBinding.workspace_id b, SecretBinding.provider b, SecretBinding.external_reference b, SecretBinding.version b).

Definition add_secret_binding (b : SecretBinding.t) : M unit :=
  flag_conflict (λ s, is_some (IdentityDb.secret_bindings (Db.identity (work s)) !! SecretBinding.id b)
    || existsb (λ kb, eqv (binding_key kb.2) (binding_key b)) (map_to_list (IdentityDb.secret_bindings (Db.identity (work s))))) ;;
  put_identity (λ d, d <| IdentityDb.secret_bindings := <[SecretBinding.id b := b]> (IdentityDb.secret_bindings d) |>).

(** [create_binding] *)
Definition create_binding (active_provider : string) context (reference : SecretReference.t) (correlation_id : option uuid) : M uuid :=
  require_current_role context [Role.ADMIN] true ;;
  raise_if (negb (eqv (SecretReference.provider reference) active_provider)) SecretProviderError ;;
  raise_if (is_none (validate_secret_reference reference)) SecretProviderError ;;
  id ← uuid4;
  add_secret_binding (SecretBinding.mk id (WorkspaceContext.workspace_id context) (SecretReference.provider reference)
    (SecretReference.external_reference reference) (SecretReference.version reference) (WorkspaceContext.actor_user_id context)) ;;
  flush ;;
  audit context AuditAction.SECRET_BINDING_CREATED ResourceType.SECRET_BINDING id correlation_id ;;
  mret id.
End bindings.

(** ** File names *)

Lemma sextet_safe n : 0 <= n < 64 → (reference_char (sextet_char n) && negb (ord (sextet_char n) =? 46)) = true.
Proof. each_sextet n. Qed.

Lemma encode_component_data component : encode_component component = encode_data (chars component).
Proof. apply rstrip_encoded. Qed.

Lemma encoded_safe component c : c ∈ encode_component component → reference_char c = true ∧ c ≠ dot.
Proof.
  rewrite encode_component_data. intros (n & Hn & ->)%encode_data_chars. pose proof (sextet_safe n Hn) as Hs.
  apply andb_true_iff in Hs as [Hs Hd]. split; [done|]. intros E. by rewrite E in Hd.
Qed.

Lemma split_inj {X} (d : X) a b a' b' : d ∉ a → d ∉ a' → a ++ d :: b = a' ++ d :: b' → a = a' ∧ b = b'.
Proof.
  revert a'. induction a as [|x a IH]; intros [|x' a'] Ha Ha'; cbn; intros E; simplify_eq.
  - done.
  - by destruct Ha'; left.
  - by destruct Ha; left.
  - destruct (IH a') as [-> ->]; [set_solver..|done|done].
Qed.

Lemma encode_component_inj a b : encode_component a = encode_component b → a = b.
Proof. rewrite !encode_component_data. intros E%encode_data_inj. by rewrite <- (of_chars_chars a), E, of_chars_chars. Qed.

Lemma encode_component_nonempty a : _REFERENCE a = true → encode_component a ≠ [].
Proof.
  rewrite encode_component_data. unfold _REFERENCE. destruct (chars a) as [|c l]; [done|]. intros _.
  by destruct l as [|c2 [|c3 l]].
Qed.

(** A name that stays in its directory: not empty, no separator, no special name. *)
Definition path_safe (filename : string) : Prop :=
  Forall (λ c, reference_char c = true) (chars filename) ∧ head (chars filename) ≠ Some dot ∧ 0 < slen filename <= 255.

(** C34. File names of secrets are injective and stay in the directory: two references that
    have names have the same one exactly if they are the same reference in the same version,
    and a name has only letters, digits, [-], [_] and [.], does not start with a dot (so it
    is neither [.] nor [..]) and has at most 255 characters. *)
Theorem filenames_injective_and_safe r v f : filename_for r v = Some f →
  path_safe f ∧ ∀ r' v' f', filename_for r' v' = Some f' → f' = f ↔ r' = r ∧ v' = v.
Proof.
  assert (∀ r v f, filename_for r v = Some f → _REFERENCE r = true ∧ chars f = encode_component r ++ dot :: encode_component v
    ∧ len (chars f) <= 255) as Hname.
  { clear. intros r v f. unfold filename_for. destruct (_ || _) eqn:E; [done|]. breflect. destruct (Z.ltb_spec _MAX_FILENAME_BYTES
      (len (encode_component r ++ dot :: encode_component v))); [done|]. intros [= <-]. by rewrite chars_of_chars. }
  intros Hf. destruct (Hname _ _ _ Hf) as (Hr & Hc & Hlen). split.
  - unfold path_safe. rewrite <- slen_chars, Hc in *. pose proof (encode_component_nonempty r Hr) as Hne. split_and!.
    + apply Forall_app. split; [|constructor; [by vm_compute|]]; apply Forall_forall; intros c Hin; by apply encoded_safe in Hin as [? _].
    + destruct (encode_component r) as [|c l] eqn:E; [done|]. cbn. intros [= ->]. destruct (encoded_safe r dot) as [_ Hd]; [rewrite E; left|done].
    + unfold len. rewrite length_app. cbn. lia.
    + done.
  - intros r' v' f' Hf'. destruct (Hname _ _ _ Hf') as (_ & Hc' & _). split; [|intros [-> ->]; congruence].
    intros ->. rewrite Hc in Hc'. apply split_inj in Hc' as [E1 E2].
    + by split; apply encode_component_inj.
    + intros Hin. by destruct (encoded_safe _ _ Hin).
    + intros Hin. by destruct (encoded_safe _ _ Hin).
Qed.

(** ** Reading *)

(** A file with a content, whose reads may return less than they are asked for. *)
Definition serves (descriptor : Descriptor.t) (content : bytes) : Prop :=
  ∀ offset n, 0 <= offset → 0 < n → ∃ k,
    Descriptor.read descriptor offset n = Some (take k (drop (Z.to_nat offset) content))
    ∧ Z.of_nat k <= n ∧ (0 < k)%nat.

Lemma take_own_length {X} n (l : list X) : take (length (take n l)) l = take n l.
Proof. rewrite length_take. destruct (Nat.le_ge_cases n (length l)); [by rewrite Nat.min_l|by rewrite Nat.min_r, !take_ge]. Qed.

Lemma read_loop_exact descriptor content fuel : ∀ offset remaining, serves descriptor content →
  0 <= offset <= len content → remaining <= Z.of_nat fuel → 0 <= remaining →
  read_loop fuel descriptor offset remaining (take (Z.to_nat offset) content)
  = Read (take (Z.to_nat (offset + remaining)) content).
Proof.
  induction fuel as [|fuel IH]; intros offset remaining Hs Ho Hf Hr; cbn [read_loop];
    (destruct (Z.leb_spec remaining 0); [by replace (offset + remaining) with offset by lia|]); [lia|].
  destruct (Hs offset remaining) as (k & -> & Hk & Hpos); [lia..|].
  destruct (drop (Z.to_nat offset) content) as [|c l] eqn:E.
  - rewrite take_nil. assert (len content <= offset).
    { assert (length (drop (Z.to_nat offset) content) = 0%nat) as Hd by by rewrite E. rewrite length_drop in Hd. unfold len. lia. }
    unfold len in *. by rewrite !take_ge by lia.
  - destruct k as [|k]; [lia|]. cbn [take]. set (chunk := c :: take k l).
    assert (chunk = take (S k) (drop (Z.to_nat offset) content)) as Hc by by rewrite E.
    assert (len chunk <= remaining ∧ 0 < len chunk ∧ offset + len chunk <= len content) as (Hc1 & Hc2 & Hc3).
    { rewrite Hc. unfold len. rewrite length_take, length_drop. assert (length (drop (Z.to_nat offset) content) ≠ 0%nat) by by rewrite E.
      rewrite length_drop in *. unfold len in Ho. lia. }
    assert (take (Z.to_nat offset) content ++ chunk = take (Z.to_nat (offset + len chunk)) content) as ->.
    { assert (chunk = take (length chunk) (drop (Z.to_nat offset) content)) as Hc' by (rewrite Hc; symmetry; apply take_own_length).
      rewrite Hc' at 1. rewrite take_take_drop. f_equal. unfold len. lia. }
    rewrite IH; [|done|lia..]. do 2 f_equal. lia.
Qed.

Lemma read_secret_exact (self : MountedFileSecretProvider.t) descriptor content :
  0 < max_bytes self → serves descriptor content → Descriptor.st_size descriptor <= len content →
  read_secret self descriptor
  = if Descriptor.regular descriptor && (len content <=? max_bytes self) then lease content else None.
Proof.
  intros Hmax Hs Hsize. unfold read_secret. destruct (Descriptor.regular descriptor); [|done]. cbn [negb andb].
  pose proof (read_loop_exact descriptor content (S (Z.to_nat (max_bytes self))) 0 (max_bytes self + 1) Hs) as Hl.
  change (Z.to_nat 0) with 0%nat in Hl. rewrite take_0 in Hl. rewrite Hl by (unfold len; lia). clear Hl.
  destruct (Z.leb_spec (len content) (max_bytes self)) as [Hle|Hgt].
  - destruct (Z.ltb_spec (max_bytes self) (Descriptor.st_size descriptor)); [lia|].
    rewrite take_ge by (unfold len in *; lia). destruct (Z.ltb_spec (max_bytes self) (len content)); [lia|done].
  - destruct (max_bytes self <? Descriptor.st_size descriptor); [done|].
    destruct (Z.ltb_spec (max_bytes self) (len (take (Z.to_nat (0 + (max_bytes self + 1))) content))) as [|Hno]; [done|].
    unfold len in *. rewrite length_take in Hno. lia.
Qed.

(** C35. A secret is read whole or not at all.  However the reads are cut, the value of a
    regular file of the directory is its content, if that is not empty and within the bound;
    otherwise, and for anything that is not a regular file, there is none.  And whatever the
    file does, as long as a read returns no more than it is asked for, reading ends, and a
    value is never empty or longer than the bound. *)
Theorem secrets_are_read_whole (self : MountedFileSecretProvider.t) (descriptor : Descriptor.t) :
  0 < max_bytes self →
  (∀ content, serves descriptor content → Descriptor.st_size descriptor <= len content →
     read_secret self descriptor
     = if Descriptor.regular descriptor && (len content <=? max_bytes self) then lease content else None)
  ∧ ((∀ offset n chunk, Descriptor.read descriptor offset n = Some chunk → len chunk <= n) →
     read_loop (S (Z.to_nat (max_bytes self))) descriptor 0 (max_bytes self + 1) [] ≠ OutOfFuel
     ∧ ∀ value, read_secret self descriptor = Some value → 0 < len value <= max_bytes self).
Proof.
  intros Hmax. split; [by intros content; apply read_secret_exact|].
  intros Hreads. assert (∀ fuel offset remaining chunks, remaining <= Z.of_nat fuel → read_loop fuel descriptor offset remaining chunks ≠ OutOfFuel) as Hends.
  { induction fuel as [|fuel IH]; intros offset remaining chunks Hf; cbn [read_loop]; (destruct (Z.leb_spec remaining 0); [done|]); [lia|].
    destruct (Descriptor.read descriptor offset remaining) as [[|c l]|]; [done| |done]. apply IH. unfold len. cbn. lia. }
  split; [apply Hends; lia|]. intros value. unfold read_secret. destruct (Descriptor.regular descriptor); [|done]. cbn [negb].
  destruct (_ <? Descriptor.st_size _); [done|]. destruct (read_loop _ _ _ _ _) as [l| |]; [|done..].
  destruct (Z.ltb_spec (max_bytes self) (len l)); [done|]. unfold lease. destruct l; [done|]. intros [= <-]. unfold len in *. cbn in *. lia.
Qed.

(** ** Bindings *)

Definition bindings (d : Db.t) : gmap uuid SecretBinding.t := IdentityDb.secret_bindings (Db.identity d).

(** C37. A binding that was stored can be used.  It is stored only for an administrator of its
    workspace, for the provider in use and under a reference that names a file; it is one
    more binding, unlike every other in its key, and recorded in the audit trail.  Whenever
    the directory holds, under the name of the reference, a regular file with a content
    within the bound, retrieving the reference that the runners derive from the binding
    gives that content; the name is that of no other reference. *)
Theorem bindings_are_usable active_provider context reference correlation_id env d id d' :
  members_keyed d → transaction (create_binding active_provider context reference correlation_id) env d = (Ok id, d') →
  ∃ binding filename,
    authorized context [Role.ADMIN] d = true
    ∧ filename_for (SecretBinding.external_reference binding) (SecretBinding.version binding) = Some filename
    ∧ SecretBinding.provider binding = active_provider ∧ secret_reference_of binding = reference
    ∧ SecretBinding.workspace_id binding = WorkspaceContext.workspace_id context
    ∧ bindings d !! id = None ∧ bindings d' = <[id := binding]> (bindings d)
    ∧ (∀ id' b, bindings d !! id' = Some b → binding_key b ≠ binding_key binding)
    ∧ length (IdentityDb.audit_events (Db.identity d')) = S (length (IdentityDb.audit_events (Db.identity d)))
    ∧ ∀ self descriptor content, 0 < len content <= max_bytes self → Directory.opens (root self) = true →
        Directory.open_file (root self) filename = Some descriptor → Descriptor.regular descriptor = true →
        serves descriptor content → Descriptor.st_size descriptor <= len content →
        retrieve (Mounted self) (SecretReference.mk "mounted_file" (SecretReference.external_reference (secret_reference_of binding))
                                   (SecretReference.version (secret_reference_of binding))) = Some content
        ∧ (active_provider = "mounted_file"%string → retrieve (Mounted self) (secret_reference_of binding) = Some content)
        ∧ (active_provider = "fixture"%string → retrieve (Fixture ∅ (Some self)) (secret_reference_of binding) = Some content).
Proof.
  intros Hk (s & E & Hc & ->)%commit_ok. unfold create_binding in E.
  apply bind_ok in E as (m & s1 & E1 & E). pose proof (require_current_role_fresh context [Role.ADMIN] env d false 0 0 Hk) as Hr.
  destruct (authorized _ _ _); [destruct Hr as [m1 Hr]|congruence]. rewrite Hr in E1. injection E1 as _ <-. clear Hr m1.
  apply bind_ok in E as (u1 & s2 & [Hprov ->]%raise_if_ok & E). apply bind_ok in E as (u2 & s3 & [Hvalid ->]%raise_if_ok & E).
  apply bind_ok in E as (id1 & s4 & E4 & E). injection E4 as <- <-. set (id1 := uuid4_source env 0) in *.
  set (b := SecretBinding.mk id1 _ _ _ _ _) in E. apply bind_ok in E as (u3 & s5 & E5 & E). unfold add_secret_binding in E5.
  apply bind_ok in E5 as (u4 & s6 & E6 & E5). injection E6 as _ <-. injection E5 as _ <-.
  apply bind_ok in E as (u5 & s7 & [[= _ ->] Hc7]%flush_ok & E). apply bind_ok in E as (u6 & s8 & E8 & [= <- <-]).
  change ((false || (is_some (bindings d !! id1) || existsb (λ kb, eqv (binding_key kb.2) (binding_key b)) (map_to_list (bindings d)))) = false) in Hc7.
  apply orb_false_iff in Hc7 as [_ [Hfresh Huniq]%orb_false_iff].
  assert (bindings (work s8) = <[id1 := b]> (bindings d)
    ∧ length (IdentityDb.audit_events (Db.identity (work s8))) = S (length (IdentityDb.audit_events (Db.identity d)))) as [Hb Ha].
  { unfold audit in E8. apply bind_ok in E8 as (c & s9 & E9 & E8). apply bind_ok in E8 as (i & s10 & [= <- <-] & E8). unfold add_audit_event in E8.
    destruct correlation_id; injection E9 as _ <-; injection E8 as _ <-; (split; [done|]); cbn; rewrite length_app; cbn; lia. }
  apply negb_false_iff, eqv_eq in Hprov. unfold validate_secret_reference in Hvalid. destruct (bool_decide _); [|done].
  destruct (filename_for _ _) as [filename|] eqn:Hf; [|done]. exists b, filename. split_and!; try done.
  - by destruct reference.
  - by destruct (bindings d !! id1).
  - intros id' b' Hb' Hkey. assert (existsb (λ kb, eqv (binding_key kb.2) (binding_key b)) (map_to_list (bindings d)) = true) as Hex; [|congruence].
    apply existsb_exists. exists (id', b'). split; [by apply list_elem_of_In, elem_of_map_to_list|]. by apply eqv_true.
  - intros self descriptor content Hlen Hopens Hopen Hreg Hs Hsize.
    assert (∀ r, SecretReference.provider r = "mounted_file"%string → SecretReference.external_reference r = SecretReference.external_reference reference →
      SecretReference.version r = SecretReference.version reference → retrieve_mounted self r = Some content) as Hret.
    { intros r Hp He Hv. unfold retrieve_mounted. rewrite Hp, He, Hv, eqv_refl, Hf. cbn. rewrite Hopens, Hopen. cbn.
      rewrite (read_secret_exact self descriptor content ltac:(lia) Hs Hsize), Hreg.
      destruct (Z.leb_spec (len content) (max_bytes self)); [|lia]. cbn. unfold lease. destruct content; [unfold len in Hlen; cbn in Hlen; lia|done]. }
    split_and!; [by apply Hret|intros ->; by apply Hret|]. intros ->. cbn. unfold retrieve_fixture. cbn. rewrite Hprov, eqv_refl. cbn.
    rewrite lookup_empty. by apply Hret.
Qed.

(** ** A mounted secret *)

Module SecretScenario.
Definition content : bytes := chars "s3cret".
(** Reads return two bytes at a time. *)
Definition descriptor : Descriptor.t :=
  Descriptor.mk true 6 (λ offset n, Some (take (Nat.min 2 (Z.to_nat n)) (drop (Z.to_nat offset) content))).
Definition directory : Directory.t := Directory.mk true (λ f, if eqv f "ZGI.djE"%string then Some descriptor else None).
Definition self : MountedFileSecretProvider.t := MountedFileSecretProvider.mk directory 64.
Definition reference : SecretReference.t := SecretReference.mk "mounted_file" "db" "v1".
Definition context : WorkspaceContext.t := IdentityScenario.context.
Definition outcome := transaction (create_binding "mounted_file" context reference None) (IdentityScenario.env 6) IdentityScenario.created.
End SecretScenario.

Lemma filenames_injective_and_safe_witness :
  filename_for "db" "v1" = Some "ZGI.djE"%string ∧ path_safe "ZGI.djE".
Proof. split; [vm_compute; reflexivity|]. apply (filenames_injective_and_safe "db" "v1" "ZGI.djE"). vm_compute. reflexivity. Defined.

Lemma scenario_serves : serves SecretScenario.descriptor SecretScenario.content.
Proof.
  intros offset n Ho Hn. exists (Nat.min 2 (Z.to_nat n)). split; [done|]. lia.
Qed.

Lemma secrets_are_read_whole_witness :
  0 < max_bytes SecretScenario.self
  ∧ read_secret SecretScenario.self SecretScenario.descriptor
    = if Descriptor.regular SecretScenario.descriptor && (len SecretScenario.content <=? max_bytes SecretScenario.self)
      then lease SecretScenario.content else None.
Proof.
  split; [reflexivity|].
  apply (secrets_are_read_whole SecretScenario.self SecretScenario.descriptor); [reflexivity|apply scenario_serves|vm_compute; discriminate].
Defined.

Lemma bindings_are_usable_witness :
  SecretScenario.outcome.1 = Ok 61%positive
  ∧ ∃ binding filename, bindings SecretScenario.outcome.2 = <[61%positive := binding]> (bindings IdentityScenario.created)
      ∧ filename_for (SecretBinding.external_reference binding) (SecretBinding.version binding) = Some filename.
Proof.
  assert (SecretScenario.outcome = (Ok 61%positive, SecretScenario.outcome.2)) as E
    by (rewrite (surjective_pairing SecretScenario.outcome) at 1; f_equal; vm_compute; reflexivity).
  split; [by rewrite E|].
  assert (members_keyed IdentityScenario.created) as Hk
    by (unfold members_keyed; match goal with |- ?P => refine (@bool_decide_unpack P _ _); vm_compute; exact I end).
  unfold SecretScenario.outcome in E at 1.
  destruct (bindings_are_usable _ _ _ _ _ _ _ _ Hk E) as (binding & filename & _ & Hf & _ & _ & _ & _ & Hb & _).
  exists binding, filename. split; [exact Hb|exact Hf].
Defined.
