(* ===== verification/Idempotency.v ===== *)
(** Replay protection of the API's mutations: api/idempotency.py, and the mutating
    endpoints of api/contracts.py that go through it. *)
From S2P Require Import Prelude Types Json PyStr Cursors Secrets Store Session Registry Identity Screening Endpoint Connection.
From S2P Require Import Capabilities Discovery Ledger Lease Admission Permits Official Endpoints.
From stdpp Require Import strings.
Local Open Scope Z_scope.

(** ** Requests: a session, and the errors of the API *)

Definition A (X : Type) : Type := Env → Session → result api_error (X * Session).
#[global] Instance A_ret : MRet A := λ X x _ s, Ok (x, s).
#[global] Instance A_bind : MBind A := λ X Y k m env s,
  match m env s with Ok (x, s') => k x env s' | Err e => Err e end.

Definition reject {X} (e : api_error) : A X := λ _ _, Err e.
Definition reject_if (b : bool) (e : api_error) : A unit := if b then reject e else mret tt.
(** A call of a service. *)
Definition service {X} (m : M X) : A X := λ env s,
  match m env s with Ok x => Ok x | Err e => Err (Service e) end.
(** [except ValueError: raise InvalidRequest] *)
Definition configured {X} (m : A X) : A X := λ env s,
  match m env s with
  | Err (Service ValueError) | Err (Service ImmutableUpdate) | Err (Service (MetadataValidationError _)) => Err InvalidRequest
  | r => r
  end.

(** [session_dependency]: the transaction of a request. *)
Definition request {X} (m : A X) (env : Env) (d : Db.t) : result api_error X * Db.t :=
  match (x ← m; service flush;; mret x) env (mkSession d d false 0 0) with
  | Ok (x, s) => (Ok x, work s)
  | Err e => (Err e, d)
  end.

(** A response model: [model_dump(mode="json")] and [model_validate]. *)
Class Model (R : Type) := {
  model_dump : R → Json.t;
  model_validate : Json.t → option R;
  model_law r : model_validate (model_dump r) = Some r }.

(** ** [idempotent_mutation] *)

Definition api_records (d : Db.t) : gmap uuid ApiIdempotencyRecord.t := IdentityDb.api_idempotency_records (Db.identity d).
Definition put_records (f : gmap uuid ApiIdempotencyRecord.t → gmap uuid ApiIdempotencyRecord.t) : M unit :=
  put_identity (λ d, d <| IdentityDb.api_idempotency_records := f (IdentityDb.api_idempotency_records d) |>).

Definition retention : Z := days 7.

(** The loop of [_require_complete_key_history]; [false] when it raises. *)
Fixpoint complete_history (probes : nat) (column configured_versions : list string) (previous : option string) : bool :=
  match probes with
  | 0%nat => false
  | S probes =>
      match first_above previous column with
      | None => true
      | Some observed =>
          if bool_decide (observed ∈ configured_versions)
          then complete_history probes column configured_versions (Some observed)
          else false
      end
  end.

(** The key versions of the records that have not expired. *)
Definition retained_versions (now : instant) (records : gmap uuid ApiIdempotencyRecord.t) : list string :=
  (λ kr, ApiIdempotencyRecord.key_version kr.2) <$> where_rows records (λ r, now <? ApiIdempotencyRecord.expires_at r).

Definition _require_complete_key_history (configured_versions : list string) (now : instant) : A unit :=
  complete ← service (gets (λ s, complete_history (S (length (remove_dups configured_versions)))
    (retained_versions now (api_records (flushed s))) configured_versions None));
  reject_if (negb complete) ApiIdempotencyHistoryIncomplete.

Section mutation.
Context `{Externals}.
Implicit Types (context : WorkspaceContext.t) (keys : list HmacKeyVersion.t).

(** [_hmac] *)
Definition _hmac (key : HmacKeyVersion.t) (value : string) : string := hmac_sha256_hex (HmacKeyVersion.secret key) value.

(** [idempotency_key.encode("utf-8")] *)
Definition key_bytes (idempotency_key : string) : string := of_chars (concat (utf8 <$> chars idempotency_key)).

Definition key_rejected (idempotency_key : string) : bool :=
  negb ((1 <=? slen idempotency_key) && (slen idempotency_key <=? 256)) || existsb (λ c, ord c <? 32) (chars idempotency_key).

(** The [WHERE] clause: the scope of the key, and one of its candidates. *)
Definition replays context keys (route idempotency_key : string) (r : ApiIdempotencyRecord.t) : bool :=
  eqv (ApiIdempotencyRecord.workspace_id r) (WorkspaceContext.workspace_id context)
  && eqv (ApiIdempotencyRecord.actor_user_id r) (WorkspaceContext.actor_user_id context)
  && eqv (ApiIdempotencyRecord.method r) "POST"%string && eqv (ApiIdempotencyRecord.route r) route
  && existsb (λ key, eqv (ApiIdempotencyRecord.key_version r) (HmacKeyVersion.version key)
                     && eqv (ApiIdempotencyRecord.key_hmac r) (_hmac key (key_bytes idempotency_key))) keys.

(** [next(key for key in keys if key.version == existing.key_version)] *)
Definition matching_key keys (r : ApiIdempotencyRecord.t) : option HmacKeyVersion.t :=
  List.find (λ key, eqv (HmacKeyVersion.version key) (ApiIdempotencyRecord.key_version r)) keys.

Definition add_record (r : ApiIdempotencyRecord.t) : M unit :=
  flag_conflict (λ s, is_some (api_records (work s) !! ApiIdempotencyRecord.id r)
    || existsb (λ kr, eqv (ApiIdempotencyRecord.unique_key kr.2) (ApiIdempotencyRecord.unique_key r))
         (map_to_list (api_records (work s)))) ;;
  put_records (insert (ApiIdempotencyRecord.id r) r).

(** A record that has expired is deleted and does not count. *)
Definition live_record (existing : option (uuid * ApiIdempotencyRecord.t)) (now : instant)
    : A (option (uuid * ApiIdempotencyRecord.t)) :=
  match existing with
  | Some (id, r) =>
      if ApiIdempotencyRecord.expires_at r <=? now then
        service (put_records (delete id)) ;; service flush ;; mret None
      else mret existing
  | None => mret None
  end.

Section response.
Context {R : Type} (record_response : R → Json.t) (replay_response : Json.t → A R).

(** The branch of an existing record. *)
Definition replay keys (canonical : string) (r : ApiIdempotencyRecord.t) : A R :=
  match matching_key keys r with
  | None => reject RuntimeError
  | Some key =>
      reject_if (negb (eqv (ApiIdempotencyRecord.request_hmac r) (_hmac key canonical))) ApiIdempotencyConflict ;;
      replay_response (ApiIdempotencyRecord.response_body r)
  end.

(** The branch of a new one. *)
Definition perform_once context (active : HmacKeyVersion.t) (route idempotency_key canonical : string) (now : instant)
    (operation : A R) : A R :=
  response ← operation;
  id ← service uuid4;
  service (add_record (ApiIdempotencyRecord.mk id (WorkspaceContext.workspace_id context)
    (WorkspaceContext.actor_user_id context) "POST" route (HmacKeyVersion.version active) (_hmac active (key_bytes idempotency_key))
    (_hmac active canonical) (record_response response) now (now + retention))) ;;
  service flush ;;
  mret response.

Definition idempotent_mutation context keys (idempotency_key route : string) (request_body : Json.t) (operation : A R)
    (required_roles : list Role.t) : A R :=
  reject_if (key_rejected idempotency_key) InvalidRequest ;;
  match keys with
  | [] => reject RuntimeError
  | active :: _ =>
      match json_dumps request_body with
      | None => reject (Service ValueError)
      | Some canonical =>
          reject_if (262144 <? slen canonical) InvalidRequest ;;
          service (require_current_role context required_roles true) ;;
          now ← service durable_now;
          _require_complete_key_history (HmacKeyVersion.version <$> keys) now ;;
          found ← service (gets (λ s, head (where_rows (api_records (flushed s)) (replays context keys route idempotency_key))));
          existing ← live_record found now;
          match existing with
          | Some (_, r) => replay keys canonical r
          | None => perform_once context active route idempotency_key canonical now operation
          end
      end
  end.
End response.

(** The defaults of [record_response] and [replay_response]. *)
Definition mutate {R} `{Model R} : WorkspaceContext.t → list HmacKeyVersion.t → string → string → Json.t → A R → list Role.t → A R :=
  idempotent_mutation model_dump (λ body, match model_validate body with Some r => mret r | None => reject RuntimeError end).
End mutation.

(** [purge_expired_api_idempotency] *)
Definition purge_expired_api_idempotency (now : instant) (batch_size : Z) : A Z :=
  reject_if (negb ((1 <=? batch_size) && (batch_size <=? 1000))) InvalidRequest ;;
  identifiers ← service (gets (λ s, take (Z.to_nat batch_size) (order_by ApiIdempotencyRecord.expires_at
    (where_rows (api_records (flushed s)) (λ r, ApiIdempotencyRecord.expires_at r <=? now)))));
  service (put_records (filter (λ kr, kr.1 ∉ identifiers.*1))) ;;
  service flush ;;
  mret (len identifiers).

(** * The mutating endpoints of api/contracts.py, composed of the services and
    [idempotent_mutation].  Registry searches and imports, which leave the transaction
    for the origin, are in Catalog.v. *)

Module RefreshResponse.
Record t := mk { job_id : uuid; connection_id : uuid; connection_version_id : uuid; generation : Z; status : RefreshJobStatus.t }.
End RefreshResponse.

(** Bodies of requests. *)
Module ConnectionCreateRequest.
Record t := mk { name : string; endpoint_url : string; secret_binding_id : option uuid; policy_version : string }.
End ConnectionCreateRequest.
Module ConnectionVersionCreateRequest.
Record t := mk { endpoint_url : string; secret_binding_id : option uuid; policy_version : string }.
End ConnectionVersionCreateRequest.
Module RunCreateRequest.
Record t := mk { capability_version_id : uuid; arguments : Json.t; confirmation_token : string; deadline : option Datetime.t }.
End RunCreateRequest.

Section mutations.
Context `{Externals} `{Urls} `{Defaults}.
Context `{!Model ConnectionResponse.t} `{!Model ConnectionVersionResponse.t} `{!Model RefreshResponse.t} `{!Model CapabilityResponse.t}.
(** The dependencies of the router, and the caller with the correlation of the request. *)
Context (environment : string) (execution : ExecutionService.t) (mutation_keys : list HmacKeyVersion.t).
Context (context : WorkspaceContext.t) (correlation_id : uuid).

Definition json_uuid (u : uuid) : Json.t := Json.Str (uuid_str u).
Definition json_optional_uuid (u : option uuid) : Json.t := match u with Some u => json_uuid u | None => Json.Null end.
Definition connection_service : ConnectionService.t :=
  ConnectionService.mk environment (bool_decide (environment ∈ ["local"; "test"]%string)).

Definition respond_connection (connection_id : uuid) : A ConnectionResponse.t :=
  connection ← service (connection_of connection_id); mret (_connection connection_id connection).
Definition respond_version (version_id : uuid) : A ConnectionVersionResponse.t :=
  version ← service (deref (λ s, RegistryDb.server_connection_versions (Db.registry (work s))) version_id);
  mret (_connection_version version_id version).
Definition respond_capability (capability_id : uuid) : A CapabilityResponse.t :=
  capability ← service (capability_of capability_id); mret (_capability capability_id capability).

(** [POST /v1/server-connections] *)
Definition create_connection (body : ConnectionCreateRequest.t) (idempotency_key : string) : A ConnectionResponse.t :=
  mutate context mutation_keys idempotency_key "/v1/server-connections"
    (Json.Dict [(Json.KStr "name", Json.Str (ConnectionCreateRequest.name body));
                (Json.KStr "endpoint_url", Json.Str (ConnectionCreateRequest.endpoint_url body));
                (Json.KStr "secret_binding_id", json_optional_uuid (ConnectionCreateRequest.secret_binding_id body));
                (Json.KStr "policy_version", Json.Str (ConnectionCreateRequest.policy_version body))])
    (connection_id ← configured (service (create connection_service context (ConnectionCreateRequest.name body)
       (ConnectionCreateRequest.endpoint_url body) (ConnectionCreateRequest.secret_binding_id body)
       (ConnectionCreateRequest.policy_version body) (Some correlation_id)));
     respond_connection connection_id)
    [Role.ADMIN].

Definition connection_route (connection_id : uuid) (action : string) : string :=
  "/v1/server-connections/" +:+ uuid_str connection_id +:+ action.

(** [POST /v1/server-connections/{connection_id}/versions] *)
Definition append_connection_version (connection_id : uuid) (body : ConnectionVersionCreateRequest.t) (idempotency_key : string)
    : A ConnectionVersionResponse.t :=
  mutate context mutation_keys idempotency_key (connection_route connection_id "/versions")
    (Json.Dict [(Json.KStr "endpoint_url", Json.Str (ConnectionVersionCreateRequest.endpoint_url body));
                (Json.KStr "secret_binding_id", json_optional_uuid (ConnectionVersionCreateRequest.secret_binding_id body));
                (Json.KStr "policy_version", Json.Str (ConnectionVersionCreateRequest.policy_version body))])
    (version_id ← configured (service (append_version connection_service context connection_id
       (ConnectionVersionCreateRequest.endpoint_url body) (ConnectionVersionCreateRequest.secret_binding_id body)
       (ConnectionVersionCreateRequest.policy_version body) (Some correlation_id)));
     respond_version version_id)
    [Role.ADMIN].

(** [enqueue_refresh] *)
Definition enqueue_refresh (connection_id : uuid) : A RefreshResponse.t :=
  job_id ← service (enqueue context connection_id);
  job ← service (deref (λ s, RegistryDb.discovery_refresh_jobs (Db.registry (work s))) job_id);
  mret (RefreshResponse.mk job_id (DiscoveryRefreshJob.connection_id job) (DiscoveryRefreshJob.connection_version_id job)
          (DiscoveryRefreshJob.generation job) (DiscoveryRefreshJob.status job)).

(** [POST .../verify], [POST .../refresh] *)
Definition verify_connection (connection_id : uuid) (idempotency_key : string) : A RefreshResponse.t :=
  mutate context mutation_keys idempotency_key (connection_route connection_id "/verify") (Json.Dict [])
    (enqueue_refresh connection_id) [Role.ADMIN; Role.OPERATOR].
Definition refresh_connection (connection_id : uuid) (idempotency_key : string) : A RefreshResponse.t :=
  mutate context mutation_keys idempotency_key (connection_route connection_id "/refresh") (Json.Dict [])
    (enqueue_refresh connection_id) [Role.ADMIN; Role.OPERATOR].

(** [POST .../disable] *)
Definition disable_connection (connection_id : uuid) (idempotency_key : string) : A ConnectionResponse.t :=
  mutate context mutation_keys idempotency_key (connection_route connection_id "/disable") (Json.Dict [])
    (id ← service (disable context connection_id (Some correlation_id)); respond_connection id)
    [Role.ADMIN; Role.OPERATOR].

(** [POST .../enable] *)
Definition enable_connection (connection_id : uuid) (idempotency_key : string) : A RefreshResponse.t :=
  mutate context mutation_keys idempotency_key (connection_route connection_id "/enable") (Json.Dict [])
    (_ ← service (enable context connection_id (Some correlation_id)); enqueue_refresh connection_id)
    [Role.ADMIN].

(** [_scoped_one] in the session of the request. *)
Definition scoped_version (capability_version_id : uuid) : A CapabilityVersion.t :=
  found ← service (gets (λ s, _scoped_one context (RegistryDb.capability_versions (flushed_registry s))
                                CapabilityVersion.workspace_id capability_version_id));
  match found with Ok v => mret v | Err e => reject e end.

Definition version_route (capability_version_id : uuid) (action : string) : string :=
  "/v1/capability-versions/" +:+ uuid_str capability_version_id +:+ action.

(** [POST /v1/capability-versions/{capability_version_id}/enable], and [/disable] *)
Definition post_enable_capability (capability_version_id : uuid) (idempotency_key : string) : A CapabilityResponse.t :=
  mutate context mutation_keys idempotency_key (version_route capability_version_id "/enable") (Json.Dict [])
    (version ← scoped_version capability_version_id;
     capability_id ← service (enable_capability context (CapabilityVersion.capability_id version) capability_version_id (Some correlation_id));
     respond_capability capability_id)
    [Role.ADMIN; Role.OPERATOR].
Definition post_disable_capability (capability_version_id : uuid) (idempotency_key : string) : A CapabilityResponse.t :=
  mutate context mutation_keys idempotency_key (version_route capability_version_id "/disable") (Json.Dict [])
    (version ← scoped_version capability_version_id;
     capability_id ← service (disable_capability context (CapabilityVersion.capability_id version) capability_version_id (Some correlation_id));
     respond_capability capability_id)
    [Role.ADMIN; Role.OPERATOR].

(** [_run_response] in the session of the request. *)
Definition respond_run (run_id : uuid) : A RunResponse.t :=
  run ← service (run_of run_id);
  now ← service durable_now;
  service (gets (λ s, _run_response now (flushed s) run_id run)).

(** [POST /v1/run-preflights], [POST /v1/runs] *)
Definition preflight_run (capability_version_id : uuid) (arguments : Json.t) : A RunPreflight.t :=
  service (preflight execution context capability_version_id arguments).
Definition post_create_run (body : RunCreateRequest.t) (idempotency_key : string) : A RunResponse.t :=
  run_id ← service (create_run execution context (RunCreateRequest.capability_version_id body) (RunCreateRequest.arguments body)
    (RunCreateRequest.confirmation_token body) idempotency_key (RunCreateRequest.deadline body) (Some correlation_id));
  respond_run run_id.

(** [POST /v1/runs/{run_id}/cancel]: what is kept of the response is the identifier. *)
Definition replay_run (saved : Json.t) : A RunResponse.t :=
  match saved with
  | Json.Dict members =>
      match json_lookup "id" members with
      | Some (Json.Str saved_id) =>
          match uuid_parse saved_id with
          | None => reject (Service ValueError)
          | Some id =>
              found ← service (gets (λ s, _scoped_one context (ExecutionDb.runs (flushed_execution s)) Run.workspace_id id));
              match found with Ok _ => respond_run id | Err e => reject e end
          end
      | _ => reject RuntimeError
      end
  | _ => reject RuntimeError
  end.
Definition post_cancel_run (run_id : uuid) (idempotency_key : string) : A RunResponse.t :=
  idempotent_mutation
    (λ response, Json.Dict [(Json.KStr "id", json_uuid (RunSummaryResponse.id (RunResponse.summary response)))]) replay_run
    context mutation_keys idempotency_key ("/v1/runs/" +:+ uuid_str run_id +:+ "/cancel")
    (Json.Dict [(Json.KStr "run_id", json_uuid run_id)])
    (id ← service (cancel_run context run_id (Some correlation_id)); respond_run id)
    [Role.ADMIN; Role.OPERATOR].
End mutations.

(** ** What the success of a request says *)

Lemma api_bind_ok {X Y} (m : A X) (k : X → A Y) env s y s' :
  (m ≫= k) env s = Ok (y, s') → ∃ x s1, m env s = Ok (x, s1) ∧ k x env s1 = Ok (y, s').
Proof. unfold mbind, A_bind. destruct (m env s) as [[x s1]|]; [|done]. intros E. by exists x, s1. Qed.
Lemma service_ok {X} (m : M X) env s x s' : service m env s = Ok (x, s') → m env s = Ok (x, s').
Proof. unfold service. destruct (m env s) as [[]|]; [by intros [= -> ->]|done]. Qed.
Lemma reject_if_ok b e env s x s' : reject_if b e env s = Ok (x, s') → b = false ∧ s' = s.
Proof. unfold reject_if. destruct b; [done|]. by intros [= _ <-]. Qed.

Lemma reads_ok {X} (f : Session → X) env s x s' : service (gets f) env s = Ok (x, s') → x = f s ∧ s' = s.
Proof. by intros [= <- <-]. Qed.

Lemma request_ok {X} (m : A X) env d x d' : request m env d = (Ok x, d') →
  ∃ s, m env (mkSession d d false 0 0) = Ok (x, s) ∧ conflict s = false ∧ d' = work s.
Proof.
  unfold request. destruct ((x ← m; service flush;; mret x) env (mkSession d d false 0 0)) as [[y s]|] eqn:E; [|done].
  intros [= -> <-]. apply api_bind_ok in E as (y & s1 & E & (u & s2 & [[= -> ->] Hc]%service_ok%flush_ok & [= -> <-])%api_bind_ok).
  by exists s1.
Qed.
Lemma request_failed {X} (m : A X) env d e d' : request m env d = (Err e, d') → d' = d.
Proof. unfold request. case_match; [by case_match|by intros [= _ <-]]. Qed.
