(* ===== verification/IdempotencySpec.v ===== *)
(** Replay protection: a mutation is performed once per key while its record is kept. *)
From S2P Require Import Prelude Types Json PyStr Secrets Screening Store Session Registry Identity Endpoint Connection.
From S2P Require Import Capabilities Discovery Ledger Lease Admission Cursors Permits Official Endpoints Idempotency Hoare LedgerStep IdentitySpec.
From stdpp Require Import strings.
Local Open Scope Z_scope.

(** ** The order of key versions *)

Lemma ord_inj c c' : ord c = ord c' → c = c'.
Proof. intros E. by rewrite <- (chr_ord c), <- (chr_ord c'), E. Qed.

Lemma string_ltb_irrefl a : string_ltb a a = false.
Proof. induction a as [|c a IH]; [done|]. cbn. by rewrite IH, Z.ltb_irrefl, Z.eqb_refl. Qed.

Lemma string_ltb_trans a b c : string_ltb a b = true → string_ltb b c = true → string_ltb a c = true.
Proof.
  revert b c. induction a as [|x a IH]; intros [|y b] [|z c]; cbn; try done.
  rewrite !orb_true_iff, !andb_true_iff, !Z.ltb_lt, !Z.eqb_eq. intros [?|[? H1]] [?|[? H2]]; [left; lia..|].
  right. split; [lia|by eapply IH].
Qed.

Lemma string_ltb_total a b : string_ltb a b = false → string_ltb b a = false → a = b.
Proof.
  revert b. induction a as [|x a IH]; intros [|y b]; cbn; try done.
  rewrite !orb_false_iff, !andb_false_iff, !Z.ltb_ge, !Z.eqb_neq. intros [? H1] [? H2].
  assert (x = y) as -> by (apply ord_inj; lia). f_equal. apply IH; [by destruct H1|by destruct H2].
Qed.

Definition above (previous : option string) (v : string) : Prop :=
  match previous with None => True | Some p => string_ltb p v = true end.
#[global] Instance above_dec previous v : Decision (above previous v).
Proof. unfold above. destruct previous; apply _. Defined.

Lemma fold_min l x : let m := fold_left min_string l x in
  (m = x ∨ m ∈ l) ∧ string_ltb x m = false ∧ ∀ v, v ∈ l → string_ltb v m = false.
Proof.
  revert x. induction l as [|y l IH]; intros x; cbn.
  - split; [by left|]. split; [apply string_ltb_irrefl|by intros v ?%elem_of_nil].
  - destruct (IH (min_string x y)) as (H1 & H2 & H3). set (m := fold_left min_string l (min_string x y)) in *.
    unfold min_string in H1, H2. destruct (string_ltb y x) eqn:E.
    + assert (string_ltb x m = false) as Hx.
      { destruct (string_ltb x m) eqn:Ex; [|done]. by rewrite (string_ltb_trans _ _ _ E Ex) in H2. }
      split; [destruct H1 as [->|H1]; right; [by left|by right]|]. split; [done|].
      intros v [->|Hv]%elem_of_cons; [done|by apply H3].
    + split; [destruct H1 as [->|H1]; [by left|right; by right]|]. split; [done|].
      intros v [->|Hv]%elem_of_cons; [|by apply H3]. destruct (string_ltb y m) eqn:Ey; [|done].
      destruct (string_ltb m x) eqn:Em; [by rewrite (string_ltb_trans _ _ _ Ey Em) in E|].
      by rewrite (string_ltb_total _ _ H2 Em), Ey in E.
Qed.

Lemma first_above_spec previous column :
  match first_above previous column with
  | None => ∀ v, v ∈ column → ¬ above previous v
  | Some o => o ∈ column ∧ above previous o ∧ ∀ v, v ∈ column → above previous v → v = o ∨ string_ltb o v = true
  end.
Proof.
  unfold first_above.
  set (l := match previous with None => column | Some p => List.filter (λ v, string_ltb p v) column end).
  assert (∀ v, v ∈ l ↔ v ∈ column ∧ above previous v) as Hl.
  { intros v. unfold l. destruct previous as [p|]; cbn; [|tauto]. rewrite !list_elem_of_In. apply filter_In. }
  destruct l as [|x l]; [intros v Hv Ha; by apply (elem_of_nil v), Hl|].
  destruct (fold_min l x) as (H1 & H2 & H3). set (m := fold_left min_string l x) in *.
  assert (m ∈ x :: l) as Hm by (destruct H1 as [->|?]; [by left|by right]). apply Hl in Hm as [Hm Ham].
  split; [done|]. split; [done|]. intros v Hv Ha. assert (v ∈ x :: l) as Hvl by by apply Hl.
  assert (string_ltb v m = false) as Hle by (apply elem_of_cons in Hvl as [->|?]; [done|by apply H3]).
  destruct (string_ltb m v) eqn:E; [by right|left]. by apply string_ltb_total.
Qed.

Lemma filter_shorter {T} (P Q : T → Prop) `{!∀ x, Decision (P x), !∀ x, Decision (Q x)} (l : list T) x :
  (∀ y, P y → Q y) → x ∈ l → Q x → ¬ P x → (length (filter P l) < length (filter Q l))%nat.
Proof.
  intros HPQ. assert (∀ l : list T, (length (filter P l) ≤ length (filter Q l))%nat) as Hle.
  { induction l0 as [|y l0 IH]; [done|]. rewrite !filter_cons. destruct (decide (P y)), (decide (Q y)); cbn; try lia. exfalso. eauto. }
  induction l as [|y l IH]; [by intros ?%elem_of_nil|]. intros [->|Hx]%elem_of_cons HQ HP; rewrite !filter_cons.
  - rewrite decide_False, decide_True by done. cbn. pose proof (Hle l). lia.
  - specialize (IH Hx HQ HP). destruct (decide (P y)), (decide (Q y)); cbn; try lia. exfalso. eauto.
Qed.

Lemma complete_history_above probes column conf previous :
  (length (filter (above previous) (remove_dups conf)) < probes)%nat →
  complete_history probes column conf previous = true ↔ ∀ v, v ∈ column → above previous v → v ∈ conf.
Proof.
  revert previous. induction probes as [|probes IH]; intros previous Hn; [lia|]. cbn [complete_history].
  pose proof (first_above_spec previous column) as Hf. destruct (first_above previous column) as [o|].
  - destruct Hf as (Ho & Ha & Hall). destruct (bool_decide (o ∈ conf)) eqn:E.
    + apply bool_decide_eq_true in E. rewrite IH.
      * split.
        -- intros Hc v Hv Hav. destruct (Hall v Hv Hav) as [->|?]; [done|by apply Hc].
        -- intros Hc v Hv Hov. apply Hc; [done|]. destruct previous as [p|]; [|done]. cbn in *. by eapply string_ltb_trans.
      * enough (length (filter (above (Some o)) (remove_dups conf)) < length (filter (above previous) (remove_dups conf)))%nat by lia.
        apply (filter_shorter _ _ _ o); [|by apply elem_of_remove_dups|done|cbn; by rewrite string_ltb_irrefl].
        intros v Hv. destruct previous as [p|]; [|done]. cbn in *. by eapply string_ltb_trans.
    + apply bool_decide_eq_false in E. split; [done|]. intros Hc. destruct E. by apply Hc.
  - split; [|done]. intros _ v Hv Ha. by destruct (Hf v Hv).
Qed.

(** The bounded scan is the test it stands for. *)
Lemma complete_history_iff column conf :
  complete_history (S (length (remove_dups conf))) column conf None = true ↔ ∀ v, v ∈ column → v ∈ conf.
Proof.
  rewrite complete_history_above; [naive_solver|].
  enough (length (filter (above None) (remove_dups conf)) ≤ length (remove_dups conf))%nat by lia. apply length_filter.
Qed.

(** ** Programs that leave the replay records alone *)

Definition keeps_records (s s' : Session) : Prop :=
  api_records (work s') = api_records (work s)
  ∧ (api_records (flushed s) = api_records (work s) → api_records (flushed s') = api_records (work s')).
#[global] Instance keeps_records_preorder : PreOrder keeps_records.
Proof.
  split; [done|]. intros s1 s2 s3 [W1 F1] [W2 F2]. split; [congruence|]. intros E. by apply F2, F1.
Qed.

Class Aside {X} (m : M X) : Prop := aside : ∀ env s x s', m env s = Ok (x, s') → keeps_records s s'.
Class AsideA {X} (m : A X) : Prop := aside_api : ∀ env s x s', m env s = Ok (x, s') → keeps_records s s'.

Lemma aside_bind {X Y} (m : M X) (k : X → M Y) : Aside m → (∀ x, Aside (k x)) → Aside (m ≫= k).
Proof.
  intros Hm Hk env s y s'. unfold mbind, M_bind. destruct (m env s) as [[x s1]|] eqn:E; [|done]. intros E'.
  etrans; [by eapply Hm|by eapply Hk].
Qed.
Lemma aside_api_bind {X Y} (m : A X) (k : X → A Y) : AsideA m → (∀ x, AsideA (k x)) → AsideA (m ≫= k).
Proof.
  intros Hm Hk env s y s'. unfold mbind, A_bind. destruct (m env s) as [[x s1]|] eqn:E; [|done]. intros E'.
  etrans; [by eapply Hm|by eapply Hk].
Qed.
#[global] Instance aside_service {X} (m : M X) : Aside m → AsideA (service m).
Proof. intros Hm env s x s'. unfold service. destruct (m env s) as [[y s1]|] eqn:E; [|done]. intros [= <- <-]. by eapply Hm. Qed.
#[global] Instance aside_configured {X} (m : A X) : AsideA m → AsideA (configured m).
Proof. intros Hm env s x s'. unfold configured. destruct (m env s) as [[y s1]|[[]| | | | | |]] eqn:E; try done. intros [= <- <-]. by eapply Hm. Qed.

#[global] Instance aside_api_ret {X} (x : X) : AsideA (mret x).
Proof. by intros env s y s' [= <- <-]. Qed.
#[global] Instance aside_api_reject {X} e : AsideA (reject (X := X) e).
Proof. by intros env s y s'. Qed.

Lemma aside_same {X} (m : M X) :
  (∀ env s x s', m env s = Ok (x, s') → work s' = work s ∧ flushed s' = flushed s) → Aside m.
Proof. intros Hm env s x s' E. destruct (Hm _ _ _ _ E) as [Hw Hf]. split; [by rewrite Hw|by rewrite Hw, Hf]. Qed.
#[global] Instance aside_ret {X} (x : X) : Aside (mret x).
Proof. apply aside_same. by intros env s y s' [= <- <-]. Qed.
#[global] Instance aside_raise {X} e : Aside (raise (A := X) e).
Proof. by apply aside_same. Qed.
#[global] Instance aside_raise_if b e : Aside (raise_if b e).
Proof. destruct b; apply _. Qed.
#[global] Instance aside_lift {X} (m : result exn X) : Aside (lift m).
Proof. apply aside_same. intros env s x s'. unfold lift. destruct m; [by intros [= <- <-]|done]. Qed.
#[global] Instance aside_gets {X} (f : Session → X) : Aside (gets f).
Proof. apply aside_same. by intros env s y s' [= <- <-]. Qed.
#[global] Instance aside_durable_now : Aside durable_now.
Proof. apply aside_same. by intros env s y s' [= <- <-]. Qed.
#[global] Instance aside_uuid4 : Aside uuid4.
Proof. apply aside_same. by intros env s y s' [= <- <-]. Qed.
#[global] Instance aside_deref {R} (t : Session → gmap uuid R) i : Aside (deref t i).
Proof. apply aside_same. intros env s x s'. unfold deref. destruct (t s !! i); [by intros [= <- <-]|done]. Qed.
#[global] Instance aside_put_registry f : Aside (put_registry f).
Proof. by intros env s x s' [= <- <-]. Qed.
#[global] Instance aside_put_execution f : Aside (put_execution f).
Proof. by intros env s x s' [= <- <-]. Qed.
#[global] Instance aside_flag_conflict b : Aside (flag_conflict b).
Proof. by intros env s x s' [= <- <-]. Qed.
Lemma aside_put_identity f :
  (∀ d, IdentityDb.api_idempotency_records (f d) = IdentityDb.api_idempotency_records d) → Aside (put_identity f).
Proof. intros Hf env s x s' [= <- <-]. unfold keeps_records, api_records. cbn. rewrite Hf. done. Qed.
#[global] Instance aside_flush : Aside flush.
Proof. intros env s x s' [[= -> ->] _]%flush_ok. by split. Qed.
#[global] Instance aside_try_flush : Aside try_flush.
Proof.
  intros env s x s'. unfold try_flush. destruct (flush env s) as [[u s1]|e] eqn:E.
  - intros [= <- <-]. by apply (aside_flush _ _ _ _ E).
  - destruct e; intros [=]; by subst.
Qed.
#[global] Instance aside_for_each {X} (l : list X) body : (∀ x, Aside (body x)) → Aside (for_each l body).
Proof. intros Hb. induction l as [|x l IH]; cbn; [apply _|]. by apply aside_bind. Qed.

Ltac head_of t := lazymatch t with ?f _ => head_of f | _ => t end.
Ltac aside_step :=
  lazymatch goal with
  | |- ∀ _, _ => intros
  | |- Aside (_ ≫= _) => apply aside_bind
  | |- Aside (match ?x with _ => _ end) => destruct x
  | |- Aside (put_identity _) => by apply aside_put_identity
  | |- Aside ?m => first [apply _ | let h := head_of m in unfold h]
  | |- AsideA (_ ≫= _) => apply aside_api_bind
  | |- AsideA (match ?x with _ => _ end) => destruct x
  | |- AsideA ?m => first [apply _ | let h := head_of m in unfold h]
  end.
Ltac aside_program := repeat aside_step.

#[global] Instance aside_require_current_role context roles b : Aside (require_current_role context roles b).
Proof. aside_program. Qed.
#[global] Instance aside_audit context action t id c : Aside (audit context action t id c).
Proof. aside_program. Qed.

Section operations.
Context `{Externals} `{Urls} `{Defaults}.
#[global] Instance aside_create service context name url binding policy c : Aside (create service context name url binding policy c).
Proof. aside_program. Qed.
#[global] Instance aside_append_version service context id url binding policy c :
  Aside (append_version service context id url binding policy c).
Proof. aside_program. Qed.
#[global] Instance aside_disable context id c : Aside (disable context id c).
Proof. aside_program. Qed.
#[global] Instance aside_enable context id c : Aside (enable context id c).
Proof. aside_program. Qed.
#[global] Instance aside_enqueue context id : Aside (enqueue context id).
Proof. aside_program. Qed.
#[global] Instance aside_enable_capability context id v c : Aside (enable_capability context id v c).
Proof. aside_program. Qed.
#[global] Instance aside_disable_capability context id v c : Aside (disable_capability context id v c).
Proof. aside_program. Qed.
#[global] Instance aside_cancel_run context id c : Aside (cancel_run context id c).
Proof. aside_program. Qed.
#[global] Instance aside_enqueue_refresh context id : AsideA (enqueue_refresh context id).
Proof. unfold enqueue_refresh. aside_program. Qed.
#[global] Instance aside_respond_connection id : AsideA (respond_connection id).
Proof. unfold respond_connection. aside_program. Qed.
End operations.

(** ** A retry *)

Section retry.
Context `{Externals}.
Implicit Types (context : WorkspaceContext.t) (keys : list HmacKeyVersion.t).

(** The records of an idempotency key, and the steps of other requests. *)
Definition records_of context keys (route idempotency_key : string) (d : Db.t) : list (uuid * ApiIdempotencyRecord.t) :=
  where_rows (api_records d) (replays context keys route idempotency_key).

(** A row records an idempotency key: it is of the caller and the route, and its digest is
    that of the key under a key of the keyring. *)
Definition records_key context keys (route idempotency_key : string) (r : ApiIdempotencyRecord.t) : Prop :=
  ApiIdempotencyRecord.workspace_id r = WorkspaceContext.workspace_id context
  ∧ ApiIdempotencyRecord.actor_user_id r = WorkspaceContext.actor_user_id context
  ∧ ApiIdempotencyRecord.method r = "POST"%string ∧ ApiIdempotencyRecord.route r = route
  ∧ ∃ key, key ∈ keys ∧ ApiIdempotencyRecord.key_version r = HmacKeyVersion.version key
      ∧ ApiIdempotencyRecord.key_hmac r = hmac_sha256_hex (HmacKeyVersion.secret key) (key_bytes idempotency_key).
Definition unused context keys route idempotency_key (d : Db.t) : Prop :=
  ∀ id r, api_records d !! id = Some r → ¬ records_key context keys route idempotency_key r.

Lemma replays_spec context keys route idempotency_key r :
  replays context keys route idempotency_key r = true ↔ records_key context keys route idempotency_key r.
Proof.
  unfold replays, records_key. rewrite !andb_true_iff, !eqv_true, existsb_exists.
  setoid_rewrite andb_true_iff. setoid_rewrite eqv_true. setoid_rewrite <- list_elem_of_In. unfold _hmac. tauto.
Qed.
Lemma unused_records context keys route idempotency_key d :
  unused context keys route idempotency_key d → records_of context keys route idempotency_key d = [].
Proof.
  intros Hu. destruct (records_of _ _ _ _ d) as [|[id r] l] eqn:E; [done|].
  assert ((id, r) ∈ records_of context keys route idempotency_key d) as [Hid Hr]%elem_of_where_rows by (rewrite E; left).
  by apply replays_spec, (Hu id r Hid) in Hr.
Qed.

(** Two requests concern different keys: their callers or routes differ, or their
    idempotency keys do and no key version of both keyrings gives them the same digest,
    which for HMAC-SHA256 takes a collision. *)
Definition other_scope context (route : string) context' (route' : string) : Prop :=
  WorkspaceContext.workspace_id context' ≠ WorkspaceContext.workspace_id context
  ∨ WorkspaceContext.actor_user_id context' ≠ WorkspaceContext.actor_user_id context ∨ route' ≠ route.
Definition other_digests keys (idempotency_key : string) keys' (idempotency_key' : string) : Prop :=
  ∀ key key', key ∈ keys → key' ∈ keys' → HmacKeyVersion.version key = HmacKeyVersion.version key' →
    hmac_sha256_hex (HmacKeyVersion.secret key) (key_bytes idempotency_key)
    ≠ hmac_sha256_hex (HmacKeyVersion.secret key') (key_bytes idempotency_key').
Definition other_key context keys route idempotency_key context' keys' route' idempotency_key' : Prop :=
  other_scope context route context' route'
  ∨ idempotency_key' ≠ idempotency_key ∧ other_digests keys idempotency_key keys' idempotency_key'.

Lemma other_key_records context keys route idempotency_key context' keys' route' idempotency_key' r :
  other_key context keys route idempotency_key context' keys' route' idempotency_key' →
  records_key context keys route idempotency_key r → records_key context' keys' route' idempotency_key' r → False.
Proof.
  intros Ho (W1 & A1 & _ & R1 & k & Hk & V1 & D1) (W2 & A2 & _ & R2 & k' & Hk' & V2 & D2).
  destruct Ho as [[?|[?|?]]|[_ Ho]]; [congruence..|]. apply (Ho k k' Hk Hk'); congruence.
Qed.

(** What other requests, the purge and the other services do. *)
Inductive step context keys (route idempotency_key : string) (expiry : instant) (d d' : Db.t) : Prop :=
| step_mutation {R} (record : R → Json.t) (saved : Json.t → A R) (operation : A R)
    env context' keys' idempotency_key' route' body' roles' result :
    other_key context keys route idempotency_key context' keys' route' idempotency_key' →
    AsideA operation → (∀ b, AsideA (saved b)) →
    request (idempotent_mutation record saved context' keys' idempotency_key' route' body' operation roles') env d = (result, d')
    → step context keys route idempotency_key expiry d d'
| step_purge env now batch_size result :
    now < expiry → request (purge_expired_api_idempotency now batch_size) env d = (result, d') →
    step context keys route idempotency_key expiry d d'
| step_elsewhere : api_records d' = api_records d → step context keys route idempotency_key expiry d d'.

(** What a later request finds: the rows of the key are the same, but for those that expire earlier. *)
Definition same_records context keys route idempotency_key (expiry : instant) (d d' : Db.t) : Prop :=
  ∀ id r, replays context keys route idempotency_key r = true →
    (api_records d' !! id = Some r → api_records d !! id = Some r)
    ∧ (expiry ≤ ApiIdempotencyRecord.expires_at r → api_records d !! id = Some r → api_records d' !! id = Some r).

Lemma require_current_role_ok context roles env s m s' : require_current_role context roles true env s = Ok (m, s') →
  keeps_records s s' ∧ flushed s' = flushed s ∧ ticks s' = ticks s ∧ conflict s' = conflict s.
Proof.
  intros E. split; [by eapply aside_require_current_role|]. revert E.
  unfold require_current_role, require_role, select_workspace, select_membership, populate_membership, by_id.
  intros (? & ? & [_ ->]%raise_if_ok & E)%bind_ok. apply bind_ok in E as (? & ? & (? & ? & [= <- <-] & [_ ->]%raise_if_ok)%bind_ok & E).
  apply bind_ok in E as (found & ? & [= <- <-] & E). destruct (IdentityDb.workspace_memberships _ !! _); [|done].
  by apply bind_ok in E as (? & ? & [= <- <-] & (? & ? & [_ ->]%raise_if_ok & [= <- <-])%bind_ok).
Qed.

(** The row a mutation leaves. *)
Definition record_of context (active : HmacKeyVersion.t) route idempotency_key canonical body now (id : uuid) : ApiIdempotencyRecord.t :=
  ApiIdempotencyRecord.mk id (WorkspaceContext.workspace_id context) (WorkspaceContext.actor_user_id context) "POST" route
    (HmacKeyVersion.version active) (_hmac active (key_bytes idempotency_key)) (_hmac active canonical) body now (now + retention).

(** The database with the row. *)
Definition with_record (r : ApiIdempotencyRecord.t) (d : Db.t) : Db.t :=
  d <| Db.identity := Db.identity d <| IdentityDb.api_idempotency_records := <[ApiIdempotencyRecord.id r := r]> (api_records d) |> |>.

Lemma add_record_work r env s x s' : add_record r env s = Ok (x, s') → work s' = with_record r (work s).
Proof. unfold add_record. intros (u & s1 & E1 & E2)%bind_ok. injection E1 as <- <-. by injection E2 as <- <-. Qed.

Lemma add_record_ok r env s x s' : add_record r env s = Ok (x, s') →
  api_records (work s') = <[ApiIdempotencyRecord.id r := r]> (api_records (work s))
  ∧ (conflict s' = false → api_records (work s) !! ApiIdempotencyRecord.id r = None).
Proof.
  unfold add_record. intros (u & s1 & E1 & E2)%bind_ok. injection E1 as <- <-. injection E2 as <- <-. split; [done|].
  change (conflict s || (is_some (api_records (work s) !! ApiIdempotencyRecord.id r)
    || existsb (λ kr, eqv (ApiIdempotencyRecord.unique_key kr.2) (ApiIdempotencyRecord.unique_key r))
         (map_to_list (api_records (work s)))) = false → api_records (work s) !! ApiIdempotencyRecord.id r = None).
  rewrite !orb_false_iff. intros [_ [Hf _]]. by destruct (_ !! _).
Qed.

Lemma perform_once_ok {R} (record : R → Json.t) context active route idempotency_key canonical now operation env s x s' :
  AsideA operation → api_records (flushed s) = api_records (work s) →
  perform_once record context active route idempotency_key canonical now operation env s = Ok (x, s') →
  ∃ id, api_records (work s) !! id = None ∧ api_records (work s') =
    <[id := record_of context active route idempotency_key canonical (record x) now id]> (api_records (work s))
    ∧ (∃ s1, operation env s = Ok (x, s1)
         ∧ work s' = with_record (record_of context active route idempotency_key canonical (record x) now id) (work s1))
    ∧ flushed s' = work s' ∧ conflict s' = false.
Proof.
  intros Ha Hs. unfold perform_once. intros (y & s1 & E1 & E)%api_bind_ok. pose proof (Ha _ _ _ _ E1) as [W1 _].
  apply api_bind_ok in E as (id & s2 & E2%service_ok & E). injection E2 as <- <-.
  apply api_bind_ok in E as (u & s3 & E3%service_ok & E).
  pose proof (add_record_work _ _ _ _ _ E3) as Hw. apply add_record_ok in E3 as [W3 Hfree].
  apply api_bind_ok in E as (v & s4 & [[= -> ->] Hc]%service_ok%flush_ok & [= <- <-]).
  exists (uuid4_source env (draws s1)). rewrite <- W1. split_and!; [by apply Hfree|apply W3| |done|done]. by exists s1.
Qed.
Lemma history_ok configured_versions now env s x s' :
  _require_complete_key_history configured_versions now env s = Ok (x, s') → s' = s.
Proof. unfold _require_complete_key_history. by intros (? & ? & [_ ->]%reads_ok & [_ ->]%reject_if_ok)%api_bind_ok. Qed.

Lemma live_record_ok found now env s live s' : live_record found now env s = Ok (live, s') →
  match live with
  | Some (i, r) => found = Some (i, r) ∧ now < ApiIdempotencyRecord.expires_at r ∧ s' = s
  | None => found = None ∧ s' = s
      ∨ ∃ i r, found = Some (i, r) ∧ ApiIdempotencyRecord.expires_at r ≤ now
               ∧ api_records (work s') = delete i (api_records (work s)) ∧ flushed s' = work s'
  end.
Proof.
  unfold live_record. destruct found as [[i r]|]; [|intros [= <- <-]; by left].
  destruct (Z.leb_spec (ApiIdempotencyRecord.expires_at r) now); [|by intros [= <- <-]].
  intros (u & s1 & E%service_ok & (v & s2 & [[= -> ->] _]%service_ok%flush_ok & [= <- <-])%api_bind_ok)%api_bind_ok.
  injection E as <- <-. right. by exists i, r.
Qed.

Lemma durable_now_ok env s now s' : durable_now env s = Ok (now, s') →
  now = clock env (ticks s) ∧ flushed s' = flushed s ∧ work s' = work s.
Proof. by intros [= <- <-]. Qed.

Lemma mutation_ok {R} (record : R → Json.t) saved context keys idempotency_key route body operation roles env d x d' :
  AsideA operation → (∀ b, AsideA (saved b)) →
  request (idempotent_mutation record saved context keys idempotency_key route body operation roles) env d = (Ok x, d') →
  let found := head (records_of context keys route idempotency_key d) in let now := clock env 0%nat in
  ∃ active rest canonical, keys = active :: rest ∧ json_dumps body = Some canonical ∧ key_rejected idempotency_key = false ∧
  ((∃ i r, found = Some (i, r) ∧ now < ApiIdempotencyRecord.expires_at r ∧ api_records d' = api_records d)
   ∨ ∃ id base, base !! id = None
       ∧ (found = None ∧ base = api_records d
          ∨ ∃ i r, found = Some (i, r) ∧ ApiIdempotencyRecord.expires_at r ≤ now ∧ base = delete i (api_records d))
       ∧ api_records d' = <[id := record_of context active route idempotency_key canonical (record x) now id]> base
       ∧ (found = None → ∃ s s1, flushed s = d ∧ keeps_records (mkSession d d false 0 0) s ∧ operation env s = Ok (x, s1)
            ∧ d' = with_record (record_of context active route idempotency_key canonical (record x) now id) (work s1))).
Proof.
  intros Ha Hb (s1 & E & _ & ->)%request_ok. cbv zeta.
  unfold idempotent_mutation in E. apply api_bind_ok in E as (u1 & s3 & [Hkey ->]%reject_if_ok & E).
  destruct keys as [|active rest]; [done|]. destruct (json_dumps body) as [canonical|]; [|done].
  exists active, rest, canonical. split_and!; [done..|]. revert E. set (keys := active :: rest). intros E.
  apply api_bind_ok in E as (u3 & s4 & [_ ->]%reject_if_ok & E).
  apply api_bind_ok in E as (u4 & s5 & ([W F] & Hf & Ht & Hc)%service_ok%require_current_role_ok & E).
  apply api_bind_ok in E as (now & s6 & (-> & F6 & W6)%service_ok%durable_now_ok & E). rewrite Ht in E.
  apply api_bind_ok in E as (u5 & s7 & ->%history_ok & E).
  apply api_bind_ok in E as (found & s8 & [-> ->]%reads_ok & E).
  apply api_bind_ok in E as (live & s9 & Hl%live_record_ok & E).
  rewrite F6, W6, Hf, W in Hl. destruct live as [[i r]|].
  - left. exists i, r. destruct Hl as (Hi & Hlive & ->). split; [done|]. split; [done|].
    unfold replay in E. destruct (matching_key _ _); [|done]. apply api_bind_ok in E as (u6 & s10 & [_ ->]%reject_if_ok & [E _]%Hb).
    by rewrite E, W6, W.
  - right. apply perform_once_ok in E as (id & Hid & Hrec & (s10 & Hop & Hwork) & _); [|done|].
    + exists id, (api_records (work s9)). split; [done|]. split; [|split; [done|]].
      * destruct Hl as [[Hn ->]|(i & r & Hi & Hexp & Hdel & _)]; [left; by rewrite W6, W|right; by exists i, r].
      * intros Hnone. destruct Hl as [[_ ->]|(i & r & Hi & _)]; [|unfold records_of in Hnone; cbn [flushed] in Hi; congruence]. exists s6, s10.
        split; [by rewrite F6, Hf|]. split; [split; [by rewrite W6, W|]|done]. intros _. by rewrite F6, Hf, W6, W.
    + destruct Hl as [[_ ->]|(i & r & _ & _ & _ & ->)]; [|done]. by rewrite F6, W6, F.
Qed.
Lemma head_of {X} (l : list X) x : head l = Some x → x ∈ l.
Proof. destruct l; [done|]. intros [= ->]. by left. Qed.

Lemma replays_own context keys active route idempotency_key canonical body now id : active ∈ keys →
  replays context keys route idempotency_key (record_of context active route idempotency_key canonical body now id) = true.
Proof. intros Hin. apply replays_spec. split_and!; try done. by exists active. Qed.

Lemma step_same context keys route idempotency_key expiry d d' :
  step context keys route idempotency_key expiry d d' → same_records context keys route idempotency_key expiry d d'.
Proof.
  intros Hstep id r Hr. pose proof (proj1 (replays_spec _ _ _ _ _) Hr) as Hrk. destruct Hstep as
    [R record saved operation env context' keys' idempotency_key' route' body' roles' [x|e] Hother Ha Hb Hreq
    |env now batch_size [n|e] Hnow Hreq|Heq]; [| by apply request_failed in Hreq as -> | |by apply request_failed in Hreq as -> |by rewrite Heq].
  - apply mutation_ok in Hreq as (active & rest & canonical & Hkeys & _ & _ & [(i & ri & _ & _ & ->)|(i & base & Hi & Hbase & -> & _)]); [done| |done..].
    assert (∀ r', replays context' keys' route' idempotency_key' r' = true → r ≠ r') as Hne.
    { intros r' Hr' ->. apply replays_spec in Hr'. by eapply other_key_records. }
    assert (base !! id = Some r ↔ api_records d !! id = Some r) as Hsame.
    { destruct Hbase as [[_ ->]|(j & rj & Hj & _ & ->)]; [done|].
      apply head_of, elem_of_where_rows in Hj as [Hj Hrj]. rewrite lookup_delete_Some.
      split; [tauto|]. intros Hid. split; [|done]. intros ->. apply (Hne rj); [done|congruence]. }
    enough (api_records d !! id = Some r ↔ <[i := record_of context' active route' idempotency_key' canonical (record x) (clock env 0%nat) i]> base !! id = Some r) by tauto.
    rewrite <- Hsame. destruct (decide (i = id)) as [->|]; [|by rewrite lookup_insert_ne].
    rewrite lookup_insert_eq, Hi. split; [done|]. intros [= E].
    destruct (Hne (record_of context' active route' idempotency_key' canonical (record x) (clock env 0%nat) id)); [|by rewrite E].
    apply replays_own. rewrite Hkeys. by left.
  - apply request_ok in Hreq as (s & E & _ & ->). unfold purge_expired_api_idempotency in E.
    apply api_bind_ok in E as (u & s1 & [_ ->]%reject_if_ok & E).
    apply api_bind_ok in E as (ids & s2 & [-> ->]%reads_ok & E). cbn in E.
    apply api_bind_ok in E as (u1 & s3 & E3%service_ok & E). injection E3 as _ <-.
    apply api_bind_ok in E as (u2 & s4 & [[= _ ->] _]%service_ok%flush_ok & [= _ <-]).
    match goal with |- (?P → ?Q) ∧ (?E → _) => change (P → Q) with
      (filter (λ kr, kr.1 ∉ (take (Z.to_nat batch_size) (order_by ApiIdempotencyRecord.expires_at
      (where_rows (api_records d) (λ r, ApiIdempotencyRecord.expires_at r <=? now)))).*1) (api_records d) !! id = Some r → Q) end.
    rewrite map_lookup_filter_Some. split; [tauto|]. intros Hexp Hid. apply map_lookup_filter_Some. split; [done|]. cbn.
    intros ([i ri] & -> & Hin)%list_elem_of_fmap.
    apply (subseteq_take _ _ _), elem_of_order_by, elem_of_where_rows in Hin as [Hi Hlt%Z.leb_le]. cbn in *.
    assert (ri = r) as -> by congruence. lia.
Qed.
Lemma steps_same context keys route idempotency_key expiry d d' :
  rtc (step context keys route idempotency_key expiry) d d' → same_records context keys route idempotency_key expiry d d'.
Proof.
  induction 1 as [|d1 d2 d3 H1 _ IH]; [done|]. intros id r Hr. destruct (IH id r Hr), (step_same _ _ _ _ _ _ _ H1 id r Hr). tauto.
Qed.

(** What a retry answers, [x] being what the first attempt answered. *)
Definition retried {X} context keys (active : HmacKeyVersion.t) (roles : list Role.t) (body body' : Json.t) (now : instant) (d : Db.t) (x : X)
    : result api_error X :=
  match json_dumps body' with
  | None => Err (Service ValueError)
  | Some canonical =>
      if 262144 <? slen canonical then Err InvalidRequest
      else if negb (authorized context roles d) then Err (Service AuthorizationDenied)
      else if negb (bool_decide (retained_versions now (api_records d) ⊆ HmacKeyVersion.version <$> keys))
      then Err ApiIdempotencyHistoryIncomplete
      else if eqv (_hmac active <$> json_dumps body) (Some (_hmac active canonical)) then Ok x
      else Err ApiIdempotencyConflict
  end.

Lemma complete_history_bool column conf :
  complete_history (S (length (remove_dups conf))) column conf None = bool_decide (column ⊆ conf).
Proof. apply eq_bool_prop_intro. rewrite bool_decide_spec. rewrite Is_true_true. apply complete_history_iff. Qed.

Lemma matching_key_unique keys active r : NoDup (HmacKeyVersion.version <$> keys) → active ∈ keys →
  ApiIdempotencyRecord.key_version r = HmacKeyVersion.version active → matching_key keys r = Some active.
Proof.
  intros Hnd Hin Hr. unfold matching_key. rewrite Hr. clear Hr. induction keys as [|k keys IH]; [by apply elem_of_nil in Hin|].
  cbn. apply NoDup_cons in Hnd as [Hk Hnd]. apply elem_of_cons in Hin as [->|Hin]; [by rewrite (bool_decide_eq_true_2 _ eq_refl) || (unfold eqv; rewrite bool_decide_true by done)|].
  destruct (eqv _ _) eqn:E; [|by apply IH]. breflect. destruct Hk. rewrite E. by apply list_elem_of_fmap_2.
Qed.

(** The read-only path of a request that finds a live record. *)
Lemma replayed {R} (record : R → Json.t) saved context keys active route idempotency_key body operation roles env d id r canonical x :
  active ∈ keys → NoDup (HmacKeyVersion.version <$> keys) → key_rejected idempotency_key = false →
  records_of context keys route idempotency_key d = [(id, r)] → clock env 0%nat < ApiIdempotencyRecord.expires_at r →
  ApiIdempotencyRecord.key_version r = HmacKeyVersion.version active → ApiIdempotencyRecord.request_hmac r = _hmac active canonical →
  saved (ApiIdempotencyRecord.response_body r) = mret x → schema_checks d = true → members_keyed d →
  ∀ body0, json_dumps body0 = Some canonical →
  request (idempotent_mutation record saved context keys idempotency_key route body operation roles) env d
  = (retried context keys active roles body0 body (clock env 0%nat) d x, d).
Proof.
  intros Hin Hnd Hkey Hrec Hlive Hver Hreq Hsaved Hd Hm body0 Hbody0.
  unfold request, idempotent_mutation, retried, mbind, A_bind, service. rewrite Hkey, Hbody0. cbn.
  destruct keys as [|k rest]; [by apply elem_of_nil in Hin|]. set (keys := k :: rest) in *.
  destruct (json_dumps body) as [canonical'|]; [|done]. destruct (262144 <? slen canonical'); [done|]. cbn.
  pose proof (require_current_role_fresh context roles env d false 0 0 Hm) as Hrole.
  destruct (authorized context roles d); [destruct Hrole as [m ->]|by rewrite Hrole]. cbn.
  change ({| flushed := d; work := d; conflict := false; ticks := 0; draws := 0 |} <| ticks := 1%nat |>) with (mkSession d d false 1 0).
  change (HmacKeyVersion.version k :: (HmacKeyVersion.version <$> rest)) with (HmacKeyVersion.version <$> keys).
  unfold _require_complete_key_history, mbind, A_bind, service, gets. cbn [flushed]. rewrite complete_history_bool.
  destruct (bool_decide (_ ⊆ _)); cbn; [|done]. change (where_rows (api_records d) _) with (records_of context keys route idempotency_key d).
  rewrite Hrec. cbn. destruct (Z.leb_spec (ApiIdempotencyRecord.expires_at r) (clock env 0)); [lia|]. cbn.
  unfold replay. rewrite (matching_key_unique keys active) by done. rewrite Hreq, Hsaved.
  assert (eqv (Some (_hmac active canonical)) (Some (_hmac active canonical')) = eqv (_hmac active canonical) (_hmac active canonical')) as ->.
  { unfold eqv. apply bool_decide_ext. split; congruence. }
  destruct (eqv (_hmac active canonical) _); unfold mbind, A_bind; cbn -[flush]; [by rewrite flush_unchanged|done].
Qed.

Lemma same_record_row context keys route idempotency_key expiry d d' id r :
  same_records context keys route idempotency_key expiry d d' → expiry ≤ ApiIdempotencyRecord.expires_at r →
  records_of context keys route idempotency_key d = [(id, r)] → records_of context keys route idempotency_key d' = [(id, r)].
Proof.
  intros Hs Hexp Hrec. assert ((id, r) ∈ records_of context keys route idempotency_key d) as [Hid Hr]%elem_of_where_rows by (rewrite Hrec; left).
  apply where_rows_singleton; [by apply (Hs id r)|done|]. intros j rj Hj Hrj.
  assert ((j, rj) ∈ records_of context keys route idempotency_key d) as Hin by by apply elem_of_where_rows; split; [apply (Hs j rj Hrj)|].
  rewrite Hrec in Hin. by apply list_elem_of_singleton in Hin as [= -> ->].
Qed.
(** The row of a first attempt is the one row of its key. *)
Lemma first_attempt_row {R} (record : R → Json.t) saved context keys keys' idempotency_key route body operation roles env d x d' :
  AsideA operation → (∀ b, AsideA (saved b)) →
  records_of context keys route idempotency_key d = [] → records_of context keys' route idempotency_key d = [] →
  (∀ active, head keys = Some active → active ∈ keys') →
  request (idempotent_mutation record saved context keys idempotency_key route body operation roles) env d = (Ok x, d') →
  key_rejected idempotency_key = false ∧ ∃ active canonical id, head keys = Some active ∧ json_dumps body = Some canonical
  ∧ records_of context keys' route idempotency_key d'
    = [(id, record_of context active route idempotency_key canonical (record x) (clock env 0%nat) id)]
  ∧ ∃ s s1, flushed s = d ∧ keeps_records (mkSession d d false 0 0) s ∧ operation env s = Ok (x, s1)
      ∧ d' = with_record (record_of context active route idempotency_key canonical (record x) (clock env 0%nat) id) (work s1).
Proof.
  intros Ha Hb Hnew Hnew' Hact Hreq.
  apply mutation_ok in Hreq as (active & rest & canonical & -> & Hbody & Hkey & [(i & r & Hf & _)|(id & base & Hid & [[_ ->]|(i & r & Hf & _)] & Hd & Hop)]); [by rewrite Hnew in Hf| |by rewrite Hnew in Hf|done..].
  split; [done|]. exists active, canonical, id. split; [done|]. split; [done|]. split; [|apply Hop; by rewrite Hnew].
  apply where_rows_singleton; [by rewrite Hd, lookup_insert_eq|by apply replays_own, Hact|].
  intros j r Hj Hr. rewrite Hd in Hj. apply lookup_insert_Some in Hj as [[-> _]|[_ Hj]]; [done|].
  assert ((j, r) ∈ records_of context keys' route idempotency_key d) as Hin by by apply elem_of_where_rows.
  by rewrite Hnew' in Hin; apply elem_of_nil in Hin.
Qed.

Lemma step_mutate {R} `{Model R} context keys route idempotency_key expiry context' keys' idempotency_key' route' body' (operation : A R) roles' env d :
  other_key context keys route idempotency_key context' keys' route' idempotency_key' → AsideA operation →
  step context keys route idempotency_key expiry d (request (mutate context' keys' idempotency_key' route' body' operation roles') env d).2.
Proof.
  intros Hother Ha. eapply step_mutation; [exact Hother|exact Ha| |apply surjective_pairing].
  intros b. cbv beta. destruct (model_validate b); apply _.
Qed.
Lemma step_purged context keys route idempotency_key expiry env now batch_size d :
  now < expiry → step context keys route idempotency_key expiry d (request (purge_expired_api_idempotency now batch_size) env d).2.
Proof. intros Hnow. eapply step_purge; [exact Hnow|apply surjective_pairing]. Qed.

(** C37. A mutation is performed once per idempotency key.  A request that succeeds with a
    key that no row records under its keyring has run its operation, answers what the
    operation answered, and leaves the database of the operation with one more row, that of
    its key.  Whatever follows - requests of other callers and routes, requests of the same
    caller on the same route under other keys, purges and the work of other services - a
    retry before the row expires changes nothing, and it answers what the first attempt
    answered if it carries the same canonical request, a conflict if it carries another
    (unless the caller has lost the role or the keyring lacks a key that is in use).  The
    retry may find the keyring rotated, as long as it still holds the key of the first
    attempt. *)
Theorem mutation_performed_once {R} `{Model R} context context' keys keys' (idempotency_key route : string) body body'
    (operation operation' : A R) roles roles' env env' d0 d1 d2 x :
  AsideA operation → NoDup (HmacKeyVersion.version <$> keys') → (∀ active, head keys = Some active → active ∈ keys') →
  unused context keys route idempotency_key d0 → unused context keys' route idempotency_key d0 →
  request (mutate context keys idempotency_key route body operation roles) env d0 = (Ok x, d1) →
  rtc (step context keys' route idempotency_key (clock env 0%nat + retention)) d1 d2 → schema_checks d2 = true → members_keyed d2 →
  clock env' 0%nat < clock env 0%nat + retention →
  WorkspaceContext.workspace_id context' = WorkspaceContext.workspace_id context →
  WorkspaceContext.actor_user_id context' = WorkspaceContext.actor_user_id context →
  ∃ active, head keys = Some active
    ∧ (∃ s s1 r, flushed s = d0 ∧ api_records (work s) = api_records d0 ∧ operation env s = Ok (x, s1) ∧ d1 = with_record r (work s1)
         ∧ records_key context [active] route idempotency_key r ∧ ApiIdempotencyRecord.expires_at r = clock env 0%nat + retention)
    ∧ request (mutate context' keys' idempotency_key route body' operation' roles') env' d2
      = (retried context' keys' active roles' body body' (clock env' 0%nat) d2 x, d2).
Proof.
  intros Ha Hnd Hact Hnew%unused_records Hnew'%unused_records Hfirst Hsteps Hd Hm Hlive Hw Hu.
  eapply first_attempt_row in Hfirst as (Hkey & active & canonical & id & Hhead & Hbody & Hrow & s & s1 & Hs & [Hkept _] & Hop & Hd1); [|try done..].
  - exists active. split; [done|]. split.
    { eexists s, s1, _. split_and!; [done|done|done|done| |done]. by apply replays_spec, replays_own, list_elem_of_singleton. }
    assert (records_of context' keys' route idempotency_key d2 = records_of context keys' route idempotency_key d2) as E
      by (unfold records_of, replays; by rewrite Hw, Hu).
    pose proof (steps_same context keys' route idempotency_key _ _ _ Hsteps) as Hsame.
    pose proof (λ H, same_record_row _ _ _ _ _ _ _ _ _ Hsame H Hrow) as Hrow'. rewrite <- E in Hrow'. specialize (Hrow' (Z.le_refl _)).
    eapply replayed; [by apply Hact|done|done|exact Hrow'|done|done|done| |done|done|done].
    cbn. by rewrite model_law.
  - intros b. destruct (model_validate b); apply _.
Qed.
End retry.
