(* ===== verification/OrderedDict.v ===== *)
(** [collections.OrderedDict]: association lists, oldest entry first, with the operations
    that the bounded tables of the API use. *)
From S2P Require Import Prelude.
From stdpp Require Import list.

Section ordered_dict.
Context {K V : Type} `{EqDecision K}.
Implicit Types (d : list (K * V)) (k : K).

(** [d.get(k)] *)
Fixpoint dict_get d k : option V :=
  match d with
  | [] => None
  | (k', v) :: d => if decide (k' = k) then Some v else dict_get d k
  end.

(** [d.pop(k, None)], the rest *)
Fixpoint dict_pop d k : list (K * V) :=
  match d with
  | [] => []
  | (k', v) :: d => if decide (k' = k) then d else (k', v) :: dict_pop d k
  end.

(** [d[k] = v]: a key that is present keeps its place. *)
Fixpoint dict_set d k (v : V) : list (K * V) :=
  match d with
  | [] => [(k, v)]
  | (k', v') :: d => if decide (k' = k) then (k, v) :: d else (k', v') :: dict_set d k v
  end.

(** [d.move_to_end(k)] *)
Definition move_to_end d k : list (K * V) :=
  match dict_get d k with Some v => dict_pop d k ++ [(k, v)] | None => d end.

(** [while len(d) > bound: d.popitem(last=False)] *)
Fixpoint dict_trim (bound : nat) d : list (K * V) :=
  match d with
  | [] => []
  | e :: d' => if decide (bound < length d)%nat then dict_trim bound d' else d
  end.

(** ** Lemmas *)

Lemma dict_get_None d k : dict_get d k = None ↔ k ∉ d.*1.
Proof.
  induction d as [|[k' v] d IH]; cbn; [set_solver|]. destruct (decide (k' = k)) as [->|]; [|rewrite IH]; set_solver.
Qed.
Lemma dict_get_in d k v : dict_get d k = Some v → (k, v) ∈ d.
Proof.
  induction d as [|[k' v'] d IH]; cbn; [done|]. destruct (decide (k' = k)) as [->|]; [intros [= ->]; left|intros ?; right; auto].
Qed.
Lemma in_dict_get d k v : NoDup d.*1 → (k, v) ∈ d → dict_get d k = Some v.
Proof.
  induction d as [|[k' v'] d IH]; cbn; [set_solver|]. intros [Hk Hd]%NoDup_cons [[= <- <-]|Hin]%elem_of_cons; [by rewrite decide_True|].
  rewrite decide_False; [by apply IH|]. intros ->. apply Hk, list_elem_of_fmap. by exists (k, v).
Qed.
Lemma dict_pop_absent d k : k ∉ d.*1 → dict_pop d k = d.
Proof. induction d as [|[k' v] d IH]; cbn; [done|]. intros Hk. rewrite decide_False by set_solver. f_equal. apply IH. set_solver. Qed.
Lemma dict_pop_app d1 d2 k : k ∉ d1.*1 → dict_pop (d1 ++ d2) k = d1 ++ dict_pop d2 k.
Proof. induction d1 as [|[k' v] d IH]; cbn; [done|]. intros Hk. rewrite decide_False by set_solver. f_equal. apply IH. set_solver. Qed.
Lemma dict_pop_incl d k e : e ∈ dict_pop d k → e ∈ d.
Proof. induction d as [|[k' v] d IH]; cbn; [done|]. destruct (decide _); set_solver. Qed.
Lemma dict_pop_other d k e : e ∈ d → e.1 ≠ k → e ∈ dict_pop d k.
Proof. induction d as [|[k' v] d IH]; cbn; [done|]. destruct (decide (k' = k)) as [->|]; set_solver. Qed.
Lemma dict_pop_sublist d k : sublist (dict_pop d k) d.
Proof. induction d as [|[k' v] d IH]; cbn; [done|]. destruct (decide _); by constructor. Qed.
Lemma dict_pop_keys d k : NoDup d.*1 → NoDup (dict_pop d k).*1 ∧ k ∉ (dict_pop d k).*1.
Proof.
  intros Hd. split; [eapply sublist_NoDup; [exact Hd|apply fmap_sublist, dict_pop_sublist]|]. revert Hd.
  induction d as [|[k' v] d IH]; cbn; [set_solver|]. intros [Hk Hd]%NoDup_cons. destruct (decide (k' = k)) as [->|]; [done|].
  rewrite fmap_cons, elem_of_cons. intros [->|?]; [done|by apply IH].
Qed.
Lemma length_dict_pop d k : length (dict_pop d k) = (length d - if decide (k ∈ d.*1) then 1 else 0)%nat.
Proof.
  induction d as [|[k' v] d IH]; cbn; [done|]. destruct (decide (k' = k)) as [->|Hne].
  - rewrite decide_True by (by left). lia.
  - cbn. rewrite IH. destruct (decide (k ∈ d.*1)) as [Hin|Hin].
    + rewrite decide_True by (by right). destruct d; cbn; [by apply elem_of_nil in Hin|lia].
    + rewrite decide_False; [lia|]. set_solver.
Qed.

Lemma dict_trim_drop bound d : dict_trim bound d = drop (length d - bound) d.
Proof.
  induction d as [|e d IH]; cbn [dict_trim]; [by rewrite drop_nil|]. destruct (decide _) as [Hlt|Hle].
  - rewrite IH. cbn [length] in *. replace (S (length d) - bound)%nat with (S (length d - bound)) by lia. done.
  - replace (length (e :: d) - bound)%nat with 0%nat by lia. done.
Qed.
Lemma length_trim bound d : (length (dict_trim bound d) ≤ bound)%nat.
Proof. rewrite dict_trim_drop, length_drop. lia. Qed.
Lemma dict_trim_incl bound d e : e ∈ dict_trim bound d → e ∈ d.
Proof. rewrite dict_trim_drop. apply subseteq_drop. Qed.
Lemma dict_trim_suffix bound d : ∃ old, d = old ++ dict_trim bound d.
Proof. exists (take (length d - bound) d). by rewrite dict_trim_drop, take_drop. Qed.
(** An entry with fewer than [bound] newer ones is kept. *)
Lemma dict_trim_keeps bound d1 d2 : (length d2 ≤ bound)%nat → ∃ d1', dict_trim bound (d1 ++ d2) = d1' ++ d2 ∧ sublist d1' d1.
Proof.
  intros Hlen. rewrite dict_trim_drop, length_app. exists (drop (length d1 + length d2 - bound) d1).
  split; [|apply sublist_drop]. rewrite drop_app. by replace (_ - length d1)%nat with 0%nat by lia.
Qed.
Lemma dict_trim_keys bound d : NoDup d.*1 → NoDup (dict_trim bound d).*1.
Proof. intros Hd. rewrite dict_trim_drop, fmap_drop. eapply sublist_NoDup; [exact Hd|apply sublist_drop]. Qed.
End ordered_dict.

Section more.
Context {K V : Type} `{EqDecision K}.
Implicit Types (d : list (K * V)).
Lemma dict_pop_around d1 d2 e k : e.1 ≠ k →
  ∃ d1' d2', dict_pop (d1 ++ e :: d2) k = d1' ++ e :: d2' ∧ sublist d2' d2.
Proof.
  intros He. destruct (decide (k ∈ d1.*1)) as [Hin|Hin].
  - exists (dict_pop d1 k), d2. split; [|done]. induction d1 as [|[k' v] d1 IH]; cbn; [by apply elem_of_nil in Hin|].
    destruct (decide (k' = k)) as [->|]; [done|]. cbn. f_equal. apply IH. set_solver.
  - exists d1, (dict_pop d2 k). rewrite dict_pop_app by done. destruct e as [k' v]. cbn in *. rewrite decide_False by done.
    split; [done|apply dict_pop_sublist].
Qed.
Lemma dict_set_absent d k (v : V) : k ∉ d.*1 → dict_set d k v = d ++ [(k, v)].
Proof. induction d as [|[k' v'] d IH]; cbn; [done|]. intros Hk. rewrite decide_False by set_solver. f_equal. apply IH. set_solver. Qed.
Lemma move_last_to_end d k (v : V) : k ∉ d.*1 → move_to_end (d ++ [(k, v)]) k = d ++ [(k, v)].
Proof.
  intros Hk. unfold move_to_end. rewrite dict_pop_app by done. cbn. rewrite decide_True, app_nil_r by done.
  assert (dict_get (d ++ [(k, v)]) k = Some v) as ->; [|done].
  induction d as [|[k' v'] d IH]; cbn; [by rewrite decide_True|]. rewrite decide_False by set_solver. apply IH. set_solver.
Qed.
End more.
