(* ===== verification/Limits.v ===== *)
(** Admission of requests: ops/limits.py, and the [response_policy] middleware of
    api/main.py around every endpoint. *)
From S2P Require Import Prelude Types PyStr Endpoints OrderedDict.
From stdpp Require Import strings.
Local Open Scope Z_scope.

(** ** [FixedWindowRateLimiter] *)

Module FixedWindowRateLimiter.
Record t := mk { limit : Z; max_peers : Z; windows : list (string * (Z * Z)) }.
#[global] Instance eta : Eta t := λ r, mk (limit r) (max_peers r) (windows r).

(** [__init__]; [None] is [ValueError]. *)
Definition init (requests_per_minute max_peers : Z) : option t :=
  if (requests_per_minute <? 1) || (max_peers <? 1) then None else Some (mk requests_per_minute max_peers []).

(** [int(self._now() // 60)] *)
Definition minute_of (now : instant) : Z := now / seconds 60.

(** [allow] *)
Definition allow (self : t) (now : instant) (peer : string) : bool * t :=
  let minute := minute_of now in
  let '(previous_minute, count) := default (minute, 0) (dict_get (windows self) peer) in
  let count := if negb (previous_minute =? minute) then 0 else count in
  let allowed := count <? limit self in
  (allowed, self <| windows := dict_trim (Z.to_nat (max_peers self))
     (dict_pop (windows self) peer ++ [(peer, (minute, if allowed then count + 1 else count))]) |>).
End FixedWindowRateLimiter.

(** A sequence of calls: the answers and the limiter they leave. *)
Fixpoint calls (self : FixedWindowRateLimiter.t) (trace : list (instant * string)) : list bool * FixedWindowRateLimiter.t :=
  match trace with
  | [] => ([], self)
  | (now, peer) :: trace =>
      let '(allowed, self) := FixedWindowRateLimiter.allow self now peer in
      let '(answers, self) := calls self trace in (allowed :: answers, self)
  end.

(** ** [response_policy] *)

Module ApiSettings.
Record t := mk {
  trusted_proxies : list string; cors_allowed_origins : list string;
  api_rate_limit_per_minute : Z; api_max_concurrency : Z }.
End ApiSettings.

Module Request.
Record t := mk {
  method : string; path : string; client_host : option string;
  correlation_header : option string; real_ip_header : option string; origin_header : option string;
  requests_method : bool }.  (* ["Access-Control-Request-Method" in request.headers] *)
End Request.

Module Response.
Record t := mk {
  status_code : Z; error : option error_code;
  x_correlation_id : option uuid; no_store : bool; retry_after : bool; allow_origin : option string }.
#[global] Instance eta : Eta t := λ r,
  mk (status_code r) (error r) (x_correlation_id r) (no_store r) (retry_after r) (allow_origin r).
End Response.

Section response_policy.
(** [UUID(s)] and [str(ip_address(s))]; [None] is [ValueError]. *)
Context (parse_uuid : string → option uuid) (normalize_address : string → option string).
Context (settings : ApiSettings.t).
Implicit Types (request : Request.t) (response : Response.t).

Definition starts_with (prefix s : string) : bool := String.prefix prefix s.
Definition versioned request : bool := starts_with "/v1/" (Request.path request).

(** The correlation of a request: what the caller supplied if it is a UUID, a fresh one otherwise. *)
Definition correlation_of request (fresh : uuid) : uuid :=
  match Request.correlation_header request with
  | Some supplied => default fresh (parse_uuid supplied)
  | None => fresh
  end.

(** The peer that is limited. *)
Definition peer_of request : string :=
  let peer := default "unknown"%string (Request.client_host request) in
  if bool_decide (peer ∈ ApiSettings.trusted_proxies settings) then
    match Request.real_ip_header request with
    | Some forwarded =>
        match normalize_address forwarded with Some address => address | None => ("invalid-forwarded:" +:+ peer)%string end
    | None => peer
    end
  else peer.

Definition allowed_origin request : bool :=
  match Request.origin_header request with
  | Some origin => bool_decide (origin ∈ ApiSettings.cors_allowed_origins settings)
  | None => false
  end.
Definition is_allowed_preflight request : bool :=
  eqv (Request.method request) "OPTIONS"%string && allowed_origin request && Request.requests_method request.

(** [error_response] *)
Definition error_answer (code : error_code) (status : Z) : Response.t := Response.mk status (Some code) None true false None.

(** The headers that every response leaves with. *)
Definition finish request (correlation_id : uuid) response : Response.t :=
  let response :=
    if allowed_origin request && is_none (Response.allow_origin response)
    then response <| Response.allow_origin := Request.origin_header request |> else response in
  let response := response <| Response.x_correlation_id := Some correlation_id |> in
  if versioned request then response <| Response.no_store := true |> else response.

(** The middlewares of all requests share the limiter, the semaphore and the gauge.
    A request is kept with the correlation that was settled when it arrived. *)
Record server := mk_server {
  limiter : FixedWindowRateLimiter.t;
  free_slots : Z;                          (* of [request_slots] *)
  in_flight : Z;
  waiting : gmap nat (Request.t * uuid);   (* in [wait_for(request_slots.acquire())] *)
  running : gmap nat (Request.t * uuid);   (* in [call_next], with a slot *)
  unlimited : gmap nat (Request.t * uuid); (* in [call_next], without one *)
  answered : gmap nat (Request.t * Response.t) }.
#[global] Instance server_eta : Eta server := λ s,
  mk_server (limiter s) (free_slots s) (in_flight s) (waiting s) (running s) (unlimited s) (answered s).

(** What the application below the middleware does: a response, an exception that no
    handler takes, or the cancellation of the task. *)
Inductive outcome := Responds (response : Response.t) | Raises | Cancelled.

Inductive event :=
| Arrives (id : nat) request (now : instant) (fresh : uuid)  (* up to the first [await] *)
| Acquires (id : nat)                (* a slot, while there is one *)
| Waits_too_long (id : nat)          (* [TimeoutError] *)
| Gives_up (id : nat)                (* cancelled while it waits *)
| Ends (id : nat) (o : outcome).

Definition answer (s : server) (id : nat) request (correlation_id : uuid) response : server :=
  s <| answered := <[id := (request, finish request correlation_id response)]> (answered s) |>.
Definition conclude (s : server) (id : nat) (r : Request.t * uuid) (o : outcome) : server :=
  match o with
  | Responds response => answer s id r.1 r.2 response
  | Raises => answer s id r.1 r.2 (error_answer internal_error 500)
  | Cancelled => s
  end.

(** The [finally] of the middleware. *)
Definition release (s : server) : server :=
  s <| in_flight := in_flight s - 1 |> <| free_slots := free_slots s + 1 |>.

Definition arrive (s : server) (id : nat) request (now : instant) (correlation_id : uuid) : server :=
  if is_allowed_preflight request || negb (versioned request)
  then s <| unlimited := <[id := (request, correlation_id)]> (unlimited s) |>
  else
    let '(allowed, l) := FixedWindowRateLimiter.allow (limiter s) now (peer_of request) in
    let s := s <| limiter := l |> in
    if allowed then s <| waiting := <[id := (request, correlation_id)]> (waiting s) |>
    else answer s id request correlation_id (error_answer rate_limited 429 <| Response.retry_after := true |>).

(** [None]: the event cannot happen. *)
Definition step (s : server) (e : event) : option server :=
  match e with
  | Arrives id request now fresh =>
      if bool_decide (id ∈ dom (waiting s) ∪ dom (running s) ∪ dom (unlimited s) ∪ dom (answered s)) then None
      else Some (arrive s id request now (correlation_of request fresh))
  | Acquires id =>
      r ← waiting s !! id;
      if free_slots s <=? 0 then None
      else Some (s <| free_slots := free_slots s - 1 |> <| in_flight := in_flight s + 1 |>
                   <| waiting := delete id (waiting s) |> <| running := <[id := r]> (running s) |>)
  | Waits_too_long id =>
      r ← waiting s !! id;
      Some (answer (s <| waiting := delete id (waiting s) |>) id r.1 r.2 (error_answer capacity_exceeded 503))
  | Gives_up id =>
      r ← waiting s !! id; Some (s <| waiting := delete id (waiting s) |>)
  | Ends id o =>
      match running s !! id with
      | Some r => Some (conclude (release (s <| running := delete id (running s) |>)) id r o)
      | None => r ← unlimited s !! id; Some (conclude (s <| unlimited := delete id (unlimited s) |>) id r o)
      end
  end.

Definition start : option server :=
  l ← FixedWindowRateLimiter.init (ApiSettings.api_rate_limit_per_minute settings) 4096;
  Some (mk_server l (ApiSettings.api_max_concurrency settings) 0 ∅ ∅ ∅ ∅).

Definition steps : server → list event → option server := foldl (λ s e, s ← s; step s e) ∘ Some.
End response_policy.

(** ** The limiter *)

Section limiter.
Import FixedWindowRateLimiter.
Implicit Types (self : t) (trace : list (instant * string)).

(** The calls for a peer in a minute. *)
Definition asked (peer : string) (minute : Z) trace : nat :=
  length (filter (λ c, c.2 = peer ∧ minute_of c.1 = minute) trace).
Definition after self trace : t := (calls self trace).2.

Lemma after_snoc self trace c : after self (trace ++ [c]) = (allow (after self trace) c.1 c.2).2.
Proof.
  unfold after. revert self. induction trace as [|[now peer] trace IH]; intros self; cbn.
  - destruct c as [now peer]. cbn. by destruct (allow self now peer) as [a l].
  - destruct (allow self now peer) as [a l]. specialize (IH l). destruct (calls l (trace ++ [c])), (calls l trace). exact IH.
Qed.
Lemma asked_snoc peer minute trace c :
  asked peer minute (trace ++ [c]) = (asked peer minute trace + if decide (c.2 = peer ∧ minute_of c.1 = minute) then 1 else 0)%nat.
Proof. unfold asked. rewrite filter_app, length_app, filter_cons, filter_nil. by destruct (decide _). Qed.

Record sound self trace : Prop := {
  snd_limit : 1 <= limit self;
  snd_bound : 1 <= max_peers self;
  snd_keys : NoDup (windows self).*1;
  snd_size : len (windows self) <= max_peers self;
  snd_counts : ∀ p m c, (p, (m, c)) ∈ windows self → 0 <= c <= limit self ∧ c <= Z.of_nat (asked p m trace) ∧ (0 < asked p m trace)%nat }.

Lemma allow_windows self now peer :
  let m := minute_of now in
  let count := match dict_get (windows self) peer with Some (m', c) => if m' =? m then c else 0 | None => 0 end in
  allow self now peer = (count <? limit self, self <| windows := dict_trim (Z.to_nat (max_peers self))
    (dict_pop (windows self) peer ++ [(peer, (m, if count <? limit self then count + 1 else count))]) |>).
Proof.
  cbv zeta. unfold allow. destruct (dict_get _ _) as [[m' c]|]; cbn; [by destruct (m' =? _)|by destruct (_ =? _)].
Qed.

Lemma sound_init limit max_peers self : init limit max_peers = Some self → sound self [].
Proof.
  unfold init. destruct (_ || _) eqn:E; [done|]. intros [= <-]. breflect. split; cbn; try lia; [by apply NoDup_nil|unfold len; cbn; lia|set_solver].
Qed.

Lemma sound_allow self trace c : sound self trace → sound (allow self c.1 c.2).2 (trace ++ [c]).
Proof.
  intros [L B K S C]. rewrite allow_windows. cbv zeta. set (count := match dict_get _ _ with Some _ => _ | None => _ end). cbn.
  assert (0 <= count <= limit self ∧ count <= Z.of_nat (asked c.2 (minute_of c.1) trace)) as [Hc1 Hc2].
  { unfold count. destruct (dict_get _ _) as [[m' n]|] eqn:E; [|lia]. destruct (Z.eqb_spec m' (minute_of c.1)) as [->|]; [|lia].
    apply dict_get_in, C in E. lia. }
  destruct (dict_pop_keys (windows self) c.2 K) as [Hk Hn]. split; cbn; [done..| | |].
  - apply dict_trim_keys. rewrite fmap_app. apply NoDup_app. split; [done|]. split; [|apply NoDup_singleton]. set_solver.
  - unfold len. pose proof (length_trim (Z.to_nat (max_peers self)) (dict_pop (windows self) c.2 ++
      [(c.2, (minute_of c.1, if count <? limit self then count + 1 else count))])). lia.
  - intros p m n [Hin|Hin]%dict_trim_incl%elem_of_app.
    + apply dict_pop_incl, C in Hin. rewrite asked_snoc. destruct (decide _); lia.
    + apply list_elem_of_singleton in Hin as [= -> -> ->]. rewrite asked_snoc, decide_True by done.
      destruct (Z.ltb_spec count (limit self)); lia.
Qed.

Lemma sound_after limit max_peers self trace : init limit max_peers = Some self → sound (after self trace) trace.
Proof.
  intros Hi. induction trace as [|c trace IH] using rev_ind; [by apply (sound_init limit max_peers)|].
  rewrite after_snoc. by apply sound_allow.
Qed.

Lemma same_bounds self trace : limit (after self trace) = limit self ∧ max_peers (after self trace) = max_peers self.
Proof.
  induction trace as [|c trace IH] using rev_ind; [done|]. by rewrite after_snoc, allow_windows.
Qed.

(** What the limiter knows of a peer since its first call in a minute. *)
Definition knows self (peer : string) (minute : Z) (during : list (instant * string)) : Prop :=
  if decide (asked peer minute during = 0%nat) then ∀ c, (peer, (minute, c)) ∉ windows self
  else ∃ d1 d2, windows self = d1 ++ (peer, (minute, Z.min (limit self) (Z.of_nat (asked peer minute during)))) :: d2
         ∧ d2.*1 ⊆ during.*2.

Lemma knows_count self trace peer (minute : Z) during : sound self trace → knows self peer minute during →
  match dict_get (windows self) peer with Some (m', c) => if m' =? minute then c else 0 | None => 0 end
  = Z.min (limit self) (Z.of_nat (asked peer minute during)).
Proof.
  intros [L B K S C] Hk. unfold knows in Hk. destruct (decide _) as [->|].
  - destruct (dict_get _ _) as [[m' c]|] eqn:E; [|lia]. destruct (Z.eqb_spec m' minute) as [->|]; [|lia].
    by apply dict_get_in, Hk in E.
  - destruct Hk as (d1 & d2 & Hw & _). rewrite (in_dict_get _ _ (minute, Z.min (limit self) (Z.of_nat (asked peer minute during)))).
    + by rewrite Z.eqb_refl.
    + done.
    + rewrite Hw. set_solver.
Qed.

Lemma length_distinct {X} `{EqDecision X} (l m : list X) : NoDup l → l ⊆ m → (length l ≤ length (remove_dups m))%nat.
Proof. intros Hl Hm. apply submseteq_length, NoDup_submseteq; [done|]. intros x Hx. by apply elem_of_remove_dups, Hm. Qed.

Lemma knows_start self trace peer minute : sound self trace → asked peer minute trace = 0%nat → knows self peer minute [].
Proof. intros Hs Ha. unfold knows. cbn. intros c Hin. apply (snd_counts _ _ Hs) in Hin. lia. Qed.

Lemma knows_other self trace peer minute during c : sound self trace → c.2 ≠ peer →
  (length (remove_dups (during ++ [c]).*2) ≤ Z.to_nat (max_peers self))%nat → (0 < asked peer minute during → peer ∈ during.*2)%nat →
  knows self peer minute during → knows (allow self c.1 c.2).2 peer minute (during ++ [c]).
Proof.
  intros Hs Hne Hlen Hin Hk. pose proof (sound_allow _ _ c Hs) as Hs'. unfold knows in *. rewrite asked_snoc, (decide_False (P := _ ∧ _)), Nat.add_0_r by tauto.
  rewrite allow_windows in *. cbv zeta in *. set (count := match dict_get _ _ with Some _ => _ | None => _ end) in *.
  cbn in *. destruct (decide _) as [_|Hpos].
  - intros n [Hn%dict_pop_incl|Hn%list_elem_of_singleton]%dict_trim_incl%elem_of_app; [by eapply Hk|]. congruence.
  - destruct Hk as (d1 & d2 & Hw & Hd). set (e := Z.min (limit self) (Z.of_nat (asked peer minute during))) in *.
    destruct (dict_pop_around d1 d2 (peer, (minute, e)) c.2) as (d1' & d2' & Hp & Hsub); [by cbn|].
    destruct (dict_pop_keys (windows self) c.2 (snd_keys _ _ Hs)) as [Hk Hn]. rewrite Hw, Hp in *. clear Hs'.
    set (x := (c.2, (minute_of c.1, if count <? limit self then count + 1 else count))).
    assert (d2'.*1 ⊆ during.*2) as Hd'.
    { etrans; [|exact Hd]. intros y Hy. eapply sublist_subseteq; [|exact Hy]. by apply fmap_sublist. }
    rewrite <- app_assoc. cbn [app]. destruct (dict_trim_keeps (Z.to_nat (max_peers self)) d1' ((peer, (minute, e)) :: d2' ++ [x])) as (d1'' & -> & _).
    + etrans; [|exact Hlen]. rewrite <- (length_fmap fst). apply length_distinct.
      * rewrite fmap_app in Hk, Hn. apply NoDup_app in Hk as (_ & _ & Hk). rewrite fmap_cons, fmap_app. cbn in *.
        rewrite NoDup_cons in *. destruct Hk as [Hpk Hk]. split; [set_solver|]. apply NoDup_app. split; [done|].
        split; [|apply NoDup_singleton]. set_solver.
      * rewrite fmap_cons, !fmap_app. cbn. specialize (Hin ltac:(lia)). set_solver.
    + exists d1'', (d2' ++ [x]). split; [done|]. rewrite !fmap_app. cbn. set_solver.
Qed.

Lemma knows_own self trace peer minute during c : sound self trace → c.2 = peer → minute_of c.1 = minute →
  knows self peer minute during → knows (allow self c.1 c.2).2 peer minute (during ++ [c]).
Proof.
  intros Hs Hp Hm Hk. pose proof (knows_count _ _ _ _ _ Hs Hk) as Hc. unfold knows in *. rewrite asked_snoc, (decide_True (P := _ ∧ _)) by done.
  rewrite decide_False by lia. rewrite allow_windows. subst. rewrite Hc. cbn.
  destruct (dict_trim_keeps (Z.to_nat (max_peers self)) (dict_pop (windows self) c.2)
    [(c.2, (minute_of c.1, if Z.min (limit self) (Z.of_nat (asked c.2 (minute_of c.1) during)) <? limit self
       then Z.min (limit self) (Z.of_nat (asked c.2 (minute_of c.1) during)) + 1 else Z.min (limit self) (Z.of_nat (asked c.2 (minute_of c.1) during))))])
    as (d1 & -> & _); [pose proof (snd_bound _ _ Hs); cbn; lia|].
  exists d1, []. split; [|set_solver]. do 4 f_equal. destruct (Z.ltb_spec (Z.min (limit self) (Z.of_nat (asked c.2 (minute_of c.1) during))) (limit self)); lia.
Qed.

Lemma asked_in peer minute during : (0 < asked peer minute during)%nat → peer ∈ during.*2.
Proof.
  unfold asked. destruct (filter _ _) as [|c l] eqn:E; cbn; [lia|]. intros _.
  assert (c ∈ filter (λ c, c.2 = peer ∧ minute_of c.1 = minute) during) as [[<- _] Hin]%list_elem_of_filter by (rewrite E; left).
  by apply list_elem_of_fmap_2.
Qed.

Lemma knows_during self before during peer minute : sound self before → asked peer minute before = 0%nat →
  (∀ c, c ∈ during → c.2 = peer → minute_of c.1 = minute) → (length (remove_dups during.*2) ≤ Z.to_nat (max_peers self))%nat →
  knows (after self during) peer minute during ∧ sound (after self during) (before ++ during).
Proof.
  intros Hs Hb. induction during as [|c during IH] using rev_ind; intros Hm Hl.
  - rewrite app_nil_r. split; [by eapply knows_start|done].
  - destruct IH as [Hk Hd].
    + intros c' Hc. apply Hm. set_solver.
    + etrans; [|exact Hl]. apply length_distinct; [apply NoDup_remove_dups|]. intros x. rewrite elem_of_remove_dups, fmap_app. set_solver.
    + rewrite after_snoc, app_assoc. split; [|by apply sound_allow]. destruct (decide (c.2 = peer)) as [Hc|Hc].
      * eapply knows_own; [done..| |done]. apply Hm; [set_solver|done].
      * eapply knows_other; [done..| |apply asked_in|done]. by destruct (same_bounds self during) as [_ ->].
Qed.

(** C30. The limiter refuses a peer exactly when it used up its minute.  After any sequence of
    calls, a refusal means that the peer made at least [limit] calls in the current minute;
    and if no more than [max_peers] distinct peers called since the first call of the peer in
    this minute, a call is allowed exactly when the peer made fewer than [limit] before.  The
    table never holds more than [max_peers] peers, however many call. *)
Theorem limiter_exact limit max_peers l before during now peer :
  init limit max_peers = Some l →
  let self := after (after l before) during in let minute := minute_of now in
  len (windows self) <= max_peers
  ∧ ((allow self now peer).1 = false → limit <= Z.of_nat (asked peer minute (before ++ during)))
  ∧ (asked peer minute before = 0%nat → (∀ c, c ∈ during → c.2 = peer → minute_of c.1 = minute) →
     len (remove_dups during.*2) <= max_peers →
     (allow self now peer).1 = (Z.of_nat (asked peer minute during) <? limit)).
Proof.
  intros Hi self minute. assert (FixedWindowRateLimiter.limit l = limit ∧ FixedWindowRateLimiter.max_peers l = max_peers) as [Hlim Hmax].
  { unfold init in Hi. destruct (_ || _); [done|]. by injection Hi as <-. }
  destruct (same_bounds l before) as [L1 M1], (same_bounds (after l before) during) as [L2 M2].
  assert (sound self (before ++ during)) as Hs.
  { assert (self = after l (before ++ during)) as ->; [|by eapply sound_after].
    unfold self. clear. revert before. induction during as [|c during IH] using rev_ind; intros before; [by rewrite app_nil_r|].
    by rewrite app_assoc, !after_snoc, IH. }
  split; [rewrite <- Hmax, <- M1, <- M2; apply (snd_size _ _ Hs)|]. split.
  - rewrite allow_windows. cbn. destruct (dict_get _ _) as [[m' c]|] eqn:E; [|rewrite Z.ltb_ge; pose proof (snd_limit _ _ Hs); lia].
    apply dict_get_in, (snd_counts _ _ Hs) in E. fold minute. fold self in L2. destruct (Z.eqb_spec m' minute) as [->|]; rewrite Z.ltb_ge; [lia|].
    pose proof (snd_limit _ _ Hs). lia.
  - intros Hb Hd Hl. destruct (knows_during (after l before) before during peer minute) as [Hk _]; [by eapply sound_after|done..|rewrite M1, Hmax; unfold len in Hl; lia|].
    pose proof (knows_count _ _ _ _ _ Hs Hk) as Hc. rewrite allow_windows. fold minute. rewrite Hc. cbn. fold self in L2. rewrite L2, L1, Hlim.
    destruct (Z.ltb_spec (Z.of_nat (asked peer minute during)) limit), (Z.ltb_spec (Z.min limit (Z.of_nat (asked peer minute during))) limit); [done|lia|lia|done].
Qed.
End limiter.

(** ** The middleware *)

Section middleware.
Context (parse_uuid : string → option uuid) (normalize_address : string → option string) (settings : ApiSettings.t).

(** A request that waits or is served, with the correlation it was given when it arrived. *)
Definition arrived (events : list event) (id : nat) (r : Request.t * uuid) : Prop :=
  ∃ now fresh, Arrives id r.1 now fresh ∈ events ∧ r.2 = correlation_of parse_uuid r.1 fresh.

(** The requests that need no slot: those outside of [/v1/], and the preflights of an
    allowed origin. *)
Definition exempt (request : Request.t) : Prop := is_allowed_preflight settings request = true ∨ versioned request = false.

(** Where an answer comes from: a refusal of the policy, or the application. *)
Definition answers_for (events : list event) (id : nat) (request : Request.t) (response : Response.t) : Prop :=
  (¬ exempt request ∧ Response.status_code response = 429 ∧ Response.error response = Some rate_limited ∧ Response.retry_after response = true)
  ∨ (Waits_too_long id ∈ events ∧ ¬ exempt request ∧ Response.status_code response = 503 ∧ Response.error response = Some capacity_exceeded)
  ∨ (Ends id Raises ∈ events ∧ Response.status_code response = 500 ∧ Response.error response = Some internal_error)
  ∨ (∃ r, Ends id (Responds r) ∈ events ∧ Response.status_code response = Response.status_code r
       ∧ Response.error response = Response.error r ∧ Response.retry_after response = Response.retry_after r).

(** An answer carries the headers of the policy. *)
Definition policed (events : list event) (id : nat) (r : Request.t * Response.t) : Prop :=
  (∃ c, arrived events id (r.1, c) ∧ Response.x_correlation_id r.2 = Some c)
  ∧ (versioned r.1 = true → Response.no_store r.2 = true)
  ∧ (allowed_origin settings r.1 = true → is_Some (Response.allow_origin r.2))
  ∧ answers_for events id r.1 r.2.

Record server_ok (events : list event) (s : server) : Prop := {
  so_gauge : in_flight s = Z.of_nat (size (running s));
  so_slots : free_slots s + in_flight s = ApiSettings.api_max_concurrency settings;
  so_free : 0 <= free_slots s;
  so_running : map_Forall (λ id r, ¬ exempt r.1 ∧ arrived events id r) (running s);
  so_waiting : map_Forall (λ id r, ¬ exempt r.1 ∧ arrived events id r) (waiting s);
  so_unlimited : map_Forall (λ id r, exempt r.1 ∧ arrived events id r) (unlimited s);
  so_disjoint : dom (waiting s) ## dom (running s) ∧ dom (waiting s ) ## dom (unlimited s) ∧ dom (running s) ## dom (unlimited s);
  so_answered : map_Forall (policed events) (answered s) }.

Lemma arrived_later events events' id r : events ⊆ events' → arrived events id r → arrived events' id r.
Proof. intros He (now & fresh & Hin & Hc). exists now, fresh. auto. Qed.

Lemma policed_later events events' id r : events ⊆ events' → policed events id r → policed events' id r.
Proof.
  intros He ((c & Hc & Hx) & Hn & Ho & Ha). split_and!; [exists c; split; [by eapply arrived_later|done]|done|done|].
  unfold answers_for in *. destruct Ha as [?|[(? & ?)|[(? & ?)|(r' & ? & ?)]]]; [by left|right; left; auto|right; right; left; auto|].
  right. right. right. exists r'. auto.
Qed.

Lemma server_later events events' s : events ⊆ events' → server_ok events s → server_ok events' s.
Proof.
  intros He [G S F R W U D An]. split; try done; eapply map_Forall_impl; try eassumption.
  1-3: intros id r [? ?]; split; [done|by eapply arrived_later]. intros id r. by apply policed_later.
Qed.

Lemma answer_ok events s id request c response :
  server_ok events s → arrived events id (request, c) → answers_for events id request response →
  server_ok events (answer settings s id request c response).
Proof.
  intros [] Hc Ha. split; cbn; try done. apply map_Forall_insert_2; [|done]. unfold finish.
  set (r1 := if allowed_origin settings request && _ then _ else response).
  assert (answers_for events id request r1 ∧ (allowed_origin settings request = true → is_Some (Response.allow_origin r1))) as [Ha1 Ho].
  { unfold r1. destruct (allowed_origin settings request) eqn:Hao; cbn; [|by split].
    destruct (Response.allow_origin response) eqn:Hr; cbn; [split; [done|by rewrite Hr]|]. split; [exact Ha|]. intros _.
    unfold allowed_origin in Hao. destruct (Request.origin_header request); [by eexists|done]. }
  clearbody r1. split_and!; cbn; destruct (versioned request); try done; by exists c.
Qed.

Lemma conclude_ok events s id r o :
  server_ok events s → arrived events id r → Ends id o ∈ events → server_ok events (conclude settings s id r o).
Proof.
  intros Hs Hr He. destruct r as [request c]. destruct o as [response| |]; cbn; [| |done]; apply answer_ok; try done.
  - right. right. right. by exists response.
  - right. right. by left.
Qed.

Lemma step_ok events s e s' :
  server_ok events s → step parse_uuid normalize_address settings s e = Some s' → server_ok (events ++ [e]) s'.
Proof.
  intros Hs. apply (server_later _ (events ++ [e])) in Hs; [|set_solver].
  assert (e ∈ events ++ [e]) as He by set_solver. revert Hs He. generalize (events ++ [e]). clear events. intros events Hs He.
  assert (Hs0 := Hs). destruct Hs0 as [G S F R W U (D1 & D2 & D3) An]. destruct e as [id request now fresh|id|id|id|id o]; cbn.
  - destruct (bool_decide _) eqn:Hid; [done|]. apply bool_decide_eq_false in Hid. intros [= <-]. unfold arrive.
    assert (arrived events id (request, correlation_of parse_uuid request fresh)) as Hc by (by exists now, fresh).
    destruct (_ || _) eqn:Hb.
    + split; cbn; try done.
      * apply map_Forall_insert_2; [|done]. split; [|done]. cbn. apply orb_true_iff in Hb as [|]; [by left|right]. by apply negb_true_iff.
      * rewrite dom_insert_L. set_solver.
    + assert (¬ exempt request) as Hx.
      { apply orb_false_iff in Hb as [Hb Hv%negb_false_iff]. intros [?|?]; congruence. }
      destruct (FixedWindowRateLimiter.allow _ _ _) as [allowed l]. destruct allowed.
      * split; cbn; try done; [by apply map_Forall_insert_2|]. rewrite dom_insert_L. set_solver.
      * apply answer_ok; [by split|done|]. by left.
  - destruct (waiting s !! id) as [r|] eqn:Hr; cbn; [|done]. destruct (Z.leb_spec (free_slots s) 0); [done|]. intros [= <-].
    assert (id ∈ dom (waiting s)) as Hin by by eapply elem_of_dom_2.
    assert (running s !! id = None) as Hno by (apply not_elem_of_dom; set_solver).
    split; cbn; try lia; try done.
    + rewrite map_size_insert_None by done. lia.
    + apply map_Forall_insert_2; [by apply (W id)|done].
    + by apply map_Forall_delete.
    + rewrite dom_insert_L, dom_delete_L. set_solver.
  - destruct (waiting s !! id) as [r|] eqn:Hr; cbn; [|done]. intros [= <-]. destruct (W id r Hr) as [Hx Hc].
    destruct r as [request c]. apply answer_ok; [|done|right; left; done]. split; cbn; try done; [by apply map_Forall_delete|].
    rewrite dom_delete_L. set_solver.
  - destruct (waiting s !! id) as [r|] eqn:Hr; cbn; [|done]. intros [= <-]. split; cbn; try done; [by apply map_Forall_delete|].
    rewrite dom_delete_L. set_solver.
  - destruct (running s !! id) as [r|] eqn:Hr; cbn.
    + intros [= <-]. apply conclude_ok; [|by apply (R id)|done]. split; cbn; try lia; try done.
      * rewrite map_size_delete_Some by done.
        assert (size (running s) ≠ 0%nat) by (apply map_size_ne_0_lookup; by exists id, r). lia.
      * by apply map_Forall_delete.
      * rewrite dom_delete_L. set_solver.
    + destruct (unlimited s !! id) as [r|] eqn:Hu; cbn; [|done]. intros [= <-]. apply conclude_ok; [|by apply (U id)|done].
      split; cbn; try done; [by apply map_Forall_delete|]. rewrite dom_delete_L. set_solver.
Qed.

(** C31. Whatever requests arrive, wait, time out, are cancelled, fail or end, in any order:
    the gauge counts the requests that hold a slot, and with the free slots they make up the
    configured concurrency, so that no slot is lost or released twice.  A request under
    [/v1/] that is not the preflight of an allowed origin is never served without a slot, and
    only such requests hold one.  Every answer carries the correlation of its request: the
    one the caller supplied if it is a UUID, the fresh one that was drawn when the request
    arrived otherwise; an answer under [/v1/] is not to be stored, and one to an allowed
    origin says so.  An answer is the refusal of a request that exceeds its rate, or that
    waited too long for a slot, the internal error of an application that raised, or the
    response of the application with its status. *)
Theorem slots_conserved s0 events s :
  0 <= ApiSettings.api_max_concurrency settings → start settings = Some s0 →
  steps parse_uuid normalize_address settings s0 events = Some s →
  in_flight s = Z.of_nat (size (running s))
  ∧ free_slots s + in_flight s = ApiSettings.api_max_concurrency settings ∧ 0 <= free_slots s
  ∧ (∀ id r, running s !! id = Some r → ¬ exempt r.1)
  ∧ (∀ id r, unlimited s !! id = Some r → exempt r.1)
  ∧ ∀ id request response, answered s !! id = Some (request, response) →
      (∃ now fresh, Arrives id request now fresh ∈ events
         ∧ Response.x_correlation_id response = Some (correlation_of parse_uuid request fresh))
      ∧ (versioned request = true → Response.no_store response = true)
      ∧ (allowed_origin settings request = true → is_Some (Response.allow_origin response))
      ∧ answers_for events id request response.
Proof.
  intros Hmax Hstart Hsteps. enough (server_ok events s) as [G S F R W U D An].
  { split_and!; try done; [intros id r Hr; apply (R id r Hr)|intros id r Hr; apply (U id r Hr)|].
    intros id request response Hr. destruct (An id _ Hr) as ((c & (now & fresh & Hin & Heq) & Hc) & Hrest).
    cbn in *. subst c. split; [by exists now, fresh|exact Hrest]. }
  unfold start in Hstart. destruct (FixedWindowRateLimiter.init _ _) as [l|]; [|done]. injection Hstart as <-.
  assert (server_ok [] (mk_server l (ApiSettings.api_max_concurrency settings) 0 ∅ ∅ ∅ ∅)) as Hok.
  { split; cbn; try done; try lia; by apply map_Forall_empty. }
  revert Hok Hsteps. generalize (mk_server l (ApiSettings.api_max_concurrency settings) 0 ∅ ∅ ∅ ∅). unfold steps. cbn.
  revert s. induction events as [|e events IH] using rev_ind; intros s s1 Hok; cbn; [by intros [= <-]|].
  rewrite foldl_snoc. intros Hsteps. apply bind_Some in Hsteps as (s2 & H2 & H3). eapply step_ok; [|exact H3]. by eapply IH.
Qed.
End middleware.

(** ** A concrete server *)

Module LimitsScenario.
Definition settings : ApiSettings.t := ApiSettings.mk ["10.0.0.1"%string] ["https://app.example"%string] 2 1.
Definition parse (s : string) : option uuid := if decide (s = "7"%string) then Some 7%positive else None.
Definition normalize (s : string) : option string := Some s.
Definition request : Request.t :=
  Request.mk "GET" "/v1/runs" (Some "10.0.0.1"%string) (Some "7"%string) (Some "192.0.2.7"%string) (Some "https://app.example"%string) false.
Definition events : list event :=
  [Arrives 1 request 0 1%positive; Acquires 1; Arrives 2 request 1 2%positive; Waits_too_long 2;
   Arrives 3 request 2 3%positive; Ends 1 Raises].
Definition initial : server := default (mk_server (FixedWindowRateLimiter.mk 0 0 []) 0 0 ∅ ∅ ∅ ∅) (start settings).
Definition final : server := default initial (steps parse normalize settings initial events).
End LimitsScenario.

Lemma slots_conserved_witness :
  start LimitsScenario.settings = Some LimitsScenario.initial
  ∧ steps LimitsScenario.parse LimitsScenario.normalize LimitsScenario.settings LimitsScenario.initial LimitsScenario.events
    = Some LimitsScenario.final
  ∧ free_slots LimitsScenario.final + in_flight LimitsScenario.final = 1
  ∧ (λ r, Response.error r.2) <$> answered LimitsScenario.final !! 1%nat = Some (Some internal_error)
  ∧ (λ r, Response.error r.2) <$> answered LimitsScenario.final !! 2%nat = Some (Some capacity_exceeded)
  ∧ (λ r, Response.error r.2) <$> answered LimitsScenario.final !! 3%nat = Some (Some rate_limited).
Proof.
  split_and!; [reflexivity|vm_compute; reflexivity| |vm_compute; reflexivity..].
  apply (slots_conserved LimitsScenario.parse LimitsScenario.normalize LimitsScenario.settings LimitsScenario.initial LimitsScenario.events LimitsScenario.final);
    [vm_compute; discriminate|reflexivity|vm_compute; reflexivity].
Defined.

Lemma limiter_exact_witness :
  FixedWindowRateLimiter.init 2 1 = Some (FixedWindowRateLimiter.mk 2 1 [])
  ∧ (FixedWindowRateLimiter.allow (after (after (FixedWindowRateLimiter.mk 2 1 []) [(0, "a"%string); (seconds 61, "b"%string)])
       [(seconds 62, "a"%string); (seconds 63, "a"%string)]) (seconds 64) "a").1 = (2 <? 2).
Proof.
  split; [reflexivity|].
  refine (proj2 (proj2 (limiter_exact 2 1 (FixedWindowRateLimiter.mk 2 1 []) [(0, "a"%string); (seconds 61, "b"%string)]
    [(seconds 62, "a"%string); (seconds 63, "a"%string)] (seconds 64) "a" eq_refl)) _ _ _); [reflexivity| |vm_compute; discriminate].
  intros c [->|[->|Hc%elem_of_nil]%elem_of_cons]%elem_of_cons; [intros _; reflexivity..|done].
Defined.
