(* ===== verification/Authentication.v ===== *)
(** Who calls: identity/auth.py, and the dependency of every endpoint that turns the
    headers of a request into a workspace context (api/contracts.py). *)
From S2P Require Import Prelude Types Json PyStr Store Session Identity Permits Official Screening Admission Endpoints OrderedDict Hoare Idempotency.
From Stdlib Require Import Ascii.
From stdpp Require Import strings.
Local Open Scope Z_scope.

Module AuthenticationTokenSource.
Inductive t := authorization | cloudflare_access.
#[global] Instance eq_dec : EqDecision t.
Proof. solve_decision. Defined.
End AuthenticationTokenSource.

(** [credentials] of a bearer [Authorization] header, as the framework parses them. *)
Module Credentials.
Record t := mk { scheme : string; credentials : string }.
End Credentials.

(** [_bearer_token] *)
Definition _bearer_token (authorization : option string) (credentials : option Credentials.t) : option string :=
  match authorization with
  | None => None
  | Some _ =>
      match credentials with
      | None => Some ""%string
      | Some c => if negb (eqv (lower (Credentials.scheme c)) "bearer"%string) then Some ""%string else Some (Credentials.credentials c)
      end
  end.

(** [select_authentication_token] *)
Definition select_authentication_token (source : AuthenticationTokenSource.t) (bearer_token : option string)
    (access_assertions : list string) (peer_address : option string) (trusted_proxy_addresses : list string) : option string :=
  match source with
  | AuthenticationTokenSource.authorization => bearer_token
  | AuthenticationTokenSource.cloudflare_access =>
      if is_some bearer_token
         || negb (match peer_address with Some p => bool_decide (p ∈ trusted_proxy_addresses) | None => false end)
         || negb (len access_assertions =? 1)
      then Some ""%string
      else
        match access_assertions with
        | assertion :: _ => if falsy assertion || negb (eqv assertion (strip assertion)) then Some ""%string else Some assertion
        | [] => Some ""%string
        end
  end.

(** PyJWT: the header of a token, the choice of a key by its identifier, and the
    verification of a token with RS256 or ES256, an audience, an issuer, a leeway and the
    claims that are required; [None] when it raises. *)
Class Jwt := {
  key : Type;
  get_unverified_header : string → option (list (string * Json.t));
  match_kid : list key → string → option key;
  decode_token : string → key → string → string → option (list (string * Json.t)); (* token, key, audience, issuer *)
  match_kid_among keys kid k : match_kid keys kid = Some k → k ∈ keys }.

Inductive auth_failure := AuthenticationFailed | TokenInvalid. (* [AuthenticationError]; [PyJWTError], [KeyError], [TypeError], [ValueError] *)

Definition claim (name : string) (claims : list (string * Json.t)) : option Json.t :=
  snd <$> List.find (λ c, eqv c.1 name) claims.

(** ** [PyJwkSigningKeyResolver] *)

Module PyJwkSigningKeyResolver.
Record t {K : Type} := mk {
  refresh_interval : Z; negative_ttl : Z; max_negative_kids : Z;
  signing_keys : option (list K);
  next_refresh_at : instant;
  negative_kids : list (string * instant) }.
Arguments t : clear implicits.
#[global] Instance eta {K} : Eta (t K) := λ r,
  mk K (refresh_interval r) (negative_ttl r) (max_negative_kids r) (signing_keys r) (next_refresh_at r) (negative_kids r).

(** [__init__]; [None] is [ValueError]. *)
Definition init {K} (refresh_interval negative_ttl max_negative_kids timeout : Z) : option (t K) :=
  if (refresh_interval <=? 0) || (negative_ttl <=? 0) || (timeout <=? 0) || (max_negative_kids <=? 0) then None
  else Some (mk K refresh_interval negative_ttl max_negative_kids None 0 []).
End PyJwkSigningKeyResolver.
Import PyJwkSigningKeyResolver.

Section authentication.
Context `{Jwt}.
Implicit Types (self : PyJwkSigningKeyResolver.t key) (token : string).

(** The identifier of the key that the header of a token names. *)
Definition kid_of (header : list (string * Json.t)) : result auth_failure (option string) :=
  match claim "kid" header with
  | None | Some Json.Null => Ok None
  | Some (Json.Str kid) => if falsy kid || (256 <? slen kid) then Err AuthenticationFailed else Ok (Some kid)
  | Some _ => Err AuthenticationFailed
  end.

(** The keys at [now]; [answer] is what [get_signing_keys] does if it is called, [None] that
    it raises; the third component tells whether it is. *)
Definition current_keys self (now : instant) (answer : option (list key))
    : result auth_failure (list key) * PyJwkSigningKeyResolver.t key * bool :=
  let refresh :=
    let self := self <| next_refresh_at := now + refresh_interval self |> <| signing_keys := answer |> in
    (match answer with Some keys => Ok keys | None => Err TokenInvalid end, self, true) in
  match signing_keys self with
  | None => if now <? next_refresh_at self then (Err AuthenticationFailed, self, false) else refresh
  | Some keys => if next_refresh_at self <=? now then refresh else (Ok keys, self, false)
  end.

(** The end of a lookup that found no key. *)
Definition remember_negative self (kid : string) (now : instant) : PyJwkSigningKeyResolver.t key :=
  match dict_get (negative_kids self) kid with
  | Some expiry =>
      if now <? expiry then self
      else self <| negative_kids := dict_trim (Z.to_nat (max_negative_kids self))
             (move_to_end (dict_set (dict_pop (negative_kids self) kid) kid (now + negative_ttl self)) kid) |>
  | None =>
      self <| negative_kids := dict_trim (Z.to_nat (max_negative_kids self))
             (move_to_end (dict_set (dict_pop (negative_kids self) kid) kid (now + negative_ttl self)) kid) |>
  end.

(** [resolve] *)
Definition resolve self token (now : instant) (answer : option (list key))
    : result auth_failure key * PyJwkSigningKeyResolver.t key * bool :=
  match get_unverified_header token with
  | None => (Err TokenInvalid, self, false)
  | Some header =>
      match kid_of header with
      | Err e => (Err e, self, false)
      | Ok kid =>
          let '(keys, self, contacted) := current_keys self now answer in
          match keys, kid with
          | Err e, _ => (Err e, self, contacted)
          | Ok [k], None => (Ok k, self, contacted)
          | Ok _, None => (Err AuthenticationFailed, self, contacted)
          | Ok keys, Some kid =>
              match match_kid keys kid with
              | Some k => (Ok k, self <| negative_kids := dict_pop (negative_kids self) kid |>, contacted)
              | None => (Err AuthenticationFailed, remember_negative self kid now, contacted)
              end
          end
      end
  end.

(** ** Authenticators *)

Inductive authenticator :=
| LocalAuthenticator (subject : string)
| OidcAuthenticator (issuer audience : string).

(** The claims of a verified token. *)
Definition principal_of (issuer audience : string) (claims : list (string * Json.t)) : result auth_failure Principal.t :=
  match claim "sub" claims with
  | None => Err TokenInvalid
  | Some (Json.Str subject) =>
      if falsy (strip subject) then Err AuthenticationFailed
      else
        match claim "aud" claims with
        | None => Err TokenInvalid
        | Some audiences =>
            let authorized_party := match claim "azp" claims with Some Json.Null => None | a => a end in
            let has_multiple_audiences := match audiences with Json.List l => 1 <? len l | _ => false end in
            if has_multiple_audiences && is_none authorized_party
               || match authorized_party with Some a => negb (bool_decide (a = Json.Str audience)) | None => false end
            then Err AuthenticationFailed
            else Ok (Principal.mk issuer subject (match claim "name" claims with Some (Json.Str name) => Some name | _ => None end))
        end
  | Some _ => Err AuthenticationFailed
  end.

(** [OidcAuthenticator.authenticate]; every failure leaves it as [AuthenticationError]. *)
Definition oidc_authenticate (issuer audience : string) self (token : option string) (now : instant) (answer : option (list key))
    : result api_error Principal.t * PyJwkSigningKeyResolver.t key :=
  match token with
  | None => (Err AuthenticationError, self)
  | Some token =>
      if falsy token || (16384 <? slen token) then (Err AuthenticationError, self)
      else
        let '(k, self, _) := resolve self token now answer in
        (match k with
         | Err _ => Err AuthenticationError
         | Ok k =>
             match decode_token token k audience issuer with
             | None => Err AuthenticationError
             | Some claims => match principal_of issuer audience claims with Ok p => Ok p | Err _ => Err AuthenticationError end
             end
         end, self)
  end.

Definition authenticate (a : authenticator) self (token : option string) (now : instant) (answer : option (list key))
    : result api_error Principal.t * PyJwkSigningKeyResolver.t key :=
  match a with
  | LocalAuthenticator subject =>
      (if is_some token then Err AuthenticationError else Ok (Principal.mk "modall-local" subject (Some "Local Developer"%string)), self)
  | OidcAuthenticator issuer audience => oidc_authenticate issuer audience self token now answer
  end.

(** ** [request_state] *)

Record caller := mk_caller {
  authorization : option string; credentials : option Credentials.t;
  access_assertions : list string; client_host : option string; workspace_header : option string }.

Definition selected_token (source : AuthenticationTokenSource.t) (trusted_proxies : list string) (c : caller) : option string :=
  select_authentication_token source (_bearer_token (authorization c) (credentials c)) (access_assertions c) (client_host c) trusted_proxies.

(** What follows the authentication, in the session of the request. *)
Definition establish `{Externals} (principal : result api_error Principal.t) (workspace_header : option string) : A WorkspaceContext.t :=
  match principal with
  | Err e => reject e
  | Ok principal =>
      match workspace_header with
      | None => reject (Service AuthorizationDenied)
      | Some text =>
          match uuid_parse text with
          | None => reject (Service AuthorizationDenied)
          | Some workspace_id =>
              user_id ← service (resolve_user principal);
              service (authorize user_id workspace_id Permission.VIEW_RESOURCES)
          end
      end
  end.

Definition request_state `{Externals} (a : authenticator) (source : AuthenticationTokenSource.t) (trusted_proxies : list string)
    self (c : caller) (now : instant) (answer : option (list key)) : A WorkspaceContext.t * PyJwkSigningKeyResolver.t key :=
  let '(principal, self) := authenticate a self (selected_token source trusted_proxies c) now answer in
  (establish principal (workspace_header c), self).

(** ** The resolver over time *)

(** A sequence of lookups: tokens, instants, and what the endpoint answers if it is asked.
    The second component lists when it was asked, and its answers. *)
Fixpoint lookups self (l : list (string * instant * option (list key)))
    : PyJwkSigningKeyResolver.t key * list (instant * option (list key)) :=
  match l with
  | [] => (self, [])
  | (token, now, answer) :: l =>
      let '(_, self, contacted) := resolve self token now answer in
      let '(self, contacts) := lookups self l in
      (self, if contacted then (now, answer) :: contacts else contacts)
  end.

Definition contacts_of (now : instant) (answer : option (list key)) (contacted : bool) : list (instant * option (list key)) :=
  if contacted then [(now, answer)] else [].

(** The state is determined by the last contact. *)
Record tracks (interval max_negative : Z) self (contacts : list (instant * option (list key))) : Prop := {
  trk_interval : refresh_interval self = interval;
  trk_max : max_negative_kids self = max_negative;
  trk_last : match last contacts with
             | Some (t, answer) => next_refresh_at self = t + interval ∧ signing_keys self = answer
             | None => signing_keys self = None
             end;
  trk_paced : StronglySorted (λ a b, a.1 + interval <= b.1) contacts;
  trk_negative : len (negative_kids self) <= max_negative ∧ NoDup (negative_kids self).*1 }.

Lemma sorted_snoc interval (l : list (instant * option (list key))) now answer : 0 <= interval →
  StronglySorted (λ a b, a.1 + interval <= b.1) l → (∀ t a, last l = Some (t, a) → t + interval <= now) →
  StronglySorted (λ a b, a.1 + interval <= b.1) (l ++ [(now, answer)]).
Proof.
  intros Hi. induction l as [|x l IH]; intros Hl Hlast; [by repeat constructor|]. cbn. apply StronglySorted_inv in Hl as [Hl Hx].
  constructor.
  - apply IH; [done|]. intros t a Ha. apply (Hlast t a). destruct l; [done|exact Ha].
  - apply Forall_app. split; [done|]. constructor; [|done]. cbn. destruct l as [|y l].
    + destruct x as [t a]. by apply (Hlast t a).
    + destruct (last (y :: l)) as [[t a]|] eqn:E; [|by apply last_None in E]. assert (t + interval <= now) as Ht by by apply (Hlast t a).
      apply last_Some in E as [l' E]. rewrite Forall_forall in Hx. specialize (Hx (t, a)). cbn in Hx. rewrite E in Hx.
      assert (x.1 + interval <= t) by (apply Hx, elem_of_app; right; left). lia.
Qed.

Lemma last_contact (cs : list (instant * option (list key))) now answer : last (cs ++ [(now, answer)]) = Some (now, answer).
Proof. by rewrite last_snoc. Qed.

Lemma current_keys_tracks interval max_negative self cs now answer keys self' contacted : 0 < interval →
  tracks interval max_negative self cs → current_keys self now answer = (keys, self', contacted) →
  tracks interval max_negative self' (cs ++ contacts_of now answer contacted)
  ∧ negative_kids self' = negative_kids self ∧ negative_ttl self' = negative_ttl self
  ∧ ∀ ks, keys = Ok ks → ∃ t, last (cs ++ contacts_of now answer contacted) = Some (t, Some ks) ∧ now < t + interval.
Proof.
  intros Hi [I M L P N] E. unfold current_keys in E.
  assert (next_refresh_at self <= now ∨ cs = [] → tracks interval max_negative
    (self <| next_refresh_at := now + refresh_interval self |> <| signing_keys := answer |>) (cs ++ [(now, answer)])) as Hrefresh.
  { intros Hn. split; cbn; try done; [by rewrite last_contact, I|]. apply sorted_snoc; [lia|done|]. intros t a Hl. rewrite Hl in L.
    destruct Hn as [Hn| ->]; [destruct L; lia|done]. }
  destruct (signing_keys self) as [ks|] eqn:Ek.
  - destruct (Z.leb_spec (next_refresh_at self) now); injection E as <- <- <-; unfold contacts_of.
    + split; [apply Hrefresh; by left|]. split; [done|]. split; [done|]. intros ks'. destruct answer as [ks1|]; [|done]. intros [= ->].
      exists now. rewrite last_contact. split; [done|lia].
    + rewrite app_nil_r. split; [by split; try done; rewrite Ek|]. split; [done|]. split; [done|]. intros ks' [= <-].
      destruct (last cs) as [[t a]|]; [|done]. destruct L as [L1 <-]. exists t. split; [done|lia].
  - destruct (Z.ltb_spec now (next_refresh_at self)); injection E as <- <- <-; unfold contacts_of.
    + rewrite app_nil_r. split; [by split; try done; rewrite Ek|]. by split; [|split].
    + split; [apply Hrefresh; by left|]. split; [done|]. split; [done|]. intros ks'. destruct answer as [ks1|]; [|done]. intros [= ->].
      exists now. rewrite last_contact. split; [done|lia].
Qed.

Lemma remember_bounded d (kid : string) (expiry : instant) max_negative : 1 <= max_negative → len d <= max_negative ∧ NoDup d.*1 →
  let d' := dict_trim (Z.to_nat max_negative) (move_to_end (dict_set (dict_pop d kid) kid expiry) kid) in
  len d' <= max_negative ∧ NoDup d'.*1.
Proof.
  intros Hm [Hl Hd] d'. subst d'. destruct (dict_pop_keys d kid Hd) as [Hp Hk]. rewrite dict_set_absent, move_last_to_end by done. split.
  - unfold len. pose proof (length_trim (Z.to_nat max_negative) (dict_pop d kid ++ [(kid, expiry)])). lia.
  - apply dict_trim_keys. rewrite fmap_app. apply NoDup_app. split; [done|]. split; [|apply NoDup_singleton]. set_solver.
Qed.

Lemma tracks_negative interval max_negative self cs d : tracks interval max_negative self cs →
  len d <= max_negative ∧ NoDup d.*1 → tracks interval max_negative (self <| negative_kids := d |>) cs.
Proof. by intros [] ?; split. Qed.

Lemma remember_tracks interval max_negative self cs kid now : 1 <= max_negative →
  tracks interval max_negative self cs → tracks interval max_negative (remember_negative self kid now) cs.
Proof.
  intros Hm Ht. unfold remember_negative. assert (Hm' := trk_max _ _ _ _ Ht). rewrite Hm'.
  destruct (dict_get _ _) as [expiry|]; [destruct (now <? expiry); [done|]|]; apply tracks_negative, remember_bounded, Ht; done.
Qed.

Lemma resolve_tracks interval max_negative self cs token now answer r self' contacted : 0 < interval → 1 <= max_negative →
  tracks interval max_negative self cs → resolve self token now answer = (r, self', contacted) →
  tracks interval max_negative self' (cs ++ contacts_of now answer contacted)
  ∧ ∀ k, r = Ok k → ∃ t ks, last (cs ++ contacts_of now answer contacted) = Some (t, Some ks) ∧ k ∈ ks ∧ now < t + interval.
Proof.
  intros Hi Hm Ht E. unfold resolve in E. assert (cs ++ contacts_of now answer false = cs) as Hnil by apply app_nil_r.
  destruct (get_unverified_header token) as [header|]; [|injection E as <- <- <-; by rewrite Hnil].
  destruct (kid_of header) as [kid|e]; [|injection E as <- <- <-; by rewrite Hnil].
  destruct (current_keys self now answer) as [[keys self1] c] eqn:Ec.
  destruct (current_keys_tracks _ _ _ _ _ _ _ _ _ Hi Ht Ec) as (Ht1 & _ & _ & Hks).
  destruct keys as [ks|e]; [|by injection E as <- <- <-].
  specialize (Hks ks eq_refl) as (t & Hlast & Hnow). destruct kid as [kid|].
  - assert ((match match_kid ks kid with
             | Some k => (Ok k, self1 <| negative_kids := dict_pop (negative_kids self1) kid |>, c)
             | None => (Err AuthenticationFailed, remember_negative self1 kid now, c) end) = (r, self', contacted)) as E'
      by (by destruct ks as [|k1 [|k2 ks]]).
    destruct (match_kid ks kid) as [k|] eqn:Ek; injection E' as <- <- <-.
    + split; [|intros k' [= <-]; exists t, ks; by split_and!; [|eapply match_kid_among|]].
      destruct Ht1. apply tracks_negative; [by split|]. destruct trk_negative0 as [Hl Hd]. split; [|by apply dict_pop_keys].
      unfold len in *. rewrite length_dict_pop. lia.
    + split; [by apply remember_tracks|done].
  - destruct ks as [|k1 [|k2 ks]]; injection E as <- <- <-; (split; [done|]); [done| |done].
    intros k' [= <-]. exists t, [k1]. split_and!; [done|by left|done].
Qed.

Lemma lookups_tracks interval max_negative l : ∀ self cs, 0 < interval → 1 <= max_negative → tracks interval max_negative self cs →
  tracks interval max_negative (lookups self l).1 (cs ++ (lookups self l).2).
Proof.
  induction l as [|[[token now] answer] l IH]; intros self cs Hi Hm Ht; cbn; [by rewrite app_nil_r|].
  destruct (resolve self token now answer) as [[r self1] contacted] eqn:E.
  destruct (resolve_tracks _ _ _ _ _ _ _ _ _ _ Hi Hm Ht E) as [Ht1 _]. specialize (IH self1 _ Hi Hm Ht1).
  destruct (lookups self1 l) as [self2 contacts]. cbn in *. unfold contacts_of in IH. rewrite <- app_assoc in IH. by destruct contacted.
Qed.

(** C32. Whatever tokens callers present, and whatever the issuer's key endpoint answers:
    the endpoint is asked at most once per refresh interval; a key that is used to verify a
    token is among the keys of the latest answer, which is not older than the interval; after
    an answer that failed no key is used until another succeeds; and the table of unknown
    identifiers stays within its bound and has no effect on what is answered. *)
Theorem keys_are_current (interval negative_ttl max_negative timeout : Z) self0 l token now answer :
  init interval negative_ttl max_negative timeout = Some self0 →
  let '(self, contacts) := lookups self0 l in
  let '(r, self', contacted) := resolve self token now answer in
  let contacts' := contacts ++ contacts_of now answer contacted in
  StronglySorted (λ a b, a.1 + interval <= b.1) contacts'
  ∧ len (negative_kids self') <= max_negative
  ∧ (∀ k, r = Ok k → ∃ t ks, last contacts' = Some (t, Some ks) ∧ k ∈ ks ∧ now < t + interval)
  ∧ r = (resolve (self <| negative_kids := [] |>) token now answer).1.1.
Proof.
  intros Hinit. assert (0 < interval ∧ 1 <= max_negative ∧ tracks interval max_negative self0 []) as (Hi & Hm & Ht).
  { unfold init in Hinit. destruct (_ || _) eqn:E; [done|]. injection Hinit as <-. breflect. split; [lia|]. split; [lia|].
    split; cbn; try done; [constructor|]. split; [unfold len; cbn; lia|by apply NoDup_nil]. }
  pose proof (lookups_tracks _ _ l _ _ Hi Hm Ht) as Hl. destruct (lookups self0 l) as [self contacts]. cbn in Hl.
  destruct (resolve self token now answer) as [[r self'] contacted] eqn:E.
  destruct (resolve_tracks _ _ _ _ _ _ _ _ _ _ Hi Hm Hl E) as [Ht' Hk]. cbv zeta. split_and!; [apply Ht'|apply Ht'|exact Hk|].
  revert E. unfold resolve, current_keys. cbn. destruct (get_unverified_header token) as [header|]; [|by intros [= <- <- <-]].
  destruct (kid_of header) as [kid|]; [|by intros [= <- <- <-]]. clear.
  destruct (signing_keys self) as [ks|], (next_refresh_at self <=? now), (now <? next_refresh_at self), answer as [ks'|], kid as [kid|];
    cbn; repeat case_match; by intros [= <- <- <-] || (intros; simplify_eq; done).
Qed.

(** ** From the headers to the workspace *)

(** A token that was verified says who calls: a subject that is not blank, and an authorized
    party that is the audience, if there is one or the token has several audiences. *)
Definition verified (audience : string) (claims : list (string * Json.t)) (subject : string) : Prop :=
  claim "sub" claims = Some (Json.Str subject) ∧ strip subject ≠ ""%string
  ∧ (∀ party, claim "azp" claims = Some party → party = Json.Null ∨ party = Json.Str audience)
  ∧ ∀ l, claim "aud" claims = Some (Json.List l) → 1 < len l → claim "azp" claims = Some (Json.Str audience).

Lemma principal_of_ok issuer audience claims p : principal_of issuer audience claims = Ok p →
  Principal.issuer p = issuer ∧ verified audience claims (Principal.subject p).
Proof.
  unfold principal_of, verified. destruct (claim "sub" claims) as [[]|]; try done. destruct (falsy _) eqn:Hs; [done|].
  destruct (claim "aud" claims) as [auds|]; [|done]. destruct (_ || _) eqn:Ha; [done|]. intros [= <-]. cbn. split; [done|]. split; [done|].
  unfold falsy in Hs. breflect. split; [done|]. split.
  - intros party Hp. rewrite Hp in *. destruct party; try (by left); right; breflect; congruence.
  - intros l [= ->] Hl. destruct (claim "azp" claims) as [party|]; cbn in *.
    + destruct party; cbn in *; breflect; try congruence. destruct (Z.ltb_spec 1 (len l)); cbn in *; [done|lia].
    + destruct (Z.ltb_spec 1 (len l)); cbn in *; [done|lia].
Qed.

(** How the principal of a request was established. *)
Definition identified (a : authenticator) self (token : option string) (now : instant) (answer : option (list key)) (p : Principal.t) : Prop :=
  match a with
  | LocalAuthenticator subject => token = None ∧ Principal.issuer p = "modall-local"%string ∧ Principal.subject p = subject
  | OidcAuthenticator issuer audience =>
      ∃ text k claims, token = Some text ∧ text ≠ ""%string ∧ slen text <= 16384
        ∧ (resolve self text now answer).1.1 = Ok k ∧ decode_token text k audience issuer = Some claims
        ∧ Principal.issuer p = issuer ∧ verified audience claims (Principal.subject p)
  end.

Lemma authenticate_ok a self (token : option string) now answer p :
  (authenticate a self token now answer).1 = Ok p → identified a self token now answer p.
Proof.
  destruct a as [subject|issuer audience]; cbn.
  - destruct token; [done|]. by intros [= <-].
  - unfold oidc_authenticate. destruct token as [text|]; [|done]. destruct (_ || _) eqn:E; [done|].
    unfold falsy in E. breflect. destruct (resolve self text now answer) as [[k self'] c] eqn:Er. cbn.
    destruct k as [k|]; [|done]. destruct (decode_token _ _ _ _) as [claims|] eqn:Ed; [|done].
    destruct (principal_of _ _ _) as [p'|] eqn:Ep; [|done]. intros [= ->]. apply principal_of_ok in Ep as [Hi Hv].
    exists text, k, claims. split_and!; try done. by rewrite Er.
Qed.

Lemma cloudflare_token bearer assertions peer proxies (token : string) :
  select_authentication_token AuthenticationTokenSource.cloudflare_access bearer assertions peer proxies = Some token → token ≠ ""%string →
  bearer = None ∧ (∃ p, peer = Some p ∧ p ∈ proxies) ∧ assertions = [token].
Proof.
  unfold select_authentication_token. destruct (_ || _) eqn:E; [by intros [= <-]|]. intros Ht Hn. breflect.
  destruct bearer; [done|]. destruct peer as [p|]; [|done]. breflect. unfold len in *. destruct assertions as [|x [|y l]]; cbn in *; [lia| |lia].
  destruct (_ || _) in Ht; [by injection Ht as <-|]. injection Ht as <-. split_and!; [done|by exists p|done].
Qed.

(** Memberships belong to users (the foreign key of the table). *)
Definition members_are_users (d : Db.t) : Prop :=
  ∀ w u m, IdentityDb.workspace_memberships (Db.identity d) !! (w, u) = Some m → is_Some (IdentityDb.users (Db.identity d) !! u).

Lemma establish_ok `{Externals} principal header env d context d' : members_are_users d →
  request (establish principal header) env d = (Ok context, d') →
  d' = d ∧ ∃ p text user m, principal = Ok p ∧ header = Some text ∧ uuid_parse text = Some (WorkspaceContext.workspace_id context)
    ∧ IdentityDb.users (Db.identity d) !! WorkspaceContext.actor_user_id context = Some user
    ∧ User.oidc_issuer user = Principal.issuer p ∧ User.oidc_subject user = Principal.subject p
    ∧ IdentityDb.workspace_memberships (Db.identity d) !! (WorkspaceContext.workspace_id context, WorkspaceContext.actor_user_id context) = Some m
    ∧ WorkspaceContext.role context = WorkspaceMembership.role m.
Proof.
  intros Hfk (s & E & _ & ->)%request_ok. unfold establish in E. destruct principal as [p|e]; [|done]. destruct header as [text|]; [|done].
  destruct (uuid_parse text) as [w|] eqn:Ew; [|done].
  apply api_bind_ok in E as (user_id & s1 & E1%service_ok & E2%service_ok).
  assert (∀ s2 : Session, authorize user_id w Permission.VIEW_RESOURCES env s2 = Ok (context, s) →
    s = s2 ∧ ∃ m, IdentityDb.workspace_memberships (flushed_identity s2) !! (w, user_id) = Some m
      ∧ context = WorkspaceContext.mk w user_id (WorkspaceMembership.role m)) as Hauth.
  { clear. intros s2 E. unfold authorize in E. apply bind_ok in E as (found & s3 & [= <- <-] & E).
    destruct (IdentityDb.workspace_memberships _ !! _) as [m|] eqn:Hm; [|done].
    apply bind_ok in E as (u & s4 & [_ ->]%raise_if_ok & [= <- <-]). split; [done|]. by exists m. }
  apply Hauth in E2 as (-> & m & Hm & ->). unfold resolve_user in E1.
  apply bind_ok in E1 as (u & s2 & [_ ->]%raise_if_ok & E1). apply bind_ok in E1 as (found & s3 & [= <- <-] & E1).
  destruct (head (select_user p _)) as [[id user]|] eqn:Hu.
  - injection E1 as <- <-. split; [done|]. exists p, text, user, m.
    destruct (select_user p _) as [|x l] eqn:Es in Hu; [done|]. injection Hu as ->.
    assert ((id, user) ∈ select_user p (mkSession d d false 0 0)) as Hin by (rewrite Es; left).
    unfold select_user in Hin. apply elem_of_where_rows in Hin as [Hid Hin]. breflect. by split_and!.
  - exfalso. apply bind_ok in E1 as (id & s4 & E4 & E1). injection E4 as <- <-.
    apply bind_ok in E1 as (u2 & s5 & E5 & E1). injection E5 as <- <-. apply bind_ok in E1 as (u3 & s6 & E6 & E1). injection E6 as <- <-.
    apply bind_ok in E1 as (u4 & s7 & [[= _ ->] Hc]%flush_ok & [= <- <-]). cbn in Hc, Hm.
    apply Hfk in Hm as [user Huser]. by rewrite Huser in Hc.
Qed.

(** C33. A request gets a workspace context only for a caller who is known and a member.  The
    request changes nothing in the database; the token was accepted under the rules of the
    authenticator (under Cloudflare Access: it came as the one assertion of a trusted proxy,
    without a bearer token); the user of the context is the one with the issuer and the subject
    of the token; and the role of the context is that of the membership in the workspace that
    the header names. *)
Theorem access_is_established `{Externals} (a : authenticator) source trusted_proxies self (c : caller) now answer env d context d' :
  members_are_users d →
  request (request_state a source trusted_proxies self c now answer).1 env d = (Ok context, d') →
  d' = d
  ∧ ∃ p user m text,
      identified a self (selected_token source trusted_proxies c) now answer p
      ∧ User.oidc_issuer user = Principal.issuer p ∧ User.oidc_subject user = Principal.subject p
      ∧ IdentityDb.users (Db.identity d) !! WorkspaceContext.actor_user_id context = Some user
      ∧ workspace_header c = Some text ∧ uuid_parse text = Some (WorkspaceContext.workspace_id context)
      ∧ IdentityDb.workspace_memberships (Db.identity d) !! (WorkspaceContext.workspace_id context, WorkspaceContext.actor_user_id context) = Some m
      ∧ WorkspaceContext.role context = WorkspaceMembership.role m
      ∧ (source = AuthenticationTokenSource.cloudflare_access → ∃ proxy token, authorization c = None
           ∧ client_host c = Some proxy ∧ proxy ∈ trusted_proxies ∧ access_assertions c = [token]).
Proof.
  intros Hfk Hreq. unfold request_state in Hreq. destruct (authenticate _ _ _ _ _) as [principal self'] eqn:Ea. cbn in Hreq.
  destruct (establish_ok _ _ _ _ _ _ Hfk Hreq) as (-> & p & text & user & m & -> & Hh & Hw & Hu & Hi & Hs & Hm & Hr).
  split; [done|]. assert (identified a self (selected_token source trusted_proxies c) now answer p) as Hid.
  { apply authenticate_ok. by rewrite Ea. }
  exists p, user, m, text. split_and!; try done. intros ->. destruct (selected_token _ _ _) as [token|] eqn:Et.
  - assert (token ≠ ""%string) as Hne by (destruct a; [by destruct Hid|destruct Hid as (t & k & cl & [= ->] & Ht & _)]; done).
    destruct (cloudflare_token _ _ _ _ _ Et Hne) as (Hb & (proxy & Hp & Hin) & Hone). exists proxy, token. split_and!; try done.
    destruct (authorization c); [|done]. unfold _bearer_token in Hb. by destruct (credentials c); [destruct (negb _) in Hb|].
  - exfalso. unfold selected_token, select_authentication_token in Et. destruct (_ || _) in Et; [done|].
    destruct (access_assertions c) in Et; [done|]. by destruct (_ || _) in Et.
Qed.
End authentication.
