(* ===== verification/ApiScenario.v ===== *)
(** The theorems about the HTTP interface on a concrete workspace: a refresh is asked for,
    other requests follow, and the request is repeated; the connections are listed. *)
From S2P Require Import Prelude Types Json PyStr Secrets Screening Store Session Registry Identity Endpoint Connection.
From S2P Require Import Capabilities Discovery Ledger Lease Admission RegistrySafety Scenario RegistryScenario.
From S2P Require Import Cursors Permits Official Endpoints EndpointsSpec Idempotency IdempotencySpec OrderedDict Authentication.
From stdpp Require Import strings.
Local Open Scope Z_scope.

Module ApiScenario.
Import RegistryScenario.

(** A digest of 64 characters that depends on its input. *)
Definition digest (secret value : string) : string := of_chars (take 64 (chars (value +:+ secret +:+ Scenario.digest64))).

#[global] Instance externals : Externals := {
  sha256_hex := sha256_hex;
  hmac_sha256_hex := digest;
  external_patterns := external_patterns;
  json_loads := json_loads;
  uuid_str := uuid_str;
  uuid_hex := uuid_hex;
  uuid_parse := uuid_parse;
  py_str := py_str;
  py_int := py_int;
  isoformat := isoformat;
  jwt_encode := jwt_encode;
  jwt_header_kid := jwt_header_kid;
  jwt_decode := jwt_decode;
  validate_schema_arguments := validate_schema_arguments }.

#[global] Instance defaults : Defaults := {
  created_at := λ _, seconds 100;
  occurred_at := λ _, seconds 100;
  event_id := λ run sequence, run }.

Definition status_code (s : RefreshJobStatus.t) : Z :=
  match s with
  | RefreshJobStatus.QUEUED => 0 | RefreshJobStatus.LEASED => 1 | RefreshJobStatus.SUCCEEDED => 2
  | RefreshJobStatus.FAILED => 3 | RefreshJobStatus.OBSOLETE => 4
  end.
Definition status_of_code (n : Z) : RefreshJobStatus.t :=
  if n =? 0 then RefreshJobStatus.QUEUED else if n =? 1 then RefreshJobStatus.LEASED
  else if n =? 2 then RefreshJobStatus.SUCCEEDED else if n =? 3 then RefreshJobStatus.FAILED else RefreshJobStatus.OBSOLETE.
Definition dump_refresh (r : RefreshResponse.t) : Json.t :=
  Json.Dict [
    (Json.KStr "job_id", Json.Int (Z.pos (RefreshResponse.job_id r)));
    (Json.KStr "connection_id", Json.Int (Z.pos (RefreshResponse.connection_id r)));
    (Json.KStr "connection_version_id", Json.Int (Z.pos (RefreshResponse.connection_version_id r)));
    (Json.KStr "generation", Json.Int (RefreshResponse.generation r));
    (Json.KStr "status", Json.Int (status_code (RefreshResponse.status r)))].
Definition validate_refresh (v : Json.t) : option RefreshResponse.t :=
  match v with
  | Json.Dict [(_, Json.Int j); (_, Json.Int c); (_, Json.Int v); (_, Json.Int g); (_, Json.Int s)] =>
      Some (RefreshResponse.mk (Z.to_pos j) (Z.to_pos c) (Z.to_pos v) g (status_of_code s))
  | _ => None
  end.
Lemma refresh_law r : validate_refresh (dump_refresh r) = Some r.
Proof. by destruct r as [j c v g []]. Qed.
#[global] Instance refresh_model : Model RefreshResponse.t :=
  {| model_dump := dump_refresh; model_validate := validate_refresh; model_law := refresh_law |}.

Definition keys : list HmacKeyVersion.t := [HmacKeyVersion.mk "k1" Scenario.secret32].
(** The keyring after a rotation. *)
Definition rotated : list HmacKeyVersion.t := HmacKeyVersion.mk "k2" Scenario.secret32 :: keys.
Definition refresh_route : string := "/v1/refresh".
Definition body : Json.t := Json.Dict [].
Definition refresh_as (idempotency_key : string) (keys : list HmacKeyVersion.t) (body : Json.t) : A RefreshResponse.t :=
  mutate admin keys idempotency_key refresh_route body (enqueue_refresh admin connection) [Role.ADMIN].
Definition refresh := refresh_as "key".
Definition first := request (refresh keys body) (Scenario.env 1) created.
Definition verify : A RefreshResponse.t :=
  mutate admin rotated "key" "/v1/verify" body (enqueue_refresh admin connection) [Role.ADMIN].
Definition verified : Db.t := (request verify (Scenario.env 2) first.2).2.
(** The same refresh under another key, which is performed. *)
Definition another := request (refresh_as "other" rotated body) (Scenario.env 3) verified.
Definition purged := request (purge_expired_api_idempotency (seconds 104) 500) (Scenario.env 4) another.2.
Definition job : uuid := 2000%positive.
Definition answer : RefreshResponse.t := RefreshResponse.mk job connection version 1 RefreshJobStatus.QUEUED.
End ApiScenario.
Import ApiScenario.

Ltac decided := match goal with |- ?P => refine (@bool_decide_unpack P _ _); vm_compute; exact I end.

Lemma mutation_performed_once_witness :
  first.1 = Ok answer ∧ is_ok another.1 = true
  ∧ ∃ active, head keys = Some active
    ∧ (∃ s s1 r, flushed s = RegistryScenario.created ∧ api_records (work s) = api_records RegistryScenario.created
         ∧ enqueue_refresh RegistryScenario.admin RegistryScenario.connection (Scenario.env 1) s = Ok (answer, s1)
         ∧ first.2 = with_record r (work s1) ∧ records_key RegistryScenario.admin [active] refresh_route "key" r
         ∧ ApiIdempotencyRecord.expires_at r = clock (Scenario.env 1) 0%nat + retention)
    ∧ request (refresh rotated body) (Scenario.env 5) purged.2
    = (retried RegistryScenario.admin rotated active [Role.ADMIN] body body (clock (Scenario.env 5) 0%nat) purged.2 answer, purged.2).
Proof.
  assert (first = (Ok answer, first.2)) as Hfirst by (rewrite (surjective_pairing first) at 1; f_equal; vm_compute; reflexivity).
  split; [by rewrite Hfirst|]. split; [vm_compute; reflexivity|].
  apply (mutation_performed_once RegistryScenario.admin RegistryScenario.admin keys rotated "key" refresh_route body body
    (enqueue_refresh RegistryScenario.admin RegistryScenario.connection) (enqueue_refresh RegistryScenario.admin RegistryScenario.connection)
    [Role.ADMIN] [Role.ADMIN] (Scenario.env 1) (Scenario.env 5) RegistryScenario.created first.2 purged.2 answer).
  - apply _.
  - decided.
  - intros active [= <-]. right. by left.
  - intros id r Hr. by vm_compute in Hr; destruct id.
  - intros id r Hr. by vm_compute in Hr; destruct id.
  - exact Hfirst.
  - apply (rtc_l _ _ verified); [|apply (rtc_l _ _ another.2); [|eapply rtc_l; [|apply rtc_refl]]].
    + apply step_mutate; [left; by right; right|apply _].
    + apply step_mutate; [right; split; [done|]|apply _].
      intros k k' Hk Hk' _ E. unfold rotated, keys in Hk, Hk'. rewrite !elem_of_cons, elem_of_nil in Hk, Hk'.
      destruct Hk as [->|[->|[]]], Hk' as [->|[->|[]]]; vm_compute in E; discriminate E.
    + apply step_purged. reflexivity.
  - vm_compute. reflexivity.
  - decided.
  - vm_compute. reflexivity.
  - reflexivity.
  - reflexivity.
Defined.

Example repeated_request : (request (refresh rotated body) (Scenario.env 5) purged.2).1 = Ok answer.
Proof. vm_compute. reflexivity. Qed.
Example changed_request :
  (request (refresh rotated (Json.Dict [(Json.KStr "x", Json.Int 1)])) (Scenario.env 5) purged.2).1 = Err ApiIdempotencyConflict.
Proof. vm_compute. reflexivity. Qed.
Example late_request :
  is_ok (request (refresh rotated body) (Scenario.env (7 * 86400 + 1)) purged.2).1 = true.
Proof. vm_compute. reflexivity. Qed.

Definition views : list (instant * Db.t) := replicate 2 (seconds 105, RegistryScenario.created).
Lemma created_readable : readable RegistryScenario.created.
Proof.
  split; try decided.
Qed.

Lemma listings_show_each_row_once_witness :
  (0 < 1)%nat ∧ Forall (λ view, readable view.2) views
  ∧ ∃ pages finished,
    follow (statement_of RegistryScenario.admin Connections) 1 views None = Ok (responses (statement_of RegistryScenario.admin Connections) views pages, finished).
Proof.
  assert (Forall (λ view, readable view.2) views) as Hv by exact (Forall_replicate _ 2 (seconds 105, RegistryScenario.created) created_readable).
  split; [lia|]. split; [exact Hv|].
  destruct (listings_show_each_row_once RegistryScenario.admin Connections 1 views
    (replicate 2 (connection_rows RegistryScenario.admin RegistryScenario.created))) as (pages & finished & E & _);
    [lia|exact Hv|constructor; [reflexivity|constructor; [reflexivity|constructor]]|by exists pages, finished].
Defined.

(** ** A caller behind the proxy *)

Module CallerScenario.
(** Keys are numbers; a token is verified if it is "good" and the key is the first. *)
#[global] Program Instance jwt : Jwt := {
  key := nat;
  get_unverified_header := λ token, Some [("kid"%string, Json.Str "k1")];
  match_kid := λ keys kid, if decide (kid = "k1"%string) then head keys else None;
  decode_token := λ token k audience issuer,
    if decide (token = "good"%string ∧ k = 1%nat)
    then Some [("sub"%string, Json.Str "subject"); ("aud"%string, Json.Str audience)] else None }.
Next Obligation. intros keys kid k. cbn. destruct (decide _); [|done]. destruct keys; [done|]. intros [= ->]. by left. Qed.

Definition resolver : PyJwkSigningKeyResolver.t key := PyJwkSigningKeyResolver.mk key (seconds 30) (seconds 60) 256 None 0 [].
Definition caller : caller :=
  mk_caller None None ["good"%string] (Some "10.0.0.1"%string) (Some (uuid_str Scenario.workspace)).
Definition state := request_state (OidcAuthenticator "issuer" "audience") AuthenticationTokenSource.cloudflare_access ["10.0.0.1"%string]
  resolver caller (seconds 40) (Some [1%nat; 2%nat]).
End CallerScenario.
Import CallerScenario.

Lemma keys_are_current_witness :
  PyJwkSigningKeyResolver.init (seconds 30) (seconds 60) 256 (seconds 2) = Some resolver
  ∧ (resolve (lookups resolver [("t"%string, seconds 40, Some [1%nat])]).1 "u" (seconds 80) (Some [2%nat])).1.1 = Ok 2%nat
  ∧ StronglySorted (λ a b, a.1 + seconds 30 <= b.1) ([(seconds 40, Some [1%nat])] ++ contacts_of (seconds 80) (Some [2%nat]) true).
Proof.
  split; [reflexivity|]. split; [vm_compute; reflexivity|].
  exact (proj1 (keys_are_current (seconds 30) (seconds 60) 256 (seconds 2) resolver [("t"%string, seconds 40, Some [1%nat])] "u"
    (seconds 80) (Some [2%nat]) eq_refl)).
Defined.

Lemma access_is_established_witness :
  (request state.1 (Scenario.env 5) RegistryScenario.enabled).1 = Ok RegistryScenario.admin
  ∧ (request state.1 (Scenario.env 5) RegistryScenario.enabled).2 = RegistryScenario.enabled.
Proof.
  assert (request state.1 (Scenario.env 5) RegistryScenario.enabled
    = (Ok RegistryScenario.admin, (request state.1 (Scenario.env 5) RegistryScenario.enabled).2)) as E.
  { rewrite (surjective_pairing (request _ _ _)) at 1. f_equal; vm_compute; reflexivity. }
  split; [by rewrite E|].
  refine (proj1 (access_is_established (OidcAuthenticator "issuer" "audience") AuthenticationTokenSource.cloudflare_access ["10.0.0.1"%string]
    resolver caller (seconds 40) (Some [1%nat; 2%nat]) (Scenario.env 5) RegistryScenario.enabled RegistryScenario.admin _ _ E)).
  intros w u m. change (IdentityDb.workspace_memberships (Db.identity RegistryScenario.enabled) !! (w, u) = Some m
    → is_Some (IdentityDb.users (Db.identity RegistryScenario.enabled) !! u)).
  assert (map_Forall (λ k _, is_Some (IdentityDb.users (Db.identity RegistryScenario.enabled) !! k.2))
    (IdentityDb.workspace_memberships (Db.identity RegistryScenario.enabled))) as Hall by decided.
  intros Hm. exact (Hall (w, u) m Hm).
Defined.
