(* ===== verification/Ddl.v ===== *)
(** The language of the schema: column types, conditions, constraints, indexes, triggers
    and the operations of a migration (what migrations/versions and persistence/models.py
    use of SQLAlchemy's and Alembic's declarations), with the effect of an operation on
    the schema.  The effect on the rows is in Rows.v. *)
From S2P Require Import Prelude Types PyStr Json.
From Stdlib Require Import Ascii.
From stdpp Require Import strings gmap.
Local Open Scope Z_scope.

(** ** Columns and conditions *)

Inductive value :=
| VNull | VUuid (u : uuid) | VString (s : string) | VInteger (z : Z) | VBoolean (b : bool)
| VDateTime (t : instant) | VJson (j : Json.t).
#[global] Instance value_eq_dec : EqDecision value.
Proof. solve_decision. Defined.

Module sa.
(** [DateTime] is [DateTime(timezone=True)], the only form in use. *)
Inductive type := Uuid | String (length : Z) | Integer | Boolean | DateTime | JSON.

(** What follows [ON DELETE]; [NO_ACTION] is the default. *)
Inductive action := NO_ACTION | RESTRICT | CASCADE.

(** The SQL conditions of checks, partial indexes and statements. *)
Inductive term := Col (c : string) | Lit (s : string) | Num (z : Z) | Length (t : term) | Trim (t : term).
Inductive comparison := Eq | Ne | Ge | Gt | Le.
Inductive condition :=
| Compare (o : comparison) (a b : term)
| In (a : term) (values : list string)
| NotIn (a : term) (values : list string)
| IsNull (c : string)
| IsNotNull (c : string)
| And (p q : condition)
| Or (p q : condition)
| Same (p q : condition).   (* [(p) = (q)] *)

(** A table argument that is not a column. *)
Inductive constraint :=
| PrimaryKeyConstraint (columns : list string)
| UniqueConstraint (name : option string) (columns : list string)
| CheckConstraint (name : string) (sqltext : condition)
| ForeignKeyConstraint (name : option string) (columns : list string)
    (table : string) (refcolumns : list string) (ondelete : action) (deferred : bool).

(** [nullable] is true where the source leaves it out. *)
Record column := mk_column { type_ : type; nullable : bool; server_default : option value }.
Definition Column (name : string) (type_ : type) (nullable : bool) : string * column :=
  (name, mk_column type_ nullable None).
Definition Column_with_default (name : string) (type_ : type) (nullable : bool) (server_default : value) : string * column :=
  (name, mk_column type_ nullable (Some server_default)).

#[global] Instance type_eq_dec : EqDecision type.
Proof. solve_decision. Defined.
#[global] Instance column_eq_dec : EqDecision column.
Proof. solve_decision. Defined.
#[global] Instance column_eta : Eta column := λ c, mk_column (type_ c) (nullable c) (server_default c).
#[global] Instance action_eq_dec : EqDecision action.
Proof. solve_decision. Defined.
#[global] Instance term_eq_dec : EqDecision term.
Proof. solve_decision. Defined.
#[global] Instance comparison_eq_dec : EqDecision comparison.
Proof. solve_decision. Defined.
#[global] Instance condition_eq_dec : EqDecision condition.
Proof. solve_decision. Defined.
#[global] Instance constraint_eq_dec : EqDecision constraint.
Proof. solve_decision. Defined.
End sa.
Coercion sa.Col : string >-> sa.term.
Coercion sa.Num : Z >-> sa.term.

Declare Scope sql_scope.
Delimit Scope sql_scope with sql.
Bind Scope sql_scope with sa.condition.
Notation "a = b" := (sa.Compare sa.Eq a b) : sql_scope.
Notation "a <> b" := (sa.Compare sa.Ne a b) : sql_scope.
Notation "a >= b" := (sa.Compare sa.Ge a b) : sql_scope.
Notation "a > b" := (sa.Compare sa.Gt a b) : sql_scope.
Notation "a 'IN' l" := (sa.In a l) (at level 70) : sql_scope.
Notation "a 'NOT_IN' l" := (sa.NotIn a l) (at level 70) : sql_scope.
Notation "a 'BETWEEN' x 'AND' y" := (sa.And (sa.Compare sa.Ge a x) (sa.Compare sa.Le a y))
  (at level 70, x at level 69) : sql_scope.
Notation "a 'IS_NULL'" := (sa.IsNull a) (at level 70) : sql_scope.
Notation "a 'IS_NOT_NULL'" := (sa.IsNotNull a) (at level 70) : sql_scope.
Notation "p 'AND' q" := (sa.And p q) (at level 75, right associativity) : sql_scope.
Notation "p 'OR' q" := (sa.Or p q) (at level 76, right associativity) : sql_scope.
Notation "p == q" := (sa.Same p q) (at level 70) : sql_scope.


(** ** Values and conditions *)

(** What a value is apart from its bounds. *)
Inductive kind := KUuid | KString | KInteger | KBoolean | KDateTime | KJson.
#[global] Instance kind_eq_dec : EqDecision kind.
Proof. solve_decision. Defined.

Definition kind_of (ty : sa.type) : kind :=
  match ty with
  | sa.Uuid => KUuid | sa.String _ => KString | sa.Integer => KInteger | sa.Boolean => KBoolean
  | sa.DateTime => KDateTime | sa.JSON => KJson
  end.

Definition value_kind (v : value) : option kind :=
  match v with
  | VNull => None | VUuid _ => Some KUuid | VString _ => Some KString | VInteger _ => Some KInteger
  | VBoolean _ => Some KBoolean | VDateTime _ => Some KDateTime | VJson _ => Some KJson
  end.

(** A value, or NULL, of a kind. *)
Definition has_kind (k : kind) (v : value) : bool :=
  match value_kind v with Some k' => eqv k k' | None => true end.

(** A value fits a column type: strings within their length, integers within 32 bits. *)
Definition fits (ty : sa.type) (v : value) : bool :=
  has_kind (kind_of ty) v
  && match ty, v with
     | sa.String n, VString s => slen s <=? n
     | sa.Integer, VInteger z => (-2147483648 <=? z) && (z <=? 2147483647)
     | _, _ => true
     end.

Abbreviation row := (gmap string value).

(** [trim(s)] takes spaces off both ends. *)
Fixpoint drop_spaces (l : list ascii) : list ascii :=
  match l with c :: l' => if eqv c " "%char then drop_spaces l' else l | [] => [] end.
Definition trim_spaces (s : string) : string :=
  of_chars (reverse (drop_spaces (reverse (drop_spaces (chars s))))).

(** [None] is an error: an operand of the wrong type or a column that does not exist. *)
Fixpoint eval_term (r : row) (t : sa.term) : option value :=
  match t with
  | sa.Col c => r !! c
  | sa.Lit s => Some (VString s)
  | sa.Num z => Some (VInteger z)
  | sa.Length t =>
      match eval_term r t with
      | Some (VString s) => Some (VInteger (slen s))
      | Some VNull => Some VNull
      | _ => None
      end
  | sa.Trim t =>
      match eval_term r t with
      | Some (VString s) => Some (VString (trim_spaces s))
      | Some VNull => Some VNull
      | _ => None
      end
  end.

(** The truth values: [None] is unknown. *)
Abbreviation truth := (option bool).

Definition compare_values (o : sa.comparison) (a b : value) : option truth :=
  match a, b with
  | VNull, VNull => Some None
  | VNull, v | v, VNull => Some None
  | VInteger x, VInteger y =>
      Some (Some match o with
                 | sa.Eq => x =? y | sa.Ne => negb (x =? y) | sa.Ge => y <=? x | sa.Gt => y <? x | sa.Le => x <=? y
                 end)
  | VString _, VString _ | VUuid _, VUuid _ =>
      match o with
      | sa.Eq => Some (Some (eqv a b))
      | sa.Ne => Some (Some (negb (eqv a b)))
      | _ => None
      end
  | _, _ => None
  end.

Definition member (a : value) (values : list string) : option truth :=
  match a with
  | VNull => Some None
  | VString s => Some (Some (bool_decide (s ∈ values)))
  | _ => None
  end.

Definition not3 (p : truth) : truth := negb <$> p.
Definition and3 (p q : truth) : truth :=
  match p, q with
  | Some false, _ | _, Some false => Some false
  | Some true, Some true => Some true
  | _, _ => None
  end.
Definition or3 (p q : truth) : truth := not3 (and3 (not3 p) (not3 q)).
Definition same3 (p q : truth) : truth :=
  match p, q with Some a, Some b => Some (Bool.eqb a b) | _, _ => None end.

Fixpoint eval (r : row) (c : sa.condition) : option truth :=
  match c with
  | sa.Compare o a b => a ← eval_term r a; b ← eval_term r b; compare_values o a b
  | sa.In a values => a ← eval_term r a; member a values
  | sa.NotIn a values => a ← eval_term r a; not3 <$> member a values
  | sa.IsNull c => v ← r !! c; Some (Some (eqv v VNull))
  | sa.IsNotNull c => v ← r !! c; Some (Some (negb (eqv v VNull)))
  | sa.And p q => p ← eval r p; q ← eval r q; Some (and3 p q)
  | sa.Or p q => p ← eval r p; q ← eval r q; Some (or3 p q)
  | sa.Same p q => p ← eval r p; q ← eval r q; Some (same3 p q)
  end.

(** A check refuses a row on which its condition is false; [WHERE] selects the rows on
    which it is true. *)
Definition check_holds (c : sa.condition) (r : row) : bool :=
  match eval r c with Some t => negb (eqv t (Some false)) | None => false end.
Definition selects (c : sa.condition) (r : row) : bool := eqv (eval r c) (Some (Some true)).

(** *** The types of conditions *)

Fixpoint term_kind (columns : gmap string sa.type) (t : sa.term) : option kind :=
  match t with
  | sa.Col c => kind_of <$> columns !! c
  | sa.Lit _ => Some KString
  | sa.Num _ => Some KInteger
  | sa.Length t => k ← term_kind columns t; if eqv k KString then Some KInteger else None
  | sa.Trim t => k ← term_kind columns t; if eqv k KString then Some KString else None
  end.

Definition comparable (o : sa.comparison) (k : kind) : bool :=
  match o, k with
  | (sa.Eq | sa.Ne), (KUuid | KString | KInteger) => true
  | (sa.Ge | sa.Gt | sa.Le), KInteger => true
  | _, _ => false
  end.

Fixpoint well_typed (columns : gmap string sa.type) (c : sa.condition) : bool :=
  match c with
  | sa.Compare o a b =>
      match term_kind columns a, term_kind columns b with
      | Some k, Some k' => eqv k k' && comparable o k
      | _, _ => false
      end
  | sa.In a _ | sa.NotIn a _ => eqv (term_kind columns a) (Some KString)
  | sa.IsNull c | sa.IsNotNull c => is_some (columns !! c)
  | sa.And p q | sa.Or p q | sa.Same p q => well_typed columns p && well_typed columns q
  end.

(** *** The columns that are read *)

Fixpoint term_columns (t : sa.term) : list string :=
  match t with sa.Col c => [c] | sa.Lit _ | sa.Num _ => [] | sa.Length t | sa.Trim t => term_columns t end.

Fixpoint condition_columns (c : sa.condition) : list string :=
  match c with
  | sa.Compare _ a b => term_columns a ++ term_columns b
  | sa.In a _ | sa.NotIn a _ => term_columns a
  | sa.IsNull c | sa.IsNotNull c => [c]
  | sa.And p q | sa.Or p q | sa.Same p q => condition_columns p ++ condition_columns q
  end.

(** The columns of its own table that a constraint is about. *)
Definition constraint_columns (k : sa.constraint) : list string :=
  match k with
  | sa.PrimaryKeyConstraint cols | sa.UniqueConstraint _ cols | sa.ForeignKeyConstraint _ cols _ _ _ _ => cols
  | sa.CheckConstraint _ c => condition_columns c
  end.

(** ** Schemas *)

(** What tells the constraints of a table apart: the name, or the kind and the columns of one
    that the database names itself. *)
Definition constraint_id := (string + string * list string)%type.

Module Table.
Record t := mk { columns : gmap string sa.column; constraints : gmap constraint_id sa.constraint }.
#[global] Instance eta : Eta t := λ r, mk (columns r) (constraints r).

#[global] Instance eq_dec : EqDecision t.
Proof. solve_decision. Defined.

Definition types (T : t) : gmap string sa.type := sa.type_ <$> columns T.
End Table.

Module Index.
Record t := mk { table_name : string; columns : list string; unique : bool; where_ : option sa.condition }.
#[global] Instance eq_dec : EqDecision t.
Proof. solve_decision. Defined.
End Index.

(** The trigger functions: what makes them raise.  Conditions on OLD are not reached by an INSERT. *)
Inductive refusal :=
| Always                                        (* [RAISE EXCEPTION] *)
| Parent_exists (table : string) (column : string)  (* [EXISTS (SELECT 1 FROM table WHERE id = OLD.column)] *)
| Independent                                   (* [pg_trigger_depth() = 1] *)
| Changed (columns : list string)               (* [NEW.c IS DISTINCT FROM OLD.c OR ...] *)
| Left_from (column : string) (values : list string)
    (* [OLD.c IN (values) AND NEW.c IS DISTINCT FROM OLD.c] *)
| Unidentified (column value identity : string).
    (* [NEW.column = value AND (NEW.identity IS NULL OR NEW.identity !~ '[^[:space:]]')] *)
#[global] Instance refusal_eq_dec : EqDecision refusal.
Proof. solve_decision. Defined.

Inductive event := INSERT | UPDATE | DELETE.
#[global] Instance event_eq_dec : EqDecision event.
Proof. solve_decision. Defined.

(** [BEFORE events ON table FOR EACH ROW EXECUTE FUNCTION function()] *)
Module Trigger.
Record t := mk { events : list event; table_name : string; function : string }.
#[global] Instance eq_dec : EqDecision t.
Proof. solve_decision. Defined.
End Trigger.

(** A trigger has its name within its table. *)
Module Schema.
Record t := mk {
  tables : gmap string Table.t; indexes : gmap string Index.t;
  functions : gmap string (list refusal); triggers : gmap (string * string) Trigger.t }.
#[global] Instance eta : Eta t := λ s, mk (tables s) (indexes s) (functions s) (triggers s).
#[global] Instance eq_dec : EqDecision t.
Proof. solve_decision. Defined.
Definition empty : t := mk ∅ ∅ ∅ ∅.
End Schema.

(** ** Operations *)

Module op.
Inductive operation :=
| create_table (name : string) (columns : list (string * sa.column)) (constraints : list sa.constraint)
| drop_table (name : string)
| create_index (name table : string) (columns : list string) (unique : bool) (where_ : option sa.condition)
| drop_index (name table : string)
| add_column (table : string) (column : string * sa.column)
| drop_column (table column : string)
| alter_column_nullable (table column : string) (nullable : bool)
| alter_column_server_default (table column : string) (server_default : option value)
| create_constraint (table : string) (k : sa.constraint)
| drop_constraint (name table type_ : string)
(* statements of [op.execute] *)
| create_function (name : string) (body : list refusal)
| drop_function (name : string)
| create_trigger (name : string) (events : list event) (table function : string)
| drop_trigger (name table : string)
| insert (table : string) (values : list (string * value))
| delete (table : string) (where_ : sa.condition)
| update (table column : string) (to : sa.term) (where_ : sa.condition)
| update_from (table column source source_column : string) (source_where : sa.condition)
    (join : list (string * string)) (order_by : list string).
(* [update_from]: [WITH e AS (SELECT DISTINCT ON (source columns of join) ... FROM source WHERE
   source_where ORDER BY those columns, order_by) UPDATE table SET column = e.source_column FROM e
   WHERE e.x = table.y AND ...] for the pairs [(x, y)] of join *)

(** The declarations by the names of the source. *)
Definition create_check_constraint (name table : string) (c : sa.condition) : operation :=
  create_constraint table (sa.CheckConstraint name c).
Definition create_unique_constraint (name table : string) (columns : list string) : operation :=
  create_constraint table (sa.UniqueConstraint (Some name) columns).
Definition create_foreign_key (name source referent : string) (local remote : list string) (ondelete : sa.action)
    (deferred : bool) : operation :=
  create_constraint source (sa.ForeignKeyConstraint (Some name) local referent remote ondelete deferred).
End op.

Section schema.
Implicit Types (s : Schema.t) (T : Table.t) (k : sa.constraint) (c : string) (name : string).

Definition constraint_type k : string :=
  match k with
  | sa.PrimaryKeyConstraint _ => "primary" | sa.UniqueConstraint _ _ => "unique"
  | sa.CheckConstraint _ _ => "check" | sa.ForeignKeyConstraint _ _ _ _ _ _ => "foreignkey"
  end.

Definition id_of k : constraint_id :=
  match k with
  | sa.UniqueConstraint (Some name) _ | sa.ForeignKeyConstraint (Some name) _ _ _ _ _ | sa.CheckConstraint name _ => inl name
  | _ => inr (constraint_type k, constraint_columns k)
  end.

(** The columns a constraint makes a key, if it does. *)
Definition key_columns k : option (list string) :=
  match k with sa.PrimaryKeyConstraint cols | sa.UniqueConstraint _ cols => Some cols | _ => None end.
Definition same_columns (a b : list string) : bool := bool_decide (list_to_set a =@{gset string} list_to_set b).
Definition has_key T (cols : list string) : bool :=
  negb (bool_decide (map_Forall (λ _ k, match key_columns k with Some key => same_columns key cols | None => false end = false)
    (Table.constraints T))).

(** What a foreign key needs of the table it refers to. *)
Definition reference_ok (tables : gmap string Table.t) T (cols : list string) (ref : string) (refcols : list string) : bool :=
  match tables !! ref with
  | Some R =>
      has_key R refcols
      && bool_decide (Forall2 (λ c d, is_Some (Table.types T !! c) ∧ Table.types T !! c = Table.types R !! d) cols refcols)
  | None => false
  end.

Definition constraint_ok (tables : gmap string Table.t) T k : bool :=
  forallb (λ c, is_some (Table.columns T !! c)) (constraint_columns k)
  && match k with
     | sa.PrimaryKeyConstraint cols => forallb (λ c, match Table.columns T !! c with Some col => negb (sa.nullable col) | None => false end) cols
     | sa.UniqueConstraint _ _ => true
     | sa.CheckConstraint _ condition => well_typed (Table.types T) condition
     | sa.ForeignKeyConstraint _ cols ref refcols _ _ => reference_ok tables T cols ref refcols
     end.

(** The foreign keys of a table stand on keys. *)
Definition refers_to name k : bool :=
  match k with sa.ForeignKeyConstraint _ _ ref _ _ _ => eqv ref name | _ => false end.
Definition refers_to_column name c k : bool :=
  match k with sa.ForeignKeyConstraint _ _ ref refcols _ _ => eqv ref name && bool_decide (c ∈ refcols) | _ => false end.
Definition stands_on name T k : bool :=
  match k with sa.ForeignKeyConstraint _ _ ref refcols _ _ => negb (eqv ref name) || has_key T refcols | _ => true end.

(** No foreign key of the tables satisfies [f]. *)
Definition no_constraint (f : sa.constraint → bool) (tables : gmap string Table.t) : bool :=
  bool_decide (map_Forall (λ _ T, map_Forall (λ _ k, f k = false) (Table.constraints T)) tables).

Definition mentions c k : bool := bool_decide (c ∈ constraint_columns k).
Definition index_mentions name c (i : Index.t) : bool :=
  eqv (Index.table_name i) name
  && (bool_decide (c ∈ Index.columns i)
      || match Index.where_ i with Some w => bool_decide (c ∈ condition_columns w) | None => false end).

Definition primary_column c k : bool := match k with sa.PrimaryKeyConstraint cols => bool_decide (c ∈ cols) | _ => false end.

Definition require (b : bool) : option unit := if b then Some tt else None.
Definition update_table s name T : Schema.t := s <| Schema.tables := <[name := T]> (Schema.tables s) |>.

(** The columns of an index and its condition belong to its table. *)
Definition index_ok T (i : Index.t) : bool :=
  forallb (λ c, is_some (Table.columns T !! c)) (Index.columns i)
  && match Index.where_ i with Some w => well_typed (Table.types T) w | None => true end.

(** The effect of an operation on the schema; [None] is an error of the database. *)
Definition apply_schema (o : op.operation) s : option Schema.t :=
  match o with
  | op.create_table name columns constraints =>
      let T := Table.mk (list_to_map columns) (list_to_map ((λ k, (id_of k, k)) <$> constraints)) in
      require (is_none (Schema.tables s !! name)) ;;
      require (bool_decide (NoDup columns.*1) && bool_decide (NoDup (id_of <$> constraints))) ;;
      require (forallb (constraint_ok (<[name := T]> (Schema.tables s)) T) constraints) ;;
      Some (update_table s name T)
  | op.drop_table name =>
      _ ← Schema.tables s !! name;
      let rest := delete name (Schema.tables s) in
      require (no_constraint (refers_to name) rest) ;;
      Some (s <| Schema.tables := rest |>
              <| Schema.indexes := filter (λ ni, Index.table_name ni.2 ≠ name) (Schema.indexes s) |>
              <| Schema.triggers := filter (λ nt, Trigger.table_name nt.2 ≠ name) (Schema.triggers s) |>)
  | op.create_index name table columns unique where_ =>
      T ← Schema.tables s !! table;
      let i := Index.mk table columns unique where_ in
      require (is_none (Schema.indexes s !! name) && index_ok T i) ;;
      Some (s <| Schema.indexes := <[name := i]> (Schema.indexes s) |>)
  | op.drop_index name table =>
      i ← Schema.indexes s !! name;
      require (eqv (Index.table_name i) table) ;;
      Some (s <| Schema.indexes := delete name (Schema.indexes s) |>)
  | op.add_column table (c, column) =>
      T ← Schema.tables s !! table;
      require (is_none (Table.columns T !! c)) ;;
      Some (update_table s table (T <| Table.columns := <[c := column]> (Table.columns T) |>))
  | op.drop_column table c =>
      T ← Schema.tables s !! table;
      _ ← Table.columns T !! c;
      require (no_constraint (refers_to_column table c) (Schema.tables s)) ;;
      Some (update_table s table (T <| Table.columns := delete c (Table.columns T) |>
                                    <| Table.constraints := filter (λ ik, mentions c ik.2 = false) (Table.constraints T) |>)
              <| Schema.indexes := filter (λ ni, index_mentions table c ni.2 = false) (Schema.indexes s) |>)
  | op.alter_column_nullable table c nullable =>
      T ← Schema.tables s !! table;
      column ← Table.columns T !! c;
      require (negb nullable || bool_decide (map_Forall (λ _ k, primary_column c k = false) (Table.constraints T))) ;;
      Some (update_table s table (T <| Table.columns := <[c := column <| sa.nullable := nullable |>]> (Table.columns T) |>))
  | op.alter_column_server_default table c server_default =>
      T ← Schema.tables s !! table;
      column ← Table.columns T !! c;
      Some (update_table s table (T <| Table.columns := <[c := column <| sa.server_default := server_default |>]> (Table.columns T) |>))
  | op.create_constraint table k =>
      T ← Schema.tables s !! table;
      require (is_none (Table.constraints T !! id_of k) && constraint_ok (Schema.tables s) T k) ;;
      Some (update_table s table (T <| Table.constraints := <[id_of k := k]> (Table.constraints T) |>))
  | op.drop_constraint name table type_ =>
      T ← Schema.tables s !! table;
      k ← Table.constraints T !! inl name;
      require (eqv (constraint_type k) type_) ;;
      let T' := T <| Table.constraints := delete (inl name) (Table.constraints T) |> in
      require (no_constraint (negb ∘ stands_on table T') (<[table := T']> (Schema.tables s))) ;;
      Some (update_table s table T')
  | op.create_function name body =>
      require (is_none (Schema.functions s !! name)) ;;
      Some (s <| Schema.functions := <[name := body]> (Schema.functions s) |>)
  | op.drop_function name =>
      require (bool_decide (map_Forall (λ _ t, Trigger.function t ≠ name) (Schema.triggers s))) ;;
      Some (s <| Schema.functions := delete name (Schema.functions s) |>)
  | op.create_trigger name events table function =>
      _ ← Schema.tables s !! table;
      _ ← Schema.functions s !! function;
      require (is_none (Schema.triggers s !! (table, name))) ;;
      Some (s <| Schema.triggers := <[(table, name) := Trigger.mk events table function]> (Schema.triggers s) |>)
  | op.drop_trigger name table => Some (s <| Schema.triggers := delete (table, name) (Schema.triggers s) |>)
  | op.insert table _ | op.delete table _ | op.update table _ _ _ | op.update_from table _ _ _ _ _ _ =>
      _ ← Schema.tables s !! table; Some s
  end.

Fixpoint apply_schemas (ops : list op.operation) s : option Schema.t :=
  match ops with [] => Some s | o :: ops => s ← apply_schema o s; apply_schemas ops s end.
End schema.
