(* ===== verification/Rows.v ===== *)
(** The rows of the tables under the operations of a migration: when a row fits its table,
    what a constraint says of the rows, what an operation does to them and when it fails.
    A valid database stays valid, and its conditions evaluate without type errors. *)
From S2P Require Import Prelude Types.
From S2P Require Import Ddl.
From stdpp Require Import strings gmap.
Local Open Scope Z_scope.

Abbreviation contents := (gmap string (list row)).

Module Database.
Record t := mk { schema : Schema.t; rows : contents }.
End Database.

(** ** Definitions *)

(** The values of the columns, if none of them is NULL. *)
Definition key_of (columns : list string) (r : row) : option (list value) :=
  values ← mapM (λ c, r !! c) columns; if bool_decide (VNull ∈ values) then None else Some values.

(** Rows with a NULL are never equal. *)
Definition unique_on (columns : list string) (rows : list row) : bool := bool_decide (NoDup (omap (key_of columns) rows)).

(** A row that has a NULL refers to nothing ([MATCH SIMPLE]). *)
Definition refers (columns refcolumns : list string) (referent : list row) (r : row) : bool :=
  match key_of columns r with
  | Some key => existsb (λ r', eqv (key_of refcolumns r') (Some key)) referent
  | None => true
  end.

Definition rows_in (d : contents) (table : string) : list row := default [] (d !! table).

Definition holds (d : contents) (rows : list row) (k : sa.constraint) : bool :=
  match k with
  | sa.PrimaryKeyConstraint columns => unique_on columns rows && forallb (λ r, is_some (key_of columns r)) rows
  | sa.UniqueConstraint _ columns => unique_on columns rows
  | sa.CheckConstraint _ condition => forallb (check_holds condition) rows
  | sa.ForeignKeyConstraint _ columns table refcolumns _ _ => forallb (refers columns refcolumns (rows_in d table)) rows
  end.

Definition index_holds (rows : list row) (i : Index.t) : bool :=
  negb (Index.unique i)
  || unique_on (Index.columns i) (match Index.where_ i with Some w => filter (λ r, selects w r = true) rows | None => rows end).

Definition value_ok (column : sa.column) (v : value) : bool :=
  fits (sa.type_ column) v && (sa.nullable column || negb (eqv v VNull)).
Definition row_ok (columns : gmap string sa.column) (r : row) : bool :=
  bool_decide (dom r = dom columns)
  && bool_decide (map_Forall (λ c v, match columns !! c with Some column => value_ok column v | None => false end = true) r).

(** All that is declared of one table. *)
Definition consistent (s : Schema.t) (d : contents) (table : string) : bool :=
  match Schema.tables s !! table with
  | Some T =>
      forallb (row_ok (Table.columns T)) (rows_in d table)
      && bool_decide (map_Forall (λ _ k, holds d (rows_in d table) k = true) (Table.constraints T))
      && bool_decide (map_Forall (λ _ i, Index.table_name i = table → index_holds (rows_in d table) i = true) (Schema.indexes s))
  | None => false
  end.

(** *** Triggers *)

(** Whether a refusal of a function applies for a statement that a migration executes
    ([pg_trigger_depth() = 1]). *)
Definition raises (d : contents) (e : event) (old new : row) (g : refusal) : bool :=
  match g with
  | Always | Independent => true
  | Parent_exists table column => existsb (λ p, eqv (p !! "id"%string) (old !! column)) (rows_in d table)
  | Changed columns => negb (eqv e INSERT) && existsb (λ c, negb (eqv (old !! c) (new !! c))) columns
  | Left_from column values =>
      negb (eqv e INSERT) && match old !! column with Some (VString s) => bool_decide (s ∈ values) | _ => false end
      && negb (eqv (old !! column) (new !! column))
  | Unidentified column value identity =>
      eqv (new !! column) (Some (VString value))
      && match new !! identity with Some (VString s) => eqv (trim_spaces s) ""%string | _ => true end
  end.

(** No trigger of the table raises. *)
Definition passes (s : Schema.t) (d : contents) (table : string) (e : event) (old new : row) : bool :=
  bool_decide (map_Forall (λ _ t, Trigger.table_name t = table → e ∈ Trigger.events t →
    forallb (λ g, negb (raises d e old new g)) (default [] (Schema.functions s !! Trigger.function t)) = true) (Schema.triggers s)).

(** *** Operations *)

(** The values of an [INSERT], the others from their defaults. *)
Definition inserted (T : Table.t) (values : list (string * value)) : row :=
  list_to_map values ∪ ((λ column, default VNull (sa.server_default column)) <$> Table.columns T).

(** The order of the values that are sorted by. *)
Definition value_le (a b : value) : bool :=
  match a, b with
  | VDateTime x, VDateTime y => x <=? y
  | VUuid x, VUuid y => (x <=? y)%positive
  | VInteger x, VInteger y => x <=? y
  | _, _ => true
  end.
Fixpoint row_le (order_by : list string) (a b : row) : bool :=
  match order_by with
  | [] => true
  | c :: order_by =>
      match a !! c, b !! c with
      | Some x, Some y => if eqv x y then row_le order_by a b else value_le x y
      | _, _ => true
      end
  end.

(** The first row in the order. *)
Definition first_row (order_by : list string) (rows : list row) : option row :=
  foldr (λ r best, match best with Some b => if row_le order_by r b then Some r else best | None => Some r end) None rows.

(** The new value of the column of a row, if it is updated. *)
Definition assigned (to : sa.term) (where_ : sa.condition) (r : row) : option value :=
  if selects where_ r then eval_term r to else None.
Definition assigned_from (source : list row) (source_column : string) (source_where : sa.condition)
    (join : list (string * string)) (order_by : list string) (r : row) : option value :=
  e ← first_row order_by (filter (λ e, selects source_where e = true ∧ key_of join.*1 e = key_of join.*2 r ∧ is_Some (key_of join.*2 r)) source);
  e !! source_column.

Definition assign (column : string) (f : row → option value) (r : row) : row :=
  match f r with Some v => <[column := v]> r | None => r end.

(** [UPDATE]: a column that foreign keys refer to is not updated by any migration, so that
    their actions are not modelled. *)
Definition update_rows (s : Schema.t) (d : contents) (table column : string) (f : row → option value) : option contents :=
  T ← Schema.tables s !! table;
  rows ← d !! table;
  require (is_some (Table.columns T !! column) && no_constraint (refers_to_column table column) (Schema.tables s)) ;;
  require (forallb (λ r, is_none (f r) || passes s d table UPDATE r (assign column f r)) rows) ;;
  let d' := <[table := assign column f <$> rows]> d in
  require (consistent s d' table) ;;
  Some d'.

(** The condition of a statement belongs to the table. *)
Definition condition_ok (s : Schema.t) (table : string) (w : sa.condition) : bool :=
  match Schema.tables s !! table with Some T => well_typed (Table.types T) w | None => false end.
Definition term_ok (s : Schema.t) (table : string) (t : sa.term) : bool :=
  match Schema.tables s !! table with Some T => is_some (term_kind (Table.types T) t) | None => false end.

(** The effect of an operation on the rows; [None] is an error of the database. *)
Definition apply_rows (o : op.operation) (s : Schema.t) (d : contents) : option contents :=
  match o with
  | op.create_table name _ _ => Some (<[name := []]> d)
  | op.drop_table name => Some (delete name d)
  | op.create_index _ table columns unique where_ =>
      require (index_holds (rows_in d table) (Index.mk table columns unique where_)) ;; Some d
  | op.add_column table (c, column) =>
      rows ← d !! table;
      let v := default VNull (sa.server_default column) in
      require (eqv rows [] || value_ok column v) ;;
      Some (<[table := (λ r, <[c := v]> r) <$> rows]> d)
  | op.drop_column table c => rows ← d !! table; Some (<[table := delete c <$> rows]> d)
  | op.alter_column_nullable table c nullable =>
      require (nullable || forallb (λ r : row, negb (eqv (r !! c) (Some VNull))) (rows_in d table)) ;; Some d
  | op.create_constraint table k => require (holds d (rows_in d table) k) ;; Some d
  | op.insert table values =>
      T ← Schema.tables s !! table;
      rows ← d !! table;
      let r := inserted T values in
      require (bool_decide (NoDup values.*1) && passes s d table INSERT ∅ r) ;;
      let d' := <[table := rows ++ [r]]> d in
      require (consistent s d' table) ;;
      Some d'
  | op.delete table where_ =>
      (* no table that others refer to is deleted from, so that cascades are not modelled *)
      rows ← d !! table;
      require (condition_ok s table where_ && no_constraint (refers_to table) (Schema.tables s)) ;;
      require (forallb (λ r, negb (selects where_ r) || passes s d table DELETE r ∅) rows) ;;
      Some (<[table := filter (λ r, selects where_ r = false) rows]> d)
  | op.update table column to where_ =>
      require (condition_ok s table where_ && term_ok s table to) ;;
      update_rows s d table column (assigned to where_)
  | op.update_from table column source source_column source_where join order_by =>
      require (condition_ok s source source_where) ;;
      update_rows s d table column (assigned_from (rows_in d source) source_column source_where join order_by)
  | op.drop_index _ _ | op.alter_column_server_default _ _ _ | op.drop_constraint _ _ _
  | op.create_function _ _ | op.drop_function _ | op.create_trigger _ _ _ _ | op.drop_trigger _ _ => Some d
  end.

(** An operation, and a sequence of them. *)
Definition execute (o : op.operation) (d : Database.t) : option Database.t :=
  s ← apply_schema o (Database.schema d);
  rows ← apply_rows o (Database.schema d) (Database.rows d);
  Some (Database.mk s rows).
Fixpoint executes (ops : list op.operation) (d : Database.t) : option Database.t :=
  match ops with [] => Some d | o :: ops => d ← execute o d; executes ops d end.

(** *** Validity *)

Definition constraints_ok (s : Schema.t) : Prop :=
  ∀ table T i k, Schema.tables s !! table = Some T → Table.constraints T !! i = Some k →
    constraint_ok (Schema.tables s) T k = true ∧ i = id_of k.
Definition indexes_ok (s : Schema.t) : Prop :=
  ∀ name i, Schema.indexes s !! name = Some i → ∃ T, Schema.tables s !! Index.table_name i = Some T ∧ index_ok T i = true.
Definition triggers_ok (s : Schema.t) : Prop :=
  ∀ table name t, Schema.triggers s !! (table, name) = Some t →
    Trigger.table_name t = table ∧ is_Some (Schema.tables s !! table) ∧ is_Some (Schema.functions s !! Trigger.function t).
Record schema_ok (s : Schema.t) : Prop := {
  schema_constraints : constraints_ok s;
  schema_indexes : indexes_ok s;
  schema_triggers : triggers_ok s }.

Record valid (d : Database.t) : Prop := {
  valid_schema : schema_ok (Database.schema d);
  valid_dom : dom (Database.rows d) = dom (Schema.tables (Database.schema d));
  valid_rows : ∀ table, is_Some (Schema.tables (Database.schema d) !! table) →
    consistent (Database.schema d) (Database.rows d) table = true }.

(** ** What depends on which columns *)

Definition agree (columns : list string) (r r' : row) : Prop := ∀ c, c ∈ columns → r !! c = r' !! c.

Lemma agree_app a b r r' : agree (a ++ b) r r' → agree a r r' ∧ agree b r r'.
Proof. unfold agree. set_solver. Qed.
Lemma agree_refl columns r : agree columns r r.
Proof. done. Qed.
Lemma agree_insert columns c v r : c ∉ columns → agree columns r (<[c:=v]> r).
Proof. intros Hc d Hd. rewrite lookup_insert_ne; [done|]. by intros ->. Qed.
Lemma agree_delete columns c r : c ∉ columns → agree columns r (delete c r).
Proof. intros Hc d Hd. rewrite lookup_delete_ne; [done|]. by intros ->. Qed.
Lemma agree_subseteq a b r r' : a ⊆ b → agree b r r' → agree a r r'.
Proof. unfold agree. set_solver. Qed.

Lemma key_of_agree columns r r' : agree columns r r' → key_of columns r = key_of columns r'.
Proof.
  intros H. unfold key_of. assert (mapM (λ c, r !! c) columns = mapM (λ c, r' !! c) columns) as ->; [|done].
  induction columns as [|c columns IH]; [done|]. cbn. rewrite (H c) by set_solver. rewrite IH; [done|].
  eapply agree_subseteq, H. set_solver.
Qed.
Lemma eval_term_agree t r r' : agree (term_columns t) r r' → eval_term r t = eval_term r' t.
Proof. induction t as [c| | |t IH|t IH]; cbn; intros H; [by apply H; set_solver|done|done| |]; by rewrite IH. Qed.
Lemma eval_agree c r r' : agree (condition_columns c) r r' → eval r c = eval r' c.
Proof.
  induction c; cbn; intros H; try apply agree_app in H as [? ?];
    rewrite ?(eval_term_agree _ r r') by done; rewrite ?IHc1, ?IHc2 by done; try done.
  all: rewrite (H c) by set_solver; done.
Qed.
Lemma check_holds_agree c r r' : agree (condition_columns c) r r' → check_holds c r = check_holds c r'.
Proof. intros H. unfold check_holds. by rewrite (eval_agree c r r'). Qed.
Lemma selects_agree c r r' : agree (condition_columns c) r r' → selects c r = selects c r'.
Proof. intros H. unfold selects. by rewrite (eval_agree c r r'). Qed.

(** Row by row *)
Lemma Forall2_forallb {A} (f g : A → bool) l l' : Forall2 (λ x y, f x = g y) l l' → forallb f l = forallb g l'.
Proof. induction 1 as [|x y l l' H _ IH]; cbn; [done|]. by rewrite H, IH. Qed.
Lemma Forall2_existsb {A} (f g : A → bool) l l' : Forall2 (λ x y, f x = g y) l l' → existsb f l = existsb g l'.
Proof. induction 1 as [|x y l l' H _ IH]; cbn; [done|]. by rewrite H, IH. Qed.
Lemma Forall2_omap {A B} (f : A → option B) l l' : Forall2 (λ x y, f x = f y) l l' → omap f l = omap f l'.
Proof. induction 1 as [|x y l l' H _ IH]; cbn; [done|]. by rewrite H, IH. Qed.

Abbreviation agreeing columns := (Forall2 (agree columns)).

Lemma agreeing_refl columns rows : agreeing columns rows rows.
Proof. induction rows; by constructor. Qed.
Lemma agreeing_subseteq a b rows rows' : a ⊆ b → agreeing b rows rows' → agreeing a rows rows'.
Proof. intros H Hr. eapply Forall2_impl; [exact Hr|]. intros r r'. by apply agree_subseteq. Qed.
Lemma agreeing_fmap columns (f : row → row) rows : (∀ r, agree columns r (f r)) → agreeing columns rows (f <$> rows).
Proof. intros H. induction rows; constructor; auto. Qed.

Lemma unique_on_agree columns rows rows' : agreeing columns rows rows' → unique_on columns rows = unique_on columns rows'.
Proof.
  intros H. unfold unique_on. rewrite (Forall2_omap (key_of columns) rows rows'); [done|].
  eapply Forall2_impl; [exact H|]. intros r r'. apply key_of_agree.
Qed.

Lemma refers_agree columns refcolumns referent referent' r r' :
  agree columns r r' → agreeing refcolumns referent referent' →
  refers columns refcolumns referent r = refers columns refcolumns referent' r'.
Proof.
  intros H Hr. unfold refers. rewrite (key_of_agree _ _ _ H). destruct (key_of columns r'); [|done].
  apply Forall2_existsb. eapply Forall2_impl; [exact Hr|]. intros x y Hxy. cbn. by rewrite (key_of_agree _ _ _ Hxy).
Qed.

(** The table and the columns a foreign key refers to. *)
Definition referent (k : sa.constraint) : option (string * list string) :=
  match k with sa.ForeignKeyConstraint _ _ table refcolumns _ _ => Some (table, refcolumns) | _ => None end.

Lemma holds_agree d d' rows rows' k :
  agreeing (constraint_columns k) rows rows' →
  (∀ table refcolumns, referent k = Some (table, refcolumns) → agreeing refcolumns (rows_in d table) (rows_in d' table)) →
  holds d rows k = holds d' rows' k.
Proof.
  intros H Hr. destruct k as [columns|name columns|name c|name columns table refcolumns od df]; cbn in *.
  - rewrite (unique_on_agree _ _ _ H). f_equal. apply Forall2_forallb. eapply Forall2_impl; [exact H|].
    intros r r' Hrr. by rewrite (key_of_agree _ _ _ Hrr).
  - by apply unique_on_agree.
  - apply Forall2_forallb. eapply Forall2_impl; [exact H|]. intros r r'. apply check_holds_agree.
  - apply Forall2_forallb. eapply Forall2_impl; [exact H|]. intros r r' Hrr. apply refers_agree; [done|]. by apply Hr.
Qed.

Definition index_columns (i : Index.t) : list string :=
  Index.columns i ++ match Index.where_ i with Some w => condition_columns w | None => [] end.

Lemma index_holds_agree rows rows' i : agreeing (index_columns i) rows rows' → index_holds rows i = index_holds rows' i.
Proof.
  intros H. unfold index_holds, index_columns in *. f_equal. destruct (Index.where_ i) as [w|].
  - apply unique_on_agree. induction H as [|r r' rows rows' Hrr _ IH]; [constructor|].
    apply agree_app in Hrr as [Hc Hw]. rewrite !filter_cons. rewrite (selects_agree _ _ _ Hw).
    case_decide; [|done]. by constructor.
  - apply unique_on_agree. eapply agreeing_subseteq; [|exact H]. set_solver.
Qed.

(** ** What depends on which tables *)

Lemma term_kind_agree types types' t :
  (∀ c, c ∈ term_columns t → types !! c = types' !! c) → term_kind types t = term_kind types' t.
Proof. induction t as [c| | |t IH|t IH]; cbn; intros H; [by rewrite H by set_solver|done|done| |]; by rewrite IH. Qed.

Lemma well_typed_agree types types' c :
  (∀ x, x ∈ condition_columns c → types !! x = types' !! x) → well_typed types c = well_typed types' c.
Proof.
  induction c; cbn; intros H.
  - rewrite !(term_kind_agree types types') by (intros; apply H; set_solver). done.
  - rewrite !(term_kind_agree types types') by (intros; apply H; set_solver). done.
  - rewrite !(term_kind_agree types types') by (intros; apply H; set_solver). done.
  - by rewrite H by set_solver.
  - by rewrite H by set_solver.
  - rewrite IHc1, IHc2 by (intros; apply H; set_solver). done.
  - rewrite IHc1, IHc2 by (intros; apply H; set_solver). done.
  - rewrite IHc1, IHc2 by (intros; apply H; set_solver). done.
Qed.

(** The column stays, with its type, and not null if a primary key needs that. *)
Definition column_kept (k : sa.constraint) (T T' : Table.t) (c : string) : Prop :=
  ∀ column, Table.columns T !! c = Some column → ∃ column', Table.columns T' !! c = Some column'
    ∧ sa.type_ column' = sa.type_ column ∧ (primary_column c k = true → sa.nullable column = false → sa.nullable column' = false).

Lemma column_kept_types k T T' c :
  column_kept k T T' c → is_Some (Table.columns T !! c) → Table.types T' !! c = Table.types T !! c.
Proof.
  intros H [column Hc]. destruct (H _ Hc) as (column' & Hc' & Ht & _). unfold Table.types. rewrite !lookup_fmap, Hc, Hc'.
  cbn. by rewrite Ht.
Qed.

(** A key stays, with the types of its columns. *)
Definition key_kept (R R' : Table.t) (columns : list string) : Prop :=
  has_key R columns = true → has_key R' columns = true ∧ ∀ c, c ∈ columns → Table.types R' !! c = Table.types R !! c.

Lemma forallb_in {A} (f : A → bool) l : forallb f l = true ↔ ∀ x, x ∈ l → f x = true.
Proof. rewrite forallb_forall. split; intros H x Hx; apply H; by apply list_elem_of_In. Qed.

Lemma constraint_columns_exist tables T k c : constraint_ok tables T k = true → c ∈ constraint_columns k → is_Some (Table.columns T !! c).
Proof. unfold constraint_ok. intros [H _]%andb_true_iff Hc. apply is_some_spec. by eapply forallb_in in H. Qed.

Lemma constraint_ok_kept (tables tables' : gmap string Table.t) T T' k :
  (∀ c, c ∈ constraint_columns k → column_kept k T T' c) →
  (∀ table refcolumns R, referent k = Some (table, refcolumns) → tables !! table = Some R →
     ∃ R', tables' !! table = Some R' ∧ key_kept R R' refcolumns) →
  constraint_ok tables T k = true → constraint_ok tables' T' k = true.
Proof.
  intros Hc Hr Hok. assert (∀ c, c ∈ constraint_columns k → is_Some (Table.columns T !! c)) as He by (intros; by eapply constraint_columns_exist).
  assert (∀ c, c ∈ constraint_columns k → Table.types T' !! c = Table.types T !! c) as Ht by (intros; eapply column_kept_types; eauto).
  unfold constraint_ok in *. apply andb_true_iff in Hok as [_ Hok]. apply andb_true_iff. split.
  { apply forallb_in. intros c Hin. destruct (He c Hin) as [column Hcol]. destruct (Hc c Hin _ Hcol) as (column' & -> & _). done. }
  destruct k as [columns|name columns|name cond|name columns table refcolumns od df]; cbn in *; [|done| |].
  - apply forallb_in. intros c Hin. eapply forallb_in in Hok; [|exact Hin]. destruct (He c Hin) as [column Hcol]. rewrite Hcol in Hok.
    destruct (Hc c Hin _ Hcol) as (column' & -> & _ & Hn). breflect. rewrite Hn; [done| |done]. cbn. by apply bool_decide_eq_true.
  - rewrite <- Hok. apply well_typed_agree. intros; by apply Ht.
  - unfold reference_ok in *. destruct (tables !! table) as [R|] eqn:E; [|done]. destruct (Hr _ _ _ eq_refl E) as (R' & -> & Hk).
    apply andb_true_iff in Hok as [Hkey Hf]. destruct (Hk Hkey) as [Hkey' Htr]. rewrite Hkey'. cbn. apply bool_decide_eq_true.
    apply bool_decide_eq_true in Hf. clear -Hf Ht Htr. revert Ht Htr. induction Hf as [|c d columns refcolumns [Hs Hd] _ IH]; intros Ht Htr; constructor.
    + rewrite Ht, Htr by set_solver. by rewrite <- Hd.
    + apply IH; intros; [apply Ht|apply Htr]; set_solver.
Qed.

(** ** Schemas stay well formed *)

Lemma require_true b u : require b = Some u ↔ b = true.
Proof. destruct b, u; cbn; naive_solver. Qed.
Lemma no_constraint_spec f tables :
  no_constraint f tables = true ↔ ∀ table T i k, tables !! table = Some T → Table.constraints T !! i = Some k → f k = false.
Proof.
  unfold no_constraint. rewrite bool_decide_eq_true. split; [intros H table T i k Ht; by apply (H _ _ Ht)|].
  intros H table T Ht i k. by apply (H _ _ _ _ Ht).
Qed.
Lemma has_key_spec T columns :
  has_key T columns = true ↔ ∃ i k key, Table.constraints T !! i = Some k ∧ key_columns k = Some key ∧ same_columns key columns = true.
Proof.
  unfold has_key. rewrite negb_true_iff, bool_decide_eq_false. split.
  - intros H. apply map_not_Forall in H as (i & k & Hk & H); [|intros; apply _]. destruct (key_columns k) as [key|] eqn:E; [|done].
    exists i, k, key. by destruct (same_columns key columns).
  - intros (i & k & key & Hk & E & H) Hf. specialize (Hf _ _ Hk). cbn in Hf. by rewrite E, H in Hf.
Qed.

(** Take the binds of a definition in [option] apart. *)
Ltac obind :=
  repeat match goal with
  | H : mbind _ _ = Some _ |- _ =>
      let u := fresh "u" in let Hu := fresh "Hu" in apply bind_Some in H as (u & Hu & H)
  | u : () |- _ => destruct u
  | H : require _ = Some _ |- _ => apply require_true in H
  | H : Some _ = Some _ |- _ => injection H as H
  end; breflect.

Section schemas.
Implicit Types (s : Schema.t) (T R U : Table.t) (name table : string).

Lemma referent_columns tables T k table refcolumns :
  constraint_ok tables T k = true → referent k = Some (table, refcolumns) →
  ∃ R, tables !! table = Some R ∧ has_key R refcolumns = true ∧ ∀ c, c ∈ refcolumns → is_Some (Table.columns R !! c).
Proof.
  unfold constraint_ok. intros [_ H]%andb_true_iff Hr. destruct k as [| | |n columns t rc od df]; try done. cbn in *. injection Hr as -> ->.
  unfold reference_ok in H. destruct (tables !! table) as [R|]; [|done]. apply andb_true_iff in H as [Hk Hf]. exists R. split_and!; [done..|].
  apply bool_decide_eq_true in Hf. intros c Hc. clear Hk. induction Hf as [|x y columns refcolumns [Hs He] _ IH]; [by apply not_elem_of_nil in Hc|].
  apply elem_of_cons in Hc as [->|Hc]; [|by apply IH]. rewrite He in Hs. unfold Table.types in Hs. rewrite lookup_fmap in Hs.
  by apply fmap_is_Some in Hs.
Qed.

Lemma term_kind_columns types t c : is_Some (term_kind types t) → c ∈ term_columns t → is_Some (types !! c).
Proof.
  induction t as [x| | |t IH|t IH]; cbn; intros Hk Hc; try by apply not_elem_of_nil in Hc.
  - apply list_elem_of_singleton in Hc as ->. by apply fmap_is_Some in Hk.
  - destruct (term_kind types t); [eauto|by destruct Hk].
  - destruct (term_kind types t); [eauto|by destruct Hk].
Qed.
Lemma well_typed_columns types w c : well_typed types w = true → c ∈ condition_columns w → is_Some (types !! c).
Proof.
  induction w as [o a b|a l|a l|x|x|p IHp q IHq|p IHp q IHq|p IHp q IHq]; cbn; intros Hw Hc.
  all: try (apply andb_true_iff in Hw as [? ?]; apply elem_of_app in Hc as [?|?]; by auto).
  all: try (apply list_elem_of_singleton in Hc as ->; by apply is_some_spec).
  - destruct (term_kind types a) eqn:Ea, (term_kind types b) eqn:Eb; try done. apply elem_of_app in Hc as [Hc|Hc];
      (eapply term_kind_columns; [|exact Hc]); rewrite ?Ea, ?Eb; by eexists.
  - apply eqv_eq in Hw. eapply term_kind_columns; [|exact Hc]; rewrite Hw; by eexists.
  - apply eqv_eq in Hw. eapply term_kind_columns; [|exact Hc]; rewrite Hw; by eexists.
Qed.

Lemma types_exist T c : is_Some (Table.types T !! c) ↔ is_Some (Table.columns T !! c).
Proof. unfold Table.types. rewrite lookup_fmap. apply fmap_is_Some. Qed.

(** One table changes. *)
Lemma constraints_update s name T T' : constraints_ok s → Schema.tables s !! name = Some T →
  (∀ i k, Table.constraints T' !! i = Some k → constraint_ok (Schema.tables s) T' k = true ∧ i = id_of k) →
  (∀ table U i k refcolumns, <[name := T']> (Schema.tables s) !! table = Some U → Table.constraints U !! i = Some k →
     referent k = Some (name, refcolumns) → (∀ c, c ∈ refcolumns → is_Some (Table.columns T !! c)) → key_kept T T' refcolumns) →
  constraints_ok (update_table s name T').
Proof.
  intros Hs HT Hown Hkey table U i k HU Hk. cbn in HU.
  assert (constraint_ok (Schema.tables s) U k = true ∧ i = id_of k) as [Hok Hi].
  { destruct (decide (table = name)) as [->|Hne]; [rewrite lookup_insert_eq in HU; injection HU as <-; by apply Hown|].
    rewrite lookup_insert_ne in HU by done. by eapply Hs. }
  split; [|done]. eapply constraint_ok_kept; [| |exact Hok]; [intros c _ column Hc; by exists column|].
  intros t refcolumns R Hr HR. destruct (referent_columns _ _ _ _ _ Hok Hr) as (R' & HR' & Hhas & Hex). simplify_eq.
  destruct (decide (t = name)) as [->|Hne]; cbn.
  - rewrite lookup_insert_eq. exists T'. split; [done|]. simplify_eq. by eapply Hkey.
  - rewrite lookup_insert_ne by done. exists R. split; [done|]. by split.
Qed.

Lemma indexes_update s name T T' : indexes_ok s → Schema.tables s !! name = Some T →
  (∀ m i, Schema.indexes s !! m = Some i → Index.table_name i = name → index_ok T i = true → index_ok T' i = true) →
  indexes_ok (update_table s name T').
Proof.
  intros Hs HT Hi m i Hm. destruct (Hs _ _ Hm) as (U & HU & Hok). cbn.
  destruct (decide (Index.table_name i = name)) as [<-|Hne]; [|by rewrite lookup_insert_ne by done; eauto].
  rewrite lookup_insert_eq. simplify_eq. eauto.
Qed.

Lemma triggers_update s name T T' : triggers_ok s → Schema.tables s !! name = Some T → triggers_ok (update_table s name T').
Proof.
  intros Hs HT table n t Ht. destruct (Hs _ _ _ Ht) as (Hn & Hx & Hf). split_and!; [done| |done]. cbn.
  destruct (decide (table = name)) as [->|Hne]; [by rewrite lookup_insert_eq|by rewrite lookup_insert_ne].
Qed.

Lemma index_ok_kept T T' i :
  (∀ c, c ∈ index_columns i → is_Some (Table.columns T !! c) → Table.types T' !! c = Table.types T !! c) →
  index_ok T i = true → index_ok T' i = true.
Proof.
  intros H Hok. unfold index_ok, index_columns in *. apply andb_true_iff in Hok as [Hc Hw]. apply andb_true_iff.
  assert (∀ c, c ∈ index_columns i → is_Some (Table.columns T !! c) → is_Some (Table.columns T' !! c)) as He.
  { intros c Hin Hs. apply types_exist. rewrite H by done. by apply types_exist. }
  split.
  - apply forallb_in. intros c Hin. eapply forallb_in in Hc; [|exact Hin]. apply is_some_spec in Hc. apply is_some_spec, He; [|done].
    unfold index_columns. set_solver.
  - destruct (Index.where_ i) as [w|] eqn:E; [|done]. rewrite <- Hw. apply well_typed_agree. intros x Hx. apply H.
    + set_solver.
    + apply types_exist. by eapply well_typed_columns.
Qed.

Lemma schema_update s name T T' : schema_ok s → Schema.tables s !! name = Some T →
  constraints_ok (update_table s name T') → indexes_ok (update_table s name T') → schema_ok (update_table s name T').
Proof. intros [] HT Hc Hi. split; [done|done|]. by eapply triggers_update. Qed.

(** Nothing but columns that nothing is about are added, dropped or weakened. *)
Definition same_type (column column' : sa.column) : Prop := sa.type_ column' = sa.type_ column.

Lemma schema_retype s name T c column column' : schema_ok s → Schema.tables s !! name = Some T →
  Table.columns T !! c = Some column → same_type column column' →
  (sa.nullable column' = true → ∀ i k, Table.constraints T !! i = Some k → primary_column c k = false) →
  schema_ok (update_table s name (T <| Table.columns := <[c := column']> (Table.columns T) |>)).
Proof.
  intros Hs HT Hc Ht Hn. set (T' := T <| Table.columns := _ |>).
  assert (∀ x, Table.types T' !! x = Table.types T !! x) as Htypes.
  { intros x. unfold Table.types, T'. cbn. rewrite !lookup_fmap. destruct (decide (x = c)) as [->|Hne];
      [|by rewrite lookup_insert_ne]. rewrite lookup_insert_eq, Hc. cbn. by rewrite Ht. }
  eapply schema_update; [done..| |].
  - eapply constraints_update; [apply Hs|done| |].
    + intros i k Hk. destruct (schema_constraints s Hs _ _ _ _ HT Hk) as [Hok Hi]. split; [|done].
      eapply constraint_ok_kept; [| |exact Hok].
      * intros x _ col Hx. destruct (decide (x = c)) as [->|Hne]; [|by exists col; cbn; rewrite lookup_insert_ne].
        exists column'. cbn. rewrite lookup_insert_eq. simplify_eq. split_and!; [done|done|]. intros Hp _.
        destruct (sa.nullable column') eqn:E; [|done]. by rewrite (Hn eq_refl _ _ Hk) in Hp.
      * intros t rc R Hr HR. exists R. split; [done|]. by split.
    + intros t U i k rc _ _ _ _ Hk. split; [done|]. intros x _. by rewrite Htypes.
  - eapply indexes_update; [apply Hs|done|]. intros m i _ _. apply index_ok_kept. intros x _ _. by rewrite Htypes.
Qed.
End schemas.

Section operations.
Implicit Types (s : Schema.t) (T R U : Table.t) (name table : string).

Lemma reference_ext tables tables' T k :
  (∀ table refcolumns R, referent k = Some (table, refcolumns) → tables !! table = Some R → tables' !! table = Some R) →
  constraint_ok tables T k = true → constraint_ok tables' T k = true.
Proof.
  intros H. apply constraint_ok_kept; [intros c _ column Hc; by exists column|]. intros t rc R Hr HR. exists R. split; [by eapply H|]. by split.
Qed.

Lemma create_table_ok s name columns constraints s' :
  schema_ok s → apply_schema (op.create_table name columns constraints) s = Some s' → schema_ok s'.
Proof.
  intros [Hc Hi Ht] E. cbn in E. obind. subst s'.
  assert (Schema.tables s !! name = None) as Hn by (unfold is_none, is_some in *; by destruct (Schema.tables s !! name)).
  split.
  - intros t U i k HU Hk. cbn in *. destruct (decide (t = name)) as [->|Hne].
    + rewrite lookup_insert_eq in HU. injection HU as <-. cbn in Hk. apply elem_of_list_to_map_2 in Hk.
      apply list_elem_of_fmap in Hk as (k' & [= -> ->] & Hk). split; [|done]. by eapply forallb_in in Hk; [|eassumption].
    + rewrite lookup_insert_ne in HU by done. destruct (Hc _ _ _ _ HU Hk) as [Hok ->]. split; [|done].
      eapply reference_ext; [|exact Hok]. intros t' rc R _ HR. rewrite lookup_insert_ne; [done|]. intros <-. congruence.
  - intros m i Hm. destruct (Hi _ _ Hm) as (U & HU & Hok). exists U. split; [|done]. cbn. rewrite lookup_insert_ne; [done|]. congruence.
  - intros t n tr Htr. destruct (Ht _ _ _ Htr) as (? & [U HU] & ?). split_and!; [done| |done]. cbn. rewrite lookup_insert_ne; [by eexists|].
    intros <-. congruence.
Qed.

Lemma drop_table_ok s name s' : schema_ok s → apply_schema (op.drop_table name) s = Some s' → schema_ok s'.
Proof.
  intros [Hc Hi Ht] E. cbn in E. obind. subst s'. match goal with H : no_constraint _ _ = true |- _ => rename H into Hno end.
  rewrite no_constraint_spec in Hno. split.
  - intros t U i k HU Hk. cbn in HU. pose proof HU as [Hne HU']%lookup_delete_Some. destruct (Hc _ _ _ _ HU' Hk) as [Hok ->].
    split; [|done]. eapply reference_ext; [|exact Hok]. intros t' rc R Hr HR. cbn. rewrite lookup_delete_ne; [done|]. intros <-.
    specialize (Hno _ _ _ _ HU Hk). destruct k; try done. cbn in *. injection Hr as -> ->. by rewrite eqv_refl in Hno.
  - intros m i [Hm Hne]%map_lookup_filter_Some. destruct (Hi _ _ Hm) as (U & HU & Hok). exists U. split; [|done]. cbn in *.
    rewrite lookup_delete_ne; [done|]. congruence.
  - intros t n tr [Htr Hne]%map_lookup_filter_Some. destruct (Ht _ _ _ Htr) as (<- & HU & ?). split_and!; [done| |done]. cbn in *.
    rewrite lookup_delete_ne; [done|]. congruence.
Qed.

Lemma add_column_ok s table c column s' : schema_ok s → apply_schema (op.add_column table (c, column)) s = Some s' → schema_ok s'.
Proof.
  intros Hs E. cbn in E. apply bind_Some in E as (T & HT & E). obind. subst s'.
  assert (Table.columns T !! c = None) as Hn by (unfold is_none, is_some in *; by destruct (Table.columns T !! c)).
  set (T' := T <| Table.columns := _ |>).
  assert (∀ x, is_Some (Table.columns T !! x) → Table.columns T' !! x = Table.columns T !! x) as Hsame.
  { intros x Hx. cbn. rewrite lookup_insert_ne; [done|]. intros ->. rewrite Hn in Hx. by destruct Hx. }
  assert (∀ x, is_Some (Table.columns T !! x) → Table.types T' !! x = Table.types T !! x) as Htypes.
  { intros x Hx. unfold Table.types. by rewrite !lookup_fmap, Hsame. }
  eapply schema_update; [done..| |].
  - eapply constraints_update; [apply Hs|done| |].
    + intros i k Hk. destruct (schema_constraints s Hs _ _ _ _ HT Hk) as [Hok Hi]. split; [|done].
      eapply constraint_ok_kept; [| |exact Hok].
      * intros x Hin col Hx. exists col. by rewrite Hsame by by eexists.
      * intros t rc R Hr HR. exists R. split; [done|]. by split.
    + intros t U i k rc _ _ _ Hex Hk. split; [done|]. intros x Hx. by apply Htypes, Hex.
  - eapply indexes_update; [apply Hs|done|]. intros m i _ _. apply index_ok_kept. intros x _. apply Htypes.
Qed.

Lemma drop_column_ok s table c s' : schema_ok s → apply_schema (op.drop_column table c) s = Some s' → schema_ok s'.
Proof.
  intros Hs E. cbn in E. apply bind_Some in E as (T & HT & E). obind. subst s'.
  match goal with H : no_constraint _ _ = true |- _ => rename H into Hno end. rewrite no_constraint_spec in Hno.
  set (T' := T <| Table.columns := _ |> <| Table.constraints := _ |>).
  assert (∀ x, x ≠ c → Table.columns T' !! x = Table.columns T !! x) as Hsame by (intros x Hx; cbn; by rewrite lookup_delete_ne).
  assert (∀ x, x ≠ c → Table.types T' !! x = Table.types T !! x) as Htypes by (intros x Hx; unfold Table.types; by rewrite !lookup_fmap, Hsame).
  assert (∀ i k, Table.constraints T' !! i = Some k → Table.constraints T !! i = Some k ∧ c ∉ constraint_columns k) as Hcons.
  { intros i k. cbn. rewrite map_lookup_filter_Some. cbn. unfold mentions. rewrite bool_decide_eq_false. done. }
  assert (constraints_ok (update_table s table T')) as Hc.
  { eapply constraints_update; [apply Hs|done| |].
    - intros i k Hk. destruct (Hcons _ _ Hk) as [Hk' Hnot]. destruct (schema_constraints s Hs _ _ _ _ HT Hk') as [Hok Hi]. split; [|done].
      eapply constraint_ok_kept; [| |exact Hok].
      + intros x Hin col Hx. exists col. rewrite Hsame; [done|]. by intros ->.
      + intros t rc R Hr HR. exists R. split; [done|]. by split.
    - intros t U i k rc HU Hk Hr Hex Hkey. assert (c ∉ rc) as Hrc.
      { assert (∃ V, Schema.tables s !! t = Some V ∧ Table.constraints V !! i = Some k) as (V & HV & HkV).
        { destruct (decide (t = table)) as [->|Hne]; [|rewrite lookup_insert_ne in HU by done; eauto]. rewrite lookup_insert_eq in HU.
          injection HU as <-. apply Hcons in Hk as [Hk _]. eauto. }
        specialize (Hno _ _ _ _ HV HkV). destruct k; try done. cbn in *. injection Hr as -> ->. rewrite eqv_refl in Hno. cbn in Hno.
        by apply bool_decide_eq_false in Hno. }
      split; [|intros x Hx; apply Htypes; by intros ->]. rewrite has_key_spec in Hkey |- *.
      destruct Hkey as (j & k' & key & Hj & Hkc & Hsc). exists j, k', key. split_and!; [|done|done]. cbn. rewrite map_lookup_filter_Some.
      split; [done|]. cbn. unfold mentions. apply bool_decide_eq_false. intros Hin. apply Hrc.
      assert (constraint_columns k' = key) as <- by (destruct k'; cbn in *; congruence).
      unfold same_columns in Hsc. apply bool_decide_eq_true in Hsc. set_solver. }
  split; [exact Hc| |].
  - intros m i [Hm Hmen]%map_lookup_filter_Some. destruct (schema_indexes s Hs _ _ Hm) as (U & HU & Hok). cbn in *.
    destruct (decide (Index.table_name i = table)) as [Heq|Hne]; [|by rewrite lookup_insert_ne by done; eauto].
    rewrite <- Heq, lookup_insert_eq. exists T'. split; [done|]. eapply index_ok_kept; [|exact Hok]. intros x Hx _.
    assert (U = T) as -> by congruence. apply Htypes. intros ->. unfold index_mentions in Hmen. rewrite Heq, eqv_refl in Hmen. cbn in Hmen.
    apply orb_false_iff in Hmen as [Hm1 Hm2]. apply bool_decide_eq_false in Hm1. unfold index_columns in Hx.
    destruct (Index.where_ i); [apply bool_decide_eq_false in Hm2|]; set_solver.
  - intros t n tr Htr. destruct (triggers_update _ _ _ T' (schema_triggers s Hs) HT _ _ _ Htr) as (? & ? & ?). done.
Qed.

Lemma create_constraint_ok s table k s' : schema_ok s → apply_schema (op.create_constraint table k) s = Some s' → schema_ok s'.
Proof.
  intros Hs E. cbn in E. apply bind_Some in E as (T & HT & E). obind. subst s'. set (T' := T <| Table.constraints := _ |>).
  assert (∀ k', constraint_ok (Schema.tables s) T k' = true → constraint_ok (Schema.tables s) T' k' = true) as Hown.
  { intros k'. apply constraint_ok_kept; [intros x _ col Hx; by exists col|]. intros t rc R _ HR. exists R. split; [done|]. by split. }
  eapply schema_update; [done..| |].
  - eapply constraints_update; [apply Hs|done| |].
    + intros i k' Hk. cbn in Hk. apply lookup_insert_Some in Hk as [[<- <-]|[_ Hk]]; [by split; [apply Hown|]|].
      destruct (schema_constraints s Hs _ _ _ _ HT Hk) as [Hok Hi]. split; [by apply Hown|done].
    + intros t U i k' rc _ _ _ _ Hk. split; [|done]. rewrite has_key_spec in Hk |- *. destruct Hk as (j & k0 & key & Hj & ? & ?).
      exists j, k0, key. split; [|done]. cbn. rewrite lookup_insert_ne; [done|]. intros <-. unfold is_none, is_some in *. by rewrite Hj in *.
  - eapply indexes_update; [apply Hs|done|]. intros m i _ _. by apply index_ok_kept.
Qed.

Lemma drop_constraint_ok s name table type_ s' : schema_ok s → apply_schema (op.drop_constraint name table type_) s = Some s' → schema_ok s'.
Proof.
  intros Hs E. cbn in E. apply bind_Some in E as (T & HT & E). obind. subst s'. set (T' := T <| Table.constraints := _ |>) in *.
  match goal with H : no_constraint _ _ = true |- _ => rename H into Hno end. rewrite no_constraint_spec in Hno.
  eapply schema_update; [done..| |].
  - eapply constraints_update; [apply Hs|done| |].
    + intros i k' Hk. cbn in Hk. apply lookup_delete_Some in Hk as [_ Hk]. destruct (schema_constraints s Hs _ _ _ _ HT Hk) as [Hok Hi].
      split; [|done]. eapply constraint_ok_kept; [intros x _ col Hx; by exists col| |exact Hok]. intros t rc R _ HR. exists R. split; [done|]. by split.
    + intros t U i k' rc HU Hk Hr _ _. split; [|done]. specialize (Hno _ _ _ _ HU Hk). cbn in Hno. apply negb_false_iff in Hno.
      destruct k'; try done. cbn in *. injection Hr as -> ->. by rewrite eqv_refl in Hno.
  - eapply indexes_update; [apply Hs|done|]. intros m i _ _. by apply index_ok_kept.
Qed.

Lemma apply_schema_ok o s s' : schema_ok s → apply_schema o s = Some s' → schema_ok s'.
Proof.
  intros Hs E. destruct o.
  - by eapply create_table_ok.
  - by eapply drop_table_ok.
  - cbn in E. apply bind_Some in E as (T & HT & E). obind. subst s'. destruct Hs as [Hc Hi Ht]. split; [done| |done].
    intros m i Hm. cbn in Hm. apply lookup_insert_Some in Hm as [[_ <-]|[_ Hm]]; [by exists T|by eapply Hi].
  - cbn in E. obind. subst s'. destruct Hs as [Hc Hi Ht]. split; [done| |done]. intros m i Hm. cbn in Hm. apply lookup_delete_Some in Hm as [_ Hm]. by eapply Hi.
  - destruct column as [c column]. by eapply add_column_ok.
  - by eapply drop_column_ok.
  - cbn in E. apply bind_Some in E as (T & HT & E). apply bind_Some in E as (col & Hcol & E). obind. subst s'. eapply schema_retype; [done..| |]; [done|].
    cbn. intros Hnull i k Hk. destruct nullable; [|done]. cbn in *. match goal with H : bool_decide _ = true |- _ => apply bool_decide_eq_true in H; by apply (H i) end.
  - cbn in E. apply bind_Some in E as (T & HT & E). apply bind_Some in E as (col & Hcol & E). obind. subst s'. eapply schema_retype; [done..| |]; [done|].
    cbn. intros Hnull i k Hk. destruct (primary_column column k) eqn:Ep; [|done]. destruct (schema_constraints s Hs _ _ _ _ HT Hk) as [Hok _].
    destruct k as [cols| | |]; try done. unfold constraint_ok in Hok. apply andb_true_iff in Hok as [_ Hok]. cbn in Ep. apply bool_decide_eq_true in Ep.
    eapply forallb_in in Hok; [|exact Ep]. rewrite Hcol, Hnull in Hok. done.
  - by eapply create_constraint_ok.
  - by eapply drop_constraint_ok.
  - cbn in E. obind. subst s'. destruct Hs as [Hc Hi Ht]. split; [done|done|]. intros t n tr Htr. destruct (Ht _ _ _ Htr) as (? & ? & ?).
    split_and!; [done|done|]. cbn. destruct (decide (Trigger.function tr = name)) as [->|Hne]; [by rewrite lookup_insert_eq|by rewrite lookup_insert_ne].
  - cbn in E. obind. subst s'. destruct Hs as [Hc Hi Ht]. split; [done|done|]. intros t n tr Htr. destruct (Ht _ _ _ Htr) as (? & ? & ?).
    split_and!; [done|done|]. cbn. rewrite lookup_delete_ne; [done|]. intros Heq.
    match goal with H : map_Forall _ _ |- _ => by apply (H _ _ Htr) end.
  - cbn in E. apply bind_Some in E as (T & HT & E). apply bind_Some in E as (body & Hb & E). obind. subst s'. destruct Hs as [Hc Hi Ht]. split; [done|done|].
    intros t n tr Htr. cbn in Htr. apply lookup_insert_Some in Htr as [[[= <- <-] <-]|[_ Htr]]; [|by eapply Ht]. cbn. split_and!; [done|by eexists..].
  - cbn in E. obind. subst s'. destruct Hs as [Hc Hi Ht]. split; [done|done|]. intros t n tr Htr. cbn in Htr. apply lookup_delete_Some in Htr as [_ Htr]. by eapply Ht.
  - cbn in E. obind. by subst s'.
  - cbn in E. obind. by subst s'.
  - cbn in E. obind. by subst s'.
  - cbn in E. obind. by subst s'.
Qed.
End operations.

(** ** Databases stay valid *)

Definition still_refers (d d' : contents) (table : string) (refcolumns : list string) : Prop :=
  ∀ columns r, refers columns refcolumns (rows_in d table) r = true → refers columns refcolumns (rows_in d' table) r = true.

Lemma still_refers_same d d' table refcolumns : d !! table = d' !! table → still_refers d d' table refcolumns.
Proof. intros H columns r. unfold rows_in. by rewrite H. Qed.
Lemma still_refers_agree d d' table refcolumns : agreeing refcolumns (rows_in d table) (rows_in d' table) → still_refers d d' table refcolumns.
Proof. intros H columns r. by rewrite (refers_agree _ _ _ _ r r (agree_refl _ _) H). Qed.
Lemma still_refers_more d d' table refcolumns rows : rows_in d' table = rows_in d table ++ rows → still_refers d d' table refcolumns.
Proof.
  intros H columns r. unfold refers. destruct (key_of columns r); [|done]. rewrite H, existsb_app. intros ->. done.
Qed.

Lemma holds_referents d d' rows k :
  (∀ table refcolumns, referent k = Some (table, refcolumns) → still_refers d d' table refcolumns) →
  holds d rows k = true → holds d' rows k = true.
Proof.
  intros H. destruct k as [| | |n columns t rc od df]; cbn; [done..|]. rewrite !forallb_forall. intros Hf r Hr. apply (H t rc eq_refl). by apply Hf.
Qed.

Section valid.
Implicit Types (s : Schema.t) (T : Table.t) (d : contents) (table : string).

Lemma consistent_spec s d table T : Schema.tables s !! table = Some T →
  consistent s d table = true ↔
    (∀ r, r ∈ rows_in d table → row_ok (Table.columns T) r = true)
    ∧ (∀ i k, Table.constraints T !! i = Some k → holds d (rows_in d table) k = true)
    ∧ (∀ m i, Schema.indexes s !! m = Some i → Index.table_name i = table → index_holds (rows_in d table) i = true).
Proof.
  intros HT. unfold consistent. rewrite HT, !andb_true_iff, forallb_in, !bool_decide_eq_true. split.
  - intros [[Hr Hc] Hi]. split_and!; [done|by intros i k Hk; apply (Hc _ _ Hk)|]. intros m i Hm. by apply (Hi _ _ Hm).
  - intros (Hr & Hc & Hi). split_and!; [done|by intros i k Hk; eapply Hc|]. intros m i Hm. by eapply Hi.
Qed.

Lemma holds_nil d k : holds d [] k = true.
Proof. destruct k; cbn; rewrite ?andb_true_r; try done; by apply bool_decide_eq_true, NoDup_nil. Qed.
Lemma index_holds_nil i : index_holds [] i = true.
Proof.
  unfold index_holds. apply orb_true_iff. right. destruct (Index.where_ i); by apply bool_decide_eq_true, NoDup_nil.
Qed.

(** A table whose rows are as they were. *)
Lemma consistent_same s s' d d' table T :
  Schema.tables s !! table = Some T → Schema.tables s' !! table = Some T → d !! table = d' !! table →
  (∀ m i, Schema.indexes s' !! m = Some i → Index.table_name i = table → Schema.indexes s !! m = Some i) →
  (∀ i k t rc, Table.constraints T !! i = Some k → referent k = Some (t, rc) → still_refers d d' t rc) →
  consistent s d table = true → consistent s' d' table = true.
Proof.
  intros HT HT' Hd Hi Hr. rewrite (consistent_spec _ _ _ _ HT), (consistent_spec _ _ _ _ HT').
  assert (rows_in d' table = rows_in d table) as -> by (unfold rows_in; by rewrite Hd).
  intros (Hrow & Hc & Hx). split_and!; [done| |]; [|by eauto]. intros i k Hk. eapply holds_referents; [|by eapply Hc]. eauto.
Qed.

(** Only the schema of one table changes. *)
Lemma consistent_retable s s' d table T T' :
  Schema.tables s !! table = Some T → Schema.tables s' !! table = Some T' →
  (∀ r, r ∈ rows_in d table → row_ok (Table.columns T) r = true → row_ok (Table.columns T') r = true) →
  (∀ i k, Table.constraints T' !! i = Some k → Table.constraints T !! i = Some k ∨ holds d (rows_in d table) k = true) →
  (∀ m i, Schema.indexes s' !! m = Some i → Index.table_name i = table → Schema.indexes s !! m = Some i ∨ index_holds (rows_in d table) i = true) →
  consistent s d table = true → consistent s' d table = true.
Proof.
  intros HT HT' Hr Hc Hi. rewrite (consistent_spec _ _ _ _ HT), (consistent_spec _ _ _ _ HT').
  intros (Hr0 & Hc0 & Hi0). split_and!; [by eauto| |].
  - intros i k Hk. destruct (Hc _ _ Hk); eauto.
  - intros m i Hm Ht. destruct (Hi _ _ Hm Ht); eauto.
Qed.

Lemma unique_on_sublist columns rows rows' : rows' `sublist_of` rows → unique_on columns rows = true → unique_on columns rows' = true.
Proof.
  unfold unique_on. rewrite !bool_decide_eq_true. intros Hs Hn. eapply sublist_NoDup; [exact Hn|]. clear Hn.
  induction Hs as [|r rows' rows _ IH|r rows' rows _ IH]; cbn; [constructor| |]; destruct (key_of columns r); try done; by constructor.
Qed.
Lemma filter_sublist {A} (P : A → Prop) `{!∀ x, Decision (P x)} l : filter P l `sublist_of` l.
Proof. induction l as [|x l IH]; [done|]. rewrite filter_cons. case_decide; by constructor. Qed.
Lemma filter_mono_sublist {A} (P : A → Prop) `{!∀ x, Decision (P x)} l l' : l' `sublist_of` l → filter P l' `sublist_of` filter P l.
Proof. induction 1 as [|x l' l _ IH|x l' l _ IH]; [done| |]; rewrite ?filter_cons; case_decide; try done; by constructor. Qed.

Lemma holds_sublist d rows rows' k : rows' `sublist_of` rows → holds d rows k = true → holds d rows' k = true.
Proof.
  intros Hs. assert (rows' ⊆ rows) as Hsub by (intros x Hx; by eapply elem_of_submseteq, sublist_submseteq).
  destruct k; cbn; rewrite ?andb_true_iff, ?forallb_in.
  - intros [? Hf]. split; [by eapply unique_on_sublist|auto].
  - by apply unique_on_sublist.
  - auto.
  - auto.
Qed.
Lemma index_holds_sublist rows rows' i : rows' `sublist_of` rows → index_holds rows i = true → index_holds rows' i = true.
Proof.
  intros Hs. unfold index_holds. destruct (Index.unique i); [|done]. cbn. apply unique_on_sublist.
  destruct (Index.where_ i); [by apply filter_mono_sublist|done].
Qed.

(** *** Rows fit the columns *)

Lemma row_ok_spec columns r : row_ok columns r = true ↔
  dom r = dom columns ∧ ∀ c v column, r !! c = Some v → columns !! c = Some column → value_ok column v = true.
Proof.
  unfold row_ok. rewrite andb_true_iff, !bool_decide_eq_true. split; intros [Hd H]; (split; [done|]).
  - intros c v column Hv Hc. specialize (H _ _ Hv). cbn in H. by rewrite Hc in H.
  - intros c v Hv. cbn. assert (c ∈ dom columns) as [column Hc]%elem_of_dom by (rewrite <- Hd; by eapply elem_of_dom_2).
    rewrite Hc. by eapply H.
Qed.
Lemma row_ok_value columns r c column : row_ok columns r = true → columns !! c = Some column →
  ∃ v, r !! c = Some v ∧ value_ok column v = true.
Proof.
  rewrite row_ok_spec. intros [Hd H] Hc. assert (c ∈ dom r) as [v Hv]%elem_of_dom by (rewrite Hd; by eapply elem_of_dom_2).
  exists v. split; [done|]. by eapply H.
Qed.
Lemma row_ok_insert columns r c column v : row_ok columns r = true → value_ok column v = true →
  row_ok (<[c := column]> columns) (<[c := v]> r) = true.
Proof.
  rewrite !row_ok_spec. intros [Hd H] Hv. split; [by rewrite !dom_insert_L, Hd|]. intros x w col Hw Hcol.
  destruct (decide (x = c)) as [->|Hne]; [rewrite lookup_insert_eq in Hw; rewrite lookup_insert_eq in Hcol; by simplify_eq|].
  rewrite lookup_insert_ne in Hw by done. rewrite lookup_insert_ne in Hcol by done. by eapply H.
Qed.
Lemma row_ok_delete columns r c : row_ok columns r = true → row_ok (delete c columns) (delete c r) = true.
Proof.
  rewrite !row_ok_spec. intros [Hd H]. split; [by rewrite !dom_delete_L, Hd|].
  intros x w col [_ Hw]%lookup_delete_Some [_ Hcol]%lookup_delete_Some. by eapply H.
Qed.
Lemma row_ok_retype columns r c column column' : row_ok columns r = true → columns !! c = Some column → same_type column column' →
  (sa.nullable column' = false → sa.nullable column = true → r !! c ≠ Some VNull) →
  row_ok (<[c := column']> columns) r = true.
Proof.
  rewrite !row_ok_spec. intros [Hd H] Hc Ht Hn. split.
  { rewrite dom_insert_L, Hd. assert (c ∈ dom columns) by (by eapply elem_of_dom_2). set_solver. }
  intros x w col Hw Hcol. destruct (decide (x = c)) as [->|Hne]; [|rewrite lookup_insert_ne in Hcol by done; by eapply H].
  rewrite lookup_insert_eq in Hcol. injection Hcol as <-. specialize (H _ _ _ Hw Hc). unfold value_ok in *. rewrite Ht.
  apply andb_true_iff in H as [-> H]. cbn. destruct (sa.nullable column') eqn:E; [done|]. cbn. apply negb_true_iff, eqv_false. intros ->.
  destruct (sa.nullable column) eqn:E'; [by apply Hn|]. done.
Qed.
End valid.

Section preservation.
Implicit Types (s : Schema.t) (T : Table.t) (d : contents) (table : string).

Definition complete s d : Prop :=
  dom d = dom (Schema.tables s) ∧ ∀ table, is_Some (Schema.tables s !! table) → consistent s d table = true.

Lemma complete_rows s d table : complete s d → is_Some (Schema.tables s !! table) → ∃ rows, d !! table = Some rows.
Proof. intros [Hd _] Ht. apply elem_of_dom. rewrite Hd. by apply elem_of_dom. Qed.

Lemma rows_in_lookup d table rows : d !! table = Some rows → rows_in d table = rows.
Proof. unfold rows_in. by intros ->. Qed.

(** What a foreign key of a well-formed schema refers to. *)
Lemma referent_exists s table T i k t rc : schema_ok s → Schema.tables s !! table = Some T → Table.constraints T !! i = Some k →
  referent k = Some (t, rc) → ∃ R, Schema.tables s !! t = Some R ∧ ∀ c, c ∈ rc → is_Some (Table.columns R !! c).
Proof.
  intros Hs HT Hk Hr. destruct (schema_constraints s Hs _ _ _ _ HT Hk) as [Hok _].
  destruct (referent_columns _ _ _ _ _ Hok Hr) as (R & HR & _ & Hc). by exists R.
Qed.
Lemma constraint_column_exists s table T i k c : schema_ok s → Schema.tables s !! table = Some T → Table.constraints T !! i = Some k →
  c ∈ constraint_columns k → is_Some (Table.columns T !! c).
Proof. intros Hs HT Hk. destruct (schema_constraints s Hs _ _ _ _ HT Hk) as [Hok _]. by eapply constraint_columns_exist. Qed.
Lemma index_column_exists s m i T c : schema_ok s → Schema.indexes s !! m = Some i → Schema.tables s !! Index.table_name i = Some T →
  c ∈ index_columns i → is_Some (Table.columns T !! c).
Proof.
  intros Hs Hi HT Hc. destruct (schema_indexes s Hs _ _ Hi) as (U & HU & Hok). simplify_eq. unfold index_ok, index_columns in *.
  apply andb_true_iff in Hok as [Hcol Hw]. apply elem_of_app in Hc as [Hc|Hc].
  - apply is_some_spec. by eapply forallb_in in Hcol.
  - destruct (Index.where_ i); [|by apply not_elem_of_nil in Hc]. apply types_exist. by eapply well_typed_columns.
Qed.

(** The schema of one table changes and its rows do not. *)
Lemma complete_retable s d table T T' indexes' : complete s d → Schema.tables s !! table = Some T →
  let s' := update_table s table T' <| Schema.indexes := indexes' |> in
  (∀ r, r ∈ rows_in d table → row_ok (Table.columns T) r = true → row_ok (Table.columns T') r = true) →
  (∀ i k, Table.constraints T' !! i = Some k → Table.constraints T !! i = Some k ∨ holds d (rows_in d table) k = true) →
  (∀ m i, indexes' !! m = Some i → Schema.indexes s !! m = Some i ∨ index_holds (rows_in d (Index.table_name i)) i = true) →
  complete s' d.
Proof.
  intros [Hd Hcon] HT s' Hr Hc Hi. split.
  { rewrite Hd. cbn. rewrite dom_insert_L. apply elem_of_dom_2 in HT. set_solver. }
  intros t [U HU]. cbn in HU. destruct (decide (t = table)) as [->|Hne].
  - rewrite lookup_insert_eq in HU. injection HU as <-. eapply consistent_retable; [exact HT| |exact Hr|exact Hc| |by apply Hcon].
    + cbn. by rewrite lookup_insert_eq.
    + intros m i Hm Hti. destruct (Hi _ _ Hm) as [?|H]; [by left|right]. by rewrite Hti in H.
  - rewrite lookup_insert_ne in HU by done. eapply consistent_retable; [exact HU| |done|by left| |by apply Hcon].
    + cbn. by rewrite lookup_insert_ne.
    + intros m i Hm Hti. destruct (Hi _ _ Hm) as [?|H]; [by left|right]. by rewrite Hti in H.
Qed.

(** The rows of one table change and its schema does not. *)
Lemma complete_rerow s d table rows' : schema_ok s → complete s d → is_Some (Schema.tables s !! table) →
  consistent s (<[table := rows']> d) table = true →
  (∀ t U i k rc, t ≠ table → Schema.tables s !! t = Some U → Table.constraints U !! i = Some k → referent k = Some (table, rc) →
     still_refers d (<[table := rows']> d) table rc) →
  complete s (<[table := rows']> d).
Proof.
  intros Hs [Hd Hcon] Ht Hself Hr. split.
  { rewrite dom_insert_L, Hd. apply elem_of_dom in Ht. set_solver. }
  intros t [U HU]. destruct (decide (t = table)) as [->|Hne]; [done|].
  eapply consistent_same; [exact HU..| |done| |by apply Hcon].
  - by rewrite lookup_insert_ne.
  - intros i k t' rc Hk Href. destruct (decide (t' = table)) as [->|Hne']; [by eapply Hr|]. apply still_refers_same.
    by rewrite lookup_insert_ne.
Qed.

(** Every row of one table changes along with its columns, outside of what is declared of it. *)
Lemma complete_columns s d table T T' indexes' c f : schema_ok s → complete s d → Schema.tables s !! table = Some T →
  let s' := update_table s table T' <| Schema.indexes := indexes' |> in
  (∀ r x, x ≠ c → r !! x = f r !! x) →
  (∀ r, r ∈ rows_in d table → row_ok (Table.columns T) r = true → row_ok (Table.columns T') (f r) = true) →
  (∀ i k, Table.constraints T' !! i = Some k → Table.constraints T !! i = Some k ∧ c ∉ constraint_columns k) →
  (∀ m i, indexes' !! m = Some i → Schema.indexes s !! m = Some i ∧ (Index.table_name i = table → c ∉ index_columns i)) →
  (∀ t U i k rc, Schema.tables s !! t = Some U → Table.constraints U !! i = Some k → referent k = Some (table, rc) → c ∉ rc) →
  complete s' (<[table := f <$> rows_in d table]> d).
Proof.
  intros Hs [Hd Hcon] HT s' Hf Hrow Hc Hi Href.
  assert (∀ columns, c ∉ columns → agreeing columns (rows_in d table) (f <$> rows_in d table)) as Hag.
  { intros columns Hnot. apply agreeing_fmap. intros r x Hx. apply Hf. by intros ->. }
  assert (rows_in (<[table := f <$> rows_in d table]> d) table = f <$> rows_in d table) as Hin by (unfold rows_in; by rewrite lookup_insert_eq).
  assert (∀ t U i k t' rc, Schema.tables s !! t = Some U → Table.constraints U !! i = Some k → referent k = Some (t', rc) →
    agreeing rc (rows_in d t') (rows_in (<[table := f <$> rows_in d table]> d) t')) as Hrefs.
  { intros t U i k t' rc HU Hk Hr. destruct (decide (t' = table)) as [->|Hne].
    - rewrite Hin. apply Hag. by eapply Href.
    - unfold rows_in at 2. rewrite lookup_insert_ne by done. apply agreeing_refl. }
  split. { cbn. rewrite !dom_insert_L, Hd. done. }
  intros t [U HU]. cbn in HU. destruct (decide (t = table)) as [->|Hne].
  - specialize (Hcon table (ex_intro _ _ HT)). rewrite (consistent_spec _ _ _ _ HT) in Hcon. destruct Hcon as (Hr0 & Hc0 & Hi0).
    assert (Schema.tables s' !! table = Some T') as HT' by (cbn; by rewrite lookup_insert_eq). rewrite (consistent_spec _ _ _ _ HT'), Hin. split_and!.
    + intros r (r0 & -> & Hr)%list_elem_of_fmap. by apply Hrow, Hr0.
    + intros i k [Hk Hnot]%Hc. rewrite <- (holds_agree d _ (rows_in d table) _ k); [by eapply Hc0|by apply Hag|]. intros t' rc. by eapply Hrefs.
    + intros m i [Hm Hnot]%Hi Ht. rewrite <- (index_holds_agree (rows_in d table)); [by eapply Hi0|by apply Hag, Hnot].
  - rewrite lookup_insert_ne in HU by done. specialize (Hcon t (ex_intro _ _ HU)). rewrite (consistent_spec _ _ _ _ HU) in Hcon.
    destruct Hcon as (Hr0 & Hc0 & Hi0).
    assert (Schema.tables s' !! t = Some U) as HU' by (cbn; by rewrite lookup_insert_ne).
    assert (rows_in (<[table := f <$> rows_in d table]> d) t = rows_in d t) as Hint by (unfold rows_in; by rewrite lookup_insert_ne).
    rewrite (consistent_spec _ _ _ _ HU'), Hint. split_and!; [done| |].
    + intros i k Hk. rewrite <- (holds_agree d _ (rows_in d t) _ k); [by eapply Hc0|by apply agreeing_refl|]. intros t' rc. by eapply Hrefs.
    + intros m i [Hm _]%Hi Ht. by eapply Hi0.
Qed.
End preservation.

Section apply.
Implicit Types (s : Schema.t) (T : Table.t) (d : contents) (table name : string).

Lemma rows_in_insert d table rows : rows_in (<[table := rows]> d) table = rows.
Proof. unfold rows_in. by rewrite lookup_insert_eq. Qed.

Lemma complete_create_table s s' d name columns constraints : schema_ok s → complete s d →
  apply_schema (op.create_table name columns constraints) s = Some s' → complete s' (<[name := []]> d).
Proof.
  intros Hs [Hd Hcon] E. cbn in E. obind. subst s'.
  assert (Schema.tables s !! name = None) as Hn by (unfold is_none, is_some in *; by destruct (Schema.tables s !! name)).
  split; [cbn; by rewrite !dom_insert_L, Hd|]. intros t [U HU]. destruct (decide (t = name)) as [->|Hne].
  - rewrite (consistent_spec _ _ _ _ HU), rows_in_insert.
    split_and!; [intros r Hr; by apply not_elem_of_nil in Hr|intros; apply holds_nil|intros; apply index_holds_nil].
  - cbn in HU. rewrite lookup_insert_ne in HU by done. eapply consistent_same; [exact HU| | |done| |apply Hcon; by eexists].
    + cbn. by rewrite lookup_insert_ne.
    + by rewrite lookup_insert_ne.
    + intros i k t' rc Hk Hr. apply still_refers_same. destruct (referent_exists _ _ _ _ _ _ _ Hs HU Hk Hr) as (R & HR & _).
      rewrite lookup_insert_ne; [done|]. congruence.
Qed.

Lemma complete_drop_table s s' d name : schema_ok s → complete s d →
  apply_schema (op.drop_table name) s = Some s' → complete s' (delete name d).
Proof.
  intros Hs [Hd Hcon] E. cbn in E. obind. subst s'. match goal with H : no_constraint _ _ = true |- _ => rename H into Hno end.
  rewrite no_constraint_spec in Hno. split; [cbn; by rewrite !dom_delete_L, Hd|].
  intros t [U HU]. cbn in HU. pose proof HU as [Hne HU0]%lookup_delete_Some.
  eapply consistent_same; [exact HU0|exact HU| | | |apply Hcon; by eexists].
  - by rewrite lookup_delete_ne.
  - intros m i Hm _. cbn in Hm. by apply map_lookup_filter_Some in Hm as [? _].
  - intros i k t' rc Hk Hr. apply still_refers_same. rewrite lookup_delete_ne; [done|]. intros <-.
    specialize (Hno _ _ _ _ HU Hk). destruct k; try done. cbn in *. injection Hr as -> ->. by rewrite eqv_refl in Hno.
Qed.

Lemma update_table_indexes s name T : update_table s name T = update_table s name T <| Schema.indexes := Schema.indexes s |>.
Proof. by destruct s. Qed.

Lemma complete_add_column s s' d d' table c column : schema_ok s → complete s d →
  apply_schema (op.add_column table (c, column)) s = Some s' → apply_rows (op.add_column table (c, column)) s d = Some d' → complete s' d'.
Proof.
  intros Hs Hcom E Er. cbn in E, Er. apply bind_Some in E as (T & HT & E). apply bind_Some in Er as (rows & Hrows & Er). obind. subst s' d'.
  assert (Table.columns T !! c = None) as Hn by (unfold is_none, is_some in *; by destruct (Table.columns T !! c)).
  rewrite <- (rows_in_lookup _ _ _ Hrows), update_table_indexes. apply (complete_columns s d table T _ _ c (λ r, <[c:=default VNull (sa.server_default column)]> r)); [done..| | | | |].
  - intros r x Hx. by rewrite lookup_insert_ne.
  - intros r Hr Hok. cbn. apply row_ok_insert; [done|]. rewrite (rows_in_lookup _ _ _ Hrows) in Hr.
    match goal with H : (_ || _) = true |- _ => apply orb_true_iff in H as [H|H]; [apply eqv_eq in H; subst rows; by apply not_elem_of_nil in Hr|done] end.
  - intros i k Hk. split; [done|]. intros Hin. destruct (constraint_column_exists _ _ _ _ _ _ Hs HT Hk Hin) as [? ?]. congruence.
  - intros m i Hm. split; [done|]. intros <- Hin. destruct (index_column_exists _ _ _ _ _ Hs Hm HT Hin) as [? ?]. congruence.
  - intros t U i k rc HU Hk Hr Hin. destruct (referent_exists _ _ _ _ _ _ _ Hs HU Hk Hr) as (R & HR & Hc). simplify_eq.
    destruct (Hc _ Hin). congruence.
Qed.

Lemma complete_drop_column s s' d d' table c : schema_ok s → complete s d →
  apply_schema (op.drop_column table c) s = Some s' → apply_rows (op.drop_column table c) s d = Some d' → complete s' d'.
Proof.
  intros Hs Hcom E Er. cbn in E, Er. apply bind_Some in E as (T & HT & E). apply bind_Some in Er as (rows & Hrows & Er). obind. subst s' d'.
  match goal with H : no_constraint _ _ = true |- _ => rename H into Hno end. rewrite no_constraint_spec in Hno.
  rewrite <- (rows_in_lookup _ _ _ Hrows). apply (complete_columns s d table T _ _ c (λ r, delete c r)); [done..| | | | |].
  - intros r x Hx. by rewrite lookup_delete_ne.
  - intros r Hr Hok. cbn. by apply row_ok_delete.
  - intros i k Hk. cbn in Hk. apply map_lookup_filter_Some in Hk as [Hk Hm]. split; [done|]. cbn in Hm. unfold mentions in Hm.
    by apply bool_decide_eq_false in Hm.
  - intros m i [Hm Hmen]%map_lookup_filter_Some. split; [done|]. intros Ht Hin. cbn in Hmen. unfold index_mentions in Hmen.
    rewrite Ht, eqv_refl in Hmen. cbn in Hmen. apply orb_false_iff in Hmen as [Hm1 Hm2]. apply bool_decide_eq_false in Hm1.
    unfold index_columns in Hin. destruct (Index.where_ i); [apply bool_decide_eq_false in Hm2|]; set_solver.
  - intros t U i k rc HU Hk Hr Hin. specialize (Hno _ _ _ _ HU Hk). destruct k; try done. cbn in *. injection Hr as -> ->.
    rewrite eqv_refl in Hno. cbn in Hno. by apply bool_decide_eq_false in Hno.
Qed.

Lemma complete_update s d d' table column f : schema_ok s → complete s d → update_rows s d table column f = Some d' → complete s d'.
Proof.
  intros Hs Hcom E. unfold update_rows in E. apply bind_Some in E as (T & HT & E). apply bind_Some in E as (rows & Hrows & E). obind. subst d'.
  match goal with H : no_constraint _ _ = true |- _ => rename H into Hno end. rewrite no_constraint_spec in Hno.
  apply complete_rerow; [done|done|by eexists|done|]. intros t U i k rc _ HU Hk Hr. apply still_refers_agree.
  unfold rows_in at 2. rewrite lookup_insert_eq, (rows_in_lookup _ _ _ Hrows). cbn. apply agreeing_fmap. intros r x Hx.
  unfold assign. destruct (f r); [|done]. rewrite lookup_insert_ne; [done|]. intros <-.
  specialize (Hno _ _ _ _ HU Hk). destruct k; try done. cbn in *. injection Hr as -> ->.
  rewrite eqv_refl in Hno. cbn in Hno. by apply bool_decide_eq_false in Hno.
Qed.

Lemma complete_delete s d d' table w : schema_ok s → complete s d → apply_rows (op.delete table w) s d = Some d' → complete s d'.
Proof.
  intros Hs Hcom E. cbn in E. apply bind_Some in E as (rows & Hrows & E). obind. subst d'.
  match goal with H : no_constraint _ _ = true |- _ => rename H into Hno end. rewrite no_constraint_spec in Hno.
  assert (is_Some (Schema.tables s !! table)) as [T HT].
  { apply elem_of_dom. rewrite <- (proj1 Hcom). by eapply elem_of_dom_2. }
  assert (∀ t U i k rc, Schema.tables s !! t = Some U → Table.constraints U !! i = Some k → referent k ≠ Some (table, rc)) as Hnone.
  { intros t U i k rc HU Hk Hr. specialize (Hno _ _ _ _ HU Hk). destruct k; try done. cbn in *. injection Hr as -> ->. by rewrite eqv_refl in Hno. }
  apply complete_rerow; [done|done|by eexists| |].
  - pose proof (proj2 Hcom table (ex_intro _ _ HT)) as Hc. rewrite (consistent_spec _ _ _ _ HT) in Hc. rewrite (consistent_spec _ _ _ _ HT). destruct Hc as (Hr0 & Hc0 & Hi0).
    rewrite rows_in_insert. rewrite (rows_in_lookup _ _ _ Hrows) in *. split_and!.
    + intros r [_ Hr]%list_elem_of_filter. by apply Hr0.
    + intros i k Hk. eapply holds_sublist; [apply filter_sublist|]. eapply holds_referents; [|by eapply Hc0]. intros t' rc Hr.
      apply still_refers_same. rewrite lookup_insert_ne; [done|]. intros <-. by eapply Hnone.
    + intros m i Hm Ht. eapply index_holds_sublist; [apply filter_sublist|]. by eapply Hi0.
  - intros t U i k rc _ HU Hk Hr. by destruct (Hnone _ _ _ _ rc HU Hk).
Qed.

Lemma apply_complete o s s' d d' : schema_ok s → complete s d → apply_schema o s = Some s' → apply_rows o s d = Some d' → complete s' d'.
Proof.
  intros Hs Hcom E Er. destruct o.
  - cbn in Er. injection Er as <-. by eapply complete_create_table.
  - cbn in Er. injection Er as <-. by eapply complete_drop_table.
  - cbn in E, Er. apply bind_Some in E as (T & HT & E). obind. subst s' d'. destruct Hcom as [Hd Hcon]. split; [done|].
    intros t [U HU]. cbn in HU. eapply consistent_retable; [exact HU|exact HU|done|by left| |apply Hcon; by eexists].
    intros m i Hm Ht. cbn in Hm. apply lookup_insert_Some in Hm as [[_ <-]|[_ Hm]]; [|by left]. right. cbn in Ht. by subst t.
  - cbn in E, Er. obind. subst s' d'. destruct Hcom as [Hd Hcon]. split; [done|].
    intros t [U HU]. cbn in HU. eapply consistent_retable; [exact HU|exact HU|done|by left| |apply Hcon; by eexists].
    intros m i Hm _. cbn in Hm. apply lookup_delete_Some in Hm as [_ Hm]. by left.
  - destruct column as [c column]. by eapply complete_add_column.
  - by eapply complete_drop_column.
  - cbn in E, Er. apply bind_Some in E as (T & HT & E). apply bind_Some in E as (col & Hcol & E). obind. subst s' d'.
    rewrite update_table_indexes. eapply complete_retable; [done|done| |by left|by left]. intros r Hr Hok. eapply row_ok_retype; [done..|].
    cbn. intros -> _ Hv. cbn in *. match goal with H : forallb _ (rows_in _ _) = true |- _ => eapply forallb_in in H; [|exact Hr]; by rewrite Hv in H end.
  - cbn in E, Er. apply bind_Some in E as (T & HT & E). apply bind_Some in E as (col & Hcol & E). obind. subst s' d'.
    rewrite update_table_indexes. eapply complete_retable; [done|done| |by left|by left]. intros r Hr Hok. eapply row_ok_retype; [done..|].
    cbn. intros -> Hv. done.
  - cbn in E, Er. apply bind_Some in E as (T & HT & E). obind. subst s' d'. rewrite update_table_indexes.
    eapply complete_retable; [done|done|done| |by left]. intros i k' Hk. cbn in Hk. apply lookup_insert_Some in Hk as [[_ <-]|[_ Hk]]; [by right|by left].
  - cbn in E, Er. apply bind_Some in E as (T & HT & E). obind. subst s' d'. rewrite update_table_indexes.
    eapply complete_retable; [done|done|done| |by left]. intros i k' Hk. cbn in Hk. apply lookup_delete_Some in Hk as [_ Hk]. by left.
  - cbn in E, Er. obind. by subst s' d'.
  - cbn in E, Er. obind. by subst s' d'.
  - cbn in E, Er. apply bind_Some in E as (T & HT & E). apply bind_Some in E as (body & Hb & E). obind. by subst s' d'.
  - cbn in E, Er. obind. by subst s' d'.
  - cbn in E, Er. apply bind_Some in E as (T & HT & E). injection E as <-. apply bind_Some in Er as (T' & HT' & Er). simplify_eq.
    apply bind_Some in Er as (rows & Hrows & Er). obind. subst d'. apply complete_rerow; [done|done|by eexists|done|].
    intros t U i k rc _ _ _ _. eapply still_refers_more. unfold rows_in. rewrite lookup_insert_eq, Hrows. done.
  - cbn in E. apply bind_Some in E as (T & HT & E). injection E as <-. by eapply complete_delete.
  - cbn in E, Er. apply bind_Some in E as (T & HT & E). obind. subst s'. by eapply complete_update.
  - cbn in E, Er. apply bind_Some in E as (T & HT & E). obind. subst s'. by eapply complete_update.
Qed.

Lemma valid_complete (d : Database.t) : valid d ↔ schema_ok (Database.schema d) ∧ complete (Database.schema d) (Database.rows d).
Proof. split; [intros [Hs Hd Hr]; by split|intros [Hs [Hd Hr]]; by split]. Qed.

Lemma apply_valid o (d d' : Database.t) : valid d → execute o d = Some d' → valid d'.
Proof.
  rewrite !valid_complete. intros [Hs Hc] E. unfold execute in E. apply bind_Some in E as (s' & Es & E). apply bind_Some in E as (r & Er & E).
  injection E as <-. cbn. split; [by eapply apply_schema_ok|by eapply apply_complete].
Qed.
Lemma applies_valid ops (d d' : Database.t) : valid d → executes ops d = Some d' → valid d'.
Proof.
  revert d. induction ops as [|o ops IH]; intros d Hv E; [by injection E as <-|]. cbn in E. apply bind_Some in E as (d1 & E1 & E).
  eapply IH, E. by eapply apply_valid.
Qed.
End apply.

(** ** Conditions evaluate *)

Lemma eval_term_total columns r t k : row_ok columns r = true → term_kind (sa.type_ <$> columns) t = Some k →
  ∃ v, eval_term r t = Some v ∧ has_kind k v = true.
Proof.
  intros Hr. revert k. induction t as [c|x|z|t IH|t IH]; cbn; intros k Hk.
  - rewrite lookup_fmap in Hk. destruct (columns !! c) as [column|] eqn:E; [|done]. injection Hk as <-.
    destruct (row_ok_value _ _ _ _ Hr E) as (v & Hv & Hok). exists v. split; [done|]. unfold value_ok, fits in Hok.
    by repeat (apply andb_true_iff in Hok as [Hok ?]).
  - injection Hk as <-. by eexists.
  - injection Hk as <-. by eexists.
  - destruct (term_kind _ t) as [k'|]; [|done]. cbn in Hk. destruct (eqv k' KString) eqn:E; [|done]. apply eqv_eq in E as ->. injection Hk as <-.
    destruct (IH _ eq_refl) as (v & -> & Hv). destruct v; try done; by eexists.
  - destruct (term_kind _ t) as [k'|]; [|done]. cbn in Hk. destruct (eqv k' KString) eqn:E; [|done]. apply eqv_eq in E as ->. injection Hk as <-.
    destruct (IH _ eq_refl) as (v & -> & Hv). destruct v; try done; by eexists.
Qed.

Lemma eval_total columns r c : row_ok columns r = true → well_typed (sa.type_ <$> columns) c = true → is_Some (eval r c).
Proof.
  intros Hr. induction c as [o a b|a l|a l|x|x|p IHp q IHq|p IHp q IHq|p IHp q IHq]; cbn; intros Hw.
  - destruct (term_kind _ a) as [k|] eqn:Ea; [|done]. destruct (term_kind _ b) as [k'|] eqn:Eb; [|done]. apply andb_true_iff in Hw as [Hkk Hcmp].
    apply eqv_eq in Hkk as <-. destruct (eval_term_total _ _ _ _ Hr Ea) as (v & -> & Hv), (eval_term_total _ _ _ _ Hr Eb) as (w & -> & Hw').
    cbn. destruct k, o, v, w; try done; by eexists.
  - apply eqv_eq in Hw. destruct (eval_term_total _ _ _ _ Hr Hw) as (v & -> & Hv). cbn. destruct v; try done; by eexists.
  - apply eqv_eq in Hw. destruct (eval_term_total _ _ _ _ Hr Hw) as (v & -> & Hv). cbn. destruct v; try done; by eexists.
  - rewrite lookup_fmap in Hw. destruct (columns !! x) as [column|] eqn:E; [|done]. destruct (row_ok_value _ _ _ _ Hr E) as (v & -> & _). by eexists.
  - rewrite lookup_fmap in Hw. destruct (columns !! x) as [column|] eqn:E; [|done]. destruct (row_ok_value _ _ _ _ Hr E) as (v & -> & _). by eexists.
  - apply andb_true_iff in Hw as [Hp Hq]. destruct (IHp Hp) as [? ->], (IHq Hq) as [? ->]. by eexists.
  - apply andb_true_iff in Hw as [Hp Hq]. destruct (IHp Hp) as [? ->], (IHq Hq) as [? ->]. by eexists.
  - apply andb_true_iff in Hw as [Hp Hq]. destruct (IHp Hp) as [? ->], (IHq Hq) as [? ->]. by eexists.
Qed.

(** An operation that succeeds on a valid database - every foreign key stands on a key
    of columns of the same types, every condition is well typed, every row fits its columns
    and satisfies every constraint and unique index - leaves a valid one; and on the rows of
    a valid database every well-typed condition, which all declared ones are, evaluates
    without an error. *)
Theorem operations_preserve_types ops (d d' : Database.t) : valid d → executes ops d = Some d' →
  valid d' ∧ ∀ table T r w, Schema.tables (Database.schema d') !! table = Some T → r ∈ rows_in (Database.rows d') table →
    (well_typed (Table.types T) w = true ∨ ∃ i name, Table.constraints T !! i = Some (sa.CheckConstraint name w)) →
    is_Some (eval r w).
Proof.
  intros Hv E. pose proof (applies_valid _ _ _ Hv E) as Hv'. split; [done|]. intros table T r w HT Hr Hw.
  destruct Hv' as [Hs Hd Hrows]. assert (well_typed (Table.types T) w = true) as Hwt.
  { destruct Hw as [?|(i & name & Hi)]; [done|]. destruct (schema_constraints _ Hs _ _ _ _ HT Hi) as [Hok _].
    unfold constraint_ok in Hok. by apply andb_true_iff in Hok as [_ Hok]. }
  specialize (Hrows _ (ex_intro _ _ HT)). rewrite (consistent_spec _ _ _ _ HT) in Hrows. destruct Hrows as [Hrow _].
  eapply eval_total; [by apply Hrow|done].
Qed.
