(* ===== verification/Migrations.v ===== *)
(** The migrations of migrations/versions, each with its [upgrade] and [downgrade] as the
    list of the operations they call. *)
From S2P Require Import Prelude Ddl.
From stdpp Require Import strings gmap.
Local Open Scope Z_scope.
Local Open Scope string_scope.
Local Open Scope list_scope.

Definition NOT_NULL : bool := false.
Definition NULLABLE : bool := true.

(** *** 20260905_0001_identity_audit.py: Create workspace identity, secret binding, and audit tables. *)

Module Identity_audit.
Definition revision : option string := Some "20260905_0001".
Definition down_revision : option string := None.
Definition create_users : op.operation :=
  op.create_table "users"
    [sa.Column "id" sa.Uuid NOT_NULL;
     sa.Column "oidc_issuer" (sa.String 512) NOT_NULL;
     sa.Column "oidc_subject" (sa.String 512) NOT_NULL;
     sa.Column "display_name" (sa.String 256) NULLABLE;
     sa.Column "created_at" sa.DateTime NOT_NULL]
    [sa.PrimaryKeyConstraint ["id"];
     sa.UniqueConstraint None ["oidc_issuer"; "oidc_subject"]]%sql.
Definition create_workspaces : op.operation :=
  op.create_table "workspaces"
    [sa.Column "id" sa.Uuid NOT_NULL;
     sa.Column "name" (sa.String 128) NOT_NULL;
     sa.Column "created_at" sa.DateTime NOT_NULL]
    [sa.PrimaryKeyConstraint ["id"]]%sql.
Definition create_workspace_memberships : op.operation :=
  op.create_table "workspace_memberships"
    [sa.Column "workspace_id" sa.Uuid NOT_NULL;
     sa.Column "user_id" sa.Uuid NOT_NULL;
     sa.Column "role" (sa.String 16) NOT_NULL;
     sa.Column "created_at" sa.DateTime NOT_NULL]
    [sa.CheckConstraint "ck_membership_role" ("role" IN ["admin"; "operator"; "viewer"]);
     sa.ForeignKeyConstraint None ["user_id"] "users" ["id"] sa.RESTRICT false;
     sa.ForeignKeyConstraint None ["workspace_id"] "workspaces" ["id"] sa.CASCADE false;
     sa.PrimaryKeyConstraint ["workspace_id"; "user_id"]]%sql.
Definition create_secret_bindings : op.operation :=
  op.create_table "secret_bindings"
    [sa.Column "id" sa.Uuid NOT_NULL;
     sa.Column "workspace_id" sa.Uuid NOT_NULL;
     sa.Column "provider" (sa.String 32) NOT_NULL;
     sa.Column "external_reference" (sa.String 256) NOT_NULL;
     sa.Column "version" (sa.String 128) NOT_NULL;
     sa.Column "created_by_user_id" sa.Uuid NOT_NULL;
     sa.Column "created_at" sa.DateTime NOT_NULL]
    [sa.CheckConstraint "ck_secret_provider" ("provider" IN ["fixture"; "mounted_file"]);
     sa.ForeignKeyConstraint None ["created_by_user_id"] "users" ["id"] sa.RESTRICT false;
     sa.ForeignKeyConstraint None ["workspace_id"] "workspaces" ["id"] sa.CASCADE false;
     sa.PrimaryKeyConstraint ["id"];
     sa.UniqueConstraint None ["workspace_id"; "provider"; "external_reference"; "version"]]%sql.
Definition create_audit_events : op.operation :=
  op.create_table "audit_events"
    [sa.Column "id" sa.Uuid NOT_NULL;
     sa.Column "workspace_id" sa.Uuid NOT_NULL;
     sa.Column "actor_user_id" sa.Uuid NOT_NULL;
     sa.Column "action" (sa.String 64) NOT_NULL;
     sa.Column "resource_type" (sa.String 32) NOT_NULL;
     sa.Column "resource_id" sa.Uuid NOT_NULL;
     sa.Column "outcome" (sa.String 16) NOT_NULL;
     sa.Column "correlation_id" sa.Uuid NOT_NULL;
     sa.Column "occurred_at" sa.DateTime NOT_NULL]
    [sa.CheckConstraint "ck_audit_outcome" ("outcome" IN ["succeeded"; "denied"; "failed"]);
     sa.CheckConstraint "ck_audit_action" ("action" IN ["workspace.created"; "membership.changed"; "secret_binding.created"]);
     sa.CheckConstraint "ck_audit_resource_type" ("resource_type" IN ["workspace"; "membership"; "secret_binding"]);
     sa.ForeignKeyConstraint None ["actor_user_id"] "users" ["id"] sa.RESTRICT false;
     sa.ForeignKeyConstraint None ["workspace_id"] "workspaces" ["id"] sa.CASCADE false;
     sa.PrimaryKeyConstraint ["id"]]%sql.
Definition upgrade : list op.operation :=
  ([ create_users;
      create_workspaces;
      create_workspace_memberships;
      create_secret_bindings;
      create_audit_events;
      op.create_index "ix_audit_workspace_time_id" "audit_events" ["workspace_id"; "occurred_at"; "id"] false None ])%sql.
Definition downgrade : list op.operation :=
  ([ op.drop_index "ix_audit_workspace_time_id" "audit_events";
      op.drop_table "audit_events";
      op.drop_table "secret_bindings";
      op.drop_table "workspace_memberships";
      op.drop_table "workspaces";
      op.drop_table "users" ])%sql.
End Identity_audit.

(** *** 20260905_0002_registry_domain.py: Create registry identities, immutable versions, and lifecycle projections. *)

Module Registry_domain.
Definition revision : option string := Some "20260905_0002".
Definition down_revision : option string := Some "20260905_0001".
Definition create_registry_entries : op.operation :=
  op.create_table "registry_entries"
    [sa.Column "id" sa.Uuid NOT_NULL;
     sa.Column "workspace_id" sa.Uuid NOT_NULL;
     sa.Column "source" (sa.String 16) NOT_NULL;
     sa.Column "external_id" (sa.String 256) NULLABLE;
     sa.Column "current_version_id" sa.Uuid NULLABLE;
     sa.Column "created_at" sa.DateTime NOT_NULL]
    [sa.CheckConstraint "ck_registry_entry_official_external_id" (("source" <> sa.Lit "official") OR (("external_id" IS_NOT_NULL)
        AND (sa.Length (sa.Trim "external_id") > 0)));
     sa.CheckConstraint "ck_registry_entry_source" ("source" IN ["manual"; "official"]);
     sa.ForeignKeyConstraint None ["workspace_id"] "workspaces" ["id"] sa.CASCADE false;
     sa.PrimaryKeyConstraint ["id"];
     sa.UniqueConstraint None ["workspace_id"; "id"];
     sa.UniqueConstraint None ["workspace_id"; "source"; "external_id"]]%sql.
Definition create_registry_entry_versions : op.operation :=
  op.create_table "registry_entry_versions"
    [sa.Column "id" sa.Uuid NOT_NULL;
     sa.Column "workspace_id" sa.Uuid NOT_NULL;
     sa.Column "registry_entry_id" sa.Uuid NOT_NULL;
     sa.Column "sequence" sa.Integer NOT_NULL;
     sa.Column "name" (sa.String 256) NOT_NULL;
     sa.Column "description" (sa.String 2048) NULLABLE;
     sa.Column "provenance_digest" (sa.String 64) NOT_NULL;
     sa.Column "created_at" sa.DateTime NOT_NULL]
    [sa.ForeignKeyConstraint None ["workspace_id"; "registry_entry_id"] "registry_entries" ["workspace_id"; "id"] sa.CASCADE
        false;
     sa.ForeignKeyConstraint None ["workspace_id"] "workspaces" ["id"] sa.CASCADE false;
     sa.PrimaryKeyConstraint ["id"];
     sa.UniqueConstraint None ["workspace_id"; "id"];
     sa.UniqueConstraint None ["registry_entry_id"; "id"];
     sa.UniqueConstraint None ["registry_entry_id"; "sequence"]]%sql.
Definition create_server_connections : op.operation :=
  op.create_table "server_connections"
    [sa.Column "id" sa.Uuid NOT_NULL;
     sa.Column "workspace_id" sa.Uuid NOT_NULL;
     sa.Column "name" (sa.String 128) NOT_NULL;
     sa.Column "lifecycle" (sa.String 16) NOT_NULL;
     sa.Column "pending_version_id" sa.Uuid NULLABLE;
     sa.Column "verified_version_id" sa.Uuid NULLABLE;
     sa.Column "control_epoch" sa.Integer NOT_NULL;
     sa.Column "refresh_generation" sa.Integer NOT_NULL;
     sa.Column "allocated_control_epoch" sa.Integer NULLABLE;
     sa.Column "allocated_target_version_id" sa.Uuid NULLABLE;
     sa.Column "created_by_user_id" sa.Uuid NOT_NULL;
     sa.Column "created_at" sa.DateTime NOT_NULL]
    [sa.CheckConstraint "ck_connection_control_epoch" ("control_epoch" >= 0);
     sa.CheckConstraint "ck_connection_refresh_generation" ("refresh_generation" >= 0);
     sa.CheckConstraint "ck_connection_refresh_allocation" ((("refresh_generation" = 0) AND ("allocated_control_epoch" IS_NULL)
         AND ("allocated_target_version_id" IS_NULL)) OR (("refresh_generation" > 0) AND ((("allocated_control_epoch" IS_NULL)
         AND ("allocated_target_version_id" IS_NULL)) OR (("allocated_control_epoch" IS_NOT_NULL) AND
         ("allocated_target_version_id" IS_NOT_NULL)))));
     sa.CheckConstraint "ck_connection_allocated_control_epoch" (("allocated_control_epoch" IS_NULL) OR
         ("allocated_control_epoch" >= 0));
     sa.CheckConstraint "ck_connection_lifecycle" ("lifecycle" IN ["verifying"; "active"; "degraded"; "disabled"]);
     sa.CheckConstraint "ck_connection_has_version" (("pending_version_id" IS_NOT_NULL) OR ("verified_version_id" IS_NOT_NULL));
     sa.CheckConstraint "ck_connection_distinct_version_pointers" (("pending_version_id" IS_NULL) OR ("pending_version_id" <>
         "verified_version_id"));
     sa.ForeignKeyConstraint None ["created_by_user_id"] "users" ["id"] sa.RESTRICT false;
     sa.ForeignKeyConstraint None ["workspace_id"] "workspaces" ["id"] sa.CASCADE false;
     sa.PrimaryKeyConstraint ["id"];
     sa.UniqueConstraint None ["workspace_id"; "id"]]%sql.
Definition create_server_connection_versions : op.operation :=
  op.create_table "server_connection_versions"
    [sa.Column "id" sa.Uuid NOT_NULL;
     sa.Column "workspace_id" sa.Uuid NOT_NULL;
     sa.Column "connection_id" sa.Uuid NOT_NULL;
     sa.Column "sequence" sa.Integer NOT_NULL;
     sa.Column "endpoint_url" (sa.String 2048) NOT_NULL;
     sa.Column "secret_binding_id" sa.Uuid NULLABLE;
     sa.Column "transport" (sa.String 32) NOT_NULL;
     sa.Column "policy_version" (sa.String 64) NOT_NULL;
     sa.Column "created_by_user_id" sa.Uuid NOT_NULL;
     sa.Column "created_at" sa.DateTime NOT_NULL]
    [sa.CheckConstraint "ck_connection_version_sequence" ("sequence" > 0);
     sa.CheckConstraint "ck_connection_transport" ("transport" = sa.Lit "streamable_http");
     sa.ForeignKeyConstraint None ["created_by_user_id"] "users" ["id"] sa.RESTRICT false;
     sa.ForeignKeyConstraint None ["workspace_id"; "connection_id"] "server_connections" ["workspace_id"; "id"] sa.CASCADE false;
     sa.ForeignKeyConstraint None ["workspace_id"; "secret_binding_id"] "secret_bindings" ["workspace_id"; "id"] sa.NO_ACTION
         true;
     sa.ForeignKeyConstraint None ["workspace_id"] "workspaces" ["id"] sa.CASCADE false;
     sa.PrimaryKeyConstraint ["id"];
     sa.UniqueConstraint None ["workspace_id"; "id"];
     sa.UniqueConstraint None ["connection_id"; "id"];
     sa.UniqueConstraint None ["connection_id"; "sequence"]]%sql.
Definition create_capabilities : op.operation :=
  op.create_table "capabilities"
    [sa.Column "id" sa.Uuid NOT_NULL;
     sa.Column "workspace_id" sa.Uuid NOT_NULL;
     sa.Column "connection_id" sa.Uuid NOT_NULL;
     sa.Column "tool_identity" (sa.String 256) NOT_NULL;
     sa.Column "pending_version_id" sa.Uuid NULLABLE;
     sa.Column "enabled_version_id" sa.Uuid NULLABLE;
     sa.Column "status" (sa.String 24) NOT_NULL;
     sa.Column "status_epoch" sa.Integer NOT_NULL;
     sa.Column "created_at" sa.DateTime NOT_NULL]
    [sa.CheckConstraint "ck_capability_status_epoch" ("status_epoch" >= 0);
     sa.CheckConstraint "ck_capability_status" ("status" IN ["pending_review"; "enabled"; "disabled"; "unavailable"]);
     sa.CheckConstraint "ck_capability_distinct_version_pointers" (("pending_version_id" IS_NULL) OR ("pending_version_id" <>
         "enabled_version_id"));
     sa.CheckConstraint "ck_capability_enabled_projection" (("status" <> sa.Lit "enabled") OR (("enabled_version_id" IS_NOT_NULL)
         AND ("pending_version_id" IS_NULL)));
     sa.CheckConstraint "ck_capability_pending_projection" (("status" <> sa.Lit "pending_review") OR ("pending_version_id"
         IS_NOT_NULL));
     sa.ForeignKeyConstraint None ["workspace_id"; "connection_id"] "server_connections" ["workspace_id"; "id"] sa.CASCADE false;
     sa.ForeignKeyConstraint None ["workspace_id"] "workspaces" ["id"] sa.CASCADE false;
     sa.PrimaryKeyConstraint ["id"];
     sa.UniqueConstraint None ["connection_id"; "tool_identity"];
     sa.UniqueConstraint None ["connection_id"; "id"];
     sa.UniqueConstraint None ["workspace_id"; "id"]]%sql.
Definition create_capability_versions : op.operation :=
  op.create_table "capability_versions"
    [sa.Column "id" sa.Uuid NOT_NULL;
     sa.Column "workspace_id" sa.Uuid NOT_NULL;
     sa.Column "capability_id" sa.Uuid NOT_NULL;
     sa.Column "sequence" sa.Integer NOT_NULL;
     sa.Column "display_name" (sa.String 256) NOT_NULL;
     sa.Column "description" (sa.String 2048) NULLABLE;
     sa.Column "input_schema" sa.JSON NOT_NULL;
     sa.Column "output_schema" sa.JSON NULLABLE;
     sa.Column "metadata_digest" (sa.String 64) NOT_NULL;
     sa.Column "created_at" sa.DateTime NOT_NULL]
    [sa.CheckConstraint "ck_capability_version_sequence" ("sequence" > 0);
     sa.ForeignKeyConstraint None ["workspace_id"; "capability_id"] "capabilities" ["workspace_id"; "id"] sa.CASCADE false;
     sa.ForeignKeyConstraint None ["workspace_id"] "workspaces" ["id"] sa.CASCADE false;
     sa.PrimaryKeyConstraint ["id"];
     sa.UniqueConstraint None ["workspace_id"; "id"];
     sa.UniqueConstraint None ["capability_id"; "id"];
     sa.UniqueConstraint None ["capability_id"; "sequence"]]%sql.
Definition create_mcp_tool_bindings : op.operation :=
  op.create_table "mcp_tool_bindings"
    [sa.Column "capability_version_id" sa.Uuid NOT_NULL;
     sa.Column "capability_id" sa.Uuid NOT_NULL;
     sa.Column "workspace_id" sa.Uuid NOT_NULL;
     sa.Column "connection_id" sa.Uuid NOT_NULL;
     sa.Column "connection_version_id" sa.Uuid NOT_NULL;
     sa.Column "tool_name" (sa.String 256) NOT_NULL;
     sa.Column "protocol_revision" (sa.String 64) NOT_NULL]
    [sa.ForeignKeyConstraint None ["workspace_id"; "capability_version_id"] "capability_versions" ["workspace_id"; "id"]
        sa.CASCADE false;
     sa.ForeignKeyConstraint None ["workspace_id"; "connection_version_id"] "server_connection_versions" ["workspace_id"; "id"]
         sa.NO_ACTION true;
     sa.ForeignKeyConstraint None ["capability_id"; "capability_version_id"] "capability_versions" ["capability_id"; "id"]
         sa.CASCADE false;
     sa.ForeignKeyConstraint None ["connection_id"; "capability_id"] "capabilities" ["connection_id"; "id"] sa.CASCADE false;
     sa.ForeignKeyConstraint None ["connection_id"; "connection_version_id"] "server_connection_versions" ["connection_id"; "id"]
         sa.NO_ACTION true;
     sa.ForeignKeyConstraint None ["workspace_id"] "workspaces" ["id"] sa.CASCADE false;
     sa.PrimaryKeyConstraint ["capability_version_id"]]%sql.
Definition create_capability_status_events : op.operation :=
  op.create_table "capability_status_events"
    [sa.Column "id" sa.Uuid NOT_NULL;
     sa.Column "workspace_id" sa.Uuid NOT_NULL;
     sa.Column "capability_id" sa.Uuid NOT_NULL;
     sa.Column "capability_version_id" sa.Uuid NULLABLE;
     sa.Column "status" (sa.String 24) NOT_NULL;
     sa.Column "status_epoch" sa.Integer NOT_NULL;
     sa.Column "actor_user_id" sa.Uuid NOT_NULL;
     sa.Column "created_at" sa.DateTime NOT_NULL]
    [sa.CheckConstraint "ck_capability_status_event_epoch" ("status_epoch" > 0);
     sa.CheckConstraint "ck_capability_status_event_status" ("status" IN ["pending_review"; "enabled"; "disabled";
         "unavailable"]);
     sa.ForeignKeyConstraint None ["actor_user_id"] "users" ["id"] sa.RESTRICT false;
     sa.ForeignKeyConstraint None ["workspace_id"; "capability_id"] "capabilities" ["workspace_id"; "id"] sa.CASCADE false;
     sa.ForeignKeyConstraint None ["capability_id"; "capability_version_id"] "capability_versions" ["capability_id"; "id"]
         sa.NO_ACTION true;
     sa.ForeignKeyConstraint None ["workspace_id"] "workspaces" ["id"] sa.CASCADE false;
     sa.PrimaryKeyConstraint ["id"];
     sa.UniqueConstraint None ["capability_id"; "status_epoch"]]%sql.
Definition triggers : list op.operation :=
  ([ op.create_function "modall_reject_immutable_update" [Always] ]
    ++ ((λ table, op.create_trigger (table +:+ "_immutable") [UPDATE] table "modall_reject_immutable_update") <$>
        ["secret_bindings"; "registry_entry_versions"; "server_connection_versions"; "capability_versions"; "mcp_tool_bindings";
        "capability_status_events"])
    ++ [ op.create_function "modall_reject_binding_delete" [Parent_exists "capability_versions" "capability_version_id"];
      op.create_trigger "mcp_tool_bindings_immutable_delete" [DELETE] "mcp_tool_bindings" "modall_reject_binding_delete";
      op.create_function "modall_reject_capability_identity_update" [Changed ["workspace_id"; "connection_id"; "tool_identity"]];
      op.create_trigger "capabilities_immutable_identity" [UPDATE] "capabilities" "modall_reject_capability_identity_update";
      op.create_function "modall_reject_status_event_delete" [Parent_exists "capabilities" "capability_id"];
      op.create_trigger "capability_status_events_immutable_delete" [DELETE] "capability_status_events"
          "modall_reject_status_event_delete";
      op.create_function "modall_reject_registry_entry_identity_update" [Unidentified "source" "official" "external_id"; Changed
          ["workspace_id"; "source"; "external_id"]];
      op.create_trigger "registry_entries_immutable_identity" [INSERT; UPDATE] "registry_entries"
          "modall_reject_registry_entry_identity_update" ])%sql.
Definition upgrade : list op.operation :=
  ([ op.create_unique_constraint "uq_secret_binding_workspace_id" "secret_bindings" ["workspace_id"; "id"];
      op.drop_constraint "ck_audit_action" "audit_events" "check";
      op.drop_constraint "ck_audit_resource_type" "audit_events" "check";
      op.create_check_constraint "ck_audit_action" "audit_events" ("action" IN ["workspace.created"; "membership.changed";
          "secret_binding.created"; "connection.created"; "connection.version_appended"; "connection.verified";
          "connection.disabled"; "connection.enabled"; "capability.version_recorded"; "capability.enabled";
          "capability.disabled"]);
      op.create_check_constraint "ck_audit_resource_type" "audit_events" ("resource_type" IN ["workspace"; "membership";
          "secret_binding"; "server_connection"; "capability"]);
      create_registry_entries;
      create_registry_entry_versions;
      op.create_foreign_key "fk_registry_entry_current_version" "registry_entries" "registry_entry_versions" ["id";
          "current_version_id"] ["registry_entry_id"; "id"] sa.NO_ACTION true;
      create_server_connections;
      create_server_connection_versions;
      op.create_foreign_key "fk_connection_pending_version" "server_connections" "server_connection_versions" ["id";
          "pending_version_id"] ["connection_id"; "id"] sa.NO_ACTION true;
      op.create_foreign_key "fk_connection_verified_version" "server_connections" "server_connection_versions" ["id";
          "verified_version_id"] ["connection_id"; "id"] sa.NO_ACTION true;
      op.create_foreign_key "fk_connection_allocated_target_version" "server_connections" "server_connection_versions" ["id";
          "allocated_target_version_id"] ["connection_id"; "id"] sa.NO_ACTION true;
      create_capabilities;
      create_capability_versions;
      op.create_foreign_key "fk_capability_pending_version" "capabilities" "capability_versions" ["id"; "pending_version_id"]
          ["capability_id"; "id"] sa.NO_ACTION true;
      op.create_foreign_key "fk_capability_enabled_version" "capabilities" "capability_versions" ["id"; "enabled_version_id"]
          ["capability_id"; "id"] sa.NO_ACTION true;
      create_mcp_tool_bindings;
      create_capability_status_events ]
    ++ triggers)%sql.
Definition downgrade : list op.operation :=
  ([ op.drop_trigger "registry_entries_immutable_identity" "registry_entries";
      op.drop_function "modall_reject_registry_entry_identity_update";
      op.drop_trigger "capability_status_events_immutable_delete" "capability_status_events";
      op.drop_function "modall_reject_status_event_delete";
      op.drop_trigger "capabilities_immutable_identity" "capabilities";
      op.drop_function "modall_reject_capability_identity_update";
      op.drop_trigger "mcp_tool_bindings_immutable_delete" "mcp_tool_bindings";
      op.drop_function "modall_reject_binding_delete" ]
    ++ ((λ table, op.drop_trigger (table +:+ "_immutable") table) <$> ["secret_bindings"; "registry_entry_versions";
        "server_connection_versions"; "capability_versions"; "mcp_tool_bindings"; "capability_status_events"])
    ++ [ op.drop_function "modall_reject_immutable_update";
      op.drop_table "capability_status_events";
      op.drop_table "mcp_tool_bindings";
      op.drop_constraint "fk_capability_enabled_version" "capabilities" "foreignkey";
      op.drop_constraint "fk_capability_pending_version" "capabilities" "foreignkey";
      op.drop_table "capability_versions";
      op.drop_table "capabilities";
      op.drop_constraint "fk_connection_verified_version" "server_connections" "foreignkey";
      op.drop_constraint "fk_connection_pending_version" "server_connections" "foreignkey";
      op.drop_constraint "fk_connection_allocated_target_version" "server_connections" "foreignkey";
      op.drop_table "server_connection_versions";
      op.drop_table "server_connections";
      op.drop_constraint "fk_registry_entry_current_version" "registry_entries" "foreignkey";
      op.drop_table "registry_entry_versions";
      op.drop_table "registry_entries";
      op.drop_constraint "ck_audit_resource_type" "audit_events" "check";
      op.drop_constraint "ck_audit_action" "audit_events" "check";
      op.delete "audit_events" ("action" IN ["connection.created"; "connection.version_appended"; "connection.verified";
          "connection.disabled"; "connection.enabled"; "capability.version_recorded"; "capability.enabled";
          "capability.disabled"]);
      op.create_check_constraint "ck_audit_action" "audit_events" ("action" IN ["workspace.created"; "membership.changed";
          "secret_binding.created"]);
      op.create_check_constraint "ck_audit_resource_type" "audit_events" ("resource_type" IN ["workspace"; "membership";
          "secret_binding"]);
      op.drop_constraint "uq_secret_binding_workspace_id" "secret_bindings" "unique" ])%sql.
End Registry_domain.

(** *** 20260905_0003_discovery.py: Add immutable discovery payloads and per-refresh observations. *)

Module Discovery.
Definition revision : option string := Some "20260905_0003".
Definition down_revision : option string := Some "20260905_0002".
Definition create_discovery_payloads : op.operation :=
  op.create_table "discovery_payloads"
    [sa.Column "id" sa.Uuid NOT_NULL;
     sa.Column "workspace_id" sa.Uuid NOT_NULL;
     sa.Column "canonical_digest" (sa.String 64) NOT_NULL;
     sa.Column "normalized_payload" sa.JSON NOT_NULL;
     sa.Column "byte_count" sa.Integer NOT_NULL;
     sa.Column "created_at" sa.DateTime NOT_NULL]
    [sa.CheckConstraint "ck_discovery_payload_byte_count" ("byte_count" > 0);
     sa.ForeignKeyConstraint None ["workspace_id"] "workspaces" ["id"] sa.CASCADE false;
     sa.PrimaryKeyConstraint ["id"];
     sa.UniqueConstraint None ["workspace_id"; "id"];
     sa.UniqueConstraint None ["workspace_id"; "canonical_digest"]]%sql.
Definition create_discovery_snapshots : op.operation :=
  op.create_table "discovery_snapshots"
    [sa.Column "id" sa.Uuid NOT_NULL;
     sa.Column "workspace_id" sa.Uuid NOT_NULL;
     sa.Column "connection_id" sa.Uuid NOT_NULL;
     sa.Column "connection_version_id" sa.Uuid NOT_NULL;
     sa.Column "payload_id" sa.Uuid NOT_NULL;
     sa.Column "generation" sa.Integer NOT_NULL;
     sa.Column "control_epoch" sa.Integer NOT_NULL;
     sa.Column "protocol_revision" (sa.String 64) NOT_NULL;
     sa.Column "created_at" sa.DateTime NOT_NULL]
    [sa.CheckConstraint "ck_discovery_snapshot_generation" ("generation" > 0);
     sa.CheckConstraint "ck_discovery_snapshot_control_epoch" ("control_epoch" >= 0);
     sa.ForeignKeyConstraint None ["workspace_id"; "connection_id"] "server_connections" ["workspace_id"; "id"] sa.CASCADE false;
     sa.ForeignKeyConstraint None ["connection_id"; "connection_version_id"] "server_connection_versions" ["connection_id"; "id"]
         sa.NO_ACTION true;
     sa.ForeignKeyConstraint None ["workspace_id"; "payload_id"] "discovery_payloads" ["workspace_id"; "id"] sa.RESTRICT false;
     sa.ForeignKeyConstraint None ["workspace_id"] "workspaces" ["id"] sa.CASCADE false;
     sa.PrimaryKeyConstraint ["id"];
     sa.UniqueConstraint None ["workspace_id"; "id"];
     sa.UniqueConstraint None ["connection_id"; "id"];
     sa.UniqueConstraint None ["connection_id"; "connection_version_id"; "id"];
     sa.UniqueConstraint None ["connection_id"; "generation"]]%sql.
Definition create_discovery_snapshot_capabilities : op.operation :=
  op.create_table "discovery_snapshot_capabilities"
    [sa.Column "id" sa.Uuid NOT_NULL;
     sa.Column "workspace_id" sa.Uuid NOT_NULL;
     sa.Column "connection_id" sa.Uuid NOT_NULL;
     sa.Column "connection_version_id" sa.Uuid NOT_NULL;
     sa.Column "snapshot_id" sa.Uuid NOT_NULL;
     sa.Column "capability_version_id" sa.Uuid NOT_NULL;
     sa.Column "created_at" sa.DateTime NOT_NULL]
    [sa.ForeignKeyConstraint None ["workspace_id"] "workspaces" ["id"] sa.CASCADE false;
     sa.ForeignKeyConstraint None ["workspace_id"; "snapshot_id"] "discovery_snapshots" ["workspace_id"; "id"] sa.CASCADE false;
     sa.ForeignKeyConstraint None ["connection_id"; "connection_version_id"; "snapshot_id"] "discovery_snapshots"
         ["connection_id"; "connection_version_id"; "id"] sa.CASCADE false;
     sa.ForeignKeyConstraint None ["workspace_id"; "capability_version_id"] "capability_versions" ["workspace_id"; "id"]
         sa.RESTRICT false;
     sa.ForeignKeyConstraint None ["connection_id"; "connection_version_id"; "capability_version_id"] "mcp_tool_bindings"
         ["connection_id"; "connection_version_id"; "capability_version_id"] sa.RESTRICT false;
     sa.PrimaryKeyConstraint ["id"];
     sa.UniqueConstraint None ["snapshot_id"; "capability_version_id"]]%sql.
Definition create_discovery_refresh_jobs : op.operation :=
  op.create_table "discovery_refresh_jobs"
    [sa.Column "id" sa.Uuid NOT_NULL;
     sa.Column "workspace_id" sa.Uuid NOT_NULL;
     sa.Column "actor_user_id" sa.Uuid NOT_NULL;
     sa.Column "connection_id" sa.Uuid NOT_NULL;
     sa.Column "connection_version_id" sa.Uuid NOT_NULL;
     sa.Column "generation" sa.Integer NOT_NULL;
     sa.Column "control_epoch" sa.Integer NOT_NULL;
     sa.Column "status" (sa.String 16) NOT_NULL;
     sa.Column "lease_owner" (sa.String 128) NULLABLE;
     sa.Column "lease_epoch" sa.Integer NOT_NULL;
     sa.Column "lease_expires_at" sa.DateTime NULLABLE;
     sa.Column "created_at" sa.DateTime NOT_NULL]
    [sa.CheckConstraint "ck_discovery_job_generation" ("generation" > 0);
     sa.CheckConstraint "ck_discovery_job_control_epoch" ("control_epoch" >= 0);
     sa.CheckConstraint "ck_discovery_job_lease_epoch" ("lease_epoch" >= 0);
     sa.CheckConstraint "ck_discovery_job_status" ("status" IN ["queued"; "leased"; "succeeded"; "failed"; "obsolete"]);
     sa.CheckConstraint "ck_discovery_job_active_lease" ((("status" = sa.Lit "leased") AND ("lease_owner" IS_NOT_NULL) AND
         ("lease_expires_at" IS_NOT_NULL)) OR (("status" <> sa.Lit "leased") AND ("lease_owner" IS_NULL) AND ("lease_expires_at"
         IS_NULL)));
     sa.ForeignKeyConstraint None ["workspace_id"; "connection_id"] "server_connections" ["workspace_id"; "id"] sa.CASCADE false;
     sa.ForeignKeyConstraint None ["actor_user_id"] "users" ["id"] sa.RESTRICT false;
     sa.ForeignKeyConstraint None ["connection_id"; "connection_version_id"] "server_connection_versions" ["connection_id"; "id"]
         sa.CASCADE false;
     sa.ForeignKeyConstraint None ["workspace_id"] "workspaces" ["id"] sa.CASCADE false;
     sa.PrimaryKeyConstraint ["id"];
     sa.UniqueConstraint None ["connection_id"; "generation"]]%sql.
Definition upgrade : list op.operation :=
  ([ op.add_column "server_connections" (sa.Column "current_snapshot_id" sa.Uuid NULLABLE);
      op.add_column "server_connections" (sa.Column "last_refresh_error_code" (sa.String 64) NULLABLE);
      op.add_column "server_connections" (sa.Column "last_refresh_at" sa.DateTime NULLABLE);
      op.add_column "capability_versions" (sa.Column_with_default "schema_supported" sa.Boolean NOT_NULL (VBoolean false));
      op.alter_column_server_default "capability_versions" "schema_supported" None;
      op.create_unique_constraint "uq_mcp_binding_connection_version_capability_version" "mcp_tool_bindings" ["connection_id";
          "connection_version_id"; "capability_version_id"];
      create_discovery_payloads;
      create_discovery_snapshots;
      op.create_foreign_key "fk_connection_current_snapshot" "server_connections" "discovery_snapshots" ["id";
          "current_snapshot_id"] ["connection_id"; "id"] sa.NO_ACTION true;
      create_discovery_snapshot_capabilities;
      create_discovery_refresh_jobs ]
    ++ ((λ table, op.create_trigger (table +:+ "_immutable") [UPDATE] table "modall_reject_immutable_update") <$>
        ["discovery_payloads"; "discovery_snapshots"; "discovery_snapshot_capabilities"]))%sql.
Definition downgrade : list op.operation :=
  (((λ table, op.drop_trigger (table +:+ "_immutable") table) <$> ["discovery_payloads"; "discovery_snapshots";
      "discovery_snapshot_capabilities"])
    ++ [ op.drop_table "discovery_refresh_jobs";
      op.drop_table "discovery_snapshot_capabilities";
      op.drop_constraint "fk_connection_current_snapshot" "server_connections" "foreignkey";
      op.drop_table "discovery_snapshots";
      op.drop_table "discovery_payloads";
      op.drop_column "capability_versions" "schema_supported";
      op.drop_column "server_connections" "last_refresh_at";
      op.drop_column "server_connections" "last_refresh_error_code";
      op.drop_column "server_connections" "current_snapshot_id";
      op.drop_constraint "uq_mcp_binding_connection_version_capability_version" "mcp_tool_bindings" "unique" ])%sql.
End Discovery.

(** *** 20260906_0004_official_registry.py: Add bounded official Registry cache and imported provenance. *)

Module Official_registry.
Definition revision : option string := Some "20260906_0004".
Definition down_revision : option string := Some "20260905_0003".
Definition create_registry_search_cache : op.operation :=
  op.create_table "registry_search_cache"
    [sa.Column "id" sa.Uuid NOT_NULL;
     sa.Column "workspace_id" sa.Uuid NOT_NULL;
     sa.Column "provider" (sa.String 32) NOT_NULL;
     sa.Column "query_digest" (sa.String 64) NOT_NULL;
     sa.Column "response_digest" (sa.String 64) NOT_NULL;
     sa.Column "normalized_results" sa.JSON NOT_NULL;
     sa.Column "result_count" sa.Integer NOT_NULL;
     sa.Column "byte_count" sa.Integer NOT_NULL;
     sa.Column "fetched_at" sa.DateTime NOT_NULL;
     sa.Column "expires_at" sa.DateTime NOT_NULL]
    [sa.CheckConstraint "ck_registry_search_cache_provider" ("provider" = sa.Lit "official");
     sa.CheckConstraint "ck_registry_search_cache_result_count" ("result_count" >= 0);
     sa.CheckConstraint "ck_registry_search_cache_byte_count" ("byte_count" >= 0);
     sa.ForeignKeyConstraint None ["workspace_id"] "workspaces" ["id"] sa.CASCADE false;
     sa.PrimaryKeyConstraint ["id"]]%sql.
Definition upgrade : list op.operation :=
  ([ op.drop_constraint "ck_audit_action" "audit_events" "check";
      op.drop_constraint "ck_audit_resource_type" "audit_events" "check";
      op.create_check_constraint "ck_audit_action" "audit_events" ("action" IN ["workspace.created"; "membership.changed";
          "secret_binding.created"; "connection.created"; "connection.version_appended"; "connection.verified";
          "connection.disabled"; "connection.enabled"; "capability.version_recorded"; "capability.enabled";
          "capability.disabled"; "registry_entry.imported"]);
      op.create_check_constraint "ck_audit_resource_type" "audit_events" ("resource_type" IN ["workspace"; "membership";
          "secret_binding"; "server_connection"; "capability"; "registry_entry"]);
      op.add_column "registry_entry_versions" (sa.Column "source_version" (sa.String 128) NULLABLE);
      op.add_column "registry_entry_versions" (sa.Column "source_uri" (sa.String 2048) NULLABLE);
      op.add_column "registry_entry_versions" (sa.Column "normalized_metadata" sa.JSON NULLABLE);
      op.add_column "registry_entry_versions" (sa.Column "imported_by_user_id" sa.Uuid NULLABLE);
      op.create_foreign_key "fk_registry_entry_version_imported_by" "registry_entry_versions" "users" ["imported_by_user_id"]
          ["id"] sa.RESTRICT false;
      create_registry_search_cache;
      op.create_index "ix_registry_search_cache_lookup" "registry_search_cache" ["workspace_id"; "provider"; "query_digest";
          "expires_at"] false None;
      op.create_index "ix_registry_search_cache_expiry" "registry_search_cache" ["expires_at"] false None;
      op.create_trigger "registry_search_cache_immutable" [UPDATE] "registry_search_cache" "modall_reject_immutable_update"
          ])%sql.
Definition downgrade : list op.operation :=
  ([ op.drop_trigger "registry_search_cache_immutable" "registry_search_cache";
      op.drop_index "ix_registry_search_cache_expiry" "registry_search_cache";
      op.drop_index "ix_registry_search_cache_lookup" "registry_search_cache";
      op.drop_table "registry_search_cache";
      op.drop_constraint "fk_registry_entry_version_imported_by" "registry_entry_versions" "foreignkey";
      op.drop_column "registry_entry_versions" "imported_by_user_id";
      op.drop_column "registry_entry_versions" "normalized_metadata";
      op.drop_column "registry_entry_versions" "source_uri";
      op.drop_column "registry_entry_versions" "source_version";
      op.drop_constraint "ck_audit_resource_type" "audit_events" "check";
      op.drop_constraint "ck_audit_action" "audit_events" "check";
      op.delete "audit_events" (("action" = sa.Lit "registry_entry.imported") OR ("resource_type" = sa.Lit "registry_entry"));
      op.create_check_constraint "ck_audit_resource_type" "audit_events" ("resource_type" IN ["workspace"; "membership";
          "secret_binding"; "server_connection"; "capability"]);
      op.create_check_constraint "ck_audit_action" "audit_events" ("action" IN ["workspace.created"; "membership.changed";
          "secret_binding.created"; "connection.created"; "connection.version_appended"; "connection.verified";
          "connection.disabled"; "connection.enabled"; "capability.version_recorded"; "capability.enabled";
          "capability.disabled"]) ])%sql.
End Official_registry.

(** *** 20260906_0005_execution_ledger.py: Add durable execution ledger, confirmation nonces, and idempotency. *)

Module Execution_ledger.
Definition revision : option string := Some "20260906_0005".
Definition down_revision : option string := Some "20260906_0004".
Definition RUN_STATES : list string := ["queued"; "preparing"; "session_fenced"; "dispatch_fenced"; "succeeded"; "failed";
    "cancelled"; "timed_out"; "indeterminate"].
Definition TERMINAL_JOB_STATES : list string := ["succeeded"; "failed"; "cancelled"; "timed_out"; "indeterminate"].
Definition RUN_FAILURE_CODES : list string := ["worker_lost_before_dispatch"; "worker_lost_after_dispatch"; "deadline_exceeded";
    "cancelled_before_dispatch"; "restore_reconciliation"; "content_retention_deadline"; "preparation_failed";
    "session_initialization_failed"; "tool_call_failed"; "invalid_tool_result"; "upstream_outcome_unknown"].
Definition create_system_execution_state : op.operation :=
  op.create_table "system_execution_state"
    [sa.Column "id" sa.Integer NOT_NULL;
     sa.Column "execution_epoch" sa.Integer NOT_NULL;
     sa.Column "dispatch_quarantined" sa.Boolean NOT_NULL;
     sa.Column "updated_at" sa.DateTime NOT_NULL]
    [sa.CheckConstraint "ck_system_execution_state_singleton" ("id" = 1);
     sa.CheckConstraint "ck_system_execution_state_epoch" ("execution_epoch" > 0);
     sa.PrimaryKeyConstraint ["id"]]%sql.
Definition create_runs : op.operation :=
  op.create_table "runs"
    [sa.Column "id" sa.Uuid NOT_NULL;
     sa.Column "workspace_id" sa.Uuid NOT_NULL;
     sa.Column "actor_user_id" sa.Uuid NOT_NULL;
     sa.Column "capability_id" sa.Uuid NOT_NULL;
     sa.Column "capability_version_id" sa.Uuid NOT_NULL;
     sa.Column "connection_id" sa.Uuid NOT_NULL;
     sa.Column "connection_version_id" sa.Uuid NOT_NULL;
     sa.Column "connection_control_epoch" sa.Integer NOT_NULL;
     sa.Column "capability_status_epoch" sa.Integer NOT_NULL;
     sa.Column "protocol_revision" (sa.String 64) NOT_NULL;
     sa.Column "status" (sa.String 24) NOT_NULL;
     sa.Column "arguments" sa.JSON NULLABLE;
     sa.Column "argument_digest" (sa.String 64) NULLABLE;
     sa.Column "arguments_expires_at" sa.DateTime NOT_NULL;
     sa.Column "deadline" sa.DateTime NOT_NULL;
     sa.Column "cancellation_requested" sa.Boolean NOT_NULL;
     sa.Column "safe_error_code" (sa.String 64) NULLABLE;
     sa.Column "created_at" sa.DateTime NOT_NULL;
     sa.Column "updated_at" sa.DateTime NOT_NULL;
     sa.Column "terminal_at" sa.DateTime NULLABLE]
    [sa.CheckConstraint "ck_run_status" ("status" IN RUN_STATES);
     sa.CheckConstraint "ck_run_terminal_time" (("status" IN ["succeeded"; "failed"; "cancelled"; "timed_out"; "indeterminate"])
         == ("terminal_at" IS_NOT_NULL));
     sa.CheckConstraint "ck_run_connection_epoch" ("connection_control_epoch" >= 0);
     sa.CheckConstraint "ck_run_capability_epoch" ("capability_status_epoch" >= 0);
     sa.CheckConstraint "ck_run_argument_digest" ((("arguments" IS_NULL) AND ("argument_digest" IS_NULL)) OR (("arguments"
         IS_NOT_NULL) AND (sa.Length "argument_digest" = 64)));
     sa.CheckConstraint "ck_run_safe_error_code" (("safe_error_code" IS_NULL) OR ("safe_error_code" IN RUN_FAILURE_CODES));
     sa.CheckConstraint "ck_run_success_has_no_error" (("status" <> sa.Lit "succeeded") OR ("safe_error_code" IS_NULL));
     sa.CheckConstraint "ck_run_terminal_has_error" (("status" NOT_IN ["failed"; "cancelled"; "timed_out"; "indeterminate"]) OR
         ("safe_error_code" IS_NOT_NULL));
     sa.ForeignKeyConstraint None ["workspace_id"] "workspaces" ["id"] sa.CASCADE false;
     sa.ForeignKeyConstraint None ["actor_user_id"] "users" ["id"] sa.RESTRICT false;
     sa.ForeignKeyConstraint None ["workspace_id"; "capability_id"] "capabilities" ["workspace_id"; "id"] sa.RESTRICT false;
     sa.ForeignKeyConstraint None ["workspace_id"; "capability_version_id"] "capability_versions" ["workspace_id"; "id"]
         sa.RESTRICT false;
     sa.ForeignKeyConstraint None ["workspace_id"; "connection_id"] "server_connections" ["workspace_id"; "id"] sa.RESTRICT false;
     sa.ForeignKeyConstraint None ["workspace_id"; "connection_version_id"] "server_connection_versions" ["workspace_id"; "id"]
         sa.RESTRICT false;
     sa.PrimaryKeyConstraint ["id"];
     sa.UniqueConstraint None ["workspace_id"; "id"]]%sql.
Definition create_jobs : op.operation :=
  op.create_table "jobs"
    [sa.Column "id" sa.Uuid NOT_NULL;
     sa.Column "workspace_id" sa.Uuid NOT_NULL;
     sa.Column "run_id" sa.Uuid NOT_NULL;
     sa.Column "actor_user_id" sa.Uuid NOT_NULL;
     sa.Column "execution_epoch" sa.Integer NOT_NULL;
     sa.Column "status" (sa.String 24) NOT_NULL;
     sa.Column "lease_owner" (sa.String 128) NULLABLE;
     sa.Column "lease_epoch" sa.Integer NOT_NULL;
     sa.Column "lease_expires_at" sa.DateTime NULLABLE;
     sa.Column "available_at" sa.DateTime NOT_NULL;
     sa.Column "deadline" sa.DateTime NOT_NULL;
     sa.Column "created_at" sa.DateTime NOT_NULL;
     sa.Column "completed_at" sa.DateTime NULLABLE]
    [sa.CheckConstraint "ck_job_execution_epoch" ("execution_epoch" > 0);
     sa.CheckConstraint "ck_job_lease_epoch" ("lease_epoch" >= 0);
     sa.CheckConstraint "ck_job_status" ("status" IN (["queued"; "leased"] ++ TERMINAL_JOB_STATES));
     sa.CheckConstraint "ck_job_active_lease" ((("status" = sa.Lit "leased") AND ("lease_owner" IS_NOT_NULL) AND
         ("lease_expires_at" IS_NOT_NULL)) OR (("status" <> sa.Lit "leased") AND ("lease_owner" IS_NULL) AND ("lease_expires_at"
         IS_NULL)));
     sa.CheckConstraint "ck_job_completion_time" (("status" IN ["succeeded"; "failed"; "cancelled"; "timed_out";
         "indeterminate"]) == ("completed_at" IS_NOT_NULL));
     sa.ForeignKeyConstraint None ["workspace_id"] "workspaces" ["id"] sa.CASCADE false;
     sa.ForeignKeyConstraint None ["actor_user_id"] "users" ["id"] sa.RESTRICT false;
     sa.ForeignKeyConstraint None ["workspace_id"; "run_id"] "runs" ["workspace_id"; "id"] sa.CASCADE false;
     sa.PrimaryKeyConstraint ["id"];
     sa.UniqueConstraint None ["workspace_id"; "id"];
     sa.UniqueConstraint None ["run_id"]]%sql.
Definition create_run_attempts : op.operation :=
  op.create_table "run_attempts"
    [sa.Column "id" sa.Uuid NOT_NULL;
     sa.Column "workspace_id" sa.Uuid NOT_NULL;
     sa.Column "run_id" sa.Uuid NOT_NULL;
     sa.Column "job_id" sa.Uuid NOT_NULL;
     sa.Column "sequence" sa.Integer NOT_NULL;
     sa.Column "lease_epoch" sa.Integer NOT_NULL;
     sa.Column "status" (sa.String 24) NOT_NULL;
     sa.Column "started_at" sa.DateTime NOT_NULL;
     sa.Column "terminal_at" sa.DateTime NULLABLE;
     sa.Column "safe_error_code" (sa.String 64) NULLABLE]
    [sa.CheckConstraint "ck_run_attempt_sequence" ("sequence" > 0);
     sa.CheckConstraint "ck_run_attempt_lease_epoch" ("lease_epoch" > 0);
     sa.CheckConstraint "ck_run_attempt_status" ("status" IN ["preparing"; "session_fenced"; "dispatch_fenced"; "succeeded";
         "failed"; "cancelled"; "timed_out"; "indeterminate"]);
     sa.CheckConstraint "ck_run_attempt_terminal_time" (("status" IN ["succeeded"; "failed"; "cancelled"; "timed_out";
         "indeterminate"]) == ("terminal_at" IS_NOT_NULL));
     sa.CheckConstraint "ck_run_attempt_safe_error_code" (("safe_error_code" IS_NULL) OR ("safe_error_code" IN
         RUN_FAILURE_CODES));
     sa.CheckConstraint "ck_run_attempt_success_has_no_error" (("status" <> sa.Lit "succeeded") OR ("safe_error_code" IS_NULL));
     sa.CheckConstraint "ck_run_attempt_terminal_has_error" (("status" NOT_IN ["failed"; "cancelled"; "timed_out";
         "indeterminate"]) OR ("safe_error_code" IS_NOT_NULL));
     sa.ForeignKeyConstraint None ["workspace_id"] "workspaces" ["id"] sa.CASCADE false;
     sa.ForeignKeyConstraint None ["workspace_id"; "run_id"] "runs" ["workspace_id"; "id"] sa.CASCADE false;
     sa.ForeignKeyConstraint None ["workspace_id"; "job_id"] "jobs" ["workspace_id"; "id"] sa.CASCADE false;
     sa.PrimaryKeyConstraint ["id"];
     sa.UniqueConstraint None ["workspace_id"; "id"];
     sa.UniqueConstraint None ["run_id"; "sequence"]]%sql.
Definition create_run_events : op.operation :=
  op.create_table "run_events"
    [sa.Column "id" sa.Uuid NOT_NULL;
     sa.Column "workspace_id" sa.Uuid NOT_NULL;
     sa.Column "run_id" sa.Uuid NOT_NULL;
     sa.Column "sequence" sa.Integer NOT_NULL;
     sa.Column "event_type" (sa.String 32) NOT_NULL;
     sa.Column "status" (sa.String 24) NOT_NULL;
     sa.Column "safe_error_code" (sa.String 64) NULLABLE;
     sa.Column "occurred_at" sa.DateTime NOT_NULL]
    [sa.CheckConstraint "ck_run_event_sequence" ("sequence" > 0);
     sa.CheckConstraint "ck_run_event_type" ("event_type" IN ["admitted"; "attempt_started"; "session_fenced"; "dispatch_fenced";
         "lease_lost"; "cancel_requested"; "terminal"; "content_expired"; "restore_reconciled"]);
     sa.CheckConstraint "ck_run_event_status" ("status" IN RUN_STATES);
     sa.CheckConstraint "ck_run_event_safe_error_code" (("safe_error_code" IS_NULL) OR ("safe_error_code" IN RUN_FAILURE_CODES));
     sa.CheckConstraint "ck_run_event_success_has_no_error" (("status" <> sa.Lit "succeeded") OR ("safe_error_code" IS_NULL));
     sa.CheckConstraint "ck_run_event_terminal_has_error" (("status" NOT_IN ["failed"; "cancelled"; "timed_out";
         "indeterminate"]) OR ("safe_error_code" IS_NOT_NULL));
     sa.ForeignKeyConstraint None ["workspace_id"] "workspaces" ["id"] sa.CASCADE false;
     sa.ForeignKeyConstraint None ["workspace_id"; "run_id"] "runs" ["workspace_id"; "id"] sa.CASCADE false;
     sa.PrimaryKeyConstraint ["id"];
     sa.UniqueConstraint None ["workspace_id"; "id"];
     sa.UniqueConstraint None ["run_id"; "sequence"]]%sql.
Definition create_confirmation_nonces : op.operation :=
  op.create_table "confirmation_nonces"
    [sa.Column "id" sa.Uuid NOT_NULL;
     sa.Column "workspace_id" sa.Uuid NOT_NULL;
     sa.Column "actor_user_id" sa.Uuid NOT_NULL;
     sa.Column "nonce_digest" (sa.String 64) NOT_NULL;
     sa.Column "run_id" sa.Uuid NOT_NULL;
     sa.Column "key_version" (sa.String 32) NOT_NULL;
     sa.Column "expires_at" sa.DateTime NOT_NULL;
     sa.Column "consumed_at" sa.DateTime NOT_NULL]
    [sa.CheckConstraint "ck_confirmation_nonce_digest" (sa.Length "nonce_digest" = 64);
     sa.CheckConstraint "ck_confirmation_nonce_key_version" (sa.Length "key_version" BETWEEN 1 AND 32);
     sa.ForeignKeyConstraint None ["workspace_id"] "workspaces" ["id"] sa.CASCADE false;
     sa.ForeignKeyConstraint None ["actor_user_id"] "users" ["id"] sa.RESTRICT false;
     sa.ForeignKeyConstraint None ["workspace_id"; "run_id"] "runs" ["workspace_id"; "id"] sa.CASCADE false;
     sa.PrimaryKeyConstraint ["id"];
     sa.UniqueConstraint None ["nonce_digest"]]%sql.
Definition create_idempotency_records : op.operation :=
  op.create_table "idempotency_records"
    [sa.Column "id" sa.Uuid NOT_NULL;
     sa.Column "workspace_id" sa.Uuid NOT_NULL;
     sa.Column "actor_user_id" sa.Uuid NOT_NULL;
     sa.Column "method" (sa.String 8) NOT_NULL;
     sa.Column "route" (sa.String 128) NOT_NULL;
     sa.Column "confirmation_key_version" (sa.String 32) NOT_NULL;
     sa.Column "key_version" (sa.String 32) NOT_NULL;
     sa.Column "key_hmac" (sa.String 64) NOT_NULL;
     sa.Column "request_hmac" (sa.String 64) NOT_NULL;
     sa.Column "resource_type" (sa.String 32) NOT_NULL;
     sa.Column "resource_id" sa.Uuid NOT_NULL;
     sa.Column "created_at" sa.DateTime NOT_NULL;
     sa.Column "completed_at" sa.DateTime NOT_NULL;
     sa.Column "expires_at" sa.DateTime NOT_NULL]
    [sa.CheckConstraint "ck_idempotency_key_hmac" (sa.Length "key_hmac" = 64);
     sa.CheckConstraint "ck_idempotency_request_hmac" (sa.Length "request_hmac" = 64);
     sa.CheckConstraint "ck_idempotency_resource_type" ("resource_type" = sa.Lit "run");
     sa.CheckConstraint "ck_idempotency_confirmation_key_version" (sa.Length "confirmation_key_version" BETWEEN 1 AND 32);
     sa.ForeignKeyConstraint None ["workspace_id"] "workspaces" ["id"] sa.CASCADE false;
     sa.ForeignKeyConstraint None ["actor_user_id"] "users" ["id"] sa.RESTRICT false;
     sa.ForeignKeyConstraint None ["workspace_id"; "resource_id"] "runs" ["workspace_id"; "id"] sa.CASCADE false;
     sa.PrimaryKeyConstraint ["id"];
     sa.UniqueConstraint None ["workspace_id"; "actor_user_id"; "method"; "route"; "key_version"; "key_hmac"]]%sql.
Definition triggers : list op.operation :=
  (((λ table, op.create_trigger (table +:+ "_immutable") [UPDATE] table "modall_reject_immutable_update") <$> ["run_events";
      "confirmation_nonces"; "idempotency_records"])
    ++ [ op.create_function "modall_reject_independent_execution_delete" [Independent] ]
    ++ ((λ table, op.create_trigger (table +:+ "_delete_guard") [DELETE] table "modall_reject_independent_execution_delete") <$>
        ["run_events"; "confirmation_nonces"; "idempotency_records"])
    ++ [ op.create_function "modall_reject_terminal_execution_update" [Left_from "status" TERMINAL_JOB_STATES] ]
    ++ ((λ table, op.create_trigger (table +:+ "_terminal_status_immutable") [UPDATE] table
        "modall_reject_terminal_execution_update") <$> ["runs"; "jobs"; "run_attempts"]))%sql.
Definition upgrade (current_timestamp : instant) : list op.operation :=
  ([ op.drop_constraint "ck_audit_action" "audit_events" "check";
      op.drop_constraint "ck_audit_resource_type" "audit_events" "check";
      op.create_check_constraint "ck_audit_action" "audit_events" ("action" IN ["workspace.created"; "membership.changed";
          "secret_binding.created"; "connection.created"; "connection.version_appended"; "connection.verified";
          "connection.disabled"; "connection.enabled"; "capability.version_recorded"; "capability.enabled";
          "capability.disabled"; "registry_entry.imported"; "run.created"; "run.cancellation_requested"; "run.cancelled"]);
      op.create_check_constraint "ck_audit_resource_type" "audit_events" ("resource_type" IN ["workspace"; "membership";
          "secret_binding"; "server_connection"; "capability"; "registry_entry"; "run"]);
      create_system_execution_state;
      op.insert "system_execution_state"
      [("id", VInteger 1); ("execution_epoch", VInteger 1); ("dispatch_quarantined", VBoolean false); ("updated_at", VDateTime
          current_timestamp)];
      create_runs;
      op.create_index "ix_runs_workspace_created" "runs" ["workspace_id"; "created_at"; "id"] false None;
      op.create_index "ix_runs_arguments_expiry" "runs" ["arguments_expires_at"; "id"] false (Some ("arguments" IS_NOT_NULL));
      op.create_index "ix_runs_terminal_expiry" "runs" ["terminal_at"; "id"] false (Some ("terminal_at" IS_NOT_NULL));
      op.create_index "ix_runs_restore_reconciliation" "runs" ["created_at"; "id"] false (Some ("status" IN ["queued";
          "preparing"; "session_fenced"; "dispatch_fenced"]));
      create_jobs;
      op.create_index "ix_jobs_claim" "jobs" ["status"; "available_at"; "created_at"] false None;
      op.create_index "ix_jobs_claim_priority" "jobs" ["created_at"; "id"] false (Some ("status" IN ["queued"; "leased"]));
      op.create_index "ix_jobs_deadline_reconciliation" "jobs" ["deadline"; "id"] false (Some ("status" IN ["queued"; "leased"]));
      op.create_index "ix_jobs_lease_reconciliation" "jobs" ["lease_expires_at"; "id"] false (Some ("status" = sa.Lit "leased"));
      create_run_attempts;
      op.create_index "uq_run_attempts_active" "run_attempts" ["run_id"] true (Some ("status" IN ["preparing"; "session_fenced";
          "dispatch_fenced"]));
      op.create_index "ix_run_attempts_job" "run_attempts" ["workspace_id"; "job_id"] false None;
      create_run_events;
      create_confirmation_nonces;
      op.create_index "ix_confirmation_nonces_run" "confirmation_nonces" ["workspace_id"; "run_id"] false None;
      op.create_index "ix_confirmation_nonces_key_version" "confirmation_nonces" ["key_version"] false None;
      create_idempotency_records;
      op.create_index "ix_idempotency_expiry" "idempotency_records" ["expires_at"] false None;
      op.create_index "ix_idempotency_confirmation_key_version" "idempotency_records" ["confirmation_key_version"] false None;
      op.create_index "ix_idempotency_key_version" "idempotency_records" ["key_version"] false None;
      op.create_index "ix_idempotency_resource" "idempotency_records" ["workspace_id"; "resource_id"] false None ]
    ++ triggers)%sql.
Definition downgrade : list op.operation :=
  (((λ table, op.drop_trigger (table +:+ "_terminal_status_immutable") table) <$> ["run_attempts"; "jobs"; "runs"])
    ++ [ op.drop_function "modall_reject_terminal_execution_update" ]
    ++ ((λ table, op.drop_trigger (table +:+ "_delete_guard") table) <$> ["idempotency_records"; "confirmation_nonces";
        "run_events"])
    ++ [ op.drop_function "modall_reject_independent_execution_delete" ]
    ++ ((λ table, op.drop_trigger (table +:+ "_immutable") table) <$> ["idempotency_records"; "confirmation_nonces";
        "run_events"])
    ++ [ op.drop_index "ix_idempotency_resource" "idempotency_records";
      op.drop_index "ix_idempotency_key_version" "idempotency_records";
      op.drop_index "ix_idempotency_confirmation_key_version" "idempotency_records";
      op.drop_index "ix_idempotency_expiry" "idempotency_records";
      op.drop_table "idempotency_records";
      op.drop_index "ix_confirmation_nonces_key_version" "confirmation_nonces";
      op.drop_index "ix_confirmation_nonces_run" "confirmation_nonces";
      op.drop_table "confirmation_nonces";
      op.drop_table "run_events";
      op.drop_index "uq_run_attempts_active" "run_attempts";
      op.drop_index "ix_run_attempts_job" "run_attempts";
      op.drop_table "run_attempts";
      op.drop_index "ix_jobs_lease_reconciliation" "jobs";
      op.drop_index "ix_jobs_deadline_reconciliation" "jobs";
      op.drop_index "ix_jobs_claim_priority" "jobs";
      op.drop_index "ix_jobs_claim" "jobs";
      op.drop_table "jobs";
      op.drop_index "ix_runs_terminal_expiry" "runs";
      op.drop_index "ix_runs_restore_reconciliation" "runs";
      op.drop_index "ix_runs_arguments_expiry" "runs";
      op.drop_index "ix_runs_workspace_created" "runs";
      op.drop_table "runs";
      op.drop_table "system_execution_state";
      op.delete "audit_events" (("action" IN ["run.created"; "run.cancellation_requested"; "run.cancelled"]) OR ("resource_type"
          = sa.Lit "run"));
      op.drop_constraint "ck_audit_action" "audit_events" "check";
      op.drop_constraint "ck_audit_resource_type" "audit_events" "check";
      op.create_check_constraint "ck_audit_action" "audit_events" ("action" IN ["workspace.created"; "membership.changed";
          "secret_binding.created"; "connection.created"; "connection.version_appended"; "connection.verified";
          "connection.disabled"; "connection.enabled"; "capability.version_recorded"; "capability.enabled";
          "capability.disabled"; "registry_entry.imported"]);
      op.create_check_constraint "ck_audit_resource_type" "audit_events" ("resource_type" IN ["workspace"; "membership";
          "secret_binding"; "server_connection"; "capability"; "registry_entry"]) ])%sql.
End Execution_ledger.

(** *** 20260906_0006_invocation_results.py: Add bounded accepted invocation results. *)

Module Invocation_results.
Definition revision : option string := Some "20260906_0006".
Definition down_revision : option string := Some "20260906_0005".
Definition expanded_failure_codes : sa.condition := (("safe_error_code" IS_NULL) OR ("safe_error_code" IN
    ["worker_lost_before_dispatch"; "worker_lost_after_dispatch"; "deadline_exceeded"; "cancelled_before_dispatch";
    "restore_reconciliation"; "content_retention_deadline"; "preparation_failed"; "session_initialization_failed";
    "tool_call_failed"; "invalid_tool_result"; "unsupported_tool_result"; "sensitive_tool_result";
    "upstream_outcome_unknown"]))%sql.
Definition create_run_results : op.operation :=
  op.create_table "run_results"
    [sa.Column "run_id" sa.Uuid NOT_NULL;
     sa.Column "workspace_id" sa.Uuid NOT_NULL;
     sa.Column "payload" sa.JSON NOT_NULL;
     sa.Column "canonical_digest" (sa.String 64) NOT_NULL;
     sa.Column "byte_count" sa.Integer NOT_NULL;
     sa.Column "captured_at" sa.DateTime NOT_NULL;
     sa.Column "expires_at" sa.DateTime NOT_NULL]
    [sa.CheckConstraint "ck_run_result_byte_count" ("byte_count" > 0);
     sa.CheckConstraint "ck_run_result_digest" (sa.Length "canonical_digest" = 64);
     sa.ForeignKeyConstraint None ["workspace_id"] "workspaces" ["id"] sa.CASCADE false;
     sa.ForeignKeyConstraint None ["workspace_id"; "run_id"] "runs" ["workspace_id"; "id"] sa.CASCADE false;
     sa.PrimaryKeyConstraint ["run_id"]]%sql.
Definition upgrade : list op.operation :=
  (([("runs", "ck_run_safe_error_code"); ("run_attempts", "ck_run_attempt_safe_error_code"); ("run_events",
      "ck_run_event_safe_error_code")] ≫= (λ '(table, constraint), [op.drop_constraint constraint table "check";
      op.create_check_constraint constraint table expanded_failure_codes]))
    ++ [ create_run_results;
      op.create_index "ix_run_results_expiry" "run_results" ["expires_at"; "run_id"] false None;
      op.create_trigger "run_results_immutable" [UPDATE] "run_results" "modall_reject_immutable_update" ])%sql.
Definition original_failure_codes : sa.condition := (("safe_error_code" IS_NULL) OR ("safe_error_code" IN
    ["worker_lost_before_dispatch"; "worker_lost_after_dispatch"; "deadline_exceeded"; "cancelled_before_dispatch";
    "restore_reconciliation"; "content_retention_deadline"; "preparation_failed"; "session_initialization_failed";
    "tool_call_failed"; "invalid_tool_result"; "upstream_outcome_unknown"]))%sql.
Definition downgrade : list op.operation :=
  ([ op.drop_trigger "run_results_immutable" "run_results";
      op.drop_index "ix_run_results_expiry" "run_results";
      op.drop_table "run_results" ]
    ++ ((λ '(table, constraint), op.drop_constraint constraint table "check") <$> [("runs", "ck_run_safe_error_code");
        ("run_attempts", "ck_run_attempt_safe_error_code"); ("run_events", "ck_run_event_safe_error_code")])
    ++ [ op.drop_trigger "run_events_immutable" "run_events" ]
    ++ ((λ table, op.update table "safe_error_code" (sa.Lit "invalid_tool_result") ("safe_error_code" IN
        ["unsupported_tool_result"; "sensitive_tool_result"])) <$> ["runs"; "run_attempts"; "run_events"])
    ++ [ op.create_trigger "run_events_immutable" [UPDATE] "run_events" "modall_reject_immutable_update" ]
    ++ ((λ '(table, constraint), op.create_check_constraint constraint table original_failure_codes) <$> [("runs",
        "ck_run_safe_error_code"); ("run_attempts", "ck_run_attempt_safe_error_code"); ("run_events",
        "ck_run_event_safe_error_code")]))%sql.
End Invocation_results.

(** *** 20260906_0007_api_idempotency.py: Add replay records for non-run API mutations. *)

Module Api_idempotency.
Definition revision : option string := Some "20260906_0007".
Definition down_revision : option string := Some "20260906_0006".
Definition create_api_idempotency_records : op.operation :=
  op.create_table "api_idempotency_records"
    [sa.Column "id" sa.Uuid NOT_NULL;
     sa.Column "workspace_id" sa.Uuid NOT_NULL;
     sa.Column "actor_user_id" sa.Uuid NOT_NULL;
     sa.Column "method" (sa.String 8) NOT_NULL;
     sa.Column "route" (sa.String 128) NOT_NULL;
     sa.Column "key_version" (sa.String 32) NOT_NULL;
     sa.Column "key_hmac" (sa.String 64) NOT_NULL;
     sa.Column "request_hmac" (sa.String 64) NOT_NULL;
     sa.Column "response_body" sa.JSON NOT_NULL;
     sa.Column "created_at" sa.DateTime NOT_NULL;
     sa.Column "expires_at" sa.DateTime NOT_NULL]
    [sa.CheckConstraint "ck_api_idempotency_key_hmac" (sa.Length "key_hmac" = 64);
     sa.CheckConstraint "ck_api_idempotency_request_hmac" (sa.Length "request_hmac" = 64);
     sa.ForeignKeyConstraint None ["workspace_id"] "workspaces" ["id"] sa.CASCADE false;
     sa.ForeignKeyConstraint None ["actor_user_id"] "users" ["id"] sa.RESTRICT false;
     sa.PrimaryKeyConstraint ["id"];
     sa.UniqueConstraint None ["workspace_id"; "actor_user_id"; "method"; "route"; "key_version"; "key_hmac"]]%sql.
Definition upgrade : list op.operation :=
  ([ create_api_idempotency_records;
      op.create_index "ix_api_idempotency_expiry" "api_idempotency_records" ["expires_at"; "id"] false None;
      op.create_index "ix_api_idempotency_key_version" "api_idempotency_records" ["key_version"] false None ])%sql.
Definition downgrade : list op.operation :=
  ([ op.drop_index "ix_api_idempotency_key_version" "api_idempotency_records";
      op.drop_index "ix_api_idempotency_expiry" "api_idempotency_records";
      op.drop_table "api_idempotency_records" ])%sql.
End Api_idempotency.

(** *** 20260907_0008_active_run_index.py: Add a workspace-leading index for active run reconciliation. *)

Module Active_run_index.
Definition revision : option string := Some "20260907_0008".
Definition down_revision : option string := Some "20260906_0007".
Definition _ACTIVE_PREDICATE : sa.condition := ("status" IN ["queued"; "preparing"; "session_fenced"; "dispatch_fenced"])%sql.
Definition upgrade : list op.operation :=
  ([ op.create_index "ix_runs_workspace_active" "runs" ["workspace_id"; "created_at"; "id"] false (Some _ACTIVE_PREDICATE) ])%sql.
Definition downgrade : list op.operation :=
  ([ op.drop_index "ix_runs_workspace_active" "runs" ])%sql.
End Active_run_index.

(** *** 20260907_0009_run_correlation.py: Persist API-to-worker correlation on the durable run ledger. *)

Module Run_correlation.
Definition revision : option string := Some "20260907_0009".
Definition down_revision : option string := Some "20260907_0008".
Definition upgrade : list op.operation :=
  ([ op.add_column "runs" (sa.Column "correlation_id" sa.Uuid NULLABLE);
      op.update_from "runs" "correlation_id" "audit_events" "correlation_id"
      ("resource_type" = sa.Lit "run" AND "action" = sa.Lit "run.created" AND "outcome" = sa.Lit "succeeded")
      [("workspace_id", "workspace_id"); ("resource_id", "id")] ["occurred_at"; "id"];
      op.update "runs" "correlation_id" "id" ("correlation_id" IS_NULL);
      op.alter_column_nullable "runs" "correlation_id" NOT_NULL;
      op.create_index "ix_runs_workspace_correlation" "runs" ["workspace_id"; "correlation_id"] false None ])%sql.
Definition downgrade : list op.operation :=
  ([ op.drop_index "ix_runs_workspace_correlation" "runs";
      op.drop_column "runs" "correlation_id" ])%sql.
End Run_correlation.
