(* ===== verification/Models.v ===== *)
(** The tables as persistence/models.py declares them, what [Base.metadata] makes of the
    declarations, and the session events that guard rows. *)
From S2P Require Import Prelude Types PyStr.
From S2P Require Import Ddl Migrations.
From stdpp Require Import strings gmap.
Local Open Scope Z_scope.
Local Open Scope string_scope.
Local Open Scope list_scope.

(** A class: its columns, its table arguments, those of them that [use_alter] defers until
    all tables are there, and its indexes. *)
Record model := mk_model {
  tablename : string; table_columns : list (string * sa.column); table_args : list sa.constraint;
  alters : list op.operation; table_indexes : list op.operation }.

Definition _TERMINAL_EXECUTION_STATUS_SQL : list string := ["succeeded"; "failed"; "cancelled"; "timed_out"; "indeterminate"].
Definition User : model :=
  (mk_model "users"
    [sa.Column "id" sa.Uuid NOT_NULL;
     sa.Column "oidc_issuer" (sa.String 512) NOT_NULL;
     sa.Column "oidc_subject" (sa.String 512) NOT_NULL;
     sa.Column "display_name" (sa.String 256) NULLABLE;
     sa.Column "created_at" sa.DateTime NOT_NULL]
    [sa.PrimaryKeyConstraint ["id"];
     sa.UniqueConstraint None ["oidc_issuer"; "oidc_subject"]]
    []
    [])%sql.
Definition Workspace : model :=
  (mk_model "workspaces"
    [sa.Column "id" sa.Uuid NOT_NULL;
     sa.Column "name" (sa.String 128) NOT_NULL;
     sa.Column "created_at" sa.DateTime NOT_NULL]
    [sa.PrimaryKeyConstraint ["id"]]
    []
    [])%sql.
Definition WorkspaceMembership : model :=
  (mk_model "workspace_memberships"
    [sa.Column "workspace_id" sa.Uuid NOT_NULL;
     sa.Column "user_id" sa.Uuid NOT_NULL;
     sa.Column "role" (sa.String 16) NOT_NULL;
     sa.Column "created_at" sa.DateTime NOT_NULL]
    [sa.PrimaryKeyConstraint ["workspace_id"; "user_id"];
     sa.CheckConstraint "ck_membership_role" ("role" IN ["admin"; "operator"; "viewer"]);
     sa.ForeignKeyConstraint None ["workspace_id"] "workspaces" ["id"] sa.CASCADE false;
     sa.ForeignKeyConstraint None ["user_id"] "users" ["id"] sa.RESTRICT false]
    []
    [])%sql.
Definition SecretBinding : model :=
  (mk_model "secret_bindings"
    [sa.Column "id" sa.Uuid NOT_NULL;
     sa.Column "workspace_id" sa.Uuid NOT_NULL;
     sa.Column "provider" (sa.String 32) NOT_NULL;
     sa.Column "external_reference" (sa.String 256) NOT_NULL;
     sa.Column "version" (sa.String 128) NOT_NULL;
     sa.Column "created_by_user_id" sa.Uuid NOT_NULL;
     sa.Column "created_at" sa.DateTime NOT_NULL]
    [sa.PrimaryKeyConstraint ["id"];
     sa.UniqueConstraint (Some "uq_secret_binding_workspace_id") ["workspace_id"; "id"];
     sa.UniqueConstraint None ["workspace_id"; "provider"; "external_reference"; "version"];
     sa.CheckConstraint "ck_secret_provider" ("provider" IN ["fixture"; "mounted_file"]);
     sa.ForeignKeyConstraint None ["workspace_id"] "workspaces" ["id"] sa.CASCADE false;
     sa.ForeignKeyConstraint None ["created_by_user_id"] "users" ["id"] sa.RESTRICT false]
    []
    [])%sql.
Definition AuditEvent : model :=
  (mk_model "audit_events"
    [sa.Column "id" sa.Uuid NOT_NULL;
     sa.Column "workspace_id" sa.Uuid NOT_NULL;
     sa.Column "actor_user_id" sa.Uuid NOT_NULL;
     sa.Column "action" (sa.String 64) NOT_NULL;
     sa.Column "resource_type" (sa.String 32) NOT_NULL;
     sa.Column "resource_id" sa.Uuid NOT_NULL;
     sa.Column "outcome" (sa.String 16) NOT_NULL;
     sa.Column "correlation_id" sa.Uuid NOT_NULL;
     sa.Column "occurred_at" sa.DateTime NOT_NULL]
    [sa.PrimaryKeyConstraint ["id"];
     sa.CheckConstraint "ck_audit_outcome" ("outcome" IN ["succeeded"; "denied"; "failed"]);
     sa.CheckConstraint "ck_audit_action" ("action" IN ["workspace.created"; "membership.changed"; "secret_binding.created";
         "connection.created"; "connection.version_appended"; "connection.verified"; "connection.disabled"; "connection.enabled";
         "capability.version_recorded"; "capability.enabled"; "capability.disabled"; "registry_entry.imported"; "run.created";
         "run.cancellation_requested"; "run.cancelled"]);
     sa.CheckConstraint "ck_audit_resource_type" ("resource_type" IN ["workspace"; "membership"; "secret_binding";
         "server_connection"; "capability"; "registry_entry"; "run"]);
     sa.ForeignKeyConstraint None ["workspace_id"] "workspaces" ["id"] sa.CASCADE false;
     sa.ForeignKeyConstraint None ["actor_user_id"] "users" ["id"] sa.RESTRICT false]
    []
    [op.create_index "ix_audit_workspace_time_id" "audit_events" ["workspace_id"; "occurred_at"; "id"] false None])%sql.
Definition RegistryEntry : model :=
  (mk_model "registry_entries"
    [sa.Column "id" sa.Uuid NOT_NULL;
     sa.Column "workspace_id" sa.Uuid NOT_NULL;
     sa.Column "source" (sa.String 16) NOT_NULL;
     sa.Column "external_id" (sa.String 256) NULLABLE;
     sa.Column "current_version_id" sa.Uuid NULLABLE;
     sa.Column "created_at" sa.DateTime NOT_NULL]
    [sa.PrimaryKeyConstraint ["id"];
     sa.UniqueConstraint None ["workspace_id"; "id"];
     sa.UniqueConstraint None ["workspace_id"; "source"; "external_id"];
     sa.CheckConstraint "ck_registry_entry_source" ("source" IN ["manual"; "official"]);
     sa.CheckConstraint "ck_registry_entry_official_external_id" (("source" <> sa.Lit "official") OR (("external_id" IS_NOT_NULL)
         AND (sa.Length (sa.Trim "external_id") > 0)));
     sa.ForeignKeyConstraint None ["workspace_id"] "workspaces" ["id"] sa.CASCADE false]
    [op.create_constraint "registry_entries" (sa.ForeignKeyConstraint (Some "fk_registry_entry_current_version") ["id";
        "current_version_id"] "registry_entry_versions" ["registry_entry_id"; "id"] sa.NO_ACTION true)]
    [])%sql.
Definition RegistryEntryVersion : model :=
  (mk_model "registry_entry_versions"
    [sa.Column "id" sa.Uuid NOT_NULL;
     sa.Column "workspace_id" sa.Uuid NOT_NULL;
     sa.Column "registry_entry_id" sa.Uuid NOT_NULL;
     sa.Column "sequence" sa.Integer NOT_NULL;
     sa.Column "name" (sa.String 256) NOT_NULL;
     sa.Column "description" (sa.String 2048) NULLABLE;
     sa.Column "provenance_digest" (sa.String 64) NOT_NULL;
     sa.Column "source_version" (sa.String 128) NULLABLE;
     sa.Column "source_uri" (sa.String 2048) NULLABLE;
     sa.Column "normalized_metadata" sa.JSON NULLABLE;
     sa.Column "imported_by_user_id" sa.Uuid NULLABLE;
     sa.Column "created_at" sa.DateTime NOT_NULL]
    [sa.PrimaryKeyConstraint ["id"];
     sa.ForeignKeyConstraint None ["workspace_id"; "registry_entry_id"] "registry_entries" ["workspace_id"; "id"] sa.CASCADE
         false;
     sa.UniqueConstraint None ["workspace_id"; "id"];
     sa.UniqueConstraint None ["registry_entry_id"; "id"];
     sa.UniqueConstraint None ["registry_entry_id"; "sequence"];
     sa.ForeignKeyConstraint None ["workspace_id"] "workspaces" ["id"] sa.CASCADE false;
     sa.ForeignKeyConstraint None ["imported_by_user_id"] "users" ["id"] sa.RESTRICT false]
    []
    [])%sql.
Definition RegistrySearchCache : model :=
  (mk_model "registry_search_cache"
    [sa.Column "id" sa.Uuid NOT_NULL;
     sa.Column "workspace_id" sa.Uuid NOT_NULL;
     sa.Column "provider" (sa.String 32) NOT_NULL;
     sa.Column "query_digest" (sa.String 64) NOT_NULL;
     sa.Column "response_digest" (sa.String 64) NOT_NULL;
     sa.Column "normalized_results" sa.JSON NOT_NULL;
     sa.Column "result_count" sa.Integer NOT_NULL;
     sa.Column "byte_count" sa.Integer NOT_NULL;
     sa.Column "fetched_at" sa.DateTime NOT_NULL;
     sa.Column "expires_at" sa.DateTime NOT_NULL]
    [sa.PrimaryKeyConstraint ["id"];
     sa.CheckConstraint "ck_registry_search_cache_provider" ("provider" = sa.Lit "official");
     sa.CheckConstraint "ck_registry_search_cache_result_count" ("result_count" >= 0);
     sa.CheckConstraint "ck_registry_search_cache_byte_count" ("byte_count" >= 0);
     sa.ForeignKeyConstraint None ["workspace_id"] "workspaces" ["id"] sa.CASCADE false]
    []
    [op.create_index "ix_registry_search_cache_lookup" "registry_search_cache" ["workspace_id"; "provider"; "query_digest";
        "expires_at"] false None;
     op.create_index "ix_registry_search_cache_expiry" "registry_search_cache" ["expires_at"] false None])%sql.
Definition ServerConnection : model :=
  (mk_model "server_connections"
    [sa.Column "id" sa.Uuid NOT_NULL;
     sa.Column "workspace_id" sa.Uuid NOT_NULL;
     sa.Column "name" (sa.String 128) NOT_NULL;
     sa.Column "lifecycle" (sa.String 16) NOT_NULL;
     sa.Column "pending_version_id" sa.Uuid NULLABLE;
     sa.Column "verified_version_id" sa.Uuid NULLABLE;
     sa.Column "control_epoch" sa.Integer NOT_NULL;
     sa.Column "refresh_generation" sa.Integer NOT_NULL;
     sa.Column "allocated_control_epoch" sa.Integer NULLABLE;
     sa.Column "allocated_target_version_id" sa.Uuid NULLABLE;
     sa.Column "current_snapshot_id" sa.Uuid NULLABLE;
     sa.Column "last_refresh_error_code" (sa.String 64) NULLABLE;
     sa.Column "last_refresh_at" sa.DateTime NULLABLE;
     sa.Column "created_by_user_id" sa.Uuid NOT_NULL;
     sa.Column "created_at" sa.DateTime NOT_NULL]
    [sa.PrimaryKeyConstraint ["id"];
     sa.UniqueConstraint None ["workspace_id"; "id"];
     sa.CheckConstraint "ck_connection_lifecycle" ("lifecycle" IN ["verifying"; "active"; "degraded"; "disabled"]);
     sa.CheckConstraint "ck_connection_control_epoch" ("control_epoch" >= 0);
     sa.CheckConstraint "ck_connection_refresh_generation" ("refresh_generation" >= 0);
     sa.CheckConstraint "ck_connection_refresh_allocation" ((("refresh_generation" = 0) AND ("allocated_control_epoch" IS_NULL)
         AND ("allocated_target_version_id" IS_NULL)) OR (("refresh_generation" > 0) AND ((("allocated_control_epoch" IS_NULL)
         AND ("allocated_target_version_id" IS_NULL)) OR (("allocated_control_epoch" IS_NOT_NULL) AND
         ("allocated_target_version_id" IS_NOT_NULL)))));
     sa.CheckConstraint "ck_connection_allocated_control_epoch" (("allocated_control_epoch" IS_NULL) OR
         ("allocated_control_epoch" >= 0));
     sa.CheckConstraint "ck_connection_has_version" (("pending_version_id" IS_NOT_NULL) OR ("verified_version_id" IS_NOT_NULL));
     sa.CheckConstraint "ck_connection_distinct_version_pointers" (("pending_version_id" IS_NULL) OR ("pending_version_id" <>
         "verified_version_id"));
     sa.ForeignKeyConstraint None ["workspace_id"] "workspaces" ["id"] sa.CASCADE false;
     sa.ForeignKeyConstraint None ["created_by_user_id"] "users" ["id"] sa.RESTRICT false]
    [op.create_constraint "server_connections" (sa.ForeignKeyConstraint (Some "fk_connection_pending_version") ["id";
        "pending_version_id"] "server_connection_versions" ["connection_id"; "id"] sa.NO_ACTION true);
     op.create_constraint "server_connections" (sa.ForeignKeyConstraint (Some "fk_connection_verified_version") ["id";
         "verified_version_id"] "server_connection_versions" ["connection_id"; "id"] sa.NO_ACTION true);
     op.create_constraint "server_connections" (sa.ForeignKeyConstraint (Some "fk_connection_allocated_target_version") ["id";
         "allocated_target_version_id"] "server_connection_versions" ["connection_id"; "id"] sa.NO_ACTION true);
     op.create_constraint "server_connections" (sa.ForeignKeyConstraint (Some "fk_connection_current_snapshot") ["id";
         "current_snapshot_id"] "discovery_snapshots" ["connection_id"; "id"] sa.NO_ACTION true)]
    [])%sql.
Definition ServerConnectionVersion : model :=
  (mk_model "server_connection_versions"
    [sa.Column "id" sa.Uuid NOT_NULL;
     sa.Column "workspace_id" sa.Uuid NOT_NULL;
     sa.Column "connection_id" sa.Uuid NOT_NULL;
     sa.Column "sequence" sa.Integer NOT_NULL;
     sa.Column "endpoint_url" (sa.String 2048) NOT_NULL;
     sa.Column "secret_binding_id" sa.Uuid NULLABLE;
     sa.Column "transport" (sa.String 32) NOT_NULL;
     sa.Column "policy_version" (sa.String 64) NOT_NULL;
     sa.Column "created_by_user_id" sa.Uuid NOT_NULL;
     sa.Column "created_at" sa.DateTime NOT_NULL]
    [sa.PrimaryKeyConstraint ["id"];
     sa.ForeignKeyConstraint None ["workspace_id"; "connection_id"] "server_connections" ["workspace_id"; "id"] sa.CASCADE false;
     sa.ForeignKeyConstraint None ["workspace_id"; "secret_binding_id"] "secret_bindings" ["workspace_id"; "id"] sa.NO_ACTION
         true;
     sa.UniqueConstraint None ["workspace_id"; "id"];
     sa.UniqueConstraint None ["connection_id"; "id"];
     sa.UniqueConstraint None ["connection_id"; "sequence"];
     sa.CheckConstraint "ck_connection_version_sequence" ("sequence" > 0);
     sa.CheckConstraint "ck_connection_transport" ("transport" = sa.Lit "streamable_http");
     sa.ForeignKeyConstraint None ["workspace_id"] "workspaces" ["id"] sa.CASCADE false;
     sa.ForeignKeyConstraint None ["created_by_user_id"] "users" ["id"] sa.RESTRICT false]
    []
    [])%sql.
Definition Capability : model :=
  (mk_model "capabilities"
    [sa.Column "id" sa.Uuid NOT_NULL;
     sa.Column "workspace_id" sa.Uuid NOT_NULL;
     sa.Column "connection_id" sa.Uuid NOT_NULL;
     sa.Column "tool_identity" (sa.String 256) NOT_NULL;
     sa.Column "pending_version_id" sa.Uuid NULLABLE;
     sa.Column "enabled_version_id" sa.Uuid NULLABLE;
     sa.Column "status" (sa.String 24) NOT_NULL;
     sa.Column "status_epoch" sa.Integer NOT_NULL;
     sa.Column "created_at" sa.DateTime NOT_NULL]
    [sa.PrimaryKeyConstraint ["id"];
     sa.UniqueConstraint None ["workspace_id"; "id"];
     sa.ForeignKeyConstraint None ["workspace_id"; "connection_id"] "server_connections" ["workspace_id"; "id"] sa.CASCADE false;
     sa.UniqueConstraint None ["connection_id"; "tool_identity"];
     sa.UniqueConstraint None ["connection_id"; "id"];
     sa.CheckConstraint "ck_capability_status_epoch" ("status_epoch" >= 0);
     sa.CheckConstraint "ck_capability_status" ("status" IN ["pending_review"; "enabled"; "disabled"; "unavailable"]);
     sa.CheckConstraint "ck_capability_distinct_version_pointers" (("pending_version_id" IS_NULL) OR ("pending_version_id" <>
         "enabled_version_id"));
     sa.CheckConstraint "ck_capability_enabled_projection" (("status" <> sa.Lit "enabled") OR (("enabled_version_id" IS_NOT_NULL)
         AND ("pending_version_id" IS_NULL)));
     sa.CheckConstraint "ck_capability_pending_projection" (("status" <> sa.Lit "pending_review") OR ("pending_version_id"
         IS_NOT_NULL));
     sa.ForeignKeyConstraint None ["workspace_id"] "workspaces" ["id"] sa.CASCADE false]
    [op.create_constraint "capabilities" (sa.ForeignKeyConstraint (Some "fk_capability_pending_version") ["id";
        "pending_version_id"] "capability_versions" ["capability_id"; "id"] sa.NO_ACTION true);
     op.create_constraint "capabilities" (sa.ForeignKeyConstraint (Some "fk_capability_enabled_version") ["id";
         "enabled_version_id"] "capability_versions" ["capability_id"; "id"] sa.NO_ACTION true)]
    [])%sql.
Definition CapabilityVersion : model :=
  (mk_model "capability_versions"
    [sa.Column "id" sa.Uuid NOT_NULL;
     sa.Column "workspace_id" sa.Uuid NOT_NULL;
     sa.Column "capability_id" sa.Uuid NOT_NULL;
     sa.Column "sequence" sa.Integer NOT_NULL;
     sa.Column "display_name" (sa.String 256) NOT_NULL;
     sa.Column "description" (sa.String 2048) NULLABLE;
     sa.Column "input_schema" sa.JSON NOT_NULL;
     sa.Column "output_schema" sa.JSON NULLABLE;
     sa.Column "metadata_digest" (sa.String 64) NOT_NULL;
     sa.Column "schema_supported" sa.Boolean NOT_NULL;
     sa.Column "created_at" sa.DateTime NOT_NULL]
    [sa.PrimaryKeyConstraint ["id"];
     sa.ForeignKeyConstraint None ["workspace_id"; "capability_id"] "capabilities" ["workspace_id"; "id"] sa.CASCADE false;
     sa.UniqueConstraint None ["workspace_id"; "id"];
     sa.UniqueConstraint None ["capability_id"; "id"];
     sa.UniqueConstraint None ["capability_id"; "sequence"];
     sa.CheckConstraint "ck_capability_version_sequence" ("sequence" > 0);
     sa.ForeignKeyConstraint None ["workspace_id"] "workspaces" ["id"] sa.CASCADE false]
    []
    [])%sql.
Definition McpToolBinding : model :=
  (mk_model "mcp_tool_bindings"
    [sa.Column "capability_version_id" sa.Uuid NOT_NULL;
     sa.Column "capability_id" sa.Uuid NOT_NULL;
     sa.Column "workspace_id" sa.Uuid NOT_NULL;
     sa.Column "connection_id" sa.Uuid NOT_NULL;
     sa.Column "connection_version_id" sa.Uuid NOT_NULL;
     sa.Column "tool_name" (sa.String 256) NOT_NULL;
     sa.Column "protocol_revision" (sa.String 64) NOT_NULL]
    [sa.PrimaryKeyConstraint ["capability_version_id"];
     sa.UniqueConstraint None ["connection_id"; "connection_version_id"; "capability_version_id"];
     sa.ForeignKeyConstraint None ["workspace_id"; "capability_version_id"] "capability_versions" ["workspace_id"; "id"]
         sa.CASCADE false;
     sa.ForeignKeyConstraint None ["workspace_id"; "connection_version_id"] "server_connection_versions" ["workspace_id"; "id"]
         sa.NO_ACTION true;
     sa.ForeignKeyConstraint None ["capability_id"; "capability_version_id"] "capability_versions" ["capability_id"; "id"]
         sa.CASCADE false;
     sa.ForeignKeyConstraint None ["connection_id"; "capability_id"] "capabilities" ["connection_id"; "id"] sa.CASCADE false;
     sa.ForeignKeyConstraint None ["connection_id"; "connection_version_id"] "server_connection_versions" ["connection_id"; "id"]
         sa.NO_ACTION true;
     sa.ForeignKeyConstraint None ["workspace_id"] "workspaces" ["id"] sa.CASCADE false]
    []
    [])%sql.
Definition CapabilityStatusEvent : model :=
  (mk_model "capability_status_events"
    [sa.Column "id" sa.Uuid NOT_NULL;
     sa.Column "workspace_id" sa.Uuid NOT_NULL;
     sa.Column "capability_id" sa.Uuid NOT_NULL;
     sa.Column "capability_version_id" sa.Uuid NULLABLE;
     sa.Column "status" (sa.String 24) NOT_NULL;
     sa.Column "status_epoch" sa.Integer NOT_NULL;
     sa.Column "actor_user_id" sa.Uuid NOT_NULL;
     sa.Column "created_at" sa.DateTime NOT_NULL]
    [sa.PrimaryKeyConstraint ["id"];
     sa.ForeignKeyConstraint None ["workspace_id"; "capability_id"] "capabilities" ["workspace_id"; "id"] sa.CASCADE false;
     sa.ForeignKeyConstraint None ["capability_id"; "capability_version_id"] "capability_versions" ["capability_id"; "id"]
         sa.NO_ACTION true;
     sa.UniqueConstraint None ["capability_id"; "status_epoch"];
     sa.CheckConstraint "ck_capability_status_event_status" ("status" IN ["pending_review"; "enabled"; "disabled";
         "unavailable"]);
     sa.CheckConstraint "ck_capability_status_event_epoch" ("status_epoch" > 0);
     sa.ForeignKeyConstraint None ["workspace_id"] "workspaces" ["id"] sa.CASCADE false;
     sa.ForeignKeyConstraint None ["actor_user_id"] "users" ["id"] sa.RESTRICT false]
    []
    [])%sql.
Definition DiscoveryPayload : model :=
  (mk_model "discovery_payloads"
    [sa.Column "id" sa.Uuid NOT_NULL;
     sa.Column "workspace_id" sa.Uuid NOT_NULL;
     sa.Column "canonical_digest" (sa.String 64) NOT_NULL;
     sa.Column "normalized_payload" sa.JSON NOT_NULL;
     sa.Column "byte_count" sa.Integer NOT_NULL;
     sa.Column "created_at" sa.DateTime NOT_NULL]
    [sa.PrimaryKeyConstraint ["id"];
     sa.UniqueConstraint None ["workspace_id"; "id"];
     sa.UniqueConstraint None ["workspace_id"; "canonical_digest"];
     sa.CheckConstraint "ck_discovery_payload_byte_count" ("byte_count" > 0);
     sa.ForeignKeyConstraint None ["workspace_id"] "workspaces" ["id"] sa.CASCADE false]
    []
    [])%sql.
Definition DiscoverySnapshot : model :=
  (mk_model "discovery_snapshots"
    [sa.Column "id" sa.Uuid NOT_NULL;
     sa.Column "workspace_id" sa.Uuid NOT_NULL;
     sa.Column "connection_id" sa.Uuid NOT_NULL;
     sa.Column "connection_version_id" sa.Uuid NOT_NULL;
     sa.Column "payload_id" sa.Uuid NOT_NULL;
     sa.Column "generation" sa.Integer NOT_NULL;
     sa.Column "control_epoch" sa.Integer NOT_NULL;
     sa.Column "protocol_revision" (sa.String 64) NOT_NULL;
     sa.Column "created_at" sa.DateTime NOT_NULL]
    [sa.PrimaryKeyConstraint ["id"];
     sa.ForeignKeyConstraint None ["workspace_id"; "connection_id"] "server_connections" ["workspace_id"; "id"] sa.CASCADE false;
     sa.ForeignKeyConstraint None ["connection_id"; "connection_version_id"] "server_connection_versions" ["connection_id"; "id"]
         sa.NO_ACTION true;
     sa.ForeignKeyConstraint None ["workspace_id"; "payload_id"] "discovery_payloads" ["workspace_id"; "id"] sa.RESTRICT false;
     sa.UniqueConstraint None ["workspace_id"; "id"];
     sa.UniqueConstraint None ["connection_id"; "id"];
     sa.UniqueConstraint None ["connection_id"; "connection_version_id"; "id"];
     sa.UniqueConstraint None ["connection_id"; "generation"];
     sa.CheckConstraint "ck_discovery_snapshot_generation" ("generation" > 0);
     sa.CheckConstraint "ck_discovery_snapshot_control_epoch" ("control_epoch" >= 0);
     sa.ForeignKeyConstraint None ["workspace_id"] "workspaces" ["id"] sa.CASCADE false]
    []
    [])%sql.
Definition DiscoverySnapshotCapability : model :=
  (mk_model "discovery_snapshot_capabilities"
    [sa.Column "id" sa.Uuid NOT_NULL;
     sa.Column "workspace_id" sa.Uuid NOT_NULL;
     sa.Column "connection_id" sa.Uuid NOT_NULL;
     sa.Column "connection_version_id" sa.Uuid NOT_NULL;
     sa.Column "snapshot_id" sa.Uuid NOT_NULL;
     sa.Column "capability_version_id" sa.Uuid NOT_NULL;
     sa.Column "created_at" sa.DateTime NOT_NULL]
    [sa.PrimaryKeyConstraint ["id"];
     sa.ForeignKeyConstraint None ["workspace_id"; "snapshot_id"] "discovery_snapshots" ["workspace_id"; "id"] sa.CASCADE false;
     sa.ForeignKeyConstraint None ["connection_id"; "connection_version_id"; "snapshot_id"] "discovery_snapshots"
         ["connection_id"; "connection_version_id"; "id"] sa.CASCADE false;
     sa.ForeignKeyConstraint None ["workspace_id"; "capability_version_id"] "capability_versions" ["workspace_id"; "id"]
         sa.RESTRICT false;
     sa.ForeignKeyConstraint None ["connection_id"; "connection_version_id"; "capability_version_id"] "mcp_tool_bindings"
         ["connection_id"; "connection_version_id"; "capability_version_id"] sa.RESTRICT false;
     sa.UniqueConstraint None ["snapshot_id"; "capability_version_id"];
     sa.ForeignKeyConstraint None ["workspace_id"] "workspaces" ["id"] sa.CASCADE false]
    []
    [])%sql.
Definition DiscoveryRefreshJob : model :=
  (mk_model "discovery_refresh_jobs"
    [sa.Column "id" sa.Uuid NOT_NULL;
     sa.Column "workspace_id" sa.Uuid NOT_NULL;
     sa.Column "actor_user_id" sa.Uuid NOT_NULL;
     sa.Column "connection_id" sa.Uuid NOT_NULL;
     sa.Column "connection_version_id" sa.Uuid NOT_NULL;
     sa.Column "generation" sa.Integer NOT_NULL;
     sa.Column "control_epoch" sa.Integer NOT_NULL;
     sa.Column "status" (sa.String 16) NOT_NULL;
     sa.Column "lease_owner" (sa.String 128) NULLABLE;
     sa.Column "lease_epoch" sa.Integer NOT_NULL;
     sa.Column "lease_expires_at" sa.DateTime NULLABLE;
     sa.Column "created_at" sa.DateTime NOT_NULL]
    [sa.PrimaryKeyConstraint ["id"];
     sa.ForeignKeyConstraint None ["workspace_id"; "connection_id"] "server_connections" ["workspace_id"; "id"] sa.CASCADE false;
     sa.ForeignKeyConstraint None ["connection_id"; "connection_version_id"] "server_connection_versions" ["connection_id"; "id"]
         sa.CASCADE false;
     sa.UniqueConstraint None ["connection_id"; "generation"];
     sa.CheckConstraint "ck_discovery_job_generation" ("generation" > 0);
     sa.CheckConstraint "ck_discovery_job_control_epoch" ("control_epoch" >= 0);
     sa.CheckConstraint "ck_discovery_job_lease_epoch" ("lease_epoch" >= 0);
     sa.CheckConstraint "ck_discovery_job_status" ("status" IN ["queued"; "leased"; "succeeded"; "failed"; "obsolete"]);
     sa.CheckConstraint "ck_discovery_job_active_lease" ((("status" = sa.Lit "leased") AND ("lease_owner" IS_NOT_NULL) AND
         ("lease_expires_at" IS_NOT_NULL)) OR (("status" <> sa.Lit "leased") AND ("lease_owner" IS_NULL) AND ("lease_expires_at"
         IS_NULL)));
     sa.ForeignKeyConstraint None ["workspace_id"] "workspaces" ["id"] sa.CASCADE false;
     sa.ForeignKeyConstraint None ["actor_user_id"] "users" ["id"] sa.RESTRICT false]
    []
    [])%sql.
Definition SystemExecutionState : model :=
  (mk_model "system_execution_state"
    [sa.Column "id" sa.Integer NOT_NULL;
     sa.Column "execution_epoch" sa.Integer NOT_NULL;
     sa.Column "dispatch_quarantined" sa.Boolean NOT_NULL;
     sa.Column "updated_at" sa.DateTime NOT_NULL]
    [sa.PrimaryKeyConstraint ["id"];
     sa.CheckConstraint "ck_system_execution_state_singleton" ("id" = 1);
     sa.CheckConstraint "ck_system_execution_state_epoch" ("execution_epoch" > 0)]
    []
    [])%sql.
Definition Run : model :=
  (mk_model "runs"
    [sa.Column "id" sa.Uuid NOT_NULL;
     sa.Column "workspace_id" sa.Uuid NOT_NULL;
     sa.Column "correlation_id" sa.Uuid NOT_NULL;
     sa.Column "actor_user_id" sa.Uuid NOT_NULL;
     sa.Column "capability_id" sa.Uuid NOT_NULL;
     sa.Column "capability_version_id" sa.Uuid NOT_NULL;
     sa.Column "connection_id" sa.Uuid NOT_NULL;
     sa.Column "connection_version_id" sa.Uuid NOT_NULL;
     sa.Column "connection_control_epoch" sa.Integer NOT_NULL;
     sa.Column "capability_status_epoch" sa.Integer NOT_NULL;
     sa.Column "protocol_revision" (sa.String 64) NOT_NULL;
     sa.Column "status" (sa.String 24) NOT_NULL;
     sa.Column "arguments" sa.JSON NULLABLE;
     sa.Column "argument_digest" (sa.String 64) NULLABLE;
     sa.Column "arguments_expires_at" sa.DateTime NOT_NULL;
     sa.Column "deadline" sa.DateTime NOT_NULL;
     sa.Column "cancellation_requested" sa.Boolean NOT_NULL;
     sa.Column "safe_error_code" (sa.String 64) NULLABLE;
     sa.Column "created_at" sa.DateTime NOT_NULL;
     sa.Column "updated_at" sa.DateTime NOT_NULL;
     sa.Column "terminal_at" sa.DateTime NULLABLE]
    [sa.PrimaryKeyConstraint ["id"];
     sa.UniqueConstraint None ["workspace_id"; "id"];
     sa.CheckConstraint "ck_run_status" ("status" IN ["queued"; "preparing"; "session_fenced"; "dispatch_fenced"; "succeeded";
         "failed"; "cancelled"; "timed_out"; "indeterminate"]);
     sa.CheckConstraint "ck_run_terminal_time" (("status" IN _TERMINAL_EXECUTION_STATUS_SQL) == ("terminal_at" IS_NOT_NULL));
     sa.CheckConstraint "ck_run_connection_epoch" ("connection_control_epoch" >= 0);
     sa.CheckConstraint "ck_run_capability_epoch" ("capability_status_epoch" >= 0);
     sa.CheckConstraint "ck_run_argument_digest" ((("arguments" IS_NULL) AND ("argument_digest" IS_NULL)) OR (("arguments"
         IS_NOT_NULL) AND (sa.Length "argument_digest" = 64)));
     sa.CheckConstraint "ck_run_safe_error_code" (("safe_error_code" IS_NULL) OR ("safe_error_code" IN
         ["worker_lost_before_dispatch"; "worker_lost_after_dispatch"; "deadline_exceeded"; "cancelled_before_dispatch";
         "restore_reconciliation"; "content_retention_deadline"; "preparation_failed"; "session_initialization_failed";
         "tool_call_failed"; "invalid_tool_result"; "unsupported_tool_result"; "sensitive_tool_result";
         "upstream_outcome_unknown"]));
     sa.CheckConstraint "ck_run_success_has_no_error" (("status" <> sa.Lit "succeeded") OR ("safe_error_code" IS_NULL));
     sa.CheckConstraint "ck_run_terminal_has_error" (("status" NOT_IN ["failed"; "cancelled"; "timed_out"; "indeterminate"]) OR
         ("safe_error_code" IS_NOT_NULL));
     sa.ForeignKeyConstraint None ["workspace_id"; "capability_id"] "capabilities" ["workspace_id"; "id"] sa.RESTRICT false;
     sa.ForeignKeyConstraint None ["workspace_id"; "capability_version_id"] "capability_versions" ["workspace_id"; "id"]
         sa.RESTRICT false;
     sa.ForeignKeyConstraint None ["workspace_id"; "connection_id"] "server_connections" ["workspace_id"; "id"] sa.RESTRICT false;
     sa.ForeignKeyConstraint None ["workspace_id"; "connection_version_id"] "server_connection_versions" ["workspace_id"; "id"]
         sa.RESTRICT false;
     sa.ForeignKeyConstraint None ["workspace_id"] "workspaces" ["id"] sa.CASCADE false;
     sa.ForeignKeyConstraint None ["actor_user_id"] "users" ["id"] sa.RESTRICT false]
    []
    [op.create_index "ix_runs_workspace_created" "runs" ["workspace_id"; "created_at"; "id"] false None;
     op.create_index "ix_runs_workspace_correlation" "runs" ["workspace_id"; "correlation_id"] false None;
     op.create_index "ix_runs_arguments_expiry" "runs" ["arguments_expires_at"; "id"] false (Some ("arguments" IS_NOT_NULL));
     op.create_index "ix_runs_terminal_expiry" "runs" ["terminal_at"; "id"] false (Some ("terminal_at" IS_NOT_NULL));
     op.create_index "ix_runs_restore_reconciliation" "runs" ["created_at"; "id"] false (Some ("status" IN ["queued";
         "preparing"; "session_fenced"; "dispatch_fenced"]));
     op.create_index "ix_runs_workspace_active" "runs" ["workspace_id"; "created_at"; "id"] false (Some ("status" IN ["queued";
         "preparing"; "session_fenced"; "dispatch_fenced"]))])%sql.
Definition RunResult : model :=
  (mk_model "run_results"
    [sa.Column "run_id" sa.Uuid NOT_NULL;
     sa.Column "workspace_id" sa.Uuid NOT_NULL;
     sa.Column "payload" sa.JSON NOT_NULL;
     sa.Column "canonical_digest" (sa.String 64) NOT_NULL;
     sa.Column "byte_count" sa.Integer NOT_NULL;
     sa.Column "captured_at" sa.DateTime NOT_NULL;
     sa.Column "expires_at" sa.DateTime NOT_NULL]
    [sa.PrimaryKeyConstraint ["run_id"];
     sa.ForeignKeyConstraint None ["workspace_id"; "run_id"] "runs" ["workspace_id"; "id"] sa.CASCADE false;
     sa.CheckConstraint "ck_run_result_byte_count" ("byte_count" > 0);
     sa.CheckConstraint "ck_run_result_digest" (sa.Length "canonical_digest" = 64);
     sa.ForeignKeyConstraint None ["workspace_id"] "workspaces" ["id"] sa.CASCADE false]
    []
    [op.create_index "ix_run_results_expiry" "run_results" ["expires_at"; "run_id"] false None])%sql.
Definition Job : model :=
  (mk_model "jobs"
    [sa.Column "id" sa.Uuid NOT_NULL;
     sa.Column "workspace_id" sa.Uuid NOT_NULL;
     sa.Column "run_id" sa.Uuid NOT_NULL;
     sa.Column "actor_user_id" sa.Uuid NOT_NULL;
     sa.Column "execution_epoch" sa.Integer NOT_NULL;
     sa.Column "status" (sa.String 24) NOT_NULL;
     sa.Column "lease_owner" (sa.String 128) NULLABLE;
     sa.Column "lease_epoch" sa.Integer NOT_NULL;
     sa.Column "lease_expires_at" sa.DateTime NULLABLE;
     sa.Column "available_at" sa.DateTime NOT_NULL;
     sa.Column "deadline" sa.DateTime NOT_NULL;
     sa.Column "created_at" sa.DateTime NOT_NULL;
     sa.Column "completed_at" sa.DateTime NULLABLE]
    [sa.PrimaryKeyConstraint ["id"];
     sa.UniqueConstraint None ["workspace_id"; "id"];
     sa.UniqueConstraint None ["run_id"];
     sa.CheckConstraint "ck_job_execution_epoch" ("execution_epoch" > 0);
     sa.CheckConstraint "ck_job_lease_epoch" ("lease_epoch" >= 0);
     sa.CheckConstraint "ck_job_status" ("status" IN ["queued"; "leased"; "succeeded"; "failed"; "cancelled"; "timed_out";
         "indeterminate"]);
     sa.CheckConstraint "ck_job_active_lease" ((("status" = sa.Lit "leased") AND ("lease_owner" IS_NOT_NULL) AND
         ("lease_expires_at" IS_NOT_NULL)) OR (("status" <> sa.Lit "leased") AND ("lease_owner" IS_NULL) AND ("lease_expires_at"
         IS_NULL)));
     sa.CheckConstraint "ck_job_completion_time" (("status" IN _TERMINAL_EXECUTION_STATUS_SQL) == ("completed_at" IS_NOT_NULL));
     sa.ForeignKeyConstraint None ["workspace_id"; "run_id"] "runs" ["workspace_id"; "id"] sa.CASCADE false;
     sa.ForeignKeyConstraint None ["workspace_id"] "workspaces" ["id"] sa.CASCADE false;
     sa.ForeignKeyConstraint None ["actor_user_id"] "users" ["id"] sa.RESTRICT false]
    []
    [op.create_index "ix_jobs_claim" "jobs" ["status"; "available_at"; "created_at"] false None;
     op.create_index "ix_jobs_claim_priority" "jobs" ["created_at"; "id"] false (Some ("status" IN ["queued"; "leased"]));
     op.create_index "ix_jobs_deadline_reconciliation" "jobs" ["deadline"; "id"] false (Some ("status" IN ["queued"; "leased"]));
     op.create_index "ix_jobs_lease_reconciliation" "jobs" ["lease_expires_at"; "id"] false (Some ("status" = sa.Lit
         "leased"))])%sql.
Definition RunAttempt : model :=
  (mk_model "run_attempts"
    [sa.Column "id" sa.Uuid NOT_NULL;
     sa.Column "workspace_id" sa.Uuid NOT_NULL;
     sa.Column "run_id" sa.Uuid NOT_NULL;
     sa.Column "job_id" sa.Uuid NOT_NULL;
     sa.Column "sequence" sa.Integer NOT_NULL;
     sa.Column "lease_epoch" sa.Integer NOT_NULL;
     sa.Column "status" (sa.String 24) NOT_NULL;
     sa.Column "started_at" sa.DateTime NOT_NULL;
     sa.Column "terminal_at" sa.DateTime NULLABLE;
     sa.Column "safe_error_code" (sa.String 64) NULLABLE]
    [sa.PrimaryKeyConstraint ["id"];
     sa.UniqueConstraint None ["workspace_id"; "id"];
     sa.UniqueConstraint None ["run_id"; "sequence"];
     sa.CheckConstraint "ck_run_attempt_sequence" ("sequence" > 0);
     sa.CheckConstraint "ck_run_attempt_lease_epoch" ("lease_epoch" > 0);
     sa.CheckConstraint "ck_run_attempt_status" ("status" IN ["preparing"; "session_fenced"; "dispatch_fenced"; "succeeded";
         "failed"; "cancelled"; "timed_out"; "indeterminate"]);
     sa.CheckConstraint "ck_run_attempt_terminal_time" (("status" IN _TERMINAL_EXECUTION_STATUS_SQL) == ("terminal_at"
         IS_NOT_NULL));
     sa.CheckConstraint "ck_run_attempt_safe_error_code" (("safe_error_code" IS_NULL) OR ("safe_error_code" IN
         ["worker_lost_before_dispatch"; "worker_lost_after_dispatch"; "deadline_exceeded"; "cancelled_before_dispatch";
         "restore_reconciliation"; "content_retention_deadline"; "preparation_failed"; "session_initialization_failed";
         "tool_call_failed"; "invalid_tool_result"; "unsupported_tool_result"; "sensitive_tool_result";
         "upstream_outcome_unknown"]));
     sa.CheckConstraint "ck_run_attempt_success_has_no_error" (("status" <> sa.Lit "succeeded") OR ("safe_error_code" IS_NULL));
     sa.CheckConstraint "ck_run_attempt_terminal_has_error" (("status" NOT_IN ["failed"; "cancelled"; "timed_out";
         "indeterminate"]) OR ("safe_error_code" IS_NOT_NULL));
     sa.ForeignKeyConstraint None ["workspace_id"; "run_id"] "runs" ["workspace_id"; "id"] sa.CASCADE false;
     sa.ForeignKeyConstraint None ["workspace_id"; "job_id"] "jobs" ["workspace_id"; "id"] sa.CASCADE false;
     sa.ForeignKeyConstraint None ["workspace_id"] "workspaces" ["id"] sa.CASCADE false]
    []
    [op.create_index "uq_run_attempts_active" "run_attempts" ["run_id"] true (Some ("status" IN ["preparing"; "session_fenced";
        "dispatch_fenced"]));
     op.create_index "ix_run_attempts_job" "run_attempts" ["workspace_id"; "job_id"] false None])%sql.
Definition RunEvent : model :=
  (mk_model "run_events"
    [sa.Column "id" sa.Uuid NOT_NULL;
     sa.Column "workspace_id" sa.Uuid NOT_NULL;
     sa.Column "run_id" sa.Uuid NOT_NULL;
     sa.Column "sequence" sa.Integer NOT_NULL;
     sa.Column "event_type" (sa.String 32) NOT_NULL;
     sa.Column "status" (sa.String 24) NOT_NULL;
     sa.Column "safe_error_code" (sa.String 64) NULLABLE;
     sa.Column "occurred_at" sa.DateTime NOT_NULL]
    [sa.PrimaryKeyConstraint ["id"];
     sa.UniqueConstraint None ["workspace_id"; "id"];
     sa.UniqueConstraint None ["run_id"; "sequence"];
     sa.CheckConstraint "ck_run_event_sequence" ("sequence" > 0);
     sa.CheckConstraint "ck_run_event_type" ("event_type" IN ["admitted"; "attempt_started"; "session_fenced"; "dispatch_fenced";
         "lease_lost"; "cancel_requested"; "terminal"; "content_expired"; "restore_reconciled"]);
     sa.CheckConstraint "ck_run_event_status" ("status" IN ["queued"; "preparing"; "session_fenced"; "dispatch_fenced";
         "succeeded"; "failed"; "cancelled"; "timed_out"; "indeterminate"]);
     sa.CheckConstraint "ck_run_event_safe_error_code" (("safe_error_code" IS_NULL) OR ("safe_error_code" IN
         ["worker_lost_before_dispatch"; "worker_lost_after_dispatch"; "deadline_exceeded"; "cancelled_before_dispatch";
         "restore_reconciliation"; "content_retention_deadline"; "preparation_failed"; "session_initialization_failed";
         "tool_call_failed"; "invalid_tool_result"; "unsupported_tool_result"; "sensitive_tool_result";
         "upstream_outcome_unknown"]));
     sa.CheckConstraint "ck_run_event_success_has_no_error" (("status" <> sa.Lit "succeeded") OR ("safe_error_code" IS_NULL));
     sa.CheckConstraint "ck_run_event_terminal_has_error" (("status" NOT_IN ["failed"; "cancelled"; "timed_out";
         "indeterminate"]) OR ("safe_error_code" IS_NOT_NULL));
     sa.ForeignKeyConstraint None ["workspace_id"; "run_id"] "runs" ["workspace_id"; "id"] sa.CASCADE false;
     sa.ForeignKeyConstraint None ["workspace_id"] "workspaces" ["id"] sa.CASCADE false]
    []
    [])%sql.
Definition ConfirmationNonce : model :=
  (mk_model "confirmation_nonces"
    [sa.Column "id" sa.Uuid NOT_NULL;
     sa.Column "workspace_id" sa.Uuid NOT_NULL;
     sa.Column "actor_user_id" sa.Uuid NOT_NULL;
     sa.Column "nonce_digest" (sa.String 64) NOT_NULL;
     sa.Column "run_id" sa.Uuid NOT_NULL;
     sa.Column "key_version" (sa.String 32) NOT_NULL;
     sa.Column "expires_at" sa.DateTime NOT_NULL;
     sa.Column "consumed_at" sa.DateTime NOT_NULL]
    [sa.PrimaryKeyConstraint ["id"];
     sa.UniqueConstraint None ["nonce_digest"];
     sa.ForeignKeyConstraint None ["workspace_id"; "run_id"] "runs" ["workspace_id"; "id"] sa.CASCADE false;
     sa.CheckConstraint "ck_confirmation_nonce_digest" (sa.Length "nonce_digest" = 64);
     sa.CheckConstraint "ck_confirmation_nonce_key_version" (sa.Length "key_version" BETWEEN 1 AND 32);
     sa.ForeignKeyConstraint None ["workspace_id"] "workspaces" ["id"] sa.CASCADE false;
     sa.ForeignKeyConstraint None ["actor_user_id"] "users" ["id"] sa.RESTRICT false]
    []
    [op.create_index "ix_confirmation_nonces_run" "confirmation_nonces" ["workspace_id"; "run_id"] false None;
     op.create_index "ix_confirmation_nonces_key_version" "confirmation_nonces" ["key_version"] false None])%sql.
Definition IdempotencyRecord : model :=
  (mk_model "idempotency_records"
    [sa.Column "id" sa.Uuid NOT_NULL;
     sa.Column "workspace_id" sa.Uuid NOT_NULL;
     sa.Column "actor_user_id" sa.Uuid NOT_NULL;
     sa.Column "method" (sa.String 8) NOT_NULL;
     sa.Column "route" (sa.String 128) NOT_NULL;
     sa.Column "confirmation_key_version" (sa.String 32) NOT_NULL;
     sa.Column "key_version" (sa.String 32) NOT_NULL;
     sa.Column "key_hmac" (sa.String 64) NOT_NULL;
     sa.Column "request_hmac" (sa.String 64) NOT_NULL;
     sa.Column "resource_type" (sa.String 32) NOT_NULL;
     sa.Column "resource_id" sa.Uuid NOT_NULL;
     sa.Column "created_at" sa.DateTime NOT_NULL;
     sa.Column "completed_at" sa.DateTime NOT_NULL;
     sa.Column "expires_at" sa.DateTime NOT_NULL]
    [sa.PrimaryKeyConstraint ["id"];
     sa.UniqueConstraint None ["workspace_id"; "actor_user_id"; "method"; "route"; "key_version"; "key_hmac"];
     sa.ForeignKeyConstraint None ["workspace_id"; "resource_id"] "runs" ["workspace_id"; "id"] sa.CASCADE false;
     sa.CheckConstraint "ck_idempotency_key_hmac" (sa.Length "key_hmac" = 64);
     sa.CheckConstraint "ck_idempotency_request_hmac" (sa.Length "request_hmac" = 64);
     sa.CheckConstraint "ck_idempotency_resource_type" ("resource_type" = sa.Lit "run");
     sa.CheckConstraint "ck_idempotency_confirmation_key_version" (sa.Length "confirmation_key_version" BETWEEN 1 AND 32);
     sa.ForeignKeyConstraint None ["workspace_id"] "workspaces" ["id"] sa.CASCADE false;
     sa.ForeignKeyConstraint None ["actor_user_id"] "users" ["id"] sa.RESTRICT false]
    []
    [op.create_index "ix_idempotency_confirmation_key_version" "idempotency_records" ["confirmation_key_version"] false None;
     op.create_index "ix_idempotency_key_version" "idempotency_records" ["key_version"] false None;
     op.create_index "ix_idempotency_resource" "idempotency_records" ["workspace_id"; "resource_id"] false None;
     op.create_index "ix_idempotency_expiry" "idempotency_records" ["expires_at"] false None])%sql.
Definition ApiIdempotencyRecord : model :=
  (mk_model "api_idempotency_records"
    [sa.Column "id" sa.Uuid NOT_NULL;
     sa.Column "workspace_id" sa.Uuid NOT_NULL;
     sa.Column "actor_user_id" sa.Uuid NOT_NULL;
     sa.Column "method" (sa.String 8) NOT_NULL;
     sa.Column "route" (sa.String 128) NOT_NULL;
     sa.Column "key_version" (sa.String 32) NOT_NULL;
     sa.Column "key_hmac" (sa.String 64) NOT_NULL;
     sa.Column "request_hmac" (sa.String 64) NOT_NULL;
     sa.Column "response_body" sa.JSON NOT_NULL;
     sa.Column "created_at" sa.DateTime NOT_NULL;
     sa.Column "expires_at" sa.DateTime NOT_NULL]
    [sa.PrimaryKeyConstraint ["id"];
     sa.UniqueConstraint None ["workspace_id"; "actor_user_id"; "method"; "route"; "key_version"; "key_hmac"];
     sa.CheckConstraint "ck_api_idempotency_key_hmac" (sa.Length "key_hmac" = 64);
     sa.CheckConstraint "ck_api_idempotency_request_hmac" (sa.Length "request_hmac" = 64);
     sa.ForeignKeyConstraint None ["workspace_id"] "workspaces" ["id"] sa.CASCADE false;
     sa.ForeignKeyConstraint None ["actor_user_id"] "users" ["id"] sa.RESTRICT false]
    []
    [op.create_index "ix_api_idempotency_expiry" "api_idempotency_records" ["expires_at"; "id"] false None;
     op.create_index "ix_api_idempotency_key_version" "api_idempotency_records" ["key_version"] false None])%sql.
Definition metadata : list model :=
  [User; Workspace; WorkspaceMembership; SecretBinding; AuditEvent; RegistryEntry; RegistryEntryVersion; RegistrySearchCache;
      ServerConnection; ServerConnectionVersion; Capability; CapabilityVersion; McpToolBinding; CapabilityStatusEvent;
      DiscoveryPayload; DiscoverySnapshot; DiscoverySnapshotCapability; DiscoveryRefreshJob; SystemExecutionState; Run;
      RunResult; Job; RunAttempt; RunEvent; ConfirmationNonce; IdempotencyRecord; ApiIdempotencyRecord].

(** What [Base.metadata.create_all] does. *)
Definition create_all (models : list model) : list op.operation :=
  ((λ m, op.create_table (tablename m) (table_columns m) (table_args m)) <$> models)
  ++ (models ≫= alters) ++ (models ≫= table_indexes).

(** ** Session events *)

(** The functions that [event.listen] registers, with the event they are called before. *)
Inductive listener :=
| _reject_immutable_update | _reject_immutable_delete | _reject_capability_identity_update
| _reject_registry_entry_identity_update | _reject_terminal_status_update | _validate_registry_entry_insert.
#[global] Instance listener_eq_dec : EqDecision listener.
Proof. solve_decision. Defined.

Definition immutable_models : list model :=
  [SecretBinding; RegistryEntryVersion; ServerConnectionVersion; CapabilityVersion; McpToolBinding; CapabilityStatusEvent;
   DiscoveryPayload; DiscoverySnapshot; DiscoverySnapshotCapability; RegistrySearchCache; RunEvent; RunResult;
   ConfirmationNonce; IdempotencyRecord].
Definition execution_models : list model := [Run; Job; RunAttempt].

Definition listeners : list (model * event * listener) :=
  ((λ m, (m, UPDATE, _reject_immutable_update)) <$> immutable_models)
  ++ [(McpToolBinding, DELETE, _reject_immutable_delete); (CapabilityStatusEvent, DELETE, _reject_immutable_delete);
      (ConfirmationNonce, DELETE, _reject_immutable_delete); (IdempotencyRecord, DELETE, _reject_immutable_delete);
      (RunEvent, DELETE, _reject_immutable_delete); (Capability, UPDATE, _reject_capability_identity_update);
      (RegistryEntry, UPDATE, _reject_registry_entry_identity_update); (RegistryEntry, INSERT, _validate_registry_entry_insert)]
  ++ ((λ m, (m, UPDATE, _reject_terminal_status_update)) <$> execution_models).

Definition _TERMINAL_EXECUTION_STATUSES : list string := ["succeeded"; "failed"; "cancelled"; "timed_out"; "indeterminate"].

(** [history.has_changes()] of an attribute: the flushed value differs. *)
Definition has_changes (old new : row) (attribute : string) : bool := negb (bool_decide (old !! attribute = new !! attribute)).

(** Whether a listener raises [ValueError]; [old] is the row that was loaded, [new] the one to be written. *)
Definition listener_raises (l : listener) (columns : list string) (old new : row) : bool :=
  match l with
  | _reject_immutable_update => existsb (has_changes old new) columns
  | _reject_immutable_delete => true
  | _reject_capability_identity_update => existsb (has_changes old new) ["workspace_id"; "connection_id"; "tool_identity"]
  | _reject_registry_entry_identity_update => existsb (has_changes old new) ["workspace_id"; "source"; "external_id"]
  | _reject_terminal_status_update =>
      has_changes old new "status"
      && match old !! "status" with Some (VString s) => bool_decide (s ∈ _TERMINAL_EXECUTION_STATUSES) | _ => false end
  | _validate_registry_entry_insert =>
      eqv (new !! "source") (Some (VString "official"))
      && match new !! "external_id" with Some (VString s) => falsy (strip s) | _ => true end
  end.
