(* ===== verification/Lint.v ===== *)
(** An analysis of a sequence of operations that tells, without looking at any row, that the
    sequence succeeds on every valid database, and that it leaves the tables of an earlier
    schema as they are: it keeps the tables that are empty and facts that hold of all rows.
    Whether a check follows from facts is decided by going through the values that the
    conditions can tell apart. *)
From S2P Require Import Prelude Types.
From S2P Require Import Ddl Rows.
From stdpp Require Import strings gmap.
Local Open Scope Z_scope.

(** ** Facts and what follows from them *)

(** A condition that is false, or true, on no row. *)
Inductive row_fact := Holds (c : sa.condition) | Unselected (c : sa.condition).
#[global] Instance fact_eq_dec : EqDecision row_fact.
Proof. solve_decision. Defined.

Definition condition_of (f : row_fact) : sa.condition := match f with Holds c | Unselected c => c end.
Definition fact_columns (f : row_fact) : list string := condition_columns (condition_of f).
Definition fact_ok (r : row) (f : row_fact) : bool :=
  match f with Holds c => check_holds c r | Unselected c => negb (selects c r) end.

(** Conditions that compare columns with literals only. *)
Fixpoint plain (c : sa.condition) : bool :=
  match c with
  | sa.Compare (sa.Eq | sa.Ne) (sa.Col _) (sa.Lit _) | sa.In (sa.Col _) _ | sa.NotIn (sa.Col _) _
  | sa.IsNull _ | sa.IsNotNull _ => true
  | sa.And p q | sa.Or p q | sa.Same p q => plain p && plain q
  | _ => false
  end.
(** The literals a column is compared with. *)
Fixpoint literals (x : string) (c : sa.condition) : list string :=
  match c with
  | sa.Compare _ (sa.Col y) (sa.Lit s) => if eqv x y then [s] else []
  | sa.In (sa.Col y) values | sa.NotIn (sa.Col y) values => if eqv x y then values else []
  | sa.And p q | sa.Or p q | sa.Same p q => literals x p ++ literals x q
  | _ => []
  end.

(** The empty string stands for the strings that are not among the literals. *)
Definition abstract (L : list string) (v : value) : value :=
  match v with VString s => if bool_decide (s ∈ L) then v else VString "" | _ => v end.
Definition abstract_values (nullable : bool) (L : list string) : list value :=
  (if nullable then [VNull] else []) ++ VString "" :: (VString <$> L).
Fixpoint assignments (names : list string) (nullable : string → bool) (L : string → list string) : list row :=
  match names with
  | [] => [∅]
  | x :: names => v ← abstract_values (nullable x) (L x); r ← assignments names nullable L; [<[x := v]> r]
  end.
Definition nullable_column (columns : gmap string sa.column) (x : string) : bool :=
  match columns !! x with Some column => sa.nullable column | None => true end.
Definition string_column (columns : gmap string sa.column) (x : string) : bool :=
  match columns !! x with Some column => eqv (kind_of (sa.type_ column)) KString | None => false end.

Definition follows (columns : gmap string sa.column) (facts : list row_fact) (goal : row_fact) : bool :=
  let conditions := condition_of <$> goal :: facts in
  let names := remove_dups (conditions ≫= condition_columns) in
  let L x := remove_dups (conditions ≫= literals x) in
  forallb plain conditions && forallb (string_column columns) names && forallb (λ x, bool_decide (""%string ∉ L x)) names
  && forallb (λ r, implb (forallb (fact_ok r) facts) (fact_ok r goal)) (assignments names (nullable_column columns) L).

(** The facts about no other columns, then with the columns of facts that share one. *)
Definition within (names : list string) (facts : list row_fact) : list row_fact :=
  filter (λ f, forallb (λ x, bool_decide (x ∈ names)) (fact_columns f) = true) facts.
Definition shares (names : list string) (f : row_fact) : bool := existsb (λ x, bool_decide (x ∈ names)) (fact_columns f).
Definition entails (columns : gmap string sa.column) (facts : list row_fact) (goal : row_fact) : bool :=
  let names := fact_columns goal in
  let wider := names ++ (filter (λ f, (shares names f && plain (condition_of f)) = true) facts ≫= fact_columns) in
  follows columns (within names facts) goal || follows columns (within wider facts) goal.

(** ** The analysis *)

Record known := mk_known { empty_tables : list string; facts : list (string * row_fact) }.

Definition about (table column : string) (tf : string * row_fact) : bool := eqv tf.1 table && bool_decide (column ∈ fact_columns tf.2).
Definition facts_of (K : known) (table : string) : list row_fact := snd <$> filter (λ tf, tf.1 = table) (facts K).
Definition is_empty (K : known) (table : string) : bool := bool_decide (table ∈ empty_tables K).
Definition knows_fact (K : known) (table : string) (f : row_fact) : bool := bool_decide ((table, f) ∈ facts K).

Definition forget_column (K : known) (table column : string) : known :=
  mk_known (empty_tables K) (filter (λ tf, about table column tf = false) (facts K)).
Definition forget_table (K : known) (table : string) : known :=
  mk_known (filter (λ t, t ≠ table) (empty_tables K)) (filter (λ tf, tf.1 ≠ table) (facts K)).
Definition learn (K : known) (fs : list (string * row_fact)) : known := mk_known (empty_tables K) (fs ++ facts K).

(** What holds of the rows that a DELETE leaves. *)
Fixpoint unselected (w : sa.condition) : list row_fact :=
  match w with sa.Or p q => unselected p ++ unselected q | _ => [Unselected w] end.

(** No trigger of the table can raise for an update of the column. *)
Definition harmless (column : string) (g : refusal) : bool :=
  match g with
  | Changed columns => bool_decide (column ∉ columns)
  | Left_from c _ => negb (eqv c column)
  | _ => false
  end.
Definition quiet_update (s : Schema.t) (table column : string) : bool :=
  bool_decide (map_Forall (λ _ t, Trigger.table_name t = table → UPDATE ∈ Trigger.events t →
    forallb (harmless column) (default [] (Schema.functions s !! Trigger.function t)) = true) (Schema.triggers s)).
Definition quiet (s : Schema.t) (table : string) (e : event) : bool :=
  bool_decide (map_Forall (λ _ t, Trigger.table_name t = table → e ∉ Trigger.events t) (Schema.triggers s)).

(** The condition looks at the column only to tell whether it is NULL. *)
Fixpoint nullness_only (column : string) (c : sa.condition) : bool :=
  match c with
  | sa.IsNull _ | sa.IsNotNull _ => true
  | sa.And p q | sa.Or p q | sa.Same p q => nullness_only column p && nullness_only column q
  | _ => bool_decide (column ∉ condition_columns c)
  end.

(** The constraints of a table that are about a column satisfy [f], and no unique index is about it. *)
Definition column_constraints (s : Schema.t) (T : Table.t) (table column : string) (f : sa.constraint → bool) : bool :=
  bool_decide (map_Forall (λ _ k, (mentions column k && negb (f k)) = false) (Table.constraints T))
  && bool_decide (map_Forall (λ _ i, Index.table_name i = table → column ∉ index_columns i) (Schema.indexes s)).

Definition nullness_check (column : string) (k : sa.constraint) : bool :=
  match k with sa.CheckConstraint _ c => nullness_only column c | _ => false end.

(** The facts on a column that follow an update of the values [from] to [to]. *)
Definition updated_facts (fs : list row_fact) (column to : string) (from : list string) : list row_fact :=
  omap (λ f, match f with
             | Holds (sa.Or (sa.IsNull a) (sa.In (sa.Col b) values)) =>
                 if eqv a column && eqv b column then
                   Some (Holds (sa.Or (sa.IsNull a) (sa.In (sa.Col b) (to :: filter (λ v, v ∉ from) values))))
                 else None
             | _ => None
             end) fs.

Definition lint_update (s : Schema.t) (K : known) (table column : string) (to : sa.term) (w : sa.condition) : option known :=
  T ← Schema.tables s !! table;
  require (condition_ok s table w && term_ok s table to && no_constraint (refers_to_column table column) (Schema.tables s)
           && quiet_update s table column) ;;
  col ← Table.columns T !! column;
  match to, w with
  | sa.Lit v, sa.In (sa.Col c) from =>
      require (eqv c column && value_ok col (VString v) && column_constraints s T table column (nullness_check column)) ;;
      Some (learn (forget_column K table column) (pair table <$> updated_facts (facts_of K table) column v from))
  | sa.Col e, sa.IsNull c =>
      source ← Table.columns T !! e;
      require (eqv c column && eqv (sa.type_ source) (sa.type_ col) && negb (sa.nullable source) && negb (eqv e column)
               && column_constraints s T table column (λ _, false)) ;;
      Some (learn (forget_column K table column) [(table, Holds (sa.IsNotNull column))])
  | _, _ => None
  end.

Definition lint_update_from (s : Schema.t) (K : known) (table column source source_column : string) (w : sa.condition) : option known :=
  T ← Schema.tables s !! table;
  S ← Schema.tables s !! source;
  col ← Table.columns T !! column;
  source_col ← Table.columns S !! source_column;
  require (condition_ok s source w && no_constraint (refers_to_column table column) (Schema.tables s)
           && quiet_update s table column && negb (eqv source table)
           && eqv (sa.type_ source_col) (sa.type_ col) && (sa.nullable col || negb (sa.nullable source_col))
           && column_constraints s T table column (λ _, false)) ;;
  Some (forget_column K table column).

(** A key whose columns are among the columns. *)
Definition has_part_key (T : Table.t) (columns : list string) : bool :=
  negb (bool_decide (map_Forall (λ _ k, match key_columns k with Some key => forallb (λ c, bool_decide (c ∈ columns)) key | None => false end = false)
    (Table.constraints T))).

Definition lint_constraint (K : known) (T : Table.t) (table : string) (k : sa.constraint) : bool :=
  is_empty K table
  || match k with
     | sa.CheckConstraint _ c => entails (Table.columns T) (facts_of K table) (Holds c)
     | sa.UniqueConstraint _ columns => has_part_key T columns
     | sa.ForeignKeyConstraint _ columns _ _ _ _ => existsb (λ c, knows_fact K table (Holds (sa.IsNull c))) columns
     | sa.PrimaryKeyConstraint _ => false
     end.
Definition constraint_facts (table : string) (k : sa.constraint) : list (string * row_fact) :=
  match k with sa.CheckConstraint _ c => [(table, Holds c)] | _ => [] end.

(** [None]: the operation might fail on the rows. *)
Definition lint_op (o : op.operation) (s : Schema.t) (K : known) : option known :=
  match o with
  | op.create_table name _ _ => Some (mk_known (name :: empty_tables K) (filter (λ tf, tf.1 ≠ name) (facts K)))
  | op.drop_table name => Some (forget_table K name)
  | op.create_index _ table _ unique _ => require (negb unique || is_empty K table) ;; Some K
  | op.add_column table (c, column) =>
      let v := default VNull (sa.server_default column) in
      require (is_empty K table || value_ok column v) ;;
      Some (learn (forget_column K table c) (if eqv v VNull then [(table, Holds (sa.IsNull c))] else []))
  | op.drop_column table c => Some (forget_column K table c)
  | op.alter_column_nullable table c nullable =>
      require (nullable || is_empty K table || knows_fact K table (Holds (sa.IsNotNull c))) ;; Some K
  | op.create_constraint table k =>
      T ← Schema.tables s !! table;
      require (lint_constraint K T table k) ;; Some (learn K (constraint_facts table k))
  | op.insert table values =>
      T ← Schema.tables s !! table;
      let r := inserted T values in
      require (is_empty K table && bool_decide (NoDup values.*1) && row_ok (Table.columns T) r && quiet s table INSERT
               && bool_decide (map_Forall (λ _ k, (is_none (referent k) && holds ∅ [r] k) = true) (Table.constraints T))
               && bool_decide (map_Forall (λ _ i, Index.table_name i = table → index_holds [r] i = true) (Schema.indexes s))) ;;
      Some (forget_table K table)
  | op.delete table w =>
      require (condition_ok s table w && no_constraint (refers_to table) (Schema.tables s) && quiet s table DELETE) ;;
      Some (learn K (pair table <$> unselected w))
  | op.update table column to w => lint_update s K table column to w
  | op.update_from table column source source_column w _ _ => lint_update_from s K table column source source_column w
  | op.drop_index _ _ | op.alter_column_server_default _ _ _ | op.drop_constraint _ _ _
  | op.create_function _ _ | op.drop_function _ | op.create_trigger _ _ _ _ | op.drop_trigger _ _ => Some K
  end.

(** The operation leaves what the tables of [s0] had. *)
Definition keeps (s0 s : Schema.t) (K : known) (o : op.operation) : bool :=
  let unknown table := is_none (Schema.tables s0 !! table) in
  let unknown_column table c := match Schema.tables s0 !! table with Some T => is_none (Table.columns T !! c) | None => true end in
  let never table w := match Schema.tables s !! table with Some T => entails (Table.columns T) (facts_of K table) (Unselected w) | None => false end in
  match o with
  | op.create_table table _ _ | op.drop_table table | op.insert table _ => unknown table
  | op.add_column table (c, _) | op.drop_column table c => unknown_column table c
  | op.delete table w => unknown table || never table w
  | op.update table c _ w => unknown_column table c || never table w
  | op.update_from table c _ _ _ _ _ => unknown_column table c
  | _ => true
  end.

(** The analysis of a sequence, with a condition on every operation besides. *)
Fixpoint lint (also : Schema.t → known → op.operation → bool) (ops : list op.operation) (s : Schema.t) (K : known)
    : option (Schema.t * known) :=
  match ops with
  | [] => Some (s, K)
  | o :: ops => require (also s K o) ;; K' ← lint_op o s K; s' ← apply_schema o s; lint also ops s' K'
  end.

(** What is known of a valid database. *)
Definition start (s : Schema.t) : known :=
  mk_known [] (map_to_list (Schema.tables s) ≫= λ tT, map_to_list (Table.constraints tT.2) ≫= λ ik, constraint_facts tT.1 ik.2).

(** ** Soundness of the entailment *)

Lemma abstract_value nullable L v : has_kind KString v = true → nullable || negb (eqv v VNull) = true →
  abstract L v ∈ abstract_values nullable L.
Proof.
  unfold abstract_values. intros Hk Hn. apply elem_of_app. destruct v; cbn in *; try done; [left; destruct nullable; [set_solver|done]|right].
  case_bool_decide; [|set_solver]. apply elem_of_cons. right. apply list_elem_of_fmap. eauto.
Qed.
Lemma abstract_null L v : has_kind KString v = true → eqv (abstract L v) VNull = eqv v VNull.
Proof. destruct v; cbn; try done. intros _. by case_bool_decide. Qed.
Lemma abstract_literal L s v : ""%string ∉ L → s ∈ L → has_kind KString v = true → eqv (abstract L v) (VString s) = eqv v (VString s).
Proof.
  intros He Hs. destruct v as [| |t| | | |]; cbn; try done. intros _. case_bool_decide as Ht; [done|]. unfold eqv.
  apply bool_decide_ext. split; intros [= ?]; by subst.
Qed.
Lemma abstract_member L values v : ""%string ∉ L → values ⊆ L → has_kind KString v = true → member (abstract L v) values = member v values.
Proof.
  intros He Hs. destruct v as [| |t| | | |]; cbn; try done. intros _. case_bool_decide as Ht; [done|]. cbn. do 2 f_equal.
  apply bool_decide_ext. split; intros H; exfalso; [apply He|apply Ht]; by apply Hs.
Qed.

Section abstraction.
Context (r r' : row) (L : string → list string).
Definition abstracted (x : string) : Prop := ∃ v, r !! x = Some v ∧ has_kind KString v = true ∧ r' !! x = Some (abstract (L x) v).

Lemma eval_abstract c : plain c = true → (∀ x, x ∈ condition_columns c → abstracted x ∧ ""%string ∉ L x) →
  (∀ x, x ∈ condition_columns c → literals x c ⊆ L x) → eval r' c = eval r c.
Proof.
  induction c as [o a b|a l|a l|x|x|p IHp q IHq|p IHp q IHq|p IHp q IHq]; cbn; intros Hp Ha Hl.
  - destruct a as [x| | | |]; try (by destruct o). destruct b as [|s| | |]; try (by destruct o). cbn in *.
    destruct (Ha x) as [(v & Hv & Hk & Hv') He]; [set_solver|]. rewrite Hv, Hv'. cbn.
    assert (s ∈ L x) as Hs by (specialize (Hl x); rewrite eqv_refl in Hl; set_solver).
    pose proof (abstract_literal _ _ _ He Hs Hk) as Heq. destruct v as [| |t| | | |]; try done; cbn in *. case_bool_decide; destruct o; try done; cbn in *; by rewrite Heq.
  - destruct a as [x| | | |]; try done. cbn in *. destruct (Ha x) as [(v & Hv & Hk & Hv') He]; [set_solver|]. rewrite Hv, Hv'. cbn.
    apply abstract_member; [done| |done]. specialize (Hl x). rewrite eqv_refl in Hl. apply Hl. set_solver.
  - destruct a as [x| | | |]; try done. cbn in *. destruct (Ha x) as [(v & Hv & Hk & Hv') He]; [set_solver|]. rewrite Hv, Hv'. cbn.
    rewrite abstract_member; [done|done| |done]. specialize (Hl x). rewrite eqv_refl in Hl. apply Hl. set_solver.
  - destruct (Ha x) as [(v & Hv & Hk & Hv') He]; [set_solver|]. rewrite Hv, Hv'. cbn. by rewrite abstract_null.
  - destruct (Ha x) as [(v & Hv & Hk & Hv') He]; [set_solver|]. rewrite Hv, Hv'. cbn. by rewrite abstract_null.
  - apply andb_true_iff in Hp as [? ?]. rewrite IHp, IHq; [done|done|intros; apply Ha; set_solver| |done|intros; apply Ha; set_solver|];
      intros x Hx; (etrans; [|apply Hl; set_solver]); set_solver.
  - apply andb_true_iff in Hp as [? ?]. rewrite IHp, IHq; [done|done|intros; apply Ha; set_solver| |done|intros; apply Ha; set_solver|];
      intros x Hx; (etrans; [|apply Hl; set_solver]); set_solver.
  - apply andb_true_iff in Hp as [? ?]. rewrite IHp, IHq; [done|done|intros; apply Ha; set_solver| |done|intros; apply Ha; set_solver|];
      intros x Hx; (etrans; [|apply Hl; set_solver]); set_solver.
Qed.

Lemma fact_abstract f : plain (condition_of f) = true → (∀ x, x ∈ fact_columns f → abstracted x ∧ ""%string ∉ L x) →
  (∀ x, x ∈ fact_columns f → literals x (condition_of f) ⊆ L x) → fact_ok r' f = fact_ok r f.
Proof.
  intros Hp Ha Hl. destruct f as [c|c]; cbn in *; unfold check_holds, selects; by rewrite (eval_abstract c).
Qed.
End abstraction.

Definition fitting (r : row) (nullable : bool) (x : string) : Prop :=
  ∃ v, r !! x = Some v ∧ has_kind KString v = true ∧ nullable || negb (eqv v VNull) = true.

Lemma assignments_abstract (r : row) nullable L names : (∀ x, x ∈ names → fitting r (nullable x) x) →
  ∃ r', r' ∈ assignments names nullable L ∧ ∀ x, x ∈ names → abstracted r r' L x.
Proof.
  induction names as [|x names IH]; intros H; cbn [assignments].
  - exists ∅. split; [set_solver|]. intros x Hx. by apply not_elem_of_nil in Hx.
  - destruct IH as (r' & Hin & Hr'); [intros; apply H; set_solver|]. destruct (H x) as (v & Hv & Hk & Hn); [set_solver|].
    exists (<[x := abstract (L x) v]> r'). split.
    + apply list_elem_of_bind. exists (abstract (L x) v). split; [|by apply abstract_value]. apply list_elem_of_bind.
      exists r'. split; [set_solver|done].
    + intros y Hy. destruct (decide (y = x)) as [->|Hne].
      * exists v. by rewrite lookup_insert_eq.
      * destruct (Hr' y) as (w & ? & ? & ?); [set_solver|]. exists w. by rewrite lookup_insert_ne.
Qed.

Lemma string_column_value columns r x : row_ok columns r = true → string_column columns x = true → fitting r (nullable_column columns x) x.
Proof.
  unfold string_column, nullable_column. intros Hr Hx. destruct (columns !! x) as [column|] eqn:E; [|done]. apply eqv_eq in Hx.
  destruct (row_ok_value _ _ _ _ Hr E) as (v & Hv & Hok). exists v. split; [done|]. unfold value_ok, fits in Hok. rewrite Hx in Hok.
  apply andb_true_iff in Hok as [Hok ?]. split; [|done]. by apply andb_true_iff in Hok as [Hok ?].
Qed.

Lemma follows_sound columns facts goal r : follows columns facts goal = true → row_ok columns r = true →
  (∀ f, f ∈ facts → fact_ok r f = true) → fact_ok r goal = true.
Proof.
  unfold follows. set (conditions := condition_of <$> goal :: facts). set (names := remove_dups _). set (L := λ x : string, remove_dups (conditions ≫= literals x)).
  rewrite !andb_true_iff, !forallb_in. intros [[[Hp Hs] He] Hall] Hr Hf.
  destruct (assignments_abstract r (nullable_column columns) L names) as (r' & Hin & Ha); [intros x Hx; eapply string_column_value; [done|by apply Hs]|].
  specialize (Hall _ Hin).
  assert (∀ f, f ∈ goal :: facts → fact_ok r' f = fact_ok r f) as Hsame.
  { intros f Hfin. assert (condition_of f ∈ conditions) as Hc by (apply list_elem_of_fmap; eauto).
    assert (∀ x, x ∈ fact_columns f → x ∈ names) as Hn.
    { intros x Hx. apply elem_of_remove_dups, list_elem_of_bind. exists (condition_of f). split; [done|done]. }
    apply (fact_abstract r r' L); [by apply Hp| |].
    - intros x Hx. split; [by apply Ha, Hn|]. specialize (He _ (Hn _ Hx)). by apply bool_decide_eq_true in He.
    - intros x Hx s Hsin. apply elem_of_remove_dups, list_elem_of_bind. eauto. }
  rewrite Hsame in Hall by set_solver. assert (forallb (fact_ok r') facts = true) as Hfacts.
  { apply forallb_in. intros f Hfin. rewrite Hsame by set_solver. by apply Hf. }
  rewrite Hfacts in Hall. done.
Qed.

Lemma entails_sound columns facts goal r : entails columns facts goal = true → row_ok columns r = true →
  (∀ f, f ∈ facts → fact_ok r f = true) → fact_ok r goal = true.
Proof.
  unfold entails. intros H Hr Hf. apply orb_true_iff in H as [H|H]; (eapply follows_sound; [exact H|done|]);
    intros f [_ Hin]%list_elem_of_filter; by apply Hf.
Qed.

(** ** Soundness of the analysis *)

Definition knows (K : known) (d : contents) : Prop :=
  (∀ t, t ∈ empty_tables K → d !! t = Some []) ∧ (∀ t f r, (t, f) ∈ facts K → r ∈ rows_in d t → fact_ok r f = true).

Lemma fact_ok_agree f r r' : agree (fact_columns f) r r' → fact_ok r f = fact_ok r' f.
Proof.
  intros H. destruct f; cbn; [by apply check_holds_agree|]. f_equal. by apply selects_agree.
Qed.

Section sound.
Implicit Types (s : Schema.t) (T : Table.t) (K : known) (d : contents) (table column : string).

Lemma is_empty_spec K d table : knows K d → is_empty K table = true → d !! table = Some [].
Proof. intros [He _] H. apply bool_decide_eq_true in H. by apply He. Qed.
Lemma is_empty_rows K d table : knows K d → is_empty K table = true → rows_in d table = [].
Proof. intros Hk H. unfold rows_in. by rewrite (is_empty_spec K). Qed.
Lemma knows_fact_spec K d table f r : knows K d → knows_fact K table f = true → r ∈ rows_in d table → fact_ok r f = true.
Proof. intros [_ Hf] H. apply bool_decide_eq_true in H. by apply Hf. Qed.
Lemma facts_of_spec K d table r f : knows K d → r ∈ rows_in d table → f ∈ facts_of K table → fact_ok r f = true.
Proof. intros [_ Hf] Hr ([t f'] & -> & [Ht Hin]%list_elem_of_filter)%list_elem_of_fmap. cbn in *. subst t. by eapply Hf. Qed.

Lemma knows_learn K d fs : knows K d → (∀ t f r, (t, f) ∈ fs → r ∈ rows_in d t → fact_ok r f = true) → knows (learn K fs) d.
Proof. intros [He Hf] H. split; [done|]. intros t f r [Hin|Hin]%elem_of_app; eauto. Qed.

Lemma knows_rerow K d table rows : knows K d → knows (forget_table K table) (<[table := rows]> d).
Proof.
  intros [He Hf]. split; cbn.
  - intros t [Hne Hin]%list_elem_of_filter. rewrite lookup_insert_ne; [by apply He|done].
  - intros t f r [Hne Hin]%list_elem_of_filter Hr. unfold rows_in in Hr. rewrite lookup_insert_ne in Hr by done. by eapply Hf.
Qed.

Lemma knows_column K d table column (f : row → row) : knows K d → (∀ r x, x ≠ column → r !! x = f r !! x) → is_Some (d !! table) →
  knows (forget_column K table column) (<[table := f <$> rows_in d table]> d).
Proof.
  intros [He Hf] Hsame [rows Hrows]. split; cbn.
  - intros t Hin. destruct (decide (t = table)) as [->|Hne]; [|rewrite lookup_insert_ne; by auto].
    rewrite lookup_insert_eq. unfold rows_in. by rewrite (He _ Hin).
  - intros t g r [Hab Hin]%list_elem_of_filter Hr. destruct (decide (t = table)) as [->|Hne].
    + rewrite rows_in_insert in Hr. apply list_elem_of_fmap in Hr as (r0 & -> & Hr). unfold about in Hab. cbn in Hab. rewrite eqv_refl in Hab.
      apply bool_decide_eq_false in Hab. rewrite <- (fact_ok_agree g r0); [by eapply Hf|]. intros x Hx. apply Hsame. by intros ->.
    + unfold rows_in in Hr. rewrite lookup_insert_ne in Hr by done. by eapply Hf.
Qed.

(** *** UPDATE *)

Lemma assign_same f column r x : x ≠ column → r !! x = assign column f r !! x.
Proof. intros Hx. unfold assign. destruct (f r); [by rewrite lookup_insert_ne|done]. Qed.

Lemma quiet_update_passes s d table column f r : quiet_update s table column = true → passes s d table UPDATE r (assign column f r) = true.
Proof.
  unfold quiet_update, passes. rewrite !bool_decide_eq_true. intros H n t Ht Htab Hev. specialize (H _ _ Ht Htab Hev). cbn in *.
  apply forallb_in. intros g Hg. eapply forallb_in in H; [|exact Hg]. apply negb_true_iff. destruct g; cbn in *; try done.
  - apply bool_decide_eq_true in H. apply not_true_iff_false. intros (c & Hc%list_elem_of_In & Hne)%existsb_exists.
    rewrite <- assign_same in Hne by (by intros ->). by rewrite eqv_refl in Hne.
  - apply negb_true_iff, eqv_false in H. rewrite <- assign_same by done. rewrite eqv_refl. apply andb_false_r.
Qed.

Lemma column_constraints_spec s T table column ok : column_constraints s T table column ok = true →
  (∀ i k, Table.constraints T !! i = Some k → column ∈ constraint_columns k → ok k = true)
  ∧ (∀ m i, Schema.indexes s !! m = Some i → Index.table_name i = table → column ∉ index_columns i).
Proof.
  unfold column_constraints. rewrite andb_true_iff, !bool_decide_eq_true. intros [Hc Hi]. split; [|intros m i Hm; by apply (Hi _ _ Hm)].
  intros i k Hk Hin. specialize (Hc _ _ Hk). cbn in Hc. unfold mentions in Hc. rewrite bool_decide_eq_true_2 in Hc by done.
  by apply negb_false_iff in Hc.
Qed.

Lemma update_succeeds s d table T rows column col f ok : schema_ok s → complete s d →
  Schema.tables s !! table = Some T → d !! table = Some rows → Table.columns T !! column = Some col →
  no_constraint (refers_to_column table column) (Schema.tables s) = true → quiet_update s table column = true →
  column_constraints s T table column ok = true →
  (∀ r v, r ∈ rows → f r = Some v → value_ok col v = true) →
  (∀ k, ok k = true → ∃ name c, k = sa.CheckConstraint name c) →
  (∀ name c r, ok (sa.CheckConstraint name c) = true → r ∈ rows → check_holds c r = true → check_holds c (assign column f r) = true) →
  update_rows s d table column f = Some (<[table := assign column f <$> rows]> d).
Proof.
  intros Hs Hcom HT Hrows Hcol Hno Hq Hcc Hv Hkind Hok. apply column_constraints_spec in Hcc as [Hcc Hidx].
  unfold update_rows. rewrite HT, Hrows. cbn [mbind option_bind]. rewrite Hcol, Hno. cbn [is_some andb require mbind option_bind].
  assert (forallb (λ r, is_none (f r) || passes s d table UPDATE r (assign column f r)) rows = true) as ->.
  { apply forallb_in. intros r Hr. rewrite quiet_update_passes by done. apply orb_true_r. }
  cbn [require mbind option_bind]. enough (consistent s (<[table := assign column f <$> rows]> d) table = true) as -> by done.
  pose proof (proj2 Hcom _ (ex_intro _ _ HT)) as Hc. rewrite (consistent_spec _ _ _ _ HT) in Hc. rewrite (consistent_spec _ _ _ _ HT).
  rewrite rows_in_insert. rewrite (rows_in_lookup _ _ _ Hrows) in Hc. destruct Hc as (Hr0 & Hc0 & Hi0).
  assert (∀ columns, column ∉ columns → agreeing columns rows (assign column f <$> rows)) as Hag.
  { intros columns Hnot. apply agreeing_fmap. intros r x Hx. apply assign_same. by intros ->. }
  split_and!.
  - intros r (r0 & -> & Hr)%list_elem_of_fmap. unfold assign. destruct (f r0) as [v|] eqn:E; [|by apply Hr0].
    rewrite <- (insert_id (Table.columns T) column col) by done. apply row_ok_insert; [by apply Hr0|by eapply Hv].
  - intros i k Hk. destruct (decide (column ∈ constraint_columns k)) as [Hin|Hnot].
    + specialize (Hcc _ _ Hk Hin). specialize (Hc0 _ _ Hk). destruct (Hkind _ Hcc) as (name & c & ->). cbn in *. apply forallb_in.
      intros r (r0 & -> & Hr)%list_elem_of_fmap. eapply Hok; [done|done|]. by eapply forallb_in in Hc0.
    + specialize (Hc0 _ _ Hk). rewrite <- Hc0. symmetry. apply holds_agree; [by apply Hag|]. intros t rc Hr.
      destruct (decide (t = table)) as [->|Hne].
      * rewrite rows_in_insert, (rows_in_lookup _ _ _ Hrows). apply Hag. intros Hin. rewrite no_constraint_spec in Hno.
        specialize (Hno _ _ _ _ HT Hk). destruct k; try done. cbn in *. injection Hr as -> ->. rewrite eqv_refl in Hno. cbn in Hno.
        by apply bool_decide_eq_false in Hno.
      * unfold rows_in at 2. rewrite lookup_insert_ne by done. apply agreeing_refl.
  - intros m i Hm Ht. rewrite <- (index_holds_agree rows); [by eapply Hi0|by eapply Hag, Hidx].
Qed.
End sound.

Section update.
Implicit Types (s : Schema.t) (T : Table.t) (K : known) (d : contents) (table column : string).

Lemma nullness_eval column c r r' : nullness_only column c = true → (∀ x, x ≠ column → r !! x = r' !! x) →
  (∃ v v', r !! column = Some v ∧ r' !! column = Some v' ∧ eqv v VNull = eqv v' VNull) → eval r c = eval r' c.
Proof.
  intros Hn Hs (v & v' & Hv & Hv' & He).
  assert (∀ x, ((v ← r !! x; Some (Some (eqv v VNull))) : option truth) = (v ← r' !! x; Some (Some (eqv v VNull)))
    ∧ ((v ← r !! x; Some (Some (negb (eqv v VNull)))) : option truth) = (v ← r' !! x; Some (Some (negb (eqv v VNull))))) as Hx.
  { intros x. destruct (decide (x = column)) as [->|Hne]; [|by rewrite Hs]. rewrite Hv, Hv'. cbn. by rewrite He. }
  induction c; cbn in Hn |- *; try (by apply Hx); try (apply andb_true_iff in Hn as [? ?]; by rewrite IHc1, IHc2).
  all: apply bool_decide_eq_true in Hn; cbn in Hn; rewrite ?(eval_term_agree _ r r'); try done;
    intros x Hin; apply Hs; set_solver.
Qed.

Lemma selects_in column values r : selects (sa.In (sa.Col column) values) r = true → ∃ t, r !! column = Some (VString t) ∧ t ∈ values.
Proof.
  unfold selects. cbn. intros H%eqv_eq. destruct (r !! column) as [v|]; [|done]. destruct v; try done. cbn in H. injection H as H.
  apply bool_decide_eq_true in H. eauto.
Qed.

Lemma selects_in_string column values r t : r !! column = Some (VString t) → selects (sa.In (sa.Col column) values) r = bool_decide (t ∈ values).
Proof. intros H. unfold selects. cbn. rewrite H. cbn. by case_bool_decide. Qed.
Lemma selects_in_null column values r : r !! column = Some VNull → selects (sa.In (sa.Col column) values) r = false.
Proof. intros H. unfold selects. cbn. by rewrite H. Qed.
Lemma selects_null column r v : r !! column = Some v → selects (sa.IsNull column) r = eqv v VNull.
Proof. intros H. unfold selects. cbn. rewrite H. cbn. by destruct (eqv v VNull). Qed.
Lemma check_not_null column r v : r !! column = Some v → check_holds (sa.IsNotNull column) r = negb (eqv v VNull).
Proof. intros H. unfold check_holds. cbn. rewrite H. cbn. by destruct (eqv v VNull). Qed.

Definition in_or_null column (values : list string) : sa.condition := sa.Or (sa.IsNull column) (sa.In (sa.Col column) values).

Lemma in_or_null_spec column values r : check_holds (in_or_null column values) r = true ↔
  r !! column = Some VNull ∨ ∃ t, r !! column = Some (VString t) ∧ t ∈ values.
Proof.
  unfold check_holds, in_or_null. cbn. destruct (r !! column) as [v|]; [|cbn; naive_solver]. destruct v as [| |t| | | |]; cbn; try naive_solver.
  case_bool_decide; cbn; naive_solver.
Qed.

Lemma updated_facts_spec fs column v from g : g ∈ updated_facts fs column v from →
  ∃ values, g = Holds (in_or_null column (v :: filter (λ x, x ∉ from) values)) ∧ Holds (in_or_null column values) ∈ fs.
Proof.
  intros (f & Hf & H)%list_elem_of_omap. destruct f as [c|c]; [|done]. destruct c as [| | | | | |p q|]; try done. destruct p as [| | |a| | | |]; try done.
  destruct q as [|t values| | | | | |]; try done. destruct t as [b| | | |]; try done. destruct (_ && _) eqn:E; [|done]. breflect.
  repeat match goal with H : eqv _ _ = true |- _ => apply eqv_eq in H end. subst. injection H as <-. by exists values.
Qed.

Lemma literal_update_sound s d K table T col column v from : schema_ok s → complete s d → knows K d →
  Schema.tables s !! table = Some T → Table.columns T !! column = Some col →
  no_constraint (refers_to_column table column) (Schema.tables s) = true → quiet_update s table column = true →
  value_ok col (VString v) = true → column_constraints s T table column (nullness_check column) = true →
  let f := assigned (sa.Lit v) (sa.In (sa.Col column) from) in
  ∃ d', update_rows s d table column f = Some d'
    ∧ knows (learn (forget_column K table column) (pair table <$> updated_facts (facts_of K table) column v from)) d'.
Proof.
  intros Hs Hcom Hk HT Hcol Hno Hq Hv Hcc f. destruct (complete_rows s d table Hcom) as [rows Hrows]; [by eexists|].
  exists (<[table := assign column f <$> rows]> d). split.
  - eapply (update_succeeds s d table T rows column col); [done..| | | ].
    + intros r w Hr. unfold f, assigned. destruct (selects _ r); [|done]. by intros [= <-].
    + intros k Hkk. destruct k; try done. eauto.
    + intros name c r Hn Hr Hc. cbn in Hn. unfold assign. destruct (f r) as [w|] eqn:E; [|done].
      unfold f, assigned in E. destruct (selects _ r) eqn:Es; [|done]. injection E as <-. apply selects_in in Es as (t & Ht & _).
      rewrite <- Hc. unfold check_holds. rewrite <- (nullness_eval column c r); [done|done| |].
      * intros x Hx. by rewrite lookup_insert_ne.
      * exists (VString t), (VString v). by rewrite lookup_insert_eq.
  - apply knows_learn.
    + rewrite <- (rows_in_lookup _ _ _ Hrows). apply knows_column; [done| |by eexists]. intros r x. apply assign_same.
    + intros t g r' Hg Hr'. apply list_elem_of_fmap in Hg as (g' & [= -> ->] & Hg). rewrite rows_in_insert in Hr'.
      apply list_elem_of_fmap in Hr' as (r & -> & Hr). apply updated_facts_spec in Hg as (values & -> & Hg).
      rewrite <- (rows_in_lookup _ _ _ Hrows) in Hr. pose proof (facts_of_spec _ _ _ _ _ Hk Hr Hg) as Hold. cbn -[in_or_null] in *.
      rewrite in_or_null_spec in Hold. rewrite in_or_null_spec. unfold assign, f, assigned.
      destruct Hold as [Hn|(t & Ht & Hin)].
      * rewrite (selects_in_null _ _ _ Hn). by left.
      * rewrite (selects_in_string _ _ _ _ Ht). case_bool_decide as Hf; cbn; right.
        -- exists v. rewrite lookup_insert_eq. split; [done|]. set_solver.
        -- exists t. split; [done|]. apply elem_of_cons. right. by apply list_elem_of_filter.
Qed.

Lemma value_ok_not_null col v : value_ok col v = true → sa.nullable col = false → v ≠ VNull.
Proof. unfold value_ok. intros [_ H]%andb_true_iff Hn ->. by rewrite Hn in H. Qed.
Lemma value_ok_type col col' v : value_ok col v = true → sa.type_ col = sa.type_ col' →
  sa.nullable col' || negb (sa.nullable col) = true → value_ok col' v = true.
Proof.
  unfold value_ok. intros [Hf Hn]%andb_true_iff Ht Ho. rewrite <- Ht, Hf. cbn. destruct (sa.nullable col'); [done|].
  cbn in *. apply negb_true_iff in Ho. by rewrite Ho in Hn.
Qed.

Lemma complete_row_ok s d table T r : complete s d → Schema.tables s !! table = Some T → r ∈ rows_in d table → row_ok (Table.columns T) r = true.
Proof.
  intros [_ Hc] HT Hr. specialize (Hc _ (ex_intro _ _ HT)). rewrite (consistent_spec _ _ _ _ HT) in Hc. by apply (proj1 Hc).
Qed.

Lemma default_update_sound s d K table T col source column e : schema_ok s → complete s d → knows K d →
  Schema.tables s !! table = Some T → Table.columns T !! column = Some col → Table.columns T !! e = Some source →
  no_constraint (refers_to_column table column) (Schema.tables s) = true → quiet_update s table column = true →
  sa.type_ source = sa.type_ col → sa.nullable source = false → e ≠ column → column_constraints s T table column (λ _, false) = true →
  ∃ d', update_rows s d table column (assigned (sa.Col e) (sa.IsNull column)) = Some d'
    ∧ knows (learn (forget_column K table column) [(table, Holds (sa.IsNotNull column))]) d'.
Proof.
  intros Hs Hcom Hk HT Hcol He Hno Hq Ht Hn Hne Hcc. destruct (complete_rows s d table Hcom) as [rows Hrows]; [by eexists|].
  set (f := assigned _ _). assert (∀ r, r ∈ rows → row_ok (Table.columns T) r = true) as Hrow.
  { intros r Hr. rewrite <- (rows_in_lookup _ _ _ Hrows) in Hr. by eapply complete_row_ok. }
  exists (<[table := assign column f <$> rows]> d). split.
  - eapply (update_succeeds s d table T rows column col); [done..| |done|done].
    intros r v Hr. unfold f, assigned. destruct (selects _ r); [|done]. cbn. intros Hv.
    destruct (row_ok_value _ _ _ _ (Hrow _ Hr) He) as (w & Hw & Hok). simplify_eq. eapply value_ok_type; [done|done|]. rewrite Hn. apply orb_true_r.
  - apply knows_learn.
    + rewrite <- (rows_in_lookup _ _ _ Hrows). apply knows_column; [done| |by eexists]. intros r x. apply assign_same.
    + intros t g r' Hg Hr'. apply list_elem_of_singleton in Hg. injection Hg as -> ->. rewrite rows_in_insert in Hr'.
      apply list_elem_of_fmap in Hr' as (r & -> & Hr). cbn. destruct (row_ok_value _ _ _ _ (Hrow _ Hr) He) as (w & Hw & Hok).
      destruct (row_ok_value _ _ _ _ (Hrow _ Hr) Hcol) as (v & Hv & _). pose proof (value_ok_not_null _ _ Hok Hn) as Hnull.
      unfold assign, f, assigned. rewrite (selects_null _ _ _ Hv). destruct (eqv v VNull) eqn:Ev; cbn.
      * rewrite Hw. rewrite (check_not_null _ _ w) by (by rewrite lookup_insert_eq). by apply negb_true_iff, eqv_false.
      * rewrite (check_not_null _ _ v) by done. by rewrite Ev.
Qed.

Lemma lint_update_sound s d K K' table column to w : schema_ok s → complete s d → knows K d → lint_update s K table column to w = Some K' →
  ∃ d', apply_rows (op.update table column to w) s d = Some d' ∧ knows K' d'.
Proof.
  intros Hs Hcom Hk E. unfold lint_update in E. apply bind_Some in E as (T & HT & E). apply bind_Some in E as ([] & Hreq & E).
  apply require_true in Hreq. breflect. apply bind_Some in E as (col & Hcol & E).
  assert (∀ x d', update_rows s d table column x = Some d' → x = assigned to w → apply_rows (op.update table column to w) s d = Some d') as Happ.
  { intros x d' Hx ->. cbn. by rewrite H, H2. }
  destruct to as [e|v| | |]; try done; destruct w as [|t from| |c| | | |]; try done.
  - apply bind_Some in E as (source & He & E). apply bind_Some in E as ([] & Hreq & E). apply require_true in Hreq. injection E as <-.
    repeat (apply andb_true_iff in Hreq as [Hreq ?]). apply eqv_eq in Hreq as ->. breflect.
    repeat match goal with H : eqv _ _ = true |- _ => apply eqv_eq in H end.
    destruct (default_update_sound s d K table T col source column e) as (d' & Hd' & Hk'); try done. exists d'. split; [|done]. by eapply Happ.
  - destruct t as [c| | | |]; try done. apply bind_Some in E as ([] & Hreq & E). apply require_true in Hreq. injection E as <-.
    repeat (apply andb_true_iff in Hreq as [Hreq ?]). apply eqv_eq in Hreq as ->.
    destruct (literal_update_sound s d K table T col column v from) as (d' & Hd' & Hk'); try done. exists d'. split; [|done]. by eapply Happ.
Qed.

Lemma first_row_elem order_by rows r : first_row order_by rows = Some r → r ∈ rows.
Proof.
  unfold first_row. induction rows as [|x rows IH]; cbn; [done|]. destruct (foldr _ _ rows) as [b|]; [|intros [= ->]; set_solver].
  destruct (row_le order_by x b); intros [= <-]; [set_solver|]. apply elem_of_cons. right. by apply IH.
Qed.

Lemma lint_update_from_sound s d K K' table column source source_column w join order_by : schema_ok s → complete s d → knows K d →
  lint_update_from s K table column source source_column w = Some K' →
  ∃ d', apply_rows (op.update_from table column source source_column w join order_by) s d = Some d' ∧ knows K' d'.
Proof.
  intros Hs Hcom Hk E. unfold lint_update_from in E. apply bind_Some in E as (T & HT & E). apply bind_Some in E as (S & HS & E).
  apply bind_Some in E as (col & Hcol & E). apply bind_Some in E as (source_col & Hsc & E). apply bind_Some in E as ([] & Hreq & E).
  apply require_true in Hreq. injection E as <-. repeat (apply andb_true_iff in Hreq as [Hreq ?]). rename Hreq into Hcond.
  destruct (complete_rows s d table Hcom) as [rows Hrows]; [by eexists|].
  set (f := assigned_from (rows_in d source) source_column w join order_by).
  exists (<[table := assign column f <$> rows]> d). cbn -[update_rows]. rewrite Hcond. cbn -[update_rows]. split.
  - eapply (update_succeeds s d table T rows column col); [done..| |done|done].
    intros r v Hr Hf. unfold f, assigned_from in Hf. apply bind_Some in Hf as (e & He & Hv).
    apply first_row_elem, list_elem_of_filter in He as [_ He]. pose proof (complete_row_ok _ _ _ _ _ Hcom HS He) as Hok.
    destruct (row_ok_value _ _ _ _ Hok Hsc) as (v' & Hv' & Hvok). simplify_eq. eapply value_ok_type; [done| |done]. by apply eqv_eq.
  - rewrite <- (rows_in_lookup _ _ _ Hrows). apply knows_column; [done| |by eexists]. intros r x. apply assign_same.
Qed.
End update.

Section lint.
Implicit Types (s : Schema.t) (T : Table.t) (K : known) (d : contents) (table column : string).

Lemma mapM_lookup_agree (columns : list string) (r r' : row) vs :
  mapM (λ c, r !! c) columns = Some vs → mapM (λ c, r' !! c) columns = Some vs → ∀ c, c ∈ columns → r !! c = r' !! c.
Proof.
  revert vs. induction columns as [|x columns IH]; intros vs H H' c Hc; [by apply not_elem_of_nil in Hc|].
  cbn in H, H'. apply bind_Some in H as (v & Hv & H). apply bind_Some in H as (ws & Hws & H). injection H as <-.
  apply bind_Some in H' as (v' & Hv' & H'). apply bind_Some in H' as (ws' & Hws' & H'). injection H' as -> ->.
  apply elem_of_cons in Hc as [->|Hc]; [congruence|by eapply IH].
Qed.
Lemma mapM_lookup_some (columns : list string) (r : row) vs :
  mapM (λ c, r !! c) columns = Some vs → ∀ c, c ∈ columns → ∃ v, r !! c = Some v ∧ v ∈ vs.
Proof.
  revert vs. induction columns as [|x columns IH]; intros vs H c Hc; [by apply not_elem_of_nil in Hc|].
  cbn in H. apply bind_Some in H as (v & Hv & H). apply bind_Some in H as (ws & Hws & H). injection H as <-.
  apply elem_of_cons in Hc as [->|Hc]; [exists v; set_solver|]. destruct (IH _ Hws _ Hc) as (w & ? & ?). exists w. set_solver.
Qed.
Lemma mapM_lookup_total (columns : list string) (r : row) (P : value → Prop) :
  (∀ c, c ∈ columns → ∃ v, r !! c = Some v ∧ P v) → ∃ vs, mapM (λ c, r !! c) columns = Some vs ∧ Forall P vs.
Proof.
  induction columns as [|x columns IH]; intros H; [by exists []|]. destruct (H x) as (v & Hv & Hp); [set_solver|].
  destruct IH as (vs & Hvs & Hf); [intros; apply H; set_solver|]. exists (v :: vs). cbn. rewrite Hv. cbn. rewrite Hvs. cbn. split; [done|by constructor].
Qed.

Lemma key_of_part key columns r r' k : key ⊆ columns → key_of columns r = Some k → key_of columns r' = Some k →
  ∃ k', key_of key r = Some k' ∧ key_of key r' = Some k'.
Proof.
  unfold key_of. intros Hsub H H'. apply bind_Some in H as (vs & Hvs & H). apply bind_Some in H' as (vs' & Hvs' & H').
  case_bool_decide as Hn; [done|]. case_bool_decide; [done|]. simplify_eq.
  destruct (mapM_lookup_total key r (λ v, v ≠ VNull)) as (ks & Hks & Hf).
  { intros c Hc. destruct (mapM_lookup_some _ _ _ Hvs c) as (v & Hv & Hin); [by apply Hsub|]. exists v. split; [done|]. by intros ->. }
  assert (mapM (λ c, r' !! c) key = Some ks) as Hks'.
  { rewrite <- Hks. clear -Hsub Hvs Hvs'. induction key as [|x key IH]; [done|]. cbn. rewrite IH by set_solver.
    by rewrite (mapM_lookup_agree _ _ _ _ Hvs Hvs' x) by set_solver. }
  exists ks. rewrite Hks, Hks'. cbn. rewrite bool_decide_eq_false_2; [done|]. intros Hin. eapply Forall_forall in Hf; [|exact Hin]. done.
Qed.

Lemma NoDup_omap_finer {A B} (f g : A → option B) l :
  (∀ x y k, g x = Some k → g y = Some k → ∃ k', f x = Some k' ∧ f y = Some k') → NoDup (omap f l) → NoDup (omap g l).
Proof.
  intros H. induction l as [|x l IH]; cbn; [constructor|]. intros Hf. destruct (g x) as [k|] eqn:Eg.
  - destruct (H x x k Eg Eg) as (k' & Ek & _). rewrite Ek in Hf. apply NoDup_cons in Hf as [Hnot Hf]. constructor; [|by apply IH].
    intros (y & Hy & Eg')%list_elem_of_omap. destruct (H x y k Eg Eg') as (k'' & E1 & E2). apply Hnot, list_elem_of_omap.
    exists y. split; [done|]. congruence.
  - apply IH. destruct (f x); [by apply NoDup_cons in Hf as [_ Hf]|done].
Qed.

Lemma part_key_unique s d table T columns : complete s d → Schema.tables s !! table = Some T → has_part_key T columns = true →
  unique_on columns (rows_in d table) = true.
Proof.
  intros [_ Hc] HT H. specialize (Hc _ (ex_intro _ _ HT)). rewrite (consistent_spec _ _ _ _ HT) in Hc. destruct Hc as (_ & Hc & _).
  unfold has_part_key in H. apply negb_true_iff, bool_decide_eq_false, map_not_Forall in H as (i & k & Hk & H); [|intros; apply _].
  destruct (key_columns k) as [key|] eqn:E; [|done]. apply not_false_is_true in H. specialize (Hc _ _ Hk).
  assert (unique_on key (rows_in d table) = true) as Hu.
  { destruct k; try done; cbn in *; injection E as <-; [by apply andb_true_iff in Hc as [? _]|done]. }
  unfold unique_on in *. apply bool_decide_eq_true in Hu. apply bool_decide_eq_true. revert Hu. apply NoDup_omap_finer.
  intros r r' vs. apply key_of_part. intros c Hin. eapply forallb_in in H; [|exact Hin]. by apply bool_decide_eq_true in H.
Qed.

Lemma lint_constraint_sound s d K T table k : complete s d → knows K d → Schema.tables s !! table = Some T →
  lint_constraint K T table k = true → holds d (rows_in d table) k = true.
Proof.
  intros Hcom Hk HT H. unfold lint_constraint in H. apply orb_true_iff in H as [H|H]; [rewrite (is_empty_rows K) by done; apply holds_nil|].
  destruct k as [cols|n cols|n c|n cols t rc od df]; [done| | |]; cbn.
  - by eapply part_key_unique.
  - apply forallb_in. intros r Hr. change (fact_ok r (Holds c) = true). eapply entails_sound; [exact H|by eapply complete_row_ok|].
    intros f. by eapply facts_of_spec.
  - apply existsb_exists in H as (c & Hc%list_elem_of_In & H). apply forallb_in. intros r Hr.
    pose proof (knows_fact_spec _ _ _ _ _ Hk H Hr) as Hf. cbn in Hf. unfold check_holds in Hf. cbn in Hf.
    unfold refers, key_of. destruct (mapM (λ c, r !! c) cols) as [vs|] eqn:E; [|done]. cbn.
    destruct (mapM_lookup_some _ _ _ E c Hc) as (v & Hv & Hin). rewrite Hv in Hf. cbn in Hf. destruct (eqv v VNull) eqn:Ev; [|done].
    apply eqv_eq in Ev as ->. by rewrite bool_decide_eq_true_2.
Qed.

Lemma quiet_passes s d table e old new : quiet s table e = true → passes s d table e old new = true.
Proof.
  unfold quiet, passes. rewrite !bool_decide_eq_true. intros H n t Ht Htab Hev. by destruct (H _ _ Ht Htab Hev).
Qed.

Lemma unselected_self w r f : selects w r = false → f ∈ [Unselected w] → fact_ok r f = true.
Proof. intros H ->%list_elem_of_singleton. cbn. by rewrite H. Qed.
Lemma unselected_spec w r f : is_Some (eval r w) → selects w r = false → f ∈ unselected w → fact_ok r f = true.
Proof.
  induction w as [| | | | | |p IHp q IHq|]; cbn [unselected]; intros Hs H Hf; try by eapply unselected_self.
  assert (is_Some (eval r p) ∧ is_Some (eval r q) ∧ selects p r = false ∧ selects q r = false) as (Hp & Hq & Hsp & Hsq).
  { unfold selects in *. cbn in *. destruct (eval r p) as [x|]; [|by destruct Hs]. destruct (eval r q) as [y|]; [|by destruct Hs].
    cbn in *. split_and!; [by eexists..| |]; by destruct x as [[]|], y as [[]|]. }
  apply elem_of_app in Hf as [Hf|Hf]; auto.
Qed.

Lemma condition_total s d table T w r : complete s d → Schema.tables s !! table = Some T → condition_ok s table w = true →
  r ∈ rows_in d table → is_Some (eval r w).
Proof.
  intros Hcom HT Hw Hr. unfold condition_ok in Hw. rewrite HT in Hw. eapply eval_total; [by eapply complete_row_ok|done].
Qed.

Lemma lint_delete_sound s d K table w : schema_ok s → complete s d → knows K d → is_Some (Schema.tables s !! table) →
  condition_ok s table w && no_constraint (refers_to table) (Schema.tables s) && quiet s table DELETE = true →
  ∃ d', apply_rows (op.delete table w) s d = Some d' ∧ knows (learn K (pair table <$> unselected w)) d'.
Proof.
  intros Hs Hcom [He Hf] [T HT] Hreq. repeat (apply andb_true_iff in Hreq as [Hreq ?]). rename Hreq into Hw.
  destruct (complete_rows s d table Hcom) as [rows Hrows]; [by eexists|]. exists (<[table := filter (λ r, selects w r = false) rows]> d).
  split.
  - cbn. rewrite Hrows. cbn. rewrite Hw. match goal with H : no_constraint _ _ = true |- _ => rewrite H end. cbn.
    assert (forallb (λ r, negb (selects w r) || passes s d table DELETE r ∅) rows = true) as ->; [|done].
    apply forallb_in. intros r Hr. rewrite quiet_passes by done. apply orb_true_r.
  - apply knows_learn; [split|].
    + intros t Ht. destruct (decide (t = table)) as [->|Hne]; [|rewrite lookup_insert_ne; by auto].
      rewrite lookup_insert_eq. specialize (He _ Ht). by simplify_eq.
    + intros t f r Hin Hr. destruct (decide (t = table)) as [->|Hne].
      * rewrite rows_in_insert in Hr. apply list_elem_of_filter in Hr as [_ Hr]. eapply Hf; [done|]. by rewrite (rows_in_lookup _ _ _ Hrows).
      * unfold rows_in in Hr. rewrite lookup_insert_ne in Hr by done. by eapply Hf.
    + intros t f r (g & [= -> ->] & Hg)%list_elem_of_fmap Hr. rewrite rows_in_insert in Hr. apply list_elem_of_filter in Hr as [Hsel Hr].
      eapply unselected_spec; [|done|done]. eapply condition_total; [done..|]. by rewrite (rows_in_lookup _ _ _ Hrows).
Qed.

Lemma lint_insert_sound s d K T table values : schema_ok s → complete s d → knows K d → Schema.tables s !! table = Some T →
  let r := inserted T values in
  is_empty K table = true → bool_decide (NoDup values.*1) = true → row_ok (Table.columns T) r = true → quiet s table INSERT = true →
  map_Forall (λ _ k, (is_none (referent k) && holds ∅ [r] k) = true) (Table.constraints T) →
  map_Forall (λ _ i, Index.table_name i = table → index_holds [r] i = true) (Schema.indexes s) →
  ∃ d', apply_rows (op.insert table values) s d = Some d' ∧ knows (forget_table K table) d'.
Proof.
  intros Hs Hcom Hk HT r Hem Hnd Hrow Hq Hc Hi. pose proof (is_empty_spec _ _ _ Hk Hem) as Hrows.
  exists (<[table := [r]]> d). split; [|by apply knows_rerow].
  cbn. rewrite HT. cbn. rewrite Hrows. cbn. rewrite Hnd. fold r. rewrite quiet_passes by done. cbn.
  enough (consistent s (<[table := [r]]> d) table = true) as -> by done.
  rewrite (consistent_spec _ _ _ _ HT), rows_in_insert. split_and!.
  - intros r' ->%list_elem_of_singleton. done.
  - intros i k Hki. specialize (Hc _ _ Hki). cbn in Hc. apply andb_true_iff in Hc as [Hn Hh].
    rewrite <- Hh. apply holds_agree; [apply agreeing_refl|]. intros t rc Hr. by rewrite Hr in Hn.
  - intros m i Hm Ht. by apply (Hi _ _ Hm).
Qed.

Lemma knows_facts K d : knows (mk_known (empty_tables K) []) d → (∀ t f r, (t, f) ∈ facts K → r ∈ rows_in d t → fact_ok r f = true) → knows K d.
Proof. intros [He _] Hf. by split. Qed.

Lemma lint_op_sound o s s' d K K' : schema_ok s → complete s d → knows K d → apply_schema o s = Some s' → lint_op o s K = Some K' →
  ∃ d', apply_rows o s d = Some d' ∧ knows K' d'.
Proof.
  intros Hs Hcom Hk Es El. destruct o.
  - cbn in El. injection El as <-. eexists. split; [done|]. destruct Hk as [He Hf]. split; cbn.
    + intros t [->|Hin]%elem_of_cons; [by rewrite lookup_insert_eq|]. destruct (decide (t = name)) as [->|Hne]; [by rewrite lookup_insert_eq|].
      rewrite lookup_insert_ne; by auto.
    + intros t f r [Hne Hin]%list_elem_of_filter Hr. unfold rows_in in Hr. rewrite lookup_insert_ne in Hr by done. by eapply Hf.
  - cbn in El. injection El as <-. eexists. split; [done|]. destruct Hk as [He Hf]. split; cbn.
    + intros t [Hne Hin]%list_elem_of_filter. rewrite lookup_delete_ne; by auto.
    + intros t f r [Hne Hin]%list_elem_of_filter Hr. unfold rows_in in Hr. rewrite lookup_delete_ne in Hr by done. by eapply Hf.
  - cbn in El. obind. subst K'. eexists. split; [|done]. cbn.
    assert (index_holds (rows_in d table) (Index.mk table columns unique where_) = true) as ->; [|done].
    apply orb_true_iff in Hu as [Hu|Hu]; [unfold index_holds; cbn; by rewrite Hu|]. rewrite (is_empty_rows K) by done. apply index_holds_nil.
  - cbn in El. injection El as <-. by eexists.
  - destruct column as [c column]. cbn in El, Es. apply bind_Some in Es as (T & HT & Es). apply bind_Some in El as ([] & Hreq & El).
    apply require_true in Hreq. injection El as <-. destruct (complete_rows s d table Hcom) as [rows Hrows]; [by eexists|].
    exists (<[table := (λ r, <[c := default VNull (sa.server_default column)]> r) <$> rows]> d). split.
    + cbn. rewrite Hrows. cbn. assert (eqv rows [] || value_ok column (default VNull (sa.server_default column)) = true) as ->; [|done].
      apply orb_true_iff in Hreq as [Hreq|Hreq]; [|rewrite Hreq; apply orb_true_r]. pose proof (is_empty_spec _ _ _ Hk Hreq). simplify_eq. done.
    + apply knows_learn.
      * rewrite <- (rows_in_lookup _ _ _ Hrows). apply knows_column; [done| |by eexists]. intros r x Hx. by rewrite lookup_insert_ne.
      * intros t f r Hin Hr. destruct (eqv _ VNull) eqn:En; [|by apply not_elem_of_nil in Hin]. apply eqv_eq in En.
        apply list_elem_of_singleton in Hin. injection Hin as -> ->. rewrite rows_in_insert in Hr. apply list_elem_of_fmap in Hr as (r0 & -> & _).
        cbn. unfold check_holds. cbn. rewrite lookup_insert_eq, En. done.
  - cbn in El, Es. apply bind_Some in Es as (T & HT & Es). injection El as <-. destruct (complete_rows s d table Hcom) as [rows Hrows]; [by eexists|].
    exists (<[table := delete column <$> rows]> d). split; [cbn; by rewrite Hrows|]. rewrite <- (rows_in_lookup _ _ _ Hrows).
    apply knows_column; [done| |by eexists]. intros r x Hx. by rewrite lookup_delete_ne.
  - cbn in El. obind. subst K'. eexists. split; [|done]. cbn.
    assert (nullable || forallb (λ r : row, negb (eqv (r !! column) (Some VNull))) (rows_in d table) = true) as ->; [|done].
    apply orb_true_iff in Hu as [Hu|Hu]; [apply orb_true_iff in Hu as [Hu|Hu]|]; [by rewrite Hu| |].
    + rewrite (is_empty_rows K) by done. apply orb_true_r.
    + apply orb_true_iff. right. apply forallb_in. intros r Hr. pose proof (knows_fact_spec _ _ _ _ _ Hk Hu Hr) as Hf. cbn in Hf.
      apply negb_true_iff, eqv_false. intros Hn. by rewrite (check_not_null _ _ _ Hn) in Hf.
  - cbn in El. injection El as <-. by eexists.
  - cbn in El. apply bind_Some in El as (T & HT & El). obind. subst K'. pose proof (lint_constraint_sound _ _ _ _ _ _ Hcom Hk HT Hu) as Hh.
    exists d. split; [cbn; by rewrite Hh|]. apply knows_learn; [done|]. intros t f r Hin Hr. destruct k as [| |n c|]; try by apply not_elem_of_nil in Hin.
    apply list_elem_of_singleton in Hin. injection Hin as -> ->. cbn in Hh. by eapply forallb_in in Hh.
  - cbn in El. injection El as <-. by eexists.
  - cbn in El. injection El as <-. by eexists.
  - cbn in El. injection El as <-. by eexists.
  - cbn in El. injection El as <-. by eexists.
  - cbn in El. injection El as <-. by eexists.
  - cbn in El. apply bind_Some in El as (T & HT & El). apply bind_Some in El as ([] & Hreq & El). apply require_true in Hreq. injection El as <-.
    repeat (apply andb_true_iff in Hreq as [Hreq ?]). repeat match goal with H : bool_decide (map_Forall _ _) = true |- _ => apply bool_decide_eq_true in H end.
    by eapply lint_insert_sound.
  - cbn in El, Es. apply bind_Some in Es as (T & HT & Es). apply bind_Some in El as ([] & Hreq & El). apply require_true in Hreq. injection El as <-.
    eapply lint_delete_sound; [done..|by eexists|done].
  - by eapply lint_update_sound.
  - by eapply lint_update_from_sound.
Qed.

(** A sequence that passes the analysis succeeds. *)
Lemma lint_sound also ops (s s' : Schema.t) d K K' : valid (Database.mk s d) → knows K d → lint also ops s K = Some (s', K') →
  ∃ d', executes ops (Database.mk s d) = Some (Database.mk s' d') ∧ valid (Database.mk s' d') ∧ knows K' d'.
Proof.
  revert s d K. induction ops as [|o ops IH]; intros s d K Hv Hk E; cbn in E; [injection E as <- <-; by exists d|].
  apply bind_Some in E as (_ & _ & E). apply bind_Some in E as (K1 & EK & E). apply bind_Some in E as (s1 & Es & E).
  pose proof (proj1 (valid_complete _) Hv) as [Hs Hcom]. cbn in Hs, Hcom.
  destruct (lint_op_sound _ _ _ _ _ _ Hs Hcom Hk Es EK) as (d1 & Ed & Hk1).
  assert (execute o (Database.mk s d) = Some (Database.mk s1 d1)) as Ea by (unfold execute; cbn; by rewrite Es; cbn; rewrite Ed).
  destruct (IH s1 d1 K1) as (d' & Hd' & Hv' & Hk'); [by eapply apply_valid|done|done|]. exists d'. cbn. rewrite Ea. by cbn.
Qed.

Lemma lint_app also ops1 ops2 s K : lint also (ops1 ++ ops2) s K = sK ← lint also ops1 s K; lint also ops2 sK.1 sK.2.
Proof.
  revert s K. induction ops1 as [|o ops1 IH]; intros s K; [done|]. cbn. destruct (require _); [|done]. cbn.
  destruct (lint_op o s K) as [K1|]; [|done]. cbn. destruct (apply_schema o s); [|done]. cbn. apply IH.
Qed.
Lemma lint_schema also ops s K s' K' : lint also ops s K = Some (s', K') → apply_schemas ops s = Some s'.
Proof.
  revert s K. induction ops as [|o ops IH]; intros s K E; cbn in E; [by injection E as <-|].
  apply bind_Some in E as (_ & _ & E). apply bind_Some in E as (K1 & EK & E). apply bind_Some in E as (s1 & Es & E).
  cbn. rewrite Es. by eapply IH.
Qed.

Lemma start_knows s d : valid (Database.mk s d) → knows (start s) d.
Proof.
  intros Hv. pose proof (proj1 (valid_complete _) Hv) as [Hs [_ Hcom]]. split; [intros t Ht; by apply not_elem_of_nil in Ht|].
  intros t f r Hin Hr. cbn in Hin. apply list_elem_of_bind in Hin as ([t' T] & Hin & HT%elem_of_map_to_list).
  apply list_elem_of_bind in Hin as ([i k] & Hin & Hk%elem_of_map_to_list). cbn in *. destruct k as [| |n c|]; try by apply not_elem_of_nil in Hin.
  apply list_elem_of_singleton in Hin. injection Hin as -> ->. specialize (Hcom _ (ex_intro _ _ HT)).
  rewrite (consistent_spec _ _ _ _ HT) in Hcom. destruct Hcom as (_ & Hc & _). specialize (Hc _ _ Hk). cbn in Hc. by eapply forallb_in in Hc.
Qed.
End lint.

(** ** Soundness of the frame *)

Section frame.
Implicit Types (s : Schema.t) (T : Table.t) (K : known) (d : contents) (table : string).

Definition kept T (r r' : row) : Prop := ∀ c, is_Some (Table.columns T !! c) → r !! c = r' !! c.
Definition preserved (s0 : Schema.t) d d' : Prop :=
  ∀ table T, Schema.tables s0 !! table = Some T → Forall2 (kept T) (rows_in d table) (rows_in d' table).

Lemma kept_refl T rows : Forall2 (kept T) rows rows.
Proof. induction rows; by constructor. Qed.
Lemma kept_fmap T (f : row → row) rows : (∀ r, r ∈ rows → kept T r (f r)) → Forall2 (kept T) rows (f <$> rows).
Proof. induction rows as [|r rows IH]; intros H; constructor; [apply H; set_solver|apply IH; intros; apply H; set_solver]. Qed.
Lemma preserved_refl s0 d : preserved s0 d d.
Proof. intros table T _. apply kept_refl. Qed.
Lemma preserved_trans s0 d1 d2 d3 : preserved s0 d1 d2 → preserved s0 d2 d3 → preserved s0 d1 d3.
Proof.
  intros H1 H2 table T HT. specialize (H1 _ _ HT). specialize (H2 _ _ HT). revert H2. generalize (rows_in d3 table).
  induction H1 as [|x y l l' Hxy _ IH]; intros k H2; inversion H2; subst; constructor; [|by apply IH].
  intros c Hc. rewrite Hxy by done. match goal with H : kept T y _ |- _ => by apply H end.
Qed.

(** Only one table changes, and that one as [s0] sees it not at all. *)
Lemma preserved_one s0 d table rows' :
  (∀ T, Schema.tables s0 !! table = Some T → Forall2 (kept T) (rows_in d table) rows') → preserved s0 d (<[table := rows']> d).
Proof.
  intros H t T HT. destruct (decide (t = table)) as [->|Hne]; [rewrite rows_in_insert; by apply H|].
  unfold rows_in at 2. rewrite lookup_insert_ne by done. apply kept_refl.
Qed.

Lemma never_selected s d K T table w r : complete s d → knows K d → Schema.tables s !! table = Some T →
  entails (Table.columns T) (facts_of K table) (Unselected w) = true → r ∈ rows_in d table → selects w r = false.
Proof.
  intros Hcom Hk HT H Hr. apply negb_true_iff. change (fact_ok r (Unselected w) = true).
  eapply entails_sound; [exact H|by eapply complete_row_ok|]. intros f. by eapply facts_of_spec.
Qed.

Lemma unknown_column_kept s0 table c T : match Schema.tables s0 !! table with Some T => is_none (Table.columns T !! c) | None => true end = true →
  Schema.tables s0 !! table = Some T → ∀ r r' : row, (∀ x, x ≠ c → r !! x = r' !! x) → kept T r r'.
Proof. intros H HT r r' Hs x Hx. rewrite HT in H. apply Hs. intros ->. unfold is_none in H. apply negb_true_iff in H. by destruct (Table.columns T !! c), Hx. Qed.

Lemma update_rows_some s d table column f d' : update_rows s d table column f = Some d' →
  d' = <[table := assign column f <$> rows_in d table]> d.
Proof.
  unfold update_rows. intros E. apply bind_Some in E as (T & HT & E). apply bind_Some in E as (rows & Hrows & E). obind. subst d'.
  by rewrite (rows_in_lookup _ _ _ Hrows).
Qed.

Lemma filter_all {A} (P : A → Prop) `{!∀ x, Decision (P x)} (l : list A) : (∀ x, x ∈ l → P x) → filter P l = l.
Proof.
  induction l as [|x l IH]; intros Hl; [done|]. rewrite filter_cons_True by (apply Hl; set_solver). f_equal. apply IH. set_solver.
Qed.

Lemma keeps_sound s0 o s d d' K : complete s d → knows K d → apply_rows o s d = Some d' → keeps s0 s K o = true → preserved s0 d d'.
Proof.
  intros Hcom Hk Er H.
  assert (∀ table, is_none (Schema.tables s0 !! table) = true → ∀ T, Schema.tables s0 !! table ≠ Some T) as Hunknown.
  { intros table Hn T HT. unfold is_none in Hn. by rewrite HT in Hn. }
  destruct o as [name cols cs|name|name table cols u w|name table|table [c column]|table c|table c b|table c dv|table k|name table ty|name body|name
    |name es table fn|name table|table values|table w|table c to w|table c src sc w j ob]; cbn -[update_rows] in Er, H.
  all: try (injection Er as <-; apply preserved_refl).
  - injection Er as <-. apply preserved_one. intros T HT. by destruct (Hunknown _ H T).
  - injection Er as <-. intros t T HT. unfold rows_in at 2. rewrite lookup_delete_ne; [apply kept_refl|]. intros <-. by destruct (Hunknown _ H T).
  - obind. subst d'. apply preserved_refl.
  - apply bind_Some in Er as (rows & Hrows & Er). obind. subst d'. apply preserved_one. intros T HT. rewrite (rows_in_lookup _ _ _ Hrows).
    apply kept_fmap. intros r _. eapply unknown_column_kept; [exact H|done|]. intros x Hx. by rewrite lookup_insert_ne.
  - apply bind_Some in Er as (rows & Hrows & Er). obind. subst d'. apply preserved_one. intros T HT. rewrite (rows_in_lookup _ _ _ Hrows).
    apply kept_fmap. intros r _. eapply unknown_column_kept; [exact H|done|]. intros x Hx. by rewrite lookup_delete_ne.
  - obind. subst d'. apply preserved_refl.
  - obind. subst d'. apply preserved_refl.
  - apply bind_Some in Er as (T & HT & Er). apply bind_Some in Er as (rows & Hrows & Er). obind. subst d'. apply preserved_one.
    intros T' HT'. by destruct (Hunknown _ H T').
  - apply bind_Some in Er as (rows & Hrows & Er). obind. subst d'. apply preserved_one. intros T HT.
    apply orb_true_iff in H as [H|H]; [by destruct (Hunknown _ H T)|]. destruct (Schema.tables s !! table) as [U|] eqn:HU; [|done].
    rewrite (rows_in_lookup _ _ _ Hrows). assert (filter (λ r, selects w r = false) rows = rows) as ->; [|apply kept_refl].
    apply filter_all. intros r Hr. eapply never_selected; [done..|]. by rewrite (rows_in_lookup _ _ _ Hrows).
  - obind. apply update_rows_some in Er as ->. apply preserved_one. intros T HT. apply kept_fmap. intros r Hr.
    apply orb_true_iff in H as [H|H]; [eapply unknown_column_kept; [exact H|done|]; intros x; apply assign_same|].
    destruct (Schema.tables s !! table) as [U|] eqn:HU; [|done]. unfold assign, assigned. by rewrite (never_selected s d K U table w r).
  - obind. apply update_rows_some in Er as ->. apply preserved_one. intros T HT. apply kept_fmap. intros r Hr.
    eapply unknown_column_kept; [exact H|done|]. intros x. apply assign_same.
Qed.

Lemma lint_keeps_sound s0 ops s s' d d' K K' : valid (Database.mk s d) → knows K d → lint (keeps s0) ops s K = Some (s', K') →
  executes ops (Database.mk s d) = Some (Database.mk s' d') → preserved s0 d d'.
Proof.
  revert s d K. induction ops as [|o ops IH]; intros s d K Hv Hk E Ex; cbn in E, Ex; [injection Ex as -> ->; apply preserved_refl|].
  apply bind_Some in E as ([] & Hl & E). apply require_true in Hl. apply bind_Some in E as (K1 & EK & E). apply bind_Some in E as (s1 & Es & E).
  pose proof (proj1 (valid_complete _) Hv) as [Hs Hcom]. cbn in Hs, Hcom.
  destruct (lint_op_sound _ _ _ _ _ _ Hs Hcom Hk Es EK) as (d1 & Ed & Hk1).
  assert (execute o (Database.mk s d) = Some (Database.mk s1 d1)) as Ea by (unfold execute; cbn; by rewrite Es; cbn; rewrite Ed).
  rewrite Ea in Ex. cbn in Ex. eapply preserved_trans; [by eapply keeps_sound|]. eapply IH; [by eapply apply_valid|done..].
Qed.

(** Databases of the same schema that agree on it are the same. *)
Lemma preserved_eq s d d' : valid (Database.mk s d) → valid (Database.mk s d') → preserved s d d' → d' = d.
Proof.
  intros Hv Hv' Hp. apply valid_complete in Hv as [_ Hcom], Hv' as [_ Hcom']. cbn in *. apply map_eq. intros t.
  destruct (Schema.tables s !! t) as [T|] eqn:HT.
  - destruct (complete_rows s d t Hcom) as [rows Hrows]; [by eexists|]. destruct (complete_rows s d' t Hcom') as [rows' Hrows']; [by eexists|].
    specialize (Hp _ _ HT). pose proof (λ r, complete_row_ok s d t T r Hcom HT) as Hr. pose proof (λ r, complete_row_ok s d' t T r Hcom' HT) as Hr'.
    rewrite (rows_in_lookup _ _ _ Hrows) in *. rewrite (rows_in_lookup _ _ _ Hrows') in *. rewrite Hrows, Hrows'. f_equal. clear -Hp Hr Hr'.
    induction Hp as [|x y rows rows' Hxy _ IH]; [done|]. f_equal; [|apply IH; intros; [apply Hr|apply Hr']; set_solver].
    assert (row_ok (Table.columns T) x = true) as Hx by (apply Hr; set_solver). assert (row_ok (Table.columns T) y = true) as Hy by (apply Hr'; set_solver).
    apply row_ok_spec in Hx as [Hx _], Hy as [Hy _]. apply map_eq. intros c. destruct (decide (c ∈ dom (Table.columns T))) as [Hc|Hc].
    + symmetry. apply Hxy. by apply elem_of_dom.
    + rewrite <- Hx in Hc. assert (c ∉ dom y) as Hc' by (by rewrite Hy, <- Hx). apply not_elem_of_dom in Hc, Hc'. congruence.
  - destruct Hcom as [Hd _], Hcom' as [Hd' _]. assert (t ∉ dom (Schema.tables s)) as Ht by (by apply not_elem_of_dom).
    assert (d !! t = None) as -> by (apply not_elem_of_dom; by rewrite Hd). apply not_elem_of_dom. by rewrite Hd'.
Qed.
End frame.
