(* ===== verification/MigrationsSpec.v ===== *)
(** The migrations as a whole: every upgrade and downgrade succeeds on every valid database
    of its revision, a downgrade undoes the upgrade before it, the last schema is the one
    that the models declare, and the backfill of correlations is the intended one. *)
From S2P Require Import Prelude Types PyStr Json.
From S2P Require Import Ddl Rows Migrations Models Lint.
From stdpp Require Import strings gmap.
Local Open Scope Z_scope.

Module Revision.
Record t := mk {
  revision : option string; down_revision : option string;
  upgrade : instant → list op.operation; downgrade : list op.operation }.
End Revision.

(** The files of migrations/versions in the order of their names. *)
Definition versions : list Revision.t := [
  Revision.mk Identity_audit.revision Identity_audit.down_revision (λ _, Identity_audit.upgrade) Identity_audit.downgrade;
  Revision.mk Registry_domain.revision Registry_domain.down_revision (λ _, Registry_domain.upgrade) Registry_domain.downgrade;
  Revision.mk Discovery.revision Discovery.down_revision (λ _, Discovery.upgrade) Discovery.downgrade;
  Revision.mk Official_registry.revision Official_registry.down_revision (λ _, Official_registry.upgrade) Official_registry.downgrade;
  Revision.mk Execution_ledger.revision Execution_ledger.down_revision Execution_ledger.upgrade Execution_ledger.downgrade;
  Revision.mk Invocation_results.revision Invocation_results.down_revision (λ _, Invocation_results.upgrade) Invocation_results.downgrade;
  Revision.mk Api_idempotency.revision Api_idempotency.down_revision (λ _, Api_idempotency.upgrade) Api_idempotency.downgrade;
  Revision.mk Active_run_index.revision Active_run_index.down_revision (λ _, Active_run_index.upgrade) Active_run_index.downgrade;
  Revision.mk Run_correlation.revision Run_correlation.down_revision (λ _, Run_correlation.upgrade) Run_correlation.downgrade].

(** The schema after the first [n] upgrades of an empty database. *)
Definition schema_after (s : Schema.t) (R : Revision.t) : Schema.t := default s (apply_schemas (Revision.upgrade R 0) s).
Definition schema_at (n : nat) : Schema.t := foldl schema_after Schema.empty (take n versions).

(** Every audit row that the registry revision narrows its checks to names a resource of
    before it, as the services write them. *)
Definition registry_events_named : row_fact :=
  Holds ("action" NOT_IN ["workspace.created"; "membership.changed"; "secret_binding.created"]
         OR "resource_type" IN ["workspace"; "membership"; "secret_binding"])%sql.
Definition assumed (n : nat) : list (string * row_fact) := if decide (n = 1%nat) then [("audit_events"%string, registry_events_named)] else [].

(** *** What the analysis says of the migrations *)

Definition always (s : Schema.t) (K : known) (o : op.operation) : bool := true.
Definition reaches (r : option (Schema.t * known)) (s : Schema.t) : bool := match r with Some (s', _) => eqv s' s | None => false end.

(** The revision after the schema [s], which leads to [s1]. *)
Definition revision_passes (now : instant) (n : nat) (R : Revision.t) (s s1 : Schema.t) : bool :=
  eqv (apply_schemas (Revision.upgrade R now) s) (Some s1)
  && reaches (lint (keeps s) (Revision.upgrade R now ++ Revision.downgrade R) s (start s)) s
  && reaches (lint always (Revision.downgrade R) s1 (learn (start s1) (assumed n))) s.
Fixpoint revisions_pass (now : instant) (n : nat) (Rs : list Revision.t) (s : Schema.t) : bool :=
  match Rs with
  | [] => true
  | R :: Rs => let s1 := schema_after s R in revision_passes now n R s s1 && revisions_pass now (S n) Rs s1
  end.

Lemma versions_pass now : revisions_pass now 0 versions Schema.empty = true.
Proof. by vm_compute. Qed.

Lemma revisions_pass_spec now n Rs s i R : revisions_pass now n Rs s = true → Rs !! i = Some R →
  revision_passes now (n + i) R (foldl schema_after s (take i Rs)) (foldl schema_after s (take (S i) Rs)) = true.
Proof.
  revert n s i. induction Rs as [|R' Rs IH]; intros n s i H Hi; [done|]. cbn -[revision_passes] in H.
  apply andb_true_iff in H as [H1 H]. destruct i as [|i]; cbn in Hi |- *.
  - injection Hi as <-. by rewrite Nat.add_0_r, take_0.
  - rewrite Nat.add_succ_r. by apply (IH (S n)).
Qed.

Lemma revision_pass now n R : versions !! n = Some R → revision_passes now n R (schema_at n) (schema_at (S n)) = true.
Proof. apply (revisions_pass_spec now 0 versions). apply versions_pass. Qed.

(** ** Every migration succeeds *)

#[local] Opaque schema_at.

Lemma schema_empty_ok : schema_ok Schema.empty.
Proof. by split; intros t. Qed.

Lemma apply_schemas_ok ops s s' : schema_ok s → apply_schemas ops s = Some s' → schema_ok s'.
Proof.
  revert s. induction ops as [|o ops IH]; intros s Hs E; cbn in E; [by injection E as <-|].
  apply bind_Some in E as (s1 & Es & E). eapply IH, E. by eapply apply_schema_ok.
Qed.

Lemma reaches_spec r s : reaches r s = true → ∃ K, r = Some (s, K).
Proof. destruct r as [[s' K]|]; [|done]. cbn. intros ->%eqv_eq. eauto. Qed.

Lemma revision_facts now n R : versions !! n = Some R →
  apply_schemas (Revision.upgrade R now) (schema_at n) = Some (schema_at (S n))
  ∧ (∃ K, lint (keeps (schema_at n)) (Revision.upgrade R now ++ Revision.downgrade R) (schema_at n) (start (schema_at n)) = Some (schema_at n, K))
  ∧ ∃ K, lint always (Revision.downgrade R) (schema_at (S n)) (learn (start (schema_at (S n))) (assumed n)) = Some (schema_at n, K).
Proof.
  intros H. pose proof (revision_pass now n R H) as Hp. unfold revision_passes in Hp. apply andb_true_iff in Hp as [Hp Hd].
  apply andb_true_iff in Hp as [Hu Hr]. apply eqv_eq in Hu. split_and!; [done|by apply reaches_spec..].
Qed.

(** The audit rows whose resources only a later revision knows are about what that revision added. *)
Definition named (d : contents) : Prop := ∀ r, r ∈ rows_in d "audit_events" → fact_ok r registry_events_named = true.

Lemma assumed_knows n d : valid (Database.mk (schema_at (S n)) d) → (n = 1%nat → named d) → knows (learn (start (schema_at (S n))) (assumed n)) d.
Proof.
  intros Hv Ha. apply knows_learn; [by apply start_knows|]. unfold assumed. intros t f r Hin Hr. case_decide; [|by apply not_elem_of_nil in Hin].
  apply list_elem_of_singleton in Hin. injection Hin as -> ->. by apply Ha.
Qed.

Lemma upgrades_succeed (now : instant) n R (d : contents) : versions !! n = Some R → valid (Database.mk (schema_at n) d) →
  ∃ d', executes (Revision.upgrade R now) (Database.mk (schema_at n) d) = Some (Database.mk (schema_at (S n)) d')
    ∧ valid (Database.mk (schema_at (S n)) d').
Proof.
  intros H Hv. destruct (revision_facts now n R H) as (Hu & [K Hr] & _). rewrite lint_app in Hr.
  apply bind_Some in Hr as ([s1 K1] & Hl & _). pose proof (lint_schema _ _ _ _ _ _ Hl) as Hs. rewrite Hu in Hs. injection Hs as <-.
  destruct (lint_sound _ _ _ _ _ _ _ Hv (start_knows _ _ Hv) Hl) as (d' & Hd' & Hv' & _). eauto.
Qed.
Lemma downgrades_succeed n R (d : contents) : versions !! n = Some R → valid (Database.mk (schema_at (S n)) d) → (n = 1%nat → named d) →
  ∃ d', executes (Revision.downgrade R) (Database.mk (schema_at (S n)) d) = Some (Database.mk (schema_at n) d')
    ∧ valid (Database.mk (schema_at n) d').
Proof.
  intros H Hv Ha. destruct (revision_facts 0 n R H) as (_ & _ & K' & Hd).
  destruct (lint_sound _ _ _ _ _ _ _ Hv (assumed_knows _ _ Hv Ha) Hd) as (d' & Hd' & Hv' & _). eauto.
Qed.
Lemma downgrade_undoes (now : instant) n R (d : contents) : versions !! n = Some R → valid (Database.mk (schema_at n) d) →
  executes (Revision.upgrade R now ++ Revision.downgrade R) (Database.mk (schema_at n) d) = Some (Database.mk (schema_at n) d).
Proof.
  intros H Hv. destruct (revision_facts now n R H) as (_ & [K Hr] & _).
  destruct (lint_sound _ _ _ _ _ _ _ Hv (start_knows _ _ Hv) Hr) as (d' & Hd' & Hv' & _).
  rewrite (preserved_eq _ _ _ Hv Hv') in Hd'; [exact Hd'|]. exact (lint_keeps_sound _ _ _ _ _ _ _ _ Hv (start_knows _ _ Hv) Hr Hd').
Qed.

(** ** The models *)

#[local] Transparent schema_at.

Definition anonymous (k : sa.constraint) : sa.constraint :=
  match k with
  | sa.UniqueConstraint _ columns => sa.UniqueConstraint None columns
  | sa.ForeignKeyConstraint _ columns table refcolumns ondelete deferred => sa.ForeignKeyConstraint None columns table refcolumns ondelete deferred
  | _ => k
  end.
Definition anonymous_table (T : Table.t) : Table.t :=
  Table.mk (Table.columns T) (list_to_map ((λ ik, (id_of (anonymous ik.2), anonymous ik.2)) <$> map_to_list (Table.constraints T))).

(** The tables and events that have a trigger, and those that have a listener. *)
Definition event_number (e : event) : nat := match e with INSERT => 0 | UPDATE => 1 | DELETE => 2 end.
Definition triggered (s : Schema.t) : gset (string * nat) :=
  list_to_set (map_to_list (Schema.triggers s) ≫= λ kt, (λ e, (Trigger.table_name kt.2, event_number e)) <$> Trigger.events kt.2).
Definition listened : gset (string * nat) := list_to_set ((λ '(m, e, _), (tablename m, event_number e)) <$> listeners).

Definition same_schema (s s' : Schema.t) : bool :=
  bool_decide (anonymous_table <$> Schema.tables s = anonymous_table <$> Schema.tables s') && bool_decide (Schema.indexes s = Schema.indexes s').
Definition models_match : bool :=
  match apply_schemas (create_all metadata) Schema.empty with Some s => same_schema s (schema_at 9) | None => false end
  && bool_decide (triggered (schema_at 9) = listened).
Lemma models_matched : models_match = true.
Proof. by vm_compute. Qed.

Lemma matches_spec (o : option Schema.t) s' : match o with Some s => same_schema s s' | None => false end = true →
  ∃ s, o = Some s ∧ anonymous_table <$> Schema.tables s = anonymous_table <$> Schema.tables s' ∧ Schema.indexes s = Schema.indexes s'.
Proof.
  destruct o as [s|]; [|done]. unfold same_schema. rewrite andb_true_iff, !bool_decide_eq_true. intros [? ?]. by exists s.
Qed.

#[local] Opaque schema_at.
(** What the models declare is what a schema holds: the same tables, with their columns,
    constraints and indexes, apart from the names of unique and foreign keys; and the
    triggers guard the same events of the same tables as the listeners of the models. *)
Definition declared_by_models (s' : Schema.t) : Prop :=
  ∃ s, apply_schemas (create_all metadata) Schema.empty = Some s
  ∧ anonymous_table <$> Schema.tables s = anonymous_table <$> Schema.tables s'
  ∧ Schema.indexes s = Schema.indexes s'
  ∧ triggered s' = listened.
Lemma models_are_migrated : declared_by_models (schema_at 9).
Proof.
  pose proof models_matched as H. unfold models_match in H. apply andb_true_iff in H as [H Ht].
  apply matches_spec in H as (s & Hs & H). exists s. split; [exact Hs|]. destruct H as [H Hi]. split; [exact H|]. split; [exact Hi|].
  exact (bool_decide_eq_true_1 _ Ht).
Qed.


(** ** The backfill of correlations *)

#[local] Transparent schema_at.
Definition column_at (n : nat) (table c : string) : option sa.column :=
  T ← Schema.tables (schema_at n) !! table; Table.columns T !! c.
Lemma correlation_columns_are :
  (column_at 8 "audit_events" <$> ["id"; "workspace_id"; "resource_id"; "correlation_id"; "occurred_at"]%string)
  ++ (column_at 8 "runs" <$> ["id"; "workspace_id"]%string)
  = (λ ty, Some (sa.mk_column ty false None)) <$> [sa.Uuid; sa.Uuid; sa.Uuid; sa.Uuid; sa.DateTime; sa.Uuid; sa.Uuid].
Proof. by vm_compute. Qed.
#[local] Opaque schema_at column_at.
Definition required (ty : sa.type) : option sa.column := Some (sa.mk_column ty false None).
Lemma list_7 {A} (a1 a2 a3 a4 a5 a6 a7 b1 b2 b3 b4 b5 b6 b7 : A) : [a1; a2; a3; a4; a5; a6; a7] = [b1; b2; b3; b4; b5; b6; b7] →
  a1 = b1 ∧ a2 = b2 ∧ a3 = b3 ∧ a4 = b4 ∧ a5 = b5 ∧ a6 = b6 ∧ a7 = b7.
Proof. intros [=]. split_and!; done. Qed.
Lemma correlation_columns :
  column_at 8 "audit_events" "id" = required sa.Uuid ∧ column_at 8 "audit_events" "workspace_id" = required sa.Uuid
  ∧ column_at 8 "audit_events" "resource_id" = required sa.Uuid ∧ column_at 8 "audit_events" "correlation_id" = required sa.Uuid
  ∧ column_at 8 "audit_events" "occurred_at" = required sa.DateTime
  ∧ column_at 8 "runs" "id" = required sa.Uuid ∧ column_at 8 "runs" "workspace_id" = required sa.Uuid.
Proof. exact (list_7 _ _ _ _ _ _ _ _ _ _ _ _ _ _ correlation_columns_are). Qed.

(** The row of the audit log that records the creation of a run. *)
Definition creates (e r : row) : Prop :=
  e !! "resource_type"%string = Some (VString "run") ∧ e !! "action"%string = Some (VString "run.created")
  ∧ e !! "outcome"%string = Some (VString "succeeded")
  ∧ e !! "workspace_id"%string = r !! "workspace_id"%string ∧ e !! "resource_id"%string = r !! "id"%string.
Definition not_after (e e' : row) : Prop :=
  ∃ t u t' u', e !! "occurred_at"%string = Some (VDateTime t) ∧ e !! "id"%string = Some (VUuid u)
    ∧ e' !! "occurred_at"%string = Some (VDateTime t') ∧ e' !! "id"%string = Some (VUuid u') ∧ (t < t' ∨ t = t' ∧ (u ≤ u')%positive).
(** The correlation of the first of them, and the identifier of the run where there is none. *)
Definition correlation_of (audits : list row) (r : row) (v : value) : Prop :=
  (∃ e, e ∈ audits ∧ creates e r ∧ (∀ e', e' ∈ audits → creates e' r → not_after e e') ∧ e !! "correlation_id"%string = Some v)
  ∨ ((∀ e, e ∈ audits → ¬ creates e r) ∧ r !! "id"%string = Some v).

Lemma uuid_value columns r c column : row_ok columns r = true → columns !! c = Some column → sa.type_ column = sa.Uuid → sa.nullable column = false →
  ∃ u, r !! c = Some (VUuid u).
Proof.
  intros Hr Hc Ht Hn. destruct (row_ok_value _ _ _ _ Hr Hc) as (v & Hv & Hok). unfold value_ok, fits in Hok. rewrite Ht, Hn in Hok.
  destruct v; try done; eauto.
Qed.
Lemma time_value columns r c column : row_ok columns r = true → columns !! c = Some column → sa.type_ column = sa.DateTime → sa.nullable column = false →
  ∃ t, r !! c = Some (VDateTime t).
Proof.
  intros Hr Hc Ht Hn. destruct (row_ok_value _ _ _ _ Hr Hc) as (v & Hv & Hok). unfold value_ok, fits in Hok. rewrite Ht, Hn in Hok.
  destruct v; try done; eauto.
Qed.

(** Sorting by the two columns. *)
Definition dated (e : row) : Prop := ∃ t u, e !! "occurred_at"%string = Some (VDateTime t) ∧ e !! "id"%string = Some (VUuid u).
Lemma row_le_not_after e e' : dated e → dated e' → row_le ["occurred_at"; "id"] e e' = true ↔ not_after e e'.
Proof.
  intros (t & u & Ht & Hu) (t' & u' & Ht' & Hu'). unfold not_after. cbn. rewrite Ht, Ht', Hu, Hu'. cbn. unfold eqv. split.
  - intros H. exists t, u, t', u'. split_and!; [done..|]. case_bool_decide as E.
    + injection E as ->. right. split; [done|]. case_bool_decide as E'; [injection E' as ->; lia|]. by apply Pos.leb_le.
    + left. apply Z.leb_le in H. assert (t ≠ t') by (intros ->; done). lia.
  - intros (t1 & u1 & t2 & u2 & E1 & E2 & E3 & E4 & H). injection E1 as <-. injection E2 as <-. injection E3 as <-. injection E4 as <-.
    case_bool_decide as E.
    + injection E as ->. case_bool_decide; [done|]. apply Pos.leb_le. destruct H as [H|[_ H]]; [lia|done].
    + apply Z.leb_le. destruct H as [H|[-> _]]; [lia|done].
Qed.
Lemma not_after_trans e1 e2 e3 : not_after e1 e2 → not_after e2 e3 → not_after e1 e3.
Proof.
  intros (t1 & u1 & t2 & u2 & E1 & E2 & E3 & E4 & H) (t2' & u2' & t3 & u3 & F1 & F2 & F3 & F4 & H'). simplify_eq.
  exists t1, u1, t3, u3. split_and!; [done..|]. lia.
Qed.
Lemma not_after_total e e' : dated e → dated e' → not_after e e' ∨ not_after e' e.
Proof.
  intros (t & u & Ht & Hu) (t' & u' & Ht' & Hu'). destruct (decide (t < t' ∨ t = t' ∧ (u ≤ u')%positive)).
  - left. exists t, u, t', u'. by split_and!.
  - right. exists t', u', t, u. split_and!; [done..|]. lia.
Qed.

Lemma first_row_least rows e : Forall dated rows → first_row ["occurred_at"; "id"] rows = Some e → ∀ e', e' ∈ rows → not_after e e'.
Proof.
  intros Hd. revert e. induction Hd as [|x rows Hx Hrows IH]; intros e E; [done|]. unfold first_row in *. cbn [foldr] in E.
  set (best := foldr _ None rows) in *. destruct best as [b|] eqn:Eb.
  - assert (dated b) as Hb. { eapply Forall_forall; [exact Hrows|]. apply (first_row_elem ["occurred_at"; "id"]%string). exact Eb. }
    destruct (row_le ["occurred_at"; "id"] x b) eqn:El; injection E as <-; intros e' [->|He']%elem_of_cons.
    + by destruct (not_after_total x x).
    + apply row_le_not_after in El; [|done|done]. eapply not_after_trans; [exact El|by apply IH].
    + destruct (not_after_total x b) as [H|H]; [done|done| |done]. apply row_le_not_after in H; [|done|done]. congruence.
    + by apply IH.
  - injection E as <-. intros e' [->|He']%elem_of_cons; [by destruct (not_after_total x x)|].
    destruct rows as [|y rows]; [by apply not_elem_of_nil in He'|]. exfalso. unfold best in Eb. cbn [foldr] in Eb. destruct (foldr _ _ rows); [destruct (row_le _ _ _) in Eb|]; done.
Qed.

Lemma selects_and p q r : selects (sa.And p q) r = selects p r && selects q r.
Proof.
  unfold selects. cbn. destruct (eval r p) as [x|], (eval r q) as [y|]; cbn; try by rewrite ?andb_false_r.
  by destruct x as [[]|], y as [[]|].
Qed.
Lemma selects_literal c s r : selects (sa.Compare sa.Eq (sa.Col c) (sa.Lit s)) r = true ↔ r !! c = Some (VString s).
Proof.
  unfold selects. cbn. destruct (r !! c) as [v|]; [|done]. cbn. destruct v as [| |t| | | |]; cbn; try done.
  unfold eqv. repeat case_bool_decide; naive_solver.
Qed.

(** The pairs that the statement joins. *)
Definition created_where : sa.condition :=
  ("resource_type" = sa.Lit "run" AND "action" = sa.Lit "run.created" AND "outcome" = sa.Lit "succeeded")%sql.
Definition created_join : list (string * string) := [("workspace_id", "workspace_id"); ("resource_id", "id")]%string.

Lemma created_where_spec e : selects created_where e = true ↔ e !! "resource_type"%string = Some (VString "run")
  ∧ e !! "action"%string = Some (VString "run.created") ∧ e !! "outcome"%string = Some (VString "succeeded").
Proof. unfold created_where. by rewrite !selects_and, !andb_true_iff, !selects_literal. Qed.

Lemma key_of_pair a b (r : row) u v : r !! a = Some (VUuid u) → r !! b = Some (VUuid v) → key_of [a; b] r = Some [VUuid u; VUuid v].
Proof. intros Ha Hb. unfold key_of. cbn. rewrite Ha, Hb. cbn. rewrite bool_decide_eq_false_2; [done|]. set_solver. Qed.

(** What the statement selects for a run. *)
Lemma created_spec e r : (∃ u v, e !! "workspace_id"%string = Some (VUuid u) ∧ e !! "resource_id"%string = Some (VUuid v)) →
  (∃ u v, r !! "workspace_id"%string = Some (VUuid u) ∧ r !! "id"%string = Some (VUuid v)) →
  (selects created_where e = true ∧ key_of created_join.*1 e = key_of created_join.*2 r ∧ is_Some (key_of created_join.*2 r)) ↔ creates e r.
Proof.
  intros (u & v & Hu & Hv) (u' & v' & Hu' & Hv').
  change (created_join.*1) with ["workspace_id"; "resource_id"]%string. change (created_join.*2) with ["workspace_id"; "id"]%string. rewrite (key_of_pair _ _ _ _ _ Hu Hv), (key_of_pair _ _ _ _ _ Hu' Hv'), created_where_spec.
  unfold creates. rewrite Hu, Hv, Hu', Hv'. split.
  - intros ((? & ? & ?) & [= -> ->] & _). done.
  - intros (? & ? & ? & [= ->] & [= ->]). split_and!; done.
Qed.

Section backfill.
Context (audits : list row).
Context (Haudits : ∀ e, e ∈ audits → dated e ∧ (∃ u, e !! "correlation_id"%string = Some (VUuid u))
  ∧ ∃ u v, e !! "workspace_id"%string = Some (VUuid u) ∧ e !! "resource_id"%string = Some (VUuid v)).

(** What the three statements make of the row of a run. *)
Definition backfilled (r : row) : row :=
  assign "correlation_id" (assigned (sa.Col "id") (sa.IsNull "correlation_id"))
    (assign "correlation_id" (assigned_from audits "correlation_id" created_where created_join ["occurred_at"; "id"]%string)
      (<["correlation_id"%string := VNull]> r)).

Lemma backfilled_spec (r : row) u w : r !! "id"%string = Some (VUuid u) → r !! "workspace_id"%string = Some (VUuid w) →
  ∃ v, correlation_of audits r v ∧ backfilled r = <["correlation_id"%string := v]> r.
Proof.
  intros Hid Hw. unfold backfilled. set (r1 := <[_ := VNull]> r).
  assert (∀ x, x ≠ "correlation_id"%string → r1 !! x = r !! x) as Hr1 by (intros x Hx; unfold r1; by rewrite lookup_insert_ne).
  assert (∀ e, e ∈ audits → (selects created_where e = true ∧ key_of created_join.*1 e = key_of created_join.*2 r1
    ∧ is_Some (key_of created_join.*2 r1)) ↔ creates e r) as Hsel.
  { intros e He. destruct (Haudits e He) as (_ & _ & Hu). rewrite created_spec; [|done|exists w, u; by rewrite !Hr1].
    unfold creates. by rewrite !Hr1. }
  unfold assign at 2, assigned_from. set (found := filter _ audits).
  assert (∀ e, e ∈ found ↔ e ∈ audits ∧ creates e r) as Hfound.
  { intros e. unfold found. rewrite list_elem_of_filter. pose proof (Hsel e). tauto. }
  destruct (first_row ["occurred_at"; "id"]%string found) as [e|] eqn:E; cbn [mbind option_bind].
  - pose proof (first_row_elem _ _ _ E) as He. apply Hfound in He as [He Hc]. destruct (Haudits e He) as (_ & (c & Hcor) & _).
    rewrite Hcor. exists (VUuid c). split.
    + left. exists e. split_and!; [done|done| |done]. intros e' He' Hc'. eapply first_row_least; [|exact E|by apply Hfound].
      apply Forall_forall. intros x Hx. apply Hfound in Hx as [Hx _]. by apply Haudits.
    + unfold assign, assigned. rewrite (selects_null _ _ (VUuid c)) by (by rewrite lookup_insert_eq).
      change (eqv (VUuid c) VNull) with false. cbn iota. unfold r1. by rewrite insert_insert_eq.
  - exists (VUuid u). split.
    + right. split; [|done]. intros e He Hc. assert (e ∈ found) as Hin by (by apply Hfound). unfold first_row in E.
      destruct found as [|x found']; [by apply not_elem_of_nil in Hin|]. cbn [foldr] in E. destruct (foldr _ _ found'); [destruct (row_le _ _ _) in E|]; done.
    + unfold assign, assigned. rewrite (selects_null _ _ VNull) by (unfold r1; by rewrite lookup_insert_eq).
      rewrite eqv_refl. cbn [eval_term]. rewrite Hr1 by done. rewrite Hid. unfold r1. by rewrite insert_insert_eq.
Qed.
End backfill.

(** The rows after the statements of the migration. *)
Lemma execute_rows o s s' (d d' : contents) : execute o (Database.mk s d) = Some (Database.mk s' d') → apply_rows o s d = Some d'.
Proof. unfold execute. cbn. intros E. apply bind_Some in E as (? & _ & E). apply bind_Some in E as (? & Er & E). by injection E as _ ->. Qed.
Lemma add_column_rows table c column s (d d' : contents) : apply_rows (op.add_column table (c, column)) s d = Some d' →
  d' = <[table := (λ r, <[c := default VNull (sa.server_default column)]> r) <$> rows_in d table]> d.
Proof. cbn. intros E. apply bind_Some in E as (rows & Hrows & E). obind. by rewrite (rows_in_lookup _ _ _ Hrows). Qed.

Lemma run_correlation_rows s s' (d d' : contents) : executes Run_correlation.upgrade (Database.mk s d) = Some (Database.mk s' d') →
  d' = <["runs"%string := backfilled (rows_in d "audit_events") <$> rows_in d "runs"]> d.
Proof.
  intros E. unfold Run_correlation.upgrade in E. cbn [executes] in E.
  apply bind_Some in E as ([s1 d1] & E1 & E). apply execute_rows, add_column_rows in E1.
  apply bind_Some in E as ([s2 d2] & E2 & E). apply execute_rows in E2. apply bind_Some in E2 as (_ & _ & E2). apply update_rows_some in E2.
  apply bind_Some in E as ([s3 d3] & E3 & E). apply execute_rows in E3. apply bind_Some in E3 as (_ & _ & E3). apply update_rows_some in E3.
  apply bind_Some in E as ([s4 d4] & E4 & E). apply execute_rows in E4. apply bind_Some in E4 as (_ & _ & E4). injection E4 as E4.
  apply bind_Some in E as ([s5 d5] & E5 & E). apply execute_rows in E5. apply bind_Some in E5 as (_ & _ & E5). injection E5 as E5.
  injection E as _ E. rewrite <- E, <- E5, <- E4, E3, E2, E1.
  rewrite !rows_in_insert, !insert_insert_eq. f_equal. rewrite <- !list_fmap_compose. apply list_fmap_ext. intros i r _.
  unfold backfilled, compose. unfold rows_in at 1. by rewrite lookup_insert_ne.
Qed.

#[local] Transparent column_at.
Lemma column_at_rows n (d : contents) table c column r : valid (Database.mk (schema_at n) d) → column_at n table c = Some column →
  r ∈ rows_in d table → ∃ columns, row_ok columns r = true ∧ columns !! c = Some column.
Proof.
  intros Hv Hc Hr. apply valid_complete in Hv as [_ Hcom]. unfold column_at in Hc. apply bind_Some in Hc as (T & HT & Hc).
  exists (Table.columns T). split; [by eapply complete_row_ok|done].
Qed.

#[local] Opaque column_at.
Lemma uuid_at n (d : contents) table c r : valid (Database.mk (schema_at n) d) → column_at n table c = required sa.Uuid →
  r ∈ rows_in d table → ∃ u, r !! c = Some (VUuid u).
Proof.
  intros Hv Hc Hr. destruct (column_at_rows _ _ _ _ _ _ Hv Hc Hr) as (columns & Hrow & Hcol).
  exact (uuid_value _ _ _ _ Hrow Hcol eq_refl eq_refl).
Qed.
Lemma time_at n (d : contents) table c r : valid (Database.mk (schema_at n) d) → column_at n table c = required sa.DateTime →
  r ∈ rows_in d table → ∃ t, r !! c = Some (VDateTime t).
Proof.
  intros Hv Hc Hr. destruct (column_at_rows _ _ _ _ _ _ Hv Hc Hr) as (columns & Hrow & Hcol).
  exact (time_value _ _ _ _ Hrow Hcol eq_refl eq_refl).
Qed.
Lemma audits_dated (d : contents) : valid (Database.mk (schema_at 8) d) → ∀ e, e ∈ rows_in d "audit_events" →
  dated e ∧ (∃ u, e !! "correlation_id"%string = Some (VUuid u))
  ∧ ∃ u v, e !! "workspace_id"%string = Some (VUuid u) ∧ e !! "resource_id"%string = Some (VUuid v).
Proof.
  intros Hv e He. pose proof correlation_columns as (Hid & Hws & Hres & Hcor & Hocc & _).
  destruct (uuid_at _ _ _ _ _ Hv Hid He) as [u Hu], (time_at _ _ _ _ _ Hv Hocc He) as [t Ht].
  destruct (uuid_at _ _ _ _ _ Hv Hws He) as [w Hw], (uuid_at _ _ _ _ _ Hv Hres He) as [x Hx].
  split; [exists t, u; split; [exact Ht|exact Hu]|]. split; [exact (uuid_at _ _ _ _ _ Hv Hcor He)|]. exists w, x. split; [exact Hw|exact Hx].
Qed.

(** C40. The migration that gives runs a correlation gives every run the correlation of the
    first successful audit row that records its creation, by time and then identifier, and
    its own identifier where there is none; it changes nothing else. *)
Theorem correlations_backfilled (now : instant) (d : contents) : valid (Database.mk (schema_at 8) d) →
  ∃ d', executes (Run_correlation.upgrade) (Database.mk (schema_at 8) d) = Some (Database.mk (schema_at 9) d')
    ∧ (∀ table, table ≠ "runs"%string → d' !! table = d !! table)
    ∧ Forall2 (λ r r', ∃ v, correlation_of (rows_in d "audit_events") r v ∧ r' = <["correlation_id"%string := v]> r)
        (rows_in d "runs") (rows_in d' "runs").
Proof.
  intros Hv. destruct (upgrades_succeed now 8 _ d eq_refl Hv) as (d' & Hd' & _). exists d'. split; [exact Hd'|].
  pose proof (run_correlation_rows _ _ _ _ Hd') as ->. split; [intros t Ht; by rewrite lookup_insert_ne|]. rewrite rows_in_insert.
  pose proof correlation_columns as (_ & _ & _ & _ & _ & Hrid & Hrws).
  assert (∀ r, r ∈ rows_in d "runs" → ∃ v, correlation_of (rows_in d "audit_events") r v
    ∧ backfilled (rows_in d "audit_events") r = <["correlation_id"%string := v]> r) as Hall.
  { intros r Hr. destruct (uuid_at _ _ _ _ _ Hv Hrid Hr) as [u Hu], (uuid_at _ _ _ _ _ Hv Hrws Hr) as [w Hw].
    eapply backfilled_spec; [|exact Hu|exact Hw]. intros e He. exact (audits_dated _ Hv e He). }
  clear -Hall. induction (rows_in d "runs") as [|r rows IH]; constructor; [by apply Hall; set_solver|]. apply IH. intros; apply Hall; set_solver.
Qed.

(** ** A database *)

Module MigrationScenario.
#[local] Transparent schema_at.
Definition s8 : Schema.t := schema_at 8.

(** Rows by table, the columns that are left out NULL. *)
Definition contents_of (s : Schema.t) (given : list (string * list (string * value))) : contents :=
  map_imap (λ table T, Some (inserted T <$> (snd <$> filter (λ tv, tv.1 = table) given))) (Schema.tables s).

Local Open Scope string_scope.
Definition id (n : positive) : string * value := ("id", VUuid n).
Definition in_workspace : string * value := ("workspace_id", VUuid 2).
Definition created : string * value := ("created_at", VDateTime 0).
Definition created_by : string * value := ("created_by_user_id", VUuid 1).
Definition run (n : positive) : string * list (string * value) := ("runs",
  [id n; in_workspace; created; ("actor_user_id", VUuid 1); ("capability_id", VUuid 5); ("capability_version_id", VUuid 6);
   ("connection_id", VUuid 3); ("connection_version_id", VUuid 4); ("connection_control_epoch", VInteger 1);
   ("capability_status_epoch", VInteger 1); ("protocol_revision", VString "2025-06-18"); ("status", VString "queued");
   ("arguments_expires_at", VDateTime 10); ("deadline", VDateTime 10); ("cancellation_requested", VBoolean false);
   ("updated_at", VDateTime 0)]).
Definition given : list (string * list (string * value)) := [
  ("users", [id 1; created; ("oidc_issuer", VString "issuer"); ("oidc_subject", VString "subject")]);
  ("workspaces", [id 2; created; ("name", VString "team")]);
  ("server_connections", [id 3; in_workspace; created; created_by; ("name", VString "tools"); ("lifecycle", VString "active");
     ("verified_version_id", VUuid 4); ("control_epoch", VInteger 1); ("refresh_generation", VInteger 0)]);
  ("server_connection_versions", [id 4; in_workspace; created; created_by; ("connection_id", VUuid 3); ("sequence", VInteger 1);
     ("endpoint_url", VString "https://tools.example"); ("transport", VString "streamable_http"); ("policy_version", VString "1")]);
  ("capabilities", [id 5; in_workspace; created; ("connection_id", VUuid 3); ("tool_identity", VString "search");
     ("enabled_version_id", VUuid 6); ("status", VString "enabled"); ("status_epoch", VInteger 1)]);
  ("capability_versions", [id 6; in_workspace; created; ("capability_id", VUuid 5); ("sequence", VInteger 1);
     ("display_name", VString "Search"); ("input_schema", VJson (Json.Dict [])); ("metadata_digest", VString "digest");
     ("schema_supported", VBoolean true)]);
  run 7; run 8;
  ("audit_events", [id 9; in_workspace; ("actor_user_id", VUuid 1); ("action", VString "run.created"); ("resource_type", VString "run");
     ("resource_id", VUuid 7); ("outcome", VString "succeeded"); ("correlation_id", VUuid 10); ("occurred_at", VDateTime 0)])].
Definition d8 : contents := contents_of s8 given.

Definition check (s : Schema.t) (d : contents) : bool :=
  bool_decide (dom d = dom (Schema.tables s)) && forallb (consistent s d) (elements (dom (Schema.tables s))).
Lemma check_complete s d : check s d = true → complete s d.
Proof.
  unfold check. rewrite andb_true_iff, bool_decide_eq_true, forallb_in. intros [Hd H]. split; [done|]. intros t Ht. apply H.
  by apply elem_of_elements, elem_of_dom.
Qed.
Lemma d8_check : check s8 d8 = true.
Proof. by vm_compute. Qed.
#[local] Opaque schema_at.

Lemma schema_at_ok n R : versions !! n = Some R → schema_ok (schema_at n) → schema_ok (schema_at (S n)).
Proof. intros H Hs. destruct (revision_facts 0 n R H) as (Hu & _). by eapply apply_schemas_ok. Qed.
Lemma s8_ok : schema_ok (schema_at 8).
Proof.
  do 8 (eapply schema_at_ok; [done|]). change (schema_at 0) with Schema.empty. apply schema_empty_ok.
Qed.
Lemma d8_valid : valid (Database.mk (schema_at 8) d8).
Proof. apply valid_complete. split; [exact s8_ok|]. apply check_complete. exact d8_check. Qed.
End MigrationScenario.

Lemma correlations_backfilled_witness :
  ∃ d', executes (Run_correlation.upgrade) (Database.mk (schema_at 8) MigrationScenario.d8) = Some (Database.mk (schema_at 9) d')
    ∧ (∀ table, table ≠ "runs"%string → d' !! table = MigrationScenario.d8 !! table)
    ∧ Forall2 (λ r r', ∃ v, correlation_of (rows_in MigrationScenario.d8 "audit_events") r v ∧ r' = <["correlation_id"%string := v]> r)
        (rows_in MigrationScenario.d8 "runs") (rows_in d' "runs").
Proof. exact (correlations_backfilled 0 MigrationScenario.d8 MigrationScenario.d8_valid). Defined.

